(* ===== verification/_CoqProject ===== *)
-Q . S2P
Prelude.v
Text.v
Db.v
Tx.v
Staging.v
StagingTheorems.v
StageQueries.v
LifecycleStages.v
QueueQueries.v
DeploymentQueue.v
QueueSafety.v
QueueTheorems.v
DispatchQueries.v
Gate.v
StageTheorems.v
Roles.v
AccessQueries.v
Base64.v
Secret.v
Variables.v
Resolution.v
Preview.v
VariableTheorems.v
PreviewTheorems.v
NetAddr.v
Ansible.v
AnsibleTheorems.v
RemoteLifecycle.v
RemoteSafety.v
RemoteSpec.v
RemoteRefine.v
CreationQueries.v
GateQueries.v
ArtifactGate.v
DeploymentCreation.v
StepQueries.v
RemotePayload.v
LogScrub.v
LogBuffer.v
RemoteSteps.v
AgentPoll.v
RemoteLogs.v
StepSpec.v
System.v
CreationSafety.v
StepSafety.v
StepBodies.v
Runs.v
Plans.v
Captures.v
SampleServer.v
RemoteTheorems.v
CreationTheorems.v
GateTheorems.v
Access.v
AccessTheorems.v
TokenScopes.v
Password.v
Accounts.v
LogScrubTheorems.v
LogBufferTheorems.v
StepTheorems.v
SweepTheorems.v
PollTheorems.v
StagingTransfers.v
LogWriter.v
LogWriterTheorems.v
StepRunner.v
StepRunnerTheorems.v
Container.v
ContainerTheorems.v
Runtime.v
LocalStaging.v
LocalStep.v
LocalRun.v
LocalRunner.v
RunCalculus.v
RunPlan.v
LocalRunTheorems.v
LocalSafety.v
