(* ===== verification/Prelude.v ===== *)
(** * DurpDeploy: the core of a deployment server

    DurpDeploy deploys releases of projects to environments. A deployment runs
    either in the server's local runner or on a remote agent that polls the
    server. The server keeps its whole state in a relational database; every
    modelled operation is one transaction, or a short loop of transactions, of
    the repository layer (src/internal/repository) over the statements that
    sqlc generates (src/internal/db).

    ** Parts

    - [Prelude] errors and the result monad, SQL's three-valued comparisons on
      [option], UPDATE and uniqueness over a [gmap] table, ORDER BY as an
      insertion sort, generated record setters.
    - [Db] the rows (internal/db/models.go) and the tables as one record [DB],
      with the CHECK and UNIQUE constraints of the migrations that the modelled
      statements can violate as boolean functions. The database clock [db_now] is a table of the store:
      it does not move inside a transaction ([unixepoch()] of one statement is
      read once per transaction by the code, through CurrentUnixTime).
    - [Tx] the transaction monad [DB -> result (A * DB)]: an UPDATE whose new
      table violates a constraint is [ErrConstraint]; [WithTx] commits or
      rolls back (repository.go), [withQueueTx] (deployment_queue_audit.go)
      purges staged data before the commit and appends the audit entries after
      it. It also holds two calculi: weakest preconditions ([wp]) and
      relations respected by every successful run ([respects], with the hint
      database and the tactic of that name).
    - [QueueQueries] one Definition per statement of deployment_queue.sql.go,
      deployment_state.sql.go and the log and verification statements the
      queue uses.
    - [DeploymentQueue] the functions of deployment_queue.go and
      ApproveDeployment of deployment_creation.go, under their Go names; the
      abstract view of the queue: a scope is a (project, environment) pair, a
      blocker is a deployment that may occupy its scope, [queue_inv] says that
      a scope has at most one blocker and that a held slot belongs to it. The
      relation [advanced] specifies what advancing one scope does.
    - [QueueSafety] the interfaces [StoreRelation], [QueueRelation] and
      [CommitRelation]: what a relation on stores must satisfy so that every
      transaction of the queue, and every commit, respects it. [keeps_queue], the
      relation [store_step] of [System] and the relation [kept] of [Captures] are
      their instances, so the commit-level lemmas are proved once.
    - [QueueTheorems] the properties of the queue.
    - [DispatchQueries] the statements of agent_dispatch.sql.go, agents.sql.go
      and the step-run statements that revocation uses.
    - [RemoteLifecycle] remote_lifecycle.go, remote_deployment_start.go,
      remote_terminal.go, remote_cancellation.go, remote_transactions.go,
      remote_poll_claim.go, remote_resource_policy.go and agent_admin.go.
      The protocol's timeouts and Go's [%q] are the class [AgentEnvironment].
    - [RemoteSafety] when a lock is granted and which claim rows satisfy the
      constraints after each transition.
    - [RemoteSpec] the abstract machine: [lifecycle now] is a relation on one
      (claim, deployment) pair, with a rule per transition an agent or the
      server can make; [claim_edge] is its projection to states.
    - [RemoteRefine] each concrete operation performs exactly the abstract
      transition that its guards select, or fails without effect.
    - [Ansible], [AnsibleTheorems] internal/stepdefinition: when a step
      definition is valid, and the target hosts of an Ansible inventory; the
      declarative reading of an inventory that [Targets] computes. [NetAddr] is
      net.ParseIP.
    - [CreationQueries], [GateQueries] the statements of deployments.sql.go,
      deployment_steps.sql.go, rollback.sql.go, idempotency.sql.go and
      artifact_gates.sql.go; [DeploymentCreation] the functions of
      deployment_creation.go, deployment_insert.go, deployment_snapshot.go,
      verification.go, ansible.go, idempotency.go and rollback.go;
      [ArtifactGate] those of artifact_gate.go and artifact_gate_storage.go,
      and completeDeployment of internal/runner/deployment_result.go.
    - [System] the invariant of the whole store in two strengths, [store_inv]:
      [store_inv false] is kept by every entry point whatever it is called on,
      the full one, [sys_inv], adds the contract of the queue and of the remote
      lifecycle; and the relations [store_step] and [sys_step] between stores.
      [CreationSafety] that the statements and transactions of
      creation and of the gates respect them. [Runs] is the interface
      [Server], what the entry points need from the server around them; the
      entry points as a type [event]; [run] performs a sequence of them, each
      of which may succeed or fail, with no condition on when they are called.
      [run_kept] shows that every run keeps [store_inv false], and [run_step]
      that a run that is [contractual] keeps [sys_inv]. [SampleServer] is the
      instance the witnesses evaluate.
    - [Plans] what creation does to the plans of deployments: the interface
      [TableRelation] for relations that only read the creation tables, and the
      specification [deployed] of a new deployment: its row, its admission, its
      frozen steps, its captured variables. [Captures] the rows that are only
      added, idempotency keys and captured variables: no entry point changes one
      ([run_keeps]); the rotation of the key over the tables of variables
      (cmd/server: main.go, artifact_key.go, deployment_variable_key.go,
      lifecycle_variable_key.go); and [history], what may happen to a capture.
      [CreationTheorems] and [GateTheorems] their properties.
    - [RemoteTheorems] the properties of the lifecycle and of whole runs.
    - [Text] the functions of Go's strings, strconv and utf8 that the program
      uses, on byte strings; [Base64] encoding/base64 and its round trips.
    - [Staging], [StagingTheorems] internal/staging: snapshots of staged files
      ([addEntry], [readSnapshotEntries], [Write]) and the [Merger] that joins
      the outputs of a wave of steps; the declarative merge it refines. TAR
      framing, file bodies and SHA-256 are parameters.
    - [StageQueries], [LifecycleStages], [Gate], [StageTheorems] the stages of a
      lifecycle (internal/repository/lifecycle_stages.go and their generated
      statements) and the promotion gate (internal/gate/gate.go).
    - [Roles], [AccessQueries], [Access], [AccessTheorems] roles, the statements
      of users, sessions, tokens and members, and the middlewares of
      internal/auth that decide whether a request is served; a handler chain is
      a function of the [Request] and the store. [TokenScopes] the grants of API
      tokens (internal/repository/token_scope.go).
    - [Password] password hashes (internal/auth/auth.go) over argon2 as a
      parameter; [Accounts] edits and deletion of accounts, passwords and
      browser sessions (internal/auth/session.go, local_administration.go).
    - [Secret] values at rest (internal/secret): the class [Box] is an AEAD with
      its key, [BoxLaws] what crypto/cipher documents of it.
    - [Variables] definitions of projects and lifecycles, their inheritance, the
      copy into a release and the capture for a deployment
      (internal/repository, internal/handler/release_snapshot.go);
      [Resolution] the values of a deployment's steps (internal/runner/variables.go)
      with its declarative reading [resolution_of]; [Preview] the catalog of
      internal/repository/available_variables.go; [VariableTheorems] and
      [PreviewTheorems] their properties.
    - [StepQueries] the statements of remote_steps.sql.go: a step that agents
      execute is one run per eligible agent. [RemoteSteps] the life of such a run
      (remote_step_dispatch.go, remote_step_start.go, remote_step_heartbeat.go,
      remote_step_execution.go), the maintenance of dispatch
      (internal/dispatch/dispatcher.go) and the recovery at start-up
      (cmd/server/main.go). [RemotePayload] what an agent is given
      (remote_payload_snapshot.go, internal/dispatch); [AgentPoll] what a poll
      records (agent_poll.go and its neighbours).
    - [LogBuffer] the buffer of an agent's log events (remote_log_buffer.go);
      [RemoteLogs] the transactions that publish its lines (remote_logs.go,
      remote_step_logs.go, step_logs.go).
    - [StepSpec] the state machine of a run and when its rows block a scope;
      [StepSafety] and [StepBodies] that every statement and every transaction
      on runs respects [store_step]. [StepTheorems], [SweepTheorems],
      [PollTheorems] and [LogBufferTheorems] are their properties.
    - [StagingTransfers] the budgets and the clock of transfers of staged files
      (staging_transfer.go), with its properties.
    - [LogWriter], [LogWriterTheorems] the writer of a step's output
      (internal/runner/log_writer.go); [StepRunner], [StepRunnerTheorems] the
      loop in which the server waits for the agents of a step
      (internal/runner/remote_step.go), between the other calls of the server.
    - [Runtime] how the local runner (internal/runner) is modelled: a state
      and error monad over the runner's state under one deployment, with Go's
      early returns and deferred calls. Every question to the outside (the
      container client, the store with whatever else happens to it, the clock,
      the agents, cancellation) is answered by the class [Outside], about which
      nothing is assumed; the trace [rs_trace] records what the run has done. The
      file also has the statements that only the runner executes.
    - [Container], [ContainerTheorems] the arguments and the environment of the
      container client (local_step.go, local_environment.go, ansible.go and the
      volumes of artifact_staging.go and deployment_staging.go), and how a client reads
      them.
    - [LocalStaging] staging volumes, transfers, images and bundles of gates;
      [LocalStep] one attempt of a step; [LocalRun] how a run ends
      (deployment_result.go) and verification.go; [LocalRunner] the function Run of
      runner.go, cut where it defers a call and at its loop, the tick of the queue
      and cancellation.
    - [RunCalculus] two calculi for such computations: [effects], a relation
      between the states before and after, and [wpm], weakest preconditions
      with a postcondition for early returns; their use for the
      functions that only call the client (interface [WorkRelation]), and that a
      run gives back the local work it holds (interface [RecordRelation]).
    - [RunPlan] the abstract specification of a run: a state machine over what
      a run does, and what every accepted trace has. [LocalRunTheorems] that
      every run follows it; [LocalSafety] the properties of whole runs and of the
      container of an attempt, with an outside on which a run is evaluated.
    - [LogScrub], [LogScrubTheorems] internal/logscrub: redaction of chunked
      text and the simulation of a compiled expression that finds the text to
      hold back. The expression engine is a parameter: its matches, and the
      instructions of a program.

    ** What the theorems show

    C1, C6 and C19 are about whole runs of the
    server: mutual exclusion of the active deployments of a scope and of the work of
    an agent whatever is called, of the blocking deployments in a [contractual]
    run, and that runs and claims move along the edges of their state
    machines and keep their outcomes. C4, C8, C18 and
    [QueueTheorems.approve_deployment] are about the queue: reconciliation ends with no scope idle while work
    waits, admission is first come first served, local starts are exclusive,
    approval on every branch. [QueueTheorems.cancel_with_waiting_claim_fails]
    shows a defect: cancelling a queued deployment that has a waiting claim
    always fails; [QueueTheorems.cancel_queued_succeeds] is the case without a
    claim, and [QueueTheorems.start_local_progress] that the first of a free
    scope can start.
    [StepTheorems.queue_step_runs], C11 and C15 follow a step that agents execute: its
    fan-out, the hand-out of a run and its outcome on every branch.
    C7, C16 and [StepRunnerTheorems.step_verdict] are about the server that waits for it: what it
    reports is what the agents have done, for good, and it gives up when the
    time is used up. C9 is the sweep that treats runs as the clock demands,
    C10 the recovery of what an earlier process left running.
    [StepTheorems.late_cleanup_blocks] shows a defect: the sweep can turn a
    finished deployment into a second blocker of a scope, so that C1
    needs its condition.
    C20, [RemoteTheorems.finish_outcome] and
    [RemoteTheorems.maintenance_complete] are about agents that execute whole deployments:
    stale identities have no effect, outcomes are recorded exactly once, and
    the maintenance sweep treats every claim whose time is over. [PollTheorems.poll_recorded] is about
    what a poll records, C31 about which variables an agent is given.
    C21 to C23 are about creation: a new deployment has the plan and
    the variables of its release, is admitted exactly when its scope is free and it
    comes first, and no other plan changes; a rollback runs the newest earlier
    success that the reviewer confirmed and the gate admits; a key is used at most
    once in every history of events; C24 says
    that the hosts of an Ansible step are those that its inventory declares.
    C25 and C26 are about artifact gates: the reviewer reads what the
    runner stored, and an artifact is approved exactly when the gate that was
    seen is still there; [GateTheorems.reject_artifact] also shows that a
    rejected deployment loses its start time.
    C27: reordering stages never violates a constraint on the way. C28 is the
    decision of the promotion gate on every branch;
    [StageTheorems.promotion_order] that no history of unforced deployments
    skips a stage. C29 and C30 are about staging: the merge refines its
    declarative specification and does not depend on the order of outputs or
    of map iteration, and snapshots read from any archive are well formed;
    [StagingTheorems.write_read_round_trip] that reading what was written
    gives it back. C39 bounds the transfers in progress.
    C32 decides exactly who is served by the API of a project, as
    [AccessTheorems.api_deployment_access] and
    [AccessTheorems.csrf_write_gate] do for deployments and browser writes;
    C33: an administrator always remains. C34 gives the values of a
    deployment's steps on every input, C35 that a capture stays what it was in
    every history of events, edits and rotations of the key, C36
    that the preview agrees with the execution when no two definitions share a
    scope; [PreviewTheorems.duplicate_preview_diverges] shows the defect
    outside that condition.
    C37 and [LogBufferTheorems.log_buffer_round_trip] are about an agent's log: its events are published in order,
    none twice, and the stored buffer is read back; C38 says that the writer of
    a local step loses nothing. [LogBufferTheorems.split_secret_published]
    shows a defect: a secret across two events can be published. C40 shows that
    the search for the text to hold back ends with the longest waiting suffix,
    and [LogScrubTheorems.scrub_parts_whole] that chunks are redacted as one
    text.
    C2 shows that every run of the server is a path of the abstract plan;
    C3, C5 and [LocalSafety.attempts_bounded] are what follows: a
    success stands for a complete execution, a run that must stop stops, and
    no step is tried too often. C17 is about the counter that the shutdown
    waits for, C12 about the container of an attempt, C13 and
    C14 about what it is allowed and what its arguments show.

    ** Bounds and fuel

    Loops are structural recursion over the list of rows that the code reads
    before the loop, except for eight functions with fuel. [free_position]
    searches for a free stage position with the size of the used set as fuel, [parents_from]
    walks up a path with the length of its name, [runes_from] decodes a text
    with its length, and [addClosure] recurses with one more than the number of
    instructions; [known_host_keys] reads keys from a text with its length,
    [encrypt_chunks] and [read_chunks] split a bundle with its size, and
    [release_point] moves backwards over newlines with the length of the text:
    a theorem or the proof of the function's property shows that each is enough
    (C27, C30, C40, [AnsibleTheorems.known_host_keys_fuel], C25, where the
    bytes that are read are all the announced ones; a rune has at least one
    byte, and every newline found lies before the last one).
    The loop of [StepRunner] has no fuel: [watch] is given its rounds, and the
    properties hold for every number of them. The loops of [LocalRunner] are
    structural: [attempts] counts down the attempts that are left, as the loop of
    Run counts up to them, and [retryCompletion] the ticks of its thirty seconds.
    Runs are total functions, so that termination of a run is termination of
    the calls it makes.
    Integers of the database are [Z]; the modelled code adds second counts to
    the clock and compares them, and ids are only computed with by the
    counters of the tables. Durations are nanoseconds in [Z]: they would
    overflow after 292 years. Stage positions are bounded by MaxInt64, and
    a parsed id by int64 ([ParseInt]).

    ** Not modelled

    Commits that fail, context cancellation and the busy retries of SQLite
    around a transaction; a failing audit insert, which the code only logs;
    notifyRemoteWork, which wakes pollers and keeps no state; CancelRemoteDeployment
    is modelled but is not an event of [run], because the server does not call
    it. Nothing that deletes a deployment, a project or a user is an event, an
    edit or part of a history.
    Transactions are atomic and isolated, as the databases' serializable
    transactions are: interleaving happens between the transactions of a
    loop, where the events of a run can be placed, and between the statements
    of a read outside a transaction, where C35 and
    [AccessTheorems.token_grant_snapshot] take one store per statement. Map
    iteration order is an argument where it could matter.
    encoding/json, the YAML decoder, ssh.ParseKnownHosts, strings.ToLower, the
    agent's protocol package and SHA-256 are parameters of the functions that
    use them. A run is [contractual] when [EvSaveGate] happens
    for a deployment that the local runner executes ([runs_locally]), [EvComplete]
    for such a deployment or, not as unclean, for one that is over, which is where the
    runner calls them, and [EvMaintainDispatch] and
    [EvRevoke] only where [stale_cleanup] does not hold, because of the defect
    above; only the last part of C1 asks for it.
    The rotation of the key is modelled for the tables of variables; the
    tables that it goes on with (templates, gate bundles, credentials,
    verification targets, MFA state, identities, log buffers) are an arbitrary
    rest of the transaction that leaves the captures alone.
    Of the local runner: the discovery of the container client and the
    environment of its processes (podman.go), KillAll, the clean-up at start-up
    (reconcileAttempts, reconcileArtifactVolumes, CleanupArtifactGateImages) and the
    broker of log readers; reading, writing and merging archives and files,
    HTTP checks and their scrubber are answers of the outside. The goroutine
    that stores a status later appears as an act, and as [retryCompletion]; the
    projects of published events are not kept. What another call does to the
    runner's maps while a run is in progress is limited to cancellation and
    to [stopping], which are answers of the outside.
    Expiry and rotation of credentials, package downloads, the broadcasting of lines,
    MFA, OIDC, HTTP handlers and rendering, the login redirect's location,
    token usage telemetry, database drivers and process execution are outside
    this development. *)
From stdpp Require Export base gmap strings list fin_maps sorting.
From Stdlib Require Export ZArith Lia.

#[global] Open Scope Z_scope.

(** ** Errors and results of Go functions returning [(T, error)] *)

(** The error values the modelled code compares with [errors.Is]. *)
Inductive error :=
  | ErrNoRows                     (* database/sql.ErrNoRows *)
  | ErrConstraint                 (* a CHECK, UNIQUE or FOREIGN KEY violation *)
  | ErrRemoteLifecycleConflict
  | ErrInvalidRemoteLog
  | ErrDeploymentQueueConflict
  | ErrDeploymentApprovalConflict
  | ErrAgentUnavailable
  | ErrLimits (message : string)       (* agentexecution.ErrLimits, with its full text *)
  | ErrEnvironment (message : string)  (* containerenv.ErrEnvironment, with its full text *)
  | ErrUnsupportedProtocol        (* agentproto.ErrUnsupportedProtocol *)
  | ErrLifecycleEnvironmentExists
  | ErrLifecycleSortOrderConflict
  | ErrLifecycleStageIDsIncomplete
  | ErrLifecycleStageUnknown
  | ErrLifecycleStageDuplicate
  | ErrStagingInvalid             (* staging.ErrInvalid, also wrapped *)
  | ErrStagingConflict            (* staging.ErrConflict, wrapped with the path *)
  | ErrMergeBudget
  | ErrIdentifier                 (* containerenv.ErrIdentifier *)
  | ErrReserved                   (* containerenv.ErrReserved *)
  | ErrTokenScope                 (* repository.ErrTokenScope *)
  | ErrTokenProjectsRequired      (* joined with ErrTokenScope *)
  | ErrLastAdministrator
  | ErrPasswordChanged
  | ErrSessionAuditRequired
  | ErrVariableName               (* repository.ErrVariableName *)
  | ErrArtifactPathReserved
  | ErrLifecycleVariableScope
  | ErrInvalidAnsible             (* stepdefinition.ErrInvalidAnsible, also joined *)
  | ErrLocalMode                  (* agentexecution.ErrLocalMode *)
  | ErrGateConfig                 (* artifact.ErrGateConfig *)
  | ErrVerificationInvalid        (* verification.ErrInvalid, also wrapped *)
  | ErrContainerCleanupUnconfirmed
  | ErrLegacyServerStep
  | ErrAnsibleCheckMode
  | ErrArtifactGate
  | ErrArtifactGateSize           (* ErrArtifactGate joined with staging.ErrInvalid *)
  | ErrIdempotencyConflict
  | ErrRollbackConflict
  | ErrRollbackTargetChanged
  | ErrNoRollbackTarget
  | RollbackGateError (reason : string)
  | ErrStaleAgentPoll             (* dispatch.errStaleAgentPoll *)
  | ErrOther (message : string).

#[global] Instance error_eq_dec : EqDecision error.
Proof. solve_decision. Defined.

Inductive result (A : Type) :=
  | Ok (a : A)
  | Err (e : error).
Arguments Ok {A} a.
Arguments Err {A} e.

#[global] Instance result_ret : MRet result := λ A a, Ok a.
#[global] Instance result_bind : MBind result := λ A B k m,
  match m with Ok a => k a | Err e => Err e end.

#[global] Instance result_fmap : FMap result := λ A B f m,
  match m with Ok a => Ok (f a) | Err e => Err e end.

Lemma result_bind_ok {A B} (m : result A) (k : A → result B) b :
  m ≫= k = Ok b ↔ ∃ a, m = Ok a ∧ k a = Ok b.
Proof. destruct m; cbn; naive_solver. Qed.

(** Go's rendering of a string by [%q] and of an error by its Error method. *)
Class GoFormat := {
  quote : string → string;
  error_text : error → string }.

(** The bounds of int64. *)
Definition MinInt64 : Z := - 2 ^ 63.
Definition MaxInt64 : Z := 2 ^ 63 - 1.

(** ** Field update of records

    Each record declares its eta expansion; [set_field p] then builds the
    function that replaces field [p] and keeps every other one. *)
Class Eta (R : Type) := eta : R → R.

Ltac set_field proj :=
  let v := fresh "v" in let r := fresh "r" in
  intros v r;
  let t := eval hnf in (eta r) in
  match eval pattern (proj r) in t with
  | ?F _ => let b := eval cbv beta in (F v) in exact b
  end.

(** ** SQL values: NULL is [None], and a comparison with NULL is never true *)

Definition sql_eq {A} `{EqDecision A} (x : option A) (y : A) : bool :=
  bool_decide (x = Some y).

(** [x = y] between two nullable columns or parameters. *)
Definition sql_eq2 {A} `{EqDecision A} (x y : option A) : bool :=
  match y with Some v => sql_eq x v | None => false end.

(** [x <= y] and [x > y] on a nullable integer column. *)
Definition sql_le (x : option Z) (y : Z) : bool :=
  match x with Some v => bool_decide (v ≤ y) | None => false end.
Definition sql_gt (x : option Z) (y : Z) : bool :=
  match x with Some v => bool_decide (y < v) | None => false end.

Definition not_null {A} (x : option A) : bool := bool_decide (x ≠ None).
Definition is_null {A} (x : option A) : bool := negb (not_null x).

Notation "x ∈? l" := (existsb (String.eqb x) l) (at level 70) : bool_scope.

Lemma in_list_true (x : string) l : (x ∈? l)%bool = true ↔ x ∈ l.
Proof.
  rewrite existsb_exists. split.
  - intros (y & Hy & ->%String.eqb_eq). by apply list_elem_of_In.
  - intros Hx. exists x. split; [by apply list_elem_of_In | apply String.eqb_refl].
Qed.

Lemma sql_eq_true {A} `{EqDecision A} (x : option A) y : sql_eq x y = true ↔ x = Some y.
Proof. apply bool_decide_eq_true. Qed.

Lemma not_null_true {A} (x : option A) : not_null x = true ↔ is_Some x.
Proof. unfold not_null. rewrite bool_decide_eq_true. by rewrite not_eq_None_Some. Qed.

Lemma is_null_true {A} (x : option A) : is_null x = true ↔ x = None.
Proof. unfold is_null, not_null. destruct x; cbn; naive_solver. Qed.

(** ** Rows of a table

    A table is a [gmap] from the primary key to the row. The three helpers are
    the statement forms of the generated queries: an UPDATE addressed by the
    primary key, an UPDATE of every row that satisfies a condition, and the
    number of rows it changed. *)
Section tables.
Context {K : Type} `{Countable K} {A : Type}.
Implicit Types (m : gmap K A) (k : K).

Definition update_pk m k (where_ : A → bool) (set : A → A) : gmap K A * Z :=
  match m !! k with
  | Some r => if where_ r then (<[k := set r]> m, 1) else (m, 0)
  | None => (m, 0)
  end.

Definition update_where m (where_ : A → bool) (set : A → A) : gmap K A * Z :=
  ((λ r, if where_ r then set r else r) <$> m,
   Z.of_nat (size (filter (λ kr, where_ kr.2 = true) m))).

Definition exists_row m (where_ : A → bool) : bool :=
  existsb (λ kr, where_ kr.2) (map_to_list m).

Lemma exists_row_true m where_ :
  exists_row m where_ = true ↔ ∃ k r, m !! k = Some r ∧ where_ r = true.
Proof.
  unfold exists_row. rewrite existsb_exists. split.
  - intros ([k r] & Hin & Hw). exists k, r. split; [|done].
    by apply elem_of_map_to_list, list_elem_of_In.
  - intros (k & r & Hk & Hw). exists (k, r). split; [|done].
    by apply list_elem_of_In, elem_of_map_to_list.
Qed.

Lemma exists_row_false m where_ :
  exists_row m where_ = false ↔ ∀ k r, m !! k = Some r → where_ r = false.
Proof.
  rewrite <-not_true_iff_false, exists_row_true. split.
  - intros Hn k r Hk. destruct (where_ r) eqn:E; [|done]. exfalso; eauto.
  - intros Hn (k & r & Hk & Hw). rewrite (Hn k r Hk) in Hw. done.
Qed.

Lemma update_pk_one m k where_ set m' :
  update_pk m k where_ set = (m', 1) →
  ∃ r, m !! k = Some r ∧ where_ r = true ∧ m' = <[k := set r]> m.
Proof. unfold update_pk. repeat case_match; naive_solver. Qed.

Lemma update_pk_cases m k where_ set :
  (∃ r, m !! k = Some r ∧ where_ r = true ∧
        update_pk m k where_ set = (<[k := set r]> m, 1)) ∨
  (update_pk m k where_ set = (m, 0) ∧ ∀ r, m !! k = Some r → where_ r = false).
Proof. unfold update_pk. repeat case_match; naive_solver. Qed.

Lemma lookup_update_where m where_ set k :
  (update_where m where_ set).1 !! k =
  (λ r, if where_ r then set r else r) <$> m !! k.
Proof. apply lookup_fmap. Qed.

(** A CHECK on every row, and a (partial) UNIQUE index on an expression. *)
Definition forall_rows m (check : A → bool) : bool :=
  forallb (λ kr, check kr.2) (map_to_list m).

Definition unique_on {B} `{EqDecision B} (f : A → option B) m : bool :=
  forallb (λ p, forallb (λ q, bool_decide (p.1 = q.1) || negb (sql_eq2 (f p.2) (f q.2)))
    (map_to_list m)) (map_to_list m).

Lemma forall_rows_true m check :
  forall_rows m check = true ↔ ∀ k r, m !! k = Some r → check r = true.
Proof.
  unfold forall_rows. rewrite forallb_forall. split.
  - intros Hall k r Hk. apply (Hall (k, r)).
    by apply list_elem_of_In, elem_of_map_to_list.
  - intros Hall [k r] Hin. apply (Hall k).
    by apply elem_of_map_to_list, list_elem_of_In.
Qed.

Lemma unique_on_true {B} `{EqDecision B} (f : A → option B) m :
  unique_on f m = true ↔
  ∀ k1 k2 r1 r2 b, m !! k1 = Some r1 → m !! k2 = Some r2 →
    f r1 = Some b → f r2 = Some b → k1 = k2.
Proof.
  unfold unique_on. setoid_rewrite forallb_forall. setoid_rewrite forallb_forall. split.
  - intros Hall k1 k2 r1 r2 b H1 H2 Hf1 Hf2.
    specialize (Hall (k1, r1)). cbn in Hall.
    specialize (Hall (proj1 (list_elem_of_In _ _) (proj2 (elem_of_map_to_list _ _ _) H1))
      (k2, r2) (proj1 (list_elem_of_In _ _) (proj2 (elem_of_map_to_list _ _ _) H2))).
    cbn in Hall. apply orb_true_iff in Hall as [Hk|Hn].
    + by apply bool_decide_eq_true in Hk.
    + exfalso. rewrite Hf1, Hf2 in Hn. unfold sql_eq2, sql_eq in Hn.
      by rewrite bool_decide_true in Hn.
  - intros Hu [k1 r1] H1%list_elem_of_In%elem_of_map_to_list
      [k2 r2] H2%list_elem_of_In%elem_of_map_to_list. cbn.
    destruct (bool_decide_reflect (k1 = k2)) as [->|Hne]; [done|]. cbn.
    unfold sql_eq2, sql_eq. destruct (f r2) as [b|] eqn:E2; [|done].
    rewrite bool_decide_false; [done|]. intros E1. apply Hne. eauto.
Qed.

(** Every row is stored under its own key. *)
Definition keyed (f : A → K) m : bool :=
  forallb (λ kr, bool_decide (f kr.2 = kr.1)) (map_to_list m).

Lemma keyed_true f m : keyed f m = true ↔ ∀ k r, m !! k = Some r → f r = k.
Proof.
  unfold keyed. rewrite forallb_forall. split.
  - intros Hall k r Hk. specialize (Hall (k, r)). rewrite bool_decide_eq_true in Hall.
    by apply Hall, list_elem_of_In, elem_of_map_to_list.
  - intros Hall [k r] Hin. apply bool_decide_eq_true, Hall.
    by apply elem_of_map_to_list, list_elem_of_In.
Qed.

Lemma forall_rows_insert m check k r :
  forall_rows m check = true → check r = true → forall_rows (<[k := r]> m) check = true.
Proof.
  rewrite !forall_rows_true. intros Hm Hr k' r' Hk'.
  destruct (decide (k = k')) as [->|]; simplify_map_eq; eauto.
Qed.

(** Rewriting one row keeps a unique index when its new key is absent from
    the index, or present in no other row. *)
Lemma unique_on_insert {B} `{EqDecision B} (f : A → option B) m k r :
  unique_on f m = true →
  (∀ b k' r', f r = Some b → k' ≠ k → m !! k' = Some r' → f r' ≠ Some b) →
  unique_on f (<[k := r]> m) = true.
Proof.
  rewrite !unique_on_true. intros Hm Hr k1 k2 r1 r2 b H1 H2 Hf1 Hf2.
  destruct (decide (k1 = k)) as [->|]; destruct (decide (k2 = k)) as [->|];
    simplify_map_eq; [done|exfalso; eapply Hr; eauto..|eauto].
Qed.
End tables.

(** ** Lists *)

Lemma existsb_perm {A} (f : A → bool) (l k : list A) : l ≡ₚ k → existsb f l = existsb f k.
Proof.
  intros H. apply eq_true_iff_eq. rewrite !existsb_exists. setoid_rewrite <-list_elem_of_In.
  by setoid_rewrite H.
Qed.

Lemma omap_fmap_total {A B} (f : A → option B) (g : A → B) (l : list A) :
  (∀ x, x ∈ l → f x = Some (g x)) → omap f l = g <$> l.
Proof.
  induction l as [|x l IH]; intros H; [done|]. cbn [omap list_omap].
  rewrite (H x) by left. cbn. f_equal. apply IH. intros y Hy. apply H. by right.
Qed.

Lemma filter_ext_in {A} (P Q : A → Prop) `{!∀ x, Decision (P x), !∀ x, Decision (Q x)} (l : list A) :
  (∀ x, x ∈ l → P x ↔ Q x) → filter P l = filter Q l.
Proof.
  induction l as [|x l IH]; intros Hl; [done|]. rewrite !filter_cons.
  rewrite IH by (intros y Hy; apply Hl; by right). assert (x ∈ x :: l) as Hx by left.
  specialize (Hl x Hx). repeat case_decide; tauto.
Qed.

Section filter.
Context {A : Type} (P : A → Prop) {Pdec : ∀ x, Decision (P x)}.
Implicit Types (l : list A).

Lemma last_filter_snoc l x :
  last (filter P (l ++ [x])) = if decide (P x) then Some x else last (filter P l).
Proof.
  rewrite filter_app, filter_cons, filter_nil. destruct (decide (P x)).
  - by rewrite last_snoc.
  - by rewrite app_nil_r.
Qed.

Lemma filter_none l : (∀ x, x ∈ l → ¬ P x) → filter P l = [].
Proof.
  intros H. destruct (filter P l) as [|x k] eqn:E; [done|].
  assert (x ∈ filter P l) as Hx by (rewrite E; left). apply list_elem_of_filter in Hx. naive_solver.
Qed.

Lemma last_filter_in l : is_Some (last (filter P l)) ↔ ∃ x, x ∈ l ∧ P x.
Proof.
  rewrite last_is_Some. split.
  - intros Hne. destruct (filter P l) as [|x k] eqn:E; [done|]. exists x.
    assert (x ∈ filter P l) as Hx by (rewrite E; left). apply list_elem_of_filter in Hx. naive_solver.
  - intros (x & Hx & HP) E. assert (x ∈ filter P l) as Hin by (by apply list_elem_of_filter).
    rewrite E in Hin. by apply not_elem_of_nil in Hin.
Qed.

(** [j] is the index of the last element of [l] with the property. *)
Definition last_at l (j : nat) : Prop :=
  (∃ x, l !! j = Some x ∧ P x) ∧ ∀ k y, (j < k)%nat → l !! k = Some y → ¬ P y.

Lemma last_at_unique l i j : last_at l i → last_at l j → i = j.
Proof.
  intros [(x & Hx & HPx) Hi] [(y & Hy & HPy) Hj].
  destruct (Nat.lt_trichotomy i j) as [H|[H|H]]; [|done|]; naive_solver.
Qed.

Lemma last_filter_at l x :
  last (filter P l) = Some x → ∃ j, l !! j = Some x ∧ P x ∧ last_at l j.
Proof.
  induction l as [|y l IH] using rev_ind; [done|]. rewrite last_filter_snoc.
  destruct (decide (P y)) as [Hy|Hy].
  - intros [= <-]. exists (length l). assert ((l ++ [y]) !! length l = Some y) as Hl.
    { by rewrite lookup_app_r, Nat.sub_diag by lia. }
    split_and!; [done|done|]. split; [by exists y|]. intros k z Hk Hz.
    apply lookup_lt_Some in Hz. rewrite length_app in Hz. cbn in Hz. lia.
  - intros H. destruct (IH H) as (j & Hj & HPx & _ & Hlast). exists j.
    assert ((l ++ [y]) !! j = Some x) as Hj' by (by apply lookup_app_l_Some).
    split_and!; [done|done|]. split; [by exists x|]. intros k z Hk Hz.
    apply lookup_app_Some in Hz as [Hz|[Hle Hz]]; [by eapply Hlast|].
    apply list_lookup_singleton_Some in Hz as [_ <-]. done.
Qed.

(** A filter that keeps exactly the element at [i]. *)
Lemma filter_at l i : (∀ j x, l !! j = Some x → P x ↔ j = i) → filter P l = option_list (l !! i).
Proof.
  revert i. induction l as [|y l IH]; intros i H; [done|]. rewrite filter_cons.
  destruct i as [|i].
  - rewrite decide_True by (by apply (H 0%nat)). cbn. f_equal. apply filter_none.
    intros x Hx. apply list_elem_of_lookup in Hx as [j Hj]. intros HP.
    by apply (H (S j)) in HP.
  - rewrite decide_False by (intros HP; by apply (H 0%nat) in HP).
    cbn [lookup list_lookup]. apply IH. intros j x Hj. specialize (H (S j) x Hj). naive_solver.
Qed.
End filter.

(** ** ORDER BY: insertion sort by an executable order *)
Section sort_by.
Context {A : Type} (le : A → A → bool).

Fixpoint insert_by (x : A) (l : list A) : list A :=
  match l with
  | [] => [x]
  | y :: ys => if le x y then x :: l else y :: insert_by x ys
  end.

Definition sort_by (l : list A) : list A := foldr insert_by [] l.

Lemma insert_by_perm x l : insert_by x l ≡ₚ x :: l.
Proof.
  induction l as [|y l IH]; cbn; [done|].
  destruct (le x y); [done|]. rewrite IH. apply Permutation_swap.
Qed.

Lemma sort_by_perm l : sort_by l ≡ₚ l.
Proof.
  induction l as [|x l IH]; cbn; [done|]. by rewrite insert_by_perm, IH.
Qed.

Lemma elem_of_sort_by x l : x ∈ sort_by l ↔ x ∈ l.
Proof. by rewrite sort_by_perm. Qed.

Hypothesis le_total : ∀ x y, le x y = false → le y x = true.
Hypothesis le_trans : ∀ x y z, le x y = true → le y z = true → le x z = true.

Lemma insert_by_sorted x l :
  StronglySorted (λ a b, le a b = true) l →
  StronglySorted (λ a b, le a b = true) (insert_by x l).
Proof.
  induction 1 as [|y l Hl IH Hy]; cbn.
  { repeat constructor. }
  destruct (le x y) eqn:E.
  - constructor; [by constructor|]. constructor; [done|].
    eapply Forall_impl; [exact Hy|]. cbn. eauto.
  - constructor; [done|]. rewrite insert_by_perm. constructor; [by apply le_total|done].
Qed.

Lemma sort_by_sorted l : StronglySorted (λ a b, le a b = true) (sort_by l).
Proof. induction l; cbn; [constructor|by apply insert_by_sorted]. Qed.

(** The head of an ordered selection is below every selected row. *)
Lemma sort_by_head l x ys y :
  sort_by l = x :: ys → y ∈ l → y = x ∨ le x y = true.
Proof.
  intros Hs Hy. rewrite <-elem_of_sort_by, Hs in Hy.
  apply elem_of_cons in Hy as [->|Hy]; [by left|right].
  pose proof (sort_by_sorted l) as Hst. rewrite Hs in Hst.
  apply StronglySorted_inv in Hst as [_ Hf]. rewrite Forall_forall in Hf. auto.
Qed.
End sort_by.

(** Sorting does not depend on the order of its input, and gives the list that
    is sorted already. *)
Lemma sort_by_unique {A} (le : A → A → bool) (l k : list A) :
  (∀ x y, le x y = false → le y x = true) → (∀ x y z, le x y = true → le y z = true → le x z = true) →
  (∀ x y, x ∈ k → y ∈ k → le x y = true → le y x = true → x = y) →
  StronglySorted (λ a b, le a b = true) k → l ≡ₚ k → sort_by le l = k.
Proof.
  intros Htotal Htrans Hanti Hk Hl. assert (sort_by le l ≡ₚ k) as Hp by by rewrite sort_by_perm.
  apply (StronglySorted_unique_strong (λ a b, le a b = true)); [|by apply sort_by_sorted|exact Hk|exact Hp].
  intros x y Hx Hy. apply Hanti; [by rewrite <-Hp|done].
Qed.

Lemma sort_by_perm_eq {A} (le : A → A → bool) (l l' : list A) :
  (∀ x y, le x y = false → le y x = true) → (∀ x y z, le x y = true → le y z = true → le x z = true) →
  (∀ x y, le x y = true → le y x = true → x = y) →
  l ≡ₚ l' → sort_by le l = sort_by le l'.
Proof.
  intros Htotal Htrans Hanti Hp. apply sort_by_unique; [done..|intros x y _ _; apply Hanti| |].
  - by apply sort_by_sorted.
  - by rewrite sort_by_perm.
Qed.
