(* ===== verification/Text.v ===== *)
(** * Text: the functions of Go's strings and strconv that the program uses.

    A string is its sequence of bytes. *)
From S2P Require Import Prelude.

Definition slash : Ascii.ascii := Ascii.ascii_of_nat 47.
Definition space : Ascii.ascii := Ascii.ascii_of_nat 32.

Definition byte_in (lo hi : nat) (c : Ascii.ascii) : bool :=
  (lo <=? Ascii.nat_of_ascii c)%nat && (Ascii.nat_of_ascii c <=? hi)%nat.

(** Lower case in ASCII. *)
Fixpoint ascii_lower (p : string) : string :=
  match p with
  | EmptyString => EmptyString
  | String c rest =>
      String (if byte_in 65 90 c then Ascii.ascii_of_nat (Ascii.nat_of_ascii c + 32) else c) (ascii_lower rest)
  end.

(** [strings.Split] with a one-byte separator. *)
Fixpoint split_on (sep : Ascii.ascii) (p : string) : list string :=
  match p with
  | EmptyString => [EmptyString]
  | String c rest =>
      if Ascii.eqb c sep then EmptyString :: split_on sep rest
      else match split_on sep rest with
           | [] => [String c EmptyString]
           | first :: others => String c first :: others
           end
  end.

(** [strings.SplitN(p, sep, 2)]: the text before and after the first
    separator, when there is one. *)
Fixpoint cut (sep : Ascii.ascii) (p : string) : option (string * string) :=
  match p with
  | EmptyString => None
  | String c rest =>
      if Ascii.eqb c sep then Some (EmptyString, rest)
      else match cut sep rest with
           | Some (before, after) => Some (String c before, after)
           | None => None
           end
  end.

(** [strings.CutPrefix] *)
Fixpoint strip_prefix (prefix p : string) : option string :=
  match prefix, p with
  | EmptyString, _ => Some p
  | String a prefix, String b p => if Ascii.eqb a b then strip_prefix prefix p else None
  | _, _ => None
  end.
Definition TrimPrefix (p prefix : string) : string := default p (strip_prefix prefix p).

Fixpoint TrimSuffix (p suffix : string) : string :=
  if String.eqb p suffix then EmptyString
  else match p with
       | EmptyString => EmptyString
       | String c rest => String c (TrimSuffix rest suffix)
       end.

(** [strings.Contains(text, needle)] *)
Fixpoint contains (needle text : string) : bool :=
  String.prefix needle text
  || match text with EmptyString => false | String _ rest => contains needle rest end.

(** Order by bytes. *)
Definition string_le (a b : string) : bool :=
  match String.compare a b with Gt => false | _ => true end.

(** The value of a non-empty run of decimal digits. *)
Fixpoint digits (acc : Z) (p : string) : option Z :=
  match p with
  | EmptyString => Some acc
  | String c rest =>
      if byte_in 48 57 c then digits (10 * acc + Z.of_nat (Ascii.nat_of_ascii c - 48)) rest else None
  end.

Definition unsigned (p : string) : option Z :=
  match p with EmptyString => None | _ => digits 0 p end.

(** [strconv.ParseInt(p, 10, 64)], [None] for an error. *)
Definition ParseInt (p : string) : option Z :=
  value ← match p with
          | String c rest =>
              if byte_in 45 45 c then Z.opp <$> unsigned rest
              else if byte_in 43 43 c then unsigned rest else unsigned p
          | EmptyString => None
          end;
  if bool_decide (MinInt64 ≤ value ≤ MaxInt64) then Some value else None.

(** Every rune of the text is white space ([strings.TrimSpace] leaves nothing). *)
Fixpoint blank (p : string) : bool :=
  match p with
  | EmptyString => true
  | String c rest =>
      if byte_in 9 13 c || byte_in 32 32 c then blank rest
      else match rest with
      | EmptyString => false
      | String d rest2 =>
          if byte_in 194 194 c then (byte_in 133 133 d || byte_in 160 160 d) && blank rest2
          else match rest2 with
          | EmptyString => false
          | String e rest3 =>
              (byte_in 225 225 c && byte_in 154 154 d && byte_in 128 128 e
               || byte_in 226 226 c && byte_in 128 128 d
                  && (byte_in 128 138 e || byte_in 168 169 e || byte_in 175 175 e)
               || byte_in 226 226 c && byte_in 129 129 d && byte_in 159 159 e
               || byte_in 227 227 c && byte_in 128 128 d && byte_in 128 128 e)
              && blank rest3
          end
      end
  end.

(** [strings.TrimSpace]: the white space at the left, then the blank tail. *)
Fixpoint trim_left (p : string) : string :=
  match p with
  | EmptyString => EmptyString
  | String c rest =>
      if byte_in 9 13 c || byte_in 32 32 c then trim_left rest
      else match rest with
      | EmptyString => p
      | String d rest2 =>
          if byte_in 194 194 c && (byte_in 133 133 d || byte_in 160 160 d) then trim_left rest2
          else match rest2 with
          | EmptyString => p
          | String e rest3 =>
              if blank (String c (String d (String e EmptyString))) then trim_left rest3 else p
          end
      end
  end.

Fixpoint trim_right (p : string) : string :=
  if blank p then EmptyString
  else match p with EmptyString => EmptyString | String c rest => String c (trim_right rest) end.

Definition TrimSpace (p : string) : string := trim_right (trim_left p).

(** [utf8.ValidString]: [pending] lists the ranges that the next bytes must be in. *)
Fixpoint utf8_from (pending : list (nat * nat)) (p : string) : bool :=
  match p, pending with
  | EmptyString, [] => true
  | EmptyString, _ => false
  | String c rest, (lo, hi) :: pending => byte_in lo hi c && utf8_from pending rest
  | String c rest, [] =>
      let t := (128, 191)%nat in
      if byte_in 0 127 c then utf8_from [] rest
      else if byte_in 194 223 c then utf8_from [t] rest
      else if byte_in 224 224 c then utf8_from [(160, 191)%nat; t] rest
      else if byte_in 237 237 c then utf8_from [(128, 159)%nat; t] rest
      else if byte_in 225 239 c then utf8_from [t; t] rest
      else if byte_in 240 240 c then utf8_from [(144, 191)%nat; t; t] rest
      else if byte_in 241 243 c then utf8_from [t; t; t] rest
      else if byte_in 244 244 c then utf8_from [(128, 143)%nat; t; t] rest
      else false
  end.
Definition ValidString (p : string) : bool := utf8_from [] p.

Section strings.
Implicit Types (p d r : string).

Lemma string_app_assoc p d r : (p +:+ d) +:+ r = p +:+ (d +:+ r).
Proof.
  induction p as [|c p IH]; [done|].
  change (String c ((p +:+ d) +:+ r) = String c (p +:+ (d +:+ r))). by rewrite IH.
Qed.

Lemma string_length_app p d : String.length (p +:+ d) = (String.length p + String.length d)%nat.
Proof.
  induction p as [|c p IH]; [done|].
  change (S (String.length (p +:+ d)) = S (String.length p + String.length d)). by rewrite IH.
Qed.

Lemma strip_prefix_spec prefix name r : strip_prefix prefix name = Some r → name = prefix +:+ r.
Proof.
  revert name. induction prefix as [|a prefix IH]; intros name; cbn [strip_prefix]; [by intros [= ->]|].
  destruct name as [|b name]; [done|]. destruct (Ascii.eqb_spec a b) as [->|]; [|done].
  intros H. change (String b name = String b (prefix +:+ r)). f_equal. by apply IH.
Qed.
End strings.

Lemma strip_prefix_app prefix r : strip_prefix prefix (prefix +:+ r) = Some r.
Proof.
  induction prefix as [|c prefix IH]; [done|].
  change (strip_prefix (String c prefix) (String c (prefix +:+ r)) = Some r).
  cbn [strip_prefix]. by rewrite Ascii.eqb_refl.
Qed.

Lemma split_on_app sep d r :
  split_on sep (d +:+ String sep r) = split_on sep d ++ split_on sep r.
Proof.
  induction d as [|c d IH].
  { change (split_on sep (String sep r) = [""] ++ split_on sep r). cbn [split_on].
    by rewrite Ascii.eqb_refl. }
  change (split_on sep (String c d +:+ String sep r))
    with (split_on sep (String c (d +:+ String sep r))). cbn [split_on].
  destruct (Ascii.eqb c sep); [by rewrite IH|]. rewrite IH.
  destruct (split_on sep d) as [|f l] eqn:E; [|done].
  destruct d; cbn in E; [done|]. by repeat case_match.
Qed.

(** A text without the separator is one part. *)
Fixpoint free_of (sep : Ascii.ascii) (p : string) : bool :=
  match p with
  | EmptyString => true
  | String c rest => negb (Ascii.eqb c sep) && free_of sep rest
  end.

Lemma split_on_free sep p : free_of sep p = true → split_on sep p = [p].
Proof.
  induction p as [|c p IH]; cbn [free_of split_on]; [done|].
  intros [Hc Hp]%andb_true_iff. apply negb_true_iff in Hc. by rewrite Hc, IH.
Qed.

Lemma prefix_app prefix r : String.prefix prefix (prefix +:+ r) = true.
Proof.
  induction prefix as [|c prefix IH]; [by destruct r|].
  change (String.prefix (String c prefix) (String c (prefix +:+ r)) = true).
  cbn [String.prefix]. by destruct (Ascii.ascii_dec c c).
Qed.

Lemma ParseInt_range p z : ParseInt p = Some z → MinInt64 ≤ z ≤ MaxInt64.
Proof.
  unfold ParseInt. destruct p as [|c p]; [done|]. intros H.
  apply bind_Some in H as (v & _ & H). destruct (bool_decide_reflect (MinInt64 ≤ v ≤ MaxInt64)); naive_solver.
Qed.

(** [strings.SplitN(header, " ", 2)] with first part [Bearer] and
    [strings.CutPrefix(header, "Bearer ")] read the same token. *)
Lemma cut_prefix sep first p rest :
  (∀ c, In c (String.list_ascii_of_string first) → c ≠ sep) →
  cut sep p = Some (first, rest) ↔ strip_prefix (first +:+ String sep EmptyString) p = Some rest.
Proof.
  revert p. induction first as [|a first IH]; intros p Hsep.
  - change (cut sep p = Some ("", rest) ↔ strip_prefix (String sep "") p = Some rest).
    destruct p as [|c p]; cbn [cut strip_prefix]; [done|].
    destruct (Ascii.eqb_spec c sep) as [->|Hne].
    + rewrite Ascii.eqb_refl. naive_solver.
    + destruct (Ascii.eqb_spec sep c) as [->|]; [done|].
      destruct (cut sep p) as [[before after]|]; naive_solver.
  - change (cut sep p = Some (String a first, rest)
      ↔ strip_prefix (String a (first +:+ String sep "")) p = Some rest).
    destruct p as [|c p]; cbn [cut strip_prefix]; [done|].
    assert (a ≠ sep) as Ha by (apply Hsep; by left).
    assert (∀ d, In d (String.list_ascii_of_string first) → d ≠ sep) as Hrest
      by (intros d Hd; apply Hsep; by right).
    specialize (IH p Hrest).
    destruct (Ascii.eqb_spec c sep) as [->|Hne].
    { destruct (Ascii.eqb_spec a sep); [done|]. naive_solver. }
    destruct (Ascii.eqb_spec a c) as [->|Hac].
    + rewrite <-IH. destruct (cut sep p) as [[before after]|]; naive_solver.
    + destruct (cut sep p) as [[before after]|]; naive_solver.
Qed.

(** [string_le] is the order of stdpp's strings. *)
Lemma string_le_le p d : string_le p d = true ↔ String.le p d.
Proof. unfold String.le, String.leb, string_le. destruct (String.compare p d); done. Qed.

Lemma string_le_total p d : string_le p d = false → string_le d p = true.
Proof.
  intros H. apply string_le_le. destruct (total String.le d p) as [Hd|Hp]; [done|].
  apply string_le_le in Hp. congruence.
Qed.

Lemma string_le_trans p d r : string_le p d = true → string_le d r = true → string_le p r = true.
Proof. rewrite !string_le_le. by intros H1 H2; etrans. Qed.

Lemma string_le_antisym p d : string_le p d = true → string_le d p = true → p = d.
Proof. rewrite !string_le_le. apply (anti_symm String.le). Qed.

(** The sorted list of the elements of a set. *)
Definition sorted (names : gset string) : list string := sort_by string_le (elements names).

Lemma elem_of_sorted names p : p ∈ sorted names ↔ p ∈ names.
Proof. unfold sorted. by rewrite elem_of_sort_by, elem_of_elements. Qed.

Lemma sorted_unique names l :
  l = sorted names ↔
  StronglySorted (λ p d, string_le p d = true) l ∧ NoDup l ∧ ∀ p, p ∈ l ↔ p ∈ names.
Proof.
  assert (StronglySorted (λ p d, string_le p d = true) (sorted names)) as Hs
    by (apply sort_by_sorted; [apply string_le_total|apply string_le_trans]).
  assert (NoDup (sorted names)) as Hnd
    by (unfold sorted; rewrite sort_by_perm; apply NoDup_elements).
  split.
  - intros ->. split_and!; [done..|]. intros p. apply elem_of_sorted.
  - intros (Hl & Hn & Hin).
    apply (StronglySorted_unique_strong (λ p d, string_le p d = true)); [|done..|].
    + intros p d _ _. apply string_le_antisym.
    + apply NoDup_Permutation; [done..|]. intros p. by rewrite Hin, elem_of_sorted.
Qed.
