(* ===== verification/Db.v ===== *)
(** * Db: the relational store and the transaction monad

    Rows are the structs of internal/db/models.go (a nullable column is an
    [option]); a table is a [gmap] from its primary key. The store carries the
    constraints of the schema that the modelled statements can violate: the
    row CHECKs and the two unique indexes of remote_deployment_claims
    (migrations/028, 050), the primary key and the unique column of
    environment_deployment_slots (migration 054), and the unique indexes of
    remote_step_runs. A violated constraint makes the statement fail, and a
    failed statement makes the enclosing transaction roll back. *)
From S2P Require Import Prelude.

(** ** Rows *)

(** The id of an environment is its key in the table. *)
Record Environment := mkEnvironment {
  e_Name : string;
  e_CreatedAt : Z;
  e_VerificationType : string;
  e_VerificationTarget : string;
  e_VerificationTimeoutSeconds : Z }.

(** An environment without a verification. *)
Definition plain_environment (name : string) : Environment := mkEnvironment name 0 "" "" 30.

Record Release := mkRelease {
  rel_ID : Z;
  rel_ProjectID : Z;
  rel_Version : string;
  rel_StepsJson : string;
  rel_CreatedAt : Z;
  rel_Kind : string }.

Record Deployment := mkDeployment {
  d_ID : Z;
  d_ReleaseID : Z;
  d_EnvironmentID : Z;
  d_Status : string;
  d_StartedAt : option Z;
  d_FinishedAt : option Z;
  d_CreatedAt : Z;
  d_Forced : Z;
  d_Note : option string;
  d_AssignedAgentID : option string;
  d_Kind : string;
  d_ContainerNamespace : option string;
  d_CleanupConfirmedAt : option Z;
  d_EnvironmentNameSnapshot : option string;
  d_AnsibleCheckMode : option Z }.

#[export] Instance Deployment_eta : Eta Deployment := λ d,
  mkDeployment (d_ID d) (d_ReleaseID d) (d_EnvironmentID d) (d_Status d)
    (d_StartedAt d) (d_FinishedAt d) (d_CreatedAt d) (d_Forced d) (d_Note d)
    (d_AssignedAgentID d) (d_Kind d) (d_ContainerNamespace d)
    (d_CleanupConfirmedAt d) (d_EnvironmentNameSnapshot d) (d_AnsibleCheckMode d).

Definition d_set_Status : string → Deployment → Deployment := ltac:(set_field d_Status).
Definition d_set_StartedAt : option Z → Deployment → Deployment := ltac:(set_field d_StartedAt).
Definition d_set_FinishedAt : option Z → Deployment → Deployment := ltac:(set_field d_FinishedAt).
Definition d_set_ContainerNamespace : option string → Deployment → Deployment :=
  ltac:(set_field d_ContainerNamespace).

Record RemoteDeploymentClaim := mkClaim {
  c_DeploymentID : Z;
  c_AgentID : string;
  c_State : string;
  c_Reason : option string;
  c_ClaimTokenHash : option string;
  c_Ciphertext : option string;
  c_ClaimExpiresAt : option Z;
  c_LastHeartbeatAt : option Z;
  c_StartedAt : option Z;
  c_FinishedAt : option Z;
  c_CancelRequestedAt : option Z;
  c_CreatedAt : Z;
  c_UpdatedAt : Z;
  c_LogBufferCiphertext : option string;
  c_CleanupConfirmedAt : option Z }.

#[export] Instance RemoteDeploymentClaim_eta : Eta RemoteDeploymentClaim := λ c,
  mkClaim (c_DeploymentID c) (c_AgentID c) (c_State c) (c_Reason c)
    (c_ClaimTokenHash c) (c_Ciphertext c) (c_ClaimExpiresAt c)
    (c_LastHeartbeatAt c) (c_StartedAt c) (c_FinishedAt c)
    (c_CancelRequestedAt c) (c_CreatedAt c) (c_UpdatedAt c)
    (c_LogBufferCiphertext c) (c_CleanupConfirmedAt c).

Definition c_set_State : string → RemoteDeploymentClaim → RemoteDeploymentClaim :=
  ltac:(set_field c_State).
Definition c_set_Reason : option string → RemoteDeploymentClaim → RemoteDeploymentClaim :=
  ltac:(set_field c_Reason).
Definition c_set_ClaimTokenHash : option string → RemoteDeploymentClaim → RemoteDeploymentClaim :=
  ltac:(set_field c_ClaimTokenHash).
Definition c_set_Ciphertext : option string → RemoteDeploymentClaim → RemoteDeploymentClaim :=
  ltac:(set_field c_Ciphertext).
Definition c_set_ClaimExpiresAt : option Z → RemoteDeploymentClaim → RemoteDeploymentClaim :=
  ltac:(set_field c_ClaimExpiresAt).
Definition c_set_LastHeartbeatAt : option Z → RemoteDeploymentClaim → RemoteDeploymentClaim :=
  ltac:(set_field c_LastHeartbeatAt).
Definition c_set_StartedAt : option Z → RemoteDeploymentClaim → RemoteDeploymentClaim :=
  ltac:(set_field c_StartedAt).
Definition c_set_FinishedAt : option Z → RemoteDeploymentClaim → RemoteDeploymentClaim :=
  ltac:(set_field c_FinishedAt).
Definition c_set_CancelRequestedAt : option Z → RemoteDeploymentClaim → RemoteDeploymentClaim :=
  ltac:(set_field c_CancelRequestedAt).
Definition c_set_UpdatedAt : Z → RemoteDeploymentClaim → RemoteDeploymentClaim :=
  ltac:(set_field c_UpdatedAt).
Definition c_set_LogBuffer : option string → RemoteDeploymentClaim → RemoteDeploymentClaim :=
  ltac:(set_field c_LogBufferCiphertext).
Definition c_set_CleanupConfirmedAt : option Z → RemoteDeploymentClaim → RemoteDeploymentClaim :=
  ltac:(set_field c_CleanupConfirmedAt).

Record RemoteStepRun := mkRun {
  r_DeploymentID : Z;
  r_StepIndex : Z;
  r_AgentID : string;
  r_State : string;
  r_ClaimTokenHash : option string;
  r_Ciphertext : option string;
  r_ClaimExpiresAt : option Z;
  r_LastHeartbeatAt : option Z;
  r_StartedAt : option Z;
  r_FinishedAt : option Z;
  r_CancelRequestedAt : option Z;
  r_CreatedAt : Z;
  r_UpdatedAt : Z;
  r_LogBufferCiphertext : option string;
  r_RecoveryCancelled : Z;
  r_CleanupConfirmedAt : option Z }.

#[export] Instance RemoteStepRun_eta : Eta RemoteStepRun := λ r,
  mkRun (r_DeploymentID r) (r_StepIndex r) (r_AgentID r) (r_State r)
    (r_ClaimTokenHash r) (r_Ciphertext r) (r_ClaimExpiresAt r)
    (r_LastHeartbeatAt r) (r_StartedAt r) (r_FinishedAt r)
    (r_CancelRequestedAt r) (r_CreatedAt r) (r_UpdatedAt r)
    (r_LogBufferCiphertext r) (r_RecoveryCancelled r) (r_CleanupConfirmedAt r).

Definition r_set_State : string → RemoteStepRun → RemoteStepRun := ltac:(set_field r_State).
Definition r_set_ClaimTokenHash : option string → RemoteStepRun → RemoteStepRun :=
  ltac:(set_field r_ClaimTokenHash).
Definition r_set_Ciphertext : option string → RemoteStepRun → RemoteStepRun :=
  ltac:(set_field r_Ciphertext).
Definition r_set_ClaimExpiresAt : option Z → RemoteStepRun → RemoteStepRun :=
  ltac:(set_field r_ClaimExpiresAt).
Definition r_set_LastHeartbeatAt : option Z → RemoteStepRun → RemoteStepRun :=
  ltac:(set_field r_LastHeartbeatAt).
Definition r_set_StartedAt : option Z → RemoteStepRun → RemoteStepRun :=
  ltac:(set_field r_StartedAt).
Definition r_set_FinishedAt : option Z → RemoteStepRun → RemoteStepRun :=
  ltac:(set_field r_FinishedAt).
Definition r_set_CancelRequestedAt : option Z → RemoteStepRun → RemoteStepRun :=
  ltac:(set_field r_CancelRequestedAt).
Definition r_set_UpdatedAt : Z → RemoteStepRun → RemoteStepRun := ltac:(set_field r_UpdatedAt).
Definition r_set_LogBuffer : option string → RemoteStepRun → RemoteStepRun :=
  ltac:(set_field r_LogBufferCiphertext).
Definition r_set_RecoveryCancelled : Z → RemoteStepRun → RemoteStepRun :=
  ltac:(set_field r_RecoveryCancelled).
Definition r_set_CleanupConfirmedAt : option Z → RemoteStepRun → RemoteStepRun :=
  ltac:(set_field r_CleanupConfirmedAt).

Record Agent := mkAgent {
  a_ID : string;
  a_Name : string;
  a_Endpoint : string;
  a_Status : string;
  a_AgentVersion : option string;
  a_CertificatePem : option string;
  a_CertificateFingerprint : option string;
  a_EncryptedIdentity : option string;
  a_LastHeartbeatAt : option Z;
  a_RevokedAt : option Z;
  a_CreatedAt : Z;
  a_UpdatedAt : Z;
  a_Draining : Z;
  a_HealthState : string;
  a_AgentProtocol : option string }.

#[export] Instance Agent_eta : Eta Agent := λ a,
  mkAgent (a_ID a) (a_Name a) (a_Endpoint a) (a_Status a) (a_AgentVersion a)
    (a_CertificatePem a) (a_CertificateFingerprint a) (a_EncryptedIdentity a)
    (a_LastHeartbeatAt a) (a_RevokedAt a) (a_CreatedAt a) (a_UpdatedAt a)
    (a_Draining a) (a_HealthState a) (a_AgentProtocol a).

Definition a_set_Status : string → Agent → Agent := ltac:(set_field a_Status).
Definition a_set_LastHeartbeatAt : option Z → Agent → Agent := ltac:(set_field a_LastHeartbeatAt).
Definition a_set_RevokedAt : option Z → Agent → Agent := ltac:(set_field a_RevokedAt).
Definition a_set_UpdatedAt : Z → Agent → Agent := ltac:(set_field a_UpdatedAt).
Definition a_set_Draining : Z → Agent → Agent := ltac:(set_field a_Draining).
Definition a_set_AgentVersion : option string → Agent → Agent := ltac:(set_field a_AgentVersion).
Definition a_set_AgentProtocol : option string → Agent → Agent := ltac:(set_field a_AgentProtocol).

Record DeploymentStep := mkStep {
  s_DeploymentID : Z;
  s_StepIndex : Z;
  s_SourceStepID : option Z;
  s_Name : string;
  s_ScriptBody : string;
  s_TimeoutSeconds : Z;
  s_MaxRetries : Z;
  s_ExecutionTarget : string;
  s_CreatedAt : Z;
  s_Interpreter : string;
  s_ContainerImage : string;
  s_VariableNames : string;
  s_NetworkMode : string;
  s_ApprovalArtifactPath : string;
  s_ApprovalReviewPath : string;
  s_ApprovalReviewFormat : string;
  s_AgentExecutionMode : string;
  s_Kind : string;
  s_AnsibleJson : string }.

Record DeploymentVerification := mkVerification {
  v_DeploymentID : Z;
  v_Type : string;
  v_Target : string;
  v_TimeoutSeconds : Z;
  v_StepIndex : Z;
  v_Status : string;
  v_StartedAt : option Z;
  v_FinishedAt : option Z }.

#[export] Instance DeploymentVerification_eta : Eta DeploymentVerification := λ v,
  mkVerification (v_DeploymentID v) (v_Type v) (v_Target v) (v_TimeoutSeconds v)
    (v_StepIndex v) (v_Status v) (v_StartedAt v) (v_FinishedAt v).

Definition v_set_Status : string → DeploymentVerification → DeploymentVerification :=
  ltac:(set_field v_Status).
Definition v_set_FinishedAt : option Z → DeploymentVerification → DeploymentVerification :=
  ltac:(set_field v_FinishedAt).

Record DeploymentLog := mkLog {
  l_ID : Z;
  l_DeploymentID : Z;
  l_StepName : option string;
  l_Line : string;
  l_CreatedAt : Z;
  l_StepIndex : option Z;
  l_StepState : option string;
  l_IsStepMetadata : Z }.

Record AgentPairing := mkPairing {
  p_AgentID : string;
  p_PairingCodeHash : string;
  p_AgentPublicIdentity : string;
  p_AgentPin : string;
  p_ServerPublicIdentity : option string;
  p_ServerPin : option string;
  p_EncryptedIdentity : option string;
  p_State : string;
  p_ExpiresAt : Z;
  p_PairedAt : option Z;
  p_CreatedAt : Z;
  p_UpdatedAt : Z;
  p_ServerPullEndpoint : option string }.

#[export] Instance AgentPairing_eta : Eta AgentPairing := λ p,
  mkPairing (p_AgentID p) (p_PairingCodeHash p) (p_AgentPublicIdentity p) (p_AgentPin p)
    (p_ServerPublicIdentity p) (p_ServerPin p) (p_EncryptedIdentity p) (p_State p) (p_ExpiresAt p)
    (p_PairedAt p) (p_CreatedAt p) (p_UpdatedAt p) (p_ServerPullEndpoint p).

Definition p_set_State : string → AgentPairing → AgentPairing := ltac:(set_field p_State).
Definition p_set_UpdatedAt : Z → AgentPairing → AgentPairing := ltac:(set_field p_UpdatedAt).

Record DeploymentApproval := mkApproval {
  ap_ID : Z;
  ap_DeploymentID : Z;
  ap_ApprovedBy : string;
  ap_ApprovedAt : Z;
  ap_ApproverUserID : option Z;
  ap_RequiredApproverRole : string }.

Record Lifecycle := mkLifecycle {
  lc_ID : Z;
  lc_Name : string;
  lc_Description : option string;
  lc_CreatedAt : Z }.

Record LifecycleStage := mkStage {
  ls_ID : Z;
  ls_LifecycleID : Z;
  ls_EnvironmentID : Z;
  ls_SortOrder : Z;
  ls_RequiresApproval : Z }.

#[export] Instance LifecycleStage_eta : Eta LifecycleStage := λ l,
  mkStage (ls_ID l) (ls_LifecycleID l) (ls_EnvironmentID l) (ls_SortOrder l)
    (ls_RequiresApproval l).

Definition ls_set_SortOrder : Z → LifecycleStage → LifecycleStage := ltac:(set_field ls_SortOrder).

(** The columns of projects that the gate reads. *)
Record Project := mkProject {
  prj_ID : Z;
  prj_Name : string;
  prj_LifecycleID : option Z }.

(** ** The store *)
(** *** Accounts, sessions, API tokens and project membership *)

Record User := mkUser {
  u_ID : Z;
  u_Email : string;
  u_PasswordHash : string;
  u_Name : string;
  u_CreatedAt : Z;
  u_UpdatedAt : Z;
  u_LastLoginAt : option Z;
  u_Role : string }.

#[export] Instance User_eta : Eta User := λ u,
  mkUser (u_ID u) (u_Email u) (u_PasswordHash u) (u_Name u) (u_CreatedAt u)
    (u_UpdatedAt u) (u_LastLoginAt u) (u_Role u).

Definition u_set_PasswordHash : string → User → User := ltac:(set_field u_PasswordHash).
Definition u_set_Name : string → User → User := ltac:(set_field u_Name).
Definition u_set_Role : string → User → User := ltac:(set_field u_Role).
Definition u_set_UpdatedAt : Z → User → User := ltac:(set_field u_UpdatedAt).
Definition u_set_LastLoginAt : option Z → User → User := ltac:(set_field u_LastLoginAt).

Record Session := mkSession {
  se_ID : string;
  se_UserID : Z;
  se_CsrfToken : string;
  se_CreatedAt : Z;
  se_ExpiresAt : Z;
  se_IpAddress : option string;
  se_UserAgent : option string;
  se_ReauthenticatedAt : option Z }.

Record ApiToken := mkApiToken {
  tk_ID : string;
  tk_UserID : Z;
  tk_TokenHash : string;
  tk_Scope : string;
  tk_TokenRole : string;
  tk_ExpiresAt : option Z;
  tk_RevokedAt : option Z }.

#[export] Instance ApiToken_eta : Eta ApiToken := λ t,
  mkApiToken (tk_ID t) (tk_UserID t) (tk_TokenHash t) (tk_Scope t) (tk_TokenRole t)
    (tk_ExpiresAt t) (tk_RevokedAt t).

Definition tk_set_Scope : string → ApiToken → ApiToken := ltac:(set_field tk_Scope).
Definition tk_set_TokenRole : string → ApiToken → ApiToken := ltac:(set_field tk_TokenRole).

(** The tables of the access component. *)
Record Access := mkAccess {
  ax_users : gmap Z User;
  ax_sessions : gmap string Session;
  (** mfa_challenges: id to user_id *)
  ax_challenges : gmap string Z;
  ax_tokens : gmap string ApiToken;
  (** api_token_projects: (token_id, project_id) *)
  ax_token_projects : gset (string * Z);
  (** project_members: (project_id, user_id) to role *)
  ax_members : gmap (Z * Z) string;
  (** runbook_executions joined to their runbook: deployment_id to project_id *)
  ax_executions : gmap Z Z;
  (** the row of local_administration_lock *)
  ax_admin_lock : option Z }.

#[export] Instance Access_eta : Eta Access := λ a,
  mkAccess (ax_users a) (ax_sessions a) (ax_challenges a) (ax_tokens a)
    (ax_token_projects a) (ax_members a) (ax_executions a) (ax_admin_lock a).

Definition ax_set_users : gmap Z User → Access → Access := ltac:(set_field ax_users).
Definition ax_set_sessions : gmap string Session → Access → Access := ltac:(set_field ax_sessions).
Definition ax_set_challenges : gmap string Z → Access → Access := ltac:(set_field ax_challenges).
Definition ax_set_tokens : gmap string ApiToken → Access → Access := ltac:(set_field ax_tokens).
Definition ax_set_token_projects : gset (string * Z) → Access → Access :=
  ltac:(set_field ax_token_projects).
Definition ax_set_members : gmap (Z * Z) string → Access → Access := ltac:(set_field ax_members).
Definition ax_set_admin_lock : option Z → Access → Access := ltac:(set_field ax_admin_lock).

(** *** Variables *)

Record Variable_ := mkVariable {
  v_ID : Z;
  v_ProjectID : Z;
  v_Name : string;
  v_Value : option string;
  v_EnvironmentID : option Z;
  v_CreatedAt : Z;
  v_Secret : Z;
  v_IsCredential : Z }.

Record LifecycleVariable := mkLifecycleVariable {
  lv_ID : Z;
  lv_LifecycleID : Z;
  lv_Name : string;
  lv_Value : option string;
  lv_EnvironmentID : option Z;
  lv_Secret : Z;
  lv_IsCredential : Z }.

Record ReleaseVariable := mkReleaseVariable {
  rv_ID : Z;
  rv_ReleaseID : Z;
  rv_Name : string;
  rv_Value : option string;
  rv_EnvironmentID : option Z;
  rv_CreatedAt : Z;
  rv_Secret : Z }.

(** The tables of the variables component; a value is stored encrypted. *)
Record VariableTables := mkVariableTables {
  vt_project : gmap Z Variable_;
  vt_lifecycle : gmap Z LifecycleVariable;
  vt_release : gmap Z ReleaseVariable;
  (** deployment_variable_snapshots: deployment_id to value *)
  vt_snapshots : gmap Z string;
  (** the AUTOINCREMENT counters of the first three tables *)
  vt_project_seq : Z;
  vt_lifecycle_seq : Z;
  vt_release_seq : Z }.

#[export] Instance VariableTables_eta : Eta VariableTables := λ t,
  mkVariableTables (vt_project t) (vt_lifecycle t) (vt_release t) (vt_snapshots t)
    (vt_project_seq t) (vt_lifecycle_seq t) (vt_release_seq t).

Definition vt_set_project : gmap Z Variable_ → VariableTables → VariableTables :=
  ltac:(set_field vt_project).
Definition vt_set_lifecycle : gmap Z LifecycleVariable → VariableTables → VariableTables :=
  ltac:(set_field vt_lifecycle).
Definition vt_set_release : gmap Z ReleaseVariable → VariableTables → VariableTables :=
  ltac:(set_field vt_release).
Definition vt_set_project_seq : Z → VariableTables → VariableTables := ltac:(set_field vt_project_seq).
Definition vt_set_lifecycle_seq : Z → VariableTables → VariableTables :=
  ltac:(set_field vt_lifecycle_seq).
Definition vt_set_release_seq : Z → VariableTables → VariableTables := ltac:(set_field vt_release_seq).
Definition vt_set_snapshots : gmap Z string → VariableTables → VariableTables :=
  ltac:(set_field vt_snapshots).

(** *** Deployments: what is stored around a deployment's row *)

Record Artifact := mkArtifact {
  at_RepositoryID : Z;
  at_Url : string;
  at_Version : string;
  at_Sha256 : string;
  at_Size : Z;
  at_ResolutionKey : string }.

Record DeploymentRollback := mkRollback {
  rb_SourceDeploymentID : Z;
  rb_TargetDeploymentID : Z;
  rb_SourceVersion : string;
  rb_TargetVersion : string }.

Record ArtifactGateRun := mkGateRun {
  gr_NextStep : Z;
  gr_Claimed : Z }.

Record ArtifactGate := mkGate {
  ag_DeploymentID : Z;
  ag_StepIndex : Z;
  ag_Revision : Z;
  ag_Status : string;
  ag_ArtifactPath : string;
  ag_ArtifactSha256 : string;
  ag_BundleSha256 : string;
  ag_BundleSize : Z;
  ag_Review : string;
  ag_CreatedAt : Z;
  ag_ExpiresAt : Z;
  ag_ApprovedBy : option Z;
  ag_ApprovedAt : option Z }.

#[export] Instance ArtifactGate_eta : Eta ArtifactGate := λ g,
  mkGate (ag_DeploymentID g) (ag_StepIndex g) (ag_Revision g) (ag_Status g) (ag_ArtifactPath g)
    (ag_ArtifactSha256 g) (ag_BundleSha256 g) (ag_BundleSize g) (ag_Review g) (ag_CreatedAt g)
    (ag_ExpiresAt g) (ag_ApprovedBy g) (ag_ApprovedAt g).

Definition ag_set_Status : string → ArtifactGate → ArtifactGate := ltac:(set_field ag_Status).
Definition ag_set_ApprovedBy : option Z → ArtifactGate → ArtifactGate := ltac:(set_field ag_ApprovedBy).
Definition ag_set_ApprovedAt : option Z → ArtifactGate → ArtifactGate := ltac:(set_field ag_ApprovedAt).

Record IdempotencyRow := mkIdempotency {
  ik_RequestHash : string;
  ik_ResponseJson : string }.

(** The tables of the deployment creation and artifact gate components. *)
Record DeploymentTables := mkDeploymentTables {
  (** the AUTOINCREMENT sequence of deployments *)
  dt_seq : Z;
  (** deployment_step_selectors: (deployment_id, step_index, label) *)
  dt_selectors : gset (Z * Z * string);
  (** the deployments that have deployment_step_attempts *)
  dt_attempts : gset Z;
  (** release_artifacts and deployment_artifacts, by release and by deployment *)
  dt_release_artifacts : gmap Z Artifact;
  dt_artifacts : gmap Z Artifact;
  dt_rollbacks : gmap Z DeploymentRollback;
  (** api_idempotency: (user_id, project_id, operation, key_hash) *)
  dt_idempotency : gmap (Z * Z * string * string) IdempotencyRow;
  dt_gate_runs : gmap Z ArtifactGateRun;
  dt_gates : gmap (Z * Z) ArtifactGate;
  (** artifact_gate_chunks: (deployment_id, step_index, chunk_index) to ciphertext *)
  dt_gate_chunks : gmap (Z * Z * Z) string;
  (** artifact_gate_images: (deployment_id, step_index) to image_id *)
  dt_gate_images : gmap (Z * Z) string }.

#[export] Instance DeploymentTables_eta : Eta DeploymentTables := λ t,
  mkDeploymentTables (dt_seq t) (dt_selectors t) (dt_attempts t) (dt_release_artifacts t)
    (dt_artifacts t) (dt_rollbacks t) (dt_idempotency t) (dt_gate_runs t) (dt_gates t)
    (dt_gate_chunks t) (dt_gate_images t).

Definition dt_set_seq : Z → DeploymentTables → DeploymentTables := ltac:(set_field dt_seq).
Definition dt_set_selectors : gset (Z * Z * string) → DeploymentTables → DeploymentTables :=
  ltac:(set_field dt_selectors).
Definition dt_set_artifacts : gmap Z Artifact → DeploymentTables → DeploymentTables :=
  ltac:(set_field dt_artifacts).
Definition dt_set_release_artifacts : gmap Z Artifact → DeploymentTables → DeploymentTables :=
  ltac:(set_field dt_release_artifacts).
Definition dt_set_rollbacks : gmap Z DeploymentRollback → DeploymentTables → DeploymentTables :=
  ltac:(set_field dt_rollbacks).
Definition dt_set_idempotency : gmap (Z * Z * string * string) IdempotencyRow →
    DeploymentTables → DeploymentTables := ltac:(set_field dt_idempotency).
Definition dt_set_gate_runs : gmap Z ArtifactGateRun → DeploymentTables → DeploymentTables :=
  ltac:(set_field dt_gate_runs).
Definition dt_set_gates : gmap (Z * Z) ArtifactGate → DeploymentTables → DeploymentTables :=
  ltac:(set_field dt_gates).
Definition dt_set_gate_chunks : gmap (Z * Z * Z) string → DeploymentTables → DeploymentTables :=
  ltac:(set_field dt_gate_chunks).
Definition dt_set_gate_images : gmap (Z * Z) string → DeploymentTables → DeploymentTables :=
  ltac:(set_field dt_gate_images).

Definition empty_deployment_tables : DeploymentTables := mkDeploymentTables 0 ∅ ∅ ∅ ∅ ∅ ∅ ∅ ∅ ∅ ∅.

(** The tables of the step dispatch component. *)
Record StepTables := mkStepTables {
  (** agent_labels: (agent_id, label) *)
  st_labels : gset (string * string);
  (** agent_environment_labels: (agent_id, environment_id) *)
  st_environments : gset (string * Z);
  (** remote_step_log_sequences: (deployment_id, step_index, agent_id, sequence) to log id *)
  st_log_sequences : gmap (Z * Z * string * Z) Z }.

#[export] Instance StepTables_eta : Eta StepTables := λ t,
  mkStepTables (st_labels t) (st_environments t) (st_log_sequences t).

Definition st_set_log_sequences : gmap (Z * Z * string * Z) Z → StepTables → StepTables :=
  ltac:(set_field st_log_sequences).

Record DB := mkDB {
  (** the database clock, [unixepoch()], which does not move within a transaction *)
  db_now : Z;
  db_environments : gmap Z Environment;
  db_releases : gmap Z Release;
  db_deployments : gmap Z Deployment;
  (** environment_deployment_slots: (project_id, environment_id) to deployment_id *)
  db_slots : gmap (Z * Z) Z;
  db_claims : gmap Z RemoteDeploymentClaim;
  (** remote_step_runs: (deployment_id, step_index, agent_id) *)
  db_runs : gmap (Z * Z * string) RemoteStepRun;
  db_agents : gmap string Agent;
  db_pairings : gmap string AgentPairing;
  db_steps : gmap (Z * Z) DeploymentStep;
  (** the capability tables: (agent_id, value) *)
  db_agent_interpreters : gset (string * string);
  db_agent_execution_modes : gset (string * string);
  db_agent_container_runtimes : gset (string * string);
  db_agent_container_interpreters : gset (string * string);
  (** agents that advertised staging and artifact transfer, and their resource policy *)
  db_agent_staging : gset string;
  db_agent_artifact : gset string;
  db_agent_policies : gmap string string;
  db_verifications : gmap Z DeploymentVerification;
  db_approvals : list DeploymentApproval;
  (** deployment_staging_snapshots: (deployment_id, step_index, producer) *)
  db_staging : gset (Z * Z * string);
  (** deployment_step_sources: deployment_id to steps_json; also the log stream lock *)
  db_step_sources : gmap Z string;
  (** deployment_logs in insertion order *)
  db_logs : list DeploymentLog;
  (** deployment_log_scopes without step and attempt: (deployment_id, sequence) to log id *)
  db_log_scopes : gmap (Z * Z) Z;
  (** committed audit_log entries (action, deployment id) *)
  db_audit : list (string * Z);
  (** entries carried by the transaction context of withQueueTx *)
  db_pending_audit : list (string * Z);
  db_projects : gmap Z Project;
  db_lifecycles : gmap Z Lifecycle;
  db_stages : gmap Z LifecycleStage;
  (** the AUTOINCREMENT sequence of lifecycle_stages: the largest id ever used *)
  db_stage_seq : Z;
  db_access : Access;
  db_variables : VariableTables;
  db_creation : DeploymentTables;
  db_dispatch : StepTables }.

#[export] Instance DB_eta : Eta DB := λ s,
  mkDB (db_now s) (db_environments s) (db_releases s) (db_deployments s)
    (db_slots s) (db_claims s) (db_runs s) (db_agents s) (db_pairings s)
    (db_steps s) (db_agent_interpreters s) (db_agent_execution_modes s)
    (db_agent_container_runtimes s) (db_agent_container_interpreters s)
    (db_agent_staging s) (db_agent_artifact s) (db_agent_policies s)
    (db_verifications s) (db_approvals s) (db_staging s) (db_step_sources s) (db_logs s)
    (db_log_scopes s) (db_audit s) (db_pending_audit s) (db_projects s) (db_lifecycles s)
    (db_stages s) (db_stage_seq s) (db_access s) (db_variables s)
    (db_creation s) (db_dispatch s).

Definition set_deployments : gmap Z Deployment → DB → DB := ltac:(set_field db_deployments).
Definition set_environments : gmap Z Environment → DB → DB := ltac:(set_field db_environments).
Definition set_releases : gmap Z Release → DB → DB := ltac:(set_field db_releases).
Definition set_steps : gmap (Z * Z) DeploymentStep → DB → DB := ltac:(set_field db_steps).
Definition set_pairings : gmap string AgentPairing → DB → DB := ltac:(set_field db_pairings).
Definition set_step_sources : gmap Z string → DB → DB := ltac:(set_field db_step_sources).
Definition set_agent_interpreters : gset (string * string) → DB → DB :=
  ltac:(set_field db_agent_interpreters).
Definition set_agent_execution_modes : gset (string * string) → DB → DB :=
  ltac:(set_field db_agent_execution_modes).
Definition set_agent_container_runtimes : gset (string * string) → DB → DB :=
  ltac:(set_field db_agent_container_runtimes).
Definition set_agent_container_interpreters : gset (string * string) → DB → DB :=
  ltac:(set_field db_agent_container_interpreters).
Definition set_agent_staging : gset string → DB → DB := ltac:(set_field db_agent_staging).
Definition set_agent_artifact : gset string → DB → DB := ltac:(set_field db_agent_artifact).
Definition set_agent_policies : gmap string string → DB → DB := ltac:(set_field db_agent_policies).
Definition set_approvals : list DeploymentApproval → DB → DB := ltac:(set_field db_approvals).
Definition set_slots : gmap (Z * Z) Z → DB → DB := ltac:(set_field db_slots).
Definition set_claims : gmap Z RemoteDeploymentClaim → DB → DB := ltac:(set_field db_claims).
Definition set_runs : gmap (Z * Z * string) RemoteStepRun → DB → DB := ltac:(set_field db_runs).
Definition set_agents : gmap string Agent → DB → DB := ltac:(set_field db_agents).
Definition set_verifications : gmap Z DeploymentVerification → DB → DB :=
  ltac:(set_field db_verifications).
Definition set_staging : gset (Z * Z * string) → DB → DB := ltac:(set_field db_staging).
Definition set_logs : list DeploymentLog → DB → DB := ltac:(set_field db_logs).
Definition set_log_scopes : gmap (Z * Z) Z → DB → DB := ltac:(set_field db_log_scopes).
Definition set_audit : list (string * Z) → DB → DB := ltac:(set_field db_audit).
Definition set_pending_audit : list (string * Z) → DB → DB := ltac:(set_field db_pending_audit).
Definition set_projects : gmap Z Project → DB → DB := ltac:(set_field db_projects).
Definition set_lifecycles : gmap Z Lifecycle → DB → DB := ltac:(set_field db_lifecycles).
Definition set_stages : gmap Z LifecycleStage → DB → DB := ltac:(set_field db_stages).
Definition set_stage_seq : Z → DB → DB := ltac:(set_field db_stage_seq).
Definition set_access : Access → DB → DB := ltac:(set_field db_access).
Definition set_variables : VariableTables → DB → DB := ltac:(set_field db_variables).
Definition set_creation : DeploymentTables → DB → DB := ltac:(set_field db_creation).
Definition set_dispatch : StepTables → DB → DB := ltac:(set_field db_dispatch).
Definition set_now : Z → DB → DB := ltac:(set_field db_now).

Definition empty_db (now : Z) : DB :=
  mkDB now ∅ ∅ ∅ ∅ ∅ ∅ ∅ ∅ ∅ ∅ ∅ ∅ ∅ ∅ ∅ ∅ ∅ [] ∅ ∅ [] ∅ [] [] ∅ ∅ ∅ 0 (mkAccess ∅ ∅ ∅ ∅ ∅ ∅ ∅ (Some 0))
    (mkVariableTables ∅ ∅ ∅ ∅ 0 0 0) empty_deployment_tables (mkStepTables ∅ ∅ ∅).

(** ** Schema constraints *)

Definition claim_states : list string :=
  ["waiting"; "claimed"; "started"; "cancel_requested"; "succeeded"; "failed";
   "cancelled"; "lost"; "cancel_unconfirmed"; "cleanup_unconfirmed"].

(** The states that hold the agent's execution capacity. *)
Definition capacity_states : list string := ["claimed"; "started"; "cancel_requested"].

(** The last CHECK of migrations/050. [reason IN (...)] is NULL for a NULL
    reason, and a CHECK that evaluates to NULL passes. *)
Definition claim_state_check (c : RemoteDeploymentClaim) : bool :=
  let st := String.eqb (c_State c) in
  let token := not_null (c_ClaimTokenHash c) in
  let started := not_null (c_StartedAt c) in
  let finished := not_null (c_FinishedAt c) in
  let cancel := not_null (c_CancelRequestedAt c) in
  (st "waiting" && negb token && negb started && negb finished && negb cancel)
  || (st "claimed" && token && negb started && negb finished && negb cancel)
  || (st "started" && token && started && negb finished && negb cancel)
  || (st "cancel_requested" && token && started && negb finished && cancel)
  || ((c_State c ∈? ["succeeded"; "failed"; "lost"]) && token && started && finished && negb cancel)
  || (st "failed" && negb started && finished && negb cancel &&
      match c_Reason c with
      | None => true
      | Some r => r ∈? ["remote_agent_revoked_before_start";
                        "remote_execution_capability_unavailable";
                        "remote_payload_requires_agent_3"]
      end)
  || (st "cancelled" && finished && cancel)
  || (st "cleanup_unconfirmed" && token && started && finished)
  || (st "cancel_unconfirmed" && token && started && finished && cancel).

Definition claim_token_check (c : RemoteDeploymentClaim) : bool :=
  match c_ClaimTokenHash c with
  | None => is_null (c_Ciphertext c) && is_null (c_ClaimExpiresAt c)
            && is_null (c_LastHeartbeatAt c)
  | Some h => Nat.eqb (String.length h) 32 && not_null (c_Ciphertext c)
              && not_null (c_ClaimExpiresAt c) && not_null (c_LastHeartbeatAt c)
  end.

Definition claim_check (c : RemoteDeploymentClaim) : bool :=
  (c_State c ∈? claim_states) && claim_token_check c && claim_state_check c.

Definition capacity_of (state agent : string) : option string :=
  if state ∈? capacity_states then Some agent else None.

Definition claims_ok (t : gmap Z RemoteDeploymentClaim) : bool :=
  forall_rows t claim_check
  && unique_on c_ClaimTokenHash t
  && unique_on (λ c, capacity_of (c_State c) (c_AgentID c)) t.

Definition runs_ok (t : gmap (Z * Z * string) RemoteStepRun) : bool :=
  forall_rows t (λ r, (r_State r ∈? claim_states)
    && (Z.eqb (r_RecoveryCancelled r) 0 || Z.eqb (r_RecoveryCancelled r) 1)
    && match r_ClaimTokenHash r with
       | None => true | Some h => Nat.eqb (String.length h) 32 end)
  && unique_on r_ClaimTokenHash t
  && unique_on (λ r, capacity_of (r_State r) (r_AgentID r)) t.

(** slots: the primary key is the map key; deployment_id is UNIQUE. *)
Definition slots_ok (t : gmap (Z * Z) Z) : bool := unique_on Some t.

(** lifecycle_stages: UNIQUE(lifecycle_id, sort_order), UNIQUE(lifecycle_id, environment_id). *)
Definition stages_ok (t : gmap Z LifecycleStage) : bool :=
  unique_on (λ l, Some (ls_LifecycleID l, ls_SortOrder l)) t
  && unique_on (λ l, Some (ls_LifecycleID l, ls_EnvironmentID l)) t.
