(* ===== verification/Tx.v ===== *)
(** * Tx: transactions over the store

    A generated query runs on a transaction-bound [*db.Queries]. [Tx A] is the
    store-passing monad of the functions that receive one: an error ends the
    function and the state it would have left is dropped, because every such
    error makes [WithTx] (repository.go) roll back. Code that inspects an error
    and goes on uses [attempt]; a failed statement has changed nothing, so the
    state at that point is the one from before the statement.

    [wp m Q E s]: running [m] from [s] ends either in a value and a state that
    satisfy [Q] or in an error that satisfies [E]. *)
From S2P Require Import Prelude Db.

Definition Tx (A : Type) : Type := DB → result (A * DB).

#[global] Instance tx_ret : MRet Tx := λ A a s, Ok (a, s).
#[global] Instance tx_bind : MBind Tx := λ A B k m s,
  match m s with Ok (a, s') => k a s' | Err e => Err e end.

Definition fail {A} (e : error) : Tx A := λ s, Err e.
Definition read {A} (f : DB → A) : Tx A := λ s, Ok (f s, s).
Definition write (f : DB → DB) : Tx unit := λ s, Ok (tt, f s).
Definition guard (b : bool) (e : error) : Tx unit := if b then mret tt else fail e.

(** [value, err := m] with the error handed to the program. *)
Definition attempt {A} (m : Tx A) : Tx (result A) := λ s,
  match m s with Ok (a, s') => Ok (Ok a, s') | Err e => Ok (Err e, s) end.

(** A statement whose new table must satisfy the schema. *)
Definition checked (ok : DB → bool) (f : DB → DB) : Tx unit := λ s,
  if ok (f s) then Ok (tt, f s) else Err ErrConstraint.

(** [for _, x := range l { if err := f(x); err != nil { return err } }] *)
Fixpoint for_each {A} (l : list A) (f : A → Tx unit) : Tx unit :=
  match l with
  | [] => mret tt
  | x :: l => f x;; for_each l f
  end.

Lemma bind_ok {A B} (m : Tx A) (k : A → Tx B) s a s' :
  m s = Ok (a, s') → (m ≫= k) s = k a s'.
Proof. unfold mbind, tx_bind. by intros ->. Qed.

Lemma bind_err {A B} (m : Tx A) (k : A → Tx B) s e : m s = Err e → (m ≫= k) s = Err e.
Proof. unfold mbind, tx_bind. by intros ->. Qed.

Lemma bind_inv {A B} (m : Tx A) (k : A → Tx B) s b s' :
  (m ≫= k) s = Ok (b, s') → ∃ a s1, m s = Ok (a, s1) ∧ k a s1 = Ok (b, s').
Proof. unfold mbind, tx_bind. destruct (m s) as [[a s1]|e]; [eauto|done]. Qed.

(** ** Weakest preconditions *)
Definition wp {A} (m : Tx A) (Q : A → DB → Prop) (E : error → Prop) (s : DB) : Prop :=
  match m s with Ok (a, s') => Q a s' | Err e => E e end.

Section wp.
Implicit Types (s : DB) (E : error → Prop).

Lemma wp_ret {A} (a : A) Q E s : Q a s → wp (mret a) Q E s.
Proof. done. Qed.

Lemma wp_fail {A} e (Q : A → DB → Prop) E s : E e → wp (fail e) Q E s.
Proof. done. Qed.

Lemma wp_bind {A B} (m : Tx A) (k : A → Tx B) Q E s :
  wp m (λ a s', wp (k a) Q E s') E s → wp (m ≫= k) Q E s.
Proof. unfold wp, mbind, tx_bind. by destruct (m s) as [[a s']|e]. Qed.

Lemma wp_read {A} (f : DB → A) Q E s : Q (f s) s → wp (read f) Q E s.
Proof. done. Qed.

Lemma wp_write f Q E s : Q tt (f s) → wp (write f) Q E s.
Proof. done. Qed.

Lemma wp_guard b e Q E s :
  (b = true → Q tt s) → (b = false → E e) → wp (guard b e) Q E s.
Proof. destruct b; cbn; auto. Qed.

Lemma wp_attempt {A} (m : Tx A) Q E s :
  wp m (λ a s', Q (Ok a) s') (λ e, Q (Err e) s) s → wp (attempt m) Q E s.
Proof. unfold wp, attempt. by destruct (m s) as [[a s']|e]. Qed.

Lemma wp_checked ok f Q E s :
  (ok (f s) = true → Q tt (f s)) → (ok (f s) = false → E ErrConstraint) →
  wp (checked ok f) Q E s.
Proof. unfold wp, checked. destruct (ok (f s)); auto. Qed.

Lemma wp_mono {A} (m : Tx A) (Q Q' : A → DB → Prop) (E E' : error → Prop) s :
  wp m Q E s → (∀ a s', Q a s' → Q' a s') → (∀ e, E e → E' e) → wp m Q' E' s.
Proof. unfold wp. destruct (m s) as [[a s']|e]; auto. Qed.

Lemma wp_ok {A} (m : Tx A) Q E s a s' : wp m Q E s → m s = Ok (a, s') → Q a s'.
Proof. unfold wp. intros H Heq. by rewrite Heq in H. Qed.

Lemma wp_err {A} (m : Tx A) Q E s e : wp m Q E s → m s = Err e → E e.
Proof. unfold wp. intros H Heq. by rewrite Heq in H. Qed.

(** Loop rule: an invariant of the remaining work list. *)
Lemma wp_for_each {A} (l : list A) f (I : list A → DB → Prop) E s :
  I l s →
  (∀ x l' s', I (x :: l') s' → wp (f x) (λ _, I l') E s') →
  wp (for_each l f) (λ _, I []) E s.
Proof.
  intros HI Hf. revert s HI. induction l as [|x l IH]; intros s HI; cbn; [done|].
  apply wp_bind. eapply wp_mono; [by apply Hf| |done]. cbn. intros _ s' Hs'. by apply IH.
Qed.
End wp.

(** ** Relations every successful run of a transaction step respects

    [m] satisfies [R] when it relates the states before and after each
    successful run. A reflexive and transitive [R] composes along [≫=], so a
    function satisfies [R] as soon as its statements do. *)
Definition respects {A} (R : DB → DB → Prop) (m : Tx A) : Prop :=
  ∀ s a s', m s = Ok (a, s') → R s s'.

Create HintDb respects discriminated.
Create HintDb readonly discriminated.

Section respects.
Context (R : DB → DB → Prop) `{!Reflexive R} `{!Transitive R}.

Lemma respects_ret {A} (a : A) : respects R (mret a).
Proof. intros s b s' [= -> ->]. done. Qed.
Lemma respects_fail {A} e : respects R (fail (A:=A) e).
Proof. done. Qed.
Lemma respects_read {A} (f : DB → A) : respects R (read f).
Proof. intros s b s' [= <- <-]. done. Qed.
Lemma respects_guard b e : respects R (guard b e).
Proof. destruct b; [apply respects_ret|apply respects_fail]. Qed.
Lemma respects_bind {A B} (m : Tx A) (k : A → Tx B) :
  respects R m → (∀ a, respects R (k a)) → respects R (m ≫= k).
Proof.
  intros Hm Hk s b s'. unfold mbind, tx_bind.
  destruct (m s) as [[a s1]|e] eqn:Em; [|done]. intros Hk'.
  etrans; [by eapply Hm|by eapply Hk].
Qed.
Lemma respects_attempt {A} (m : Tx A) : respects R m → respects R (attempt m).
Proof.
  intros Hm s b s'. unfold attempt.
  destruct (m s) as [[a s1]|e] eqn:Em; intros [= <- <-]; [by eapply Hm|done].
Qed.
Lemma respects_for_each {A} (l : list A) f :
  (∀ x, respects R (f x)) → respects R (for_each l f).
Proof.
  intros Hf. induction l as [|x l IH]; cbn; [apply respects_ret|].
  apply respects_bind; auto.
Qed.
Lemma respects_checked ok f : (∀ s, R s (f s)) → respects R (checked ok f).
Proof.
  intros Hf s a s'. unfold checked. case_match; [|done]. intros [= <- <-]. done.
Qed.
End respects.

(** Queries leave the store as it is. *)
Definition readonly {A} (m : Tx A) : Prop := respects (λ s s', s' = s) m.

Lemma readonly_respects {A} R `{!Reflexive R} (m : Tx A) : readonly m → respects R m.
Proof. intros Hm s a s' Heq. by rewrite (Hm s a s' Heq). Qed.

(** A stronger relation implies a weaker one. *)
Lemma respects_mono {A} (R R' : DB → DB → Prop) (m : Tx A) :
  (∀ s s', R s s' → R' s s') → respects R m → respects R' m.
Proof. intros HR Hm s a s' Heq. eauto. Qed.

#[export] Hint Extern 1 (respects _ (mret _)) => apply respects_ret; typeclasses eauto : respects.
#[export] Hint Extern 1 (respects _ (fail _)) => apply respects_fail : respects.
#[export] Hint Extern 1 (respects _ (read _)) => apply respects_read; typeclasses eauto : respects.
#[export] Hint Extern 1 (respects _ (guard _ _)) =>
  apply respects_guard; typeclasses eauto : respects.

Ltac unfold_head m :=
  lazymatch m with
  | ?f _ => unfold_head f
  | write => fail
  | checked => fail
  | _ => unfold m
  end.

(** Walk through the body of a function: sequencing, loops and case splits,
    leaving the statements to the hint database and opening the functions it does
    not know. *)
Ltac respects_step :=
  match goal with
  | |- ∀ _, _ => intro
  | |- _ => solve [eauto with respects]
  | |- respects _ (_ ≫= _) => apply respects_bind; [typeclasses eauto|..]
  | |- respects _ (for_each _ _) => apply respects_for_each; [typeclasses eauto..|]
  | |- respects _ (attempt _) => apply respects_attempt; [typeclasses eauto..|]
  | |- respects _ (match ?x with _ => _ end) => destruct x
  | |- respects _ ?m => unfold_head m; cbn beta iota
  end.
Ltac respects := repeat respects_step.

(** ** Commit and rollback

    [WithTx]: commit the state of a successful function, keep the old one on an
    error. [withQueueTx] additionally purges staged data of terminal
    deployments before the commit and appends the audit entries the function
    queued after it. *)
Definition WithTx {A} (fn : Tx A) (s : DB) : result A * DB :=
  match fn s with
  | Ok (a, s') => (Ok a, s')
  | Err e => (Err e, s)
  end.

Definition queueAudit (id : Z) (action : string) : Tx unit :=
  write (λ s, set_pending_audit (db_pending_audit s ++ [(action, id)]) s).

Definition flush_audit (s : DB) : DB :=
  set_pending_audit [] (set_audit (db_audit s ++ db_pending_audit s) s).

Definition live_statuses : list string :=
  ["queued"; "pending"; "pending_approval"; "running"; "publishing_artifact";
   "awaiting_artifact_approval"].

Definition PurgeTerminalStaging : Tx unit := write (λ s,
  set_staging (filter (λ k : Z * Z * string,
    match db_deployments s !! k.1.1 with
    | Some d => d_Status d ∈? live_statuses
    | None => true
    end = true) (db_staging s)) s).

Definition withQueueTx {A} (fn : Tx A) (s : DB) : result A * DB :=
  match WithTx (a ← (write (set_pending_audit []);; fn); PurgeTerminalStaging;; mret a) s with
  | (Ok a, s') => (Ok a, flush_audit s')
  | (Err e, s') => (Err e, s')
  end.
