(* ===== verification/Staging.v ===== *)
(** * Staging: file snapshots of a deployment and their merge

    staging/snapshot.go reads a TAR archive into a map from path to entry;
    staging/merge.go merges the outputs of several executors, each compared with
    one immutable base. Go iterates over a map in an unspecified order: the
    loops take that order as an argument. The TAR framing is Go's archive/tar
    and SHA-256 its crypto/sha256; a cancelled context, which ends any of the
    functions with its error, is not modelled. *)
From Stdlib Require Import Init.Byte.
From S2P Require Import Prelude Text.

Record Entry := mkEntry {
  e_Directory : bool;
  e_Size : Z;
  e_SHA256 : string;
  e_offset : Z;
  e_file : option Z }.

#[export] Instance Entry_eta : Eta Entry := λ e,
  mkEntry (e_Directory e) (e_Size e) (e_SHA256 e) (e_offset e) (e_file e).

(** [Entry.same] *)
Definition entry_same (e other : Entry) : bool :=
  Bool.eqb (e_Directory e) (e_Directory other) && Z.eqb (e_Size e) (e_Size other)
  && String.eqb (e_SHA256 e) (e_SHA256 other).

Record StagingLimits := mkStagingLimits {
  sl_PayloadBytes : Z;
  sl_Entries : Z;
  sl_ArchiveBytes : Z }.

Notation Snapshot := (gmap string Entry).

(** ** Paths *)

(** [path.Dir] of a path without empty, [.] and [..] elements. *)
Fixpoint dir_of (p : string) : option string :=
  match p with
  | EmptyString => None
  | String c rest =>
      match dir_of rest with
      | Some d => Some (String c d)
      | None => if Ascii.eqb c slash then Some EmptyString else None
      end
  end.
Definition Dir (p : string) : string := default "." (dir_of p).

(** [for parent := path.Dir(name); parent != "."; parent = path.Dir(parent)]:
    the parents it visits. A parent is shorter than its child, so the length
    of the name is enough fuel. *)
Fixpoint parents_from (fuel : nat) (name : string) : list string :=
  match fuel with
  | O => []
  | S fuel => if String.eqb (Dir name) "." then [] else Dir name :: parents_from fuel (Dir name)
  end.
Definition parents (name : string) : list string := parents_from (String.length name) name.

(** [fs.ValidPath] *)
Definition ValidPath (p : string) : bool :=
  ValidString p
  && (String.eqb p "."
      || forallb (λ e, negb (e ∈? [""; "."; ".."])) (split_on slash p)).

(** [strings.ContainsAny(p, ...)] with a backslash or a NUL. *)
Fixpoint has_forbidden (p : string) : bool :=
  match p with
  | EmptyString => false
  | String c rest => byte_in 92 92 c || byte_in 0 0 c || has_forbidden rest
  end.

(** ** Reading an archive *)

(** A member of the archive as [tar.Reader.Next] gives it, with the offset of
    its content in the file. *)
Record Header := mkHeader {
  h_Name : string;
  h_Typeflag : Ascii.ascii;
  h_Size : Z;
  h_PAXRecords : list string;
  h_offset : Z }.

Definition TypeReg : Ascii.ascii := Ascii.ascii_of_nat 48.
Definition TypeRegA : Ascii.ascii := Ascii.ascii_of_nat 0.
Definition TypeDir : Ascii.ascii := Ascii.ascii_of_nat 53.

(** The name a header stands for; [None] is the empty name, the root. *)
Definition snapshotEntryName (header : Header) (seen : gset string) : result (option string) :=
  if existsb (String.prefix "GNU.sparse.") (h_PAXRecords header) then Err ErrStagingInvalid
  else
    let name := TrimSuffix (TrimPrefix (h_Name header) "./") "/" in
    if (String.eqb name "." || String.eqb name "") && Ascii.eqb (h_Typeflag header) TypeDir
       && Z.eqb (h_Size header) 0
    then Ok None
    else if String.eqb name "." || negb (ValidPath name) || has_forbidden name
            || (4096 <? String.length name)%nat || bool_decide (name ∈ seen)
    then Err ErrStagingInvalid
    else Ok (Some name).

Definition slice (content : list byte) (offset size : Z) : list byte :=
  take (Z.to_nat size) (drop (Z.to_nat offset) content).

Section read.
Context (SHA256_hex : list byte → string).

Definition readSnapshotEntry (file : Z) (content : list byte) (header : Header) (remaining : Z)
    : result Entry :=
  let directory := Ascii.eqb (h_Typeflag header) TypeDir in
  if negb (Ascii.eqb (h_Typeflag header) TypeReg) && negb (Ascii.eqb (h_Typeflag header) TypeRegA)
     && negb directory
     || bool_decide (h_Size header < 0) || bool_decide (remaining < h_Size header)
     || directory && negb (Z.eqb (h_Size header) 0)
  then Err ErrStagingInvalid
  else
    let data := slice content (h_offset header) (h_Size header) in
    if bool_decide (Z.of_nat (length data) < h_Size header) then Err ErrStagingInvalid
    else Ok (mkEntry directory (h_Size header) (if directory then "" else SHA256_hex data)
               (h_offset header) (Some file)).

Definition implied_directory : Entry := mkEntry true 0 "" 0 None.

Fixpoint add_parents (s : Snapshot) (ps : list string) : result Snapshot :=
  match ps with
  | [] => Ok s
  | parent :: rest =>
      match s !! parent with
      | Some prior => if e_Directory prior then add_parents s rest else Err ErrStagingInvalid
      | None => add_parents (<[parent := implied_directory]> s) rest
      end
  end.

Definition addEntry (s : Snapshot) (name : string) (entry : Entry) (limit : Z) : result Snapshot :=
  if match s !! name with
     | Some prior => negb (e_Directory prior) || negb (e_Directory entry)
     | None => false
     end
  then Err ErrStagingInvalid
  else
    s ← add_parents (<[name := entry]> s) (parents name);
    if bool_decide (limit < Z.of_nat (size s)) then Err ErrStagingInvalid else Ok s.

(** The loop of readSnapshotEntries over the members of the archive; [clean]:
    the reader ended with io.EOF and not with a malformed header. *)
Fixpoint read_members (limits : StagingLimits) (file : Z) (content : list byte) (clean : bool)
    (headers : list Header) (seen : gset string) (total : Z) (s : Snapshot) : result Snapshot :=
  match headers with
  | [] => if clean then Ok s else Err ErrStagingInvalid
  | header :: rest =>
      name ← snapshotEntryName header seen;
      match name with
      | None => read_members limits file content clean rest seen total s
      | Some name =>
          entry ← readSnapshotEntry file content header (sl_PayloadBytes limits - total);
          s ← addEntry s name entry (sl_Entries limits);
          read_members limits file content clean rest ({[name]} ∪ seen) (total + h_Size header) s
      end
  end.

(** What archive/tar makes of a file: its members, whether they end cleanly,
    and the bytes behind the end of the archive. *)
Record Archive := mkArchive {
  ar_headers : list Header;
  ar_clean : bool;
  ar_trailer : list byte }.

Definition checkSnapshotTrailer (trailer : list byte) : result unit :=
  if bool_decide (16 * 2 ^ 20 < Z.of_nat (length trailer)) then Err ErrStagingInvalid
  else if forallb (Byte.eqb Byte.x00) trailer then Ok tt else Err ErrStagingInvalid.

Definition readSnapshotEntries (file : Z) (content : list byte) (archive : Archive)
    (limits : StagingLimits) : result Snapshot :=
  s ← read_members limits file content (ar_clean archive) (ar_headers archive) ∅ 0 ∅;
  checkSnapshotTrailer (ar_trailer archive);;
  mret s.

Definition ReadWithLimits (parse : list byte → Archive) (file : Z) (content : list byte)
    (limits : StagingLimits) : result Snapshot :=
  if bool_decide (Z.of_nat (length content) < 1024)
     || bool_decide (sl_ArchiveBytes limits < Z.of_nat (length content))
  then Err ErrStagingInvalid
  else readSnapshotEntries file content (parse content) limits.

End read.

(** ** Writing an archive *)

Section write.
(** The bytes of an entry: a section of the file it refers to. *)
Context (content_of : Entry → list byte).

(** The members from [offset] on, with their concatenated data. *)
Fixpoint write_entries (s : Snapshot) (offset : Z) (names : list string)
    : result (list Header * list byte) :=
  match names with
  | [] => Ok ([], [])
  | name :: rest =>
      let entry := default implied_directory (s !! name) in
      let data := if e_Directory entry then [] else content_of entry in
      if negb (e_Directory entry) && bool_decide (Z.of_nat (length data) < e_Size entry)
      then Err (ErrOther "EOF")
      else
        written ← write_entries s (offset + e_Size entry) rest;
        mret (mkHeader name (if e_Directory entry then TypeDir else TypeReg) (e_Size entry) [] offset
                :: written.1, data ++ written.2)
  end.

(** [Snapshot.Write]: the members in the order of their names. *)
Definition Write (s : Snapshot) : result (list Header * list byte) :=
  write_entries s 0 (sort_by string_le (fst <$> map_to_list s)).
End write.

(** ** Merging *)

Record Merger := mkMerger {
  m_limits : StagingLimits;
  m_base : Snapshot;
  m_result : Snapshot;
  m_changed : gset string;
  m_remaining : Z;
  m_stored : Z;
  m_storedPaths : Z;
  (** the bytes of the append-only spool [content] *)
  m_spool : list byte }.

#[export] Instance Merger_eta : Eta Merger := λ m,
  mkMerger (m_limits m) (m_base m) (m_result m) (m_changed m) (m_remaining m) (m_stored m)
    (m_storedPaths m) (m_spool m).

Definition m_set_result : Snapshot → Merger → Merger := ltac:(set_field m_result).
Definition m_set_changed : gset string → Merger → Merger := ltac:(set_field m_changed).
Definition m_set_remaining : Z → Merger → Merger := ltac:(set_field m_remaining).
Definition m_set_stored : Z → Merger → Merger := ltac:(set_field m_stored).
Definition m_set_storedPaths : Z → Merger → Merger := ltac:(set_field m_storedPaths).
Definition m_set_spool : list byte → Merger → Merger := ltac:(set_field m_spool).

Section merge.
(** The contents of the files that entries refer to, and the spool's identity. *)
Context (files : Z → list byte) (spool : Z).

Definition file_content (m : Merger) (file : option Z) : list byte :=
  match file with
  | None => []
  | Some f => if Z.eqb f spool then m_spool m else files f
  end.

Definition entry_content (m : Merger) (e : Entry) : list byte :=
  slice (file_content m (e_file e)) (e_offset e) (e_Size e).

Definition NewMergerWithLimits (base : Snapshot) (limits : StagingLimits) (EntryVisits : Z)
    : result Merger :=
  if bool_decide (EntryVisits < Z.of_nat (size base)) then Err ErrMergeBudget
  else Ok (mkMerger limits base base ∅ (EntryVisits - Z.of_nat (size base)) 0 0 []).

(** [m.change(ctx, name, candidate, exists)]; [None] is [exists = false]. *)
Definition change (m : Merger) (name : string) (candidate : option Entry) : result Merger :=
  if bool_decide (name ∈ m_changed m) then
    match m_result m !! name, candidate with
    | None, None => Ok m
    | Some prior, Some candidate =>
        if entry_same prior candidate then Ok m else Err ErrStagingConflict
    | _, _ => Err ErrStagingConflict
    end
  else
    m ← match candidate with
        | None => Ok (m_set_result (delete name (m_result m)) m)
        | Some candidate =>
            if bool_decide (sl_PayloadBytes (m_limits m) - m_stored m < e_Size candidate)
               || bool_decide (sl_Entries (m_limits m) ≤ m_storedPaths m)
            then Err ErrStagingInvalid
            else
              let data := if e_Directory candidate then [] else entry_content m candidate in
              if negb (e_Directory candidate) && bool_decide (Z.of_nat (length data) < e_Size candidate)
              then Err (ErrOther "EOF")
              else
                let stored := if e_Directory candidate then m_stored m else m_stored m + e_Size candidate in
                let candidate :=
                  if e_Directory candidate then candidate
                  else mkEntry false (e_Size candidate) (e_SHA256 candidate) (m_stored m) (Some spool) in
                Ok (m_set_result (<[name := candidate]> (m_result m))
                     (m_set_storedPaths (m_storedPaths m + 1)
                       (m_set_stored stored (m_set_spool (m_spool m ++ data) m))))
        end;
    mret (m_set_changed ({[name]} ∪ m_changed m) m).

(** The two loops of [Add]: over the base, then over the output. *)
Fixpoint add_deletions (output : Snapshot) (names : list string) (m : Merger) : result Merger :=
  match names with
  | [] => Ok m
  | name :: rest =>
      match output !! name with
      | Some _ => add_deletions output rest m
      | None => m ← change m name None; add_deletions output rest m
      end
  end.

Fixpoint add_entries (entries : list (string * Entry)) (m : Merger) : result Merger :=
  match entries with
  | [] => Ok m
  | (name, candidate) :: rest =>
      if match m_base m !! name with Some original => entry_same original candidate | None => false end
      then add_entries rest m
      else m ← change m name (Some candidate); add_entries rest m
  end.

(** [base_order] and [output_order] are the iteration orders of the two maps. *)
Definition Add (output : Snapshot) (base_order : list string)
    (output_order : list (string * Entry)) (m : Merger) : result Merger :=
  let baseVisits := Z.of_nat (size (m_base m)) in
  let outputVisits := Z.of_nat (size output) in
  if bool_decide (m_remaining m < baseVisits)
     || bool_decide (m_remaining m - baseVisits < outputVisits)
  then Err ErrMergeBudget
  else
    m ← add_deletions output base_order
          (m_set_remaining (m_remaining m - (baseVisits + outputVisits)) m);
    add_entries output_order m.

Fixpoint check_parents (s : Snapshot) (ps : list string) : result unit :=
  match ps with
  | [] => Ok tt
  | parent :: rest =>
      match s !! parent with
      | Some ancestor => if e_Directory ancestor then check_parents s rest else Err ErrStagingConflict
      | None => Err ErrStagingConflict
      end
  end.

Fixpoint finish_entries (limits : StagingLimits) (s : Snapshot) (total : Z)
    (entries : list (string * Entry)) : result unit :=
  match entries with
  | [] => Ok tt
  | (name, entry) :: rest =>
      if bool_decide (sl_PayloadBytes limits - total < e_Size entry) then Err ErrStagingInvalid
      else check_parents s (parents name);; finish_entries limits s (total + e_Size entry) rest
  end.

Definition Finish (order : list (string * Entry)) (m : Merger) : result Snapshot :=
  finish_entries (m_limits m) (m_result m) 0 order;;
  if bool_decide (sl_Entries (m_limits m) < Z.of_nat (size (m_result m))) then Err ErrStagingInvalid
  else Ok (m_result m).
End merge.
