(* ===== verification/StagingTheorems.v ===== *)
(** * StagingTheorems: the properties of staging snapshots and their merge *)
From Stdlib Require Import Init.Byte.
From S2P Require Import Prelude Text Staging.

(** ** Sameness of entries *)

Definition same_opt (a b : option Entry) : bool :=
  match a, b with
  | Some a, Some b => entry_same a b
  | None, None => true
  | _, _ => false
  end.

Lemma entry_same_spec a b :
  entry_same a b = true ↔
  e_Directory a = e_Directory b ∧ e_Size a = e_Size b ∧ e_SHA256 a = e_SHA256 b.
Proof.
  unfold entry_same. rewrite !andb_true_iff, Bool.eqb_true_iff, Z.eqb_eq, String.eqb_eq. tauto.
Qed.

Lemma same_opt_refl a : same_opt a a = true.
Proof. destruct a; [|done]. by apply entry_same_spec. Qed.
Lemma same_opt_sym a b : same_opt a b = true → same_opt b a = true.
Proof.
  destruct a, b; try done. cbn. rewrite !entry_same_spec. intros (-> & -> & ->). done.
Qed.
Lemma same_opt_trans a b c : same_opt a b = true → same_opt b c = true → same_opt a c = true.
Proof.
  destruct a, b, c; try done. cbn. rewrite !entry_same_spec. intros (-> & -> & ->). done.
Qed.

(** ** The merge as a sequence of changes *)
Section merge.
Context (files : Z → list byte) (spool : Z).
Implicit Types (m : Merger) (base output : Snapshot) (name : string) (c : option Entry).

Definition source_content (e : Entry) : list byte :=
  slice (match e_file e with None => [] | Some f => files f end) (e_offset e) (e_Size e).

(** An entry of a snapshot that was read, not one of the spool. *)
Definition external (e : Entry) : Prop := e_file e ≠ Some spool ∧ 0 ≤ e_Size e.

Lemma external_content m e : external e → entry_content files spool m e = source_content e.
Proof.
  intros [Hf _]. unfold entry_content, source_content, file_content.
  destruct (e_file e) as [f|]; [|done]. destruct (Z.eqb_spec f spool); [congruence|done].
Qed.

Fixpoint apply_all (l : list (string * option Entry)) m : result Merger :=
  match l with
  | [] => Ok m
  | (name, c) :: rest => m ← change files spool m name c; apply_all rest m
  end.

Lemma apply_all_app l l' m :
  apply_all (l ++ l') m = (m ← apply_all l m; apply_all l' m).
Proof.
  revert m. induction l as [|[n c] l IH]; intros m; [done|]. cbn.
  destruct (change files spool m n c); cbn; [apply IH|done].
Qed.

Lemma change_base m name c m' : change files spool m name c = Ok m' → m_base m' = m_base m.
Proof.
  unfold change. case_bool_decide.
  - repeat case_match; try done; intros [= ->]; done.
  - destruct c as [e|]; cbn; [|by intros [= <-]]. repeat case_match; cbn; try done; intros [= <-]; done.
Qed.

(** The changes that an output asks for, in the order of the two loops. *)
Definition delta base output (base_order : list string) (output_order : list (string * Entry))
    : list (string * option Entry) :=
  ((λ n, (n, None)) <$> filter (λ n, output !! n = None) base_order) ++
  ((λ ne, (ne.1, Some ne.2)) <$>
     filter (λ ne, same_opt (base !! ne.1) (Some ne.2) = false) output_order).

Lemma add_deletions_all output names m :
  add_deletions files spool output names m =
  apply_all ((λ n, (n, None)) <$> filter (λ n, output !! n = None) names) m.
Proof.
  revert m. induction names as [|n names IH]; intros m; [done|]. cbn [add_deletions].
  rewrite filter_cons. destruct (output !! n) as [e|] eqn:E.
  - by rewrite decide_False.
  - rewrite decide_True by done. cbn. destruct (change files spool m n None); cbn; [apply IH|done].
Qed.

Lemma add_entries_all entries m :
  add_entries files spool entries m =
  apply_all ((λ ne, (ne.1, Some ne.2)) <$>
    filter (λ ne : string * Entry, same_opt (m_base m !! ne.1) (Some ne.2) = false) entries) m.
Proof.
  revert m. induction entries as [|[n e] entries IH]; intros m; [done|]. cbn [add_entries].
  rewrite filter_cons. cbn [fst snd].
  destruct (m_base m !! n) as [o|]; cbn; [destruct (entry_same o e); cbn|].
  - rewrite IH. by rewrite decide_False.
  - rewrite decide_True by done. cbn. destruct (change files spool m n (Some e)) as [m'|] eqn:Ec; cbn; [|done].
    rewrite IH. by rewrite (change_base _ _ _ _ Ec).
  - rewrite decide_True by done. cbn. destruct (change files spool m n (Some e)) as [m'|] eqn:Ec; cbn; [|done].
    rewrite IH. by rewrite (change_base _ _ _ _ Ec).
Qed.

Lemma apply_all_base l m m' : apply_all l m = Ok m' → m_base m' = m_base m.
Proof.
  revert m. induction l as [|[n c] l IH]; intros m; cbn; [by intros [= ->]|].
  destruct (change files spool m n c) as [m1|] eqn:Ec; cbn; [|done].
  intros H. rewrite (IH _ H). by eapply change_base.
Qed.

(** Within its budget, [Add] applies the delta of the output. *)
Lemma Add_all output base_order output_order m :
  ∃ r, Add files spool output base_order output_order m =
    (if bool_decide (m_remaining m < Z.of_nat (size (m_base m)) + Z.of_nat (size output))
     then Err ErrMergeBudget
     else apply_all (delta (m_base m) output base_order output_order) (m_set_remaining r m)).
Proof.
  exists (m_remaining m - (Z.of_nat (size (m_base m)) + Z.of_nat (size output))).
  unfold Add. rewrite add_deletions_all. unfold delta. rewrite apply_all_app.
  case_bool_decide; cbn [orb].
  { rewrite bool_decide_true by lia. done. }
  case_bool_decide; [by rewrite bool_decide_true by lia|]. rewrite bool_decide_false by lia.
  match goal with |- context [apply_all ?l ?m0] => destruct (apply_all l m0) as [m1|] eqn:E1 end; cbn; [|done].
  rewrite add_entries_all. by rewrite (apply_all_base _ _ _ E1).
Qed.

(** ** What a sequence of changes leaves behind *)

(** The first change of a path is the one that is carried out. *)
Definition first_change (l : list (string * option Entry)) name : option (option Entry) :=
  snd <$> head (filter (λ nc : string * option Entry, nc.1 = name) l).

Lemma first_change_snoc l name c n :
  first_change (l ++ [(name, c)]) n =
  match first_change l n with
  | Some c' => Some c'
  | None => if decide (name = n) then Some c else None
  end.
Proof.
  unfold first_change. rewrite filter_app. destruct (filter _ l); [|done].
  rewrite app_nil_l, filter_cons. cbn [fst]. by case_decide.
Qed.

Lemma first_change_elem l n c : first_change l n = Some c → (n, c) ∈ l.
Proof.
  unfold first_change. destruct (filter _ l) as [|[n' c'] rest] eqn:E; [done|]. intros [= ->].
  assert (H : (n', c) ∈ filter (λ nc : string * option Entry, nc.1 = n) l) by (rewrite E; left).
  by apply list_elem_of_filter in H as [<- H].
Qed.

Lemma first_change_none l n : first_change l n = None ↔ ∀ c, (n, c) ∉ l.
Proof.
  unfold first_change. destruct (filter _ l) as [|[n' c'] rest] eqn:E; cbn.
  - split; [|done]. intros _ c Hc.
    assert (H : (n, c) ∈ filter (λ nc : string * option Entry, nc.1 = n) l) by by apply list_elem_of_filter.
    rewrite E in H. by apply elem_of_nil in H.
  - split; [done|]. intros Hno.
    assert (H : (n', c') ∈ filter (λ nc : string * option Entry, nc.1 = n) l) by (rewrite E; left).
    apply list_elem_of_filter in H as [<- H]. by destruct (Hno c').
Qed.

Record merge_inv base (l : list (string * option Entry)) m : Prop := {
  mi_base : m_base m = base;
  mi_changed : ∀ n, n ∈ m_changed m ↔ first_change l n ≠ None;
  mi_agree : ∀ n c, (n, c) ∈ l → same_opt (m_result m !! n) c = true;
  mi_rest : ∀ n, first_change l n = None → m_result m !! n = base !! n;
  mi_stored : m_stored m = Z.of_nat (length (m_spool m));
  mi_file : ∀ n c e, first_change l n = Some c → m_result m !! n = Some e → e_Directory e = false →
    e_file e = Some spool ∧ 0 ≤ e_offset e ∧ 0 ≤ e_Size e ∧
    e_offset e + e_Size e ≤ Z.of_nat (length (m_spool m)) ∧
    ∃ e0, c = Some e0 ∧ entry_content files spool m e = source_content e0 }.

Lemma slice_app_left (a b : list byte) o n :
  0 ≤ o → 0 ≤ n → o + n ≤ Z.of_nat (length a) → slice (a ++ b) o n = slice a o n.
Proof.
  intros Ho Hn Hle. unfold slice. rewrite drop_app_le by lia. rewrite take_app_le; [done|].
  rewrite length_drop. lia.
Qed.

Lemma slice_app_right (a b : list byte) n :
  n = Z.of_nat (length b) → slice (a ++ b) (Z.of_nat (length a)) n = b.
Proof.
  intros ->. unfold slice. rewrite !Nat2Z.id, drop_app_length. by rewrite firstn_all.
Qed.

(** Earlier entries of the spool keep their content when data is appended. *)
Lemma entry_content_append m m' data e :
  m_spool m' = m_spool m ++ data → e_file e = Some spool → 0 ≤ e_offset e → 0 ≤ e_Size e →
  e_offset e + e_Size e ≤ Z.of_nat (length (m_spool m)) →
  entry_content files spool m' e = entry_content files spool m e.
Proof.
  intros Hs Hf Ho Hn Hle. unfold entry_content, file_content. rewrite Hf, Z.eqb_refl, Hs.
  by apply slice_app_left.
Qed.

Lemma change_known base l m name c :
  merge_inv base l m → first_change l name ≠ None →
  change files spool m name c =
    if same_opt (m_result m !! name) c then Ok m else Err ErrStagingConflict.
Proof.
  intros Hinv Hk. unfold change. rewrite bool_decide_true by by apply (mi_changed _ _ _ Hinv).
  by destruct (m_result m !! name), c.
Qed.

Lemma inv_again base l m name c :
  merge_inv base l m → first_change l name ≠ None → same_opt (m_result m !! name) c = true →
  merge_inv base (l ++ [(name, c)]) m.
Proof.
  intros Hinv Hk Hs.
  assert (Hfirst : ∀ n, first_change (l ++ [(name, c)]) n = first_change l n).
  { intros n. rewrite first_change_snoc. destruct (first_change l n) eqn:E; [done|].
    rewrite decide_False; [done|]. by intros ->. }
  destruct Hinv as [Hb Hc Ha Hr Hst Hf]. constructor; try done.
  - intros n. by rewrite Hfirst.
  - intros n c' [Hin|Hin]%elem_of_app; [by apply Ha|]. apply list_elem_of_singleton in Hin. by simplify_eq.
  - intros n. rewrite Hfirst. apply Hr.
  - intros n c' e. rewrite Hfirst. apply Hf.
Qed.

Lemma inv_delete base l m name m' :
  merge_inv base l m → first_change l name = None →
  m' = m_set_changed ({[name]} ∪ m_changed m) (m_set_result (delete name (m_result m)) m) →
  merge_inv base (l ++ [(name, None)]) m'.
Proof.
  intros [Hb Hc Ha Hr Hst Hf] Hn ->. constructor; cbn; try done.
  - intros n. rewrite elem_of_union, elem_of_singleton, Hc, first_change_snoc.
    destruct (first_change l n); [by split; [|right]|]. case_decide; naive_solver.
  - intros n c [Hin|Hin]%elem_of_app.
    + rewrite lookup_delete_ne; [by apply Ha|]. intros ->. by apply first_change_none with (c:=c) in Hn.
    + apply list_elem_of_singleton in Hin. simplify_eq. by rewrite lookup_delete_eq.
  - intros n. rewrite first_change_snoc. destruct (first_change l n) eqn:E; [done|].
    case_decide; [done|]. intros _. rewrite lookup_delete_ne by done. by apply Hr.
  - intros n c e. rewrite first_change_snoc. destruct (first_change l n) as [c'|] eqn:E.
    + intros [= ->] He Hd. rewrite lookup_delete_ne in He by (intros ->; congruence).
      by apply (Hf n c e).
    + case_decide; [|done]. subst. by rewrite lookup_delete_eq.
Qed.

Lemma inv_insert base l m name e0 e data m' :
  merge_inv base l m → first_change l name = None → entry_same e e0 = true →
  (e_Directory e0 = false → e_file e = Some spool ∧ e_offset e = Z.of_nat (length (m_spool m)) ∧
     data = source_content e0 ∧ Z.of_nat (length data) = e_Size e0) →
  m_base m' = m_base m → m_changed m' = {[name]} ∪ m_changed m →
  m_result m' = <[name := e]> (m_result m) → m_spool m' = m_spool m ++ data →
  m_stored m' = Z.of_nat (length (m_spool m')) →
  merge_inv base (l ++ [(name, Some e0)]) m'.
Proof.
  intros [Hb Hc Ha Hr Hst Hf] Hn Hs Hdata Eb Ec Er Esp Est. constructor; try congruence.
  - intros n. rewrite Ec, elem_of_union, elem_of_singleton, Hc, first_change_snoc.
    destruct (first_change l n); [by split; [|right]|]. case_decide; naive_solver.
  - intros n c [Hin|Hin]%elem_of_app; rewrite Er.
    + rewrite lookup_insert_ne; [by apply Ha|]. intros ->. by apply first_change_none with (c:=c) in Hn.
    + apply list_elem_of_singleton in Hin. simplify_eq. by rewrite lookup_insert_eq.
  - intros n. rewrite first_change_snoc, Er. destruct (first_change l n) eqn:E; [done|].
    case_decide; [done|]. intros _. rewrite lookup_insert_ne by done. by apply Hr.
  - intros n c e'. rewrite first_change_snoc, Er. destruct (first_change l n) as [c'|] eqn:E.
    + intros [= ->] He Hd. rewrite lookup_insert_ne in He by (intros ->; congruence).
      destruct (Hf n c e' E He Hd) as (Hfile & Ho & Hsz & Hle & e1 & -> & Hcont).
      do 3 (split; [done|]). split; [rewrite Esp, length_app; lia|]. exists e1. split; [done|].
      by rewrite (entry_content_append m m' data).
    + case_decide; [|done]. subst. intros [= <-] He Hd. rewrite lookup_insert_eq in He. simplify_eq.
      apply entry_same_spec in Hs as (Hdir & Hsize & _).
      destruct Hdata as (Hfile & Ho & Hdt & Hlen); [congruence|].
      split; [done|]. split; [lia|]. split; [lia|]. split; [rewrite Esp, length_app; lia|].
      exists e0. split; [done|]. unfold entry_content, file_content.
      rewrite Hfile, Z.eqb_refl, Esp, Ho, <-Hdt. apply slice_app_right. lia.
Qed.

Lemma slice_length (l : list byte) o n : 0 ≤ n → Z.of_nat (length (slice l o n)) ≤ n.
Proof. intros Hn. unfold slice. rewrite length_take. lia. Qed.

(** One change keeps the invariant, and only a conflicting one is a conflict. *)
Lemma change_step base l m name c :
  merge_inv base l m → (∀ e, c = Some e → external e) →
  match change files spool m name c with
  | Ok m' => merge_inv base (l ++ [(name, c)]) m'
  | Err e => e = ErrStagingConflict →
             first_change l name ≠ None ∧ same_opt (m_result m !! name) c = false
  end.
Proof.
  intros Hinv Hext. destruct (first_change l name) as [c0|] eqn:Hk.
  { assert (Hne : first_change l name ≠ None) by by rewrite Hk.
    rewrite (change_known base l m name c Hinv Hne).
    destruct (same_opt _ _) eqn:Hs; [by apply inv_again|done]. }
  assert (Hnin : name ∉ m_changed m) by (rewrite (mi_changed _ _ _ Hinv); rewrite Hk; tauto).
  unfold change. rewrite bool_decide_false by done.
  destruct c as [e|]; cbn; [|by apply (inv_delete base l m)].
  destruct (Hext e eq_refl) as [Hfile Hsz].
  destruct (bool_decide _ || bool_decide _); cbn; [done|].
  destruct (e_Directory e) eqn:Hdir; cbn.
  - apply (inv_insert base l m name e e []); cbn; try done; [apply same_opt_refl with (a:=Some e)| |].
    + intros Hd. congruence.
    + rewrite app_nil_r. apply Hinv.
  - rewrite (external_content m e) by by split. destruct (bool_decide_reflect
      (Z.of_nat (length (source_content e)) < e_Size e)) as [|Hlen]; cbn; [done|].
    assert (Hl : Z.of_nat (length (source_content e)) = e_Size e).
    { pose proof (slice_length (match e_file e with None => [] | Some f => files f end) (e_offset e) (e_Size e) Hsz).
      unfold source_content in *. lia. }
    apply (inv_insert base l m name e
      (mkEntry false (e_Size e) (e_SHA256 e) (m_stored m) (Some spool)) (source_content e)); cbn; try done.
    + by apply entry_same_spec.
    + intros _. split; [done|]. split; [apply Hinv|done].
    + rewrite length_app. rewrite (mi_stored _ _ _ Hinv). lia.
Qed.

Lemma apply_all_inv base l changes m :
  merge_inv base l m → (∀ n e, (n, Some e) ∈ changes → external e) →
  match apply_all changes m with
  | Ok m' => merge_inv base (l ++ changes) m'
  | Err e => e = ErrStagingConflict →
             ∃ n c c', (n, c) ∈ l ++ changes ∧ (n, c') ∈ changes ∧ same_opt c c' = false
  end.
Proof.
  revert l m. induction changes as [|[n c] changes IH]; intros l m Hinv Hext; cbn.
  { by rewrite app_nil_r. }
  assert (Hc : ∀ e, c = Some e → external e) by (intros e ->; apply (Hext n); left).
  assert (Hrest : ∀ n e, (n, Some e) ∈ changes → external e) by (intros n' e He; apply (Hext n'); by right).
  pose proof (change_step base l m n c Hinv Hc) as Hstep.
  destruct (change files spool m n c) as [m1|e]; cbn.
  - assert (Hl : l ++ (n, c) :: changes = (l ++ [(n, c)]) ++ changes) by by rewrite <-app_assoc.
    rewrite Hl. specialize (IH (l ++ [(n, c)]) m1 Hstep Hrest).
    destruct (apply_all changes m1) as [m2|e]; [exact IH|].
    intros He. destruct (IH He) as (n' & c1 & c2 & H1 & H2 & Hs).
    exists n', c1, c2. split; [done|]. split; [by right|done].
  - intros He. destruct (Hstep He) as [Hk Hs].
    destruct (first_change l n) as [c0|] eqn:Hc0; [|done]. exists n, c0, c.
    assert (Hin : (n, c0) ∈ l) by by apply first_change_elem.
    split; [by apply elem_of_app; left|]. split; [left|]. apply not_true_iff_false. intros Hsame.
    pose proof (same_opt_trans _ _ _ (mi_agree _ _ _ Hinv n c0 Hin) Hsame). congruence.
Qed.

(** ** Several outputs *)

(** An output with the orders in which Go visits the two maps. *)
Record Addition := mkAddition {
  ad_output : Snapshot;
  ad_base_order : list string;
  ad_output_order : list (string * Entry) }.

Definition proper base (a : Addition) : Prop :=
  ad_base_order a ≡ₚ (map_to_list base).*1 ∧ ad_output_order a ≡ₚ map_to_list (ad_output a).

Fixpoint add_all (adds : list Addition) m : result Merger :=
  match adds with
  | [] => Ok m
  | a :: rest =>
      m ← Add files spool (ad_output a) (ad_base_order a) (ad_output_order a) m; add_all rest m
  end.

(** [output] differs from the base at [name]. *)
Definition changes base output name : bool := negb (same_opt (base !! name) (output !! name)).

(** The specification of the merge: the first output that changes a path
    decides it. *)
Definition merged base (outputs : list Snapshot) name : option Entry :=
  match list_find (λ output, changes base output name = true) outputs with
  | Some (_, output) => output !! name
  | None => base !! name
  end.

Definition conflicting base (outputs : list Snapshot) : Prop :=
  ∃ name o1 o2, o1 ∈ outputs ∧ o2 ∈ outputs ∧ changes base o1 name = true ∧
    changes base o2 name = true ∧ same_opt (o1 !! name) (o2 !! name) = false.

Definition delta_of base (a : Addition) : list (string * option Entry) :=
  delta base (ad_output a) (ad_base_order a) (ad_output_order a).

Lemma elem_of_delta base a n c :
  proper base a → (n, c) ∈ delta_of base a ↔ c = ad_output a !! n ∧ changes base (ad_output a) n = true.
Proof.
  intros [Hb Ho]. unfold delta_of, delta, changes.
  rewrite elem_of_app, !list_elem_of_fmap. setoid_rewrite list_elem_of_filter. setoid_rewrite Hb.
  setoid_rewrite Ho. split.
  - intros [(n' & [= -> ->] & Hnone & Hin)|([n' e] & [= -> ->] & Hs & Hin)].
    + rewrite Hnone. split; [done|]. apply list_elem_of_fmap in Hin as ([k e] & -> & He%elem_of_map_to_list).
      cbn. by rewrite He.
    + apply elem_of_map_to_list in Hin. cbn in Hin, Hs |- *. rewrite Hin. by rewrite Hs.
  - intros [-> Hs]. destruct (ad_output a !! n) as [e|] eqn:He.
    + right. exists (n, e). split; [done|]. cbn. split; [by apply negb_true_iff|]. by apply elem_of_map_to_list.
    + left. exists n. split; [done|]. split; [done|]. destruct (base !! n) as [e|] eqn:Hbn; [|done].
      apply list_elem_of_fmap. exists (n, e). split; [done|]. by apply elem_of_map_to_list.
Qed.

Lemma first_change_app l l' n :
  first_change (l ++ l') n =
  match first_change l n with Some c => Some c | None => first_change l' n end.
Proof. unfold first_change. rewrite filter_app. by destruct (filter _ l). Qed.

Lemma first_change_delta base a n :
  proper base a →
  first_change (delta_of base a) n =
    if changes base (ad_output a) n then Some (ad_output a !! n) else None.
Proof.
  intros Hp. destruct (first_change (delta_of base a) n) as [c|] eqn:E.
  - apply first_change_elem, elem_of_delta in E as [-> ->]; done.
  - rewrite first_change_none in E. destruct (changes base (ad_output a) n) eqn:Hc; [|done].
    destruct (E (ad_output a !! n)). by apply elem_of_delta.
Qed.

Definition all_changes base (adds : list Addition) : list (string * option Entry) :=
  concat (delta_of base <$> adds).

Lemma first_change_all base adds n :
  Forall (proper base) adds →
  match list_find (λ output, changes base output n = true) (ad_output <$> adds) with
  | Some (_, output) => first_change (all_changes base adds) n = Some (output !! n)
  | None => first_change (all_changes base adds) n = None
  end.
Proof.
  induction 1 as [|a adds Hp _ IH]; [done|].
  unfold all_changes. cbn [concat fmap list_fmap]. rewrite first_change_app, first_change_delta by done.
  cbn. case_decide as Hc; [by rewrite Hc|]. apply not_true_is_false in Hc. rewrite Hc.
  fold (all_changes base adds). destruct (list_find _ _) as [[i o]|]; done.
Qed.

Lemma remaining_inv base l m r : merge_inv base l m → merge_inv base l (m_set_remaining r m).
Proof. intros [Hb Hc Ha Hr Hst Hf]. by constructor. Qed.

Lemma add_all_inv base l adds m :
  merge_inv base l m → Forall (proper base) adds →
  (∀ a n e, a ∈ adds → ad_output a !! n = Some e → external e) →
  match add_all adds m with
  | Ok m' => merge_inv base (l ++ all_changes base adds) m'
  | Err e => e = ErrStagingConflict →
      ∃ n c c', (n, c) ∈ l ++ all_changes base adds ∧ (n, c') ∈ all_changes base adds ∧ same_opt c c' = false
  end.
Proof.
  revert l m. induction adds as [|a adds IH]; intros l m Hinv Hp Hext; cbn.
  { by rewrite app_nil_r. }
  apply Forall_cons in Hp as [Hpa Hp].
  destruct (Add_all (ad_output a) (ad_base_order a) (ad_output_order a) m) as [r ->].
  case_bool_decide; cbn; [done|]. rewrite (mi_base _ _ _ Hinv). fold (delta_of base a).
  pose proof (apply_all_inv base l (delta_of base a) (m_set_remaining r m) (remaining_inv _ _ _ _ Hinv)) as Ha.
  assert (Hexta : ∀ n e, (n, Some e) ∈ delta_of base a → external e).
  { intros n e He. apply elem_of_delta in He as [He _]; [|done]. by apply (Hext a n); [left|]. }
  specialize (Ha Hexta). unfold all_changes. cbn [concat fmap list_fmap]. fold (all_changes base adds).
  destruct (apply_all (delta_of base a) (m_set_remaining r m)) as [m1|e]; cbn.
  - specialize (IH _ m1 Ha Hp). rewrite app_assoc.
    assert (Hrest : ∀ a' n e, a' ∈ adds → ad_output a' !! n = Some e → external e)
      by (intros a' n e Hin; apply Hext; by right).
    specialize (IH Hrest). destruct (add_all adds m1); [exact IH|]. intros He.
    destruct (IH He) as (n & c & c' & H1 & H2 & Hs). exists n, c, c'.
    split; [done|]. split; [by apply elem_of_app; right|done].
  - intros He. destruct (Ha He) as (n & c & c' & H1 & H2 & Hs). exists n, c, c'.
    rewrite !elem_of_app in *. tauto.
Qed.

Lemma elem_of_all_changes base adds n c :
  Forall (proper base) adds →
  (n, c) ∈ all_changes base adds ↔
  ∃ output, output ∈ ad_output <$> adds ∧ c = output !! n ∧ changes base output n = true.
Proof.
  intros Hp. unfold all_changes. rewrite list_elem_of_In, in_concat. split.
  - intros (l & Hl & Hin). apply list_elem_of_In, list_elem_of_fmap in Hl as (a & -> & Ha).
    rewrite Forall_forall in Hp. apply list_elem_of_In, elem_of_delta in Hin as [-> Hc]; [|by apply Hp].
    exists (ad_output a). split; [apply list_elem_of_fmap; eauto|done].
  - intros (o & Ho & -> & Hc). apply list_elem_of_fmap in Ho as (a & -> & Ha).
    exists (delta_of base a). rewrite Forall_forall in Hp.
    split; [apply list_elem_of_In, list_elem_of_fmap; eauto|].
    apply list_elem_of_In, elem_of_delta; [by apply Hp|done].
Qed.
End merge.

Section merge_theorems.
Context (files : Z → list byte) (spool : Z).
Implicit Types (base : Snapshot) (adds : list Addition).

Lemma initial_inv base limits visits m0 :
  NewMergerWithLimits base limits visits = Ok m0 → merge_inv files spool base [] m0.
Proof.
  unfold NewMergerWithLimits. case_bool_decide; [done|]. intros [= <-].
  constructor; cbn; try done.
  - intros n c Hin. by apply elem_of_nil in Hin.
Qed.

Lemma agrees_with_merged base adds m name :
  merge_inv files spool base (all_changes base adds) m → Forall (proper base) adds →
  same_opt (m_result m !! name) (merged base (ad_output <$> adds) name) = true.
Proof.
  intros Hinv Hp. pose proof (first_change_all base adds name Hp) as Hfirst. unfold merged.
  destruct (list_find _ _) as [[i o]|] eqn:Hfind.
  - apply (mi_agree _ _ _ _ _ Hinv). by apply first_change_elem.
  - rewrite (mi_rest _ _ _ _ _ Hinv name Hfirst). apply same_opt_refl.
Qed.

(** C29: merging outputs that were produced from one base, for any order in
    which Go visits the maps. A successful merge has no conflict: every path is
    as in the first output that changes it, or as in the base, and every file
    of the result has the bytes of that source. A conflict is only reported
    when two outputs change one path differently. *)
Theorem merge_outputs base limits visits m0 adds :
  NewMergerWithLimits base limits visits = Ok m0 → Forall (proper base) adds →
  (∀ n e, base !! n = Some e → external spool e) →
  (∀ a n e, a ∈ adds → ad_output a !! n = Some e → external spool e) →
  match add_all files spool adds m0 with
  | Ok m =>
      ¬ conflicting base (ad_output <$> adds) ∧
      ∀ name,
        same_opt (m_result m !! name) (merged base (ad_output <$> adds) name) = true ∧
        ∀ e, m_result m !! name = Some e → e_Directory e = false →
          ∃ e0, merged base (ad_output <$> adds) name = Some e0 ∧
                entry_content files spool m e = source_content files e0
  | Err e => e = ErrStagingConflict → conflicting base (ad_output <$> adds)
  end.
Proof.
  intros Hnew Hp Hbase Hext. pose proof (initial_inv _ _ _ _ Hnew) as Hinv0.
  pose proof (add_all_inv files spool base [] adds m0 Hinv0 Hp Hext) as Hall.
  destruct (add_all files spool adds m0) as [m|e]; cbn in Hall.
  - split.
    + intros (n & o1 & o2 & H1 & H2 & C1 & C2 & Hs).
      assert (A1 : same_opt (m_result m !! n) (o1 !! n) = true).
      { apply (mi_agree _ _ _ _ _ Hall), elem_of_all_changes; eauto. }
      assert (A2 : same_opt (m_result m !! n) (o2 !! n) = true).
      { apply (mi_agree _ _ _ _ _ Hall), elem_of_all_changes; eauto. }
      pose proof (same_opt_trans _ _ _ (same_opt_sym _ _ A1) A2). congruence.
    + intros name. split; [by apply agrees_with_merged|].
      intros e He Hdir. pose proof (first_change_all base adds name Hp) as Hfirst. unfold merged.
      destruct (list_find _ _) as [[i o]|] eqn:Hfind.
      * destruct (mi_file _ _ _ _ _ Hall name _ e Hfirst He Hdir) as (_ & _ & _ & _ & e0 & -> & Hc). eauto.
      * rewrite (mi_rest _ _ _ _ _ Hall name Hfirst) in He. exists e. split; [done|].
        apply external_content. by apply (Hbase name).
  - intros He. destruct (Hall He) as (n & c & c' & H1 & H2 & Hs).
    apply elem_of_all_changes in H1 as (o1 & Ho1 & -> & C1); [|done].
    apply elem_of_all_changes in H2 as (o2 & Ho2 & -> & C2); [|done].
    exists n, o1, o2. done.
Qed.

(** The order in which the outputs are added does not matter: two
    successful merges of the same outputs have the same paths with the same
    kinds, sizes and hashes. *)
Theorem merge_order_independent base limits visits m0 adds adds' m m' :
  NewMergerWithLimits base limits visits = Ok m0 →
  Forall (proper base) adds → Forall (proper base) adds' →
  (∀ a n e, a ∈ adds ∨ a ∈ adds' → ad_output a !! n = Some e → external spool e) →
  ad_output <$> adds ≡ₚ ad_output <$> adds' →
  add_all files spool adds m0 = Ok m → add_all files spool adds' m0 = Ok m' →
  ∀ name, same_opt (m_result m !! name) (m_result m' !! name) = true.
Proof.
  intros Hnew Hp Hp' Hext Hperm Hm Hm' name. pose proof (initial_inv _ _ _ _ Hnew) as Hinv0.
  assert (H1 : ∀ a n e, a ∈ adds → ad_output a !! n = Some e → external spool e) by eauto.
  assert (H2 : ∀ a n e, a ∈ adds' → ad_output a !! n = Some e → external spool e) by eauto.
  pose proof (add_all_inv files spool base [] adds m0 Hinv0 Hp H1) as Hall.
  pose proof (add_all_inv files spool base [] adds' m0 Hinv0 Hp' H2) as Hall'.
  rewrite Hm in Hall. rewrite Hm' in Hall'. cbn in Hall, Hall'.
  pose proof (agrees_with_merged base adds m name Hall Hp) as A.
  destruct (first_change (all_changes base adds) name) as [c|] eqn:Hc.
  - apply first_change_elem in Hc. apply elem_of_all_changes in Hc as (o & Ho & -> & Co); [|done].
    rewrite Hperm in Ho. apply (same_opt_trans _ (o !! name)).
    + apply (mi_agree _ _ _ _ _ Hall), elem_of_all_changes; [done|]. exists o. by rewrite Hperm.
    + apply same_opt_sym, (mi_agree _ _ _ _ _ Hall'), elem_of_all_changes; eauto.
  - assert (Hc' : first_change (all_changes base adds') name = None).
    { apply first_change_none. intros c Hin. apply elem_of_all_changes in Hin as (o & Ho & -> & Co); [|done].
      rewrite <-Hperm in Ho. apply (proj1 (first_change_none _ _) Hc (o !! name)).
      apply elem_of_all_changes; eauto. }
    rewrite (mi_rest _ _ _ _ _ Hall name Hc), (mi_rest _ _ _ _ _ Hall' name Hc'). apply same_opt_refl.
Qed.
End merge_theorems.

(** ** Paths *)
Section paths.
Implicit Types (p d r : string).

(** [Dir] cuts at the last slash. *)
Lemma dir_of_spec p :
  match dir_of p with
  | Some d => ∃ r, p = d +:+ String slash r
  | None => split_on slash p = [p]
  end.
Proof.
  induction p as [|c p IH]; [done|]. cbn. destruct (dir_of p) as [d|].
  - destruct IH as (r & ->). by exists r.
  - destruct (Ascii.eqb_spec c slash) as [->|Hc]; [by exists p|]. by rewrite IH.
Qed.

Lemma byte_in_slash lo hi : (47 < lo)%nat → byte_in lo hi slash = false.
Proof. intros Hlo. unfold byte_in. apply andb_false_iff. left. apply Nat.leb_gt. exact Hlo. Qed.

(** A slash is never inside a UTF-8 sequence. *)
Lemma utf8_cut pending d r :
  Forall (λ b : nat * nat, (47 < b.1)%nat) pending →
  utf8_from pending (d +:+ String slash r) = true → utf8_from pending d = true.
Proof.
  revert pending. induction d as [|c d IH]; intros pending Hp.
  - destruct pending as [|[lo hi] pending]; [done|]. apply Forall_cons in Hp as [Hlo _].
    intros H. apply andb_true_iff in H as [H _]. by rewrite byte_in_slash in H.
  - change (String c d +:+ String slash r) with (String c (d +:+ String slash r)).
    destruct pending as [|[lo hi] pending]; cbn -[byte_in].
    + repeat case_match; try done; apply IH; repeat constructor; cbn; lia.
    + apply Forall_cons in Hp as [_ Hp]. rewrite !andb_true_iff. intros [Hc Hd]. split; [done|].
      by apply (IH pending).
Qed.

Lemma forbidden_app d r : has_forbidden (d +:+ r) = has_forbidden d || has_forbidden r.
Proof.
  induction d as [|c d IH]; [done|].
  change (has_forbidden (String c d +:+ r)) with (byte_in 92 92 c || byte_in 0 0 c || has_forbidden (d +:+ r)).
  rewrite IH. cbn -[byte_in]. by destruct (byte_in 92 92 c), (byte_in 0 0 c).
Qed.

(** The names that a snapshot may hold. *)
Definition valid_name p : Prop :=
  p ≠ "." ∧ ValidPath p = true ∧ has_forbidden p = false ∧ (String.length p ≤ 4096)%nat.

Lemma Dir_cases p : Dir p = "." ∨ ∃ r, p = Dir p +:+ String slash r.
Proof.
  unfold Dir. pose proof (dir_of_spec p) as H. destruct (dir_of p); [by right|by left].
Qed.

Lemma Dir_shorter p : Dir p ≠ "." → (String.length (Dir p) < String.length p)%nat.
Proof.
  intros Hne. destruct (Dir_cases p) as [|[r Hp]]; [done|]. rewrite Hp at 2.
  rewrite string_length_app. cbn. lia.
Qed.

Lemma Dir_valid p : valid_name p → Dir p ≠ "." → valid_name (Dir p).
Proof.
  intros (Hdot & Hv & Hf & Hl) Hne. pose proof (Dir_shorter p Hne) as Hs.
  destruct (Dir_cases p) as [|[r Hp]]; [done|].
  unfold ValidPath in Hv. apply andb_true_iff in Hv as [Hu Hv].
  apply String.eqb_neq in Hdot. rewrite Hdot in Hv. cbn [orb] in Hv.
  rewrite Hp in Hv, Hu, Hf. rewrite split_on_app, forallb_app in Hv. apply andb_true_iff in Hv as [Hv _].
  rewrite forbidden_app in Hf. apply orb_false_iff in Hf as [Hf _].
  split; [done|]. split; [|split; [done|lia]].
  unfold ValidPath. apply andb_true_iff. split; [by apply (utf8_cut [] _ r)|]. by rewrite Hv, orb_true_r.
Qed.

Lemma parents_fuel f1 f2 p :
  (String.length p ≤ f1)%nat → (String.length p ≤ f2)%nat → parents_from f1 p = parents_from f2 p.
Proof.
  assert (H0 : ∀ q, (String.length q ≤ 0)%nat → Dir q = ".") by (intros [|]; [done|cbn; lia]).
  revert f2 p. induction f1 as [|f1 IH]; intros [|f2] p H1 H2; cbn; [done|..].
  - by rewrite H0 by lia.
  - by rewrite H0 by lia.
  - destruct (String.eqb_spec (Dir p) ".") as [|Hne]; [done|]. f_equal.
    apply Dir_shorter in Hne. apply IH; lia.
Qed.

Lemma parents_cons p :
  parents p = if String.eqb (Dir p) "." then [] else Dir p :: parents (Dir p).
Proof.
  unfold parents. rewrite (parents_fuel _ (S (String.length p))) by lia. cbn [parents_from].
  destruct (String.eqb_spec (Dir p) ".") as [|Hne]; [done|]. f_equal.
  apply Dir_shorter in Hne. apply parents_fuel; lia.
Qed.

Lemma elem_of_parents p d :
  d ∈ parents p ↔ Dir p ≠ "." ∧ (d = Dir p ∨ d ∈ parents (Dir p)).
Proof.
  rewrite parents_cons. destruct (String.eqb_spec (Dir p) ".") as [|Hne].
  - rewrite elem_of_nil. naive_solver.
  - rewrite elem_of_cons. naive_solver.
Qed.

Lemma parents_ind (P : string → Prop) :
  (∀ p, (Dir p ≠ "." → P (Dir p)) → P p) → ∀ p, P p.
Proof.
  intros Hstep p. remember (String.length p) as n eqn:Hn. revert p Hn.
  induction n as [n IH] using (well_founded_induction lt_wf). intros p ->.
  apply Hstep. intros Hne. by eapply IH; [apply Dir_shorter, Hne|].
Qed.

Lemma parents_trans p d d' : d ∈ parents p → d' ∈ parents d → d' ∈ parents p.
Proof.
  revert p. apply (parents_ind (λ p, d ∈ parents p → d' ∈ parents d → d' ∈ parents p)).
  intros p IH [Hne Hd]%elem_of_parents Hd'. apply elem_of_parents. split; [done|].
  right. destruct Hd as [->|Hd]; [done|]. by apply IH.
Qed.

Lemma parents_valid p d : valid_name p → d ∈ parents p → valid_name d.
Proof.
  revert p. apply (parents_ind (λ p, valid_name p → d ∈ parents p → valid_name d)).
  intros p IH Hv [Hne [->|Hd]]%elem_of_parents; [by apply Dir_valid|]. by apply IH, Hd; [|apply Dir_valid].
Qed.

Lemma parents_shorter p d : d ∈ parents p → (String.length d < String.length p)%nat.
Proof.
  revert p. apply (parents_ind (λ p, d ∈ parents p → (String.length d < String.length p)%nat)).
  intros p IH [Hne Hd]%elem_of_parents. pose proof (Dir_shorter p Hne).
  destruct Hd as [->|Hd]; [done|]. specialize (IH Hne Hd). lia.
Qed.
End paths.

(** ** Snapshots as trees *)

(** Every parent of a path is a directory of the snapshot. *)
Definition tree (s : Snapshot) : Prop :=
  ∀ name e d, s !! name = Some e → d ∈ parents name → ∃ de, s !! d = Some de ∧ e_Directory de = true.

Fixpoint sum_sizes (l : list (string * Entry)) : Z :=
  match l with [] => 0 | (_, e) :: l => e_Size e + sum_sizes l end.
Definition total_size (s : Snapshot) : Z := sum_sizes (map_to_list s).

#[export] Instance sum_sizes_perm : Proper ((≡ₚ) ==> (=)) sum_sizes.
Proof. induction 1 as [|[n e] l l' _ IH|[n e] [n' e'] l|l1 l2 l3 _ IH1 _ IH2]; cbn; lia. Qed.

Lemma sum_sizes_nonneg l : (∀ n e, (n, e) ∈ l → 0 ≤ e_Size e) → 0 ≤ sum_sizes l.
Proof.
  induction l as [|[n e] l IH]; intros Hl; cbn; [done|].
  assert (0 ≤ e_Size e) by (apply (Hl n); left).
  assert (0 ≤ sum_sizes l) by (apply IH; intros n' e' H'; apply (Hl n'); by right). lia.
Qed.

Lemma total_size_insert s name e :
  total_size (<[name := e]> s) =
  e_Size e + total_size s - match s !! name with Some e0 => e_Size e0 | None => 0 end.
Proof.
  assert (Hnew : ∀ s : Snapshot, s !! name = None → total_size (<[name := e]> s) = e_Size e + total_size s).
  { intros s' Hs. unfold total_size. by rewrite (map_to_list_insert s') by done. }
  destruct (s !! name) as [e0|] eqn:Hs; [|rewrite Hnew by done; lia].
  rewrite <-(insert_delete_id s name e0) at 2 by done. unfold total_size at 2.
  rewrite map_to_list_insert by apply lookup_delete_eq. cbn.
  rewrite <-insert_delete_eq, Hnew by apply lookup_delete_eq. unfold total_size. lia.
Qed.

Section trees.
Implicit Types (s : Snapshot) (name : string).

Lemma add_parents_spec s ps :
  match add_parents s ps with
  | Ok s' =>
      (∀ n, s' !! n = match s !! n with
                      | Some e => Some e
                      | None => if bool_decide (n ∈ ps) then Some implied_directory else None
                      end) ∧
      (∀ n e, n ∈ ps → s !! n = Some e → e_Directory e = true)
  | Err e => e = ErrStagingInvalid ∧ ∃ n e, n ∈ ps ∧ s !! n = Some e ∧ e_Directory e = false
  end.
Proof.
  revert s. induction ps as [|p ps IH]; intros s; cbn.
  { split; [intros n; by destruct (s !! n)|]. intros n e Hn. by apply elem_of_nil in Hn. }
  destruct (s !! p) as [prior|] eqn:Hp.
  - destruct (e_Directory prior) eqn:Hd; [|split; [done|]; exists p, prior; by split; [left|]].
    specialize (IH s). destruct (add_parents s ps).
    + destruct IH as [Hl Hdir]. split.
      * intros n. rewrite Hl. destruct (s !! n) eqn:Hn; [done|].
        assert (n ≠ p) by congruence. repeat case_bool_decide; set_solver.
      * intros n e [->|Hn]%elem_of_cons He; [congruence|eauto].
    + destruct IH as (-> & n & e1 & Hn & He & Hde). split; [done|]. exists n, e1. split; [by right|done].
  - specialize (IH (<[p := implied_directory]> s)). destruct (add_parents _ ps).
    + destruct IH as [Hl Hdir]. split.
      * intros n. rewrite Hl. destruct (decide (p = n)) as [<-|Hne].
        -- rewrite lookup_insert_eq, Hp. rewrite bool_decide_true by left. done.
        -- rewrite lookup_insert_ne by done. destruct (s !! n); [done|]. repeat case_bool_decide; set_solver.
      * intros n e [->|Hn]%elem_of_cons He; [congruence|]. apply (Hdir n e Hn).
        rewrite lookup_insert_ne; [done|congruence].
    + destruct IH as (-> & n & e1 & Hn & He & Hde). split; [done|]. exists n, e1. split; [by right|].
      destruct (decide (p = n)) as [<-|Hne]; [rewrite lookup_insert_eq in He; by simplify_eq|].
      by rewrite lookup_insert_ne in He.
Qed.

(** What a successful [addEntry] has done. *)
Lemma addEntry_ok s name e limit s' :
  addEntry s name e limit = Ok s' →
  (∀ n, s' !! n = if bool_decide (n = name) then Some e
                  else match s !! n with
                       | Some e => Some e
                       | None => if bool_decide (n ∈ parents name) then Some implied_directory else None
                       end) ∧
  (∀ prior, s !! name = Some prior → e_Directory prior = true ∧ e_Directory e = true) ∧
  (∀ n d, n ∈ parents name → s !! n = Some d → e_Directory d = true) ∧
  Z.of_nat (size s') ≤ limit.
Proof.
  unfold addEntry. set (b := match s !! name with Some _ => _ | None => _ end).
  destruct b eqn:Hb; [done|]. pose proof (add_parents_spec (<[name := e]> s) (parents name)) as Hp.
  destruct (add_parents _ _) as [s1|]; cbn; [|done]. case_bool_decide as Hlim; [done|]. intros [= <-].
  destruct Hp as [Hl Hdir]. split; [|split; [|split; [|lia]]].
  - intros n. rewrite Hl. destruct (decide (n = name)) as [->|Hn].
    + by rewrite lookup_insert_eq, bool_decide_true.
    + by rewrite lookup_insert_ne, (bool_decide_false (n = name)).
  - intros prior Hprior. unfold b in Hb. rewrite Hprior in Hb.
    apply orb_false_iff in Hb as [?%negb_false_iff ?%negb_false_iff]. done.
  - intros n d Hn Hd. apply (Hdir n d Hn). rewrite lookup_insert_ne; [done|].
    intros ->. apply parents_shorter in Hn. lia.
Qed.

Lemma addEntry_tree s name e limit s' : addEntry s name e limit = Ok s' → tree s → tree s'.
Proof.
  intros Hadd Ht. destruct (addEntry_ok s name e limit s' Hadd) as (Hl & Hprior & Hpar & _).
  assert (Hparent : ∀ d, d ∈ parents name → ∃ de, s' !! d = Some de ∧ e_Directory de = true).
  { intros d Hd. rewrite Hl. rewrite bool_decide_false
      by (intros ->; apply parents_shorter in Hd; lia). rewrite (bool_decide_true (d ∈ _)) by done.
    destruct (s !! d) as [de|] eqn:Hde; eauto. }
  intros n en d Hn Hd. destruct (decide (n = name)) as [->|Hnn]; [by apply Hparent|].
  rewrite Hl, (bool_decide_false (n = name)) in Hn by done. destruct (s !! n) as [e1|] eqn:Hs.
  - destruct (Ht n e1 d Hs Hd) as (de & Hde & Hdir). rewrite Hl.
    destruct (decide (d = name)) as [->|Hdn].
    + rewrite bool_decide_true by done. exists e. split; [done|]. by apply (Hprior de).
    + rewrite bool_decide_false, Hde by done. eauto.
  - case_bool_decide as Hin; [|done]. apply Hparent. by eapply parents_trans.
Qed.
End trees.

(** ** Reading *)
Section reading.
Context (SHA256_hex : list byte → string) (file : Z) (content : list byte).
Implicit Types (s : Snapshot) (name : string).

(** An entry that describes bytes of the file, or a directory. *)
Definition entry_sound (e : Entry) : Prop :=
  if e_Directory e then e_Size e = 0 ∧ e_SHA256 e = ""
  else 0 ≤ e_Size e ∧ e_file e = Some file ∧
       e_SHA256 e = SHA256_hex (slice content (e_offset e) (e_Size e)) ∧
       Z.of_nat (length (slice content (e_offset e) (e_Size e))) = e_Size e.

Record snapshot_sound (limits : StagingLimits) s : Prop := {
  ss_tree : tree s;
  ss_names : ∀ n e, s !! n = Some e → valid_name n;
  ss_entries : ∀ n e, s !! n = Some e → entry_sound e;
  ss_total : total_size s ≤ sl_PayloadBytes limits;
  ss_count : Z.of_nat (size s) ≤ sl_Entries limits }.

Lemma entry_sound_size e : entry_sound e → 0 ≤ e_Size e.
Proof. unfold entry_sound. case_match; lia. Qed.

Lemma snapshotEntryName_valid header seen name :
  snapshotEntryName header seen = Ok (Some name) → valid_name name ∧ name ∉ seen.
Proof.
  unfold snapshotEntryName. destruct (existsb _ _); [done|].
  set (n := TrimSuffix _ _). destruct (_ && Z.eqb _ _); [done|].
  destruct (String.eqb_spec n ".") as [|Hdot]; cbn [orb]; [done|].
  destruct (ValidPath n) eqn:Hv; cbn [negb orb]; [|done].
  destruct (has_forbidden n) eqn:Hf; cbn [orb]; [done|].
  destruct (4096 <? String.length n)%nat eqn:Hl; cbn [orb]; [done|].
  case_bool_decide as Hseen; [done|]. intros [= <-]. apply Nat.ltb_ge in Hl. done.
Qed.

Lemma readSnapshotEntry_sound header remaining e :
  readSnapshotEntry SHA256_hex file content header remaining = Ok e →
  entry_sound e ∧ e_Size e = h_Size header ∧ e_Size e ≤ remaining.
Proof.
  unfold readSnapshotEntry, entry_sound.
  set (directory := Ascii.eqb (h_Typeflag header) TypeDir).
  destruct (negb _ && _ && negb directory); cbn [orb]; [done|].
  case_bool_decide as Hneg; cbn [orb]; [done|]. case_bool_decide as Hrem; cbn [orb]; [done|].
  destruct (directory && negb (h_Size header =? 0)) eqn:Hd; [done|].
  case_bool_decide as Hlen; [done|]. intros [= <-]. cbn.
  split; [|split; lia]. destruct directory; cbn in Hd.
  - apply negb_false_iff, Z.eqb_eq in Hd. done.
  - split; [lia|]. split; [done|]. split; [done|].
    assert (Z.of_nat (length (slice content (h_offset header) (h_Size header))) ≤ h_Size header)
      by (apply slice_length; lia). lia.
Qed.

Lemma total_size_implied s s' (ps : list string) :
  (∀ n, s' !! n = match s !! n with
                  | Some e => Some e
                  | None => if bool_decide (n ∈ ps) then Some implied_directory else None
                  end) → total_size s' = total_size s.
Proof.
  revert s. induction ps as [|p ps IH]; intros s Hl.
  { f_equal. apply map_eq. intros n. rewrite Hl. destruct (s !! n); [done|].
    by rewrite bool_decide_false by apply not_elem_of_nil. }
  destruct (s !! p) as [e|] eqn:Hp.
  - apply IH. intros n. rewrite Hl. destruct (s !! n) eqn:Hn; [done|].
    assert (n ≠ p) by congruence. repeat case_bool_decide; set_solver.
  - transitivity (total_size (<[p := implied_directory]> s)).
    + apply IH. intros n. rewrite Hl. destruct (decide (n = p)) as [->|Hne].
      * rewrite Hp, lookup_insert_eq. rewrite bool_decide_true by left. done.
      * rewrite lookup_insert_ne by done. destruct (s !! n); [done|]. repeat case_bool_decide; set_solver.
    + rewrite total_size_insert, Hp. cbn. lia.
Qed.

Lemma addEntry_total s name e limit s' :
  addEntry s name e limit = Ok s' → (∀ n e, s !! n = Some e → entry_sound e) →
  total_size s' = total_size s + e_Size e.
Proof.
  intros Hadd Hs. destruct (addEntry_ok s name e limit s' Hadd) as (Hl & Hprior & _ & _).
  transitivity (total_size (<[name := e]> s)).
  - apply (total_size_implied _ _ (parents name)). intros n. rewrite Hl.
    destruct (decide (n = name)) as [->|Hn].
    + by rewrite lookup_insert_eq, bool_decide_true.
    + by rewrite lookup_insert_ne, (bool_decide_false (n = name)).
  - rewrite total_size_insert. destruct (s !! name) as [prior|] eqn:Hp; [|lia].
    destruct (Hprior prior eq_refl) as [Hdir _]. pose proof (Hs name prior Hp) as He.
    unfold entry_sound in He. rewrite Hdir in He. lia.
Qed.

Lemma read_members_sound limits clean headers seen s s' :
  read_members SHA256_hex limits file content clean headers seen (total_size s) s = Ok s' →
  snapshot_sound limits s → snapshot_sound limits s'.
Proof.
  revert seen s. induction headers as [|h headers IH]; intros seen s; cbn.
  { destruct clean; [|done]. by intros [= <-]. }
  destruct (snapshotEntryName h seen) as [[name|]|] eqn:Hname; cbn; [|by apply IH|done].
  destruct (readSnapshotEntry _ _ _ _ _) as [e|] eqn:Hread; cbn; [|done].
  destruct (addEntry s name e _) as [s1|] eqn:Hadd; cbn; [|done]. intros Hrest Hs.
  apply snapshotEntryName_valid in Hname as [Hvalid _].
  apply readSnapshotEntry_sound in Hread as (He & Hsize & Hrem).
  pose proof (addEntry_total _ _ _ _ _ Hadd (ss_entries _ _ Hs)) as Htotal.
  rewrite <-Hsize, <-Htotal in Hrest. apply (IH _ _ Hrest).
  destruct (addEntry_ok _ _ _ _ _ Hadd) as (Hl & _ & _ & Hcount). destruct Hs as [Ht Hn Hen Htot Hc].
  constructor; [by eapply addEntry_tree| | |lia|done].
  - intros n en. rewrite Hl. case_bool_decide as Hnn; [subst; by intros _|].
    destruct (s !! n) eqn:Hsn; [intros _; by eapply Hn|]. case_bool_decide as Hin; [|done].
    intros _. by eapply parents_valid.
  - intros n en. rewrite Hl. case_bool_decide as Hnn; [by intros [= <-]|].
    destruct (s !! n) eqn:Hsn; [intros [= <-]; by eapply Hen|]. case_bool_decide as Hin; [|done].
    by intros [= <-].
Qed.

(** C30: whatever an archive contains, a snapshot that is read from it is a
    tree of valid relative paths (no empty, [.] or [..] element, backslash or
    NUL, so nothing outside the staging directory), within the payload and
    entry limits, and every file entry has the size and hash of the bytes that
    it refers to. *)
Theorem read_snapshot_sound parse limits s :
  0 ≤ sl_PayloadBytes limits → 0 ≤ sl_Entries limits →
  ReadWithLimits SHA256_hex parse file content limits = Ok s → snapshot_sound limits s.
Proof.
  intros Hp He. unfold ReadWithLimits. destruct (_ || _); [done|]. unfold readSnapshotEntries.
  destruct (read_members _ _ _ _ _ _ _ _ _) as [s1|] eqn:Hread; cbn; [|done].
  destruct (checkSnapshotTrailer _); cbn; [|done]. intros [= <-].
  eapply (read_members_sound limits _ _ ∅ ∅); [exact Hread|].
  constructor; try done.
  all: by intros n e Hn; rewrite lookup_empty in Hn.
Qed.
End reading.

(** ** Finishing a merge *)

Lemma check_parents_ok (s : Snapshot) ps :
  check_parents s ps = Ok tt ↔ ∀ d, d ∈ ps → ∃ de, s !! d = Some de ∧ e_Directory de = true.
Proof.
  induction ps as [|p ps IH]; cbn.
  { split; [|done]. intros _ d Hd. by apply elem_of_nil in Hd. }
  destruct (s !! p) as [e|] eqn:Hp; [destruct (e_Directory e) eqn:He|].
  - rewrite IH. split; [|intros H d Hd; apply H; by right].
    intros H d [->|Hd]%elem_of_cons; [eauto|by apply H].
  - split; [done|]. intros H. destruct (H p) as (de & Hde & Hdir); [left|congruence].
  - split; [done|]. intros H. destruct (H p) as (de & Hde & _); [left|congruence].
Qed.

Lemma finish_entries_ok limits (s : Snapshot) total order :
  total ≤ sl_PayloadBytes limits → (∀ n e, (n, e) ∈ order → 0 ≤ e_Size e) →
  finish_entries limits s total order = Ok tt ↔
  total + sum_sizes order ≤ sl_PayloadBytes limits ∧
  ∀ n e d, (n, e) ∈ order → d ∈ parents n → ∃ de, s !! d = Some de ∧ e_Directory de = true.
Proof.
  revert total. induction order as [|[n e] order IH]; intros total Htotal Hsz; cbn.
  { split; [|done]. intros _. split; [lia|]. intros n e d Hin. by apply elem_of_nil in Hin. }
  assert (Hrest : ∀ n e, (n, e) ∈ order → 0 ≤ e_Size e) by (intros n' e' H'; apply (Hsz n'); by right).
  pose proof (sum_sizes_nonneg order Hrest).
  case_bool_decide as Hlim; [split; [done|]; intros [Hsum _]; lia|].
  specialize (IH (total + e_Size e)). pose proof (check_parents_ok s (parents n)) as Hcp.
  destruct (check_parents s (parents n)) as [[]|er]; cbn.
  - rewrite IH by (lia || done). setoid_rewrite elem_of_cons. split.
    + intros [Hsum Hall]. split; [lia|]. intros n' e' d [[= -> ->]|Hin] Hd; [by apply Hcp|eauto].
    + intros [Hsum Hall]. split; [lia|]. intros n' e' d Hin Hd. eapply Hall; eauto.
  - split; [done|]. intros [_ Hall]. assert (Err er = Ok tt) as [=].
    apply Hcp. intros d Hd. eapply Hall; [left|done].
Qed.

(** Finish accepts a merged result exactly when it is a tree within the
    payload and entry limits, in whatever order it visits the entries, and
    returns it unchanged. *)
Theorem finish_accepts_trees m order :
  0 ≤ sl_PayloadBytes (m_limits m) → (∀ n e, m_result m !! n = Some e → 0 ≤ e_Size e) →
  order ≡ₚ map_to_list (m_result m) →
  ∀ s, Finish order m = Ok s ↔
    s = m_result m ∧ tree s ∧ total_size s ≤ sl_PayloadBytes (m_limits m) ∧
    Z.of_nat (size s) ≤ sl_Entries (m_limits m).
Proof.
  intros Hp Hsz Hperm s. unfold Finish.
  assert (Hin : ∀ n e, (n, e) ∈ order ↔ m_result m !! n = Some e)
    by (intros n e; rewrite Hperm; apply elem_of_map_to_list).
  assert (Hsum : sum_sizes order = total_size (m_result m)) by (unfold total_size; by rewrite Hperm).
  pose proof (finish_entries_ok (m_limits m) (m_result m) 0 order Hp) as Hf. setoid_rewrite Hin in Hf.
  specialize (Hf Hsz). rewrite Hsum in Hf.
  destruct (finish_entries _ _ _ _) as [[]|er]; cbn.
  - destruct (proj1 Hf eq_refl) as [Htot Htree]. case_bool_decide as Hc.
    + split; [done|]. intros (-> & _ & _ & Hle). lia.
    + split.
      * intros [= <-]. split; [done|]. split; [exact Htree|]. split; lia.
      * by intros (-> & _).
  - split; [done|]. intros (-> & Htree & Htot & _). assert (Err er = Ok tt) as [=].
    apply Hf. split; [lia|exact Htree].
Qed.

(** ** Writing and reading back *)
Section round_trip.
Context (SHA256_hex : list byte → string) (content_of : Entry → list byte).
Implicit Types (s cur : Snapshot) (name : string) (names : list string).

(** What Write may be given: a tree of valid names within the limits, whose
    entries agree with their content. *)
Record writable (limits : StagingLimits) s : Prop := {
  wr_tree : tree s;
  wr_names : ∀ n e, s !! n = Some e → valid_name n;
  wr_directories : ∀ n e, s !! n = Some e → e_Directory e = true → e_Size e = 0 ∧ e_SHA256 e = "";
  wr_files : ∀ n e, s !! n = Some e → e_Directory e = false →
    Z.of_nat (length (content_of e)) = e_Size e ∧ e_SHA256 e = SHA256_hex (content_of e);
  wr_total : total_size s ≤ sl_PayloadBytes limits;
  wr_count : Z.of_nat (size s) ≤ sl_Entries limits }.

Lemma valid_elements name x :
  valid_name name → x ∈ split_on slash name → (x ∈? [""; "."; ".."])%bool = false.
Proof.
  intros (Hdot & Hv & _) Hx. unfold ValidPath in Hv. apply andb_true_iff in Hv as [_ Hv].
  apply String.eqb_neq in Hdot. rewrite Hdot in Hv. cbn [orb] in Hv.
  rewrite forallb_forall in Hv. apply negb_true_iff, Hv. by apply list_elem_of_In.
Qed.

Lemma TrimPrefix_valid name : valid_name name → TrimPrefix name "./" = name.
Proof.
  intros Hv. unfold TrimPrefix. destruct (strip_prefix "./" name) as [r|] eqn:E; [|done].
  exfalso. apply strip_prefix_spec in E. change ("./" +:+ r) with ("." +:+ String slash r) in E.
  pose proof (valid_elements _ "." Hv) as H. rewrite E, split_on_app in H.
  discriminate H. apply elem_of_app. left. left.
Qed.

Lemma TrimSuffix_cases name : TrimSuffix name "/" = name ∨ ∃ q, name = q +:+ String slash "".
Proof.
  induction name as [|c rest IH]; [by left|]. cbn [TrimSuffix].
  destruct (String.eqb_spec (String c rest) "/") as [Heq|_]; [right; by exists ""|].
  destruct IH as [->|[q Hq]]; [by left|]. right. exists (String c q). by rewrite Hq.
Qed.

Lemma TrimSuffix_valid name : valid_name name → TrimSuffix name "/" = name.
Proof.
  intros Hv. destruct (TrimSuffix_cases name) as [|[q Hq]]; [done|]. exfalso.
  pose proof (valid_elements _ "" Hv) as H. rewrite Hq, split_on_app in H.
  discriminate H. apply elem_of_app. right. left.
Qed.

Lemma snapshotEntryName_written name flag size offset seen :
  valid_name name → name ∉ seen →
  snapshotEntryName (mkHeader name flag size [] offset) seen = Ok (Some name).
Proof.
  intros Hv Hseen. unfold snapshotEntryName. cbn [h_PAXRecords existsb h_Name].
  rewrite TrimPrefix_valid, TrimSuffix_valid by done.
  assert (Hempty : name ≠ "").
  { intros ->. pose proof (valid_elements _ "" Hv) as H. by discriminate H; left. }
  destruct Hv as (Hdot & Hv & Hf & Hl). apply String.eqb_neq in Hdot, Hempty.
  rewrite Hdot, Hempty, Hv, Hf. cbn [orb andb negb].
  rewrite (proj2 (Nat.ltb_ge _ _) Hl). by rewrite bool_decide_false.
Qed.

Definition size_of s name : Z := match s !! name with Some e => e_Size e | None => 0 end.
Fixpoint sum_names s names : Z :=
  match names with [] => 0 | n :: names => size_of s n + sum_names s names end.

Lemma sum_names_perm s names names' : names ≡ₚ names' → sum_names s names = sum_names s names'.
Proof. induction 1; cbn; lia. Qed.

Lemma sum_names_total s : sum_names s (map_to_list s).*1 = total_size s.
Proof.
  unfold total_size. assert (Hl : ∀ n e, (n, e) ∈ map_to_list s → s !! n = Some e)
    by (intros n e; apply elem_of_map_to_list).
  revert Hl. induction (map_to_list s) as [|[n e] l IH]; intros Hl; cbn; [done|].
  unfold size_of. rewrite (Hl n e) by left. rewrite IH; [done|]. intros; apply Hl; by right.
Qed.

(** Read so far: the names in [seen] as in [s], and parents implied by them. *)
Record copied (content : list byte) s (seen : gset string) cur : Prop := {
  cp_seen : ∀ n, n ∈ seen → ∃ e e', s !! n = Some e ∧ cur !! n = Some e' ∧ entry_same e e' = true ∧
    (e_Directory e = false → slice content (e_offset e') (e_Size e') = content_of e);
  cp_implied : ∀ n e', cur !! n = Some e' → n ∉ seen →
    e' = implied_directory ∧ ∃ e, s !! n = Some e ∧ e_Directory e = true }.

Lemma copied_dom content s seen cur : copied content s seen cur → dom cur ⊆ dom s.
Proof.
  intros [Hseen Himp] n. rewrite !elem_of_dom. intros [e' He'].
  destruct (decide (n ∈ seen)) as [Hn|Hn].
  - destruct (Hseen n Hn) as (e & _ & He & _). by exists e.
  - destruct (Himp n e' He' Hn) as (_ & e & He & _). by exists e.
Qed.

Lemma copied_directory content s seen cur n e e' :
  copied content s seen cur → s !! n = Some e → cur !! n = Some e' → e_Directory e = true →
  e_Directory e' = true.
Proof.
  intros [Hseen Himp] He He' Hd. destruct (decide (n ∈ seen)) as [Hn|Hn].
  - destruct (Hseen n Hn) as (e1 & e2 & H1 & H2 & Hs & _). apply entry_same_spec in Hs as [Hs _].
    simplify_eq. congruence.
  - by destruct (Himp n e' He' Hn) as (-> & _).
Qed.

Lemma copied_add limits content s seen cur name e e' :
  writable limits s → copied content s seen cur → s !! name = Some e → name ∉ seen →
  entry_same e e' = true → (e_Directory e = false → slice content (e_offset e') (e_Size e') = content_of e) →
  ∃ cur', addEntry cur name e' (sl_Entries limits) = Ok cur' ∧ copied content s ({[name]} ∪ seen) cur'.
Proof.
  intros Hwr Hcp He Hseen Hsame Hcont. pose proof Hsame as Hs. apply entry_same_spec in Hs as [Hdir _].
  unfold addEntry.
  assert (Hprior : match cur !! name with
    | Some prior => negb (e_Directory prior) || negb (e_Directory e')
    | None => false end = false).
  { destruct (cur !! name) as [prior|] eqn:Hp; [|done].
    destruct (cp_implied _ _ _ _ Hcp name prior Hp Hseen) as (-> & e1 & He1 & Hd1).
    simplify_eq. rewrite <-Hdir, Hd1. done. }
  rewrite Hprior. pose proof (add_parents_spec (<[name := e']> cur) (parents name)) as Hadd.
  assert (Hpar : ∀ d, d ∈ parents name → d ≠ name ∧ ∃ de, s !! d = Some de ∧ e_Directory de = true).
  { intros d Hd. split; [intros ->; apply parents_shorter in Hd; lia|]. by apply (wr_tree _ _ Hwr name e). }
  destruct (add_parents _ _) as [cur'|er].
  2: { exfalso. destruct Hadd as (_ & d & de & Hd & Hde & Hdd). destruct (Hpar d Hd) as (Hne & de' & Hde' & Hdd').
       rewrite lookup_insert_ne in Hde by done.
       pose proof (copied_directory _ _ _ _ _ _ _ Hcp Hde' Hde Hdd'). congruence. }
  destruct Hadd as [Hl _].
  assert (Hcp' : copied content s ({[name]} ∪ seen) cur').
  { constructor.
    - intros n Hn. rewrite Hl. destruct (decide (n = name)) as [->|Hne].
      + rewrite lookup_insert_eq. exists e, e'. done.
      + destruct (cp_seen _ _ _ _ Hcp n) as (e1 & e2 & H1 & H2 & H3); [set_solver|].
        rewrite lookup_insert_ne, H2 by done. exists e1, e2. done.
    - intros n e1. rewrite Hl. intros Hn Hnin. rewrite lookup_insert_ne in Hn by set_solver.
      destruct (cur !! n) as [e2|] eqn:Hcur; [simplify_eq; apply (cp_implied _ _ _ _ Hcp n); [done|set_solver]|].
      case_bool_decide as Hin; simplify_eq. split; [done|]. by apply Hpar. }
  exists cur'. split; [|done]. cbn. rewrite bool_decide_false; [done|].
  pose proof (copied_dom _ _ _ _ Hcp') as Hd. apply subseteq_size in Hd. rewrite !size_dom in Hd.
  pose proof (wr_count _ _ Hwr). lia.
Qed.

Lemma readSnapshotEntry_written file limits s name e pre data post remaining :
  writable limits s → s !! name = Some e → data = (if e_Directory e then [] else content_of e) →
  e_Size e ≤ remaining →
  ∃ e', readSnapshotEntry SHA256_hex file (pre ++ data ++ post)
          (mkHeader name (if e_Directory e then TypeDir else TypeReg) (e_Size e) [] (Z.of_nat (length pre)))
          remaining = Ok e' ∧ entry_same e e' = true ∧
    (e_Directory e = false → slice (pre ++ data ++ post) (e_offset e') (e_Size e') = content_of e).
Proof.
  intros Hwr He Hdata Hrem. unfold readSnapshotEntry. cbn [h_Typeflag h_Size h_offset].
  destruct (e_Directory e) eqn:Hd.
  - destruct (wr_directories _ _ Hwr name e He Hd) as [Hsz Hsha]. rewrite Hsz in *.
    rewrite (bool_decide_false (remaining < 0)) by lia.
    eexists. split; [reflexivity|]. split; [|done]. apply entry_same_spec. cbn. by rewrite Hd, Hsz, Hsha.
  - destruct (wr_files _ _ Hwr name e He Hd) as [Hsz Hsha].
    assert (Hslice : slice (pre ++ data ++ post) (Z.of_nat (length pre)) (e_Size e) = content_of e).
    { subst data. unfold slice. rewrite Nat2Z.id, drop_app_length. rewrite <-Hsz, Nat2Z.id.
      by rewrite take_app_length. }
    change (Ascii.eqb TypeReg TypeReg) with true. change (Ascii.eqb TypeReg TypeDir) with false.
    cbn [negb andb orb]. rewrite !bool_decide_false by lia. cbn [orb].
    rewrite Hslice, bool_decide_false by lia. eexists. split; [reflexivity|]. cbn.
    split; [apply entry_same_spec; cbn; by rewrite Hd, Hsha|]. done.
Qed.

Lemma read_written file limits s names :
  writable limits s → NoDup names → (∀ n, n ∈ names → is_Some (s !! n)) →
  ∀ pre seen total cur hs data,
  write_entries content_of s (Z.of_nat (length pre)) names = Ok (hs, data) →
  copied (pre ++ data) s seen cur → (∀ n, n ∈ names → n ∉ seen) →
  total + sum_names s names ≤ sl_PayloadBytes limits →
  ∃ s', read_members SHA256_hex limits file (pre ++ data) true hs seen total cur = Ok s' ∧
        copied (pre ++ data) s (list_to_set names ∪ seen) s'.
Proof.
  intros Hwr. induction names as [|name names IH]; intros Hnd Hex pre seen total cur hs data Hw Hcp Hns Hsum.
  { cbn in Hw. simplify_eq. exists cur. split; [done|]. cbn. by rewrite union_empty_l_L. }
  apply NoDup_cons in Hnd as [Hnin Hnd]. destruct (Hex name) as [e He]; [left|].
  cbn [write_entries] in Hw. rewrite He in Hw. cbn [default] in Hw. unfold default, from_option, id in Hw.
  destruct (negb (e_Directory e) && _) eqn:Hshort; [done|].
  destruct (write_entries _ _ _ names) as [[hs1 data1]|er] eqn:Hw1; cbn in Hw; [|done].
  injection Hw as <- <-. set (d := if e_Directory e then [] else content_of e) in *.
  assert (Hlen : Z.of_nat (length pre) + e_Size e = Z.of_nat (length (pre ++ d))).
  { rewrite length_app. unfold d. destruct (e_Directory e) eqn:Hd.
    - destruct (wr_directories _ _ Hwr name e He Hd). cbn. lia.
    - destruct (wr_files _ _ Hwr name e He Hd). lia. }
  assert (Hnonneg : 0 ≤ sum_names s names).
  { clear -Hwr. induction names as [|n names IH]; cbn; [done|]. unfold size_of at 1.
    destruct (s !! n) as [e|] eqn:He; [|lia]. destruct (e_Directory e) eqn:Hd.
    - destruct (wr_directories _ _ Hwr n e He Hd). lia.
    - destruct (wr_files _ _ Hwr n e He Hd). lia. }
  cbn [sum_names] in Hsum. unfold size_of at 1 in Hsum. rewrite He in Hsum.
  destruct (readSnapshotEntry_written file limits s name e pre d data1 (sl_PayloadBytes limits - total))
    as (e' & Hread & Hsame & Hcont); [done..|lia|].
  destruct (copied_add limits (pre ++ d ++ data1) s seen cur name e e') as (cur' & Hadd & Hcp');
    [done|done|done|apply Hns; left|done|done|].
  cbn [read_members]. rewrite snapshotEntryName_written; [|by apply (wr_names _ _ Hwr name e)|apply Hns; left].
  cbn [mbind result_bind]. rewrite Hread. cbn [mbind result_bind]. rewrite Hadd. cbn [mbind result_bind h_Size].
  rewrite Hlen in Hw1. rewrite app_assoc in Hcp' |- *.
  destruct (IH Hnd) with (pre := pre ++ d) (seen := {[name]} ∪ seen) (total := total + e_Size e)
    (cur := cur') (hs := hs1) (data := data1) as (s' & Hs' & Hfinal); [|done|done| |lia|].
  { intros n Hn. apply Hex. by right. }
  { intros n Hn. apply not_elem_of_union. split; [set_solver|]. apply Hns. by right. }
  exists s'. split; [done|].
  assert (Heq : (list_to_set (name :: names) : gset string) ∪ seen = list_to_set names ∪ ({[name]} ∪ seen)).
  { apply set_eq. intros n. cbn. set_solver. }
  by rewrite Heq.
Qed.

(** Reading what Write emits gives the snapshot back: for every snapshot
    that is a tree of valid names within the limits and whose entries agree
    with their content, the members that Write lays out are read into a
    snapshot with the same paths, kinds, sizes and hashes, and each file entry
    refers to the bytes that were written for it. *)
Theorem write_read_round_trip file limits s hs data :
  writable limits s → Write content_of s = Ok (hs, data) →
  ∃ s', readSnapshotEntries SHA256_hex file data (mkArchive hs true []) limits = Ok s' ∧
    (∀ n, same_opt (s !! n) (s' !! n) = true) ∧
    ∀ n e e', s !! n = Some e → s' !! n = Some e' → e_Directory e = false →
      slice data (e_offset e') (e_Size e') = content_of e.
Proof.
  intros Hwr Hw. unfold Write in Hw.
  set (names := sort_by string_le (fst <$> map_to_list s)) in *.
  assert (Hperm : names ≡ₚ (map_to_list s).*1) by apply sort_by_perm.
  assert (Hin : ∀ n, n ∈ names ↔ is_Some (s !! n)).
  { intros n. rewrite Hperm, list_elem_of_fmap. split.
    - intros ([k e] & -> & He%elem_of_map_to_list). by exists e.
    - intros [e He]. exists (n, e). split; [done|]. by apply elem_of_map_to_list. }
  assert (Hcp0 : copied ([] ++ data) s ∅ ∅).
  { constructor; [intros n Hn; set_solver|]. intros n e' He'. by rewrite lookup_empty in He'. }
  destruct (read_written file limits s names Hwr) with (pre := @nil byte) (seen := (∅ : gset string))
    (total := 0) (cur := (∅ : Snapshot)) (hs := hs) (data := data) as (s' & Hs' & Hcp);
    [rewrite Hperm; apply NoDup_fst_map_to_list|intros n; apply Hin|exact Hw|exact Hcp0|set_solver| |].
  { rewrite (sum_names_perm _ _ _ Hperm), sum_names_total. pose proof (wr_total _ _ Hwr). lia. }
  cbn [app] in *. exists s'. unfold readSnapshotEntries. cbn [ar_clean ar_headers ar_trailer].
  rewrite Hs'. split; [done|].
  assert (Hseen : ∀ n, n ∈ (list_to_set names ∪ ∅ : gset string) ↔ is_Some (s !! n)).
  { intros n. rewrite elem_of_union, elem_of_list_to_set, Hin. set_solver. }
  split.
  - intros n. destruct (s !! n) as [e|] eqn:He.
    + destruct (cp_seen _ _ _ _ Hcp n) as (e1 & e' & H1 & -> & Hs & _); [apply Hseen; by exists e|].
      by simplify_eq.
    + destruct (s' !! n) as [e'|] eqn:He'; [|done].
      destruct (cp_implied _ _ _ _ Hcp n e' He') as (_ & e & He1 & _); [|congruence].
      rewrite Hseen, He. by intros [].
  - intros n e e' He He' Hd.
    destruct (cp_seen _ _ _ _ Hcp n) as (e1 & e2 & H1 & H2 & _ & Hc); [apply Hseen; by exists e|].
    simplify_eq. by apply Hc.
Qed.
End round_trip.

(** ** Concrete instances *)

Definition sample_sha (l : list byte) : string := match l with [] => "empty" | _ => "full" end.
Definition sample_files (f : Z) : list byte := if Z.eqb f 1 then [Byte.x41; Byte.x42; Byte.x43] else [Byte.x44].
Definition sample_limits : StagingLimits := mkStagingLimits 100 10 4096.
Definition sample_base : Snapshot :=
  {["a" := implied_directory; "a/x" := mkEntry false 1 "full" 0 (Some 1)]}.
Definition sample_output1 : Snapshot :=
  {["a" := implied_directory; "a/x" := mkEntry false 2 "full" 1 (Some 1)]}.
Definition sample_output2 : Snapshot :=
  {["a" := implied_directory; "a/x" := mkEntry false 1 "full" 0 (Some 1);
    "b" := mkEntry false 1 "full" 0 (Some 2)]}.
Definition sample_merger : Merger :=
  mkMerger sample_limits sample_base sample_base ∅ 98 0 0 [].
Definition addition (output : Snapshot) : Addition :=
  mkAddition output (map_to_list sample_base).*1 (map_to_list output).
Definition sample_adds : list Addition := [addition sample_output1; addition sample_output2].
Definition sample_swapped : list Addition := [addition sample_output2; addition sample_output1].

Definition externalb (s : Snapshot) : bool :=
  forallb (λ ne : string * Entry, negb (bool_decide (e_file ne.2 = Some 9)) && Z.leb 0 (e_Size ne.2))
    (map_to_list s).
Lemma externalb_sound s n e : externalb s = true → s !! n = Some e → external 9 e.
Proof.
  unfold externalb. rewrite forallb_forall. intros Hall He%elem_of_map_to_list%list_elem_of_In.
  specialize (Hall _ He). apply andb_true_iff in Hall as [Hf Hs]. cbn in Hf, Hs.
  split; [|lia]. apply negb_true_iff, bool_decide_eq_false in Hf. done.
Qed.

Lemma sample_proper : Forall (proper sample_base) sample_adds ∧ Forall (proper sample_base) sample_swapped.
Proof.
  assert (Hp : ∀ o, proper sample_base (addition o)) by (intros o; split; reflexivity).
  split; (apply Forall_cons; split; [apply Hp|apply Forall_cons; split; [apply Hp|apply Forall_nil; exact I]]).
Qed.

Lemma sample_external a n e :
  a ∈ sample_adds ∨ a ∈ sample_swapped → ad_output a !! n = Some e → external 9 e.
Proof.
  intros Ha. assert (Hb : externalb (ad_output a) = true); [|by apply externalb_sound].
  unfold sample_adds, sample_swapped in Ha. rewrite !elem_of_cons, !elem_of_nil in Ha.
  destruct Ha as [[-> |[-> |[]]]|[-> |[-> |[]]]]; vm_compute; reflexivity.
Qed.

Lemma merge_outputs_witness :
  ∃ m, add_all sample_files 9 sample_adds sample_merger = Ok m ∧
    ∀ name, same_opt (m_result m !! name) (merged sample_base [sample_output1; sample_output2] name) = true.
Proof.
  assert (H := merge_outputs sample_files 9 sample_base sample_limits 100 sample_merger sample_adds
    eq_refl (proj1 sample_proper) (λ n e, externalb_sound sample_base n e eq_refl)
    (λ a n e Ha, sample_external a n e (or_introl Ha))).
  destruct (add_all sample_files 9 sample_adds sample_merger) as [m|e] eqn:E.
  - exists m. split; [reflexivity|]. intros name. apply (proj2 H name).
  - exfalso. vm_compute in E. discriminate E.
Defined.

Lemma merge_order_independent_witness :
  ∃ m m', add_all sample_files 9 sample_adds sample_merger = Ok m ∧
    add_all sample_files 9 sample_swapped sample_merger = Ok m' ∧
    ∀ name, same_opt (m_result m !! name) (m_result m' !! name) = true.
Proof.
  destruct (add_all sample_files 9 sample_adds sample_merger) as [m|e] eqn:E;
    [|exfalso; vm_compute in E; discriminate E].
  destruct (add_all sample_files 9 sample_swapped sample_merger) as [m'|e] eqn:E';
    [|exfalso; vm_compute in E'; discriminate E'].
  exists m, m'. split; [reflexivity|]. split; [reflexivity|].
  apply (merge_order_independent sample_files 9 sample_base sample_limits 100 sample_merger sample_adds
    sample_swapped m m' eq_refl (proj1 sample_proper) (proj2 sample_proper) sample_external);
    [apply perm_swap|exact E|exact E'].
Defined.

Lemma finish_accepts_trees_witness :
  Finish (map_to_list sample_base) sample_merger = Ok sample_base ∧ tree sample_base.
Proof.
  assert (H := finish_accepts_trees sample_merger (map_to_list sample_base)).
  assert (Hrun : Finish (map_to_list sample_base) sample_merger = Ok sample_base) by (vm_compute; reflexivity).
  split; [exact Hrun|]. apply H in Hrun; [exact (proj1 (proj2 Hrun))|cbn; lia| |reflexivity].
  intros n e He. exact (proj2 (externalb_sound sample_base n e eq_refl He)).
Defined.

Definition sample_archive (content : list byte) : Archive :=
  mkArchive [mkHeader "./" TypeDir 0 [] 0; mkHeader "a/b" TypeReg 2 [] 1] true [Byte.x00].
Definition sample_content : list byte := repeat Byte.x41 1024.

Lemma read_snapshot_sound_witness :
  ∃ s, ReadWithLimits sample_sha sample_archive 1 sample_content sample_limits = Ok s ∧
    snapshot_sound sample_sha 1 sample_content sample_limits s.
Proof.
  destruct (ReadWithLimits sample_sha sample_archive 1 sample_content sample_limits) as [s|e] eqn:E;
    [|exfalso; vm_compute in E; discriminate E].
  exists s. split; [reflexivity|].
  apply (read_snapshot_sound sample_sha 1 sample_content sample_archive sample_limits s);
    [cbn; lia|cbn; lia|exact E].
Defined.

Definition writableb (SHA256_hex : list byte → string) (content_of : Entry → list byte)
    (limits : StagingLimits) (s : Snapshot) : bool :=
  forallb (λ ne : string * Entry,
    match check_parents s (parents ne.1) with Ok _ => true | Err _ => false end
    && negb (String.eqb ne.1 ".") && ValidPath ne.1 && negb (has_forbidden ne.1)
    && (String.length ne.1 <=? 4096)%nat
    && (if e_Directory ne.2 then Z.eqb (e_Size ne.2) 0 && String.eqb (e_SHA256 ne.2) ""
        else Z.eqb (Z.of_nat (length (content_of ne.2))) (e_Size ne.2)
             && String.eqb (e_SHA256 ne.2) (SHA256_hex (content_of ne.2)))) (map_to_list s)
  && Z.leb (total_size s) (sl_PayloadBytes limits) && Z.leb (Z.of_nat (size s)) (sl_Entries limits).

Lemma writableb_sound SHA256_hex content_of limits s :
  writableb SHA256_hex content_of limits s = true → writable SHA256_hex content_of limits s.
Proof.
  unfold writableb. rewrite !andb_true_iff, forallb_forall, !Z.leb_le. intros [[Hall Ht] Hc].
  assert (Hn : ∀ n e, s !! n = Some e → _) by
    (intros n e He; exact (Hall (n, e) (proj1 (list_elem_of_In _ _) (proj2 (elem_of_map_to_list _ _ _) He)))).
  cbn [fst snd] in Hn. setoid_rewrite andb_true_iff in Hn.
  constructor; [|intros n e He; destruct (Hn n e He) as [H Hf].. |done|done].
  - intros n e d He Hd. destruct (Hn n e He) as [H _]. rewrite !andb_true_iff in H.
    destruct H as [[[[H _] _] _] _]. destruct (check_parents s (parents n)) as [[]|er] eqn:Ec; [|done].
    by apply (proj1 (check_parents_ok s (parents n)) Ec).
  - rewrite !andb_true_iff, !negb_true_iff in H. destruct H as [[[[_ H1] H2] H3] H4].
    apply String.eqb_neq in H1. apply Nat.leb_le in H4. done.
  - intros Hd. rewrite Hd in Hf. apply andb_true_iff in Hf as [?%Z.eqb_eq ?%String.eqb_eq]. done.
  - intros Hd. rewrite Hd in Hf. apply andb_true_iff in Hf as [?%Z.eqb_eq ?%String.eqb_eq]. done.
Qed.

Lemma write_read_round_trip_witness :
  ∃ hs data s', Write (source_content sample_files) sample_base = Ok (hs, data) ∧
    readSnapshotEntries sample_sha 3 data (mkArchive hs true []) sample_limits = Ok s' ∧
    ∀ n, same_opt (sample_base !! n) (s' !! n) = true.
Proof.
  destruct (Write (source_content sample_files) sample_base) as [[hs data]|e] eqn:E;
    [|exfalso; vm_compute in E; discriminate E].
  destruct (write_read_round_trip sample_sha (source_content sample_files) 3 sample_limits sample_base hs data)
    as (s' & Hs' & Hsame & _); [apply writableb_sound; vm_compute; reflexivity|exact E|].
  exists hs, data, s'. split; [reflexivity|]. split; [exact Hs'|exact Hsame].
Defined.
