(* ===== verification/StageQueries.v ===== *)
(** * StageQueries: the statements of lifecycles.sql.go and deployments.sql.go
    that the stages of a lifecycle and the promotion gate use. *)
From S2P Require Import Prelude Text Db Tx.

Definition LockLifecycle (id : Z) : Tx Z := read (λ s,
  match db_lifecycles s !! id with Some _ => 1 | None => 0 end).

Definition GetLifecycle (id : Z) : Tx Lifecycle := λ s,
  match db_lifecycles s !! id with Some l => Ok (l, s) | None => Err ErrNoRows end.

(** [ORDER BY sort_order]; the UNIQUE constraint leaves no ties within a lifecycle. *)
Definition stage_le (a b : LifecycleStage) : bool := Z.leb (ls_SortOrder a) (ls_SortOrder b).

Definition stages_of (s : DB) (lifecycle : Z) : list LifecycleStage :=
  sort_by stage_le
    (filter (λ l, ls_LifecycleID l = lifecycle) (snd <$> map_to_list (db_stages s))).

Definition ListLifecycleStages (lifecycle : Z) : Tx (list LifecycleStage) :=
  read (λ s, stages_of s lifecycle).

Record CreateLifecycleStageParams := mkStageParams {
  sp_LifecycleID : Z;
  sp_EnvironmentID : Z;
  sp_SortOrder : Z;
  sp_RequiresApproval : Z }.

(** INSERT ... RETURNING: the id is the next of the sequence; both foreign
    keys and both UNIQUE constraints are checked. *)
Definition CreateLifecycleStage (arg : CreateLifecycleStageParams) : Tx LifecycleStage := λ s,
  let id := db_stage_seq s + 1 in
  let row := mkStage id (sp_LifecycleID arg) (sp_EnvironmentID arg) (sp_SortOrder arg)
               (sp_RequiresApproval arg) in
  let t := <[id := row]> (db_stages s) in
  if bool_decide (is_Some (db_lifecycles s !! sp_LifecycleID arg))
     && bool_decide (is_Some (db_environments s !! sp_EnvironmentID arg)) && stages_ok t
  then Ok (row, set_stage_seq id (set_stages t s))
  else Err ErrConstraint.

Definition UpdateLifecycleStageOrder (position id lifecycle : Z) : Tx Z := λ s,
  let (t, rows) := update_pk (db_stages s) id (λ l, Z.eqb (ls_LifecycleID l) lifecycle)
                     (ls_set_SortOrder position) in
  if stages_ok t then Ok (rows, set_stages t s) else Err ErrConstraint.

(** The literal of the LIKE pattern on ansible_json, [check] in double quotes and [:true]. *)
Definition check_true : string :=
  let q := String (Ascii.ascii_of_nat 34) EmptyString in q +:+ "check" +:+ q +:+ ":true".

(** A success that changed something: not a check-mode run, neither by the
    deployment's own mode nor, without one, by a step frozen in check mode. *)
Definition effective_success (s : DB) (d : Deployment) : bool :=
  String.eqb (d_Status d) "succeeded"
  && Z.eqb (default 0 (d_AnsibleCheckMode d)) 0
  && negb (exists_row (db_steps s) (λ st, is_null (d_AnsibleCheckMode d)
             && Z.eqb (s_DeploymentID st) (d_ID d) && String.eqb (s_Kind st) "ansible"
             && contains check_true (s_AnsibleJson st))).

(** [ORDER BY created_at DESC, id DESC]. *)
Definition latest_le (a b : Deployment) : bool :=
  Z.ltb (d_CreatedAt b) (d_CreatedAt a)
  || Z.eqb (d_CreatedAt a) (d_CreatedAt b) && Z.leb (d_ID b) (d_ID a).

Definition GetLatestSuccessfulDeploymentForReleaseEnv (release environment : Z)
    : Tx Deployment := λ s,
  match sort_by latest_le
          (filter (λ d, (Z.eqb (d_ReleaseID d) release && Z.eqb (d_EnvironmentID d) environment
                         && effective_success s d)%bool = true)
             (snd <$> map_to_list (db_deployments s))) with
  | d :: _ => Ok (d, s)
  | [] => Err ErrNoRows
  end.
