(* ===== verification/LifecycleStages.v ===== *)
(** * LifecycleStages: the ordered stages of a lifecycle (lifecycle_stage.go)

    A lifecycle lists the environments a release passes through; sort_order is
    UNIQUE per lifecycle, so a new order is written in two passes, the first of
    which parks every changed stage on an unused negative position. *)
From S2P Require Import Prelude Db Tx StageQueries.

(** [lifecycleStagePosition]: the loop over the stages with the next free
    position as its accumulator. *)
Fixpoint stage_position (params : CreateLifecycleStageParams) (next : Z)
    (stages : list LifecycleStage) : result Z :=
  match stages with
  | [] => Ok (if bool_decide (0 < sp_SortOrder params) then sp_SortOrder params else next)
  | existing :: rest =>
      if Z.eqb (ls_EnvironmentID existing) (sp_EnvironmentID params)
      then Err ErrLifecycleEnvironmentExists
      else if bool_decide (0 < sp_SortOrder params)
              && Z.eqb (ls_SortOrder existing) (sp_SortOrder params)
      then Err ErrLifecycleSortOrderConflict
      else if bool_decide (sp_SortOrder params ≤ 0) && bool_decide (next ≤ ls_SortOrder existing)
      then if Z.eqb (ls_SortOrder existing) MaxInt64 then Err ErrLifecycleSortOrderConflict
           else stage_position params (ls_SortOrder existing + 1) rest
      else stage_position params next rest
  end.

Definition lifecycleStagePosition (params : CreateLifecycleStageParams)
    (stages : list LifecycleStage) : result Z := stage_position params 1 stages.

Definition with_position (params : CreateLifecycleStageParams) (position : Z)
    : CreateLifecycleStageParams :=
  mkStageParams (sp_LifecycleID params) (sp_EnvironmentID params) position
    (sp_RequiresApproval params).

Definition CreateLifecycleStage (params : CreateLifecycleStageParams)
    : DB → result LifecycleStage * DB :=
  WithTx (
    locked ← LockLifecycle (sp_LifecycleID params);
    if Z.eqb locked 0 then fail ErrNoRows
    else
      stages ← ListLifecycleStages (sp_LifecycleID params);
      match lifecycleStagePosition params stages with
      | Err e => fail e
      | Ok position => StageQueries.CreateLifecycleStage (with_position params position)
      end).

(** ** Reordering *)

(** The closure [update] of updateLifecycleStageOrders. *)
Definition update_order (lifecycle id position : Z) : Tx unit :=
  rows ← UpdateLifecycleStageOrder position id lifecycle;
  guard (Z.eqb rows 1) ErrNoRows.

(** [for used[temporary] { ... temporary-- }]. The fuel is the size of [used]:
    each round passes one of its elements. *)
Fixpoint free_position (fuel : nat) (used : gset Z) (temporary : Z) : result Z :=
  if decide (temporary ∈ used) then
    if Z.eqb temporary MinInt64 then Err ErrLifecycleSortOrderConflict
    else match fuel with
         | O => Err (ErrOther "out of fuel")
         | S fuel => free_position fuel used (temporary - 1)
         end
  else Ok temporary.

(** The first pass: [used] and [temporary] are the loop's variables. *)
Fixpoint park_stages (lifecycle : Z) (used : gset Z) (temporary : Z)
    (changes : list LifecycleStage) : Tx unit :=
  match changes with
  | [] => mret tt
  | stage :: rest =>
      match free_position (size used) used temporary with
      | Err e => fail e
      | Ok temporary =>
          update_order lifecycle (ls_ID stage) temporary;;
          park_stages lifecycle ({[temporary]} ∪ used) temporary rest
      end
  end.

Definition updateLifecycleStageOrders (lifecycle : Z) (stages changes : list LifecycleStage)
    : Tx unit :=
  park_stages lifecycle (list_to_set (ls_SortOrder <$> stages)) (-1) changes;;
  for_each changes (λ stage, update_order lifecycle (ls_ID stage) (ls_SortOrder stage)).

Definition reorderLifecycleStages (lifecycle : Z)
    (plan : list LifecycleStage → result (list LifecycleStage))
    : DB → result (list LifecycleStage) * DB :=
  WithTx (
    locked ← LockLifecycle lifecycle;
    guard (Z.eqb locked 1) ErrNoRows;;
    stages ← ListLifecycleStages lifecycle;
    match plan stages with
    | Err e => fail e
    | Ok changes =>
        updateLifecycleStageOrders lifecycle stages changes;;
        ListLifecycleStages lifecycle
    end).

(** The plan of MoveLifecycleStage: exchange the positions of neighbours. *)
Definition move_plan (stageID : Z) (moveUp : bool) (stages : list LifecycleStage)
    : result (list LifecycleStage) :=
  match list_find (λ l, ls_ID l = stageID) stages with
  | None => Err ErrNoRows
  | Some (i, stage) =>
      let neighbor := if moveUp then Z.of_nat i - 1 else Z.of_nat i + 1 in
      if bool_decide (neighbor < 0) || bool_decide (Z.of_nat (length stages) ≤ neighbor)
      then Ok []
      else match stages !! Z.to_nat neighbor with
           | None => Ok []
           | Some other =>
               Ok [ls_set_SortOrder (ls_SortOrder other) stage;
                   ls_set_SortOrder (ls_SortOrder stage) other]
           end
  end.

Definition MoveLifecycleStage (lifecycle stageID : Z) (moveUp : bool) (s : DB)
    : result unit * DB :=
  match reorderLifecycleStages lifecycle (move_plan stageID moveUp) s with
  | (Ok _, s') => (Ok tt, s')
  | (Err e, s') => (Err e, s')
  end.

(** The loop of ReorderLifecycleStages over the requested ids; [i] counts the
    ids already placed. *)
Fixpoint order_stages (existing : gmap Z LifecycleStage) (seen : gset Z) (i : Z) (ids : list Z)
    : result (list LifecycleStage) :=
  match ids with
  | [] => Ok []
  | id :: rest =>
      match existing !! id with
      | None => Err ErrLifecycleStageUnknown
      | Some stage =>
          if decide (id ∈ seen) then Err ErrLifecycleStageDuplicate
          else ordered ← order_stages existing ({[id]} ∪ seen) (i + 1) rest;
               mret (ls_set_SortOrder (i + 1) stage :: ordered)
      end
  end.

Definition reorder_plan (ids : list Z) (stages : list LifecycleStage)
    : result (list LifecycleStage) :=
  if negb (Nat.eqb (length ids) (length stages)) then Err ErrLifecycleStageIDsIncomplete
  else order_stages (list_to_map ((λ l, (ls_ID l, l)) <$> stages)) ∅ 0 ids.

Definition ReorderLifecycleStages (lifecycle : Z) (ids : list Z)
    : DB → result (list LifecycleStage) * DB :=
  reorderLifecycleStages lifecycle (reorder_plan ids).

(** ** The table of stages *)

(** Rows are stored under their key, below the sequence, and satisfy the
    constraints; lifecycles and environments are referenced. *)
Record stages_wf (s : DB) : Prop := {
  sg_key : ∀ id l, db_stages s !! id = Some l → ls_ID l = id ∧ id ≤ db_stage_seq s;
  sg_ok : stages_ok (db_stages s) = true }.

Section table.
Implicit Types (s : DB) (t : gmap Z LifecycleStage) (l : LifecycleStage).

Lemma stages_ok_true t :
  stages_ok t = true ↔
  ∀ k1 k2 r1 r2, t !! k1 = Some r1 → t !! k2 = Some r2 → ls_LifecycleID r1 = ls_LifecycleID r2 →
    ls_SortOrder r1 = ls_SortOrder r2 ∨ ls_EnvironmentID r1 = ls_EnvironmentID r2 → k1 = k2.
Proof.
  unfold stages_ok. rewrite andb_true_iff, !unique_on_true. split.
  - intros [Ho He] k1 k2 r1 r2 H1 H2 Hl [Heq|Heq].
    + by apply (Ho k1 k2 r1 r2 (ls_LifecycleID r2, ls_SortOrder r2)); rewrite ?Hl, ?Heq.
    + by apply (He k1 k2 r1 r2 (ls_LifecycleID r2, ls_EnvironmentID r2)); rewrite ?Hl, ?Heq.
  - intros Hu. split; intros k1 k2 r1 r2 b H1 H2 [= <-] [= Hl Hx];
      apply (Hu k1 k2 r1 r2); auto.
Qed.

Lemma elem_of_stages s L l :
  l ∈ stages_of s L ↔ ∃ id, db_stages s !! id = Some l ∧ ls_LifecycleID l = L.
Proof.
  unfold stages_of. rewrite elem_of_sort_by, list_elem_of_filter, list_elem_of_fmap. split.
  - intros [Hl ([id r] & -> & Hr%elem_of_map_to_list)]. eauto.
  - intros (id & Hid & Hl). split; [done|]. exists (id, l). by rewrite elem_of_map_to_list.
Qed.

Lemma stages_of_lookup s L l :
  stages_wf s → l ∈ stages_of s L → db_stages s !! ls_ID l = Some l ∧ ls_LifecycleID l = L.
Proof. intros Hwf (id & Hid & Hl)%elem_of_stages. by destruct (sg_key _ Hwf id l Hid) as [-> _]. Qed.

Lemma stages_of_nodup s L : stages_wf s → NoDup (ls_ID <$> stages_of s L).
Proof.
  intros Hwf. assert (Hkey : ∀ x y, x ∈ map_to_list (db_stages s) → y ∈ map_to_list (db_stages s) →
    ls_ID x.2 = ls_ID y.2 → x = y).
  { intros [k1 r1] [k2 r2] H1%elem_of_map_to_list H2%elem_of_map_to_list. cbn.
    destruct (sg_key _ Hwf k1 r1 H1) as [-> _], (sg_key _ Hwf k2 r2 H2) as [-> _].
    intros ->. congruence. }
  apply NoDup_fmap_2_strong.
  - intros x y (i & Hx & _)%elem_of_stages (j & Hy & _)%elem_of_stages.
    destruct (sg_key _ Hwf i x Hx) as [-> _], (sg_key _ Hwf j y Hy) as [-> _]. intros ->. congruence.
  - unfold stages_of. rewrite sort_by_perm. apply NoDup_filter, NoDup_fmap_2_strong.
    + intros x y Hx Hy Heq. apply Hkey; congruence.
    + apply NoDup_map_to_list.
Qed.

Lemma stages_of_orders_nodup s L : stages_wf s → NoDup (ls_SortOrder <$> stages_of s L).
Proof.
  intros Hwf. apply NoDup_fmap_2_strong; [|by apply (NoDup_fmap_1 ls_ID), stages_of_nodup].
  intros x y (i & Hx & Lx)%elem_of_stages (j & Hy & Ly)%elem_of_stages Heq.
  pose proof (proj1 (stages_ok_true _) (sg_ok _ Hwf) i j x y Hx Hy) as Hij.
  assert (i = j) as -> by (apply Hij; [congruence|by left]). congruence.
Qed.

(** A list of all the stages of a lifecycle in increasing positions is the
    list that the query returns. *)
Lemma stages_of_unique s L (stages : list LifecycleStage) :
  stages_wf s → StronglySorted (λ a b, stage_le a b = true) stages → NoDup stages →
  (∀ x, x ∈ stages ↔ x ∈ stages_of s L) → stages_of s L = stages.
Proof.
  intros Hwf Hl Hnd Hin. eapply (StronglySorted_unique_strong (λ a b, stage_le a b = true)).
  - intros x y (i & Hx & Lx)%elem_of_stages (j & Hy & Ly)%Hin%elem_of_stages.
    unfold stage_le. rewrite !Z.leb_le. intros H1 H2.
    pose proof (proj1 (stages_ok_true _) (sg_ok _ Hwf) i j x y Hx Hy) as Hij.
    assert (i = j) as -> by (apply Hij; [congruence|left; lia]). congruence.
  - apply sort_by_sorted; unfold stage_le; intros; lia.
  - done.
  - apply NoDup_Permutation; [by apply (NoDup_fmap_1 ls_ID), stages_of_nodup|done|].
    intros x. by rewrite Hin.
Qed.
End table.

(** ** Writing positions *)

(** The stages of [t'] are those of [t], up to their positions. *)
Definition same_stages (t t' : gmap Z LifecycleStage) : Prop :=
  ∀ id, match t !! id, t' !! id with
        | Some l, Some l' => l' = ls_set_SortOrder (ls_SortOrder l') l
        | None, None => True
        | _, _ => False
        end.

Section positions.
Context (L : Z).
Implicit Types (t : gmap Z LifecycleStage) (l : LifecycleStage) (changes : list LifecycleStage).

#[export] Instance same_stages_refl : Reflexive same_stages.
Proof. intros t id. destruct (t !! id) as [[]|]; done. Qed.
#[export] Instance same_stages_trans : Transitive same_stages.
Proof.
  intros t1 t2 t3 H12 H23 id. specialize (H12 id). specialize (H23 id).
  destruct (t1 !! id) as [[]|], (t2 !! id) as [[]|], (t3 !! id) as [[]|]; try done.
  unfold ls_set_SortOrder in *. by simplify_eq/=.
Qed.

(** Positions in use within the lifecycle. *)
Definition uses t (p : Z) : Prop :=
  ∃ id l, t !! id = Some l ∧ ls_LifecycleID l = L ∧ ls_SortOrder l = p.

Lemma update_order_spec s id l p :
  stages_ok (db_stages s) = true → db_stages s !! id = Some l → ls_LifecycleID l = L →
  (∀ id' l', db_stages s !! id' = Some l' → ls_LifecycleID l' = L → ls_SortOrder l' = p → id' = id) →
  let t' := <[id := ls_set_SortOrder p l]> (db_stages s) in
  update_order L id p s = Ok (tt, set_stages t' s) ∧ stages_ok t' = true ∧ same_stages (db_stages s) t'.
Proof.
  intros Hok Hid HL Hp t'.
  assert (Hok' : stages_ok t' = true).
  { apply stages_ok_true. intros k1 k2 r1 r2. unfold t'. rewrite !lookup_insert.
    pose proof (proj1 (stages_ok_true _) Hok) as Hu.
    repeat case_decide; subst; [done| | |by apply Hu].
    - intros [= <-] H2 Hl Heq. destruct Heq as [Heq|Heq]; cbn in *.
      + by rewrite (Hp k2 r2 H2) by congruence.
      + apply (Hu k1 k2 l r2 Hid H2 Hl). by right.
    - intros H1 [= <-] Hl Heq. destruct Heq as [Heq|Heq]; cbn in *.
      + by rewrite (Hp k1 r1 H1) by congruence.
      + apply (Hu k1 k2 r1 l H1 Hid Hl). by right. }
  split; [|split; [done|]].
  - unfold update_order, UpdateLifecycleStageOrder, update_pk, mbind, tx_bind.
    rewrite Hid, HL, Z.eqb_refl. fold t'. by rewrite Hok'.
  - intros k. unfold t'. rewrite lookup_insert. case_decide as Hk; [subst|].
    + rewrite Hid. by destruct l.
    + destruct (db_stages s !! k) as [[]|]; done.
Qed.
Lemma free_position_spec fuel (used : gset Z) p :
  p ≤ -1 → (∀ x : Z, p < x ≤ -1 → x ∈ used) → Z.of_nat (size used) < 2 ^ 62 →
  (size (filter (λ x : Z, (x ≤ p)%Z) used) ≤ fuel)%nat →
  ∃ q, free_position fuel used p = Ok q ∧ q ≤ -1 ∧ q ∉ used ∧ ∀ x, q < x ≤ -1 → x ∈ used.
Proof.
  revert p. induction fuel as [|fuel IH]; intros p Hp Hgap Hsize Hfuel; cbn;
    (case_decide as Hin; [|by exists p]).
  - exfalso. assert (p ∈ filter (λ x : Z, (x ≤ p)%Z) used) as Hp' by (apply elem_of_filter; split; [lia|done]).
    assert (Hz : size (filter (λ x : Z, (x ≤ p)%Z) used) = 0%nat) by lia.
    apply size_empty_inv in Hz. set_solver.
  - assert (Hlow : - p ≤ Z.of_nat (size used)).
    { assert (Hsub : list_to_set (seqZ p (- p)) ⊆ used).
      { intros x Hx. apply elem_of_list_to_set, elem_of_seqZ in Hx.
        destruct (decide (x = p)) as [->|]; [done|]. apply Hgap. lia. }
      apply subseteq_size in Hsub. rewrite size_list_to_set in Hsub by apply NoDup_seqZ.
      rewrite length_seqZ in Hsub. lia. }
    replace (Z.eqb p MinInt64) with false by (unfold MinInt64; symmetry; apply Z.eqb_neq; lia).
    apply IH; [lia| |done|].
    + intros x Hx. destruct (decide (x = p)) as [->|]; [done|]. apply Hgap. lia.
    + assert (Hlt : (size (filter (λ x : Z, (x ≤ p - 1)%Z) used) < size (filter (λ x : Z, (x ≤ p)%Z) used))%nat);
        [|lia]. apply subset_size. split.
      * intros x. rewrite !elem_of_filter. intros [??]. split; [lia|done].
      * intros Hsub. specialize (Hsub p). rewrite !elem_of_filter in Hsub.
        destruct Hsub; [split; [lia|done]|lia].
Qed.
Lemma set_stages_twice t t' s : set_stages t' (set_stages t s) = set_stages t' s.
Proof. done. Qed.

Lemma park_stages_spec changes s used p :
  stages_ok (db_stages s) = true → (∀ x, uses (db_stages s) x → x ∈ used) →
  NoDup (ls_ID <$> changes) →
  (∀ st, st ∈ changes → ∃ l, db_stages s !! ls_ID st = Some l ∧ ls_LifecycleID l = L) →
  p ≤ -1 → (∀ x : Z, p < x ≤ -1 → x ∈ used) →
  Z.of_nat (size used) + Z.of_nat (length changes) < 2 ^ 62 →
  ∃ t', park_stages L used p changes s = Ok (tt, set_stages t' s) ∧ stages_ok t' = true ∧
    same_stages (db_stages s) t' ∧
    (∀ id, id ∉ ls_ID <$> changes → t' !! id = db_stages s !! id) ∧
    (∀ id l, id ∈ ls_ID <$> changes → t' !! id = Some l → ls_SortOrder l ≤ -1 ∧ ls_SortOrder l ∉ used).
Proof.
  revert s used p. induction changes as [|st changes IH]; intros s used p Hok Huse Hnd Hex Hp Hgap Hsize.
  { exists (db_stages s). split; [by destruct s|]. split; [done|]. split; [done|].
    split; [done|]. intros id l Hid. by apply elem_of_nil in Hid. }
  cbn in Hnd. apply NoDup_cons in Hnd as [Hnin Hnd]. cbn [length] in Hsize.
  destruct (free_position_spec (size used) used p) as (q & Hq & Hq1 & Hqu & Hgap'); [done..|lia| |].
  { apply subseteq_size. intros x. by rewrite elem_of_filter; intros []. }
  destruct (Hex st) as (l & Hl & HL); [by left|].
  destruct (update_order_spec s (ls_ID st) l q) as (Hup & Hok1 & Hsame1); [done..| |].
  { intros id' l' Hid' HL' Hx. destruct Hqu. apply Huse. by exists id', l'. }
  set (t1 := <[_ := _]> _) in *.
  destruct (IH (set_stages t1 s) ({[q]} ∪ used) q) as (t' & Hpark & Hok' & Hsame' & Hout & Hin);
    [done| |done| |done| | |].
  - intros x (id & r & Hid & HLr & <-). cbn in Hid. unfold t1 in Hid.
    rewrite lookup_insert in Hid. apply elem_of_union. case_decide; simplify_eq.
    + left. apply elem_of_singleton. by destruct l.
    + right. apply Huse. by exists id, r.
  - intros st' Hst'. destruct (Hex st') as (l' & Hl' & HL'); [by right|]. exists l'.
    cbn. unfold t1. rewrite lookup_insert_ne; [done|]. intros Heq. apply Hnin. rewrite Heq.
    apply list_elem_of_fmap. eauto.
  - intros x Hx. apply elem_of_union. right. by apply Hgap'.
  - rewrite size_union by set_solver. rewrite size_singleton. lia.
  - exists t'. cbn. rewrite Hq. rewrite (bind_ok _ _ _ _ _ Hup). rewrite Hpark.
    split; [done|]. split; [done|]. split; [by etrans|]. split.
    + intros id [Hne Hid]%not_elem_of_cons. rewrite Hout by done. cbn. unfold t1.
      by rewrite lookup_insert_ne.
    + intros id r [->|Hid]%elem_of_cons Hr.
      * rewrite Hout in Hr by done. cbn in Hr. unfold t1 in Hr. rewrite lookup_insert_eq in Hr.
        simplify_eq. by destruct l.
      * destruct (Hin id r Hid Hr). split; [done|]. set_solver.
Qed.

Lemma place_stages_spec changes s :
  stages_ok (db_stages s) = true → NoDup (ls_ID <$> changes) → NoDup (ls_SortOrder <$> changes) →
  (∀ st, st ∈ changes → ∃ l, db_stages s !! ls_ID st = Some l ∧ ls_LifecycleID l = L) →
  (∀ st id l, st ∈ changes → db_stages s !! id = Some l → ls_LifecycleID l = L →
     ls_SortOrder l = ls_SortOrder st → id = ls_ID st) →
  ∃ t', for_each changes (λ stage, update_order L (ls_ID stage) (ls_SortOrder stage)) s
          = Ok (tt, set_stages t' s) ∧ stages_ok t' = true ∧
    same_stages (db_stages s) t' ∧
    (∀ id, id ∉ ls_ID <$> changes → t' !! id = db_stages s !! id) ∧
    (∀ st, st ∈ changes → ∃ l, t' !! ls_ID st = Some l ∧ ls_SortOrder l = ls_SortOrder st).
Proof.
  revert s. induction changes as [|st changes IH]; intros s Hok Hnd Hnp Hex Hfree.
  { exists (db_stages s). split; [by destruct s|]. split; [done|]. split; [done|].
    split; [done|]. intros st Hst. by apply elem_of_nil in Hst. }
  cbn in Hnd, Hnp. apply NoDup_cons in Hnd as [Hnin Hnd]. apply NoDup_cons in Hnp as [Hpin Hnp].
  assert (Hfresh : ∀ st', st' ∈ changes → ls_ID st' ≠ ls_ID st ∧ ls_SortOrder st' ≠ ls_SortOrder st).
  { intros st' Hst'. split; intros Heq; [apply Hnin|apply Hpin]; rewrite <-Heq;
      apply list_elem_of_fmap; eauto. }
  destruct (Hex st) as (l & Hl & HL); [by left|].
  destruct (update_order_spec s (ls_ID st) l (ls_SortOrder st)) as (Hup & Hok1 & Hsame1); [done..| |].
  { intros id' l' Hid' HL' Hx. by apply (Hfree st id' l'); [left|..]. }
  set (t1 := <[_ := _]> _) in *.
  destruct (IH (set_stages t1 s)) as (t' & Hpl & Hok' & Hsame' & Hout & Hin); [done..| | |].
  - intros st' Hst'. destruct (Hex st') as (l' & Hl' & HL'); [by right|]. exists l'.
    cbn. unfold t1. by rewrite lookup_insert_ne by (symmetry; apply (Hfresh st' Hst')).
  - intros st' id r Hst' Hid HLr Hr. cbn in Hid. unfold t1 in Hid. rewrite lookup_insert in Hid.
    case_decide; simplify_eq.
    + destruct l. cbn in Hr. by destruct (Hfresh st' Hst') as [_ []].
    + by apply (Hfree st' id r); [right|..].
  - exists t'. cbn [for_each]. rewrite (bind_ok _ _ _ _ _ Hup). rewrite Hpl.
    split; [done|]. split; [done|]. split; [by etrans|]. split.
    + intros id [Hne Hid]%not_elem_of_cons. rewrite Hout by done. cbn. unfold t1.
      by rewrite lookup_insert_ne.
    + intros st' [->|Hst']%elem_of_cons; [|by apply Hin].
      rewrite Hout by done. cbn. unfold t1. rewrite lookup_insert_eq.
      eexists. split; [done|]. by destruct l.
Qed.
(** Both passes succeed when the new positions are pairwise distinct, positive
    or already used by the lifecycle, and not held by an unchanged stage. *)
Lemma update_orders_spec s changes :
  stages_wf s → NoDup (ls_ID <$> changes) → NoDup (ls_SortOrder <$> changes) →
  (∀ st, st ∈ changes → ∃ l, db_stages s !! ls_ID st = Some l ∧ ls_LifecycleID l = L) →
  (∀ st, st ∈ changes → 0 < ls_SortOrder st ∨ uses (db_stages s) (ls_SortOrder st)) →
  (∀ st id l, st ∈ changes → db_stages s !! id = Some l → ls_LifecycleID l = L →
     ls_SortOrder l = ls_SortOrder st → id ∈ ls_ID <$> changes) →
  Z.of_nat (length (stages_of s L)) + Z.of_nat (length changes) < 2 ^ 62 →
  ∃ t', updateLifecycleStageOrders L (stages_of s L) changes s = Ok (tt, set_stages t' s) ∧
    stages_wf (set_stages t' s) ∧ same_stages (db_stages s) t' ∧
    (∀ id, id ∉ ls_ID <$> changes → t' !! id = db_stages s !! id) ∧
    (∀ st, st ∈ changes → ∃ l, t' !! ls_ID st = Some l ∧ ls_SortOrder l = ls_SortOrder st).
Proof.
  intros Hwf Hnd Hnp Hex Hpos Hfree Hsize. unfold updateLifecycleStageOrders.
  assert (Huse : ∀ x, uses (db_stages s) x ↔ x ∈ (list_to_set (ls_SortOrder <$> stages_of s L) : gset Z)).
  { intros x. rewrite elem_of_list_to_set, list_elem_of_fmap. unfold uses.
    setoid_rewrite elem_of_stages. naive_solver. }
  destruct (park_stages_spec changes s (list_to_set (ls_SortOrder <$> stages_of s L)) (-1))
    as (t1 & Hpark & Hok1 & Hsame1 & Hout1 & Hin1); [apply Hwf|intros x; apply Huse|done..|lia|lia| |].
  { rewrite size_list_to_set, length_fmap by by apply stages_of_orders_nodup. done. }
  destruct (place_stages_spec changes (set_stages t1 s)) as (t2 & Hpl & Hok2 & Hsame2 & Hout2 & Hin2);
    [done..| | |].
  - intros st Hst. destruct (Hex st Hst) as (l & Hl & HL). specialize (Hsame1 (ls_ID st)).
    rewrite Hl in Hsame1. cbn. destruct (t1 !! ls_ID st) as [l'|]; [|done]. exists l'.
    split; [done|]. rewrite Hsame1. by destruct l.
  - intros st id l Hst Hid HL Hp. cbn in Hid.
    assert (Hneg : ls_SortOrder l ≤ -1 → ls_SortOrder l
      ∉ (list_to_set (ls_SortOrder <$> stages_of s L) : gset Z) → False).
    { intros Hl1 Hl2. destruct (Hpos st Hst) as [|Hu]; [lia|]. rewrite <-Hp in Hu. by apply Huse in Hu. }
    destruct (decide (id ∈ ls_ID <$> changes)) as [Hi|Hi].
    + exfalso. by apply Hneg; apply (Hin1 id l Hi Hid).
    + rewrite Hout1 in Hid by done. destruct Hi. by apply (Hfree st id l).
  - exists t2. rewrite (bind_ok _ _ _ _ _ Hpark), Hpl. split; [done|].
    split; [|split; [by etrans|split; [|done]]].
    + constructor; [|done]. cbn. intros id l Hid. assert (Hsame : same_stages (db_stages s) t2) by by etrans.
      specialize (Hsame id). rewrite Hid in Hsame. destruct (db_stages s !! id) as [l0|] eqn:Hid0; [|done].
      destruct (sg_key _ Hwf id l0 Hid0) as [<- Hseq]. rewrite Hsame. by destruct l0.
    + intros id Hid. by rewrite Hout2, Hout1.
Qed.
End positions.

(** ** The plan of a full reordering *)
Section plan.
Implicit Types (m : gmap Z LifecycleStage) (ids : list Z) (ordered : list LifecycleStage).

Lemma order_stages_complete m seen i ids :
  NoDup ids → (∀ id, id ∈ ids → id ∉ seen ∧ ∃ l, m !! id = Some l ∧ ls_ID l = id) →
  ∃ ordered, order_stages m seen i ids = Ok ordered ∧ ls_ID <$> ordered = ids ∧
    ls_SortOrder <$> ordered = seqZ (i + 1) (Z.of_nat (length ids)) ∧
    ∀ st, st ∈ ordered → ∃ l, m !! ls_ID st = Some l ∧ st = ls_set_SortOrder (ls_SortOrder st) l.
Proof.
  revert seen i. induction ids as [|id ids IH]; intros seen i Hnd Hin; cbn.
  { exists []. do 3 (split; [done|]). intros st Hst. by apply elem_of_nil in Hst. }
  apply NoDup_cons in Hnd as [Hnin Hnd].
  destruct (Hin id) as (Hseen & l & Hl & Hid); [by left|]. rewrite Hl. rewrite decide_False by done.
  destruct (IH ({[id]} ∪ seen) (i + 1) Hnd) as (ordered & Hord & Hids & Hpos & Hrows).
  { intros id' Hid'. destruct (Hin id') as (Hs & Hx); [by right|]. split; [|done].
    intros [->%elem_of_singleton|]%elem_of_union; done. }
  rewrite Hord. eexists. split; [done|]. cbn. rewrite Hids, Hpos, (seqZ_cons (i + 1)) by lia.
  split; [by destruct l; cbn in *; rewrite Hid|]. split; [destruct l; cbn; f_equal; f_equal; lia|].
  intros st [->|Hst]%elem_of_cons; [|by apply Hrows].
  exists l. destruct l. cbn in Hid. subst id. by split.
Qed.

Lemma order_stages_sound m seen i ids :
  match order_stages m seen i ids with
  | Ok _ => NoDup ids ∧ ∀ id, id ∈ ids → id ∉ seen ∧ is_Some (m !! id)
  | Err e => e = ErrLifecycleStageUnknown ∨ e = ErrLifecycleStageDuplicate
  end.
Proof.
  revert seen i. induction ids as [|id ids IH]; intros seen i; cbn.
  { split; [constructor|]. intros id Hid. by apply elem_of_nil in Hid. }
  destruct (m !! id) as [l|] eqn:Hl; [|by left]. case_decide as Hseen; [by right|].
  specialize (IH ({[id]} ∪ seen) (i + 1)).
  destruct (order_stages m ({[id]} ∪ seen) (i + 1) ids); cbn; [|done].
  destruct IH as [Hnd Hin]. split.
  - constructor; [|done]. intros Hid. destruct (Hin id Hid) as [[] _]. set_solver.
  - intros id' [->|Hid']%elem_of_cons; [by rewrite Hl|].
    destruct (Hin id' Hid') as [Hns Hs]. split; [set_solver|done].
Qed.
End plan.
