(* ===== verification/QueueQueries.v ===== *)
(** * QueueQueries: the statements of internal/db/deployment_queue.sql.go

    Each definition is one generated query: its WHERE clause as a boolean
    function of the row, its JOINs as lookups, its ORDER BY as a sort. The
    statements of deployment_state.sql.go, verification.sql.go and
    deployment_logs.sql.go that the queue uses are here too. *)
From S2P Require Import Prelude Db Tx.

(** A deployment's scope: the project of its release and its environment.
    [JOIN releases r ON r.id = d.release_id] drops a row without a release. *)
Definition deployment_scope (s : DB) (d : Deployment) : option (Z * Z) :=
  rel ← db_releases s !! d_ReleaseID d;
  Some (rel_ProjectID rel, d_EnvironmentID d).

(** The scope of the deployment with a given id. *)
Definition scope_of (s : DB) (id : Z) : option (Z * Z) :=
  d ← db_deployments s !! id; deployment_scope s d.

Definition claim_in (s : DB) (id : Z) (p : RemoteDeploymentClaim → bool) : bool :=
  match db_claims s !! id with Some c => p c | None => false end.

Definition run_in (s : DB) (id : Z) (p : RemoteStepRun → bool) : bool :=
  exists_row (db_runs s) (λ r, Z.eqb (r_DeploymentID r) id && p r).

Definition held_states : list string :=
  ["claimed"; "started"; "cancel_requested"; "lost"; "cancel_unconfirmed"].

Definition active_statuses : list string :=
  ["pending"; "running"; "publishing_artifact"; "awaiting_artifact_approval"].

(** The condition of ListDeploymentQueueBlockers on one deployment. *)
Definition is_blocker (s : DB) (id : Z) (d : Deployment) : bool :=
  (d_Status d ∈? active_statuses)
  || (String.eqb (d_Status d) "cleanup_unconfirmed"
      && (not_null (d_ContainerNamespace d)
          || (is_null (d_CleanupConfirmedAt d)
              && negb (claim_in s id (λ c, String.eqb (c_State c) "cleanup_unconfirmed"))
              && negb (run_in s id (λ r, String.eqb (r_State r) "cleanup_unconfirmed")))))
  || claim_in s id (λ c, String.eqb (c_State c) "cleanup_unconfirmed" && is_null (c_CleanupConfirmedAt c))
  || run_in s id (λ r, String.eqb (r_State r) "cleanup_unconfirmed" && is_null (r_CleanupConfirmedAt r))
  || claim_in s id (λ c, c_State c ∈? held_states)
  || run_in s id (λ r, r_State r ∈? held_states).

(** [ORDER BY d.created_at, d.id]; rows are listed with their primary key. *)
Definition deployment_le (p q : Z * Deployment) : bool :=
  (d_CreatedAt p.2 <? d_CreatedAt q.2)
  || ((d_CreatedAt p.2 =? d_CreatedAt q.2) && (p.1 <=? q.1)).

Definition select_deployments (s : DB) (where_ : Z → Deployment → bool) : list (Z * Deployment) :=
  filter (λ kd : Z * Deployment, where_ kd.1 kd.2 = true) (map_to_list (db_deployments s)).

Definition LockDeploymentEnvironment (id : Z) : Tx Z :=
  read (λ s, match db_environments s !! id with Some _ => 1 | None => 0 end).

Definition GetDeployment (id : Z) : Tx Deployment := λ s,
  match db_deployments s !! id with Some d => Ok (d, s) | None => Err ErrNoRows end.

Definition GetDeploymentSlot (id : Z) : Tx Z := λ s,
  match scope_of s id ≫= λ sc, db_slots s !! sc with
  | Some owner => Ok (owner, s)
  | None => Err ErrNoRows
  end.

Definition slot_of_deployment (s : DB) (id : Z) : bool :=
  exists_row (db_slots s) (Z.eqb id).

(** INSERT ... SELECT: no row of deployments or releases inserts nothing; an
    existing slot of the scope is a primary-key violation, a slot of the same
    deployment a UNIQUE violation, a missing environment a foreign-key one. *)
Definition CreateEnvironmentDeploymentSlot (environment deployment : Z) : Tx unit := λ s,
  match db_deployments s !! deployment ≫= λ d, db_releases s !! d_ReleaseID d with
  | None => Ok (tt, s)
  | Some rel =>
      match db_slots s !! (rel_ProjectID rel, environment) with
      | Some _ => Err ErrConstraint
      | None =>
          (guard (not_null (db_environments s !! environment)) ErrConstraint;;
           checked (λ s, slots_ok (db_slots s))
             (λ s, set_slots (<[(rel_ProjectID rel, environment) := deployment]> (db_slots s)) s)) s
      end
  end.

Definition DeleteDeploymentSlot (deployment : Z) : Tx unit :=
  write (λ s, set_slots (filter (λ kv : Z * Z * Z, kv.2 ≠ deployment) (db_slots s)) s).

Definition queue_statuses : list string :=
  ["queued"; "pending"; "running"; "publishing_artifact"; "awaiting_artifact_approval";
   "cleanup_unconfirmed"].

Definition in_queue (s : DB) (id : Z) (d : Deployment) : bool :=
  (d_Status d ∈? queue_statuses) || slot_of_deployment s id.

Definition list_min (l : list Z) : Z :=
  match l with [] => 0 | x :: l => foldr Z.min x l end.

(** The (project, id) pairs of an environment's deployments that are in the queue. *)
Definition queue_rows (s : DB) (environment : Z) : list (Z * Z) :=
  omap (λ kd : Z * Deployment, sc ← deployment_scope s kd.2; Some (sc.1, kd.1))
    (select_deployments s (λ id d,
       Z.eqb (d_EnvironmentID d) environment && in_queue s id d)).

(** [SELECT MIN(d.id) ... GROUP BY r.project_id ORDER BY r.project_id]. *)
Definition ListEnvironmentQueueProjects (environment : Z) : Tx (list Z) := read (λ s,
  (λ p, list_min (snd <$> filter (λ pi : Z * Z, pi.1 = p) (queue_rows s environment)))
    <$> sort_by Z.leb (remove_dups (fst <$> queue_rows s environment))).

Definition ListDeploymentQueueEnvironments : Tx (list Z) := read (λ s,
  sort_by Z.leb (remove_dups
    (((λ kd : Z * Deployment, d_EnvironmentID kd.2)
        <$> select_deployments s (λ _ d, d_Status d ∈? queue_statuses))
     ++ ((λ kv : Z * Z * Z, kv.1.2) <$> map_to_list (db_slots s))))).

(** The deployments in the same scope as [id], in queue order. *)
Definition in_scope_rows (s : DB) (id : Z) (where_ : Z → Deployment → bool) : list (Z * Deployment) :=
  match scope_of s id with
  | None => []
  | Some sc => sort_by deployment_le (select_deployments s (λ k d,
      sql_eq (deployment_scope s d) sc && where_ k d))
  end.

Definition ListDeploymentQueueBlockers (id : Z) : Tx (list Z) :=
  read (λ s, fst <$> in_scope_rows s id (is_blocker s)).

Definition GetNextQueuedDeployment (id : Z) : Tx Z := λ s,
  match in_scope_rows s id (λ _ d, String.eqb (d_Status d) "queued") with
  | (next, _) :: _ => Ok (next, s)
  | [] => Err ErrNoRows
  end.

(** An UPDATE of one deployment by primary key; deployments has no CHECK. *)
Definition update_deployment (id : Z) (where_ : DB → Deployment → bool)
    (set : DB → Deployment → Deployment) : Tx Z := λ s,
  let '(t, n) := update_pk (db_deployments s) id (where_ s) (set s) in
  Ok (n, set_deployments t s).

Definition AdmitQueuedDeployment (id : Z) : Tx Z :=
  update_deployment id (λ _ d, String.eqb (d_Status d) "queued") (λ _, d_set_Status "pending").

Definition StartQueuedLocalDeployment (id : Z) : Tx Z :=
  update_deployment id
    (λ s d, String.eqb (d_Status d) "pending" && is_null (d_AssignedAgentID d)
       && existsb (λ kv : Z * Z * Z, Z.eqb kv.2 id && Z.eqb kv.1.2 (d_EnvironmentID d))
            (map_to_list (db_slots s)))
    (λ s d, d_set_Status "running"
       (d_set_StartedAt (Some (default (db_now s) (d_StartedAt d))) d)).

Definition prestart_statuses : list string := ["queued"; "pending_approval"; "pending"].

Definition CancelQueuedDeployment (id : Z) : Tx Z :=
  update_deployment id
    (λ s d, (d_Status d ∈? prestart_statuses)
       && negb (claim_in s id (λ c, negb (c_State c ∈? ["waiting"; "cancelled"]))))
    (λ s d, d_set_Status "cancelled" (d_set_FinishedAt (Some (db_now s)) d)).

(** UPDATE statements on remote_deployment_claims: the new table is checked. *)
Definition store_claims (t : gmap Z RemoteDeploymentClaim) : Tx unit :=
  checked (λ s, claims_ok (db_claims s)) (set_claims t).

Definition update_claim (id : Z) (where_ : DB → RemoteDeploymentClaim → bool)
    (set : DB → RemoteDeploymentClaim → RemoteDeploymentClaim) : Tx Z := λ s,
  let '(t, n) := update_pk (db_claims s) id (where_ s) (set s) in
  (store_claims t;; mret n) s.

Definition update_claims (where_ : DB → RemoteDeploymentClaim → bool)
    (set : DB → RemoteDeploymentClaim → RemoteDeploymentClaim) : Tx Z := λ s,
  let '(t, n) := update_where (db_claims s) (where_ s) (set s) in
  (store_claims t;; mret n) s.

(** Sets state, finished_at and updated_at, but not cancel_requested_at. *)
Definition CancelWaitingQueuedRemoteClaim (id : Z) : Tx unit :=
  update_claim id (λ _ c, String.eqb (c_State c) "waiting")
    (λ s c, c_set_State "cancelled" (c_set_FinishedAt (Some (db_now s))
       (c_set_UpdatedAt (db_now s) c)));;
  mret tt.

(** ** deployment_state.sql.go *)

Definition LockDeploymentApproval (id : Z) : Tx Z :=
  read (λ s, match db_deployments s !! id with
    | Some d => if String.eqb (d_Status d) "pending_approval" then 1 else 0
    | None => 0 end).

Definition LockAssignedRemoteDeployment (id : Z) (agent : option string) : Tx Z :=
  read (λ s, match db_deployments s !! id with
    | Some d => if sql_eq2 (d_AssignedAgentID d) agent then 1 else 0
    | None => 0 end).

Definition ApproveDeploymentStatus (id : Z) : Tx Z :=
  update_deployment id (λ _ d, String.eqb (d_Status d) "pending_approval")
    (λ _, d_set_Status "queued").

Definition CreateApproval (deployment : Z) (approved_by : string) (approver : option Z)
    (role : string) : Tx DeploymentApproval := λ s,
  let row := mkApproval (Z.of_nat (length (db_approvals s)) + 1) deployment approved_by
    (db_now s) approver role in
  Ok (row, set_approvals (db_approvals s ++ [row]) s).

Definition CancelStepDeployment (id : Z) : Tx Z :=
  update_deployment id (λ _ d, d_Status d ∈? active_statuses)
    (λ s d, d_set_Status "cancelled" (d_set_FinishedAt (Some (db_now s)) d)).

(** ** verification.sql.go *)

Definition update_verifications (where_ : DB → DeploymentVerification → bool)
    (set : DB → DeploymentVerification → DeploymentVerification) : Tx unit :=
  write (λ s, set_verifications
    (update_where (db_verifications s) (where_ s) (set s)).1 s).

Definition FinishDeploymentVerification (id : Z) (status : string) : Tx unit :=
  update_verifications
    (λ _ v, Z.eqb (v_DeploymentID v) id && (v_Status v ∈? ["pending"; "running"]))
    (λ s v, v_set_Status status (v_set_FinishedAt (Some (db_now s)) v)).

Definition terminal_statuses : list string :=
  ["succeeded"; "failed"; "cancelled"; "rejected"; "expired"; "cleanup_unconfirmed"].

Definition ReconcileTerminalVerifications : Tx unit :=
  update_verifications
    (λ s v, (v_Status v ∈? ["pending"; "running"])
       && match db_deployments s !! v_DeploymentID v with
          | Some d => d_Status d ∈? terminal_statuses
          | None => false end)
    (λ s v, v_set_Status
       (match db_deployments s !! v_DeploymentID v with
        | Some d => if String.eqb (d_Status d) "cancelled" then "cancelled" else "failed"
        | None => "failed" end)
       (v_set_FinishedAt (Some (db_now s)) v)).

(** ** deployment_logs.sql.go and deployment_steps.sql.go *)

Definition LockDeploymentLogStream (id : Z) : Tx Z :=
  read (λ s, if not_null (db_step_sources s !! id) then 1 else 0).

Definition ListDeploymentSteps (id : Z) : Tx (list DeploymentStep) := read (λ s,
  sort_by (λ a b, s_StepIndex a <=? s_StepIndex b)
    (snd <$> filter (λ kv : Z * Z * DeploymentStep, kv.1.1 = id) (map_to_list (db_steps s)))).

Definition next_log_id (s : DB) : Z := Z.of_nat (length (db_logs s)) + 1.

(** is_step_metadata of a new row: a state change, or the first line of its
    (step_index, step_name) within the deployment. *)
Definition log_metadata (s : DB) (deployment : Z) (step_index : option Z)
    (step_name step_state : option string) : Z :=
  if not_null step_state
     || negb (existsb (λ l, Z.eqb (l_DeploymentID l) deployment
                && Z.eqb (l_IsStepMetadata l) 1
                && bool_decide (l_StepIndex l = step_index)
                && bool_decide (l_StepName l = step_name)) (db_logs s))
  then 1 else 0.

Definition append_log (deployment : Z) (step_name : option string) (line : string)
    (created_at : Z) (step_index : option Z) (step_state : option string)
    : Tx DeploymentLog := λ s,
  let row := mkLog (next_log_id s) deployment step_name line created_at step_index step_state
    (log_metadata s deployment step_index step_name step_state) in
  Ok (row, set_logs (db_logs s ++ [row]) s).

Definition CreateDeploymentLog (deployment : Z) (step_name : option string) (line : string)
    : Tx DeploymentLog := λ s,
  append_log deployment step_name line (db_now s) None None s.

Definition CreateStepDeploymentLog (deployment : Z) (step_name : option string)
    (line : string) (step_index : option Z) (step_state : option string)
    : Tx DeploymentLog := λ s,
  append_log deployment step_name line (db_now s) step_index step_state s.

Definition CreateRemoteDeploymentLog (deployment : Z) (line : string) (created_at : Z)
    : Tx DeploymentLog :=
  append_log deployment None line created_at None None.
