(* ===== verification/DeploymentQueue.v ===== *)
(** * DeploymentQueue: admission of queued deployments (deployment_queue.go)

    Work is serialised per scope, a (project, environment) pair. A deployment
    is a blocker while it may still occupy its environment; a scope without
    blockers hands its slot to the oldest queued deployment. The functions keep
    the names of internal/repository/deployment_queue.go. *)
From S2P Require Import Prelude Db Tx QueueQueries.

Definition advanceDeploymentQueue (id : Z) : Tx unit :=
  d ← GetDeployment id;
  blockers ← ListDeploymentQueueBlockers id;
  slot ← attempt (GetDeploymentSlot id);
  match slot with Err ErrNoRows | Ok _ => mret tt | Err e => fail e end;;
  match blockers, slot with
  | first :: _, Err _ => CreateEnvironmentDeploymentSlot (d_EnvironmentID d) first
  | _ :: _, Ok _ => mret tt
  | [], _ =>
      match slot with
      | Ok owner => DeleteDeploymentSlot owner;; queueAudit owner "deployment_queue_released"
      | Err _ => mret tt
      end;;
      next ← attempt (GetNextQueuedDeployment id);
      match next with
      | Err ErrNoRows => mret tt
      | Err e => fail e
      | Ok next =>
          CreateEnvironmentDeploymentSlot (d_EnvironmentID d) next;;
          AdmitQueuedDeployment next;;
          queueAudit next "deployment_queue_admitted"
      end
  end.

Definition advanceEnvironmentQueue (environment : Z) : Tx unit :=
  projects ← ListEnvironmentQueueProjects environment;
  for_each projects advanceDeploymentQueue.

(** WithDeploymentTx: the environment is read before the transaction opens. *)
Definition WithDeploymentTx {A} (id : Z) (fn : Tx A) (s : DB) : result A * DB :=
  match GetDeployment id s with
  | Err e => (Err e, s)
  | Ok (d, _) =>
      withQueueTx (LockDeploymentEnvironment (d_EnvironmentID d);;
                   a ← fn;
                   advanceEnvironmentQueue (d_EnvironmentID d);;
                   mret a) s
  end.

Definition WithQueueMaintenanceTx {A} (fn : Tx A) (s : DB) : result A * DB :=
  withQueueTx (environments ← ListDeploymentQueueEnvironments;
               for_each environments (λ e, LockDeploymentEnvironment e;; mret tt);;
               a ← fn;
               for_each environments advanceEnvironmentQueue;;
               mret a) s.

(** One transaction per environment of the list read before the first one; an
    error ends the loop with the earlier environments committed. *)
Fixpoint reconcile_environments (environments : list Z) (s : DB) : result unit * DB :=
  match environments with
  | [] => (Ok tt, s)
  | e :: rest =>
      match withQueueTx (LockDeploymentEnvironment e;; advanceEnvironmentQueue e) s with
      | (Ok _, s') => reconcile_environments rest s'
      | (Err er, s') => (Err er, s')
      end
  end.

Definition ReconcileDeploymentQueues (s : DB) : result unit * DB :=
  match ListDeploymentQueueEnvironments s with
  | Ok (environments, _) => reconcile_environments environments s
  | Err e => (Err e, s)
  end.

Definition startLocalDeployment (id : Z) : Tx bool :=
  d ← GetDeployment id;
  advanceEnvironmentQueue (d_EnvironmentID d);;
  blockers ← ListDeploymentQueueBlockers (d_ID d);
  if existsb (λ b, negb (Z.eqb b id)) blockers then mret false
  else changed ← StartQueuedLocalDeployment id; mret (Z.eqb changed 1).

Definition StartLocalDeployment (id : Z) : DB → result bool * DB :=
  WithDeploymentTx id (startLocalDeployment id).

Definition QueuedCancellationLogLine : string :=
  "Not run: cancelled while queued. No output exists because this step never started.".

Definition recordQueuedCancellation (id : Z) : Tx unit :=
  locked ← LockDeploymentLogStream id;
  guard (Z.eqb locked 1) ErrNoRows;;
  steps ← ListDeploymentSteps id;
  for_each steps (λ step,
    CreateStepDeploymentLog id (Some (s_Name step)) QueuedCancellationLogLine
      (Some (s_StepIndex step)) (Some "cancelled");; mret tt).

Definition cancelQueuedDeployment (id : Z) : Tx unit :=
  deployment ← GetDeployment id;
  changed ← QueueQueries.CancelQueuedDeployment id;
  guard (Z.eqb changed 1) ErrDeploymentQueueConflict;;
  (if String.eqb (d_Status deployment) "queued" then recordQueuedCancellation id else mret tt);;
  CancelWaitingQueuedRemoteClaim id;;
  FinishDeploymentVerification id "cancelled";;
  queueAudit id "deployment_queue_cancelled".

Definition CancelQueuedDeployment (id : Z) : DB → result unit * DB :=
  WithDeploymentTx id (cancelQueuedDeployment id).

(** The fields of CreateApprovalParams other than the deployment. *)
Record ApprovalParams := mkApprovalParams {
  ap_by : string;
  ap_user : option Z;
  ap_role : string }.

(** [deploymentResult] adds the execution mode, a function of the row. *)
Definition ApproveDeployment (id : Z) (by_ : ApprovalParams) : DB → result Deployment * DB :=
  WithDeploymentTx id (
    locked ← LockDeploymentApproval id;
    (if Z.eqb locked 0
     then GetDeployment id;; fail ErrDeploymentApprovalConflict
     else mret tt);;
    deployment ← GetDeployment id;
    CreateApproval id (ap_by by_) (ap_user by_) (ap_role by_);;
    changed ← ApproveDeploymentStatus id;
    guard (Z.eqb changed 1) ErrDeploymentApprovalConflict;;
    advanceEnvironmentQueue (d_EnvironmentID deployment);;
    GetDeployment (d_ID deployment)).

(** ** Abstract view: scopes, blockers and the slot *)

(** Deployment [id] currently occupies its scope. *)
Definition blocking (s : DB) (id : Z) : bool :=
  match db_deployments s !! id with Some d => is_blocker s id d | None => false end.

Definition waiting_in_queue (s : DB) (id : Z) : bool :=
  match db_deployments s !! id with Some d => String.eqb (d_Status d) "queued" | None => false end.

(** Foreign keys of deployments and slots, and rows stored under their key. *)
Record queue_wf (s : DB) : Prop := {
  wf_key : ∀ id d, db_deployments s !! id = Some d → d_ID d = id;
  wf_release : ∀ id d, db_deployments s !! id = Some d → is_Some (db_releases s !! d_ReleaseID d);
  wf_environment : ∀ id d, db_deployments s !! id = Some d →
    is_Some (db_environments s !! d_EnvironmentID d);
  wf_slot : ∀ sc id, db_slots s !! sc = Some id → scope_of s id = Some sc }.

(** The contract of the queue: a scope has at most one blocker, and a slot
    that is held while the scope is blocked is held by the blocker. *)
Record exclusive (s : DB) : Prop := {
  ex_one : ∀ sc a b, scope_of s a = Some sc → scope_of s b = Some sc →
    blocking s a = true → blocking s b = true → a = b;
  ex_owner : ∀ sc b o, scope_of s b = Some sc → blocking s b = true →
    db_slots s !! sc = Some o → o = b }.

Definition queue_inv (s : DB) : Prop := queue_wf s ∧ exclusive s.

(** A scope that nothing blocks has no waiting work and no slot. *)
Definition settled (s : DB) (sc : Z * Z) : Prop :=
  (∀ id, scope_of s id = Some sc → blocking s id = false) →
  db_slots s !! sc = None ∧
  (∀ id, scope_of s id = Some sc → waiting_in_queue s id = false).

(** Advancing the scope again would change nothing. *)
Definition quiescent (s : DB) (sc : Z * Z) : Prop :=
  (∃ b o, scope_of s b = Some sc ∧ blocking s b = true ∧ db_slots s !! sc = Some o) ∨
  (db_slots s !! sc = None ∧
   (∀ id, scope_of s id = Some sc → blocking s id = false) ∧
   (∀ id, scope_of s id = Some sc → waiting_in_queue s id = false)).

(** The scope is not listed for advancement, or it is quiescent. *)
Definition stable (s : DB) (sc : Z * Z) : Prop :=
  (∀ id d, scope_of s id = Some sc → db_deployments s !! id = Some d → in_queue s id d = false) ∨
  quiescent s sc.

(** ** Query characterisations *)
Section queries.
Implicit Types (s : DB) (id : Z) (sc : Z * Z).

Lemma scope_of_lookup s id sc :
  scope_of s id = Some sc ↔
  ∃ d rel, db_deployments s !! id = Some d ∧ db_releases s !! d_ReleaseID d = Some rel ∧
           sc = (rel_ProjectID rel, d_EnvironmentID d).
Proof.
  unfold scope_of, deployment_scope. destruct (db_deployments s !! id) as [d|]; cbn; [|naive_solver].
  destruct (db_releases s !! d_ReleaseID d) as [rel|] eqn:Erel; cbn; naive_solver.
Qed.

Lemma elem_of_select s where_ id d :
  (id, d) ∈ select_deployments s where_ ↔ db_deployments s !! id = Some d ∧ where_ id d = true.
Proof.
  unfold select_deployments. rewrite list_elem_of_filter, elem_of_map_to_list. naive_solver.
Qed.

Lemma elem_of_in_scope s id where_ b d :
  (b, d) ∈ in_scope_rows s id where_ ↔
  ∃ sc, scope_of s id = Some sc ∧ scope_of s b = Some sc ∧
        db_deployments s !! b = Some d ∧ where_ b d = true.
Proof.
  unfold in_scope_rows. destruct (scope_of s id) as [sc|]; [|set_solver].
  rewrite elem_of_sort_by, elem_of_select, andb_true_iff, sql_eq_true.
  unfold scope_of. split.
  - intros (Hd & Hsc & Hw). exists sc. rewrite Hd. cbn. naive_solver.
  - intros (sc' & [= <-] & Hsc & Hd & Hw). rewrite Hd in Hsc. cbn in Hsc. naive_solver.
Qed.

Lemma elem_of_blockers s id b :
  b ∈ fst <$> in_scope_rows s id (is_blocker s) ↔
  ∃ sc, scope_of s id = Some sc ∧ scope_of s b = Some sc ∧ blocking s b = true.
Proof.
  rewrite list_elem_of_fmap. unfold blocking. split.
  - intros ([b' d] & -> & (sc & ? & ? & Hd & Hb)%elem_of_in_scope). cbn.
    exists sc. rewrite Hd. done.
  - intros (sc & Hid & Hb & Hbl). destruct (db_deployments s !! b) as [d|] eqn:Ed; [|done].
    exists (b, d). split; [done|]. apply elem_of_in_scope. eauto.
Qed.

Lemma deployment_le_total p q : deployment_le p q = false → deployment_le q p = true.
Proof. unfold deployment_le. lia. Qed.

Lemma deployment_le_trans p q r :
  deployment_le p q = true → deployment_le q r = true → deployment_le p r = true.
Proof. unfold deployment_le. lia. Qed.

Lemma is_blocker_ext s s' id d :
  db_claims s' = db_claims s → db_runs s' = db_runs s →
  is_blocker s' id d = is_blocker s id d.
Proof. intros Hc Hr. unfold is_blocker, claim_in, run_in. by rewrite Hc, Hr. Qed.

Lemma blocking_ext s s' id :
  db_deployments s' !! id = db_deployments s !! id →
  db_claims s' = db_claims s → db_runs s' = db_runs s →
  blocking s' id = blocking s id.
Proof.
  intros Hd Hc Hr. unfold blocking. rewrite Hd. destruct (db_deployments s !! id); [|done].
  by apply is_blocker_ext.
Qed.

Lemma slots_ok_of_wf s : queue_wf s → slots_ok (db_slots s) = true.
Proof.
  intros Hwf. apply unique_on_true. intros k1 k2 r1 r2 b H1 H2 [= ->] [= ->].
  apply (wf_slot _ Hwf) in H1, H2. congruence.
Qed.
End queries.

(** ** What advancing a scope does

    The four outcomes of [advanceDeploymentQueue] on the scope [sc]. *)
Inductive advanced (s : DB) (sc : Z * Z) : DB → Prop :=
  | adv_blocked b o :
      scope_of s b = Some sc → blocking s b = true → db_slots s !! sc = Some o →
      advanced s sc s
  | adv_claimed b :
      scope_of s b = Some sc → blocking s b = true → db_slots s !! sc = None →
      advanced s sc (set_slots (<[sc := b]> (db_slots s)) s)
  | adv_idle audit :
      (∀ id, scope_of s id = Some sc → blocking s id = false) →
      (∀ id, scope_of s id = Some sc → waiting_in_queue s id = false) →
      advanced s sc (set_pending_audit audit (set_slots (delete sc (db_slots s)) s))
  | adv_admitted n d audit :
      (∀ id, scope_of s id = Some sc → blocking s id = false) →
      scope_of s n = Some sc → db_deployments s !! n = Some d → d_Status d = "queued" →
      (∀ m dm, scope_of s m = Some sc → db_deployments s !! m = Some dm →
         d_Status dm = "queued" → m = n ∨ deployment_le (n, d) (m, dm) = true) →
      advanced s sc (set_pending_audit audit
        (set_deployments (<[n := d_set_Status "pending" d]> (db_deployments s))
          (set_slots (<[sc := n]> (db_slots s)) s))).

Section advance.
Implicit Types (s : DB) (id : Z) (sc : Z * Z).

Lemma filter_slot s sc o :
  queue_wf s → db_slots s !! sc = Some o →
  filter (λ kv : Z * Z * Z, kv.2 ≠ o) (db_slots s) = delete sc (db_slots s).
Proof.
  intros Hwf Ho. apply map_eq. intros sc'. destruct (decide (sc = sc')) as [<-|Hne].
  - rewrite lookup_delete_eq. apply map_lookup_filter_None. right. intros x Hx. cbn. naive_solver.
  - rewrite lookup_delete_ne by done. destruct (db_slots s !! sc') as [o'|] eqn:Eo'.
    + apply map_lookup_filter_Some. split; [done|]. cbn. intros ->.
      apply (wf_slot _ Hwf) in Ho, Eo'. congruence.
    + apply map_lookup_filter_None. by left.
Qed.

Lemma wp_create_slot s sc n d :
  db_deployments s !! n = Some d → scope_of s n = Some sc → queue_wf s →
  db_slots s !! sc = None → (∀ k, db_slots s !! k ≠ Some n) →
  CreateEnvironmentDeploymentSlot (d_EnvironmentID d) n s =
    Ok (tt, set_slots (<[sc := n]> (db_slots s)) s).
Proof.
  intros Hd Hsc Hwf Hnone Hfree. unfold CreateEnvironmentDeploymentSlot. rewrite Hd. cbn.
  apply scope_of_lookup in Hsc as (d' & rel & Hd' & Hrel & ->). simplify_eq.
  rewrite Hrel, Hnone. destruct (wf_environment _ Hwf _ _ Hd) as [name Hname].
  unfold guard, mbind, tx_bind. rewrite Hname.
  assert (not_null (Some name) = true) as -> by by apply not_null_true.
  assert (Hok : slots_ok (<[(rel_ProjectID rel, d_EnvironmentID d) := n]> (db_slots s)) = true).
  { apply unique_on_insert; [by apply slots_ok_of_wf|]. intros b k' r' [= <-] _ Hk' [= ->].
    by apply (Hfree k'). }
  unfold mret, tx_ret, checked. cbn [db_slots set_slots]. by rewrite Hok.
Qed.

Lemma get_slot_result s id sc :
  scope_of s id = Some sc →
  attempt (GetDeploymentSlot id) s =
    Ok (match db_slots s !! sc with Some o => Ok o | None => Err ErrNoRows end, s).
Proof.
  intros Hsc. unfold attempt, GetDeploymentSlot. rewrite Hsc. cbn. by destruct (db_slots s !! sc).
Qed.

Lemma set_slots_same s : set_slots (db_slots s) s = s.
Proof. by destruct s. Qed.

Lemma set_pending_same s : set_pending_audit (db_pending_audit s) s = s.
Proof. by destruct s. Qed.

(** No blocker, slot already cleared (or never held): admit the next one. *)
Lemma admit_next s id d sc slots audit :
  queue_wf s → scope_of s id = Some sc → db_deployments s !! id = Some d →
  (∀ b, scope_of s b = Some sc → blocking s b = false) →
  slots = delete sc (db_slots s) →
  ∃ s', (next ← attempt (GetNextQueuedDeployment id);
         match next with
         | Err ErrNoRows => mret tt
         | Err e => fail e
         | Ok next =>
             CreateEnvironmentDeploymentSlot (d_EnvironmentID d) next;;
             AdmitQueuedDeployment next;;
             queueAudit next "deployment_queue_admitted"
         end) (set_pending_audit audit (set_slots slots s)) = Ok (tt, s') ∧ advanced s sc s'.
Proof.
  intros Hwf Hsc Hd Hnob ->. set (s0 := set_pending_audit audit (set_slots _ s)).
  unfold mbind at 1, tx_bind at 1, attempt, GetNextQueuedDeployment.
  change (in_scope_rows s0 id) with (in_scope_rows s id).
  set (rows := in_scope_rows s id (λ _ d, String.eqb (d_Status d) "queued")).
  assert (Hrows : ∀ m dm, (m, dm) ∈ rows ↔ scope_of s m = Some sc ∧
            db_deployments s !! m = Some dm ∧ d_Status dm = "queued").
  { intros m dm. unfold rows. rewrite elem_of_in_scope. setoid_rewrite String.eqb_eq. naive_solver. }
  destruct rows as [|[n dn] rest] eqn:Erows.
  - eexists. split; [done|]. apply adv_idle; [done|]. intros m Hm.
    unfold waiting_in_queue. destruct (db_deployments s !! m) as [dm|] eqn:Em; [|done].
    apply String.eqb_neq. intros Hq.
    assert ((m, dm) ∈ @nil (Z * Deployment)) as Hin by (by apply Hrows).
    set_solver.
  - destruct (proj1 (Hrows n dn)) as (Hn & Hdn & Hq); [left|].
    assert (Henv : d_EnvironmentID d = d_EnvironmentID dn).
    { apply scope_of_lookup in Hn as (? & ? & ? & ? & Hn), Hsc as (? & ? & ? & ? & Hsc). naive_solver. }
    assert (Hwf0 : queue_wf s0).
    { destruct Hwf as [Hk Hr He Hs]. split; [exact Hk|exact Hr|exact He|].
      cbn. intros sc' o [_ Ho]%lookup_delete_Some. by apply Hs. }
    rewrite Henv. unfold mbind, tx_bind.
    rewrite (wp_create_slot s0 sc n dn); [|done|done|done|apply lookup_delete_eq|].
    2: { cbn. intros k [Hne Hk]%lookup_delete_Some. apply (wf_slot _ Hwf) in Hk. congruence. }
    unfold AdmitQueuedDeployment, update_deployment, update_pk. cbn.
    rewrite Hdn, Hq. cbn. eexists. split; [done|]. unfold s0.
    rewrite insert_delete_eq.
    match goal with |- advanced s sc ?x =>
      replace x with (set_pending_audit (audit ++ [("deployment_queue_admitted", n)])
        (set_deployments (<[n := d_set_Status "pending" dn]> (db_deployments s))
          (set_slots (<[sc := n]> (db_slots s)) s))) by done end.
    apply adv_admitted; [done..|]. intros m dm Hm Hdm Hqm.
    destruct (sort_by_head deployment_le deployment_le_total deployment_le_trans
      (select_deployments s (λ k d, sql_eq (deployment_scope s d) sc &&
         String.eqb (d_Status d) "queued")) (n, dn) rest (m, dm)) as [[= -> ->]|Hle]; [| |by left|by right].
    + subst rows. unfold in_scope_rows in Erows. by rewrite Hsc in Erows.
    + apply elem_of_select. split; [done|]. rewrite andb_true_iff, sql_eq_true, String.eqb_eq.
      unfold scope_of in Hm. by rewrite Hdm in Hm.
Qed.

Lemma advanceDeploymentQueue_spec s id sc :
  queue_wf s → scope_of s id = Some sc →
  ∃ s', advanceDeploymentQueue id s = Ok (tt, s') ∧ advanced s sc s'.
Proof.
  intros Hwf Hsc. pose proof Hsc as Hsc'.
  apply scope_of_lookup in Hsc' as (d & rel & Hd & Hrel & Esc).
  unfold advanceDeploymentQueue.
  unfold mbind at 1, tx_bind at 1, GetDeployment. rewrite Hd.
  unfold mbind at 1, tx_bind at 1, ListDeploymentQueueBlockers, read at 1.
  unfold mbind at 1, tx_bind at 1. rewrite (get_slot_result s id sc Hsc).
  destruct (fst <$> in_scope_rows s id (is_blocker s)) as [|b rest] eqn:Ebl.
  - assert (Hnob : ∀ b, scope_of s b = Some sc → blocking s b = false).
    { intros b Hb. apply not_true_iff_false. intros Hbl.
      assert (b ∈ fst <$> in_scope_rows s id (is_blocker s)) as Hin
        by (apply elem_of_blockers; eauto). rewrite Ebl in Hin. set_solver. }
    destruct (db_slots s !! sc) as [o|] eqn:Eo.
    + set (audit := db_pending_audit s ++ [("deployment_queue_released", o)]).
      destruct (admit_next s id d sc (delete sc (db_slots s)) audit) as (s' & Hs' & Hadv); [done..|].
      exists s'. split; [|done]. rewrite <-Hs', <-(filter_slot s sc o Hwf Eo). done.
    + destruct (admit_next s id d sc (db_slots s) (db_pending_audit s)) as (s' & Hs' & Hadv);
        [done..|by rewrite delete_id|]. exists s'. split; [|done].
      rewrite <-Hs', set_slots_same, set_pending_same. done.
  - destruct (proj1 (elem_of_blockers s id b)) as (sc' & Hid & Hb & Hbl); [rewrite Ebl; left|].
    assert (sc' = sc) as -> by congruence.
    destruct (db_slots s !! sc) as [o|] eqn:Eo.
    + exists s. split; [done|]. by apply (adv_blocked s sc b o).
    + eexists. split; [|by apply (adv_claimed s sc b)].
      pose proof Hb as Hb'. apply scope_of_lookup in Hb' as (db & relb & Hdb & Hrelb & Esc').
      cbn. unfold mbind, tx_bind, mret, tx_ret.
      replace (d_EnvironmentID d) with (d_EnvironmentID db) by congruence.
      apply wp_create_slot; [done..|]. intros k Hk. pose proof (wf_slot _ Hwf _ _ Hk). congruence.
Qed.
End advance.

(** ** The contract is kept *)
Section advanced_facts.
Context (s s' : DB) (sc : Z * Z) (Hadv : advanced s sc s') (Hwf : queue_wf s).

Lemma advanced_releases : db_releases s' = db_releases s.
Proof using Hadv. by destruct Hadv. Qed.

Lemma advanced_tables :
  db_claims s' = db_claims s ∧ db_runs s' = db_runs s ∧ db_environments s' = db_environments s.
Proof using Hadv. by destruct Hadv. Qed.

(** Apart from the status of the admitted deployment, rows are unchanged. *)
Lemma advanced_deployment id :
  db_deployments s' !! id = db_deployments s !! id ∨
  (scope_of s id = Some sc ∧ ∃ d, db_deployments s !! id = Some d ∧
     d_Status d = "queued" ∧ db_deployments s' !! id = Some (d_set_Status "pending" d)).
Proof using Hadv.
  destruct Hadv as [| | |n d audit Hn Hscn Hd Hq]; [by left..|]. cbn.
  destruct (decide (n = id)) as [<-|Hne]; [right|left; by rewrite lookup_insert_ne].
  rewrite lookup_insert_eq. eauto.
Qed.

Lemma advanced_scope id : scope_of s' id = scope_of s id.
Proof using Hadv.
  unfold scope_of, deployment_scope. rewrite advanced_releases.
  destruct (advanced_deployment id) as [->|(_ & d & -> & _ & ->)]; done.
Qed.

Lemma advanced_slot_other sc' : sc' ≠ sc → db_slots s' !! sc' = db_slots s !! sc'.
Proof using Hadv. intros Hne. destruct Hadv; cbn; by simplify_map_eq. Qed.

Lemma advanced_blocking_other id :
  scope_of s id ≠ Some sc → blocking s' id = blocking s id.
Proof using Hadv.
  intros Hne. destruct advanced_tables as (Hc & Hr & _). apply blocking_ext; [|done..].
  destruct (advanced_deployment id) as [->|[? _]]; done.
Qed.

Lemma advanced_waiting id : waiting_in_queue s' id = true → waiting_in_queue s id = true.
Proof using Hadv.
  unfold waiting_in_queue. destruct (advanced_deployment id) as [->|(_ & d & -> & _ & ->)]; done.
Qed.

Lemma advanced_wf : queue_wf s'.
Proof using Hadv Hwf.
  destruct Hwf as [Hk Hr He Hs]. destruct advanced_tables as (_ & _ & Henv). split.
  - intros id d' Hd'. destruct (advanced_deployment id) as [Heq|(_ & d & Hd & _ & Heq)];
      rewrite Heq in Hd'; [eauto|]. injection Hd' as <-. by apply (Hk id d Hd).
  - intros id d' Hd'. rewrite advanced_releases.
    destruct (advanced_deployment id) as [Heq|(_ & d & Hd & _ & Heq)];
      rewrite Heq in Hd'; [eauto|]. injection Hd' as <-. by apply (Hr id d).
  - intros id d' Hd'. rewrite Henv.
    destruct (advanced_deployment id) as [Heq|(_ & d & Hd & _ & Heq)];
      rewrite Heq in Hd'; [eauto|]. injection Hd' as <-. by apply (He id d).
  - intros sc' o Ho. rewrite advanced_scope.
    destruct (decide (sc' = sc)) as [->|Hne]; [|rewrite advanced_slot_other in Ho by done; auto].
    destruct Hadv; cbn in Ho; simplify_map_eq; auto.
Qed.

Lemma advanced_quiescent : quiescent s' sc.
Proof using Hadv.
  pose proof advanced_scope as Hscope.
  destruct Hadv as [b o Hb Hbl Ho|b Hb Hbl Ho|audit Hnb Hnq|n d audit Hnb Hn Hd Hq Hmin].
  - left. eauto.
  - left. exists b, b. split; [done|]. split; [done|]. apply lookup_insert_eq.
  - right. split; [by apply lookup_delete_eq|]. done.
  - left. exists n, n. rewrite Hscope. split; [done|]. split.
    + unfold blocking. cbn. by rewrite lookup_insert_eq.
    + apply lookup_insert_eq.
Qed.

Lemma advanced_stable_other sc' : sc' ≠ sc → stable s sc' → stable s' sc'.
Proof using Hadv Hwf.
  intros Hne [Hout|Hq].
  - left. intros id d Hid Hd. rewrite advanced_scope in Hid.
    destruct (advanced_deployment id) as [Heq|[? _]]; [|congruence].
    rewrite Heq in Hd. specialize (Hout id d Hid Hd).
    unfold in_queue in *. apply orb_false_iff in Hout as [Hst Hsl]. apply orb_false_iff. split; [done|].
    apply exists_row_false. intros k o Ho. apply Z.eqb_neq. intros ->.
    pose proof (wf_slot _ advanced_wf _ _ Ho) as Hk. rewrite advanced_scope in Hk.
    assert (k = sc') as -> by congruence. rewrite advanced_slot_other in Ho by done.
    unfold slot_of_deployment in Hsl. rewrite exists_row_false in Hsl.
    specialize (Hsl _ _ Ho). by rewrite Z.eqb_refl in Hsl.
  - right. destruct Hq as [(b & o & Hb & Hbl & Ho)|(Hslot & Hnb & Hnq)].
    + left. exists b, o. rewrite advanced_scope, advanced_slot_other by done.
      rewrite advanced_blocking_other by congruence. done.
    + right. rewrite advanced_slot_other by done. split; [done|].
      split; intros id Hid; rewrite advanced_scope in Hid.
      * rewrite advanced_blocking_other by congruence. auto.
      * apply not_true_iff_false. intros Hw%advanced_waiting. by rewrite (Hnq id Hid) in Hw.
Qed.

(** Inside the scope, only the slot holder can be a new blocker. *)
Lemma advanced_blocking id :
  blocking s' id = true → blocking s id = true ∨
  (scope_of s id = Some sc ∧ db_slots s' !! sc = Some id ∧
   ∀ b, scope_of s b = Some sc → blocking s b = false).
Proof using Hadv.
  destruct Hadv as [| | |n d audit Hnb Hn Hd Hq Hmin]; [by left..|].
  destruct (decide (id = n)) as [->|Hne].
  - intros _. right. cbn. by rewrite lookup_insert_eq.
  - intros Hb. left. rewrite <-Hb. symmetry. apply blocking_ext; [|done..].
    cbn. by rewrite lookup_insert_ne.
Qed.

Lemma advanced_exclusive : exclusive s → exclusive s'.
Proof using Hadv.
  intros [Hone Howner]. split.
  - intros sc' a b. rewrite !advanced_scope. intros Ha Hb Hba Hbb.
    destruct (advanced_blocking a Hba) as [Ha'|(Hsa & Hla & Hna)];
    destruct (advanced_blocking b Hbb) as [Hb'|(Hsb & Hlb & Hnb)]; simplify_eq; try done.
    + by eapply Hone.
    + by rewrite (Hnb a) in Ha'.
    + by rewrite (Hna b) in Hb'.
  - intros sc' b o Hb Hbl Ho. rewrite advanced_scope in Hb.
    destruct (advanced_blocking b Hbl) as [Hb'|(Hsb & Hlb & Hnb)]; [|by simplify_eq].
    destruct (decide (sc' = sc)) as [->|Hne].
    + destruct Hadv as [b' o' Hsb' Hbl' Ho'|b' Hsb' Hbl' Ho'|audit Hnb Hnq|n d audit Hnb Hn Hd Hq Hmin];
        cbn in Ho; simplify_map_eq.
      * by eapply Howner.
      * by eapply Hone.
      * by rewrite (Hnb b) in Hb'.
    + rewrite advanced_slot_other in Ho by done. by eapply Howner.
Qed.
End advanced_facts.

(** ** Advancing every scope of an environment *)

Definition env_step (env : Z) (s s' : DB) : Prop := ∃ p, advanced s (p, env) s'.

Section environment.
Implicit Types (s : DB) (id env : Z).

Lemma env_steps_wf env s s' : rtc (env_step env) s s' → queue_wf s → queue_wf s'.
Proof. induction 1 as [|s1 s2 s3 [p Hp] _ IH]; eauto using advanced_wf. Qed.

Lemma env_steps_inv env s s' : rtc (env_step env) s s' → queue_inv s → queue_inv s'.
Proof.
  induction 1 as [|s1 s2 s3 [p Hp] _ IH]; [done|]. intros [Hwf Hex]. apply IH.
  split; eauto using advanced_wf, advanced_exclusive.
Qed.

Lemma env_steps_scope env s s' id : rtc (env_step env) s s' → scope_of s' id = scope_of s id.
Proof.
  induction 1 as [|s1 s2 s3 [p Hp] _ IH]; [done|]. rewrite IH. by eapply advanced_scope.
Qed.

Lemma advanced_stable s sc sc' s' :
  advanced s sc s' → queue_wf s → stable s sc' → stable s' sc'.
Proof.
  intros Hadv Hwf Hst. destruct (decide (sc' = sc)) as [->|Hne].
  - right. by eapply advanced_quiescent.
  - by eapply advanced_stable_other.
Qed.

Lemma env_steps_stable env s s' sc :
  rtc (env_step env) s s' → queue_wf s → stable s sc → stable s' sc.
Proof.
  induction 1 as [|s1 s2 s3 [p Hp] _ IH]; [done|]. intros Hwf Hst.
  apply IH; eauto using advanced_wf, advanced_stable.
Qed.

Lemma for_each_advance env l s :
  queue_wf s → (∀ x, x ∈ l → ∃ p, scope_of s x = Some (p, env)) →
  ∃ s', for_each l advanceDeploymentQueue s = Ok (tt, s') ∧ rtc (env_step env) s s' ∧
    ∀ x sc, x ∈ l → scope_of s x = Some sc → stable s' sc.
Proof.
  revert s. induction l as [|x l IH]; intros s Hwf Hl.
  { exists s. split; [done|]. split; [done|]. set_solver. }
  destruct (Hl x) as [p Hp]; [left|].
  destruct (advanceDeploymentQueue_spec s x (p, env) Hwf Hp) as (s1 & Hs1 & Hadv).
  destruct (IH s1) as (s2 & Hs2 & Hsteps & Hst).
  { eauto using advanced_wf. }
  { intros y Hy. rewrite (advanced_scope _ _ _ Hadv). apply Hl. by right. }
  exists s2. split; [cbn; unfold mbind, tx_bind; by rewrite Hs1|]. split.
  { eapply rtc_l; [by exists p|done]. }
  intros y sc [->|Hy]%elem_of_cons Hsc.
  - simplify_eq. eapply env_steps_stable; eauto using advanced_wf. right.
    by eapply advanced_quiescent.
  - eapply Hst; [done|]. by rewrite (advanced_scope _ _ _ Hadv).
Qed.

Lemma list_min_elem l : l ≠ [] → list_min l ∈ l.
Proof.
  destruct l as [|x l]; [done|]. intros _. cbn.
  induction l as [|y l IH]; cbn; [set_solver|].
  destruct (Z.min_spec y (foldr Z.min x l)) as [[_ ->]|[_ ->]]; set_solver.
Qed.

Lemma elem_of_env_rows s env p id :
  (p, id) ∈ queue_rows s env ↔
  scope_of s id = Some (p, env) ∧
  ∃ d, db_deployments s !! id = Some d ∧ in_queue s id d = true.
Proof.
  unfold queue_rows. rewrite list_elem_of_omap. split.
  - intros ([id' d] & (Hd & Hw)%elem_of_select & Hsc). cbn in Hsc.
    apply andb_true_iff in Hw as [He%Z.eqb_eq Hq].
    apply bind_Some in Hsc as ([p' e'] & Hsc & [= -> ->]). split; [|eauto].
    unfold scope_of. rewrite Hd. cbn. rewrite Hsc.
    unfold deployment_scope in Hsc. apply bind_Some in Hsc as (rel & _ & [= <- <-]). by rewrite He.
  - intros [Hsc (d & Hd & Hq)]. exists (id, d). rewrite elem_of_select, andb_true_iff, Z.eqb_eq.
    unfold scope_of in Hsc. rewrite Hd in Hsc. cbn in Hsc. split.
    + split; [done|]. split; [|done]. unfold deployment_scope in Hsc.
      apply bind_Some in Hsc as (rel & _ & [= _ ->]). done.
    + cbn. by rewrite Hsc.
Qed.

(** One representative per project with queued work or a held slot. *)
Lemma list_projects_spec s env :
  ∃ l, ListEnvironmentQueueProjects env s = Ok (l, s) ∧
    (∀ x, x ∈ l → ∃ p d, scope_of s x = Some (p, env) ∧
                          db_deployments s !! x = Some d ∧ in_queue s x d = true) ∧
    (∀ p id d, scope_of s id = Some (p, env) → db_deployments s !! id = Some d →
       in_queue s id d = true → ∃ x, x ∈ l ∧ scope_of s x = Some (p, env)).
Proof.
  eexists. split; [done|].
  set (scoped := queue_rows s env).
  assert (Hrep : ∀ p, p ∈ fst <$> scoped →
    (p, list_min (snd <$> filter (λ pi : Z * Z, pi.1 = p) scoped)) ∈ scoped).
  { intros p ([p' i] & -> & Hpi)%list_elem_of_fmap. cbn.
    destruct (proj1 (list_elem_of_fmap snd (filter (λ pi : Z * Z, pi.1 = p') scoped)
      (list_min (snd <$> filter (λ pi : Z * Z, pi.1 = p') scoped)))) as ([q j] & Hj & Hin).
    - apply list_min_elem. intros Hnil%fmap_nil_inv.
      assert ((p', i) ∈ filter (λ pi : Z * Z, pi.1 = p') scoped) as Hin
        by by apply list_elem_of_filter. rewrite Hnil in Hin. set_solver.
    - cbn in Hj. rewrite Hj. apply list_elem_of_filter in Hin as [Hq Hin]. cbn in Hq. by subst q. }
  split.
  - intros x (p & -> & Hp)%list_elem_of_fmap.
    rewrite elem_of_sort_by, elem_of_remove_dups in Hp. specialize (Hrep p Hp).
    apply elem_of_env_rows in Hrep as [? (d & ? & ?)]. eauto.
  - intros p id d Hsc Hd Hq.
    assert (Hp : p ∈ fst <$> scoped).
    { apply list_elem_of_fmap. exists (p, id). split; [done|]. apply elem_of_env_rows. eauto. }
    exists (list_min (snd <$> filter (λ pi : Z * Z, pi.1 = p) scoped)). split.
    + apply list_elem_of_fmap. exists p. split; [done|].
      by rewrite elem_of_sort_by, elem_of_remove_dups.
    + specialize (Hrep p Hp). by apply elem_of_env_rows in Hrep as [? _].
Qed.

Lemma unlisted_stable s p env :
  (∀ id d, scope_of s id = Some (p, env) → db_deployments s !! id = Some d →
     in_queue s id d = false) → stable s (p, env).
Proof. by left. Qed.

Lemma advanceEnvironmentQueue_spec s env :
  queue_wf s →
  ∃ s', advanceEnvironmentQueue env s = Ok (tt, s') ∧ rtc (env_step env) s s' ∧
        ∀ p, stable s' (p, env).
Proof.
  intros Hwf. destruct (list_projects_spec s env) as (l & Hl & Hin & Hcov).
  destruct (for_each_advance env l s Hwf) as (s' & Hs' & Hsteps & Hst).
  { intros x (p & d & ? & _)%Hin. eauto. }
  exists s'. split.
  { unfold advanceEnvironmentQueue, mbind, tx_bind. by rewrite Hl. }
  split; [done|]. intros p.
  destruct (decide (Exists (λ x, scope_of s x = Some (p, env)) l)) as [Hyes|Hno];
    rewrite Exists_exists in *.
  - destruct Hyes as (x & Hx & Hsc). eauto.
  - eapply env_steps_stable; [done..|]. left. intros id d Hid Hd.
    apply not_true_iff_false. intros Hq. apply Hno. eauto.
Qed.
End environment.
