(* ===== verification/QueueSafety.v ===== *)
(** * QueueSafety: what the deployment queue promises

    The contract [queue_inv] of DeploymentQueue.v (at most one blocker per
    scope, held slots belong to it) as a relation that every operation of the
    program respects, and the behaviour of the queue's own operations:
    reconciliation settles every scope, a local start is exclusive, approval
    and cancellation reach the statuses they name. *)
From S2P Require Import Prelude Db Tx QueueQueries DeploymentQueue.

(** ** The relations other components are checked against *)

Definition keeps_queue (s s' : DB) : Prop := queue_inv s → queue_inv s'.

#[export] Instance keeps_queue_refl : Reflexive keeps_queue.
Proof. by intros s H. Qed.
#[export] Instance keeps_queue_trans : Transitive keeps_queue.
Proof. unfold keeps_queue. intros s1 s2 s3 ?? H. auto. Qed.

(** The columns of a deployment that place it in its scope. *)
Definition identity (d : Deployment) : Z * Z * Z := (d_ID d, d_ReleaseID d, d_EnvironmentID d).

(** A step that keeps the place of every deployment and of every slot. *)
Record reshapes (s s' : DB) : Prop := {
  rs_slots : db_slots s' = db_slots s;
  rs_releases : db_releases s' = db_releases s;
  rs_environments : db_environments s' = db_environments s;
  rs_rows : ∀ id, identity <$> db_deployments s' !! id = identity <$> db_deployments s !! id }.

Section reshapes_facts.
Context (s s' : DB) (Hre : reshapes s s').

Lemma reshapes_row id d' :
  db_deployments s' !! id = Some d' →
  ∃ d, db_deployments s !! id = Some d ∧ identity d' = identity d.
Proof using Hre.
  intros Hd. pose proof (rs_rows _ _ Hre id) as Hi. rewrite Hd in Hi. cbn in Hi.
  destruct (db_deployments s !! id) as [d|]; [|done]. injection Hi as ???. exists d.
  unfold identity. split; congruence.
Qed.

Lemma reshapes_scope id : scope_of s' id = scope_of s id.
Proof using Hre.
  pose proof (rs_rows _ _ Hre id) as Hi. unfold scope_of, deployment_scope.
  rewrite (rs_releases _ _ Hre).
  destruct (db_deployments s' !! id) as [d'|], (db_deployments s !! id) as [d|]; cbn in *;
    try done. unfold identity in Hi. by injection Hi as _ -> ->.
Qed.

Lemma reshapes_wf : queue_wf s → queue_wf s'.
Proof using Hre.
  intros [Hk Hr He Hs]. split.
  - intros id d' (d & Hd & Hi)%reshapes_row. unfold identity in Hi. injection Hi as -> _ _. eauto.
  - intros id d' (d & Hd & Hi)%reshapes_row. unfold identity in Hi. injection Hi as _ -> _.
    rewrite (rs_releases _ _ Hre). eauto.
  - intros id d' (d & Hd & Hi)%reshapes_row. unfold identity in Hi. injection Hi as _ _ ->.
    rewrite (rs_environments _ _ Hre). eauto.
  - intros sc o. rewrite (rs_slots _ _ Hre), reshapes_scope. apply Hs.
Qed.

(** The contract is kept when no deployment becomes a blocker. *)
Lemma reshapes_exclusive :
  (∀ id, blocking s' id = true → blocking s id = true) → exclusive s → exclusive s'.
Proof using Hre.
  intros Hb [Hone Howner]. split.
  - intros sc x y. rewrite !reshapes_scope. intros Hx Hy Hbx Hby. apply (Hone sc); auto.
  - intros sc x o. rewrite reshapes_scope, (rs_slots _ _ Hre). intros Hx Hbl Ho. apply (Howner sc); auto.
Qed.
End reshapes_facts.

(** A step that moves no slot and makes no deployment a blocker. *)
Record shrinks (s s' : DB) : Prop := {
  sh_reshapes : reshapes s s';
  sh_blocking : ∀ id, blocking s' id = true → blocking s id = true }.

#[export] Instance reshapes_refl : Reflexive reshapes.
Proof. by split. Qed.
#[export] Instance reshapes_trans : Transitive reshapes.
Proof. intros s1 s2 s3 [? ? ? H1] [? ? ? H2]. split; [congruence..|]. intros id. by rewrite H2. Qed.
#[export] Instance shrinks_refl : Reflexive shrinks.
Proof. by split. Qed.
#[export] Instance shrinks_trans : Transitive shrinks.
Proof. intros s1 s2 s3 [R1 B1] [R2 B2]. split; [by etrans|auto]. Qed.

Lemma shrinks_scope s s' id : shrinks s s' → scope_of s' id = scope_of s id.
Proof. intros [Hre _]. by apply reshapes_scope. Qed.

Lemma shrinks_keeps s s' : shrinks s s' → keeps_queue s s'.
Proof. intros [Hre Hb] [Hwf Hex]. split; [by eapply reshapes_wf|by eapply reshapes_exclusive]. Qed.

(** Only six tables matter to the contract. *)
Record same_queue_tables (s s' : DB) : Prop := {
  sq_deployments : db_deployments s' = db_deployments s;
  sq_releases : db_releases s' = db_releases s;
  sq_environments : db_environments s' = db_environments s;
  sq_slots : db_slots s' = db_slots s;
  sq_claims : db_claims s' = db_claims s;
  sq_runs : db_runs s' = db_runs s }.

#[export] Instance same_queue_tables_refl : Reflexive same_queue_tables.
Proof. by split. Qed.
#[export] Instance same_queue_tables_trans : Transitive same_queue_tables.
Proof. intros ??? [] []. split; congruence. Qed.

Lemma same_shrinks s s' : same_queue_tables s s' → shrinks s s'.
Proof.
  intros [Hd Hr He Hs Hc Hu]. split; [split; [done..|]|].
  - by rewrite Hd.
  - intros id. rewrite (blocking_ext s s') by (by rewrite ?Hd, ?Hc, ?Hu). done.
Qed.

(** The relations components are checked against: closed under composition,
    and blind to the tables that do not matter. *)
Class StoreRelation (R : DB → DB → Prop) := {
  sr_refl :: Reflexive R;
  sr_trans :: Transitive R;
  sr_same : ∀ s s', same_queue_tables s s' → R s s' }.

#[export] Instance same_relation : StoreRelation same_queue_tables.
Proof. split; [apply _..|done]. Qed.
#[export] Instance shrinks_relation : StoreRelation shrinks.
Proof. split; [apply _..|apply same_shrinks]. Qed.
#[export] Instance keeps_relation : StoreRelation keeps_queue.
Proof. split; [apply _..|]. intros s s' H. by apply shrinks_keeps, same_shrinks. Qed.

Lemma respects_same R `{!StoreRelation R} {A} (m : Tx A) :
  respects same_queue_tables m → respects R m.
Proof. apply respects_mono, sr_same. Qed.

Lemma respects_shrinks {A} (m : Tx A) : respects shrinks m → respects keeps_queue m.
Proof. apply respects_mono. intros s s' H. by apply shrinks_keeps. Qed.

(** ** Statements *)
Section statements.
Lemma readonly_read {A} (f : DB → A) : readonly (read f).
Proof. by intros s a s' [= _ <-]. Qed.

Lemma readonly_get_deployment id : readonly (GetDeployment id).
Proof. intros s a s'. unfold GetDeployment. case_match; [|done]. by intros [= _ <-]. Qed.

Lemma same_write f : (∀ s, same_queue_tables s (f s)) → respects same_queue_tables (write f).
Proof. intros Hf s a s' [= _ <-]. by apply Hf. Qed.

Lemma same_append_log dep name line at_ idx st :
  respects same_queue_tables (append_log dep name line at_ idx st).
Proof. by intros s a s' [= _ <-]. Qed.

Lemma same_step_log dep name line idx st :
  respects same_queue_tables (CreateStepDeploymentLog dep name line idx st).
Proof. by intros s a s' [= _ <-]. Qed.

Lemma same_deployment_log dep name line :
  respects same_queue_tables (CreateDeploymentLog dep name line).
Proof. by intros s a s' [= _ <-]. Qed.

Lemma same_queueAudit id action : respects same_queue_tables (queueAudit id action).
Proof. by apply same_write. Qed.

Lemma same_finish_verification id st :
  respects same_queue_tables (FinishDeploymentVerification id st).
Proof. by apply same_write. Qed.

Lemma same_create_approval id who user role :
  respects same_queue_tables (CreateApproval id who user role).
Proof. by intros s a s' [= _ <-]. Qed.

Lemma same_purge : respects same_queue_tables PurgeTerminalStaging.
Proof. by apply same_write. Qed.

(** One row of deployments replaced, keeping its identity and adding no blocker. *)
Lemma shrinks_set_row s id d d' :
  db_deployments s !! id = Some d → identity d' = identity d →
  (is_blocker s id d' = true → is_blocker s id d = true) →
  shrinks s (set_deployments (<[id := d']> (db_deployments s)) s).
Proof.
  intros Hd Hi Hb. split; [split; [done..|]|]; cbn.
  - intros id'. destruct (decide (id = id')) as [<-|]; [|by rewrite lookup_insert_ne].
    rewrite lookup_insert_eq, Hd. cbn. by rewrite Hi.
  - intros id'. destruct (decide (id = id')) as [<-|Hne].
    + unfold blocking. cbn. rewrite lookup_insert_eq, Hd. exact Hb.
    + intros Hbl. rewrite <-Hbl. symmetry. apply blocking_ext; [|done..].
      cbn. by rewrite lookup_insert_ne.
Qed.

(** An UPDATE of one deployment that keeps its identity and adds no blocker. *)
Lemma shrinks_update_deployment id where_ set :
  (∀ s d, db_deployments s !! id = Some d → where_ s d = true →
     identity (set s d) = identity d ∧
     (is_blocker s id (set s d) = true → is_blocker s id d = true)) →
  respects shrinks (update_deployment id where_ set).
Proof.
  intros Hset s a s'. unfold update_deployment.
  destruct (update_pk_cases (db_deployments s) id (where_ s) (set s))
    as [(d & Hd & Hw & ->)|[-> _]]; intros [= _ <-].
  - destruct (Hset s d Hd Hw) as [Hi Hb]. by eapply shrinks_set_row.
  - apply same_shrinks. by split.
Qed.
End statements.

#[export] Hint Resolve same_append_log same_step_log same_deployment_log same_queueAudit
  same_finish_verification same_purge same_create_approval : respects.
#[export] Hint Extern 1 (respects _ (GetDeployment _)) =>
  apply readonly_respects; [typeclasses eauto|apply readonly_get_deployment] : respects.
#[export] Hint Extern 3 (respects ?R _) =>
  lazymatch R with same_queue_tables => fail | _ => apply (respects_same R) end : respects.

(** What a claim contributes to its deployment's blocking condition. *)
Definition claim_blocks (c : RemoteDeploymentClaim) : bool :=
  (String.eqb (c_State c) "cleanup_unconfirmed" && is_null (c_CleanupConfirmedAt c))
  || (c_State c ∈? held_states).

Definition claim_cleaning (c : RemoteDeploymentClaim) : bool :=
  String.eqb (c_State c) "cleanup_unconfirmed".

(** [c'] in place of [c] cannot turn deployment [id] into a blocker. *)
Definition claim_shrinks (s : DB) (id : Z) (c c' : RemoteDeploymentClaim) : Prop :=
  blocking s id = true ∨
  ((claim_blocks c' = true → claim_blocks c = true) ∧
   (claim_cleaning c = true → claim_cleaning c' = true)).

Lemma blocker_bits (st cu ns unc rc rb rh cc cc' k k' h h' : bool) :
  (cc' && k' || h' = true → cc && k || h = true) → (cc = true → cc' = true) →
  st || (cu && (ns || (unc && negb cc' && negb rc))) || (cc' && k') || rb || h' || rh = true →
  st || (cu && (ns || (unc && negb cc && negb rc))) || (cc && k) || rb || h || rh = true.
Proof.
  intros Hb Hcl. destruct st; [done|]. destruct rb; [by destruct cu, ns, unc, cc, rc, k, h, rh|].
  destruct rh; [by destruct cu, ns, unc, cc, rc, k, h|].
  destruct (cc' && k' || h') eqn:E; intros H.
  - specialize (Hb eq_refl). destruct cc, k, h; cbn in *; rewrite ?orb_true_r; done.
  - apply orb_false_iff in E as [E ->]. rewrite E in H. rewrite ?orb_false_r in *.
    destruct cc; [by rewrite Hcl in H; [rewrite andb_false_r in H; cbn in H;
      destruct cu, ns; cbn in *|]|].
    destruct cu, ns, unc, rc, cc'; cbn in *; done.
Qed.

Lemma is_blocker_claim s s' id d c c' :
  db_claims s !! id = Some c → db_claims s' !! id = Some c' →
  db_runs s' = db_runs s →
  (claim_blocks c' = true → claim_blocks c = true) →
  (claim_cleaning c = true → claim_cleaning c' = true) →
  is_blocker s' id d = true → is_blocker s id d = true.
Proof.
  intros Hc Hc' Hr Hb Hcl. unfold is_blocker, claim_in, run_in. rewrite Hc, Hc', Hr.
  by apply blocker_bits.
Qed.

Lemma claim_shrinks_refl s id c : claim_shrinks s id c c.
Proof. by right. Qed.

Lemma shrinks_set_claims s t :
  (∀ id c', t !! id = Some c' → ∃ c, db_claims s !! id = Some c ∧ claim_shrinks s id c c') →
  (∀ id, t !! id = None → db_claims s !! id = None) →
  shrinks s (set_claims t s).
Proof.
  intros Hsome Hnone. split; [by split|]. intros id.
  unfold blocking at 1. cbn. destruct (db_deployments s !! id) as [d|] eqn:Hd; [|done].
  intros Hb. destruct (t !! id) as [c'|] eqn:Ht.
  - destruct (Hsome id c' Ht) as (c & Hc & [Hbl|[H1 H2]]); [done|].
    unfold blocking. rewrite Hd. by eapply (is_blocker_claim s (set_claims t s) id d c c').
  - specialize (Hnone id Ht). unfold blocking. rewrite Hd, <-Hb.
    unfold is_blocker, claim_in. cbn. by rewrite Ht, Hnone.
Qed.

(** UPDATE statements on claims, by primary key and by condition. *)
Lemma shrinks_update_claim id where_ set :
  (∀ s c, db_claims s !! id = Some c → where_ s c = true → claim_shrinks s id c (set s c)) →
  respects shrinks (update_claim id where_ set).
Proof.
  intros Hset s a s'. unfold update_claim, store_claims, checked, mbind, tx_bind, mret, tx_ret.
  destruct (update_pk_cases (db_claims s) id (where_ s) (set s))
    as [(c & Hc & Hw & ->)|[-> _]]; (destruct (claims_ok _); [|done]); intros [= _ <-].
  - apply shrinks_set_claims.
    + intros id' c' Hc'. destruct (decide (id = id')) as [<-|].
      * rewrite lookup_insert_eq in Hc'. injection Hc' as <-. eauto.
      * rewrite lookup_insert_ne in Hc' by done. eauto using claim_shrinks_refl.
    + intros id' H'. by apply lookup_insert_None in H' as [? _].
  - apply same_shrinks. by split.
Qed.

Lemma shrinks_update_claims where_ set :
  (∀ s id c, db_claims s !! id = Some c → where_ s c = true → claim_shrinks s id c (set s c)) →
  respects shrinks (update_claims where_ set).
Proof.
  intros Hset s a s'. unfold update_claims, store_claims, checked, mbind, tx_bind, mret, tx_ret.
  destruct (update_where _ _ _) as [t n] eqn:Eu. destruct (claims_ok _); [|done]. intros [= _ <-].
  assert (Ht : ∀ id, t !! id = (λ c, if where_ s c then set s c else c) <$> db_claims s !! id).
  { intros id. rewrite <-(lookup_update_where _ (where_ s) (set s)). by rewrite Eu. }
  apply shrinks_set_claims; intros id.
  - intros c'. rewrite Ht. intros (c & Hcl & Hc)%fmap_Some. exists c. split; [done|].
    subst c'. destruct (where_ s c) eqn:Ew; [eauto|apply claim_shrinks_refl].
  - rewrite Ht. by intros ?%fmap_None.
Qed.

(** ** Commit points

    A relation that admission respects is respected by every transaction whose
    body respects it: committed states are related to the state before, and a
    rollback restores it. *)
Class QueueRelation (R : DB → DB → Prop) := {
  qr_relation :: StoreRelation R;
  qr_advance : ∀ env, respects R (advanceEnvironmentQueue env) }.

#[export] Hint Extern 1 (respects _ (advanceEnvironmentQueue _)) => apply qr_advance : respects.
#[export] Hint Extern 5 (respects keeps_queue _) => apply respects_shrinks : respects.

#[export] Instance keeps_queue_relation : QueueRelation keeps_queue.
Proof.
  split; [apply _|]. intros env s [] s' Heq [Hwf Hex].
  destruct (advanceEnvironmentQueue_spec s env Hwf) as (s1 & Hs1 & Hst & _).
  rewrite Hs1 in Heq. injection Heq as <-. by eapply env_steps_inv.
Qed.

(** What the transactions themselves need of a relation. *)
Class CommitRelation (R : DB → DB → Prop) := {
  co_refl :: Reflexive R;
  co_trans :: Transitive R;
  co_pending : ∀ t s, R s (set_pending_audit t s);
  co_audit : ∀ t s, R s (set_audit t s);
  co_staging : ∀ t s, R s (set_staging t s);
  co_advance : ∀ env, respects R (advanceEnvironmentQueue env) }.

#[export] Instance queue_commit R `{!QueueRelation R} : CommitRelation R.
Proof. split; [apply _..| | | |apply qr_advance]; intros t s; by apply sr_same. Qed.

Section commit.
Context (R : DB → DB → Prop) `{!CommitRelation R}.
Context {A : Type}.
Implicit Types (fn : Tx A) (s : DB).

Lemma WithTx_respects fn s : respects R fn → R s (WithTx fn s).2.
Proof using Type*.
  intros Hfn. unfold WithTx. destruct (fn s) as [[a s']|e] eqn:E; [by eapply Hfn|done].
Qed.

Lemma commit_begin : respects R (write (set_pending_audit [])).
Proof using Type*. intros s a s' [= _ <-]. apply co_pending. Qed.
Lemma commit_purge : respects R PurgeTerminalStaging.
Proof using Type*. intros s a s' [= _ <-]. apply co_staging. Qed.
Hint Resolve commit_begin commit_purge : respects.
Hint Extern 1 (respects _ (advanceEnvironmentQueue _)) => apply co_advance : respects.

Lemma withQueueTx_respects fn s : respects R fn → R s (withQueueTx fn s).2.
Proof using Type*.
  intros Hfn. unfold withQueueTx.
  pose proof (WithTx_respects (a ← (write (set_pending_audit []);; fn); PurgeTerminalStaging;; mret a) s)
    as Hw.
  destruct (WithTx _ s) as [[a|e] s1]; cbn in *; [|apply Hw; respects].
  etrans; [apply Hw; respects|]. unfold flush_audit. etrans; [apply co_audit|apply co_pending].
Qed.

Lemma WithDeploymentTx_respects id fn s : respects R fn → R s (WithDeploymentTx id fn s).2.
Proof using Type*.
  intros Hfn. unfold WithDeploymentTx. destruct (GetDeployment id s) as [[d s1]|e]; [|done].
  apply withQueueTx_respects. respects.
Qed.

Lemma WithQueueMaintenanceTx_respects fn s :
  respects R fn → R s (WithQueueMaintenanceTx fn s).2.
Proof using Type*. intros Hfn. apply withQueueTx_respects. respects. Qed.
End commit.

Lemma reconcile_environments_respects R `{!CommitRelation R} l s : R s (reconcile_environments l s).2.
Proof.
  revert s. induction l as [|e l IH]; intros s; [done|]. cbn.
  pose proof (co_advance (R := R) e) as Hadv.
  match goal with |- context [withQueueTx ?m s] =>
    pose proof (withQueueTx_respects R m s) as Hw; destruct (withQueueTx m s) as [[[]|er] s1] end;
    cbn in *; [etrans; [|apply IH]|]; (apply Hw; respects; apply Hadv).
Qed.

(** ** The bodies of the queue's own operations *)
Section bodies.
Lemma is_blocker_on s id d : (d_Status d ∈? active_statuses)%bool = true → is_blocker s id d = true.
Proof. intros H. unfold is_blocker. by rewrite H. Qed.

Lemma is_blocker_off s id d d' :
  (d_Status d' ∈? active_statuses)%bool = false → d_Status d' ≠ "cleanup_unconfirmed" →
  is_blocker s id d' = true → is_blocker s id d = true.
Proof.
  intros H1 H2%String.eqb_neq. unfold is_blocker. rewrite H1, H2. cbn.
  rewrite !orb_true_iff. tauto.
Qed.

Lemma shrinks_start_local id : respects shrinks (StartQueuedLocalDeployment id).
Proof.
  apply shrinks_update_deployment. intros s d Hd Hw. split; [done|]. intros _.
  rewrite !andb_true_iff in Hw. destruct Hw as [[Hst%String.eqb_eq _] _]. apply is_blocker_on. by rewrite Hst.
Qed.

Lemma shrinks_cancel_queued id : respects shrinks (QueueQueries.CancelQueuedDeployment id).
Proof.
  apply shrinks_update_deployment. intros s d Hd Hw. split; [done|]. by apply is_blocker_off.
Qed.

Lemma shrinks_approve id : respects shrinks (ApproveDeploymentStatus id).
Proof.
  apply shrinks_update_deployment. intros s d Hd Hw. split; [done|]. by apply is_blocker_off.
Qed.

Lemma shrinks_cancel_step id : respects shrinks (CancelStepDeployment id).
Proof.
  apply shrinks_update_deployment. intros s d Hd Hw. split; [done|]. by apply is_blocker_off.
Qed.

Lemma shrinks_cancel_waiting id : respects shrinks (CancelWaitingQueuedRemoteClaim id).
Proof.
  unfold CancelWaitingQueuedRemoteClaim. apply respects_bind; [typeclasses eauto| |intros; respects].
  apply shrinks_update_claim. intros s c Hc Hw%String.eqb_eq. right. split; [done|].
  unfold claim_cleaning. by rewrite Hw.
Qed.
End bodies.

#[export] Hint Resolve shrinks_start_local shrinks_cancel_queued shrinks_approve
  shrinks_cancel_step shrinks_cancel_waiting : respects.

Lemma respects_cancel_body id s a s' :
  cancelQueuedDeployment id s = Ok (a, s') → queue_inv s → queue_wf s'.
Proof.
  intros Heq Hinv. assert (Hr : respects keeps_queue (cancelQueuedDeployment id)) by respects.
  apply (Hr s a s' Heq Hinv).
Qed.

Lemma CancelQueuedDeployment_keeps id s : queue_inv s → queue_inv (CancelQueuedDeployment id s).2.
Proof. apply (WithDeploymentTx_respects keeps_queue). respects. Qed.

(** ** Reconciliation settles every scope *)
Section reconcile.
Implicit Types (s : DB) (id : Z) (sc : Z * Z).

Lemma quiescent_noop s id sc :
  scope_of s id = Some sc → quiescent s sc → advanceDeploymentQueue id s = Ok (tt, s).
Proof.
  intros Hsc Hq. pose proof Hsc as (d & rel & Hd & _)%scope_of_lookup.
  unfold advanceDeploymentQueue.
  unfold mbind at 1, tx_bind at 1, GetDeployment. rewrite Hd.
  unfold mbind at 1, tx_bind at 1, ListDeploymentQueueBlockers, read at 1.
  unfold mbind at 1, tx_bind at 1. rewrite (get_slot_result s id sc Hsc).
  destruct Hq as [(b & o & Hb & Hbl & Ho)|(Hslot & Hnb & Hnq)].
  - rewrite Ho. destruct (fst <$> _) as [|x l] eqn:E; [|done].
    assert (b ∈ fst <$> in_scope_rows s id (is_blocker s)) as Hin by (apply elem_of_blockers; eauto).
    rewrite E in Hin. set_solver.
  - rewrite Hslot. destruct (fst <$> in_scope_rows s id (is_blocker s)) as [|x l] eqn:E.
    + cbn. unfold mbind, tx_bind, mret, tx_ret, attempt, GetNextQueuedDeployment.
      destruct (in_scope_rows s id (λ _ d, String.eqb (d_Status d) "queued"))
        as [|[n dn] rest] eqn:En; [done|].
      destruct (proj1 (elem_of_in_scope s id (λ _ d, String.eqb (d_Status d) "queued") n dn))
        as (sc' & Hid & Hn & Hdn & Hw); [rewrite En; left|].
      assert (sc' = sc) as -> by congruence. specialize (Hnq n Hn).
      unfold waiting_in_queue in Hnq. rewrite Hdn in Hnq. congruence.
    + destruct (proj1 (elem_of_blockers s id x)) as (sc' & Hid & Hx & Hbx); [rewrite E; left|].
      assert (sc' = sc) as -> by congruence. by rewrite (Hnb x Hx) in Hbx.
Qed.

Lemma stable_noop s env :
  (∀ p, stable s (p, env)) → advanceEnvironmentQueue env s = Ok (tt, s).
Proof.
  intros Hst. destruct (list_projects_spec s env) as (l & Hl & Hin & _).
  unfold advanceEnvironmentQueue, mbind, tx_bind. rewrite Hl. clear Hl.
  induction l as [|x l IH]; [done|]. cbn. unfold mbind, tx_bind.
  destruct (Hin x) as (p & d & Hsc & Hd & Hq); [left|].
  destruct (Hst p) as [Hout|Hqu]; [by rewrite (Hout x d) in Hq|].
  rewrite (quiescent_noop s x (p, env)) by done. apply IH. intros y Hy. apply Hin. by right.
Qed.

(** Unlisted or quiescent scopes have nothing to admit and no idle slot. *)
Lemma stable_settled s sc : queue_wf s → stable s sc → settled s sc.
Proof.
  intros Hwf [Hout|[(b & o & Hb & Hbl & _)|(? & ? & ?)]] Hnb; [|by rewrite (Hnb b) in Hbl|done].
  split.
  - destruct (db_slots s !! sc) as [o|] eqn:Ho; [|done]. exfalso.
    pose proof (wf_slot _ Hwf _ _ Ho) as Hsc. pose proof Hsc as (d & rel & Hd & _)%scope_of_lookup.
    specialize (Hout o d Hsc Hd). unfold in_queue in Hout. apply orb_false_iff in Hout as [_ Hs].
    unfold slot_of_deployment in Hs. rewrite exists_row_false in Hs.
    specialize (Hs _ _ Ho). by rewrite Z.eqb_refl in Hs.
  - intros id Hid. unfold waiting_in_queue. destruct (db_deployments s !! id) as [d|] eqn:Hd; [|done].
    specialize (Hout id d Hid Hd). apply String.eqb_neq. intros Hq.
    unfold in_queue in Hout. by rewrite Hq in Hout.
Qed.

Lemma stable_ext s s' sc : same_queue_tables s s' → stable s sc → stable s' sc.
Proof.
  intros [Hd Hr He Hs Hc Hu].
  assert (Hscope : ∀ id, scope_of s' id = scope_of s id)
    by (intros id; unfold scope_of, deployment_scope; by rewrite Hd, Hr).
  assert (Hbl : ∀ id, blocking s' id = blocking s id)
    by (intros id; apply blocking_ext; by rewrite ?Hd).
  unfold stable, quiescent, waiting_in_queue, in_queue, slot_of_deployment.
  setoid_rewrite Hscope. setoid_rewrite Hbl. rewrite Hd, Hs. done.
Qed.

Lemma queue_wf_ext s s' : same_queue_tables s s' → queue_wf s → queue_wf s'.
Proof.
  intros [Hd Hr He Hs Hc Hu] [Hk Hrel Henv Hsl].
  split; unfold scope_of, deployment_scope; rewrite ?Hd, ?Hr, ?He, ?Hs; done.
Qed.
End reconcile.

(** ** Opening a transaction of the queue *)

(** What a commit does to the state a function leaves: purge, then audit. *)
Definition committed (s : DB) : DB :=
  match PurgeTerminalStaging s with Ok (_, s') => flush_audit s' | Err _ => s end.

Lemma committed_same s : same_queue_tables s (committed s).
Proof. by split. Qed.

Lemma begin_same s : same_queue_tables s (set_pending_audit [] s).
Proof. by split. Qed.

Lemma withQueueTx_ok {A} (fn : Tx A) s a s1 :
  fn (set_pending_audit [] s) = Ok (a, s1) → withQueueTx fn s = (Ok a, committed s1).
Proof.
  intros Hfn. unfold withQueueTx, WithTx, mbind, tx_bind, write. by rewrite Hfn.
Qed.

Lemma withQueueTx_err {A} (fn : Tx A) s e :
  fn (set_pending_audit [] s) = Err e → withQueueTx fn s = (Err e, s).
Proof.
  intros Hfn. unfold withQueueTx, WithTx, mbind, tx_bind, write. by rewrite Hfn.
Qed.

Lemma withQueueTx_inv {A} (fn : Tx A) s a s' :
  withQueueTx fn s = (Ok a, s') →
  ∃ s1, fn (set_pending_audit [] s) = Ok (a, s1) ∧ s' = committed s1.
Proof.
  destruct (fn (set_pending_audit [] s)) as [[b s1]|e] eqn:E.
  - rewrite (withQueueTx_ok _ _ _ _ E). intros [= <- <-]. eauto.
  - by rewrite (withQueueTx_err _ _ _ E).
Qed.

(** A function that leaves a well-formed queue commits, and the environment is
    advanced before the commit. *)
Lemma WithDeploymentTx_ok {A} (fn : Tx A) s id d a s1 :
  db_deployments s !! id = Some d → fn (set_pending_audit [] s) = Ok (a, s1) → queue_wf s1 →
  ∃ s2, WithDeploymentTx id fn s = (Ok a, committed s2) ∧
        rtc (env_step (d_EnvironmentID d)) s1 s2 ∧
        ∀ p, stable s2 (p, d_EnvironmentID d).
Proof.
  intros Hd Hfn Hwf.
  destruct (advanceEnvironmentQueue_spec s1 (d_EnvironmentID d) Hwf) as (s2 & Hs2 & Hst & Hq).
  exists s2. split; [|done]. unfold WithDeploymentTx, GetDeployment. rewrite Hd.
  apply withQueueTx_ok. unfold mbind, tx_bind. cbn. by rewrite Hfn, Hs2.
Qed.

Lemma WithDeploymentTx_inv {A} (fn : Tx A) s id a s' :
  WithDeploymentTx id fn s = (Ok a, s') →
  ∃ d s1 s2, db_deployments s !! id = Some d ∧ fn (set_pending_audit [] s) = Ok (a, s1) ∧
    advanceEnvironmentQueue (d_EnvironmentID d) s1 = Ok (tt, s2) ∧ s' = committed s2.
Proof.
  unfold WithDeploymentTx, GetDeployment. destruct (db_deployments s !! id) as [d|]; [|done].
  intros (s3 & Hs3 & ->)%withQueueTx_inv. revert Hs3. unfold mbind, tx_bind. cbn.
  destruct (fn _) as [[b s1]|e] eqn:Efn; [|done].
  destruct (advanceEnvironmentQueue _ s1) as [[[] s2]|e] eqn:Eadv; [|done].
  intros [= <- <-]. exists d, s1, s2. done.
Qed.

Lemma WithDeploymentTx_fails {A} (fn : Tx A) s id d e :
  db_deployments s !! id = Some d → fn (set_pending_audit [] s) = Err e →
  WithDeploymentTx id fn s = (Err e, s).
Proof.
  intros Hd Hfn. unfold WithDeploymentTx, GetDeployment. rewrite Hd.
  apply withQueueTx_err. unfold mbind, tx_bind. cbn. by rewrite Hfn.
Qed.

(** ** Statements of one advance, for relations that do not see the queue *)

Lemma create_slot_cases env dep s a s' :
  CreateEnvironmentDeploymentSlot env dep s = Ok (a, s') → s' = s ∨ ∃ t, s' = set_slots t s.
Proof.
  unfold CreateEnvironmentDeploymentSlot, guard, checked, mbind, tx_bind.
  destruct (option_bind _ _ _ _); [|intros [= _ <-]; by left].
  destruct (db_slots s !! _); [done|]. destruct (not_null _); [|done]. cbn.
  destruct (slots_ok _); [|done]. intros [= _ <-]. eauto.
Qed.

Lemma readonly_get_slot id : readonly (GetDeploymentSlot id).
Proof. intros s a s'. unfold GetDeploymentSlot. destruct (_ ≫= _); [by intros [= _ <-]|done]. Qed.
Lemma readonly_next_queued id : readonly (GetNextQueuedDeployment id).
Proof.
  intros s a s'. unfold GetNextQueuedDeployment.
  destruct (in_scope_rows s id _) as [|[n d] l]; [done|by intros [= _ <-]].
Qed.
#[export] Hint Resolve readonly_get_slot readonly_next_queued : readonly.
