(* ===== verification/QueueTheorems.v ===== *)
(** * QueueTheorems: correctness of the deployment queue

    The theorems about internal/repository/deployment_queue.go, each with an
    instance on a concrete store. *)
From S2P Require Import Prelude Db Tx QueueQueries DeploymentQueue QueueSafety.

(** ** A concrete store: project 1, environment 7, three deployments *)
Definition sample_release : Release := mkRelease 1 1 "1.0.0" "[]" 0 "release".

Definition sample_deployment (id : Z) (status : string) (created : Z) : Deployment :=
  mkDeployment id 1 7 status None None created 0 None None "deploy" None None None None.

Definition sample_store (deployments : list Deployment) (slots : gmap (Z * Z) Z) : DB :=
  set_environments {[7 := plain_environment "production"]} (set_releases {[1 := sample_release]}
    (set_deployments (list_to_map ((λ d, (d_ID d, d)) <$> deployments))
      (set_slots slots (set_step_sources {[5 := "[]"; 6 := "[]"; 8 := "[]"]} (empty_db 1000))))).

(** Deployments 5 and 6 wait, 5 is older; 8 holds the slot but has finished. *)
Definition sample_queue : DB :=
  sample_store [sample_deployment 6 "queued" 40; sample_deployment 5 "queued" 30;
                sample_deployment 8 "succeeded" 10] {[(1, 7) := 8]}.

Definition queue_wfb (s : DB) : bool :=
  forallb (λ kd : Z * Deployment, Z.eqb (d_ID kd.2) kd.1
      && not_null (db_releases s !! d_ReleaseID kd.2)
      && not_null (db_environments s !! d_EnvironmentID kd.2)) (map_to_list (db_deployments s))
  && forallb (λ kv : Z * Z * Z, bool_decide (scope_of s kv.2 = Some kv.1)) (map_to_list (db_slots s)).

Definition exclusiveb (s : DB) : bool :=
  let ids := fst <$> map_to_list (db_deployments s) in
  forallb (λ a, forallb (λ b,
    negb (blocking s a) || negb (blocking s b)
    || negb (bool_decide (scope_of s a = scope_of s b)) || Z.eqb a b) ids) ids
  && forallb (λ kv : Z * Z * Z, forallb (λ b,
       negb (blocking s b) || negb (bool_decide (scope_of s b = Some kv.1)) || Z.eqb kv.2 b) ids)
     (map_to_list (db_slots s)).

Lemma forallb_map {K A} `{Countable K} (m : gmap K A) (f : K * A → bool) :
  forallb f (map_to_list m) = true → ∀ k a, m !! k = Some a → f (k, a) = true.
Proof.
  rewrite forallb_forall. intros Hf k a Hk. apply Hf.
  by apply list_elem_of_In, elem_of_map_to_list.
Qed.

(** The two checkers decide the contract on a concrete store. *)
Lemma queue_wfb_sound s : queue_wfb s = true → queue_wf s.
Proof.
  intros [Hd Hs]%andb_true_iff.
  assert (Hrow : ∀ id d, db_deployments s !! id = Some d → d_ID d = id ∧
    is_Some (db_releases s !! d_ReleaseID d) ∧ is_Some (db_environments s !! d_EnvironmentID d)).
  { intros id d Hid. pose proof (forallb_map _ _ Hd id d Hid) as H. cbn in H.
    rewrite !andb_true_iff, !not_null_true, Z.eqb_eq in H. tauto. }
  split; intros; [naive_solver..|].
  pose proof (forallb_map _ _ Hs _ _ H) as Hsc. by apply bool_decide_eq_true in Hsc.
Qed.

Lemma exclusiveb_sound s : exclusiveb s = true → exclusive s.
Proof.
  intros [H1 H2]%andb_true_iff. rewrite forallb_forall in H1.
  assert (Hin : ∀ a sc, scope_of s a = Some sc → In a (fst <$> map_to_list (db_deployments s))).
  { intros a sc (d & rel & Hd & _)%scope_of_lookup. apply list_elem_of_In, list_elem_of_fmap.
    exists (a, d). split; [done|]. by apply elem_of_map_to_list. }
  split.
  - intros sc a b Ha Hb Hba Hbb. specialize (H1 a (Hin _ _ Ha)).
    rewrite forallb_forall in H1. specialize (H1 b (Hin _ _ Hb)).
    rewrite Hba, Hbb, Ha, Hb in H1. cbn in H1. rewrite bool_decide_true in H1 by done.
    by apply Z.eqb_eq.
  - intros sc b o Hb Hbb Ho. pose proof (forallb_map _ _ H2 _ _ Ho) as H. cbn in H.
    rewrite forallb_forall in H. specialize (H b (Hin _ _ Hb)).
    rewrite Hbb, Hb in H. cbn in H. rewrite bool_decide_true in H by done. by apply Z.eqb_eq.
Qed.

Lemma queue_invb_sound s : queue_wfb s && exclusiveb s = true → queue_inv s.
Proof.
  intros [H1 H2]%andb_true_iff. split; [by apply queue_wfb_sound|by apply exclusiveb_sound].
Qed.

(** ** Reconciliation *)
Section reconciliation.
Implicit Types (s : DB).

Lemma unlisted_environment_stable s l e p :
  queue_wf s → ListDeploymentQueueEnvironments s = Ok (l, s) → e ∉ l → stable s (p, e).
Proof.
  intros Hwf [= <-] He. rewrite elem_of_sort_by, elem_of_remove_dups, elem_of_app in He.
  left. intros id d Hsc Hd. unfold in_queue. apply orb_false_iff. split.
  - apply not_true_iff_false. intros Hst. apply He. left. apply list_elem_of_fmap.
    exists (id, d). split; [|by apply elem_of_select].
    apply scope_of_lookup in Hsc as (d' & rel & Hd' & _ & [= _ ->]). by simplify_eq.
  - apply exists_row_false. intros [q e'] o Ho. apply Z.eqb_neq. intros ->.
    apply He. right. apply list_elem_of_fmap. exists ((q, e'), o).
    split; [|by apply elem_of_map_to_list].
    apply (wf_slot _ Hwf) in Ho. rewrite Hsc in Ho. by injection Ho as _ ->.
Qed.

Lemma reconcile_environments_spec l s :
  queue_wf s →
  ∃ s', reconcile_environments l s = (Ok tt, s') ∧ queue_wf s' ∧
        ∀ p e, e ∈ l ∨ stable s (p, e) → stable s' (p, e).
Proof.
  revert s. induction l as [|e l IH]; intros s Hwf.
  { exists s. split; [done|]. split; [done|]. intros p e [He|?]; [set_solver|done]. }
  pose proof (queue_wf_ext _ _ (begin_same s) Hwf) as Hwf0.
  destruct (advanceEnvironmentQueue_spec (set_pending_audit [] s) e Hwf0) as (s1 & Hs1 & Hst & Hq).
  destruct (IH (committed s1)) as (s2 & Hs2 & Hwf2 & Hst2).
  { eapply queue_wf_ext; [apply committed_same|]. by eapply env_steps_wf. }
  exists s2. split; [|split; [done|]].
  - cbn. rewrite (withQueueTx_ok _ s tt s1); [done|]. unfold mbind, tx_bind. done.
  - intros p e' He. apply Hst2.
    destruct (decide (e' = e)) as [->|Hne].
    + right. eapply stable_ext; [apply committed_same|]. apply Hq.
    + destruct He as [He|Hs]; [left; set_solver|right].
      eapply stable_ext; [apply committed_same|]. eapply env_steps_stable; [done..|].
      eapply stable_ext; [apply begin_same|done].
Qed.

Lemma reconcile_environments_idle l s :
  (∀ sc, stable s sc) →
  ∃ s', reconcile_environments l s = (Ok tt, s') ∧ same_queue_tables s s' ∧
        db_audit s' = db_audit s.
Proof.
  revert s. induction l as [|e l IH]; intros s Hst; [by exists s|].
  pose proof (stable_noop (set_pending_audit [] s) e) as Hn.
  destruct (IH (committed (set_pending_audit [] s))) as (s' & Hs' & Hsame & Haudit).
  { intros sc. eapply stable_ext; [apply committed_same|].
    eapply stable_ext; [apply begin_same|done]. }
  exists s'. split; [|split].
  - cbn. rewrite (withQueueTx_ok _ s tt (set_pending_audit [] s)); [done|].
    unfold mbind, tx_bind. apply Hn. intros p. eapply stable_ext; [apply begin_same|done].
  - etrans; [|exact Hsame]. etrans; [apply begin_same|apply committed_same].
  - rewrite Haudit. cbn. by rewrite app_nil_r.
Qed.

(** C4: reconciling the queues always succeeds, whatever the statuses of the
    deployments. Afterwards a scope that nothing blocks has neither waiting
    work nor a held slot, and reconciling again changes no row of the queue
    and writes no audit entry. *)
Theorem reconcile_settles s :
  queue_wf s →
  ∃ s', ReconcileDeploymentQueues s = (Ok tt, s') ∧ queue_wf s' ∧
        (∀ sc, settled s' sc) ∧
        ∃ s'', ReconcileDeploymentQueues s' = (Ok tt, s'') ∧
               db_deployments s'' = db_deployments s' ∧ db_slots s'' = db_slots s' ∧
               db_audit s'' = db_audit s'.
Proof.
  intros Hwf. unfold ReconcileDeploymentQueues at 1.
  destruct (ListDeploymentQueueEnvironments s) as [[l ?]|e] eqn:El; [|done].
  assert (d = s) as -> by by injection El as _ <-.
  destruct (reconcile_environments_spec l s Hwf) as (s' & Hs' & Hwf' & Hst).
  assert (Hall : ∀ sc, stable s' sc).
  { intros [p e]. apply Hst. destruct (decide (e ∈ l)); [by left|right].
    by eapply unlisted_environment_stable. }
  exists s'. split; [done|]. split; [done|]. split; [eauto using stable_settled|].
  unfold ReconcileDeploymentQueues. cbn.
  edestruct (reconcile_environments_idle) as (s'' & Hs'' & [] & Ha); [exact Hall|].
  exists s''. split; [exact Hs''|done].
Qed.
End reconciliation.

Lemma reconcile_settles_witness :
  queue_wf sample_queue ∧
  ∃ s', ReconcileDeploymentQueues sample_queue = (Ok tt, s') ∧ waiting_in_queue s' 5 = false ∧
        db_slots s' !! (1, 7) = Some 5.
Proof.
  assert (Hwf : queue_wf sample_queue) by (apply queue_wfb_sound; vm_compute; reflexivity).
  split; [exact Hwf|].
  destruct (reconcile_settles sample_queue Hwf) as (s' & Hs' & _ & _ & _).
  exists s'. split; [exact Hs'|]. revert Hs'. vm_compute. intros [= <-]. split; reflexivity.
Defined.

(** ** Admission order *)
Section order.
Implicit Types (s : DB) (id : Z) (sc : Z * Z).

Lemma waiting_row s id :
  waiting_in_queue s id = true ↔ ∃ d, db_deployments s !! id = Some d ∧ d_Status d = "queued".
Proof.
  unfold waiting_in_queue. destruct (db_deployments s !! id); [|naive_solver].
  rewrite String.eqb_eq. naive_solver.
Qed.

(** [n] is first in the queue of its scope. *)
Definition oldest (s : DB) (sc : Z * Z) (n : Z) (d : Deployment) : Prop :=
  scope_of s n = Some sc ∧ db_deployments s !! n = Some d ∧ d_Status d = "queued" ∧
  ∀ m dm, scope_of s m = Some sc → db_deployments s !! m = Some dm → d_Status dm = "queued" →
    m = n ∨ deployment_le (n, d) (m, dm) = true.

Definition free_scope (s : DB) (sc : Z * Z) : Prop :=
  ∀ b, scope_of s b = Some sc → blocking s b = false.

Lemma oldest_unique s sc n d m dm : oldest s sc n d → oldest s sc m dm → n = m.
Proof.
  intros (Hn & Hd & Hq & Hmin) (Hm & Hdm & Hqm & Hmin').
  destruct (Hmin m dm) as [|H1]; [done..|]. destruct (Hmin' n d) as [|H2]; [done..|].
  unfold deployment_le in *. cbn in *. lia.
Qed.

(** C8: one call of advanceDeploymentQueue admits a deployment exactly when
    its scope has no blocker and some deployment waits, and then admits the
    oldest by (created_at, id): it becomes pending, holds the scope's slot and
    blocks the scope. Nothing else leaves the queue. *)
Theorem advance_admits_oldest s id sc :
  queue_wf s → scope_of s id = Some sc →
  ∃ s', advanceDeploymentQueue id s = Ok (tt, s') ∧
    (∀ n, waiting_in_queue s n = true → waiting_in_queue s' n = false →
       free_scope s sc ∧ (∃ d, oldest s sc n d) ∧
       db_slots s' !! sc = Some n ∧ blocking s' n = true) ∧
    (free_scope s sc → ∀ m, scope_of s m = Some sc → waiting_in_queue s m = true →
       ∃ n, waiting_in_queue s n = true ∧ waiting_in_queue s' n = false).
Proof.
  intros Hwf Hsc. destruct (advanceDeploymentQueue_spec s id sc Hwf Hsc) as (s' & Hs' & Hadv).
  exists s'. split; [done|].
  destruct Hadv as [b o Hb Hbl Ho|b Hb Hbl Ho|audit Hnb Hnq|n d audit Hnb Hn Hd Hq Hmin].
  - split; [congruence|]. intros Hnb. by rewrite (Hnb b Hb) in Hbl.
  - split; [intros n Hn Hn'; change (waiting_in_queue s n = false) in Hn'; congruence|].
    intros Hnb. by rewrite (Hnb b Hb) in Hbl.
  - split; [intros n Hn Hn'; change (waiting_in_queue s n = false) in Hn'; congruence|].
    intros _ m Hm Hw. by rewrite (Hnq m Hm) in Hw.
  - assert (Hother : ∀ m, m ≠ n → waiting_in_queue (set_pending_audit audit
      (set_deployments (<[n := d_set_Status "pending" d]> (db_deployments s))
        (set_slots (<[sc := n]> (db_slots s)) s))) m = waiting_in_queue s m).
    { intros m Hne. unfold waiting_in_queue. cbn. by rewrite lookup_insert_ne. }
    split.
    + intros m Hm Hm'. destruct (decide (m = n)) as [->|Hne]; [|rewrite Hother in Hm'; congruence].
      split; [exact Hnb|]. split; [by exists d|]. split; [by apply lookup_insert_eq|].
      unfold blocking. cbn. by rewrite lookup_insert_eq.
    + intros _ _ _ _. exists n. split; [apply waiting_row; eauto|].
      unfold waiting_in_queue. cbn. by rewrite lookup_insert_eq.
Qed.

(** A blocked scope with a slot is left alone by the rest of the sweep. *)
Lemma env_steps_blocked env s s' sc b o :
  rtc (env_step env) s s' → scope_of s b = Some sc → blocking s b = true →
  db_slots s !! sc = Some o →
  db_slots s' !! sc = Some o ∧ db_deployments s' !! b = db_deployments s !! b ∧ blocking s' b = true.
Proof.
  induction 1 as [|s1 s2 s3 [p Hp] _ IH]; [done|]. intros Hb Hbl Ho.
  assert (Hrow : db_deployments s2 !! b = db_deployments s1 !! b ∧ db_slots s2 !! sc = Some o).
  { destruct (decide ((p, env) = sc)) as [Hsc|Hne].
    - destruct Hp as [| | |n d audit Hnb]; [done|congruence|..]; subst sc.
      + exfalso. specialize (H b Hb). congruence.
      + exfalso. specialize (Hnb b Hb). congruence.
    - split; [|by rewrite (advanced_slot_other _ _ _ Hp)].
      destruct (advanced_deployment _ _ _ Hp b) as [|[? _]]; [done|congruence]. }
  destruct Hrow as [Hrow Hslot]. destruct (advanced_tables _ _ _ Hp) as (Hc & Hr & _).
  destruct IH as (H1 & H2 & H3); [by rewrite (advanced_scope _ _ _ Hp)| |done|].
  - by rewrite (blocking_ext s1 s2).
  - by rewrite H2.
Qed.

(** Sweeping an environment admits the oldest deployment of a free scope. *)
Lemma env_steps_admit env s s' p n d :
  rtc (env_step env) s s' → free_scope s (p, env) → oldest s (p, env) n d →
  stable s' (p, env) → queue_wf s →
  db_slots s' !! (p, env) = Some n ∧
  db_deployments s' !! n = Some (d_set_Status "pending" d) ∧ blocking s' n = true.
Proof.
  induction 1 as [s|s1 s2 s3 [q Hq] Hst IH].
  - intros Hfree (Hn & Hd & Hs & _) Hstab Hwf.
    destruct (stable_settled _ _ Hwf Hstab Hfree) as [_ Hnw].
    assert (waiting_in_queue s n = true) by (apply waiting_row; eauto).
    specialize (Hnw n Hn). congruence.
  - intros Hfree Hold Hstab Hwf. destruct (decide (q = p)) as [->|Hne].
    + destruct Hold as (Hn & Hd & Hs & Hmin).
      destruct Hq as [b o Hb Hbl|b Hb Hbl|audit _ Hnq|m dm audit _ Hm Hdm Hqm Hminm];
        [by rewrite Hfree in Hbl|by rewrite Hfree in Hbl|..].
      * exfalso. specialize (Hnq n Hn).
        assert (waiting_in_queue s1 n = true) by (apply waiting_row; eauto). congruence.
      * assert (n = m) as -> by (eapply oldest_unique; by repeat split).
        assert (dm = d) as -> by congruence.
        match type of Hst with rtc _ ?x _ => set (s2 := x) in * end.
        assert (Hrow : db_deployments s2 !! m = Some (d_set_Status "pending" d)) by apply lookup_insert_eq.
        destruct (env_steps_blocked env s2 s3 (p, env) m m) as (H1 & H2 & H3); [done|..].
        { apply scope_of_lookup. apply scope_of_lookup in Hm as (d' & rel & Hd' & Hrel & Heq).
          assert (d' = d) as Hdd by congruence. subst d'. exists (d_set_Status "pending" d), rel. done. }
        { unfold blocking. by rewrite Hrow. }
        { apply lookup_insert_eq. }
        by rewrite H2.
    + assert (Hscope : ∀ m, scope_of s2 m = scope_of s1 m) by apply (advanced_scope _ _ _ Hq).
      assert (Hrow : ∀ m, scope_of s1 m = Some (p, env) →
        db_deployments s2 !! m = db_deployments s1 !! m).
      { intros m Hm. destruct (advanced_deployment _ _ _ Hq m) as [|[? _]]; [done|congruence]. }
      apply IH; [|destruct Hold as (Hn & Hd & Hs & Hmin)|done|by eapply advanced_wf].
      * intros b. rewrite Hscope. intros Hb.
        rewrite (advanced_blocking_other _ _ _ Hq) by congruence. by apply Hfree.
      * split; [by rewrite Hscope|]. split; [by rewrite Hrow|]. split; [done|].
        intros m dm. rewrite Hscope. intros Hm. rewrite Hrow by done. eauto.
Qed.
(** Conversely, what the sweep admits was the oldest of a free scope. *)
Lemma env_steps_admitted env s s' p n d d' :
  rtc (env_step env) s s' → scope_of s n = Some (p, env) →
  db_deployments s !! n = Some d → d_Status d = "queued" →
  db_deployments s' !! n = Some d' → d_Status d' ≠ "queued" →
  free_scope s (p, env) ∧ oldest s (p, env) n d.
Proof.
  induction 1 as [|s1 s2 s3 [q Hq] Hst IH]; [congruence|]. intros Hn Hd Hs Hd' Hne.
  pose proof (advanced_scope _ _ _ Hq) as Hscope.
  assert (Hback : (∀ m, scope_of s1 m = Some (p, env) → db_deployments s2 !! m = db_deployments s1 !! m) →
    free_scope s1 (p, env) ∧ oldest s1 (p, env) n d).
  { intros Hrow. destruct IH as [Hfree (_ & _ & _ & Hmin)]; [by rewrite Hscope|by rewrite Hrow|done..|].
    destruct (advanced_tables _ _ _ Hq) as (Hc & Hr & _). split.
    - intros b Hb. rewrite <-(Hfree b) by by rewrite Hscope. symmetry. by apply blocking_ext; [apply Hrow|..].
    - split; [done|]. split; [done|]. split; [done|]. intros m dm Hm Hdm.
      apply Hmin; [by rewrite Hscope|by rewrite Hrow]. }
  destruct (decide (q = p)) as [->|Hqp].
  - destruct Hq as [b o Hb Hbl Ho|b Hb Hbl Ho|audit Hnb Hnq|m dm audit Hnb Hm Hdm Hqm Hmin]; [by apply Hback..|].
    destruct (decide (m = n)) as [->|Hmn]; [split; [exact Hnb|]; assert (dm = d) as -> by congruence; by split|].
    exfalso. destruct IH as [Hfree _]; [by rewrite Hscope|cbn; by rewrite lookup_insert_ne|done..|].
    specialize (Hfree m). rewrite Hscope in Hfree. specialize (Hfree Hm). revert Hfree.
    unfold blocking. cbn. by rewrite lookup_insert_eq.
  - apply Hback. intros m Hm. destruct (advanced_deployment _ _ _ Hq m) as [|[? _]]; [done|congruence].
Qed.
End order.

Lemma advance_admits_oldest_witness :
  queue_wf sample_queue ∧
  ∃ s', advanceDeploymentQueue 6 sample_queue = Ok (tt, s') ∧
        waiting_in_queue s' 6 = true ∧ waiting_in_queue s' 5 = false.
Proof.
  assert (Hwf : queue_wf sample_queue) by (apply queue_wfb_sound; vm_compute; reflexivity).
  split; [exact Hwf|].
  destruct (advance_admits_oldest sample_queue 6 (1, 7) Hwf eq_refl) as (s' & Hs' & _ & _).
  exists s'. split; [exact Hs'|]. revert Hs'. vm_compute. intros [= <-]. split; reflexivity.
Defined.

(** ** Starting a local deployment *)
Section start_local.
Implicit Types (s : DB) (id : Z).

Lemma start_queued_cases s id n s' :
  StartQueuedLocalDeployment id s = Ok (n, s') →
  (n = 0 ∧ db_deployments s' = db_deployments s) ∨
  (n = 1 ∧ ∃ d, db_deployments s !! id = Some d ∧ d_Status d = "pending" ∧
     d_AssignedAgentID d = None ∧
     (∃ sc, db_slots s !! sc = Some id ∧ sc.2 = d_EnvironmentID d) ∧
     s' = set_deployments (<[id := d_set_Status "running"
            (d_set_StartedAt (Some (default (db_now s) (d_StartedAt d))) d)]> (db_deployments s)) s).
Proof.
  unfold StartQueuedLocalDeployment, update_deployment.
  destruct (update_pk_cases (db_deployments s) id
    (λ d, String.eqb (d_Status d) "pending" && is_null (d_AssignedAgentID d)
     && existsb (λ kv : Z * Z * Z, Z.eqb kv.2 id && Z.eqb kv.1.2 (d_EnvironmentID d))
          (map_to_list (db_slots s)))
    (λ d, d_set_Status "running"
     (d_set_StartedAt (Some (default (db_now s) (d_StartedAt d))) d)))
    as [(d & Hd & Hw & ->)|[-> _]]; intros [= <- <-]; [right|by left].
  split; [done|]. exists d. rewrite !andb_true_iff, String.eqb_eq, is_null_true, existsb_exists in Hw.
  destruct Hw as [[? ?] ([sc o] & Hin & [Ho He]%andb_true_iff)].
  apply Z.eqb_eq in Ho, He. cbn in Ho, He. subst o.
  apply list_elem_of_In, elem_of_map_to_list in Hin. eauto 10.
Qed.

(** The body: advance, give way to any other blocker, otherwise start. *)
Lemma startLocalDeployment_spec s id d :
  queue_inv s → db_deployments s !! id = Some d →
  ∃ s1 b s2, rtc (env_step (d_EnvironmentID d)) s s1 ∧
    (∀ p, stable s1 (p, d_EnvironmentID d)) ∧
    startLocalDeployment id s = Ok (b, s2) ∧ queue_inv s2 ∧
    if b then ∃ d1 sc, db_deployments s1 !! id = Some d1 ∧ scope_of s1 id = Some sc ∧
              db_slots s1 !! sc = Some id ∧
              s2 = set_deployments (<[id := d_set_Status "running"
                (d_set_StartedAt (Some (default (db_now s1) (d_StartedAt d1))) d1)]>
                (db_deployments s1)) s1
    else db_deployments s2 = db_deployments s1.
Proof.
  intros [Hwf Hex] Hd.
  destruct (advanceEnvironmentQueue_spec s (d_EnvironmentID d) Hwf) as (s1 & Hs1 & Hst & Hstab).
  assert (Hinv1 : queue_inv s1) by by eapply env_steps_inv.
  assert (Hbody : ∀ s2, respects keeps_queue (StartQueuedLocalDeployment id) →
    ∀ n, StartQueuedLocalDeployment id s1 = Ok (n, s2) → queue_inv s2).
  { intros s2 Hr n Hn. by apply (Hr s1 n s2). }
  exists s1. unfold startLocalDeployment, mbind, tx_bind, GetDeployment. rewrite Hd, Hs1.
  unfold ListDeploymentQueueBlockers, read. case_match.
  - exists false, s1. done.
  - destruct (StartQueuedLocalDeployment id s1) as [[n s2]|e] eqn:En.
    2: { unfold StartQueuedLocalDeployment, update_deployment in En. by destruct (update_pk _ _ _ _). }
    specialize (Hbody s2 ltac:(respects) n eq_refl).
    destruct (start_queued_cases _ _ _ _ En) as [[-> Hdep]|(-> & d1 & Hd1 & _ & _ & (sc & Hsc & _) & Heq)].
    + exists false, s2. done.
    + exists true, s2. do 4 (split; [done|]). exists d1, sc. split; [done|].
      split; [by apply (wf_slot _ (proj1 Hinv1))|]. done.
Qed.

(** C18: StartLocalDeployment never fails on a deployment that exists. When it
    answers true, the deployment runs, holds the slot of its scope and is the
    only blocker of that scope; when it answers false, it has not become
    running. *)
Theorem start_local_exclusive s id d :
  queue_inv s → db_deployments s !! id = Some d →
  ∃ b s', StartLocalDeployment id s = (Ok b, s') ∧ queue_inv s' ∧
    if b then ∃ sc d', db_deployments s' !! id = Some d' ∧ d_Status d' = "running" ∧
              scope_of s' id = Some sc ∧ db_slots s' !! sc = Some id ∧
              ∀ o, scope_of s' o = Some sc → blocking s' o = true → o = id
    else ∀ d', db_deployments s' !! id = Some d' → d_Status d' = "running" → d_Status d = "running".
Proof.
  intros Hinv Hd.
  assert (Hinv0 : queue_inv (set_pending_audit [] s)) by by apply (shrinks_keeps s), Hinv.
  destruct (startLocalDeployment_spec (set_pending_audit [] s) id d Hinv0 Hd)
    as (s1 & b & s2 & Hst1 & _ & Hs2 & Hinv2 & Hcase).
  destruct (WithDeploymentTx_ok (startLocalDeployment id) s id d b s2 Hd Hs2 (proj1 Hinv2))
    as (s3 & Hs3 & Hst3 & _).
  exists b, (committed s3). split; [done|].
  assert (Hinv3 : queue_inv s3) by by eapply env_steps_inv.
  split; [by apply (shrinks_keeps s3), Hinv3; apply same_shrinks, committed_same|].
  assert (Hnorun : ∀ x y e, rtc (env_step e) x y → ∀ dy, db_deployments y !! id = Some dy →
    d_Status dy = "running" → ∃ dx, db_deployments x !! id = Some dx ∧ d_Status dx = "running").
  { induction 1 as [|x y z [p Hp] _ IH]; [eauto|]. intros dz Hz Hr.
    destruct (IH dz Hz Hr) as (dy & Hy & Hry).
    destruct (advanced_deployment _ _ _ Hp id) as [Heq|(_ & dx & _ & _ & Heq)];
      rewrite Heq in Hy; [eauto|]. by injection Hy as <-. }
  destruct b.
  - destruct Hcase as (d1 & sc & Hd1 & Hsc & Hslot & Hs2eq).
    assert (Hrow2 : db_deployments s2 !! id = Some (d_set_Status "running"
      (d_set_StartedAt (Some (default (db_now s1) (d_StartedAt d1))) d1)))
      by (rewrite Hs2eq; apply lookup_insert_eq).
    assert (Hsc2 : scope_of s2 id = Some sc).
    { apply scope_of_lookup in Hsc as (d1' & rel & Hd1' & Hrel & ->). apply scope_of_lookup.
      eexists _, rel. split; [done|]. assert (d1' = d1) as Hdd by congruence. subst d1'.
      rewrite Hs2eq. done. }
    destruct (env_steps_blocked _ s2 s3 sc id id Hst3 Hsc2) as (H1 & H2 & H3).
    { unfold blocking. rewrite Hrow2. by apply is_blocker_on. }
    { by rewrite Hs2eq. }
    exists sc. eexists. split; [cbn; rewrite H2; done|]. split; [done|].
    assert (Hsc3 : scope_of s3 id = Some sc) by by rewrite (env_steps_scope _ _ _ _ Hst3).
    split; [done|]. split; [done|]. intros o Ho Hbo. by apply (ex_one _ (proj2 Hinv3) sc).
  - intros d' Hd' Hr. destruct (Hnorun s2 s3 _ Hst3 d' Hd' Hr) as (d2 & Hd2 & Hr2).
    rewrite Hcase in Hd2. destruct (Hnorun _ s1 _ Hst1 d2 Hd2 Hr2) as (d0 & Hd0 & Hr0).
    cbn in Hd0. congruence.
Qed.
End start_local.

Lemma start_local_exclusive_witness :
  queue_inv sample_queue ∧ ∃ s', StartLocalDeployment 5 sample_queue = (Ok true, s').
Proof.
  assert (Hinv : queue_inv sample_queue) by (apply queue_invb_sound; vm_compute; reflexivity).
  split; [exact Hinv|].
  destruct (start_local_exclusive sample_queue 5 (sample_deployment 5 "queued" 30) Hinv eq_refl)
    as (b & s' & Hs' & _ & _).
  exists s'. destruct b; [exact Hs'|]. exfalso. revert Hs'. vm_compute. intros [=].
Defined.

Section progress.
Implicit Types (s : DB) (id : Z).

(** A deployment that is first in the queue of a free scope and is not
    assigned to an agent is started by StartLocalDeployment. *)
Theorem start_local_progress s id sc d :
  queue_inv s → free_scope s sc → oldest s sc id d → d_AssignedAgentID d = None →
  ∃ s', StartLocalDeployment id s = (Ok true, s').
Proof.
  intros Hinv Hfree Hold Hagent. destruct sc as [p e]. pose proof Hold as (Hsc & Hd & _ & _).
  assert (He : d_EnvironmentID d = e).
  { apply scope_of_lookup in Hsc as (d' & rel & ? & _ & [= _ ->]). congruence. }
  set (s0 := set_pending_audit [] s).
  assert (Hinv0 : queue_inv s0) by by apply (shrinks_keeps s), Hinv.
  destruct (advanceEnvironmentQueue_spec s0 e (proj1 Hinv0)) as (s1 & Hs1 & Hst & Hstab).
  destruct (env_steps_admit e s0 s1 p id d Hst Hfree Hold (Hstab p) (proj1 Hinv0))
    as (Hslot & Hrow & Hbl).
  assert (Hinv1 : queue_inv s1) by by eapply env_steps_inv.
  assert (Hsc1 : scope_of s1 id = Some (p, e)) by by rewrite (env_steps_scope _ _ _ _ Hst).
  assert (Hothers : existsb (λ b, negb (Z.eqb b id))
    (fst <$> in_scope_rows s1 id (is_blocker s1)) = false).
  { apply not_true_iff_false. rewrite existsb_exists. intros (b & Hb & Hne).
    apply list_elem_of_In, elem_of_blockers in Hb as (sc & Hid & Hsb & Hbb).
    rewrite (ex_one _ (proj2 Hinv1) sc b id) in Hne by done. by rewrite Z.eqb_refl in Hne. }
  assert (Hin : existsb (λ kv : Z * Z * Z, Z.eqb kv.2 id && Z.eqb kv.1.2 e)
    (map_to_list (db_slots s1)) = true).
  { apply existsb_exists. exists ((p, e), id). cbn. rewrite !Z.eqb_refl. split; [|done].
    by apply list_elem_of_In, elem_of_map_to_list. }
  destruct (startLocalDeployment_spec s0 id d Hinv0 Hd) as (s1' & b & s2 & _ & _ & Hs2 & Hinv2 & _).
  destruct (WithDeploymentTx_ok (startLocalDeployment id) s id d b s2 Hd Hs2 (proj1 Hinv2))
    as (s3 & Hs3 & _).
  exists (committed s3). unfold StartLocalDeployment. rewrite Hs3. f_equal. f_equal.
  revert Hs2. unfold startLocalDeployment, mbind, tx_bind, GetDeployment.
  change (db_deployments s0) with (db_deployments s). rewrite Hd, He, Hs1. cbn.
  rewrite (wf_key _ (proj1 Hinv) _ _ Hd), Hothers.
  unfold StartQueuedLocalDeployment, update_deployment, update_pk. rewrite Hrow. cbn.
  rewrite He, Hin. unfold is_null, not_null. rewrite Hagent. by intros [= <- _].
Qed.

Lemma env_steps_row env s s' id :
  rtc (env_step env) s s' →
  db_deployments s' !! id = db_deployments s !! id ∨
  ∃ d, db_deployments s !! id = Some d ∧ d_Status d = "queued" ∧
       db_deployments s' !! id = Some (d_set_Status "pending" d).
Proof.
  induction 1 as [|x y z [p Hp] _ IH]; [by left|].
  destruct (advanced_deployment _ _ _ Hp id) as [Heq|(_ & d & Hd & Hq & Heq)].
  - by rewrite Heq in IH.
  - right. exists d. split; [done|]. split; [done|].
    destruct IH as [IH|(d' & Hd' & Hq' & _)]; [congruence|].
    rewrite Heq in Hd'. injection Hd' as <-. done.
Qed.

Lemma env_steps_other env s s' :
  rtc (env_step env) s s' →
  db_logs s' = db_logs s ∧ db_verifications s' = db_verifications s ∧
  db_approvals s' = db_approvals s.
Proof. induction 1 as [|x y z [p []] _ IH]; [done|exact IH..]. Qed.

(** ApproveDeployment on every branch. A deployment that does not exist
    or does not await approval is refused and nothing changes. Otherwise the
    approval succeeds: the deployment is admitted at once, or it stays queued
    and its scope has a blocker. *)
Theorem approve_deployment s id by_ :
  queue_inv s →
  match db_deployments s !! id with
  | None => ApproveDeployment id by_ s = (Err ErrNoRows, s)
  | Some d =>
      if String.eqb (d_Status d) "pending_approval" then
        ∃ d' s', ApproveDeployment id by_ s = (Ok d', s') ∧ queue_inv s' ∧
          db_deployments s' !! id = Some d' ∧
          (∃ row, db_approvals s' = db_approvals s ++ [row] ∧ ap_DeploymentID row = id) ∧
          (d_Status d' = "pending" ∨
           d_Status d' = "queued" ∧ ∃ sc b, scope_of s' id = Some sc ∧
             scope_of s' b = Some sc ∧ blocking s' b = true)
      else ApproveDeployment id by_ s = (Err ErrDeploymentApprovalConflict, s)
  end.
Proof.
  intros Hinv. destruct (db_deployments s !! id) as [d|] eqn:Hd;
    [|unfold ApproveDeployment, WithDeploymentTx, GetDeployment; by rewrite Hd].
  destruct (String.eqb_spec (d_Status d) "pending_approval") as [Hst|Hst].
  2: { eapply WithDeploymentTx_fails; [done|]. unfold mbind, tx_bind, LockDeploymentApproval, read.
       cbn. rewrite Hd. apply String.eqb_neq in Hst. rewrite Hst. cbn.
       unfold GetDeployment. cbn. by rewrite Hd. }
  set (s0 := set_pending_audit [] s).
  set (d0 := d_set_Status "queued" d).
  set (row := mkApproval (Z.of_nat (length (db_approvals s)) + 1) id (ap_by by_) (db_now s)
    (ap_user by_) (ap_role by_)).
  set (sa := set_approvals (db_approvals s ++ [row]) s0).
  assert (Hcreate : CreateApproval id (ap_by by_) (ap_user by_) (ap_role by_) s0 = Ok (row, sa)) by done.
  set (s1 := set_deployments (<[id := d0]> (db_deployments sa)) sa).
  assert (Happ : ApproveDeploymentStatus id sa = Ok (1, s1)).
  { unfold ApproveDeploymentStatus, update_deployment, update_pk. cbn. by rewrite Hd, Hst. }
  assert (Hinv1 : queue_inv s1).
  { apply (shrinks_keeps sa); [by apply (shrinks_approve id sa 1)|].
    by apply (shrinks_keeps s), Hinv; apply same_shrinks. }
  destruct (advanceEnvironmentQueue_spec s1 (d_EnvironmentID d) (proj1 Hinv1))
    as (s2 & Hs2 & Hst2 & Hq2).
  assert (Hinv2 : queue_inv s2) by by eapply env_steps_inv.
  assert (Hrow1 : db_deployments s1 !! id = Some d0) by apply lookup_insert_eq.
  assert (Hrow2 : ∃ d2, db_deployments s2 !! id = Some d2 ∧ (d2 = d0 ∨ d_Status d2 = "pending")).
  { destruct (env_steps_row _ _ _ id Hst2) as [Heq|(dx & _ & _ & Heq)]; rewrite Heq; [|eauto].
    rewrite Hrow1. eauto. }
  destruct Hrow2 as (d2 & Hd2 & Hcase).
  assert (Hcommit : ApproveDeployment id by_ s = (Ok d2, committed s2)).
  { unfold ApproveDeployment, WithDeploymentTx.
    unfold GetDeployment at 1. rewrite Hd. apply withQueueTx_ok. fold s0.
    assert (Hd0 : db_deployments s0 !! id = Some d) by done.
    unfold mbind, tx_bind, mret, tx_ret, LockDeploymentApproval, LockDeploymentEnvironment, read.
    rewrite Hd0, Hst. cbn beta iota. change (if _ =? 0 then _ else _) with (λ s, Ok (tt, s) : result (unit * DB)).
    cbn beta iota. unfold GetDeployment. rewrite Hd0, Hcreate, Happ. cbn. rewrite Hs2.
    rewrite (wf_key _ (proj1 Hinv) _ _ Hd), Hd2. by rewrite stable_noop. }
  exists d2, (committed s2). split; [done|].
  split; [by apply (shrinks_keeps s2), Hinv2; apply same_shrinks, committed_same|].
  split; [done|].
  split; [exists row; split; [|done]; 
    change (db_approvals s2 = db_approvals s ++ [row]);
    by destruct (env_steps_other _ _ _ Hst2) as (_ & _ & ->)|].
  destruct Hcase as [->|]; [right|by left]. split; [done|].
  assert (Hwf2 : is_Some (scope_of s2 id)).
  { destruct (wf_release _ (proj1 Hinv2) _ _ Hd2) as [rel Hrel].
    unfold scope_of, deployment_scope. rewrite Hd2. cbn. cbn in Hrel. by rewrite Hrel. }
  destruct Hwf2 as [[p e] Hsc].
  assert (e = d_EnvironmentID d) as ->.
  { apply scope_of_lookup in Hsc as (dx & rel & Hdx & _ & [= _ ->]). by simplify_eq. }
  destruct (Hq2 p) as [Hout|[(b & o & Hb & Hbl & _)|(_ & _ & Hnq)]].
  - specialize (Hout id d0 Hsc Hd2). done.
  - exists (p, d_EnvironmentID d), b. done.
  - specialize (Hnq id Hsc). unfold waiting_in_queue in Hnq. by rewrite Hd2 in Hnq.
Qed.
End progress.

Lemma start_local_progress_witness :
  ∃ s, queue_inv s ∧ ∃ s', StartLocalDeployment 5 s = (Ok true, s').
Proof.
  assert (Hinv : queue_inv sample_queue) by (apply queue_invb_sound; vm_compute; reflexivity).
  exists sample_queue. split; [exact Hinv|].
  apply (start_local_progress sample_queue 5 (1, 7) (sample_deployment 5 "queued" 30));
    [exact Hinv| |split; [reflexivity|split; [reflexivity|split; [reflexivity|]]]|reflexivity].
  - intros b (d & rel & Hd & _)%scope_of_lookup. unfold blocking. rewrite Hd.
    apply (elem_of_list_to_map_2 (M:=gmap Z)) in Hd. cbn in Hd.
    repeat (apply elem_of_cons in Hd as [[= -> ->]|Hd]; [reflexivity|]).
    by apply elem_of_nil in Hd.
  - intros m dm _ Hd Hq. apply (elem_of_list_to_map_2 (M:=gmap Z)) in Hd. cbn in Hd.
    apply elem_of_cons in Hd as [[= -> ->]|Hd]; [right; reflexivity|].
    apply elem_of_cons in Hd as [[= -> ->]|Hd]; [left; reflexivity|].
    apply elem_of_cons in Hd as [[= -> ->]|Hd]; [discriminate Hq|].
    by apply elem_of_nil in Hd.
Defined.

Definition sample_approval : DB :=
  sample_store [sample_deployment 6 "pending_approval" 40; sample_deployment 5 "running" 30]
    {[(1, 7) := 5]}.

Lemma approve_deployment_witness :
  queue_inv sample_approval ∧
  ∃ d s', ApproveDeployment 6 (mkApprovalParams "ada" (Some 2) "admin") sample_approval = (Ok d, s') ∧ d_Status d = "queued".
Proof.
  assert (Hinv : queue_inv sample_approval) by (apply queue_invb_sound; vm_compute; reflexivity).
  split; [exact Hinv|].
  destruct (approve_deployment sample_approval 6 (mkApprovalParams "ada" (Some 2) "admin") Hinv) as (d & s' & Hs' & _).
  exists d, s'. split; [exact Hs'|]. revert Hs'. vm_compute. intros [= <- _]. reflexivity.
Defined.

(** ** Cancelling before the start *)
Section cancel.
Implicit Types (s : DB) (id : Z).

Definition cancel_row (s : DB) (d : Deployment) : Deployment :=
  d_set_Status "cancelled" (d_set_FinishedAt (Some (db_now s)) d).

Lemma cancel_queued_changes s id d :
  db_deployments s !! id = Some d → (d_Status d ∈? prestart_statuses)%bool = true →
  claim_in s id (λ c, negb (c_State c ∈? ["waiting"; "cancelled"])) = false →
  QueueQueries.CancelQueuedDeployment id s =
    Ok (1, set_deployments (<[id := cancel_row s d]> (db_deployments s)) s).
Proof.
  intros Hd Hst Hc. unfold QueueQueries.CancelQueuedDeployment, update_deployment, update_pk.
  by rewrite Hd, Hst, Hc.
Qed.

(** The cancellation log lines touch the log table only. *)
Lemma log_steps_spec id steps s :
  ∃ logs, for_each steps (λ step,
    CreateStepDeploymentLog id (Some (s_Name step)) QueuedCancellationLogLine
      (Some (s_StepIndex step)) (Some "cancelled");; mret tt) s = Ok (tt, set_logs (db_logs s ++ logs) s) ∧
    (λ l, (l_DeploymentID l, l_StepName l, l_Line l, l_StepIndex l, l_StepState l)) <$> logs =
    (λ step, (id, Some (s_Name step), QueuedCancellationLogLine,
              Some (s_StepIndex step), Some "cancelled")) <$> steps.
Proof.
  revert s. induction steps as [|step steps IH]; intros s.
  { exists []. cbn. rewrite app_nil_r. split; [|done]. by destruct s. }
  set (row := mkLog (next_log_id s) id (Some (s_Name step)) QueuedCancellationLogLine (db_now s)
    (Some (s_StepIndex step)) (Some "cancelled") 1).
  destruct (IH (set_logs (db_logs s ++ [row]) s)) as (logs & Hl & Hm).
  exists (row :: logs). split; [|cbn; by rewrite Hm].
  cbn [for_each]. unfold mbind at 1, tx_bind at 1.
  replace (db_logs s ++ row :: logs) with ((db_logs s ++ [row]) ++ logs) by by rewrite <-app_assoc.
  exact Hl.
Qed.

Definition steps_of (s : DB) (id : Z) : list DeploymentStep :=
  sort_by (λ a b, s_StepIndex a <=? s_StepIndex b)
    (snd <$> filter (λ kv : Z * Z * DeploymentStep, kv.1.1 = id) (map_to_list (db_steps s))).

Lemma record_cancellation_spec id s :
  is_Some (db_step_sources s !! id) →
  ∃ logs, recordQueuedCancellation id s = Ok (tt, set_logs (db_logs s ++ logs) s) ∧
    (λ l, (l_DeploymentID l, l_StepName l, l_Line l, l_StepIndex l, l_StepState l)) <$> logs =
    (λ step, (id, Some (s_Name step), QueuedCancellationLogLine,
              Some (s_StepIndex step), Some "cancelled")) <$> steps_of s id.
Proof.
  intros Hlock. destruct (log_steps_spec id (steps_of s id) s) as (logs & Hl & Hm).
  exists logs. split; [|exact Hm]. unfold recordQueuedCancellation.
  unfold mbind at 1, tx_bind at 1, LockDeploymentLogStream, read at 1.
  rewrite (proj2 (not_null_true _) Hlock). exact Hl.
Qed.

(** Cancelling a deployment that has a waiting remote claim fails on the
    claim table's CHECK and rolls back, although the statement before it
    accepts exactly such deployments: the claim is set to 'cancelled' without
    the cancel_requested_at that a cancelled claim must have. *)
Theorem cancel_with_waiting_claim_fails s id d c :
  db_deployments s !! id = Some d → (d_Status d ∈? prestart_statuses)%bool = true →
  is_Some (db_step_sources s !! id) → claims_ok (db_claims s) = true →
  db_claims s !! id = Some c → c_State c = "waiting" →
  CancelQueuedDeployment id s = (Err ErrConstraint, s).
Proof.
  intros Hd Hst Hlock Hok Hc Hw. apply (WithDeploymentTx_fails _ s id d); [done|].
  set (s0 := set_pending_audit [] s).
  unfold cancelQueuedDeployment, mbind at 1, tx_bind at 1, GetDeployment.
  change (db_deployments s0) with (db_deployments s). rewrite Hd.
  unfold mbind at 1, tx_bind at 1. rewrite (cancel_queued_changes s0 id d);
    [|done..|unfold claim_in; cbn; by rewrite Hc, Hw].
  set (s1 := set_deployments _ s0).
  assert (Hfail : ∀ s2 (k : unit → Tx unit), db_claims s2 = db_claims s →
    (CancelWaitingQueuedRemoteClaim id ≫= k) s2 = Err ErrConstraint).
  { intros s2 k Hs2. unfold CancelWaitingQueuedRemoteClaim, update_claim, store_claims, update_pk,
      checked, mbind, tx_bind, mret, tx_ret. rewrite Hs2, Hc, Hw. cbn -[claims_ok].
    match goal with |- context [claims_ok ?t] => destruct (claims_ok t) eqn:Ebad end; [|done].
    exfalso. cbn [db_claims set_claims] in Ebad.
    unfold claims_ok in Ebad, Hok. rewrite !andb_true_iff, forall_rows_true in Ebad.
    rewrite !andb_true_iff, forall_rows_true in Hok.
    destruct Hok as [[Hrow _] _], Ebad as [[Hbad _] _].
    specialize (Hrow id c Hc). specialize (Hbad id _ (lookup_insert_eq _ _ _)).
    unfold claim_check, claim_state_check in Hrow, Hbad. rewrite Hw in Hrow. cbn in Hrow, Hbad.
    destruct (not_null (c_CancelRequestedAt c)); rewrite ?andb_false_r in *; done. }
  destruct (d_Status d =? "queued")%string.
  - destruct (record_cancellation_spec id s1 Hlock) as (logs & Hl & _).
    rewrite (bind_ok (guard _ _) _ s1 tt s1) by done. rewrite (bind_ok _ _ _ _ _ Hl).
    by apply Hfail.
  - cbn. by apply Hfail.
Qed.

Lemma cancel_waiting_none id s :
  db_claims s !! id = None → claims_ok (db_claims s) = true →
  CancelWaitingQueuedRemoteClaim id s = Ok (tt, s).
Proof.
  intros Hc Hok. unfold CancelWaitingQueuedRemoteClaim, update_claim, store_claims, update_pk,
    checked, mbind, tx_bind, mret, tx_ret. rewrite Hc. cbn -[claims_ok]. rewrite Hok. by destruct s.
Qed.

(** Cancelling a queued deployment without a claim succeeds: it is
    cancelled, every step of it gets the explanatory log line, its pending
    verification ends as cancelled, and the queue contract holds. *)
Theorem cancel_queued_succeeds s id d :
  queue_inv s → db_deployments s !! id = Some d → d_Status d = "queued" →
  claims_ok (db_claims s) = true → db_claims s !! id = None → is_Some (db_step_sources s !! id) →
  ∃ s' logs, CancelQueuedDeployment id s = (Ok tt, s') ∧ queue_inv s' ∧
    (∃ d', db_deployments s' !! id = Some d' ∧ d_Status d' = "cancelled") ∧
    db_logs s' = db_logs s ++ logs ∧
    (∀ k step, db_steps s !! k = Some step → k.1 = id →
       ∃ l, l ∈ logs ∧ l_DeploymentID l = id ∧ l_StepIndex l = Some (s_StepIndex step) ∧
            l_Line l = QueuedCancellationLogLine) ∧
    (∀ v, db_verifications s' !! id = Some v → v_DeploymentID v = id →
       (v_Status v ∈? ["pending"; "running"])%bool = false).
Proof.
  intros Hinv Hd Hst Hok Hc Hlock.
  pose proof (CancelQueuedDeployment_keeps id s Hinv) as Hkeep.
  set (s0 := set_pending_audit [] s).
  set (s1 := set_deployments (<[id := cancel_row s0 d]> (db_deployments s0)) s0).
  destruct (record_cancellation_spec id s1 Hlock) as (logs & Hl & Hrows).
  set (s2 := set_logs (db_logs s1 ++ logs) s1) in *.
  destruct (FinishDeploymentVerification id "cancelled" s2) as [[[] s3]|e] eqn:Ev; [|done].
  assert (Hbody : cancelQueuedDeployment id s0 =
    queueAudit id "deployment_queue_cancelled" s3).
  { unfold cancelQueuedDeployment. rewrite (bind_ok (GetDeployment id) _ s0 d s0);
      [|unfold GetDeployment; cbn; by rewrite Hd].
    rewrite (bind_ok _ _ s0 1 s1); [|apply cancel_queued_changes; [done|by rewrite Hst|]];
      [|unfold claim_in; cbn; by rewrite Hc].
    rewrite (bind_ok (guard _ _) _ s1 tt s1) by done. rewrite Hst.
    rewrite (bind_ok _ _ _ _ _ Hl). fold s2.
    rewrite (bind_ok (CancelWaitingQueuedRemoteClaim id) _ s2 tt s2)
      by by apply cancel_waiting_none.
    by rewrite (bind_ok _ _ _ _ _ Ev). }
  injection Ev as Hs3. subst s3.
  match type of Hbody with _ = ?m ?x => destruct (m x) as [[[] s4]|] eqn:Es4; [|done] end.
  assert (Hwf4 : queue_wf s4).
  { apply (respects_cancel_body id s0 tt s4 Hbody). by apply (shrinks_keeps s), Hinv. }
  destruct (WithDeploymentTx_ok (cancelQueuedDeployment id) s id d tt s4 Hd Hbody Hwf4)
    as (s5 & Hs5 & Hst5 & _).
  destruct (env_steps_other _ _ _ Hst5) as (Hlogs & Hver & _).
  assert (Hrow4 : db_deployments s4 !! id = Some (cancel_row s0 d))
    by (injection Es4 as <-; apply lookup_insert_eq).
  exists (committed s5), logs. unfold CancelQueuedDeployment in *. rewrite Hs5 in *.
  split; [done|]. split; [done|]. split; [|split; [|split]].
  - exists (cancel_row s0 d). split; [|done]. cbn.
    by destruct (env_steps_row _ _ _ id Hst5) as [->|(dx & Hdx & Hq & _)]; [|simplify_eq].
  - cbn. rewrite Hlogs. by injection Es4 as <-.
  - intros k step Hk Hid.
    assert (step ∈ steps_of s1 id) as Hin.
    { unfold steps_of. rewrite elem_of_sort_by, list_elem_of_fmap. exists (k, step).
      split; [done|]. apply list_elem_of_filter. split; [done|]. by apply elem_of_map_to_list. }
    apply (list_elem_of_fmap_2 (λ step, (id, Some (s_Name step), QueuedCancellationLogLine,
              Some (s_StepIndex step), Some "cancelled"))) in Hin.
    rewrite <-Hrows in Hin. apply list_elem_of_fmap in Hin as (l & Heq & Hin).
    injection Heq as ?????. exists l. done.
  - intros v Hv Hvid. cbn in Hv. rewrite Hver in Hv. injection Es4 as <-. cbn in Hv.
    rewrite lookup_fmap in Hv. apply fmap_Some in Hv as (v0 & Hv0 & ->).
    destruct ((v_Status v0 ∈? ["pending"; "running"])%bool) eqn:E; cbn in E;
      destruct (Z.eqb_spec (v_DeploymentID v0) id) as [Hv|Hv]; cbn in Hvid |- *;
      rewrite ?E in *; cbn in *; try done.
Qed.
End cancel.

Definition sample_waiting_claim : RemoteDeploymentClaim :=
  mkClaim 6 "agent-1" "waiting" None None None None None None None None 900 900 None None.

Definition sample_claimed_queue : DB := set_claims {[6 := sample_waiting_claim]} sample_queue.

Lemma cancel_with_waiting_claim_fails_witness :
  claims_ok (db_claims sample_claimed_queue) = true ∧
  CancelQueuedDeployment 6 sample_claimed_queue = (Err ErrConstraint, sample_claimed_queue).
Proof.
  split; [vm_compute; reflexivity|].
  apply (cancel_with_waiting_claim_fails sample_claimed_queue 6 (sample_deployment 6 "queued" 40)
    sample_waiting_claim); [vm_compute; reflexivity..| | | |];
    [vm_compute; eauto|vm_compute; reflexivity..].
Defined.

Lemma cancel_queued_succeeds_witness :
  queue_inv sample_queue ∧ ∃ s', CancelQueuedDeployment 6 sample_queue = (Ok tt, s').
Proof.
  assert (Hinv : queue_inv sample_queue) by (apply queue_invb_sound; vm_compute; reflexivity).
  split; [exact Hinv|].
  destruct (cancel_queued_succeeds sample_queue 6 (sample_deployment 6 "queued" 40) Hinv)
    as (s' & logs & Hs' & _); [vm_compute; reflexivity..| |exists s'; exact Hs'].
  vm_compute; eauto.
Defined.
