(* ===== verification/DispatchQueries.v ===== *)
(** * DispatchQueries: the statements of internal/db/agent_dispatch.sql.go

    Claims of remote deployments: offered ('waiting'), handed to an agent
    ('claimed'), running ('started', 'cancel_requested') and finished. The
    statements of agents.sql.go that the lifecycle uses are here too. An UPDATE
    that only takes a row lock ([SET updated_at = updated_at]) is a read of the
    number of matching rows. *)
From S2P Require Import Prelude Db Tx QueueQueries.

(** ** Conditions shared by the statements *)

(** [a.status = 'active' AND EXISTS (... p.state = 'paired')]. *)
Definition agent_ready (s : DB) (id : string) : bool :=
  match db_agents s !! id with Some a => String.eqb (a_Status a) "active" | None => false end
  && match db_pairings s !! id with Some p => String.eqb (p_State p) "paired" | None => false end.

(** The view agent_step_capabilities (migrations/049). *)
Definition step_capability (s : DB) (agent interpreter mode : string) : bool :=
  match db_agents s !! agent with
  | None => false
  | Some a =>
      let protocol := default "agent/1" (a_AgentProtocol a) in
      (String.eqb mode "host"
       && bool_decide ((agent, interpreter) ∈ db_agent_interpreters s)
       && (negb (String.eqb protocol "agent/1") || String.eqb interpreter "bash")
       && (negb (String.eqb protocol "agent/3")
           || bool_decide ((agent, "host") ∈ db_agent_execution_modes s)))
      || (String.eqb mode "container"
       && bool_decide ((agent, interpreter) ∈ db_agent_container_interpreters s)
       && sql_eq (a_AgentProtocol a) "agent/3"
       && bool_decide ((agent, "container") ∈ db_agent_execution_modes s)
       && existsb (λ ar : string * string, String.eqb ar.1 agent)
            (elements (db_agent_container_runtimes s)))
  end.

(** NOT EXISTS a step of the deployment that the agent cannot execute. *)
Definition steps_supported (s : DB) (deployment : Z) (agent : string) : bool :=
  negb (exists_row (db_steps s) (λ st, Z.eqb (s_DeploymentID st) deployment
    && negb (step_capability s agent (s_Interpreter st) (s_AgentExecutionMode st)))).

(** NOT EXISTS unconfirmed cleanup of the agent, in runs and in claims. *)
Definition agent_clean (s : DB) (agent : string) : bool :=
  negb (exists_row (db_runs s) (λ r, String.eqb (r_AgentID r) agent
    && String.eqb (r_State r) "cleanup_unconfirmed" && is_null (r_CleanupConfirmedAt r)))
  && negb (exists_row (db_claims s) (λ c, String.eqb (c_AgentID c) agent
    && String.eqb (c_State c) "cleanup_unconfirmed" && is_null (c_CleanupConfirmedAt c))).

Definition deployment_is (s : DB) (id : Z) (p : Deployment → bool) : bool :=
  match db_deployments s !! id with Some d => p d | None => false end.

Definition count (b : bool) : Z := if b then 1 else 0.

(** ** Locks and reads *)

Definition CurrentUnixTime : Tx Z := read db_now.

Definition LockClaimAgent (id : string) : Tx Z := read (λ s, count (agent_ready s id)).

Definition LockRemoteLifecycleClaim (deployment : Z) (agent : string) (token : option string) : Tx Z :=
  read (λ s, count (claim_in s deployment (λ c,
    String.eqb (c_AgentID c) agent && sql_eq2 (c_ClaimTokenHash c) token))).

Definition LockRemoteMaintenanceClaim (deployment : Z) (agent : string) : Tx Z :=
  read (λ s, count (claim_in s deployment (λ c, String.eqb (c_AgentID c) agent))).

Definition LockWaitingRemoteDeploymentClaim (deployment : Z) (agent : string) : Tx Z :=
  read (λ s, count (claim_in s deployment (λ c,
    String.eqb (c_AgentID c) agent && String.eqb (c_State c) "waiting"
    && is_null (c_ClaimTokenHash c) && is_null (c_Ciphertext c)))).

Definition LockRemoteDeploymentClaim (deployment : Z) (agent : string) (token : option string) : Tx Z :=
  read (λ s, count (claim_in s deployment (λ c,
    String.eqb (c_AgentID c) agent && sql_eq2 (c_ClaimTokenHash c) token
    && (c_State c ∈? ["started"; "cancel_requested"]) && agent_ready s (c_AgentID c)))).

Definition LockPendingRemoteDeployment (deployment : Z) (agent : string) : Tx Z :=
  read (λ s, count (deployment_is s deployment (λ d,
    sql_eq (d_AssignedAgentID d) agent && String.eqb (d_Status d) "pending"))).

Definition GetRemoteDeploymentClaim (id : Z) : Tx RemoteDeploymentClaim := λ s,
  match db_claims s !! id with Some c => Ok (c, s) | None => Err ErrNoRows end.

Definition GetRelease (id : Z) : Tx Release := λ s,
  match db_releases s !! id with Some r => Ok (r, s) | None => Err ErrNoRows end.

(** The id and the other columns of the environment. *)
Definition GetEnvironment (id : Z) : Tx (Z * Environment) := λ s,
  match db_environments s !! id with Some e => Ok ((id, e), s) | None => Err ErrNoRows end.

Definition GetAgent (id : string) : Tx Agent := λ s,
  match db_agents s !! id with Some a => Ok (a, s) | None => Err ErrNoRows end.

(** [ORDER BY c.created_at, c.deployment_id] *)
Definition claim_le (p q : Z * RemoteDeploymentClaim) : bool :=
  (c_CreatedAt p.2 <? c_CreatedAt q.2)
  || ((c_CreatedAt p.2 =? c_CreatedAt q.2) && (p.1 <=? q.1)).

Definition select_claims (s : DB) (where_ : Z → RemoteDeploymentClaim → bool)
    : list (Z * RemoteDeploymentClaim) :=
  filter (λ kc : Z * RemoteDeploymentClaim, where_ kc.1 kc.2 = true) (map_to_list (db_claims s)).

(** A waiting claim that the agent may take now. *)
Definition claimable (s : DB) (agent : string) (id : Z) (c : RemoteDeploymentClaim) : bool :=
  String.eqb (c_AgentID c) agent && String.eqb (c_State c) "waiting"
  && deployment_is s id (λ d, sql_eq (d_AssignedAgentID d) (c_AgentID c)
       && String.eqb (d_Status d) "pending")
  && slot_of_deployment s id
  && steps_supported s id (c_AgentID c)
  && agent_clean s (c_AgentID c).

Definition ListWaitingRemoteDeploymentClaims (agent : string) : Tx (list Z) := read (λ s,
  fst <$> sort_by claim_le (select_claims s (claimable s agent))).

(** [ORDER BY agent_id, deployment_id] over the claims that hold capacity. *)
Definition lifecycle_le (p q : Z * string) : bool :=
  match String.compare p.2 q.2 with Lt => true | Eq => p.1 <=? q.1 | Gt => false end.

Definition ListRemoteLifecycleClaims : Tx (list (Z * string)) := read (λ s,
  sort_by lifecycle_le ((λ kc : Z * RemoteDeploymentClaim, (kc.1, c_AgentID kc.2))
    <$> select_claims s (λ _ c, c_State c ∈? capacity_states))).

(** ** Transitions of a claim *)

Record ClaimRemoteDeploymentParams := mkClaimParams {
  cp_ClaimTokenHash : option string;
  cp_Ciphertext : option string;
  cp_ClaimExpiresAt : Z;
  cp_Now : Z;
  cp_DeploymentID : Z;
  cp_AgentID : string }.

Definition ClaimRemoteDeployment (arg : ClaimRemoteDeploymentParams) : Tx Z :=
  update_claim (cp_DeploymentID arg)
    (λ s c, String.eqb (c_AgentID c) (cp_AgentID arg)
       && String.eqb (c_State c) "waiting"
       && is_null (c_ClaimTokenHash c) && is_null (c_StartedAt c)
       && (cp_Now arg <? cp_ClaimExpiresAt arg)
       && deployment_is s (cp_DeploymentID arg) (λ d,
            sql_eq (d_AssignedAgentID d) (c_AgentID c) && String.eqb (d_Status d) "pending")
       && slot_of_deployment s (cp_DeploymentID arg)
       && agent_ready s (c_AgentID c)
       && match db_agents s !! c_AgentID c with Some a => Z.eqb (a_Draining a) 0 | None => false end
       && negb (existsb (λ kb : Z * RemoteDeploymentClaim,
            String.eqb (c_AgentID kb.2) (c_AgentID c) && negb (Z.eqb kb.1 (cp_DeploymentID arg))
            && (c_State kb.2 ∈? capacity_states)) (map_to_list (db_claims s)))
       && steps_supported s (cp_DeploymentID arg) (c_AgentID c)
       && agent_clean s (c_AgentID c))
    (λ s c, c_set_State "claimed" (c_set_ClaimTokenHash (cp_ClaimTokenHash arg)
       (c_set_Ciphertext (cp_Ciphertext arg) (c_set_ClaimExpiresAt (Some (cp_ClaimExpiresAt arg))
         (c_set_LastHeartbeatAt (Some (cp_Now arg)) (c_set_UpdatedAt (cp_Now arg) c)))))).

Definition StartRemoteDeployment (now deployment : Z) (agent : string) (token : option string) : Tx Z :=
  update_claim deployment
    (λ s c, String.eqb (c_AgentID c) agent && sql_eq2 (c_ClaimTokenHash c) token
       && String.eqb (c_State c) "claimed" && is_null (c_StartedAt c)
       && sql_gt (c_ClaimExpiresAt c) now
       && deployment_is s deployment (λ d, sql_eq (d_AssignedAgentID d) (c_AgentID c)
            && String.eqb (d_Status d) "pending")
       && agent_ready s (c_AgentID c))
    (λ s c, c_set_State "started" (c_set_StartedAt (Some now) (c_set_UpdatedAt now c))).

Definition HeartbeatRemoteDeployment (now deployment : Z) (agent : string) (token : option string) : Tx Z :=
  update_claim deployment
    (λ s c, String.eqb (c_AgentID c) agent && sql_eq2 (c_ClaimTokenHash c) token
       && (c_State c ∈? ["started"; "cancel_requested"])
       && sql_le (c_LastHeartbeatAt c) now && agent_ready s (c_AgentID c))
    (λ s c, c_set_LastHeartbeatAt (Some now) (c_set_UpdatedAt now c)).

Definition FinishRemoteDeployment (state : string) (reason : option string)
    (now deployment : Z) (agent : string) (token : option string) : Tx Z :=
  update_claim deployment
    (λ s c, String.eqb (c_AgentID c) agent && sql_eq2 (c_ClaimTokenHash c) token
       && ((c_State c ∈? ["started"; "lost"; "cancel_unconfirmed"])
           || (String.eqb (c_State c) "cancel_requested" && String.eqb state "cleanup_unconfirmed"))
       && not_null (c_StartedAt c)
       && (String.eqb state "succeeded" || String.eqb state "failed"
           || String.eqb state "cleanup_unconfirmed")
       && deployment_is s deployment (λ d, sql_eq (d_AssignedAgentID d) (c_AgentID c)
            && (d_Status d ∈? ["running"; "failed"]))
       && agent_ready s (c_AgentID c))
    (λ s c, c_set_State state (c_set_Reason reason (c_set_FinishedAt (Some now)
       (c_set_CancelRequestedAt None (c_set_UpdatedAt now c))))).

Definition AcknowledgeRemoteDeploymentCancellation (now deployment : Z) (agent : string)
    (token : option string) : Tx Z :=
  update_claim deployment
    (λ s c, String.eqb (c_AgentID c) agent && sql_eq2 (c_ClaimTokenHash c) token
       && (c_State c ∈? ["cancel_requested"; "cancel_unconfirmed"]))
    (λ s c, c_set_State "cancelled" (c_set_FinishedAt (Some now) (c_set_UpdatedAt now c))).

Definition RequestRemoteDeploymentCancellation (now deployment : Z) : Tx Z :=
  update_claim deployment
    (λ s c, c_State c ∈? ["waiting"; "claimed"; "started"])
    (λ s c, c_set_State (if is_null (c_StartedAt c) then "cancelled" else "cancel_requested")
       (c_set_FinishedAt (if is_null (c_StartedAt c) then Some now else None)
         (c_set_CancelRequestedAt (Some now) (c_set_UpdatedAt now c)))).

Definition ExpireRemoteClaim (now deployment : Z) (agent : string) : Tx Z :=
  update_claim deployment
    (λ s c, String.eqb (c_AgentID c) agent && String.eqb (c_State c) "claimed"
       && is_null (c_StartedAt c) && sql_le (c_ClaimExpiresAt c) now)
    (λ s c, c_set_State "waiting" (c_set_Reason None (c_set_ClaimTokenHash None
       (c_set_Ciphertext None (c_set_ClaimExpiresAt None (c_set_LastHeartbeatAt None
         (c_set_UpdatedAt now c))))))).

Definition LoseStaleRemoteClaim (now deployment : Z) (agent : string) (stale_before : Z) : Tx Z :=
  update_claim deployment
    (λ s c, String.eqb (c_AgentID c) agent && String.eqb (c_State c) "started"
       && sql_le (c_LastHeartbeatAt c) stale_before)
    (λ s c, c_set_State "lost" (c_set_Reason (Some "remote_agent_lost")
       (c_set_FinishedAt (Some now) (c_set_UpdatedAt now (c_set_LogBuffer None c))))).

Definition ExpireRemoteCancellationClaim (now deployment : Z) (agent : string)
    (stale_before : Z) : Tx Z :=
  update_claim deployment
    (λ s c, String.eqb (c_AgentID c) agent && String.eqb (c_State c) "cancel_requested"
       && sql_le (c_CancelRequestedAt c) stale_before)
    (λ s c, c_set_State "cancel_unconfirmed" (c_set_Reason (Some "remote_cancel_unconfirmed")
       (c_set_FinishedAt (Some now) (c_set_UpdatedAt now (c_set_LogBuffer None c))))).

Definition FailWaitingRemotePayload (reason : string) (now deployment : Z) (agent : string) : Tx Z :=
  update_claim deployment
    (λ s c, String.eqb (c_AgentID c) agent && String.eqb (c_State c) "waiting")
    (λ s c, c_set_State "failed" (c_set_Reason (Some reason)
       (c_set_FinishedAt (Some now) (c_set_UpdatedAt now c)))).

Definition FailUnsupportedWaitingRemoteDeploymentClaims (now : Z) (agent : string) : Tx Z :=
  update_claims
    (λ s c, String.eqb (c_AgentID c) agent && String.eqb (c_State c) "waiting"
       && negb (steps_supported s (c_DeploymentID c) (c_AgentID c)))
    (λ s c, c_set_State "failed" (c_set_Reason (Some "remote_execution_capability_unavailable")
       (c_set_FinishedAt (Some now) (c_set_UpdatedAt now c)))).

Definition ConfirmRemoteDeploymentCleanup (now : Z) (agent : string) : Tx Z :=
  update_claims
    (λ s c, String.eqb (c_AgentID c) agent && String.eqb (c_State c) "cleanup_unconfirmed"
       && is_null (c_CleanupConfirmedAt c))
    (λ s c, c_set_CleanupConfirmedAt (Some now) c).

(** INSERT ... SELECT of a claim for an assigned deployment. *)
Definition CreateRemoteDeploymentClaim (deployment : Z) : Tx Z := λ s,
  match db_deployments s !! deployment with
  | Some d =>
      match d_AssignedAgentID d with
      | Some agent =>
          if (d_Status d ∈? ["pending"; "pending_approval"])
             && is_null (db_claims s !! deployment)
          then (store_claims (<[deployment := mkClaim deployment agent "waiting" None None None None
                  None None None None (db_now s) (db_now s) None None]> (db_claims s));; mret 1) s
          else Ok (0, s)
      | None => Ok (0, s)
      end
  | None => Ok (0, s)
  end.

(** ** The deployment's status *)

Definition remote_prestart : list string := ["queued"; "pending"; "pending_approval"; "running"].

Definition CancelRemoteDeploymentStatus (now deployment : Z) (agent : string) : Tx Z :=
  update_deployment deployment
    (λ _ d, sql_eq (d_AssignedAgentID d) agent && (d_Status d ∈? remote_prestart))
    (λ _ d, d_set_Status "cancelled" (d_set_FinishedAt (Some now) d)).

Definition FailRemoteDeploymentStatus (now deployment : Z) (agent : string) : Tx Z :=
  update_deployment deployment
    (λ _ d, sql_eq (d_AssignedAgentID d) agent && String.eqb (d_Status d) "running")
    (λ _ d, d_set_Status "failed" (d_set_FinishedAt (Some now) d)).

Definition FinishRemoteDeploymentStatus (state : string) (now deployment : Z) (agent : string) : Tx Z :=
  update_deployment deployment
    (λ _ d, sql_eq (d_AssignedAgentID d) agent
       && (String.eqb (d_Status d) "running"
           || (String.eqb (d_Status d) "failed" && String.eqb state "cleanup_unconfirmed")))
    (λ _ d, d_set_Status state (d_set_FinishedAt (Some now) d)).

Definition StartRemoteDeploymentStatus (now deployment : Z) (agent : string) : Tx Z :=
  update_deployment deployment
    (λ _ d, sql_eq (d_AssignedAgentID d) agent && String.eqb (d_Status d) "pending"
       && is_null (d_StartedAt d))
    (λ _ d, d_set_Status "running" (d_set_StartedAt (Some now) d)).

(** An UPDATE of every deployment that satisfies a condition. *)
Definition update_deployments (where_ : DB → Deployment → bool)
    (set : DB → Deployment → Deployment) : Tx Z := λ s,
  let '(t, n) := update_where (db_deployments s) (where_ s) (set s) in
  Ok (n, set_deployments t s).

Definition FailUnsupportedRemoteDeploymentStatus (now : Z) (agent : string) : Tx Z :=
  update_deployments
    (λ s d, (d_Status d ∈? ["queued"; "pending"; "pending_approval"])
       && claim_in s (d_ID d) (λ c, String.eqb (c_AgentID c) agent && String.eqb (c_State c) "failed"))
    (λ _ d, d_set_Status "failed" (d_set_FinishedAt (Some now) d)).

Definition TerminateRevokedRemoteDeployment (now deployment : Z) (agent : string) : Tx Z :=
  update_deployment deployment
    (λ _ d, sql_eq (d_AssignedAgentID d) agent && (d_Status d ∈? remote_prestart))
    (λ _ d, d_set_Status "failed" (d_set_FinishedAt (Some now) d)).

(** ** agents.sql.go *)

Definition update_agent (id : string) (where_ : DB → Agent → bool)
    (set : DB → Agent → Agent) : Tx Z := λ s,
  let '(t, n) := update_pk (db_agents s) id (where_ s) (set s) in
  Ok (n, set_agents t s).

Definition TouchAgentHeartbeat (now : Z) (id : string) : Tx Z :=
  update_agent id
    (λ s a, String.eqb (a_Status a) "active"
       && (is_null (a_LastHeartbeatAt a) || sql_le (a_LastHeartbeatAt a) now)
       && match db_pairings s !! id with Some p => String.eqb (p_State p) "paired" | None => false end)
    (λ _ a, a_set_LastHeartbeatAt (Some now) (a_set_UpdatedAt now a)).

Definition SetAgentDraining (draining : Z) (id : string) : Tx Z :=
  update_agent id
    (λ _ a, String.eqb (a_Status a) "active" && negb (Z.eqb (a_Draining a) draining))
    (λ s a, a_set_Draining draining (a_set_UpdatedAt (db_now s) a)).

Definition LockRevocableAgent (id : string) : Tx Z := read (λ s,
  match db_agents s !! id with
  | Some a => count (a_Status a ∈? ["pending"; "active"; "disabled"])
  | None => 0
  end).

(** UPDATE ... RETURNING: no matching row is sql.ErrNoRows. *)
Definition SetAgentStatus (status : string) (id : string) : Tx Agent :=
  n ← update_agent id
    (λ _ a, (a_Status a ∈? ["pending"; "active"; "disabled"])
       && (String.eqb status "revoked"
           || ((a_Status a ∈? ["active"; "disabled"])
               && (String.eqb status "active" || String.eqb status "disabled"))))
    (λ s a, a_set_Status status (a_set_UpdatedAt (db_now s)
       (if String.eqb status "revoked" then a_set_RevokedAt (Some (db_now s)) a else a)));
  guard (Z.eqb n 1) ErrNoRows;;
  GetAgent id.

Definition ClearAgentStagingCapability (id : string) : Tx unit :=
  write (λ s, set_agent_staging (db_agent_staging s ∖ {[id]}) s).
Definition ClearAgentArtifactCapability (id : string) : Tx unit :=
  write (λ s, set_agent_artifact (db_agent_artifact s ∖ {[id]}) s).
Definition ClearAgentResourcePolicy (id : string) : Tx unit :=
  write (λ s, set_agent_policies (delete id (db_agent_policies s)) s).

Definition ListRevocableAgentClaims (agent : string) : Tx (list RemoteDeploymentClaim) := read (λ s,
  snd <$> sort_by (λ p q : Z * RemoteDeploymentClaim, p.1 <=? q.1)
    (select_claims s (λ _ c, String.eqb (c_AgentID c) agent
       && (c_State c ∈? ["waiting"; "claimed"; "started"; "cancel_requested"])))).

Definition RevokeStartedRemoteClaim (now deployment : Z) (agent : string) : Tx Z :=
  update_claim deployment
    (λ _ c, String.eqb (c_AgentID c) agent
       && (c_State c ∈? ["started"; "cancel_requested"]) && not_null (c_StartedAt c))
    (λ _ c, c_set_State "lost" (c_set_Reason (Some "remote_agent_revoked_after_start")
       (c_set_CancelRequestedAt None (c_set_FinishedAt (Some now)
         (c_set_UpdatedAt now (c_set_LogBuffer None c)))))).

Definition RevokeUnstartedRemoteClaim (now deployment : Z) (agent : string) : Tx Z :=
  update_claim deployment
    (λ _ c, String.eqb (c_AgentID c) agent
       && (c_State c ∈? ["waiting"; "claimed"]) && is_null (c_StartedAt c))
    (λ _ c, c_set_State "failed" (c_set_Reason (Some "remote_agent_revoked_before_start")
       (c_set_FinishedAt (Some now) (c_set_UpdatedAt now (c_set_LogBuffer None c))))).

(** UPDATE statements on remote_step_runs: the new table is checked. *)
Definition store_runs (t : gmap (Z * Z * string) RemoteStepRun) : Tx unit :=
  checked (λ s, runs_ok (db_runs s)) (set_runs t).

Definition update_runs (where_ : DB → RemoteStepRun → bool)
    (set : DB → RemoteStepRun → RemoteStepRun) : Tx Z := λ s,
  let '(t, n) := update_where (db_runs s) (where_ s) (set s) in
  (store_runs t;; mret n) s.

Definition RevokeAgentRemoteStepRuns (now : Z) (agent : string) : Tx Z :=
  update_runs
    (λ _ r, String.eqb (r_AgentID r) agent
       && (r_State r ∈? ["waiting"; "claimed"; "started"; "cancel_requested"]))
    (λ _ r, r_set_State (if String.eqb (r_State r) "waiting" then "failed" else "lost")
       (r_set_FinishedAt (Some now) (r_set_UpdatedAt now (r_set_LogBuffer None r)))).

Definition FailDeploymentsWithTerminalRemoteStepRuns (now : Z) : Tx Z :=
  update_deployments
    (λ s d,
       let cleaning := run_in s (d_ID d) (λ r, String.eqb (r_State r) "cleanup_unconfirmed") in
       (String.eqb (d_Status d) "running" || (String.eqb (d_Status d) "failed" && cleaning))
       && is_null (d_AssignedAgentID d)
       && run_in s (d_ID d) (λ r,
            (r_State r ∈? ["failed"; "lost"; "cancel_unconfirmed"; "cleanup_unconfirmed"])
            || (String.eqb (r_State r) "cancelled" && Z.eqb (r_RecoveryCancelled r) 1))
       && negb (run_in s (d_ID d) (λ r,
            r_State r ∈? ["waiting"; "claimed"; "started"; "cancel_requested"])))
    (λ s d, d_set_Status
       (if run_in s (d_ID d) (λ r, String.eqb (r_State r) "cleanup_unconfirmed")
        then "cleanup_unconfirmed" else "failed")
       (d_set_FinishedAt (Some now) d)).
