(* ===== verification/Gate.v ===== *)
(** * Gate: when a release may be deployed to an environment (gate/gate.go)

    A project with a lifecycle deploys a release to a stage only after a real
    success in the stage before it. The functions only read the store. *)
From S2P Require Import Prelude Db Tx StageQueries LifecycleStages QueueQueries DispatchQueries.

Record State := mkState {
  Deployable : bool;
  Reason : string;
  Bypassable : bool }.

Section gate.
Context `{GoFormat}.

(** [env, _ := q.GetEnvironment(...)] with the name it shows. *)
Definition shown_environment (environmentID : Z) : Tx string :=
  env ← attempt (GetEnvironment environmentID);
  mret (match env with
        | Ok (id, env) => if Z.eqb id 0 then "(unknown)" else e_Name env
        | Err _ => "(unknown)"
        end).

Definition evaluateStages (release : Release) (environmentID : Z) (lc : Lifecycle)
    (stages : list LifecycleStage) : Tx State :=
  match list_find (λ l, ls_EnvironmentID l = environmentID) stages with
  | None =>
      envName ← shown_environment environmentID;
      mret (mkState false
        (envName +:+ " is not part of the lifecycle " +:+ quote (lc_Name lc)
         +:+ ". Projects with a lifecycle can only deploy to their lifecycle stages.") false)
  | Some (idx, _) =>
      match idx, stages !! pred idx with
      | S _, Some prev =>
          dep ← attempt (GetLatestSuccessfulDeploymentForReleaseEnv (rel_ID release)
                           (ls_EnvironmentID prev));
          let missing :=
            prevName ← shown_environment (ls_EnvironmentID prev);
            mret (mkState false
              (rel_Version release +:+ " has not been successfully deployed to " +:+ prevName
               +:+ " yet. Tick Force to deploy anyway.") true) in
          match dep with
          | Err ErrNoRows => missing
          | Err e => fail e
          | Ok dep => if Z.eqb (d_ReleaseID dep) 0 then missing
                      else mret (mkState true "" false)
          end
      | _, _ => mret (mkState true "" false)
      end
  end.

Definition Evaluate (project : Project) (release : Release) (environmentID : Z) : Tx State :=
  match prj_LifecycleID project with
  | None => mret (mkState true "" false)
  | Some id =>
      lc ← GetLifecycle id;
      stages ← ListLifecycleStages (lc_ID lc);
      evaluateStages release environmentID lc stages
  end.

(** (blocked, reason) *)
Definition Check_ (project : Project) (release : Release) (environmentID : Z)
    : Tx (bool * string) :=
  state ← attempt (Evaluate project release environmentID);
  mret (match state with
        | Err e => (true, error_text e)
        | Ok state => if negb (Deployable state) then (true, Reason state) else (false, "")
        end).

Definition requiresApprovalStages (stages : list LifecycleStage) (environmentID : Z) : bool :=
  match list_find (λ l, ls_EnvironmentID l = environmentID) stages with
  | Some (_, l) => negb (Z.eqb (ls_RequiresApproval l) 0)
  | None => false
  end.

Definition RequiresApproval (project : Project) (environmentID : Z) : Tx bool :=
  match prj_LifecycleID project with
  | None => mret false
  | Some id => stages ← ListLifecycleStages id; mret (requiresApprovalStages stages environmentID)
  end.

(** (blocked, reason, requiresApproval) *)
Definition CheckAndApproval (project : Project) (release : Release) (environmentID : Z)
    : Tx (bool * string * bool) :=
  match prj_LifecycleID project with
  | None => mret (false, "", false)
  | Some id =>
      lc ← GetLifecycle id;
      stages ← ListLifecycleStages (lc_ID lc);
      state ← evaluateStages release environmentID lc stages;
      mret (if negb (Deployable state) then (true, Reason state, false)
            else (false, "", requiresApprovalStages stages environmentID))
  end.
End gate.
