(* ===== verification/StageTheorems.v ===== *)
(** * StageTheorems: the properties of lifecycle stages and of the gate *)
From S2P Require Import Prelude Db Tx StageQueries LifecycleStages QueueQueries DispatchQueries Gate.

Section reorder.
Implicit Types (s : DB) (L : Z) (ids : list Z).

(** What one transaction of reorderLifecycleStages does with a plan whose
    changes satisfy the precondition of the two passes. *)
Lemma reorder_transaction s L plan changes t' :
  is_Some (db_lifecycles s !! L) → plan (stages_of s L) = Ok changes →
  updateLifecycleStageOrders L (stages_of s L) changes s = Ok (tt, set_stages t' s) →
  reorderLifecycleStages L plan s = (Ok (stages_of (set_stages t' s) L), set_stages t' s).
Proof.
  intros [lc Hlc] Hplan Hup. unfold reorderLifecycleStages, WithTx, LockLifecycle, ListLifecycleStages.
  unfold mbind at 1, tx_bind at 1, read at 1. rewrite Hlc. cbn [guard].
  rewrite (bind_ok (guard _ _) _ s tt s) by done.
  rewrite (bind_ok (read _) _ s (stages_of s L) s) by done. rewrite Hplan.
  by rewrite (bind_ok _ _ _ _ _ Hup).
Qed.

Lemma reorder_refused s L plan e :
  is_Some (db_lifecycles s !! L) → plan (stages_of s L) = Err e →
  reorderLifecycleStages L plan s = (Err e, s).
Proof.
  intros [lc Hlc] Hplan. unfold reorderLifecycleStages, WithTx, LockLifecycle, ListLifecycleStages.
  unfold mbind at 1, tx_bind at 1, read at 1. rewrite Hlc.
  rewrite (bind_ok (guard _ _) _ s tt s) by done.
  rewrite (bind_ok (read _) _ s (stages_of s L) s) by done. by rewrite Hplan.
Qed.

(** The map of ReorderLifecycleStages, [existing]. *)
Lemma existing_lookup s L id :
  stages_wf s →
  (list_to_map ((λ l, (ls_ID l, l)) <$> stages_of s L) : gmap Z LifecycleStage) !! id =
  match db_stages s !! id with
  | Some l => if decide (ls_LifecycleID l = L) then Some l else None
  | None => None
  end.
Proof.
  intros Hwf.
  assert (Hk : ((λ l, (ls_ID l, l)) <$> stages_of s L).*1 = ls_ID <$> stages_of s L)
    by (by rewrite <-list_fmap_compose).
  assert (Hin : ∀ l, (list_to_map ((λ l, (ls_ID l, l)) <$> stages_of s L) : gmap Z LifecycleStage)
    !! id = Some l ↔ db_stages s !! id = Some l ∧ ls_LifecycleID l = L).
  { intros l. rewrite <-elem_of_list_to_map by (rewrite Hk; by apply stages_of_nodup).
    rewrite list_elem_of_fmap. split.
    - intros (x & [= -> ->] & Hx). by apply stages_of_lookup.
    - intros [Hid HL]. exists l. destruct (sg_key _ Hwf id l Hid) as [Hi _]. rewrite Hi.
      split; [done|]. apply elem_of_stages. eauto. }
  destruct (list_to_map _ !! id) as [l|] eqn:E.
  - destruct (proj1 (Hin l) eq_refl) as [-> ->]. by rewrite decide_True.
  - destruct (db_stages s !! id) as [l|] eqn:Hid; [|done]. case_decide; [|done].
    by destruct (proj2 (Hin l)).
Qed.

Lemma same_stages_lifecycle t t' id l' :
  same_stages t t' → t' !! id = Some l' → ∃ l, t !! id = Some l ∧ ls_ID l' = ls_ID l ∧
    ls_LifecycleID l' = ls_LifecycleID l ∧ l' = ls_set_SortOrder (ls_SortOrder l') l.
Proof.
  intros Hs Hid. specialize (Hs id). rewrite Hid in Hs. destruct (t !! id) as [l|]; [|done].
  exists l. split; [done|]. destruct l. by rewrite Hs.
Qed.

Lemma reorder_ids s L ids :
  stages_wf s → length ids = length (stages_of s L) →
  (NoDup ids ∧ ∀ id, id ∈ ids → is_Some ((list_to_map ((λ l, (ls_ID l, l)) <$> stages_of s L)
     : gmap Z LifecycleStage) !! id)) ↔ ids ≡ₚ (ls_ID <$> stages_of s L).
Proof.
  intros Hwf Hlen. assert (Hin : ∀ id, is_Some ((list_to_map ((λ l, (ls_ID l, l)) <$> stages_of s L)
    : gmap Z LifecycleStage) !! id) ↔ id ∈ ls_ID <$> stages_of s L).
  { intros id. rewrite existing_lookup, list_elem_of_fmap by done. split.
    - intros [l Hl]. destruct (db_stages s !! id) as [l0|] eqn:Hid; [|done].
      case_decide; [|done]. exists l0. destruct (sg_key _ Hwf id l0 Hid) as [-> _].
      split; [done|]. apply elem_of_stages. eauto.
    - intros (l & -> & Hl). destruct (stages_of_lookup _ _ _ Hwf Hl) as [-> ->].
      rewrite decide_True by done. eauto. }
  setoid_rewrite Hin. split.
  - intros [Hnd Hsub]. apply submseteq_length_Permutation; [by apply NoDup_submseteq|].
    rewrite length_fmap. lia.
  - intros Hp. split; [rewrite Hp; by apply stages_of_nodup|]. intros id. by rewrite Hp.
Qed.

Lemma positions_sorted (l : list LifecycleStage) a n :
  ls_SortOrder <$> l = seqZ a n → StronglySorted (λ x y, stage_le x y = true) l.
Proof.
  revert a n. induction l as [|x l IH]; intros a n Heq; [constructor|].
  destruct (decide (0 < n)) as [Hn|Hn]; [|by rewrite seqZ_nil in Heq by lia].
  rewrite seqZ_cons in Heq by lia. injection Heq as Hx Hl. constructor; [by eapply IH|].
  apply Forall_forall. intros y Hy.
  assert (Hin : ls_SortOrder y ∈ ls_SortOrder <$> l) by (apply list_elem_of_fmap; eauto).
  fold (fmap (M:=list) ls_SortOrder l) in Hl. rewrite Hl, elem_of_seqZ in Hin.
  unfold stage_le. apply Z.leb_le. lia.
Qed.

(** The plan for a permutation of the stages. *)
Lemma reorder_changes s L ids :
  stages_wf s → ids ≡ₚ (ls_ID <$> stages_of s L) →
  ∃ changes, reorder_plan ids (stages_of s L) = Ok changes ∧ ls_ID <$> changes = ids ∧
    ls_SortOrder <$> changes = seqZ 1 (Z.of_nat (length ids)) ∧
    ∀ st, st ∈ changes → ∃ l, db_stages s !! ls_ID st = Some l ∧ ls_LifecycleID l = L ∧
                              st = ls_set_SortOrder (ls_SortOrder st) l.
Proof.
  intros Hwf Hp. assert (Hlen : length ids = length (stages_of s L)) by by rewrite Hp, length_fmap.
  set (m := list_to_map ((λ l, (ls_ID l, l)) <$> stages_of s L) : gmap Z LifecycleStage).
  assert (Hm : ∀ id l, m !! id = Some l → db_stages s !! id = Some l ∧ ls_LifecycleID l = L ∧ ls_ID l = id).
  { intros id l Hl. unfold m in Hl. rewrite existing_lookup in Hl by done.
    destruct (db_stages s !! id) as [l0|] eqn:Hl0; [|done]. case_decide; simplify_eq.
    destruct (sg_key _ Hwf id l Hl0). done. }
  destruct (proj2 (reorder_ids s L ids Hwf Hlen) Hp) as [Hnd Hall].
  destruct (order_stages_complete m ∅ 0 ids Hnd) as (changes & Hord & Hids & Hpos & Hrows).
  { intros id Hid. split; [set_solver|]. destruct (Hall id Hid) as [l Hl]. exists l.
    split; [done|]. by apply Hm in Hl as (_ & _ & ->). }
  exists changes. split; [unfold reorder_plan; by rewrite Hlen, Nat.eqb_refl|].
  split; [done|]. split; [done|]. intros st Hst. destruct (Hrows st Hst) as (l & Hl & Heq).
  apply Hm in Hl as (Hl & HL & _). eauto.
Qed.

Lemma all_covered s L (changes : list LifecycleStage) id l :
  stages_wf s → ls_ID <$> changes ≡ₚ ls_ID <$> stages_of s L →
  db_stages s !! id = Some l → ls_LifecycleID l = L → id ∈ ls_ID <$> changes.
Proof.
  intros Hwf Hp Hid HL. rewrite Hp, list_elem_of_fmap. exists l.
  destruct (sg_key _ Hwf id l Hid) as [-> _]. split; [done|]. apply elem_of_stages. eauto.
Qed.

(** Rewriting the positions of all the stages leaves exactly the planned rows. *)
Lemma placed_stages s L (changes : list LifecycleStage) t' a n :
  stages_wf s → stages_wf (set_stages t' s) → same_stages (db_stages s) t' →
  ls_ID <$> changes ≡ₚ ls_ID <$> stages_of s L → ls_SortOrder <$> changes = seqZ a n →
  (∀ st, st ∈ changes → ∃ l, db_stages s !! ls_ID st = Some l ∧ ls_LifecycleID l = L ∧
                             st = ls_set_SortOrder (ls_SortOrder st) l) →
  (∀ st, st ∈ changes → ∃ l, t' !! ls_ID st = Some l ∧ ls_SortOrder l = ls_SortOrder st) →
  stages_of (set_stages t' s) L = changes.
Proof.
  intros Hwf Hwf' Hsame Hp Hpos Hrows Hin.
  assert (Hst : ∀ st, st ∈ changes → t' !! ls_ID st = Some st ∧ ls_LifecycleID st = L).
  { intros st Hst. destruct (Hrows st Hst) as (l & Hl & HL & Heq), (Hin st Hst) as (l' & Hl' & Hq).
    specialize (Hsame (ls_ID st)). rewrite Hl, Hl' in Hsame. rewrite Hq in Hsame.
    split; [congruence|]. rewrite Heq. by destruct l. }
  apply stages_of_unique; [done|by eapply positions_sorted| |].
  - apply (NoDup_fmap_1 ls_SortOrder). rewrite Hpos. apply NoDup_seqZ.
  - intros x. rewrite elem_of_stages. split.
    + intros [Hx HL]%Hst. by exists (ls_ID x).
    + intros (id & Hid & HL). cbn in Hid.
      destruct (same_stages_lifecycle _ _ _ _ Hsame Hid) as (l & Hl & Hi & HLl & _).
      assert (Hc : id ∈ ls_ID <$> changes) by (apply (all_covered s L _ _ l); congruence).
      apply list_elem_of_fmap in Hc as (st & -> & Hc). destruct (Hst st Hc). congruence.
Qed.

(** C27: ReorderLifecycleStages accepts exactly the permutations of the
    lifecycle's stages and then numbers them 1, 2, ... in the requested order,
    although positions are UNIQUE after every single UPDATE; nothing but these
    positions changes. Any other request is refused without effect. *)
Theorem reorder_stages s L ids :
  stages_wf s → is_Some (db_lifecycles s !! L) → Z.of_nat (length (stages_of s L)) < 2 ^ 61 →
  (ids ≡ₚ (ls_ID <$> stages_of s L) →
   ∃ l t', ReorderLifecycleStages L ids s = (Ok l, set_stages t' s) ∧
     ls_ID <$> l = ids ∧ ls_SortOrder <$> l = seqZ 1 (Z.of_nat (length ids)) ∧
     l = stages_of (set_stages t' s) L ∧ stages_wf (set_stages t' s) ∧
     same_stages (db_stages s) t' ∧
     ∀ id r, db_stages s !! id = Some r → ls_LifecycleID r ≠ L → t' !! id = Some r) ∧
  (¬ ids ≡ₚ (ls_ID <$> stages_of s L) →
   ∃ e, ReorderLifecycleStages L ids s = (Err e, s) ∧
     (e = ErrLifecycleStageIDsIncomplete ∨ e = ErrLifecycleStageUnknown ∨
      e = ErrLifecycleStageDuplicate)).
Proof.
  intros Hwf Hlc Hsize. split.
  - intros Hp. destruct (reorder_changes s L ids Hwf Hp) as (changes & Hplan & Hids & Hpos & Hrows).
    rewrite <-Hids in Hp.
    destruct (update_orders_spec L s changes Hwf) as (t' & Hup & Hwf' & Hsame & Hout & Hin).
    + rewrite Hp. by apply stages_of_nodup.
    + rewrite Hpos. apply NoDup_seqZ.
    + intros st (l & Hl & HL & _)%Hrows. eauto.
    + intros st Hst. left.
      assert (Hq : ls_SortOrder st ∈ ls_SortOrder <$> changes) by (apply list_elem_of_fmap; eauto).
      rewrite Hpos, elem_of_seqZ in Hq. lia.
    + intros st id l _ Hid HL _. by apply (all_covered s L _ _ l).
    + apply Permutation_length in Hp. rewrite !length_fmap in Hp. lia.
    + pose proof (placed_stages s L changes t' 1 _ Hwf Hwf' Hsame Hp Hpos Hrows Hin) as Hres.
      exists changes, t'. split; [|do 5 (split; [done|])].
      * unfold ReorderLifecycleStages. by erewrite reorder_transaction, Hres by done.
      * intros id r Hid HL. rewrite Hout; [done|]. rewrite Hp, list_elem_of_fmap.
        intros (l & -> & [Hl HLl]%stages_of_lookup); [congruence|done].
  - intros Hp. destruct (reorder_plan ids (stages_of s L)) as [changes|e] eqn:Hplan.
    + exfalso. apply Hp. unfold reorder_plan in Hplan.
      destruct (Nat.eqb_spec (length ids) (length (stages_of s L))) as [Hlen|]; [|done].
      apply (reorder_ids s L ids Hwf Hlen). cbn [negb] in Hplan.
      pose proof (order_stages_sound (list_to_map ((λ l, (ls_ID l, l)) <$> stages_of s L)) ∅ 0 ids) as Hs.
      rewrite Hplan in Hs. destruct Hs as [Hnd Hs]. split; [done|]. intros id Hid. by apply Hs.
    + exists e. split; [unfold ReorderLifecycleStages; by apply reorder_refused|].
      unfold reorder_plan in Hplan. case_match; [left; congruence|].
      pose proof (order_stages_sound (list_to_map ((λ l, (ls_ID l, l)) <$> stages_of s L)) ∅ 0 ids) as Hs.
      rewrite Hplan in Hs. by right.
Qed.
End reorder.

Section move.
Implicit Types (s : DB) (L : Z).

Lemma sorted_transfer (l l' : list LifecycleStage) :
  ls_SortOrder <$> l' = ls_SortOrder <$> l →
  StronglySorted (λ x y, stage_le x y = true) l → StronglySorted (λ x y, stage_le x y = true) l'.
Proof.
  revert l. induction l' as [|x' l' IH]; intros [|x l] Heq Hs; try done.
  injection Heq as Hx Hl. change (ls_SortOrder <$> l' = ls_SortOrder <$> l) in Hl.
  apply StronglySorted_inv in Hs as [Hs Hall].
  constructor; [by eapply IH|]. apply Forall_forall. intros y Hy. unfold stage_le. rewrite Hx.
  assert (Hin : ls_SortOrder y ∈ ls_SortOrder <$> l) by (rewrite <-Hl; apply list_elem_of_fmap; eauto).
  apply list_elem_of_fmap in Hin as (z & -> & Hz). rewrite Forall_forall in Hall. by apply Hall.
Qed.

Lemma stages_of_sorted s L : StronglySorted (λ x y, stage_le x y = true) (stages_of s L).
Proof. apply sort_by_sorted; unfold stage_le; intros; lia. Qed.

(** The order after an exchange: [x] and [y] keep the other's position. *)
Definition swapped (l : list LifecycleStage) (i j : nat) (x y : LifecycleStage)
    : list LifecycleStage :=
  <[j := ls_set_SortOrder (ls_SortOrder y) x]> (<[i := ls_set_SortOrder (ls_SortOrder x) y]> l).

Lemma swapped_orders l i j x y :
  l !! i = Some x → l !! j = Some y → ls_SortOrder <$> swapped l i j x y = ls_SortOrder <$> l.
Proof.
  intros Hi Hj. unfold swapped. rewrite !list_fmap_insert.
  replace (ls_SortOrder (ls_set_SortOrder _ y)) with (ls_SortOrder x) by by destruct y.
  replace (ls_SortOrder (ls_set_SortOrder _ x)) with (ls_SortOrder y) by by destruct x.
  rewrite (list_insert_id _ i) by by rewrite list_lookup_fmap, Hi.
  by rewrite (list_insert_id _ j) by by rewrite list_lookup_fmap, Hj.
Qed.

Lemma elem_of_swapped l i j x y z :
  l !! i = Some x → l !! j = Some y → i ≠ j → NoDup (ls_ID <$> l) →
  z ∈ swapped l i j x y ↔
  z = ls_set_SortOrder (ls_SortOrder y) x ∨ z = ls_set_SortOrder (ls_SortOrder x) y ∨
  (z ∈ l ∧ ls_ID z ≠ ls_ID x ∧ ls_ID z ≠ ls_ID y).
Proof.
  intros Hi Hj Hne Hnd. assert (Hli : (i < length l)%nat) by by eapply lookup_lt_Some.
  assert (Hlj : (j < length l)%nat) by by eapply lookup_lt_Some.
  assert (Hid : ∀ k1 k2 a b, l !! k1 = Some a → l !! k2 = Some b → ls_ID a = ls_ID b → k1 = k2).
  { intros k1 k2 a b H1 H2 Heq. eapply (proj1 (NoDup_alt _) Hnd);
      rewrite list_lookup_fmap; [by rewrite H1|]. rewrite H2. cbn. by rewrite Heq. }
  rewrite !list_elem_of_lookup. unfold swapped. split.
  - intros [k Hk]. destruct (decide (k = j)) as [->|Hkj].
    { rewrite list_lookup_insert_eq in Hk by (by rewrite length_insert). left. congruence. }
    rewrite list_lookup_insert_ne in Hk by done. destruct (decide (k = i)) as [->|Hki].
    { rewrite list_lookup_insert_eq in Hk by done. right. left. congruence. }
    rewrite list_lookup_insert_ne in Hk by done. right. right. split; [eauto|].
    split; intros Heq; [apply Hki; by eapply Hid|apply Hkj; by eapply Hid].
  - intros [->|[->|([k Hk] & Hx & Hy)]].
    + exists j. by rewrite list_lookup_insert_eq by (by rewrite length_insert).
    + exists i. rewrite list_lookup_insert_ne by done. by rewrite list_lookup_insert_eq.
    + exists k. assert (k ≠ i) by (intros ->; congruence). assert (k ≠ j) by (intros ->; congruence).
      by rewrite !list_lookup_insert_ne.
Qed.

Lemma exchange_rows s L i j x y :
  stages_wf s → Z.of_nat (length (stages_of s L)) < 2 ^ 61 →
  stages_of s L !! i = Some x → stages_of s L !! j = Some y → i ≠ j →
  let changes := [ls_set_SortOrder (ls_SortOrder y) x; ls_set_SortOrder (ls_SortOrder x) y] in
  ∃ t', updateLifecycleStageOrders L (stages_of s L) changes s = Ok (tt, set_stages t' s) ∧
    stages_wf (set_stages t' s) ∧ same_stages (db_stages s) t' ∧
    t' !! ls_ID x = Some (ls_set_SortOrder (ls_SortOrder y) x) ∧
    t' !! ls_ID y = Some (ls_set_SortOrder (ls_SortOrder x) y) ∧
    ∀ id, id ≠ ls_ID x → id ≠ ls_ID y → t' !! id = db_stages s !! id.
Proof.
  intros Hwf Hsize Hi Hj Hne changes.
  destruct (stages_of_lookup s L x Hwf) as [Hx HLx]; [by eapply list_elem_of_lookup_2|].
  destruct (stages_of_lookup s L y Hwf) as [Hy HLy]; [by eapply list_elem_of_lookup_2|].
  assert (Hxy : ls_ID x ≠ ls_ID y).
  { intros Heq. apply Hne. eapply (proj1 (NoDup_alt _) (stages_of_nodup s L Hwf));
      rewrite list_lookup_fmap; [by rewrite Hi|]. rewrite Hj. cbn. by rewrite Heq. }
  assert (Hp : ls_SortOrder x ≠ ls_SortOrder y).
  { intros Heq. apply Hxy. apply (proj1 (stages_ok_true _) (sg_ok _ Hwf) _ _ x y Hx Hy); [congruence|by left]. }
  assert (Hids : ls_ID <$> changes = [ls_ID x; ls_ID y]) by by destruct x, y.
  assert (Hpos : ls_SortOrder <$> changes = [ls_SortOrder y; ls_SortOrder x]) by by destruct x, y.
  destruct (update_orders_spec L s changes Hwf) as (t' & Hup & Hwf' & Hsame & Hout & Hin).
  - rewrite Hids. repeat constructor; set_solver.
  - rewrite Hpos. repeat constructor; set_solver.
  - intros st [->|[->|[]%elem_of_nil]%elem_of_cons]%elem_of_cons; [exists x|exists y]; by destruct x, y.
  - intros st [->|[->|[]%elem_of_nil]%elem_of_cons]%elem_of_cons; right;
      [exists (ls_ID y), y|exists (ls_ID x), x]; by destruct x, y.
  - intros st id l Hst Hid HL Hq. rewrite Hids, !elem_of_cons.
    assert (Hst' : ls_SortOrder st ∈ ls_SortOrder <$> changes) by (apply list_elem_of_fmap; eauto).
    rewrite Hpos, !elem_of_cons, elem_of_nil, <-Hq in Hst'.
    destruct Hst' as [Hq'|[Hq'|[]]]; [right; left|left];
      (eapply (proj1 (stages_ok_true _) (sg_ok _ Hwf)); [done..|congruence|by left]).
  - cbn [length]. unfold changes. cbn [length]. lia.
  - exists t'. do 3 (split; [done|]).
    pose proof (Hsame (ls_ID x)) as Sx. pose proof (Hsame (ls_ID y)) as Sy. rewrite Hx in Sx. rewrite Hy in Sy.
    destruct (Hin (ls_set_SortOrder (ls_SortOrder y) x)) as (l & Hl & Hlp); [by left|].
    destruct (Hin (ls_set_SortOrder (ls_SortOrder x) y)) as (l' & Hl' & Hlp'); [by right; left|].
    replace (ls_ID (ls_set_SortOrder _ x)) with (ls_ID x) in Hl by by destruct x.
    replace (ls_ID (ls_set_SortOrder _ y)) with (ls_ID y) in Hl' by by destruct y.
    rewrite Hl in Sx |- *. rewrite Hl' in Sy |- *. rewrite Sx, Hlp, Sy, Hlp'.
    split; [by destruct x, y|]. split; [by destruct x, y|].
    intros id H1 H2. apply Hout. rewrite Hids. set_solver.
Qed.

Lemma exchange_stages s L i j x y :
  stages_wf s → Z.of_nat (length (stages_of s L)) < 2 ^ 61 →
  stages_of s L !! i = Some x → stages_of s L !! j = Some y → i ≠ j →
  let changes := [ls_set_SortOrder (ls_SortOrder y) x; ls_set_SortOrder (ls_SortOrder x) y] in
  ∃ t', updateLifecycleStageOrders L (stages_of s L) changes s = Ok (tt, set_stages t' s) ∧
    stages_wf (set_stages t' s) ∧ same_stages (db_stages s) t' ∧
    stages_of (set_stages t' s) L = swapped (stages_of s L) i j x y ∧
    ∀ id r, db_stages s !! id = Some r → ls_LifecycleID r ≠ L → t' !! id = Some r.
Proof.
  intros Hwf Hsize Hi Hj Hne changes.
  destruct (stages_of_lookup s L x Hwf) as [Hx HLx]; [by eapply list_elem_of_lookup_2|].
  destruct (stages_of_lookup s L y Hwf) as [Hy HLy]; [by eapply list_elem_of_lookup_2|].
  destruct (exchange_rows s L i j x y) as (t' & Hup & Hwf' & Hsame & Hnx & Hny & Hrest); [done..|].
  exists t'. do 3 (split; [done|]). split.
  - apply stages_of_unique; [done|eapply sorted_transfer;
      [by apply swapped_orders|apply stages_of_sorted]| |].
    + apply (NoDup_fmap_1 ls_SortOrder). rewrite swapped_orders by done. by apply stages_of_orders_nodup.
    + intros z. rewrite elem_of_swapped by (done || by apply stages_of_nodup).
      rewrite !elem_of_stages. cbn. split.
      * intros [->|[->|([id [Hz HLz]] & Hzx & Hzy)]].
        -- exists (ls_ID x). split; [done|by destruct x].
        -- exists (ls_ID y). split; [done|by destruct y].
        -- destruct (sg_key _ Hwf id z Hz) as [<- _]. exists (ls_ID z). by rewrite Hrest.
      * intros (id & Hz & HLz). destruct (decide (id = ls_ID x)) as [->|Hzx]; [left; congruence|].
        destruct (decide (id = ls_ID y)) as [->|Hzy]; [right; left; congruence|].
        right. right. rewrite Hrest in Hz by done. destruct (sg_key _ Hwf id z Hz) as [-> _].
        split; [by exists id|done].
  - intros id r Hid HL. rewrite Hrest; [done|intros ->; congruence..].
Qed.

(** MoveLifecycleStage on every branch: an unknown stage is refused, the
    first stage cannot move up nor the last one down (nothing changes), and
    otherwise the stage and its neighbour exchange their places in the list and
    no other stage of any lifecycle changes. *)
Theorem move_stage s L id (moveUp : bool) :
  stages_wf s → is_Some (db_lifecycles s !! L) → Z.of_nat (length (stages_of s L)) < 2 ^ 61 →
  match list_find (λ l : LifecycleStage, ls_ID l = id) (stages_of s L) with
  | None => MoveLifecycleStage L id moveUp s = (Err ErrNoRows, s)
  | Some (i, x) =>
      let j := if moveUp then pred i else S i in
      match stages_of s L !! j with
      | None => MoveLifecycleStage L id moveUp s = (Ok tt, s)
      | Some y =>
          if moveUp && Nat.eqb i 0 then MoveLifecycleStage L id moveUp s = (Ok tt, s)
          else ∃ t', MoveLifecycleStage L id moveUp s = (Ok tt, set_stages t' s) ∧
                 stages_wf (set_stages t' s) ∧ same_stages (db_stages s) t' ∧
                 stages_of (set_stages t' s) L = swapped (stages_of s L) i j x y ∧
                 ∀ id' r, db_stages s !! id' = Some r → ls_LifecycleID r ≠ L → t' !! id' = Some r
      end
  end.
Proof.
  intros Hwf Hlc Hsize. unfold MoveLifecycleStage.
  destruct (list_find (λ l : LifecycleStage, ls_ID l = id) (stages_of s L)) as [[i x]|] eqn:Hfind;
    [|rewrite (reorder_refused s L _ ErrNoRows Hlc); [done|unfold move_plan; by rewrite Hfind]].
  pose proof Hfind as Hfind'. apply list_find_Some in Hfind' as (Hi & _ & _).
  assert (Hnone : move_plan id moveUp (stages_of s L) = Ok [] →
    reorderLifecycleStages L (move_plan id moveUp) s = (Ok (stages_of s L), s)).
  { intros Hplan. rewrite (reorder_transaction s L _ [] (db_stages s) Hlc Hplan); by destruct s. }
  assert (Hplan : move_plan id moveUp (stages_of s L) =
    match stages_of s L !! (if moveUp then pred i else S i) with
    | None => Ok []
    | Some y => if moveUp && Nat.eqb i 0 then Ok []
                else Ok [ls_set_SortOrder (ls_SortOrder y) x; ls_set_SortOrder (ls_SortOrder x) y]
    end).
  { unfold move_plan. rewrite Hfind. apply lookup_lt_Some in Hi. destruct moveUp; cbn [andb].
    - destruct i as [|i]; cbn [pred Nat.eqb].
      + rewrite bool_decide_true by lia. by destruct (stages_of s L !! 0%nat).
      + rewrite bool_decide_false by lia. rewrite bool_decide_false by lia.
        by replace (Z.to_nat (Z.of_nat (S i) - 1)) with i by lia.
    - rewrite bool_decide_false by lia. replace (Z.to_nat (Z.of_nat i + 1)) with (S i) by lia.
      destruct (stages_of s L !! S i) as [y|] eqn:Hy; [|by rewrite orb_false_l; case_match].
      apply lookup_lt_Some in Hy. rewrite bool_decide_false by lia. done. }
  cbn zeta. destruct (stages_of s L !! (if moveUp then pred i else S i)) as [y|] eqn:Hj;
    [|by rewrite Hnone by by rewrite Hplan].
  destruct (moveUp && Nat.eqb i 0) eqn:Hfirst; [by rewrite Hnone by by rewrite Hplan|].
  destruct (exchange_stages s L i (if moveUp then pred i else S i) x y) as (t' & Hup & Hrest); [done..| |].
  { destruct moveUp; [|lia]. apply Nat.eqb_neq in Hfirst. lia. }
  exists t'. split; [|exact Hrest]. by rewrite (reorder_transaction s L _ _ t' Hlc Hplan Hup).
Qed.
End move.

Section create.
Implicit Types (s : DB) (stages : list LifecycleStage).

(** A request collides with an existing stage: same environment, requested
    position taken, or nothing left to append to. *)
Definition collides (params : CreateLifecycleStageParams) (l : LifecycleStage) : bool :=
  Z.eqb (ls_EnvironmentID l) (sp_EnvironmentID params)
  || (if bool_decide (0 < sp_SortOrder params)
      then Z.eqb (ls_SortOrder l) (sp_SortOrder params) else Z.eqb (ls_SortOrder l) MaxInt64).

Lemma stage_position_spec params next stages :
  1 ≤ next ≤ MaxInt64 → (∀ l, l ∈ stages → ls_SortOrder l ≤ MaxInt64) →
  if existsb (collides params) stages then
    stage_position params next stages = Err ErrLifecycleEnvironmentExists ∨
    stage_position params next stages = Err ErrLifecycleSortOrderConflict
  else ∃ p, stage_position params next stages = Ok p ∧
    if bool_decide (0 < sp_SortOrder params) then p = sp_SortOrder params
    else next ≤ p ≤ MaxInt64 ∧ ∀ l, l ∈ stages → ls_SortOrder l < p.
Proof.
  intros Hnext. revert next Hnext. induction stages as [|l stages IH]; intros next Hnext Hmax.
  { eexists. split; [done|]. cbn. case_bool_decide; [done|]. split; [lia|].
    intros l Hl. by apply elem_of_nil in Hl. }
  assert (Hl : ls_SortOrder l ≤ MaxInt64) by (apply Hmax; left).
  assert (Hrest : ∀ l', l' ∈ stages → ls_SortOrder l' ≤ MaxInt64) by (intros l' Hl'; apply Hmax; by right).
  cbn [existsb stage_position]. unfold collides at 1.
  destruct (Z.eqb (ls_EnvironmentID l) (sp_EnvironmentID params)); [by left|]. cbn [orb].
  destruct (bool_decide_reflect (0 < sp_SortOrder params)) as [Hpos|Hpos]; cbn [andb].
  - destruct (Z.eqb (ls_SortOrder l) (sp_SortOrder params)); [by right|].
    rewrite bool_decide_false by lia. cbn [andb orb].
    specialize (IH next Hnext Hrest). by destruct (existsb _ _).
  - rewrite bool_decide_true by lia. cbn [andb].
    destruct (Z.eqb_spec (ls_SortOrder l) MaxInt64) as [Heq|Heq]; cbn [orb].
    { rewrite bool_decide_true by lia. by right. }
    destruct (bool_decide_reflect (next ≤ ls_SortOrder l)) as [Hle|Hle].
    + specialize (IH (ls_SortOrder l + 1)). destruct (existsb _ _); [apply IH; [lia|done]|].
      destruct IH as (p & Hp & Hb & Hall); [lia|done|]. exists p. split; [done|]. split; [lia|].
      intros l' [->|Hl']%elem_of_cons; [lia|by apply Hall].
    + specialize (IH next Hnext Hrest). destruct (existsb _ _); [done|].
      destruct IH as (p & Hp & Hb & Hall). exists p. split; [done|]. split; [lia|].
      intros l' [->|Hl']%elem_of_cons; [lia|by apply Hall].
Qed.

Lemma insert_stage_ok (t : gmap Z LifecycleStage) id row :
  stages_ok t = true →
  (∀ k r, t !! k = Some r → ls_LifecycleID r = ls_LifecycleID row →
     ¬ (ls_SortOrder r = ls_SortOrder row ∨ ls_EnvironmentID r = ls_EnvironmentID row)) →
  stages_ok (<[id := row]> t) = true.
Proof.
  rewrite !stages_ok_true. intros Hu Hno k1 k2 r1 r2. rewrite !lookup_insert.
  repeat case_decide; simplify_eq; try done; [| |by apply Hu].
  - intros [= <-] H2 HL Hor. destruct (Hno k2 r2 H2); [done|]. naive_solver.
  - intros H1 [= <-] HL Hor. destruct (Hno k1 r1 H1); [done|]. naive_solver.
Qed.

Lemma create_position s params :
  is_Some (db_lifecycles s !! sp_LifecycleID params) →
  CreateLifecycleStage params s =
  match lifecycleStagePosition params (stages_of s (sp_LifecycleID params)) with
  | Err e => (Err e, s)
  | Ok p => WithTx (StageQueries.CreateLifecycleStage (with_position params p)) s
  end.
Proof.
  intros [lc Hlc]. unfold CreateLifecycleStage, WithTx, LockLifecycle, ListLifecycleStages.
  unfold mbind at 1, tx_bind at 1, read at 1. rewrite Hlc. cbn [Z.eqb].
  rewrite (bind_ok (read _) _ s (stages_of s (sp_LifecycleID params)) s) by done.
  by destruct (lifecycleStagePosition _ _).
Qed.

(** CreateLifecycleStage refuses a second stage for an environment, an
    occupied position, and an append behind the largest int64, each without
    effect; otherwise it inserts one stage, at the requested position or, for a
    position that is not positive, behind every other stage of the lifecycle,
    and never runs into a UNIQUE constraint. *)
Theorem create_stage s params :
  stages_wf s → is_Some (db_lifecycles s !! sp_LifecycleID params) →
  is_Some (db_environments s !! sp_EnvironmentID params) →
  (∀ id l, db_stages s !! id = Some l → ls_SortOrder l ≤ MaxInt64) →
  if existsb (collides params) (stages_of s (sp_LifecycleID params)) then
    CreateLifecycleStage params s = (Err ErrLifecycleEnvironmentExists, s) ∨
    CreateLifecycleStage params s = (Err ErrLifecycleSortOrderConflict, s)
  else ∃ row s', CreateLifecycleStage params s = (Ok row, s') ∧ stages_wf s' ∧
    s' = set_stage_seq (ls_ID row) (set_stages (<[ls_ID row := row]> (db_stages s)) s) ∧
    db_stages s !! ls_ID row = None ∧
    ls_LifecycleID row = sp_LifecycleID params ∧ ls_EnvironmentID row = sp_EnvironmentID params ∧
    ls_RequiresApproval row = sp_RequiresApproval params ∧
    if bool_decide (0 < sp_SortOrder params) then ls_SortOrder row = sp_SortOrder params
    else ∀ l, l ∈ stages_of s (sp_LifecycleID params) → ls_SortOrder l < ls_SortOrder row.
Proof.
  intros Hwf [lc Hlc] [env Henv] Hmax. set (L := sp_LifecycleID params).
  pose proof (stage_position_spec params 1 (stages_of s L)) as Hpos.
  assert (Hb : 1 ≤ 1 ≤ MaxInt64) by by unfold MaxInt64. specialize (Hpos Hb).
  assert (Hall : ∀ l, l ∈ stages_of s L → ls_SortOrder l ≤ MaxInt64)
    by (intros l (id & Hid & _)%elem_of_stages; eauto).
  specialize (Hpos Hall). rewrite (create_position s params) by by rewrite Hlc. fold L.
  unfold lifecycleStagePosition. destruct (existsb _ _) eqn:Hcol.
  { destruct Hpos as [->| ->]; [by left|by right]. }
  destruct Hpos as (p & -> & Hp).
  assert (Hfree : db_stages s !! (db_stage_seq s + 1) = None).
  { destruct (db_stages s !! _) as [l|] eqn:Hid; [|done]. apply (sg_key _ Hwf) in Hid. lia. }
  unfold WithTx, StageQueries.CreateLifecycleStage. cbn [with_position sp_LifecycleID sp_EnvironmentID].
  rewrite !bool_decide_true by eauto. cbn [andb]. set (row := mkStage _ _ _ _ _).
  assert (Hok : stages_ok (<[db_stage_seq s + 1 := row]> (db_stages s)) = true).
  { apply insert_stage_ok; [apply Hwf|]. intros k r Hk HL Hor.
    assert (Hin : r ∈ stages_of s L) by (apply elem_of_stages; eauto).
    assert (Hc : collides params r = false).
    { apply not_true_iff_false. intros Ht. rewrite <-not_true_iff_false, existsb_exists in Hcol.
      apply Hcol. exists r. split; [by apply list_elem_of_In|done]. }
    unfold collides in Hc. apply orb_false_iff in Hc as [Hc1%Z.eqb_neq Hc2]. destruct Hor as [Hor|Hor]; [|done].
    cbn in Hor. case_bool_decide; [apply Z.eqb_neq in Hc2; congruence|].
    destruct Hp as [_ Hlt]. specialize (Hlt r Hin). lia. }
  rewrite Hok. eexists row, _. split; [done|]. split; [|do 5 (split; [done|])].
  - constructor; [|exact Hok]. cbn. intros id l Hid.
    destruct (decide (db_stage_seq s + 1 = id)) as [<-|Hne].
    + rewrite lookup_insert_eq in Hid. assert (l = row) as -> by congruence. cbn. lia.
    + rewrite lookup_insert_ne in Hid by done. apply (sg_key _ Hwf) in Hid. lia.
  - case_bool_decide; [done|by destruct Hp].
Qed.
End create.

Section gate_decisions.
Context `{GoFormat}.
Implicit Types (s : DB) (release : Release) (env : Z).

Definition succeeded_in (s : DB) (release env : Z) : Prop :=
  ∃ id d, db_deployments s !! id = Some d ∧ d_ReleaseID d = release ∧ d_EnvironmentID d = env ∧
    effective_success s d = true.

Lemma latest_success s (release env : Z) :
  match GetLatestSuccessfulDeploymentForReleaseEnv release env s with
  | Ok (d, s') => s' = s ∧ d_ReleaseID d = release ∧ succeeded_in s release env
  | Err e => e = ErrNoRows ∧ ¬ succeeded_in s release env
  end.
Proof.
  unfold GetLatestSuccessfulDeploymentForReleaseEnv.
  set (l := filter _ _). assert (Hin : ∀ d, d ∈ l ↔ ∃ id, db_deployments s !! id = Some d ∧
    d_ReleaseID d = release ∧ d_EnvironmentID d = env ∧ effective_success s d = true).
  { intros d. unfold l. rewrite list_elem_of_filter, list_elem_of_fmap, !andb_true_iff, !Z.eqb_eq.
    split.
    - intros [[[Hr He] Hs] ([id d'] & -> & Hd%elem_of_map_to_list)]. eauto.
    - intros (id & Hd & Hr & He & Hs). split; [done|]. exists (id, d). by rewrite elem_of_map_to_list. }
  destruct (sort_by latest_le l) as [|d rest] eqn:Hsort.
  - split; [done|]. intros (id & d & Hd). assert (Hd' : d ∈ sort_by latest_le l)
      by (apply elem_of_sort_by, Hin; by exists id). rewrite Hsort in Hd'. by apply elem_of_nil in Hd'.
  - assert (Hd : d ∈ sort_by latest_le l) by (rewrite Hsort; left).
    apply elem_of_sort_by, Hin in Hd as (id & Hd). split; [done|]. split; [by apply Hd|by exists id, d].
Qed.

Lemma shown_environment_reads s env : ∃ name, shown_environment env s = Ok (name, s).
Proof.
  unfold shown_environment, attempt, mbind, tx_bind, GetEnvironment.
  destruct (db_environments s !! env); eexists; reflexivity.
Qed.

Lemma evaluate_stages_spec s release env lc stages :
  rel_ID release ≠ 0 →
  ∃ st, evaluateStages release env lc stages s = Ok (st, s) ∧
    match list_find (λ l, ls_EnvironmentID l = env) stages with
    | None => Deployable st = false ∧ Bypassable st = false
    | Some (O, _) => Deployable st = true
    | Some (S i, _) => ∃ prev, stages !! i = Some prev ∧
        (Deployable st = true ↔ succeeded_in s (rel_ID release) (ls_EnvironmentID prev)) ∧
        (Deployable st = false → Bypassable st = true)
    end.
Proof.
  intros Hrel. unfold evaluateStages.
  destruct (list_find _ stages) as [[[|i] l]|] eqn:Hfind.
  - by eexists.
  - apply list_find_Some in Hfind as (Hl & _ & _). apply lookup_lt_Some in Hl. cbn [pred].
    destruct (lookup_lt_is_Some_2 stages i) as [prev Hprev]; [lia|]. rewrite Hprev.
    pose proof (latest_success s (rel_ID release) (ls_EnvironmentID prev)) as Hlatest.
    destruct (shown_environment_reads s (ls_EnvironmentID prev)) as [name Hname].
    unfold mbind at 1, tx_bind at 1, attempt.
    destruct (GetLatestSuccessfulDeploymentForReleaseEnv _ _ s) as [[d s']|e].
    + destruct Hlatest as (-> & Hd & Hs). rewrite Hd. rewrite (proj2 (Z.eqb_neq _ _) Hrel).
      eexists. split; [done|]. exists prev. by split.
    + destruct Hlatest as [-> Hs]. unfold mbind, tx_bind. rewrite Hname. eexists. split; [done|].
      exists prev. split; [done|]. split; [split; [done|by intros ?]|done].
  - destruct (shown_environment_reads s env) as [name Hname].
    unfold mbind, tx_bind. rewrite Hname. by eexists.
Qed.

Lemma evaluate_stages_readonly s release env lc stages st s' :
  evaluateStages release env lc stages s = Ok (st, s') → s' = s.
Proof.
  unfold evaluateStages. destruct (list_find _ _) as [[i l]|].
  - destruct i as [|i]; [by intros [= _ ->]|]. destruct (stages !! pred (S i)) as [prev|]; [|by intros [= _ ->]].
    unfold mbind at 1, tx_bind at 1, attempt.
    destruct (shown_environment_reads s (ls_EnvironmentID prev)) as [name Hname].
    pose proof (latest_success s (rel_ID release) (ls_EnvironmentID prev)) as Hl.
    destruct (GetLatestSuccessfulDeploymentForReleaseEnv _ _ s) as [[d s1]|e].
    + destruct Hl as (-> & _). destruct (Z.eqb _ _); [|by intros [= _ ->]].
      unfold mbind, tx_bind. rewrite Hname. by intros [= _ ->].
    + destruct Hl as (-> & _). unfold mbind, tx_bind. rewrite Hname. by intros [= _ ->].
  - destruct (shown_environment_reads s env) as [name Hname].
    unfold mbind, tx_bind. rewrite Hname. by intros [= _ ->].
Qed.

(** C28: the gate of a project with a lifecycle: an environment outside the
    lifecycle is refused for good, the first stage is always open, and a later
    stage is open exactly when the release has succeeded, not merely in check
    mode, in the stage before it; otherwise the user may force it. The store is
    not changed. *)
Theorem gate_decision s project release env id lc :
  prj_LifecycleID project = Some id → db_lifecycles s !! id = Some lc → lc_ID lc = id →
  rel_ID release ≠ 0 →
  ∃ st, Evaluate project release env s = Ok (st, s) ∧
    match list_find (λ l, ls_EnvironmentID l = env) (stages_of s id) with
    | None => Deployable st = false ∧ Bypassable st = false
    | Some (O, _) => Deployable st = true
    | Some (S i, _) => ∃ prev, stages_of s id !! i = Some prev ∧
        (Deployable st = true ↔ succeeded_in s (rel_ID release) (ls_EnvironmentID prev)) ∧
        (Deployable st = false → Bypassable st = true)
    end.
Proof.
  intros Hp Hlc Hid Hrel. destruct (evaluate_stages_spec s release env lc (stages_of s id) Hrel)
    as (st & Hst & Hcase). exists st. split; [|exact Hcase].
  unfold Evaluate. rewrite Hp. rewrite (bind_ok (GetLifecycle id) _ s lc s)
    by by (unfold GetLifecycle; rewrite Hlc).
  rewrite (bind_ok (ListLifecycleStages _) _ s (stages_of s id) s); [done|]. by rewrite Hid.
Qed.

(** The combined query of the scheduler and of deployment creation agrees
    with the two separate ones: it blocks exactly when Check blocks, with the
    same reason, and asks for approval exactly when RequiresApproval does; an
    error of it is a block for Check. *)
Theorem check_and_approval_agrees s project release env :
  (∀ id lc, db_lifecycles s !! id = Some lc → lc_ID lc = id) →
  match CheckAndApproval project release env s with
  | Ok (blocked, reason, approval, s') =>
      s' = s ∧ Check_ project release env s = Ok ((blocked, reason), s) ∧
      (if blocked then approval = false else RequiresApproval project env s = Ok (approval, s))
  | Err e => Check_ project release env s = Ok ((true, error_text e), s)
  end.
Proof.
  intros Hkeys. unfold CheckAndApproval, Check_, RequiresApproval, Evaluate.
  destruct (prj_LifecycleID project) as [id|]; [|done].
  unfold attempt, mbind, tx_bind, GetLifecycle, ListLifecycleStages, read.
  destruct (db_lifecycles s !! id) as [lc|] eqn:Hlc; [|done]. rewrite (Hkeys id lc Hlc).
  destruct (evaluateStages release env lc (stages_of s id) s) as [[st s']|e] eqn:Hst; [|done].
  apply evaluate_stages_readonly in Hst as ->.
  cbn. destruct (Deployable st); done.
Qed.
End gate_decisions.

(** ** Promotion through a lifecycle *)
Section promotion.
Context `{GoFormat} (project : Project) (release : Release).
Implicit Types (s : DB).

(** Unforced deployments of one release: they are created when the gate is
    open and end later, in any status. *)
Inductive promotion : DB → DB → Prop :=
  | promotion_create s d st :
      Evaluate project release (d_EnvironmentID d) s = Ok (st, s) → Deployable st = true →
      d_ReleaseID d = rel_ID release → d_Status d ≠ "succeeded" →
      db_deployments s !! d_ID d = None →
      promotion s (set_deployments (<[d_ID d := d]> (db_deployments s)) s)
  | promotion_status s id d status :
      db_deployments s !! id = Some d → d_Status d ≠ "succeeded" →
      promotion s (set_deployments (<[id := d_set_Status status d]> (db_deployments s)) s).

Lemma promotion_success s s' rel env :
  promotion s s' → succeeded_in s rel env → succeeded_in s' rel env.
Proof.
  intros Hp (i & d & Hd & Hr & He & Hs). exists i, d.
  assert (Hsucc : d_Status d = "succeeded").
  { unfold effective_success in Hs. rewrite !andb_true_iff, String.eqb_eq in Hs. tauto. }
  destruct Hp as [s d' st _ _ _ _ Hnew|s j d' status Hd' Hne]; (split; [|done]); cbn;
    rewrite lookup_insert_ne; try done; intros Heq; subst; congruence.
Qed.

Lemma promotion_tables s s' :
  promotion s s' → db_stages s' = db_stages s ∧ db_lifecycles s' = db_lifecycles s.
Proof. by intros []. Qed.

(** Every deployment of the release behind the first stage has a success in
    the stage before it. *)
Definition promoted (s : DB) (L : Z) : Prop :=
  ∀ id d i l prev, db_deployments s !! id = Some d → d_ReleaseID d = rel_ID release →
    list_find (λ l, ls_EnvironmentID l = d_EnvironmentID d) (stages_of s L) = Some (S i, l) →
    stages_of s L !! i = Some prev → succeeded_in s (rel_ID release) (ls_EnvironmentID prev).

Lemma promotion_keeps s s' L lc :
  prj_LifecycleID project = Some L → db_lifecycles s !! L = Some lc → lc_ID lc = L →
  rel_ID release ≠ 0 → promotion s s' → promoted s L → promoted s' L.
Proof.
  intros Hp Hlc Hid Hrel Hstep Hinv j d i l prev Hd Hr Hfind Hprev.
  apply (promotion_success s); [done|].
  assert (Hst : stages_of s' L = stages_of s L)
    by (unfold stages_of; by destruct (promotion_tables _ _ Hstep) as [-> _]).
  rewrite Hst in Hfind, Hprev. destruct Hstep as [s d' st Heval Hdep Hr' _ _|s k d' status Hd' _]; cbn in Hd.
  - destruct (decide (j = d_ID d')) as [->|Hne]; [|rewrite lookup_insert_ne in Hd by done; eauto].
    rewrite lookup_insert_eq in Hd. simplify_eq.
    destruct (evaluate_stages_spec s release (d_EnvironmentID d) lc (stages_of s (lc_ID lc)) Hrel)
      as (st' & Hst' & Hcase). rewrite Hfind in Hcase. destruct Hcase as (prev' & Hprev' & Hiff & _).
    assert (st' = st) as ->.
    { unfold Evaluate in Heval. rewrite Hp in Heval.
      rewrite (bind_ok (GetLifecycle _) _ s lc s) in Heval by by (unfold GetLifecycle; rewrite Hlc).
      rewrite (bind_ok (ListLifecycleStages _) _ s (stages_of s (lc_ID lc)) s) in Heval by done.
      congruence. }
    assert (prev' = prev) as -> by congruence. by apply Hiff.
  - destruct (decide (j = k)) as [->|Hne]; [|rewrite lookup_insert_ne in Hd by done; eauto].
    rewrite lookup_insert_eq in Hd. simplify_eq. eapply (Hinv k d'); eauto; by destruct d'.
Qed.

Lemma promotion_run s0 s L lc :
  prj_LifecycleID project = Some L → db_lifecycles s0 !! L = Some lc → lc_ID lc = L →
  rel_ID release ≠ 0 →
  (∀ id d, db_deployments s0 !! id = Some d → d_ReleaseID d ≠ rel_ID release) →
  rtc promotion s0 s →
  promoted s L ∧ db_stages s = db_stages s0 ∧ db_lifecycles s = db_lifecycles s0.
Proof.
  intros Hp Hlc Hid Hrel Hnone. revert s. apply rtc_ind_r.
  - split; [|done]. intros id d k l prev Hd Hr. by destruct (Hnone id d Hd).
  - intros s1 s2 Hrun Hstep (Hk & Hst & Hl). destruct (promotion_tables _ _ Hstep) as [Hst' Hl'].
    split; [|split; congruence]. apply (promotion_keeps s1 s2 L lc); [done| |done..]. by rewrite Hl.
Qed.

(** Without Force a release moves through the stages in order: in every
    history that starts without deployments of the release, a success in a
    stage implies a success in every earlier stage. *)
Theorem promotion_order s0 s L lc i j a b :
  prj_LifecycleID project = Some L → db_lifecycles s0 !! L = Some lc → lc_ID lc = L →
  rel_ID release ≠ 0 → stages_wf s0 →
  (∀ id d, db_deployments s0 !! id = Some d → d_ReleaseID d ≠ rel_ID release) →
  rtc promotion s0 s → stages_of s L !! i = Some a → stages_of s L !! j = Some b → (i < j)%nat →
  succeeded_in s (rel_ID release) (ls_EnvironmentID b) →
  succeeded_in s (rel_ID release) (ls_EnvironmentID a).
Proof.
  intros Hp Hlc Hid Hrel Hwf Hnone Hrun Hi Hj Hlt.
  destruct (promotion_run s0 s L lc) as (Hinv & Hst & _); [done..|].
  assert (Hfind : ∀ k x, stages_of s L !! k = Some x →
    list_find (λ l, ls_EnvironmentID l = ls_EnvironmentID x) (stages_of s L) = Some (k, x)).
  { intros k x Hk. apply list_find_Some. split; [done|]. split; [done|].
    intros m y Hm Hmk Heq. assert (Hsame : stages_of s L = stages_of s0 L) by (unfold stages_of; by rewrite Hst).
    rewrite Hsame in *. destruct (stages_of_lookup s0 L x Hwf) as [Hx HLx]; [by eapply list_elem_of_lookup_2|].
    destruct (stages_of_lookup s0 L y Hwf) as [Hy HLy]; [by eapply list_elem_of_lookup_2|].
    assert (Hxy : ls_ID y = ls_ID x).
    { eapply (proj1 (stages_ok_true _) (sg_ok _ Hwf)); [done..|congruence|by right]. }
    assert (m = k); [|lia]. eapply (NoDup_lookup _ _ _ (ls_ID x) (stages_of_nodup s0 L Hwf));
      rewrite list_lookup_fmap; [by rewrite Hm; cbn; rewrite Hxy|by rewrite Hk]. }
  revert b Hj. induction j as [|j IH]; [lia|]. intros b Hj (id & d & Hd & Hr & He & Hs).
  destruct (lookup_lt_is_Some_2 (stages_of s L) j) as [c Hc]; [apply lookup_lt_Some in Hj; lia|].
  assert (Hsc : succeeded_in s (rel_ID release) (ls_EnvironmentID c)).
  { eapply (Hinv id d j b c); [done|done| |done]. rewrite He. by apply Hfind. }
  destruct (decide (i = j)) as [->|Hne]; [congruence|]. apply (IH ltac:(lia) c Hc Hsc).
Qed.
End promotion.

(** ** Concrete instances *)
Definition sample_format : GoFormat := {| quote := λ x, x; error_text := λ _, "error" |}.

Definition sample_lifecycle : DB :=
  set_stage_seq 3 (set_stages
    {[1 := mkStage 1 1 7 1 0; 2 := mkStage 2 1 8 5 1; 3 := mkStage 3 2 7 1 0]}
    (set_lifecycles {[1 := mkLifecycle 1 "default" None 0]}
      (set_environments {[7 := plain_environment "dev"; 8 := plain_environment "prod"; 9 := plain_environment "lab"]} (empty_db 1000)))).

Definition stages_wfb (s : DB) : bool :=
  forallb (λ kl : Z * LifecycleStage, Z.eqb (ls_ID kl.2) kl.1 && Z.leb kl.1 (db_stage_seq s))
    (map_to_list (db_stages s)) && stages_ok (db_stages s).

Lemma stages_wfb_sound s : stages_wfb s = true → stages_wf s.
Proof.
  unfold stages_wfb. rewrite andb_true_iff, forallb_forall. intros [Hk Hok]. constructor; [|done].
  intros id l Hid%elem_of_map_to_list%list_elem_of_In. specialize (Hk _ Hid).
  rewrite andb_true_iff, Z.eqb_eq, Z.leb_le in Hk. done.
Qed.

Lemma reorder_stages_witness :
  ∃ l t', ReorderLifecycleStages 1 [2; 1] sample_lifecycle = (Ok l, set_stages t' sample_lifecycle) ∧
    ls_ID <$> l = [2; 1].
Proof.
  destruct (reorder_stages sample_lifecycle 1 [2; 1]) as [Hok _];
    [apply stages_wfb_sound; vm_compute; reflexivity|eexists; reflexivity|vm_compute; reflexivity|].
  destruct Hok as (l & t' & Hrun & Hids & _); [vm_compute; apply perm_swap|].
  exists l, t'. split; [exact Hrun|exact Hids].
Defined.

Lemma move_stage_witness :
  ∃ t', MoveLifecycleStage 1 2 true sample_lifecycle = (Ok tt, set_stages t' sample_lifecycle) ∧
    stages_of (set_stages t' sample_lifecycle) 1 = [mkStage 2 1 8 1 1; mkStage 1 1 7 5 0].
Proof.
  assert (Hmove : _) by (apply (move_stage sample_lifecycle 1 2 true);
    [apply stages_wfb_sound; vm_compute; reflexivity|eexists; reflexivity|vm_compute; reflexivity]).
  destruct Hmove as (t' & Hrun & _ & _ & Hl & _). exists t'. split; [exact Hrun|].
  etransitivity; [exact Hl|]. vm_compute. reflexivity.
Defined.

Lemma create_stage_witness :
  ∃ row s', CreateLifecycleStage (mkStageParams 1 9 0 1) sample_lifecycle = (Ok row, s') ∧
    ∀ l, l ∈ stages_of sample_lifecycle 1 → ls_SortOrder l < ls_SortOrder row.
Proof.
  assert (Hcreate : _) by (apply (create_stage sample_lifecycle (mkStageParams 1 9 0 1));
    [apply stages_wfb_sound; vm_compute; reflexivity|eexists; reflexivity|eexists; reflexivity|
     intros id l Hid; assert (Hall : forallb (λ kl : Z * LifecycleStage, Z.leb (ls_SortOrder kl.2) MaxInt64)
       (map_to_list (db_stages sample_lifecycle)) = true) by (vm_compute; reflexivity);
     rewrite forallb_forall in Hall; apply elem_of_map_to_list, list_elem_of_In in Hid;
     apply Z.leb_le; exact (Hall (id, l) Hid)]).
  change (existsb _ _) with false in Hcreate.
  destruct Hcreate as (row & s' & Hrun & _ & _ & _ & _ & _ & _ & Hlast).
  exists row, s'. split; [exact Hrun|exact Hlast].
Defined.

Definition sample_project : Project := mkProject 1 "app" (Some 1).
Definition gated_release : Release := mkRelease 4 1 "1.0.0" "[]" 0 "release".

Lemma gate_decision_witness :
  ∃ st, Evaluate (H:=sample_format) sample_project gated_release 8 sample_lifecycle = Ok (st, sample_lifecycle) ∧
    (Deployable st = true ↔ succeeded_in sample_lifecycle 4 7).
Proof.
  destruct (gate_decision (H:=sample_format) sample_lifecycle sample_project gated_release 8 1
    (mkLifecycle 1 "default" None 0)) as (st & Hst & Hcase); [reflexivity..|vm_compute; discriminate|].
  destruct Hcase as (prev & Hprev & Hiff & _). vm_compute in Hprev.
  exists st. split; [exact Hst|]. injection Hprev as <-. exact Hiff.
Defined.

Lemma check_and_approval_agrees_witness :
  match CheckAndApproval (H:=sample_format) sample_project gated_release 7 sample_lifecycle with
  | Ok (blocked, reason, approval, s') =>
      Check_ (H:=sample_format) sample_project gated_release 7 sample_lifecycle
      = Ok ((blocked, reason), sample_lifecycle)
  | Err e => False
  end.
Proof.
  assert (H := check_and_approval_agrees (H:=sample_format) sample_lifecycle sample_project gated_release 7).
  assert (Hk : ∀ id lc, db_lifecycles sample_lifecycle !! id = Some lc → lc_ID lc = id).
  { intros id lc. change (db_lifecycles sample_lifecycle) with
      ({[1 := mkLifecycle 1 "default" None 0]} : gmap Z Lifecycle).
    intros [<- <-]%lookup_singleton_Some. reflexivity. }
  specialize (H Hk). vm_compute in H. vm_compute. apply H.
Defined.

Definition gated_deployment (id env : Z) : Deployment :=
  mkDeployment id 4 env "queued" None None 0 0 None None "deploy" None None None None.
Definition with_deployment (id env : Z) (status : string) (s : DB) : DB :=
  set_deployments (<[id := d_set_Status status (gated_deployment id env)]> (db_deployments s)) s.
Definition promoted_once : DB := with_deployment 1 7 "succeeded" (with_deployment 1 7 "queued" sample_lifecycle).
Definition promoted_twice : DB := with_deployment 2 8 "succeeded" (with_deployment 2 8 "queued" promoted_once).

Lemma promotion_order_witness :
  rtc (promotion (H:=sample_format) sample_project gated_release) sample_lifecycle promoted_twice ∧
  succeeded_in promoted_twice 4 7.
Proof.
  assert (Hrun : rtc (promotion (H:=sample_format) sample_project gated_release)
    sample_lifecycle promoted_twice).
  { eapply rtc_l; [eapply (promotion_create _ _ _ (gated_deployment 1 7));
      [vm_compute; reflexivity|reflexivity|reflexivity|discriminate|reflexivity]|].
    eapply rtc_l; [eapply (promotion_status _ _ _ 1 (gated_deployment 1 7) "succeeded");
      [reflexivity|discriminate]|].
    eapply rtc_l; [eapply (promotion_create _ _ _ (gated_deployment 2 8));
      [vm_compute; reflexivity|reflexivity|reflexivity|discriminate|reflexivity]|].
    eapply rtc_l; [eapply (promotion_status _ _ _ 2 (gated_deployment 2 8) "succeeded");
      [reflexivity|discriminate]|]. apply rtc_refl. }
  split; [exact Hrun|].
  apply (promotion_order (H:=sample_format) sample_project gated_release sample_lifecycle promoted_twice 1
    (mkLifecycle 1 "default" None 0) 0 1 (mkStage 1 1 7 1 0) (mkStage 2 1 8 5 1));
    [reflexivity|reflexivity|reflexivity|discriminate|apply stages_wfb_sound; vm_compute; reflexivity
    | |exact Hrun|vm_compute; reflexivity|vm_compute; reflexivity|lia|].
  - intros id d Hd. change (db_deployments sample_lifecycle) with (∅ : gmap Z Deployment) in Hd.
    rewrite lookup_empty in Hd. discriminate.
  - exists 2, (d_set_Status "succeeded" (gated_deployment 2 8)).
    split; [reflexivity|]. split; [reflexivity|]. split; [reflexivity|]. vm_compute. reflexivity.
Defined.
