(* ===== verification/Roles.v ===== *)
(** * Roles: the shared permission order (internal/roles/roles.go) *)
From S2P Require Import Prelude.

Definition Rank (role : string) : Z :=
  if String.eqb role "viewer" then 1
  else if String.eqb role "deployer" then 2
  else if String.eqb role "maintainer" then 3
  else if String.eqb role "admin" then 4
  else 0.

Definition Valid (role : string) : bool := negb (Z.eqb (Rank role) 0).

Definition AtLeast (role required : string) : bool :=
  Valid required && bool_decide (Rank required ≤ Rank role).

Definition All : list string := ["viewer"; "deployer"; "maintainer"; "admin"].

Section roles.
Implicit Types (role required : string).

Lemma Rank_range role : 0 ≤ Rank role ≤ 4.
Proof. unfold Rank. repeat case_match; lia. Qed.

Lemma Valid_rank role : Valid role = true ↔ 0 < Rank role.
Proof. unfold Valid. rewrite negb_true_iff, Z.eqb_neq. pose proof (Rank_range role). lia. Qed.

Lemma Valid_all role : Valid role = true ↔ role ∈ All.
Proof.
  unfold Valid, Rank, All. rewrite negb_true_iff, Z.eqb_neq. rewrite !elem_of_cons, elem_of_nil.
  repeat (case_match; [match goal with H : String.eqb _ _ = true |- _ => apply String.eqb_eq in H as -> end; naive_solver|]).
  repeat match goal with H : String.eqb _ _ = false |- _ => apply String.eqb_neq in H end.
  naive_solver.
Qed.

Lemma AtLeast_rank role required :
  AtLeast role required = true ↔ 0 < Rank required ∧ Rank required ≤ Rank role.
Proof. unfold AtLeast. rewrite andb_true_iff, Valid_rank, bool_decide_eq_true. done. Qed.

Lemma Rank_admin role : Rank role = 4 ↔ role = "admin".
Proof.
  split; [|by intros ->]. unfold Rank.
  repeat case_match; try lia. intros _. by apply String.eqb_eq.
Qed.

Lemma AtLeast_trans a b c :
  AtLeast a b = true → AtLeast b c = true → AtLeast a c = true.
Proof. rewrite !AtLeast_rank. lia. Qed.
End roles.
