(* ===== verification/AccessQueries.v ===== *)
(** * AccessQueries: the statements of users.sql.go, sessions.sql.go, mfa.sql.go,
    api_tokens.sql.go, api_token_projects.sql.go and project_members.sql.go that
    the access component uses, with the CHECK, UNIQUE and foreign key constraints
    of their tables (migrations/011, 013, 019, 063, 064). *)
From S2P Require Import Prelude Db Tx.

(** ** Constraints *)

Definition role_names : list string := ["viewer"; "deployer"; "maintainer"; "admin"].

Definition users_ok (t : gmap Z User) : bool :=
  forall_rows t (λ u, u_Role u ∈? role_names) && unique_on (λ u, Some (u_Email u)) t.

Definition tokens_ok (a : Access) : bool :=
  forall_rows (ax_tokens a) (λ t,
    (tk_Scope t ∈? ["global"; "scoped"]) && (tk_TokenRole t ∈? "" :: role_names)
    && bool_decide (is_Some (ax_users a !! tk_UserID t)))
  && unique_on (λ t, Some (tk_TokenHash t)) (ax_tokens a).

(** An UPDATE of the access tables whose result must satisfy [ok]. *)
Definition write_access (ok : Access → bool) (f : Access → Access) : Tx unit :=
  checked (ok ∘ db_access) (λ s, set_access (f (db_access s)) s).

(** ** Users *)

Definition LockMFAUser (id : Z) : Tx Z := read (λ s,
  match ax_users (db_access s) !! id with Some _ => 1 | None => 0 end).

Definition GetUserByID (id : Z) : Tx User := λ s,
  match ax_users (db_access s) !! id with Some u => Ok (u, s) | None => Err ErrNoRows end.

Definition administrators (a : Access) : gmap Z User :=
  filter (λ ku, u_Role ku.2 = "admin") (ax_users a).

Definition CountAdministrators : Tx Z := read (λ s,
  Z.of_nat (size (administrators (db_access s)))).

Definition update_user (id : Z) (set : User → User) : Tx unit :=
  write_access (users_ok ∘ ax_users) (λ a, ax_set_users (alter set id (ax_users a)) a).

Record UpdateUserParams := mkUpdateUser {
  uu_Name : string;
  uu_Role : string;
  uu_ID : Z }.

Definition UpdateUser (arg : UpdateUserParams) : Tx unit := λ s,
  update_user (uu_ID arg)
    (u_set_UpdatedAt (db_now s) ∘ u_set_Role (uu_Role arg) ∘ u_set_Name (uu_Name arg)) s.

Definition UpdateUserPassword (hash : string) (id : Z) : Tx unit := λ s,
  update_user id (u_set_UpdatedAt (db_now s) ∘ u_set_PasswordHash hash) s.

Definition UpdateUserLastLogin (at_ : option Z) (id : Z) : Tx unit :=
  update_user id (u_set_LastLoginAt at_).

(** The row of a user and the rows that reference it with ON DELETE CASCADE;
    an approval keeps its row and loses the reference (ON DELETE SET NULL). *)
Definition without_user (id : Z) (a : Access) : Access :=
  let tokens := filter (λ kt, tk_UserID kt.2 ≠ id) (ax_tokens a) in
  mkAccess (delete id (ax_users a))
    (filter (λ ks, se_UserID ks.2 ≠ id) (ax_sessions a))
    (filter (λ kc, kc.2 ≠ id) (ax_challenges a))
    tokens
    (filter (λ tp, is_Some (tokens !! tp.1)) (ax_token_projects a))
    (filter (λ km, km.1.2 ≠ id) (ax_members a))
    (ax_executions a) (ax_admin_lock a).

Definition forget_approver (id : Z) (ap : DeploymentApproval) : DeploymentApproval :=
  if decide (ap_ApproverUserID ap = Some id) then
    mkApproval (ap_ID ap) (ap_DeploymentID ap) (ap_ApprovedBy ap) (ap_ApprovedAt ap) None
      (ap_RequiredApproverRole ap)
  else ap.

Definition DeleteUser (id : Z) : Tx unit := write (λ s,
  if decide (is_Some (ax_users (db_access s) !! id)) then
    set_approvals (forget_approver id <$> db_approvals s)
      (set_access (without_user id (db_access s)) s)
  else s).

Definition LockLocalAdministration : Tx Z := λ s,
  match ax_admin_lock (db_access s) with
  | Some version => Ok (1, set_access (ax_set_admin_lock (Some (1 - version)) (db_access s)) s)
  | None => Ok (0, s)
  end.

(** ** Sessions and MFA challenges *)

Definition DeleteMFAChallengesByUserID (user : Z) : Tx Z := λ s,
  let t := ax_challenges (db_access s) in
  let kept := filter (λ kc, kc.2 ≠ user) t in
  Ok (Z.of_nat (size t) - Z.of_nat (size kept), set_access (ax_set_challenges kept (db_access s)) s).

Definition DeleteSessionsByUser (user : Z) : Tx unit := write (λ s,
  set_access (ax_set_sessions (filter (λ ks, se_UserID ks.2 ≠ user) (ax_sessions (db_access s)))
    (db_access s)) s).

Record CreateSessionParams := mkCreateSession {
  cs_ID : string;
  cs_UserID : Z;
  cs_CsrfToken : string;
  cs_ExpiresAt : Z;
  cs_IpAddress : option string;
  cs_UserAgent : option string }.

Definition CreateSession (arg : CreateSessionParams) : Tx Session := λ s,
  let a := db_access s in
  let row := mkSession (cs_ID arg) (cs_UserID arg) (cs_CsrfToken arg) (db_now s)
               (cs_ExpiresAt arg) (cs_IpAddress arg) (cs_UserAgent arg) (Some (db_now s)) in
  if bool_decide (ax_sessions a !! cs_ID arg = None)
     && bool_decide (is_Some (ax_users a !! cs_UserID arg))
  then Ok (row, set_access (ax_set_sessions (<[cs_ID arg := row]> (ax_sessions a)) a) s)
  else Err ErrConstraint.

(** [GetSession] joins the session with its user. *)
Definition GetSession (id : string) (now : Z) : Tx (Session * User) := λ s,
  match ax_sessions (db_access s) !! id with
  | Some se =>
      match ax_users (db_access s) !! se_UserID se with
      | Some u => if bool_decide (now < se_ExpiresAt se) then Ok ((se, u), s) else Err ErrNoRows
      | None => Err ErrNoRows
      end
  | None => Err ErrNoRows
  end.

(** ** API tokens *)

(** A row that GetApiTokenByHash may return: the columns of the token and of
    its owner. The comparison of NULL columns is SQL's. *)
Definition token_live (now : Z) (t : ApiToken) : bool :=
  is_null (tk_RevokedAt t) && (is_null (tk_ExpiresAt t) || sql_gt (tk_ExpiresAt t) now).

Definition GetApiTokenByHash (hash : string) (now : Z) : Tx (ApiToken * User) := λ s,
  let a := db_access s in
  match filter (λ t, tk_TokenHash t = hash ∧ token_live now t = true)
          (snd <$> map_to_list (ax_tokens a)) with
  | t :: _ =>
      match ax_users a !! tk_UserID t with Some u => Ok ((t, u), s) | None => Err ErrNoRows end
  | [] => Err ErrNoRows
  end.

Definition GetApiTokenByID (id : string) : Tx ApiToken := λ s,
  match ax_tokens (db_access s) !! id with
  | Some t => if is_null (tk_RevokedAt t) then Ok (t, s) else Err ErrNoRows
  | None => Err ErrNoRows
  end.

(** ORDER BY project_id. *)
Definition projects_of_token (a : Access) (id : string) : list Z :=
  sort_by Z.leb (snd <$> filter (λ tp, tp.1 = id) (elements (ax_token_projects a))).

(** Go's nil slice for a result without rows. *)
Definition go_slice {A} (l : list A) : option (list A) :=
  match l with [] => None | _ => Some l end.

Definition ListApiTokenProjectIDs (id : string) : Tx (option (list Z)) := read (λ s,
  go_slice (projects_of_token (db_access s) id)).

Definition SetApiTokenScope (scope role id : string) : Tx Z := λ s,
  let a := db_access s in
  let (t, rows) := update_pk (ax_tokens a) id (λ t, is_null (tk_RevokedAt t))
                     (tk_set_TokenRole role ∘ tk_set_Scope scope) in
  let a := ax_set_tokens t a in
  if tokens_ok a then Ok (rows, set_access a s) else Err ErrConstraint.

Definition DeleteApiTokenProjects (id : string) : Tx unit := write (λ s,
  set_access (ax_set_token_projects (filter (λ tp, tp.1 ≠ id) (ax_token_projects (db_access s)))
    (db_access s)) s).

Definition AddApiTokenProject (token : string) (project : Z) : Tx unit := λ s,
  let a := db_access s in
  if bool_decide ((token, project) ∉ ax_token_projects a)
     && bool_decide (is_Some (ax_tokens a !! token))
     && bool_decide (is_Some (db_projects s !! project))
  then Ok (tt, set_access (ax_set_token_projects ({[ (token, project) ]} ∪ ax_token_projects a) a) s)
  else Err ErrConstraint.

(** ** Projects *)

Definition IsProjectMember (project user : Z) : Tx Z := read (λ s,
  match ax_members (db_access s) !! (project, user) with Some _ => 1 | None => 0 end).

(** The role of the row. *)
Definition GetProjectMember (project user : Z) : Tx string := λ s,
  match ax_members (db_access s) !! (project, user) with
  | Some role => Ok (role, s)
  | None => Err ErrNoRows
  end.

(** The project of the runbook a deployment executes. *)
Definition GetRunbookExecutionByDeployment (deployment : Z) : Tx Z := λ s,
  match ax_executions (db_access s) !! deployment with
  | Some project => Ok (project, s)
  | None => Err ErrNoRows
  end.

Definition GetProject (id : Z) : Tx Project := λ s,
  match db_projects s !! id with Some p => Ok (p, s) | None => Err ErrNoRows end.

Definition TouchSession (expires : Z) (id : string) : Tx unit := write (λ s,
  set_access (ax_set_sessions (alter (λ se,
      mkSession (se_ID se) (se_UserID se) (se_CsrfToken se) (se_CreatedAt se) expires
        (se_IpAddress se) (se_UserAgent se) (se_ReauthenticatedAt se)) id
      (ax_sessions (db_access s))) (db_access s)) s).

(** The row a new token gets; token_role has its default. *)
Definition CreateApiToken (id : string) (user : Z) (hash scope : string) (expires : option Z)
    : Tx ApiToken := λ s,
  let row := mkApiToken id user hash scope "" expires None in
  let a := ax_set_tokens (<[id := row]> (ax_tokens (db_access s))) (db_access s) in
  if bool_decide (ax_tokens (db_access s) !! id = None) && tokens_ok a
  then Ok (row, set_access a s) else Err ErrConstraint.
