(* ===== verification/Base64.v ===== *)
(** * Base64: Go's encoding/base64, RawStdEncoding and StdEncoding

    A byte is its value. *)
From S2P Require Import Prelude Text.

Notation bytes := (list Z).
Definition is_byte (b : Z) : Prop := 0 ≤ b < 256.

(** ** The alphabet *)

Definition chr (n : Z) : Ascii.ascii := Ascii.ascii_of_nat (Z.to_nat n).

Definition digit_of (n : Z) : Ascii.ascii :=
  if n <? 26 then chr (65 + n)
  else if n <? 52 then chr (97 + (n - 26))
  else if n <? 62 then chr (48 + (n - 52))
  else if n =? 62 then chr 43 else chr 47.

Definition value_of (c : Ascii.ascii) : option Z :=
  let n := Z.of_nat (Ascii.nat_of_ascii c) in
  if byte_in 65 90 c then Some (n - 65)
  else if byte_in 97 122 c then Some (n - 97 + 26)
  else if byte_in 48 57 c then Some (n - 48 + 52)
  else if byte_in 43 43 c then Some 62
  else if byte_in 47 47 c then Some 63 else None.

Fixpoint RawEncode (src : bytes) : string :=
  match src with
  | a :: b :: c :: rest =>
      String (digit_of (a / 4)) (String (digit_of (a mod 4 * 16 + b / 16))
        (String (digit_of (b mod 16 * 4 + c / 64)) (String (digit_of (c mod 64))
          (RawEncode rest))))
  | [a; b] =>
      String (digit_of (a / 4)) (String (digit_of (a mod 4 * 16 + b / 16))
        (String (digit_of (b mod 16 * 4)) EmptyString))
  | [a] => String (digit_of (a / 4)) (String (digit_of (a mod 4 * 16)) EmptyString)
  | [] => EmptyString
  end.

(** The 6-bit values of a text; the decoder skips line breaks. *)
Fixpoint sextets (text : string) : option bytes :=
  match text with
  | EmptyString => Some []
  | String c rest =>
      if byte_in 10 10 c || byte_in 13 13 c then sextets rest
      else v ← value_of c; vs ← sextets rest; Some (v :: vs)
  end.

(** Quanta of four values; the unused bits of a short last one are ignored. *)
Fixpoint quanta (vs : bytes) : option bytes :=
  match vs with
  | v0 :: v1 :: v2 :: v3 :: rest =>
      bs ← quanta rest;
      Some (v0 * 4 + v1 / 16 :: v1 mod 16 * 16 + v2 / 4 :: v2 mod 4 * 64 + v3 :: bs)
  | [v0; v1; v2] => Some [v0 * 4 + v1 / 16; v1 mod 16 * 16 + v2 / 4]
  | [v0; v1] => Some [v0 * 4 + v1 / 16]
  | [_] => None
  | [] => Some []
  end.

Definition RawDecode (text : string) : option bytes := sextets text ≫= quanta.

(** ** base64 round trip *)

Lemma digit_facts n : 0 ≤ n < 64 →
  value_of (digit_of n) = Some n ∧
  byte_in 10 10 (digit_of n) || byte_in 13 13 (digit_of n) = false ∧
  Ascii.eqb (digit_of n) (Ascii.ascii_of_nat 36) = false.
Proof.
  intros Hn.
  assert (forallb (λ k, let n := Z.of_nat k in
    bool_decide (value_of (digit_of n) = Some n)
    && negb (byte_in 10 10 (digit_of n) || byte_in 13 13 (digit_of n))
    && negb (Ascii.eqb (digit_of n) (Ascii.ascii_of_nat 36))) (seq 0 64) = true) as H by (by vm_compute).
  rewrite forallb_forall in H. specialize (H (Z.to_nat n)).
  rewrite in_seq in H. specialize (H ltac:(lia)). cbv zeta in H. rewrite Z2Nat.id in H by lia.
  apply andb_true_iff in H as [[H1%bool_decide_eq_true H2%negb_true_iff]%andb_true_iff H3%negb_true_iff].
  done.
Qed.

Lemma sextets_digit n text : 0 ≤ n < 64 →
  sextets (String (digit_of n) text) = vs ← sextets text; Some (n :: vs).
Proof. intros Hn. destruct (digit_facts n Hn) as (Hv & Hb & _). cbn [sextets]. by rewrite Hb, Hv. Qed.

(** Induction along the quanta of three bytes. *)
Lemma quantum_ind (P : bytes → Prop) :
  P [] → (∀ a, P [a]) → (∀ a b, P [a; b]) → (∀ a b c l, P l → P (a :: b :: c :: l)) → ∀ l, P l.
Proof.
  intros H0 H1 H2 H3. fix IH 1. intros [|a [|b [|c l]]]; [done|done|done|]. by apply H3, IH.
Qed.

Ltac Zdivmod := repeat first [rewrite Z.div_add_l by lia | rewrite Z.div_small by lia]; Z.div_mod_to_equations; lia.

Lemma raw_round_trip src : Forall is_byte src → RawDecode (RawEncode src) = Some src.
Proof.
  unfold RawDecode, is_byte. induction src as [|a|a b|a b c l IH] using quantum_ind; intros Hs;
    rewrite ?Forall_cons in Hs; destruct_and?; cbn [RawEncode]; [done|..];
    rewrite !sextets_digit by Zdivmod; cbn [sextets mbind option_bind quanta].
  - f_equal. f_equal. Zdivmod.
  - do 2 f_equal; [|f_equal]; Zdivmod.
  - destruct (sextets (RawEncode l)) as [vs|]; [|by specialize (IH ltac:(done))].
    cbn [mbind option_bind quanta] in *. rewrite IH by done. cbn.
    do 2 f_equal; [|do 2 f_equal]; [..|f_equal]; Zdivmod.
Qed.

Lemma raw_free src : Forall is_byte src → free_of (Ascii.ascii_of_nat 36) (RawEncode src) = true.
Proof.
  unfold is_byte. induction src as [|a|a b|a b c l IH] using quantum_ind; intros Hs;
    rewrite ?Forall_cons in Hs; destruct_and?; cbn [RawEncode free_of]; [done|..];
    rewrite !(λ n Hn, proj2 (proj2 (digit_facts n Hn))) by Zdivmod; cbn [negb andb]; auto.
Qed.


(** ** StdEncoding: the last quantum is padded *)

Definition pad_char : Ascii.ascii := Ascii.ascii_of_nat 61.
Definition padding (n : nat) : string := String.string_of_list_ascii (repeat pad_char n).

Definition StdEncode (src : bytes) : string :=
  RawEncode src +:+ padding (match (length src mod 3)%nat with 1%nat => 2 | 2%nat => 1 | _ => 0 end).

(** A character that stands for a value or for the padding. *)
Inductive symbol := Value (v : Z) | Pad.

Fixpoint symbols (text : string) : option (list symbol) :=
  match text with
  | EmptyString => Some []
  | String c rest =>
      if byte_in 10 10 c || byte_in 13 13 c then symbols rest
      else
        v ← (if Ascii.eqb c pad_char then Some Pad else Value <$> value_of c);
        vs ← symbols rest; Some (v :: vs)
  end.

Fixpoint std_quanta (vs : list symbol) : option bytes :=
  match vs with
  | Value v0 :: Value v1 :: Value v2 :: Value v3 :: rest =>
      bs ← std_quanta rest;
      Some (v0 * 4 + v1 / 16 :: v1 mod 16 * 16 + v2 / 4 :: v2 mod 4 * 64 + v3 :: bs)
  | [Value v0; Value v1; Value v2; Pad] => Some [v0 * 4 + v1 / 16; v1 mod 16 * 16 + v2 / 4]
  | [Value v0; Value v1; Pad; Pad] => Some [v0 * 4 + v1 / 16]
  | [] => Some []
  | _ => None
  end.

Definition StdDecode (text : string) : option bytes := symbols text ≫= std_quanta.

Lemma digit_not_pad n : 0 ≤ n < 64 → Ascii.eqb (digit_of n) pad_char = false.
Proof.
  intros Hn. destruct (Ascii.eqb_spec (digit_of n) pad_char) as [E|]; [|done].
  pose proof (digit_facts n Hn) as (Hv & _). by rewrite E in Hv.
Qed.

Lemma symbols_digit n text : 0 ≤ n < 64 →
  symbols (String (digit_of n) text) = vs ← symbols text; Some (Value n :: vs).
Proof.
  intros Hn. destruct (digit_facts n Hn) as (Hv & Hb & _).
  cbn [symbols]. by rewrite Hb, digit_not_pad, Hv.
Qed.

(** The encoder by quanta, with its padding. *)
Lemma StdEncode_cons a b c rest :
  StdEncode (a :: b :: c :: rest) =
  String (digit_of (a / 4)) (String (digit_of (a mod 4 * 16 + b / 16))
    (String (digit_of (b mod 16 * 4 + c / 64)) (String (digit_of (c mod 64)) (StdEncode rest)))).
Proof.
  unfold StdEncode.
  replace (length (a :: b :: c :: rest) mod 3)%nat with (length rest mod 3)%nat; [done|].
  cbn [length]. replace (S (S (S (length rest)))) with (length rest + 1 * 3)%nat by lia.
  by rewrite Nat.Div0.mod_add.
Qed.

Lemma std_round_trip src : Forall is_byte src → StdDecode (StdEncode src) = Some src.
Proof.
  unfold StdDecode, is_byte. induction src as [|a|a b|a b c l IH] using quantum_ind; intros Hs;
    rewrite ?Forall_cons in Hs; destruct_and?; [done|..].
  - change (StdEncode [a])
      with (String (digit_of (a / 4)) (String (digit_of (a mod 4 * 16)) "==")).
    rewrite 2!symbols_digit by Zdivmod.
    change (symbols "==") with (Some [Pad; Pad]). cbn. do 2 f_equal. Zdivmod.
  - change (StdEncode [a; b]) with (String (digit_of (a / 4))
      (String (digit_of (a mod 4 * 16 + b / 16)) (String (digit_of (b mod 16 * 4)) "="))).
    rewrite 3!symbols_digit by Zdivmod.
    change (symbols "=") with (Some [Pad]). cbn. do 2 f_equal; [|f_equal]; Zdivmod.
  - rewrite StdEncode_cons, !symbols_digit by Zdivmod.
    destruct (symbols (StdEncode l)) as [vs|]; [|by specialize (IH ltac:(done))].
    cbn [mbind option_bind std_quanta] in *. rewrite IH by done. cbn.
    do 2 f_equal; [|do 2 f_equal]; [..|f_equal]; Zdivmod.
Qed.

(** An encoding is empty only for the empty input. *)
Lemma StdEncode_empty src : StdEncode src = "" → src = [].
Proof. destruct src as [|a [|b [|c l]]]; [done|discriminate..|]. by rewrite StdEncode_cons. Qed.
