(* ===== verification/Secret.v ===== *)
(** * Secret: variable values at rest (internal/secret/secret.go, Repository.encryptValue)

    AES-256-GCM (crypto/cipher) is a parameter: [Seal] and [Open] of the box's
    key. The nonce is what crypto/rand filled in. Texts are converted to bytes
    and back as Go does. *)
From S2P Require Import Prelude Text Base64.

Definition bytes_of (text : string) : bytes :=
  (λ c, Z.of_nat (Ascii.nat_of_ascii c)) <$> String.list_ascii_of_string text.
Definition text_of (b : bytes) : string := String.string_of_list_ascii (chr <$> b).

(** An AEAD with its key. *)
Class Box := {
  NonceSize : nat;
  Seal : bytes → bytes → bytes;
  Open : bytes → bytes → option bytes }.

(** What crypto/cipher documents: opening undoes sealing, and both are over bytes. *)
Class BoxLaws `{Box} : Prop := {
  NonceSize_pos : (0 < NonceSize)%nat;
  Open_Seal : ∀ nonce p, Forall is_byte p → length nonce = NonceSize →
    Open nonce (Seal nonce p) = Some p;
  Seal_bytes : ∀ nonce p, Forall is_byte p → Forall is_byte (Seal nonce p) }.

Section box.
Context `{Box}.

(** [nonce]: [None] when crypto/rand failed. *)
Definition Encrypt (nonce : option bytes) (plaintext : string) : result string :=
  if String.eqb plaintext "" then Ok ""
  else match nonce with
       | None => Err (ErrOther "rand")
       | Some nonce => Ok (StdEncode (nonce ++ Seal nonce (bytes_of plaintext)))
       end.

Definition Decrypt (ciphertext : string) : result string :=
  if String.eqb ciphertext "" then Ok ""
  else match StdDecode ciphertext with
       | None => Err (ErrOther "decrypt: invalid ciphertext encoding")
       | Some raw =>
           if bool_decide (length raw < NonceSize)%nat
           then Err (ErrOther "decrypt: ciphertext too short")
           else match Open (take NonceSize raw) (drop NonceSize raw) with
                | None => Err (ErrOther "decrypt: authentication failed (wrong key?)")
                | Some plaintext => Ok (text_of plaintext)
                end
       end.

Definition EncryptNullString (nonce : option bytes) (v : option string) : result (option string) :=
  match v with
  | None => Ok None
  | Some text => if String.eqb text "" then Ok v else Some <$> Encrypt nonce text
  end.

Definition DecryptNullString (v : option string) : result (option string) :=
  match v with
  | None => Ok None
  | Some text => if String.eqb text "" then Ok v else Some <$> Decrypt text
  end.
End box.

Lemma bytes_of_bytes text : Forall is_byte (bytes_of text).
Proof.
  unfold bytes_of. apply Forall_fmap, Forall_forall. intros c _. unfold is_byte. cbn.
  pose proof (Ascii.nat_ascii_bounded c). lia.
Qed.

Lemma text_of_bytes text : text_of (bytes_of text) = text.
Proof.
  unfold text_of, bytes_of. rewrite <-list_fmap_compose.
  rewrite <-(String.string_of_list_ascii_of_string text) at 2. f_equal.
  rewrite <-(list_fmap_id (String.list_ascii_of_string text)) at 2.
  apply list_fmap_ext. intros _ c _. cbn. unfold chr. by rewrite Nat2Z.id, Ascii.ascii_nat_embedding.
Qed.

Section laws.
Context `{BoxLaws}.

(** A value that is encrypted with a full nonce decrypts to itself. *)
Lemma Decrypt_Encrypt nonce text :
  length nonce = NonceSize → Forall is_byte nonce →
  ∃ c, Encrypt (Some nonce) text = Ok c ∧ Decrypt c = Ok text.
Proof.
  intros Hlen Hnonce. unfold Encrypt, Decrypt.
  destruct (String.eqb_spec text "") as [->|Hne]; [by exists ""|].
  eexists. split; [done|].
  pose proof NonceSize_pos. pose proof (bytes_of_bytes text) as Htext.
  destruct (String.eqb_spec (StdEncode (nonce ++ Seal nonce (bytes_of text))) "") as [E|_].
  { apply StdEncode_empty, app_eq_nil in E as [-> _]. cbn in Hlen. lia. }
  rewrite std_round_trip by (apply Forall_app; split; [done|by apply Seal_bytes]).
  rewrite bool_decide_false by (rewrite length_app; lia).
  rewrite <-Hlen, take_app_length, drop_app_length, Open_Seal by done. by rewrite text_of_bytes.
Qed.

Lemma Decrypt_Encrypt_null nonce v :
  length nonce = NonceSize → Forall is_byte nonce →
  ∃ c, EncryptNullString (Some nonce) v = Ok c ∧ DecryptNullString c = Ok v ∧
    (is_Some v ↔ is_Some c) ∧ (v = Some "" ↔ c = Some "").
Proof.
  intros Hlen Hnonce. destruct v as [text|]; [|by exists None]. cbn.
  destruct (String.eqb_spec text "") as [->|Hne]; [by exists (Some "")|].
  destruct (Decrypt_Encrypt nonce text) as (c & Henc & Hdec); [done..|].
  rewrite Henc. exists (Some c). cbn. assert (c ≠ "") as Hc.
  { intros ->. cbn in Hdec. congruence. }
  apply String.eqb_neq in Hc as Hc'. rewrite Hc', Hdec. split_and!; [done|done|naive_solver|naive_solver].
Qed.
End laws.
