(* ===== verification/Variables.v ===== *)
(** * Variables: values for a deployment's steps

    internal/repository: variable_inheritance.go, deployment_variables.go and the
    value encryption of repository.go; internal/runner/variables.go;
    internal/containerenv/name.go. The JSON encoding of a snapshot
    (encoding/json) is a parameter. *)
From stdpp Require Import pretty.
From S2P Require Import Prelude Text Db Tx QueueQueries DispatchQueries StageQueries AccessQueries Base64 Secret.

(** ** Statements *)

Definition by_created_desc {A} (created id : A → Z) (a b : A) : bool :=
  bool_decide (created b < created a) || bool_decide (created a = created b) && Z.leb (id a) (id b).

(** ORDER BY created_at DESC; rows of the same second come in the order of their ids. *)
Definition ListVariablesByProject (project : Z) : Tx (list Variable_) := read (λ s,
  sort_by (by_created_desc v_CreatedAt v_ID)
    (filter (λ v, v_ProjectID v = project) (snd <$> map_to_list (vt_project (db_variables s))))).

Definition GetVariable (id : Z) : Tx Variable_ := λ s,
  match vt_project (db_variables s) !! id with Some v => Ok (v, s) | None => Err ErrNoRows end.

Definition ListReleaseVariablesByRelease (release : Z) : Tx (list ReleaseVariable) := read (λ s,
  sort_by (by_created_desc rv_CreatedAt rv_ID)
    (filter (λ v, rv_ReleaseID v = release) (snd <$> map_to_list (vt_release (db_variables s))))).

(** ORDER BY name, id. *)
Definition lifecycle_variable_le (a b : LifecycleVariable) : bool :=
  if String.eqb (lv_Name a) (lv_Name b) then Z.leb (lv_ID a) (lv_ID b)
  else string_le (lv_Name a) (lv_Name b).

Definition ListLifecycleVariables (lifecycle : Z) : Tx (list LifecycleVariable) := read (λ s,
  sort_by lifecycle_variable_le
    (filter (λ v, lv_LifecycleID v = lifecycle)
       (snd <$> map_to_list (vt_lifecycle (db_variables s))))).

Definition ListLifecycleStageEnvironmentIDs (lifecycle : Z) : Tx (list Z) := read (λ s,
  ls_EnvironmentID <$> stages_of s lifecycle).

Definition DeleteVariable (id : Z) : Tx unit := write (λ s,
  set_variables (vt_set_project (filter (λ kv, ¬ (kv.1 = id ∧ v_IsCredential kv.2 = 0))
    (vt_project (db_variables s))) (db_variables s)) s).

Definition DeleteVariableOverrides (project : Z) (name : string) (environment : option Z) : Tx unit :=
  write (λ s,
    set_variables (vt_set_project (filter (λ kv, ¬ (v_ProjectID kv.2 = project ∧ v_Name kv.2 = name ∧
        v_IsCredential kv.2 = 0 ∧ v_EnvironmentID kv.2 = environment))
      (vt_project (db_variables s))) (db_variables s)) s).

Definition CreateDeploymentVariableSnapshot (deployment : Z) (value : string) : Tx unit := λ s,
  let t := vt_snapshots (db_variables s) in
  if bool_decide (t !! deployment = None) && bool_decide (is_Some (db_deployments s !! deployment))
  then Ok (tt, set_variables (vt_set_snapshots (<[deployment := value]> t) (db_variables s)) s)
  else Err ErrConstraint.

Definition GetDeploymentVariableSnapshot (deployment : Z) : Tx string := λ s,
  match vt_snapshots (db_variables s) !! deployment with
  | Some value => Ok (value, s)
  | None => Err ErrNoRows
  end.

(** variables: UNIQUE(name, project_id, environment_id), where NULL environments
    differ; is_credential implies secret. *)
Definition variables_ok (t : gmap Z Variable_) : bool :=
  forall_rows t (λ v, (Z.eqb (v_IsCredential v) 0 || Z.eqb (v_IsCredential v) 1)
    && (Z.eqb (v_IsCredential v) 0 || negb (Z.eqb (v_Secret v) 0)))
  && unique_on (λ v, (λ e, (v_Name v, v_ProjectID v, e)) <$> v_EnvironmentID v) t.

(** lifecycle_variables: the CHECKs and the two partial unique indexes. *)
Definition lifecycle_variables_ok (t : gmap Z LifecycleVariable) : bool :=
  forall_rows t (λ v, (1 <=? String.length (lv_Name v))%nat && (String.length (lv_Name v) <=? 255)%nat
    && (Z.eqb (lv_Secret v) 0 || Z.eqb (lv_Secret v) 1)
    && (Z.eqb (lv_IsCredential v) 0 || Z.eqb (lv_IsCredential v) 1)
    && (Z.eqb (lv_IsCredential v) 0 || negb (Z.eqb (lv_Secret v) 0)))
  && unique_on (λ v, match lv_EnvironmentID v with
                     | None => Some (lv_LifecycleID v, lv_Name v) | Some _ => None end) t
  && unique_on (λ v, (λ e, (lv_LifecycleID v, lv_Name v, e)) <$> lv_EnvironmentID v) t.

Record CreateVariableParams := mkVariableParams {
  cv_ProjectID : Z;
  cv_Name : string;
  cv_Value : option string;
  cv_EnvironmentID : option Z;
  cv_Secret : Z;
  cv_IsCredential : Z }.

Definition has_environment (s : DB) (environment : option Z) : bool :=
  match environment with Some e => bool_decide (is_Some (db_environments s !! e)) | None => true end.

Definition CreateVariable (arg : CreateVariableParams) : Tx Variable_ := λ s,
  let tables := db_variables s in
  let id := vt_project_seq tables + 1 in
  let row := mkVariable id (cv_ProjectID arg) (cv_Name arg) (cv_Value arg) (cv_EnvironmentID arg)
               (db_now s) (cv_Secret arg) (cv_IsCredential arg) in
  let t := <[id := row]> (vt_project tables) in
  if bool_decide (is_Some (db_projects s !! cv_ProjectID arg))
     && has_environment s (cv_EnvironmentID arg) && variables_ok t
  then Ok (row, set_variables (vt_set_project_seq id (vt_set_project t tables)) s)
  else Err ErrConstraint.

(** UPDATE variables ... WHERE id AND is_credential = 0 RETURNING * *)
Definition update_variable (id : Z) (f : Variable_ → Variable_) : Tx Variable_ := λ s,
  let tables := db_variables s in
  match vt_project tables !! id with
  | Some v =>
      if Z.eqb (v_IsCredential v) 0 then
        let t := <[id := f v]> (vt_project tables) in
        if has_environment s (v_EnvironmentID (f v)) && variables_ok t
        then Ok (f v, set_variables (vt_set_project t tables) s)
        else Err ErrConstraint
      else Err ErrNoRows
  | None => Err ErrNoRows
  end.

Definition UpdateVariable (id : Z) (name : string) (value : option string) (environment : option Z)
    (secret : Z) : Tx Variable_ :=
  update_variable id (λ v,
    mkVariable (v_ID v) (v_ProjectID v) name value environment (v_CreatedAt v) secret (v_IsCredential v)).

Definition UpdateVariableKeepValue (id : Z) (name : string) (environment : option Z) (secret : Z)
    : Tx Variable_ :=
  update_variable id (λ v,
    mkVariable (v_ID v) (v_ProjectID v) name (v_Value v) environment (v_CreatedAt v) secret (v_IsCredential v)).

Record CreateLifecycleVariableParams := mkLifecycleVariableParams {
  cl_LifecycleID : Z;
  cl_Name : string;
  cl_Value : option string;
  cl_EnvironmentID : option Z;
  cl_Secret : Z;
  cl_IsCredential : Z }.

Definition CreateLifecycleVariable (arg : CreateLifecycleVariableParams) : Tx LifecycleVariable := λ s,
  let tables := db_variables s in
  let id := vt_lifecycle_seq tables + 1 in
  let row := mkLifecycleVariable id (cl_LifecycleID arg) (cl_Name arg) (cl_Value arg)
               (cl_EnvironmentID arg) (cl_Secret arg) (cl_IsCredential arg) in
  let t := <[id := row]> (vt_lifecycle tables) in
  if bool_decide (is_Some (db_lifecycles s !! cl_LifecycleID arg))
     && has_environment s (cl_EnvironmentID arg) && lifecycle_variables_ok t
  then Ok (row, set_variables (vt_set_lifecycle_seq id (vt_set_lifecycle t tables)) s)
  else Err ErrConstraint.

Definition GetLifecycleVariable (id lifecycle : Z) : Tx LifecycleVariable := λ s,
  match vt_lifecycle (db_variables s) !! id with
  | Some v => if Z.eqb (lv_LifecycleID v) lifecycle then Ok (v, s) else Err ErrNoRows
  | None => Err ErrNoRows
  end.

(** UPDATE lifecycle_variables ... WHERE id AND lifecycle_id AND is_credential = 0 RETURNING *)
Definition update_lifecycle_variable (id lifecycle : Z) (f : LifecycleVariable → LifecycleVariable)
    : Tx LifecycleVariable := λ s,
  let tables := db_variables s in
  match vt_lifecycle tables !! id with
  | Some v =>
      if Z.eqb (lv_LifecycleID v) lifecycle && Z.eqb (lv_IsCredential v) 0 then
        let t := <[id := f v]> (vt_lifecycle tables) in
        if has_environment s (lv_EnvironmentID (f v)) && lifecycle_variables_ok t
        then Ok (f v, set_variables (vt_set_lifecycle t tables) s)
        else Err ErrConstraint
      else Err ErrNoRows
  | None => Err ErrNoRows
  end.

Definition UpdateLifecycleVariable (id lifecycle : Z) (name : string) (value : option string)
    (environment : option Z) (secret : Z) : Tx LifecycleVariable :=
  update_lifecycle_variable id lifecycle (λ v,
    mkLifecycleVariable (lv_ID v) (lv_LifecycleID v) name value environment secret (lv_IsCredential v)).

Definition UpdateLifecycleVariableKeepValue (id lifecycle : Z) (name : string)
    (environment : option Z) (secret : Z) : Tx LifecycleVariable :=
  update_lifecycle_variable id lifecycle (λ v,
    mkLifecycleVariable (lv_ID v) (lv_LifecycleID v) name (lv_Value v) environment secret
      (lv_IsCredential v)).

Definition DeleteLifecycleVariable (id lifecycle : Z) : Tx Z := λ s,
  let tables := db_variables s in
  let gone (kv : Z * LifecycleVariable) :=
    kv.1 = id ∧ lv_LifecycleID kv.2 = lifecycle ∧ lv_IsCredential kv.2 = 0 in
  Ok (Z.of_nat (size (filter gone (vt_lifecycle tables))),
      set_variables (vt_set_lifecycle (filter (λ kv, ¬ gone kv) (vt_lifecycle tables)) tables) s).

Definition LifecycleVariableScopeAllowed (lifecycle environment : Z) : Tx Z := read (λ s,
  Z.of_nat (length (filter (λ l, ls_EnvironmentID l = environment) (stages_of s lifecycle)))).

Record CreateReleaseVariableParams := mkReleaseVariableParams {
  cr_ReleaseID : Z;
  cr_Name : string;
  cr_Value : option string;
  cr_EnvironmentID : option Z;
  cr_Secret : Z }.

Definition CreateReleaseVariable (arg : CreateReleaseVariableParams) : Tx ReleaseVariable := λ s,
  let tables := db_variables s in
  let id := vt_release_seq tables + 1 in
  let row := mkReleaseVariable id (cr_ReleaseID arg) (cr_Name arg) (cr_Value arg)
               (cr_EnvironmentID arg) (db_now s) (cr_Secret arg) in
  if bool_decide (is_Some (db_releases s !! cr_ReleaseID arg))
  then Ok (row, set_variables (vt_set_release_seq id
                  (vt_set_release (<[id := row]> (vt_release tables)) tables)) s)
  else Err ErrConstraint.

Definition DeleteReleaseVariablesByRelease (release : Z) : Tx unit := write (λ s,
  set_variables (vt_set_release (filter (λ kv, rv_ReleaseID kv.2 ≠ release)
    (vt_release (db_variables s))) (db_variables s)) s).

(** ** Names (internal/containerenv/name.go) *)

Definition StageVariable : string := "DURPDEPLOY_STAGE_DIR".
Definition ApprovedVariable : string := "DURPDEPLOY_APPROVED_DIR".
Definition EnvironmentNameVariable : string := "DURPDEPLOY_ENVIRONMENT_NAME".
Definition EnvironmentIDVariable : string := "DURPDEPLOY_ENVIRONMENT_ID".

Definition IsEnvironmentIdentity (name : string) : bool :=
  String.eqb name EnvironmentNameVariable || String.eqb name EnvironmentIDVariable.

Definition letter (c : Ascii.ascii) : bool := byte_in 65 90 c || byte_in 97 122 c || byte_in 95 95 c.

(** The expression [^[A-Za-z_][A-Za-z0-9_]*$]. *)
Definition identifier (name : string) : bool :=
  match name with
  | EmptyString => false
  | String c rest =>
      letter c && forallb (λ c, letter c || byte_in 48 57 c) (String.list_ascii_of_string rest)
  end.

Definition ValidateIdentifier (name : string) : option error :=
  if (255 <? String.length name)%nat || negb (identifier name) then Some ErrIdentifier else None.

Definition ValidateName (name : string) (local : bool) : option error :=
  match ValidateIdentifier name with
  | Some e => Some e
  | None =>
      if String.eqb name "ARTIFACT_PATH" || String.eqb name StageVariable
         || String.eqb name ApprovedVariable || IsEnvironmentIdentity name
      then Some ErrReserved
      else if local &&
              ((name ∈? ["PATH"; "HOME"; "TERM"; "TMPDIR"; "REGISTRY_AUTH_FILE"])
               || existsb (λ p, String.prefix p name)
                    ["XDG_"; "DOCKER_"; "PODMAN_"; "CONTAINER_"; "CONTAINERS_"; "SSH_"])
      then Some ErrReserved else None
  end.

Definition validateVariableName (name : string) : option error :=
  if (255 <? String.length name)%nat || negb (identifier name) then Some ErrVariableName
  else if IsEnvironmentIdentity name then Some ErrReserved else None.

(** The refusals that open the functions saving a variable. *)
Definition refused_name (name : string) : option error :=
  match validateVariableName name with
  | Some e => Some e
  | None =>
      if String.eqb name "ARTIFACT_PATH" then Some ErrArtifactPathReserved
      else if String.eqb name StageVariable || String.eqb name ApprovedVariable then Some ErrReserved
      else None
  end.

(** ** Inheritance *)

(** The name and the environment of a definition. *)
Definition variableScope : Type := (string * option Z)%type.

Record InheritedVariable := mkInherited {
  iv_Variable : LifecycleVariable;
  iv_Override : option Variable_ }.

Definition scope_of_variable (v : Variable_) : variableScope := (v_Name v, v_EnvironmentID v).
Definition scope_of_lifecycle (v : LifecycleVariable) : variableScope := (lv_Name v, lv_EnvironmentID v).

Definition overrides_of (local : list Variable_) : gmap (string * option Z) Variable_ :=
  foldl (λ m v, <[scope_of_variable v := v]> m) ∅ local.

Definition scope_allowed (allowed : list Z) (environment : option Z) : bool :=
  match environment with Some e => bool_decide (e ∈ allowed) | None => true end.

(** The loop over the lifecycle's variables. *)
Definition inherit (allowed : list Z) (shared : list LifecycleVariable) (local : list Variable_)
    : list InheritedVariable :=
  let overrides := overrides_of local in
  (λ v, mkInherited v (overrides !! scope_of_lifecycle v)) <$>
    filter (λ v, scope_allowed allowed (lv_EnvironmentID v) = true) shared.

Section repository.

(** [configured]: the repository has a secret box. *)
Context `{Box} (configured : bool).

Definition encryptValue (nonce : option bytes) (v : option string) : result (option string) :=
  if configured then EncryptNullString nonce v else Ok v.

Definition decryptValue (v : option string) : result (option string) :=
  if configured then DecryptNullString v else Ok v.

Definition displayValue (value : option string) (secret : Z) : result (option string) :=
  if negb (Z.eqb secret 0) then Ok None else decryptValue value.

Definition lift {A} (r : result A) : Tx A := λ s,
  match r with Ok a => Ok (a, s) | Err e => Err e end.

Definition lv_with_value (v : LifecycleVariable) (value : option string) : LifecycleVariable :=
  mkLifecycleVariable (lv_ID v) (lv_LifecycleID v) (lv_Name v) value (lv_EnvironmentID v)
    (lv_Secret v) (lv_IsCredential v).

Definition rv_with_value (v : ReleaseVariable) (value : option string) : ReleaseVariable :=
  mkReleaseVariable (rv_ID v) (rv_ReleaseID v) (rv_Name v) value (rv_EnvironmentID v)
    (rv_CreatedAt v) (rv_Secret v).

Definition v_with_value (v : Variable_) (value : option string) : Variable_ :=
  mkVariable (v_ID v) (v_ProjectID v) (v_Name v) value (v_EnvironmentID v) (v_CreatedAt v)
    (v_Secret v) (v_IsCredential v).

(** [for i := range rows { rows[i], err = f(rows[i]) }] *)
Fixpoint map_result {A B} (f : A → result B) (l : list A) : result (list B) :=
  match l with
  | [] => Ok []
  | x :: l => y ← f x; ys ← map_result f l; Ok (y :: ys)
  end.

Definition Repository_ListReleaseVariablesByRelease (release : Z) : Tx (list ReleaseVariable) :=
  vars ← ListReleaseVariablesByRelease release;
  lift (map_result (λ v, rv_with_value v <$> decryptValue (rv_Value v)) vars).

Definition Repository_ListLifecycleVariables (lifecycle : Z) : Tx (list LifecycleVariable) :=
  vars ← ListLifecycleVariables lifecycle;
  lift (map_result (λ v, lv_with_value v <$> decryptValue (lv_Value v)) vars).

Definition ListLifecycleVariablesForDisplay (lifecycle : Z) : Tx (list LifecycleVariable) :=
  vars ← ListLifecycleVariables lifecycle;
  lift (map_result (λ v, lv_with_value v <$> displayValue (lv_Value v) (lv_Secret v)) vars).

Definition ListProjectVariablesForDisplay (project : Z) : Tx (list Variable_) :=
  vars ← ListVariablesByProject project;
  lift (map_result (λ v, v_with_value v <$> displayValue (v_Value v) (v_Secret v)) vars).

Definition inheritedVariables (project : Project) (local : list Variable_) (display : bool)
    : Tx (option Lifecycle * list InheritedVariable) :=
  match prj_LifecycleID project with
  | None => mret (None, [])
  | Some id =>
      lifecycle ← GetLifecycle id;
      shared ← (if display then ListLifecycleVariablesForDisplay (lc_ID lifecycle)
                else Repository_ListLifecycleVariables (lc_ID lifecycle));
      stages ← ListLifecycleStageEnvironmentIDs (lc_ID lifecycle);
      mret (Some lifecycle, inherit stages shared local)
  end.

Definition InheritedVariables (project : Project) (local : list Variable_)
    : Tx (option Lifecycle * list InheritedVariable) :=
  inheritedVariables project local false.

Definition DeleteProjectVariable (variable : Variable_) (reset : bool) : Tx unit :=
  if negb (Z.eqb (v_IsCredential variable) 0) then fail ErrNoRows
  else if negb reset then DeleteVariable (v_ID variable)
  else DeleteVariableOverrides (v_ProjectID variable) (v_Name variable) (v_EnvironmentID variable).

Definition GetProjectVariableForDisplay (project variable : Z) : Tx Variable_ :=
  row ← GetVariable variable;
  if negb (Z.eqb (v_ProjectID row) project) then fail ErrNoRows
  else lift (v_with_value row <$> displayValue (v_Value row) (v_Secret row)).

Definition ListReleaseVariablesForDisplay (release : Z) : Tx (list ReleaseVariable) :=
  rows ← ListReleaseVariablesByRelease release;
  lift (map_result (λ v, rv_with_value v <$> displayValue (rv_Value v) (rv_Secret v)) rows).

Definition InheritedVariablesForDisplay (project : Project)
    : Tx (option Lifecycle * list InheritedVariable) :=
  local ← ListProjectVariablesForDisplay (prj_ID project);
  inheritedVariables project local true.

(** ** Definitions of a project and of a lifecycle *)

Definition refuse_name (name : string) : Tx unit :=
  match refused_name name with Some e => fail e | None => mret tt end.

Definition decryptVariable (v : Variable_) : Tx Variable_ :=
  lift (v_with_value v <$> decryptValue (v_Value v)).

Definition Repository_ListVariablesByProject (project : Z) : Tx (list Variable_) :=
  vars ← ListVariablesByProject project;
  lift (map_result (λ v, v_with_value v <$> decryptValue (v_Value v)) vars).

Definition Repository_CreateVariable (nonce : option bytes) (arg : CreateVariableParams)
    : Tx Variable_ :=
  refuse_name (cv_Name arg);;
  value ← lift (encryptValue nonce (cv_Value arg));
  v ← CreateVariable (mkVariableParams (cv_ProjectID arg) (cv_Name arg) value (cv_EnvironmentID arg)
        (cv_Secret arg) (cv_IsCredential arg));
  decryptVariable v.

(** [id] is 0 for a new variable. *)
Record LifecycleVariableInput := mkLifecycleVariableInput {
  li_ID : Z;
  li_Params : CreateLifecycleVariableParams }.

Definition checkLifecycleVariableScope (input : LifecycleVariableInput) : Tx unit :=
  GetLifecycle (cl_LifecycleID (li_Params input));;
  match cl_EnvironmentID (li_Params input) with
  | None => mret tt
  | Some e =>
      count ← LifecycleVariableScopeAllowed (cl_LifecycleID (li_Params input)) e;
      if Z.eqb count 0 then fail ErrLifecycleVariableScope else mret tt
  end.

(** A blank value keeps the stored one of an existing secret. *)
Definition keeps_value (input : LifecycleVariableInput) (existing : option LifecycleVariable) : bool :=
  match existing with
  | None => false
  | Some v =>
      negb (Z.eqb (cl_Secret (li_Params input)) 0) && negb (Z.eqb (lv_Secret v) 0)
      && String.eqb (default "" (cl_Value (li_Params input))) ""
  end.

Definition saveLifecycleVariable (nonce : option bytes) (input : LifecycleVariableInput)
    : Tx LifecycleVariable :=
  let params := li_Params input in
  checkLifecycleVariableScope input;;
  existing ← (if Z.eqb (li_ID input) 0 then mret None
              else v ← GetLifecycleVariable (li_ID input) (cl_LifecycleID params); mret (Some v));
  v ← (if keeps_value input existing
       then UpdateLifecycleVariableKeepValue (li_ID input) (cl_LifecycleID params) (cl_Name params)
              (cl_EnvironmentID params) (cl_Secret params)
       else
         value ← lift (encryptValue nonce (cl_Value params));
         if Z.eqb (li_ID input) 0
         then CreateLifecycleVariable (mkLifecycleVariableParams (cl_LifecycleID params) (cl_Name params)
                value (cl_EnvironmentID params) (cl_Secret params) (cl_IsCredential params))
         else UpdateLifecycleVariable (li_ID input) (cl_LifecycleID params) (cl_Name params) value
                (cl_EnvironmentID params) (cl_Secret params));
  lift (lv_with_value v <$> decryptValue (lv_Value v)).

Definition trim_name (input : LifecycleVariableInput) : LifecycleVariableInput :=
  let p := li_Params input in
  mkLifecycleVariableInput (li_ID input)
    (mkLifecycleVariableParams (cl_LifecycleID p) (TrimSpace (cl_Name p)) (cl_Value p)
       (cl_EnvironmentID p) (cl_Secret p) (cl_IsCredential p)).

Definition SaveLifecycleVariable (nonce : option bytes) (input : LifecycleVariableInput) (s : DB)
    : result LifecycleVariable * DB :=
  let input := trim_name input in
  match refused_name (cl_Name (li_Params input)) with
  | Some e => (Err e, s)
  | None => WithTx (saveLifecycleVariable nonce input) s
  end.

(** ** Copying a project's variables into a release (internal/handler/release_snapshot.go) *)

(** The loop of [buildReleaseSnapshot]; [nonces i] is what crypto/rand gives the
    [i]th variable. The release is filled in by [insertVariables]. *)
Fixpoint release_params (nonces : nat → option bytes) (i : nat) (variables : list Variable_)
    : result (list CreateReleaseVariableParams) :=
  match variables with
  | [] => Ok []
  | v :: rest =>
      if String.eqb (v_Name v) StageVariable || String.eqb (v_Name v) ApprovedVariable
      then Err ErrReserved
      else if String.eqb (v_Name v) "ARTIFACT_PATH" then Err ErrArtifactPathReserved
      else
        value ← encryptValue (nonces i) (v_Value v);
        params ← release_params nonces (S i) rest;
        Ok (mkReleaseVariableParams 0 (v_Name v) value (v_EnvironmentID v) (v_Secret v) :: params)
  end.

Definition buildReleaseVariables (nonces : nat → option bytes) (project : Z)
    : Tx (list CreateReleaseVariableParams) :=
  variables ← Repository_ListVariablesByProject project;
  lift (release_params nonces 0 variables).

Definition insertVariables (variables : list CreateReleaseVariableParams) (release : Z) : Tx unit :=
  for_each variables (λ v,
    CreateReleaseVariable (mkReleaseVariableParams release (cr_Name v) (cr_Value v)
      (cr_EnvironmentID v) (cr_Secret v));; mret tt).

(** ** The values captured for a deployment *)

(** encoding/json on the list of variables. *)
Context (marshal : list ReleaseVariable → string) (unmarshal : string → option (list ReleaseVariable)).

Definition decode_snapshot (value : string) : result (list ReleaseVariable) :=
  plain ← decryptValue (Some value);
  match unmarshal (default "" plain) with
  | Some variables => Ok variables
  | None => Err (ErrOther "decode deployment variables")
  end.

(** The four statements of [deploymentVariables], each on the store it runs
    against: outside a transaction other requests may commit between them. *)
Definition deploymentVariablesAt (first second third last : DB) (deployment : Z)
    : result (list ReleaseVariable) :=
  match GetDeploymentVariableSnapshot deployment first with
  | Ok (value, _) => decode_snapshot value
  | Err ErrNoRows =>
      match GetDeployment deployment second with
      | Err e => Err e
      | Ok (d, _) =>
          match Repository_ListReleaseVariablesByRelease (d_ReleaseID d) third with
          | Err e => Err e
          | Ok (legacy, _) =>
              match GetDeploymentVariableSnapshot deployment last with
              | Ok (value, _) => decode_snapshot value
              | Err ErrNoRows => Ok legacy
              | Err e => Err e
              end
          end
      end
  | Err e => Err e
  end.

Definition ListDeploymentVariables := deploymentVariablesAt.

(** Inside a transaction the four statements see one store. *)
Definition deploymentVariables (deployment : Z) : Tx (list ReleaseVariable) := λ s,
  variables ← deploymentVariablesAt s s s s deployment;
  Ok (variables, s).

Definition rv_by_id (a b : ReleaseVariable) : bool := Z.leb (rv_ID a) (rv_ID b).

(** The override handed to [InheritedVariables]: only its scope is set. *)
Definition override_of (v : ReleaseVariable) : Variable_ :=
  mkVariable 0 0 (rv_Name v) None (rv_EnvironmentID v) 0 0 0.

Definition inherited_variable (release : Z) (v : LifecycleVariable) : ReleaseVariable :=
  mkReleaseVariable 0 release (lv_Name v) (lv_Value v) (lv_EnvironmentID v) 0 (lv_Secret v).

Definition rv_with_id (v : ReleaseVariable) (id : Z) : ReleaseVariable :=
  mkReleaseVariable id (rv_ReleaseID v) (rv_Name v) (rv_Value v) (rv_EnvironmentID v)
    (rv_CreatedAt v) (rv_Secret v).

(** [variables[i].ID = int64(i + 1)] *)
Definition number (l : list ReleaseVariable) : list ReleaseVariable :=
  imap (λ i v, rv_with_id v (Z.of_nat i + 1)) l.

Definition captured (release : Z) (inherited : list InheritedVariable) (local : list ReleaseVariable)
    : list ReleaseVariable :=
  number (((λ v, inherited_variable release (iv_Variable v)) <$>
             filter (λ v, iv_Override v = None) inherited) ++ local).

Definition reserved_path (v : ReleaseVariable) : bool :=
  String.eqb (rv_Name v) StageVariable || String.eqb (rv_Name v) ApprovedVariable.

(** The list a capture of the deployment stores. *)
Definition captured_variables (deployment : Deployment) : Tx (list ReleaseVariable) :=
  release ← GetRelease (d_ReleaseID deployment);
  project ← GetProject (rel_ProjectID release);
  local ← Repository_ListReleaseVariablesByRelease (rel_ID release);
  let local := sort_by rv_by_id local in
  inherited ← InheritedVariables project (override_of <$> local);
  let variables := captured (rel_ID release) (snd inherited) local in
  if existsb reserved_path variables then fail ErrReserved else mret variables.

Definition snapshotDeploymentVariables (nonce : option bytes) (deployment : Deployment) : Tx unit :=
  variables ← captured_variables deployment;
  encrypted ← lift (encryptValue nonce (Some (marshal variables)));
  CreateDeploymentVariableSnapshot (d_ID deployment) (default "" encrypted).
End repository.
