(* ===== verification/Resolution.v ===== *)
(** * Resolution: the variables a deployment's steps run with (internal/runner/variables.go) *)
From stdpp Require Import pretty.
From S2P Require Import Prelude Text Db Base64 Secret Variables.

Record ResolvedVariable := mkResolved {
  r_Name : string;
  r_Value : string;
  r_Secret : bool }.

#[global] Instance ResolvedVariable_eq_dec : EqDecision ResolvedVariable.
Proof. solve_decision. Defined.

(** The two maps and the two orders of the loop. *)
Record resolution := mkResolution {
  rs_global : gmap string ResolvedVariable;
  rs_environment : gmap string ResolvedVariable;
  rs_globalOrder : list string;
  rs_environmentOrder : list string }.

Definition no_resolution : resolution := mkResolution ∅ ∅ [] [].

(** [if _, exists := m[name]; !exists { order = append(order, name) }] *)
Definition remember (m : gmap string ResolvedVariable) (order : list string) (name : string)
    : list string :=
  match m !! name with Some _ => order | None => order ++ [name] end.

Definition resolved_of (v : ReleaseVariable) : ResolvedVariable :=
  mkResolved (rv_Name v) (default "" (rv_Value v)) (negb (Z.eqb (rv_Secret v) 0)).

Definition resolve_step (environmentID : Z) (v : ReleaseVariable) (r : resolution) : resolution :=
  match rv_EnvironmentID v with
  | Some e =>
      if negb (Z.eqb e environmentID) then r
      else mkResolution (rs_global r) (<[rv_Name v := resolved_of v]> (rs_environment r))
             (rs_globalOrder r) (remember (rs_environment r) (rs_environmentOrder r) (rv_Name v))
  | None =>
      mkResolution (<[rv_Name v := resolved_of v]> (rs_global r)) (rs_environment r)
        (remember (rs_global r) (rs_globalOrder r) (rv_Name v)) (rs_environmentOrder r)
  end.

Definition empty_name : error := ErrEnvironment "invalid execution environment: release variable name must not be empty".

Fixpoint resolve_loop (environmentID : Z) (ordered : list ReleaseVariable) (r : resolution)
    : result resolution :=
  match ordered with
  | [] => Ok r
  | v :: rest =>
      if blank (rv_Name v) then Err empty_name
      else resolve_loop environmentID rest (resolve_step environmentID v r)
  end.

(** A missing key reads as Go's zero value. *)
Definition value_at (m : gmap string ResolvedVariable) (name : string) : ResolvedVariable :=
  default (mkResolved "" "" false) (m !! name).

Definition resolvedVariablesInOrder (global environment : gmap string ResolvedVariable)
    (globalOrder environmentOrder : list string) : list ResolvedVariable :=
  ((λ name, match environment !! name with
            | Some value => value
            | None => value_at global name
            end) <$> globalOrder)
  ++ (value_at environment <$> filter (λ name, name ∉ globalOrder) environmentOrder).

Definition ResolveReleaseVariables (variables : list ReleaseVariable) (environmentID : Z)
    : result (list ResolvedVariable) :=
  r ← resolve_loop environmentID (sort_by rv_by_id variables) no_resolution;
  Ok (resolvedVariablesInOrder (rs_global r) (rs_environment r) (rs_globalOrder r)
        (rs_environmentOrder r)).

Definition ResolveDeploymentVariables (variables : list ReleaseVariable) (deployment : Deployment)
    : result (list ResolvedVariable) :=
  match d_EnvironmentNameSnapshot deployment with
  | None => Err (ErrEnvironment "invalid execution environment: missing accepted environment identity")
  | Some environment =>
      resolved ← ResolveReleaseVariables variables (d_EnvironmentID deployment);
      Ok (filter (λ v, IsEnvironmentIdentity (r_Name v) = false) resolved
          ++ [mkResolved EnvironmentNameVariable environment false;
              mkResolved EnvironmentIDVariable (pretty (d_EnvironmentID deployment)) false])
  end.

(** ** The declarative reading *)

Definition defines (name : string) (environment : option Z) (v : ReleaseVariable) : Prop :=
  rv_Name v = name ∧ rv_EnvironmentID v = environment.

#[global] Instance defines_dec name environment v : Decision (defines name environment v).
Proof. unfold defines. apply _. Defined.

(** The definitions of [name] in one scope, the last one by ID ahead. *)
Definition latest (variables : list ReleaseVariable) (name : string) (environment : option Z)
    : option ReleaseVariable :=
  last (filter (defines name environment)
          (sort_by rv_by_id variables)).

(** A definition for the environment wins over one without. *)
Definition effective (variables : list ReleaseVariable) (environmentID : Z) (name : string)
    : option ReleaseVariable :=
  match latest variables name (Some environmentID) with
  | Some v => Some v
  | None => latest variables name None
  end.

(** The distinct elements of a list in the order of their first occurrence. *)
Definition firsts (l : list string) : list string := reverse (remove_dups (reverse l)).

Definition in_environment (environment : option Z) (v : ReleaseVariable) : bool :=
  bool_decide (rv_EnvironmentID v = environment).

Definition names_in (environment : option Z) (ordered : list ReleaseVariable) : list string :=
  rv_Name <$> filter (λ v, in_environment environment v = true) ordered.

(** The names of the resolution, in its order. *)
Definition resolved_names (variables : list ReleaseVariable) (environmentID : Z) : list string :=
  let ordered := sort_by rv_by_id variables in
  firsts (names_in None ordered ++ names_in (Some environmentID) ordered).

(** Reference definition of [ResolveReleaseVariables]. *)
Definition resolution_of (variables : list ReleaseVariable) (environmentID : Z)
    : result (list ResolvedVariable) :=
  if existsb (λ v, blank (rv_Name v)) variables then Err empty_name
  else Ok (omap (λ name, resolved_of <$> effective variables environmentID name)
             (resolved_names variables environmentID)).

(** ** First occurrences *)

Lemma firsts_snoc l x : firsts (l ++ [x]) = if decide (x ∈ l) then firsts l else firsts l ++ [x].
Proof.
  unfold firsts. rewrite reverse_app. cbn [reverse]. change (reverse [x]) with [x].
  cbn [app remove_dups]. destruct (decide_rel (∈) x (reverse l)) as [H|H];
    rewrite elem_of_reverse in H; [by rewrite decide_True|].
  by rewrite decide_False, reverse_cons.
Qed.

Lemma elem_of_firsts l x : x ∈ firsts l ↔ x ∈ l.
Proof. unfold firsts. by rewrite elem_of_reverse, elem_of_remove_dups, elem_of_reverse. Qed.

Lemma NoDup_firsts l : NoDup (firsts l).
Proof. unfold firsts. rewrite reverse_Permutation. apply NoDup_remove_dups. Qed.

Lemma firsts_app l k : firsts (l ++ k) = firsts l ++ filter (λ x, x ∉ firsts l) (firsts k).
Proof.
  induction k as [|x k IH] using rev_ind; [by rewrite !app_nil_r|].
  rewrite app_assoc, !firsts_snoc. destruct (decide (x ∈ k)) as [Hk|Hk].
  { rewrite decide_True by (apply elem_of_app; by right). by rewrite IH. }
  rewrite filter_app, filter_cons, filter_nil. destruct (decide (x ∈ l)) as [Hl|Hl].
  - rewrite decide_True by (apply elem_of_app; by left). rewrite IH.
    rewrite decide_False by (rewrite elem_of_firsts; naive_solver). by rewrite app_nil_r.
  - rewrite decide_False by (rewrite elem_of_app; naive_solver).
    by rewrite decide_True, IH, app_assoc by (by rewrite elem_of_firsts).
Qed.

(** ** The loop's maps and orders *)

(** What the loop has recorded after the definitions [l]. *)
Record recorded (environmentID : Z) (l : list ReleaseVariable) (r : resolution) : Prop := {
  rd_global : ∀ name, rs_global r !! name =
    resolved_of <$> last (filter (defines name None) l);
  rd_environment : ∀ name, rs_environment r !! name =
    resolved_of <$> last (filter (defines name (Some environmentID)) l);
  rd_globalOrder : rs_globalOrder r = firsts (names_in None l);
  rd_environmentOrder : rs_environmentOrder r = firsts (names_in (Some environmentID) l) }.

Lemma names_in_snoc environment l v :
  names_in environment (l ++ [v]) =
  names_in environment l ++ (if in_environment environment v then [rv_Name v] else []).
Proof.
  unfold names_in. rewrite filter_app, fmap_app, filter_cons, filter_nil.
  by destruct (in_environment environment v).
Qed.

Lemma elem_of_names_in environment l name :
  name ∈ names_in environment l ↔
  is_Some (last (filter (defines name environment) l)).
Proof.
  rewrite last_filter_in. unfold names_in, in_environment, defines. rewrite list_elem_of_fmap.
  setoid_rewrite list_elem_of_filter. setoid_rewrite bool_decide_eq_true. naive_solver.
Qed.

Lemma remember_snoc (m : gmap string ResolvedVariable) l environment name :
  m !! name = resolved_of <$> last (filter (defines name environment) l) →
  remember m (firsts (names_in environment l)) name = firsts (names_in environment l ++ [name]).
Proof.
  intros Hm. unfold remember. rewrite firsts_snoc, Hm.
  pose proof (elem_of_names_in environment l name) as Hin.
  destruct (last _) as [v|]; cbn.
  - rewrite decide_True; [done|]. apply Hin. by eexists.
  - rewrite decide_False; [done|]. intros H. apply Hin in H. by apply is_Some_None in H.
Qed.

Lemma recorded_none environmentID : recorded environmentID [] no_resolution.
Proof. by split. Qed.

Lemma recorded_step environmentID l v r :
  recorded environmentID l r → recorded environmentID (l ++ [v]) (resolve_step environmentID v r).
Proof.
  intros [Hg He Hgo Heo]. unfold resolve_step. destruct (rv_EnvironmentID v) as [e|] eqn:E.
  - destruct (Z.eqb_spec e environmentID) as [->|Hne]; cbn [negb].
    + split; intros; cbn [rs_global rs_environment rs_globalOrder rs_environmentOrder].
      * rewrite last_filter_snoc, decide_False by (unfold defines; naive_solver). by apply Hg.
      * rewrite last_filter_snoc. destruct (decide (rv_Name v = name)) as [Hn|Hn].
        -- rewrite decide_True by (by split). by rewrite Hn, lookup_insert_eq.
        -- by rewrite decide_False, lookup_insert_ne by (unfold defines; naive_solver).
      * rewrite names_in_snoc. unfold in_environment. rewrite E. cbn. by rewrite app_nil_r.
      * rewrite names_in_snoc. unfold in_environment. rewrite E, bool_decide_true by done.
        rewrite Heo. apply remember_snoc, He.
    + split; intros.
      * rewrite last_filter_snoc, decide_False by (unfold defines; naive_solver). by apply Hg.
      * rewrite last_filter_snoc, decide_False by (unfold defines; naive_solver). by apply He.
      * rewrite names_in_snoc. unfold in_environment. rewrite E. cbn. by rewrite app_nil_r.
      * rewrite names_in_snoc. unfold in_environment. rewrite E, bool_decide_false by naive_solver.
        by rewrite app_nil_r.
  - split; intros; cbn [rs_global rs_environment rs_globalOrder rs_environmentOrder].
    + rewrite last_filter_snoc. destruct (decide (rv_Name v = name)) as [Hn|Hn].
      * rewrite decide_True by (by split). by rewrite Hn, lookup_insert_eq.
      * by rewrite decide_False, lookup_insert_ne by (unfold defines; naive_solver).
    + rewrite last_filter_snoc, decide_False by (unfold defines; naive_solver). by apply He.
    + rewrite names_in_snoc. unfold in_environment. rewrite E, bool_decide_true by done.
      rewrite Hgo. apply remember_snoc, Hg.
    + rewrite names_in_snoc. unfold in_environment. rewrite E. cbn. by rewrite app_nil_r.
Qed.

Lemma resolve_loop_spec environmentID rest l r :
  recorded environmentID l r →
  if existsb (λ v, blank (rv_Name v)) rest
  then resolve_loop environmentID rest r = Err empty_name
  else ∃ r', resolve_loop environmentID rest r = Ok r' ∧ recorded environmentID (l ++ rest) r'.
Proof.
  revert l r. induction rest as [|v rest IH]; intros l r Hr; cbn [existsb resolve_loop].
  { exists r. by rewrite app_nil_r. }
  destruct (blank (rv_Name v)); [done|]. cbn [orb].
  specialize (IH (l ++ [v]) _ (recorded_step _ _ _ _ Hr)). by rewrite <-app_assoc in IH.
Qed.

(** A definition's lookup in the loop's maps is the declarative one. *)
Lemma recorded_effective variables environmentID r name :
  recorded environmentID (sort_by rv_by_id variables) r →
  (match rs_environment r !! name with Some v => Some v | None => rs_global r !! name end)
  = resolved_of <$> effective variables environmentID name.
Proof.
  intros [Hg He _ _]. rewrite He, Hg. unfold effective, latest.
  by destruct (last (filter (defines _ (Some _)) _)).
Qed.

Lemma resolvedVariablesInOrder_recorded variables environmentID r :
  recorded environmentID (sort_by rv_by_id variables) r →
  resolvedVariablesInOrder (rs_global r) (rs_environment r) (rs_globalOrder r) (rs_environmentOrder r)
  = omap (λ name, resolved_of <$> effective variables environmentID name)
      (resolved_names variables environmentID).
Proof.
  intros Hr. pose proof (λ name, recorded_effective variables environmentID r name Hr) as Heff. pose proof Hr as [Hg He Hgo Heo].
  unfold resolvedVariablesInOrder, resolved_names. rewrite firsts_app, omap_app, Hgo, Heo.
  f_equal; symmetry; apply omap_fmap_total.
  - intros name Hn. apply elem_of_firsts, elem_of_names_in in Hn.
    rewrite <-Heff. destruct (rs_environment r !! name); [done|].
    unfold value_at. rewrite Hg. by destruct Hn as [v ->].
  - intros name Hn. apply list_elem_of_filter in Hn as [_ Hn]. apply elem_of_firsts, elem_of_names_in in Hn.
    rewrite <-Heff. unfold value_at. rewrite He. by destruct Hn as [v ->].
Qed.

Lemma ResolveReleaseVariables_resolution variables environmentID :
  ResolveReleaseVariables variables environmentID = resolution_of variables environmentID.
Proof.
  unfold ResolveReleaseVariables, resolution_of.
  pose proof (resolve_loop_spec environmentID (sort_by rv_by_id variables) [] _ (recorded_none _)) as H.
  rewrite (existsb_perm _ _ _ (sort_by_perm rv_by_id variables)) in H.
  destruct (existsb _ variables); [by rewrite H|]. destruct H as (r & -> & Hr). cbn.
  f_equal. by apply resolvedVariablesInOrder_recorded.
Qed.
