(* ===== verification/Preview.v ===== *)
(** * Preview: the variables an author can use (internal/repository)

    available_variables.go, available_variable_runtime.go and
    variable_environments.go: which definitions of a project and its lifecycle
    take effect in an environment. *)
From stdpp Require Import pretty.
From S2P Require Import Prelude Text Db Tx QueueQueries DispatchQueries StageQueries AccessQueries Base64 Secret Variables.

Record VariableDefinition := mkDefinition {
  vd_Key : string;
  vd_Name : string;
  vd_Source : string;
  vd_SourceName : string;
  vd_EnvironmentID : option Z;
  vd_Scope : string;
  vd_Secret : bool;
  vd_Value : option string;
  vd_Description : string;
  vd_Effective : bool;
  vd_Status : string;
  vd_Reason : string;
  vd_OverriddenBy : string;
  vd_Reference : string }.

#[export] Instance VariableDefinition_eta : Eta VariableDefinition := λ v,
  mkDefinition (vd_Key v) (vd_Name v) (vd_Source v) (vd_SourceName v) (vd_EnvironmentID v)
    (vd_Scope v) (vd_Secret v) (vd_Value v) (vd_Description v) (vd_Effective v) (vd_Status v)
    (vd_Reason v) (vd_OverriddenBy v) (vd_Reference v).

Definition vd_set_EnvironmentID : option Z → VariableDefinition → VariableDefinition :=
  ltac:(set_field vd_EnvironmentID).
Definition vd_set_Scope : string → VariableDefinition → VariableDefinition := ltac:(set_field vd_Scope).
Definition vd_set_Value : option string → VariableDefinition → VariableDefinition :=
  ltac:(set_field vd_Value).
Definition vd_set_Effective : bool → VariableDefinition → VariableDefinition :=
  ltac:(set_field vd_Effective).
Definition vd_set_Status : string → VariableDefinition → VariableDefinition := ltac:(set_field vd_Status).
Definition vd_set_Reason : string → VariableDefinition → VariableDefinition := ltac:(set_field vd_Reason).
Definition vd_set_OverriddenBy : string → VariableDefinition → VariableDefinition :=
  ltac:(set_field vd_OverriddenBy).
Definition vd_set_Reference : string → VariableDefinition → VariableDefinition :=
  ltac:(set_field vd_Reference).

Record VariableContext := mkContext {
  vc_Kind : string;
  vc_EnvironmentID : Z;
  vc_Interpreter : string;
  vc_Target : string;
  vc_AgentMode : string;
  vc_VariableNames : list string }.

Record AvailableVariables := mkAvailable {
  av_Configured : list VariableDefinition;
  av_Predefined : list VariableDefinition;
  av_Environments : list (Z * string);
  av_Context : VariableContext;
  av_Warnings : list string }.

(** ** Runtime (available_variable_runtime.go) *)

Definition double_quote : string := String (Ascii.ascii_of_nat 34) "".

Definition invalid_identifier (name : string) (local : bool) : bool :=
  bool_decide (ValidateName name local = Some ErrIdentifier).

(** [strconv.Quote] of an identifier puts it between quotes. *)
Definition variableReference (name language : string) : string :=
  if invalid_identifier name false then ""
  else if String.eqb language "pwsh" then "$env:" +:+ name
  else if String.eqb language "python3"
  then "os.environ.get(" +:+ double_quote +:+ name +:+ double_quote +:+ ")"
  else "${" +:+ name +:+ "}".

Definition agentReservedVariable (name : string) : bool :=
  String.prefix "LD_" name
  || (name ∈? ["GODEBUG"; "GOTRACEBACK"; "GOMEMLIMIT"; "GOMAXPROCS"; "BASH_ENV"; "ENV"]).

Definition configuredAvailability (preview : VariableContext) (name : string) : string * string :=
  if String.eqb (vc_Kind preview) "ansible" then
    if negb (name ∈? vc_VariableNames preview)
    then ("excluded", "Not selected by an Ansible extra-variable mapping.")
    else ("available", "Selected by an Ansible extra-variable mapping.")
  else if bool_decide (vc_VariableNames preview ≠ []) && negb (name ∈? vc_VariableNames preview)
  then ("excluded", "Excluded by this step's variable_names restriction.")
  else
    let container := String.eqb (vc_Target preview) "local"
                     || String.eqb (vc_AgentMode preview) "container" in
    if String.eqb name "ARTIFACT_PATH"
    then ("conditional", "Legacy configured value only without a package; a package supplies the managed path instead.")
    else match ValidateName name container with
         | Some _ => ("unsupported", "Invalid or reserved for this execution target.")
         | None =>
             if String.eqb (vc_Target preview) "agent" && container && agentReservedVariable name
             then ("unsupported", "Reserved by the agent container runtime.")
             else ("available", "Passed to this step in the selected environment.")
         end.

Definition runtime_definition (preview : VariableContext) (name description status reason : string)
    : VariableDefinition :=
  mkDefinition ("runtime:" +:+ name) name "runtime" "DurpDeploy" None "Execution" false None
    description false status reason "" (variableReference name (vc_Interpreter preview)).

Definition managed_path (preview : VariableContext) (d : string * string * string)
    : VariableDefinition :=
  let '(name, description, reason) := d in
  let v := runtime_definition preview name description "conditional"
             (reason +:+ " Managed paths bypass variable_names.") in
  if String.eqb (vc_Target preview) "agent" && String.eqb name ApprovedVariable
  then vd_set_Reason "The supported remote agent does not inject this variable."
         (vd_set_Status "unsupported" v)
  else v.

Definition runtime_identity (preview : VariableContext) (d : string * string) : VariableDefinition :=
  runtime_definition preview (fst d) (snd d) "available"
    "Available in every deployment step. Runtime identity values bypass variable_names and replace conflicting legacy definitions. Retries retain accepted identity.".

(** The last loop of [addPredefined], for Ansible steps. *)
Definition ansible_mapping (preview : VariableContext) (v : VariableDefinition) : VariableDefinition :=
  let v := vd_set_Reference "" v in
  if negb (vd_Name v ∈? vc_VariableNames preview)
  then vd_set_Reason "Requires an explicit Ansible extra-variable mapping." (vd_set_Status "excluded" v)
  else if String.eqb (vd_Status v) "available"
  then vd_set_Reason "Mapped from the accepted environment identity." v
  else v.

Definition addPredefined (result : AvailableVariables) : AvailableVariables :=
  let preview := av_Context result in
  let added :=
    (managed_path preview <$>
      [("ARTIFACT_PATH", "Read-only deployment package directory.",
        "Requires a deployment package. The path is assigned at execution.");
       (StageVariable, "Shared deployment staging directory.",
        "Requires deployment staging support and a managed staging directory or volume. The path is assigned at execution.");
       (ApprovedVariable, "Read-only approved artifact directory.",
        "Requires a prior approved artifact and its mounted volume. The path is assigned at execution.")])
    ++ (runtime_identity preview <$>
      [(EnvironmentNameVariable, "Target environment name captured when the deployment is accepted.");
       (EnvironmentIDVariable, "Target environment numeric ID, represented as a string.")]) in
  let predefined := av_Predefined result ++ added in
  mkAvailable (av_Configured result)
    (if String.eqb (vc_Kind preview) "ansible" then ansible_mapping preview <$> predefined else predefined)
    (av_Environments result) preview (av_Warnings result).

(** ** Precedence *)

Definition scopeKey (v : VariableDefinition) : variableScope := (vd_Name v, vd_EnvironmentID v).

(** [scopes[v.scopeKey()] = i], in order. *)
Fixpoint index_scopes (i : nat) (l : list VariableDefinition) (scopes : gmap (string * option Z) nat)
    : gmap (string * option Z) nat :=
  match l with
  | [] => scopes
  | v :: l => index_scopes (S i) l (<[scopeKey v := i]> scopes)
  end.

(** A key that is missing reads as 0. *)
Definition configuredWinner (preview : VariableContext) (v : VariableDefinition)
    (scopes : gmap (string * option Z) nat) : nat :=
  let own := default 0%nat (scopes !! scopeKey v) in
  if negb (Z.eqb (vc_EnvironmentID preview) 0) && bool_decide (vd_EnvironmentID v = None)
  then default own (scopes !! (vd_Name v, Some (vc_EnvironmentID preview)))
  else own.

Definition another_environment (preview : VariableContext) (v : VariableDefinition) : bool :=
  match vd_EnvironmentID v with
  | Some e => negb (Z.eqb e (vc_EnvironmentID preview))
  | None => false
  end.

Definition resolve_definition (preview : VariableContext) (configured : list VariableDefinition)
    (scopes : gmap (string * option Z) nat) (i : nat) (v : VariableDefinition) : VariableDefinition :=
  let v := vd_set_Reference
             (if String.eqb (vc_Kind preview) "ansible" then ""
              else variableReference (vd_Name v) (vc_Interpreter preview)) v in
  let winner := configuredWinner preview v scopes in
  if IsEnvironmentIdentity (vd_Name v) then
    vd_set_OverriddenBy ("runtime:" +:+ vd_Name v)
      (vd_set_Reason "Reserved runtime identity replaces this legacy definition during execution."
        (vd_set_Status "overridden" v))
  else if negb (winner =? i)%nat then
    vd_set_OverriddenBy (default "" (vd_Key <$> configured !! winner))
      (vd_set_Reason "Another definition takes precedence." (vd_set_Status "overridden" v))
  else if Z.eqb (vc_EnvironmentID preview) 0 then
    vd_set_Reason "Select an environment to determine effective values."
      (vd_set_Status "requires_environment" v)
  else if another_environment preview v then
    vd_set_Reason "Configured for another environment." (vd_set_Status "out_of_scope" v)
  else
    let '(status, reason) := configuredAvailability preview (vd_Name v) in
    vd_set_Reason reason (vd_set_Status status (vd_set_Effective true v)).

Definition selection_found (preview : VariableContext) (configured : list VariableDefinition)
    (name : string) : bool :=
  existsb (λ v, String.eqb (vd_Name v) name && (vd_Effective v || Z.eqb (vc_EnvironmentID preview) 0))
    configured.

Definition warnMissingSelections (preview : VariableContext) (configured : list VariableDefinition)
    : list string :=
  (λ name, "Selected variable " +:+ name +:+ " has no value in this environment.") <$>
    filter (λ name, (IsEnvironmentIdentity name || selection_found preview configured name) = false)
      (vc_VariableNames preview).

Definition resolved_definitions (preview : VariableContext) (configured : list VariableDefinition)
    : list VariableDefinition :=
  imap (resolve_definition preview configured (index_scopes 0 configured ∅)) configured.

Definition resolveConfigured (result : AvailableVariables) : AvailableVariables :=
  let preview := av_Context result in
  let configured := resolved_definitions preview (av_Configured result) in
  mkAvailable configured (av_Predefined result) (av_Environments result) preview
    (av_Warnings result ++ warnMissingSelections preview configured
     ++ (if Z.eqb (vc_EnvironmentID preview) 0
         then ["Unscoped defaults can be replaced by environment-specific values."] else [])
     ++ ["Current project and lifecycle definitions are shown. Existing release and deployment snapshots are unchanged."]).

Definition variableDefinition (v : VariableDefinition) (environment : option Z)
    (value : option string) (environments : gmap Z string) : VariableDefinition :=
  let v := vd_set_Scope "Unscoped default" v in
  let v := if vd_Secret v then v else vd_set_Value (Some (default "" value)) v in
  match environment with
  | None => v
  | Some e =>
      let name := default "" (environments !! e) in
      vd_set_Scope (if String.eqb name "" then "Environment #" +:+ pretty e else name)
        (vd_set_EnvironmentID environment v)
  end.

(** ** The catalog *)

(** ORDER BY created_at DESC; rows of the same second come in the order of their
    ids. A row is shown by its id and name. *)
Definition ListEnvironments : Tx (list (Z * string)) := read (λ s,
  (λ row : Z * Environment, (row.1, e_Name row.2)) <$>
    sort_by (by_created_desc (λ row : Z * Environment, e_CreatedAt row.2) fst)
      (map_to_list (db_environments s))).

(** Every environment, and those a new scope may name. *)
Definition VariableEnvironments (project : Project) : Tx (list (Z * string) * list (Z * string)) :=
  all ← ListEnvironments;
  match prj_LifecycleID project with
  | None => mret (all, all)
  | Some lifecycle =>
      stages ← ListLifecycleStageEnvironmentIDs lifecycle;
      mret (all, filter (λ e, fst e ∈ stages) all)
  end.

Definition VariableEnvironmentAllowed (project : Z) (environment : option Z) : Tx bool :=
  match environment with
  | None => mret true
  | Some e =>
      p ← GetProject project;
      match prj_LifecycleID p with
      | None => mret true
      | Some lifecycle =>
          stages ← ListLifecycleStageEnvironmentIDs lifecycle;
          mret (bool_decide (e ∈ stages))
      end
  end.

Definition lifecycle_definition (lifecycle : option Lifecycle) (names : gmap Z string)
    (v : LifecycleVariable) : VariableDefinition :=
  variableDefinition
    (mkDefinition ("lifecycle:" +:+ pretty (lv_ID v)) (lv_Name v) "lifecycle"
       (default "" (lc_Name <$> lifecycle)) None "" (negb (Z.eqb (lv_Secret v) 0)) None "" false "" "" "" "")
    (lv_EnvironmentID v) (lv_Value v) names.

Definition project_definition (project : Project) (names : gmap Z string) (v : Variable_)
    : VariableDefinition :=
  variableDefinition
    (mkDefinition ("project:" +:+ pretty (v_ID v)) (v_Name v) "project" (prj_Name project) None ""
       (negb (Z.eqb (v_Secret v) 0)) None "" false "" "" "" "")
    (v_EnvironmentID v) (v_Value v) names.

Definition v_by_id (a b : Variable_) : bool := Z.leb (v_ID a) (v_ID b).

(** [result.Configured] before resolution. *)
Definition configured_definitions (project : Project) (lifecycle : option Lifecycle)
    (names : gmap Z string) (inherited : list InheritedVariable) (local : list Variable_)
    : list VariableDefinition :=
  ((λ v, lifecycle_definition lifecycle names (iv_Variable v)) <$> inherited)
  ++ (project_definition project names <$> local).

Section catalog.
Context `{Box} (configured : bool).

Definition Repository_AvailableVariables (project : Project) (preview : VariableContext)
    : Tx AvailableVariables :=
  environments ← VariableEnvironments project;
  let options := snd environments in
  let names := list_to_map options in
  local ← ListProjectVariablesForDisplay configured (prj_ID project);
  let local := sort_by v_by_id local in
  inherited ← inheritedVariables configured project local true;
  mret (addPredefined (resolveConfigured
    (mkAvailable (configured_definitions project (fst inherited) names (snd inherited) local)
       [] options preview []))).
End catalog.
