(* ===== verification/VariableTheorems.v ===== *)
(** * VariableTheorems: the values a deployment runs with

    What [ResolveDeploymentVariables] returns, what a capture stores and what it
    is read from, and what a read of the stored value returns. *)
From stdpp Require Import pretty.
From S2P Require Import Prelude Text Db Tx QueueQueries DispatchQueries StageQueries AccessQueries Base64 Secret Variables Resolution Preview.

(** ** Resolved values *)

Lemma effective_name variables environmentID name v :
  effective variables environmentID name = Some v → rv_Name v = name.
Proof.
  intros H. unfold effective, latest in H.
  destruct (last _) as [w|] eqn:E; [injection H as <-|];
    apply last_filter_at in E as (_ & _ & [H1 _] & _) || apply last_filter_at in H as (_ & _ & [H1 _] & _);
    exact H1.
Qed.

Lemma filter_omap_names variables environmentID name names :
  NoDup names → (is_Some (effective variables environmentID name) → name ∈ names) →
  filter (λ r, r_Name r = name)
    (omap (λ name, resolved_of <$> effective variables environmentID name) names)
  = option_list (resolved_of <$> effective variables environmentID name).
Proof.
  pose proof (effective_name variables environmentID : ∀ n v, _ → r_Name (resolved_of v) = n) as Hname.
  induction names as [|n names IH]; intros Hnd Hin.
  { destruct (effective _ _ name) eqn:E; [|done]. by destruct (not_elem_of_nil name (Hin ltac:(by eexists))). }
  apply NoDup_cons in Hnd as [Hn Hnd]. cbn [omap list_omap].
  destruct (decide (n = name)) as [->|Hne].
  - destruct (effective _ _ name) as [v|] eqn:E;
      cbn [fmap option_fmap option_map option_list].
    + rewrite filter_cons, decide_True by (by apply Hname). rewrite filter_none; [done|].
      intros r Hr. apply list_elem_of_omap in Hr as (m & Hm & Hr).
      destruct (effective _ _ m) as [w|] eqn:Ew; [|done]. injection Hr as <-.
      rewrite (Hname m w Ew). intros ->. done.
    + rewrite IH; [done|done|]. intros []%is_Some_None.
  - assert (is_Some (effective variables environmentID name) → name ∈ names) as Hin'.
    { intros H. apply Hin, elem_of_cons in H as [->|H]; [done|exact H]. }
    specialize (IH Hnd Hin'). destruct (effective _ _ n) as [v|] eqn:E;
      cbn [fmap option_fmap option_map]; [|exact IH].
    rewrite filter_cons, decide_False; [exact IH|]. by rewrite (Hname n v E).
Qed.

Lemma effective_resolved_names variables environmentID name :
  is_Some (effective variables environmentID name) → name ∈ resolved_names variables environmentID.
Proof.
  unfold effective, latest, resolved_names. intros H. rewrite elem_of_firsts, elem_of_app, !elem_of_names_in.
  destruct (last (filter (defines name (Some environmentID)) _)); [right; by eexists|by left].
Qed.

(** The values of one name in a successful resolution. *)
Lemma resolution_at variables environmentID rs name :
  ResolveReleaseVariables variables environmentID = Ok rs →
  filter (λ r, r_Name r = name) rs = option_list (resolved_of <$> effective variables environmentID name).
Proof.
  rewrite ResolveReleaseVariables_resolution. unfold resolution_of.
  destruct (existsb _ _); [done|]. intros [= <-].
  apply filter_omap_names; [apply NoDup_firsts|apply effective_resolved_names].
Qed.

Lemma resolved_names_effective variables environmentID name :
  name ∈ resolved_names variables environmentID → is_Some (effective variables environmentID name).
Proof.
  unfold effective, latest, resolved_names. rewrite elem_of_firsts, elem_of_app, !elem_of_names_in.
  destruct (last (filter (defines name (Some environmentID)) _)); [by eexists|].
  intros [H|H]; [done|by apply is_Some_None in H].
Qed.

Lemma names_of_omap (P : string → Prop) `{∀ n, Decision (P n)} (f : string → option ResolvedVariable)
    (names : list string) :
  (∀ n, n ∈ names → ∃ r, f n = Some r ∧ r_Name r = n) →
  r_Name <$> filter (λ r, P (r_Name r)) (omap f names) = filter P names.
Proof.
  induction names as [|n names IH]; intros Hf; [done|]. cbn [omap list_omap].
  destruct (Hf n) as (r & -> & Hr); [left|]. rewrite !filter_cons.
  specialize (IH (λ m Hm, Hf m (list_elem_of_further _ _ _ Hm))).
  destruct (decide (P n)) as [HP|HP].
  - rewrite decide_True by by rewrite Hr. cbn [fmap list_fmap]. by rewrite Hr, IH.
  - by rewrite decide_False by by rewrite Hr.
Qed.

Lemma names_of_resolution variables environmentID (P : string → Prop) `{∀ n, Decision (P n)} :
  r_Name <$> filter (λ r, P (r_Name r))
    (omap (λ name, resolved_of <$> effective variables environmentID name)
       (resolved_names variables environmentID))
  = filter P (resolved_names variables environmentID).
Proof.
  apply names_of_omap. intros n Hn. apply resolved_names_effective in Hn as [v Hv].
  exists (resolved_of v). rewrite Hv. split; [done|]. by eapply effective_name.
Qed.

(** C34: what a step is given. Without an accepted environment identity, or with
    a blank name, nothing. Otherwise every name of a definition that is unscoped
    or scoped to the deployment's environment appears once; its value is the
    last such definition by ID, one for the environment before an unscoped one;
    unscoped names come first, each in the order of its first definition. The
    two identity variables are the accepted environment, whatever definitions
    carry their names. *)
Theorem resolve_deployment (variables : list ReleaseVariable) (d : Deployment) :
  match d_EnvironmentNameSnapshot d with
  | None => ∃ m, ResolveDeploymentVariables variables d = Err (ErrEnvironment m)
  | Some environment =>
      if existsb (λ v, blank (rv_Name v)) variables
      then ResolveDeploymentVariables variables d = Err empty_name
      else ∃ rs, ResolveDeploymentVariables variables d =
                 Ok (rs ++ [mkResolved EnvironmentNameVariable environment false;
                            mkResolved EnvironmentIDVariable (pretty (d_EnvironmentID d)) false]) ∧
        r_Name <$> rs = filter (λ name, IsEnvironmentIdentity name = false)
                          (resolved_names variables (d_EnvironmentID d)) ∧
        NoDup (r_Name <$> rs) ∧
        ∀ name, IsEnvironmentIdentity name = false →
          filter (λ r, r_Name r = name) rs
          = option_list (resolved_of <$> effective variables (d_EnvironmentID d) name)
  end.
Proof.
  unfold ResolveDeploymentVariables. destruct (d_EnvironmentNameSnapshot d) as [environment|]; [|by eexists].
  pose proof (resolution_at variables (d_EnvironmentID d)) as Hat.
  rewrite ResolveReleaseVariables_resolution in Hat |- *.
  unfold resolution_of in Hat |- *. destruct (existsb _ variables); [done|].
  eexists. split; [reflexivity|].
  pose proof (names_of_resolution variables (d_EnvironmentID d)
    (λ name, IsEnvironmentIdentity name = false)) as Hnames.
  split; [exact Hnames|]. split; [unfold mbind; cbn -[filter]; rewrite Hnames; apply NoDup_filter, NoDup_firsts|].
  intros name Hname. rewrite <-(Hat _ name eq_refl). rewrite list_filter_filter_l; [done|].
  by intros r ->.
Qed.

(** ** Captures *)

Section values.
Context `{BoxLaws} (configured : bool).

Lemma decrypt_encryptValue nonce v :
  length nonce = NonceSize → Forall is_byte nonce →
  ∃ c, encryptValue configured (Some nonce) v = Ok c ∧ decryptValue configured c = Ok v ∧
    (is_Some v ↔ is_Some c).
Proof.
  intros Hlen Hnonce. unfold encryptValue, decryptValue. destruct configured; [|by exists v].
  destruct (Decrypt_Encrypt_null nonce v) as (c & ? & ? & ? & _); [done..|]. by exists c.
Qed.
End values.

Lemma lift_ok {A} (r : result A) s a s' : lift r s = Ok (a, s') ↔ r = Ok a ∧ s' = s.
Proof. unfold lift. destruct r; naive_solver. Qed.

Lemma readonly_lift {A} (r : result A) : readonly (lift r).
Proof. intros s a s' H. apply lift_ok in H. naive_solver. Qed.

#[export] Instance same_store_refl : Reflexive (λ s s' : DB, s' = s).
Proof. done. Qed.
#[export] Instance same_store_trans : Transitive (λ s s' : DB, s' = s).
Proof. intros s1 s2 s3 -> ->. done. Qed.

Lemma readonly_captured `{Box} configured d : readonly (captured_variables configured d).
Proof.
  unfold readonly, captured_variables, InheritedVariables, inheritedVariables,
    Repository_ListReleaseVariablesByRelease, Repository_ListLifecycleVariables.
  respects; try apply readonly_lift; unfold respects; intros; repeat case_match; naive_solver.
Qed.

(** The text encoding/json carries unchanged. *)
Definition json_text (v : ReleaseVariable) : bool :=
  ValidString (rv_Name v) && ValidString (default "" (rv_Value v)).

(** What a capture stores, whatever the box is. *)
Lemma snapshot_exact `{Box} configured marshal nonce d s s' :
  snapshotDeploymentVariables configured marshal nonce d s = Ok (tt, s') →
  ∃ l c, captured_variables configured d s = Ok (l, s) ∧
    encryptValue configured nonce (Some (marshal l)) = Ok c ∧
    vt_snapshots (db_variables s) !! d_ID d = None ∧
    s' = set_variables (vt_set_snapshots (<[d_ID d := default "" c]> (vt_snapshots (db_variables s)))
           (db_variables s)) s.
Proof.
  unfold snapshotDeploymentVariables. intros (l & s1 & Hl & Hs)%bind_inv.
  pose proof (readonly_captured _ _ _ _ _ Hl) as ->.
  apply bind_inv in Hs as (c & s2 & Hc & Hs). apply lift_ok in Hc as [Hc ->].
  exists l, c. split; [done|]. split; [done|]. revert Hs. unfold CreateDeploymentVariableSnapshot.
  destruct (_ && _) eqn:E; [|done]. apply andb_true_iff in E as [E%bool_decide_eq_true _]. by intros [= <-].
Qed.

Section capture.
Context `{BoxLaws} (configured : bool).
Context (marshal : list ReleaseVariable → string) (unmarshal : string → option (list ReleaseVariable)).

(** The stored text decrypts to the encoded list, if one was stored. *)
Lemma encrypted_text nonce l c :
  (∀ n, nonce = Some n → length n = NonceSize ∧ Forall is_byte n) →
  encryptValue configured nonce (Some (marshal l)) = Ok c →
  decryptValue configured (Some (default "" c)) = Ok (Some (marshal l)).
Proof.
  intros Hn Hc. destruct nonce as [n|].
  - destruct (Hn n eq_refl) as [Hlen Hnonce].
    destruct (decrypt_encryptValue configured n (Some (marshal l))) as (c' & Hc' & Hdec & Hsome); [done..|].
    rewrite Hc in Hc'. injection Hc' as <-. destruct Hsome as [Hsome _].
    by destruct (Hsome ltac:(by eexists)) as [value ->].
  - revert Hc. unfold encryptValue, decryptValue, EncryptNullString, DecryptNullString, Encrypt.
    destruct configured; [|by intros [= <-]].
    destruct (String.eqb_spec (marshal l) "") as [->|Hne]; [by intros [= <-]|done].
Qed.

(** Every interleaving in which a capture is visible at the first or the last read. *)
Lemma capture_read first second third last id value l :
  decode_snapshot configured unmarshal value = Ok l →
  vt_snapshots (db_variables first) !! id = Some value ∨
  (vt_snapshots (db_variables first) !! id = None ∧ vt_snapshots (db_variables last) !! id = Some value ∧
   ∃ row legacy, db_deployments second !! id = Some row ∧
     Repository_ListReleaseVariablesByRelease configured (d_ReleaseID row) third = Ok (legacy, third)) →
  ListDeploymentVariables configured unmarshal first second third last id = Ok l.
Proof.
  intros Hdec. unfold ListDeploymentVariables, deploymentVariablesAt, GetDeploymentVariableSnapshot.
  intros [->|(-> & -> & row & legacy & Hrow & Hlegacy)]; [done|].
  unfold GetDeployment. rewrite Hrow. cbv iota beta. by rewrite Hlegacy.
Qed.
End capture.

Lemma number_ids l : rv_ID <$> number l = seqZ 1 (Z.of_nat (length (number l))).
Proof.
  unfold number. rewrite length_imap. apply list_eq. intros i.
  rewrite list_lookup_fmap, list_lookup_imap. destruct (l !! i) as [v|] eqn:E; cbn.
  - apply lookup_lt_Some in E. rewrite lookup_seqZ_lt by lia. f_equal. lia.
  - apply lookup_ge_None in E. by rewrite lookup_seqZ_ge by lia.
Qed.

Lemma captured_variables_shape `{Box} configured d s l :
  captured_variables configured d s = Ok (l, s) →
  rv_ID <$> l = seqZ 1 (Z.of_nat (length l)) ∧ existsb reserved_path l = false.
Proof.
  unfold captured_variables. intros (rel & s1 & _ & H1)%bind_inv.
  apply bind_inv in H1 as (p & s2 & _ & H1). apply bind_inv in H1 as (local & s3 & _ & H1).
  apply bind_inv in H1 as (inh & s4 & _ & H1).
  destruct (existsb _ _) eqn:E in H1; [done|]. injection H1 as <- _.
  split; [apply number_ids|done].
Qed.

(** *** What a capture is read from *)
Record same_sources (s s' : DB) : Prop := {
  so_releases : db_releases s' = db_releases s;
  so_projects : db_projects s' = db_projects s;
  so_lifecycles : db_lifecycles s' = db_lifecycles s;
  so_stages : db_stages s' = db_stages s;
  so_shared : vt_lifecycle (db_variables s') = vt_lifecycle (db_variables s);
  so_release : vt_release (db_variables s') = vt_release (db_variables s) }.

#[export] Instance same_sources_refl : Reflexive same_sources.
Proof. by split. Qed.
#[export] Instance same_sources_trans : Transitive same_sources.
Proof. intros ??? [] []. split; congruence. Qed.

(** A query that answers the same on stores with the same sources. *)
Definition reads {A} (m : Tx A) : Prop := ∀ s s' a s1,
  same_sources s s' → m s = Ok (a, s1) → s1 = s ∧ m s' = Ok (a, s').

Lemma reads_bind {A B} (m : Tx A) (k : A → Tx B) : reads m → (∀ a, reads (k a)) → reads (m ≫= k).
Proof.
  intros Hm Hk s s' b s2 Hs (a & s1 & Ha & Hb)%bind_inv. destruct (Hm _ _ _ _ Hs Ha) as [-> Ha'].
  rewrite (bind_ok _ _ _ _ _ Ha'). by eapply Hk.
Qed.

Lemma reads_read {A} (f : DB → A) : (∀ s s', same_sources s s' → f s' = f s) → reads (read f).
Proof. intros Hf s s' a s1 Hs [= <- <-]. unfold read. by rewrite (Hf _ _ Hs). Qed.

Lemma reads_lift {A} (r : result A) : reads (lift r).
Proof. intros s s' a s1 _ [-> ->]%lift_ok. done. Qed.

Ltac read_rows := let H := fresh in
  first [apply reads_read; intros ? ? H|intros ? ? ? ? H]; unfold GetRelease, GetProject, GetLifecycle, stages_of;
  rewrite ?(so_releases _ _ H), ?(so_projects _ _ H), ?(so_lifecycles _ _ H), ?(so_stages _ _ H),
    ?(so_shared _ _ H), ?(so_release _ _ H); try done; repeat case_match; try done; by intros [= <- <-].

Lemma reads_captured `{Box} configured d : reads (captured_variables configured d).
Proof.
  unfold captured_variables, InheritedVariables, inheritedVariables, Repository_ListReleaseVariablesByRelease,
    Repository_ListLifecycleVariables.
  repeat match goal with
  | |- reads (_ ≫= _) => apply reads_bind; [|intros ?]
  | |- reads (lift _) => apply reads_lift
  | |- reads (match ?x with _ => _ end) => destruct x
  | |- reads _ => read_rows
  end.
Qed.

(** The list only depends on the sources and on the deployment's release. *)
Lemma captured_same `{Box} configured d d' s s' l s1 :
  same_sources s s' → d_ReleaseID d' = d_ReleaseID d →
  captured_variables configured d s = Ok (l, s1) → captured_variables configured d' s' = Ok (l, s').
Proof.
  intros Hs Hr E. replace (captured_variables configured d') with (captured_variables configured d)
    by (unfold captured_variables; by rewrite Hr).
  by destruct (reads_captured configured d _ _ _ _ Hs E).
Qed.

(** *** A concrete store, codec and box *)

#[local] Instance ReleaseVariable_eq_dec : EqDecision ReleaseVariable.
Proof. solve_decision. Defined.

#[local] Instance ReleaseVariable_countable : Countable ReleaseVariable :=
  inj_countable' (λ v, (rv_ID v, rv_ReleaseID v, rv_Name v, rv_Value v, rv_EnvironmentID v,
                        rv_CreatedAt v, rv_Secret v))
    (λ t, match t with (i, r, n, v, e, c, x) => mkReleaseVariable i r n v e c x end)
    (λ v, match v with mkReleaseVariable _ _ _ _ _ _ _ => eq_refl end).

Fixpoint bits (p : positive) : string :=
  match p with
  | xH => EmptyString
  | xO p => String (Ascii.ascii_of_nat 48) (bits p)
  | xI p => String (Ascii.ascii_of_nat 49) (bits p)
  end.

Fixpoint of_bits (t : string) : positive :=
  match t with
  | EmptyString => xH
  | String c t => if byte_in 48 48 c then xO (of_bits t) else xI (of_bits t)
  end.

Lemma of_bits_bits p : of_bits (bits p) = p.
Proof. induction p as [p IH|p IH|]; cbn; [by rewrite IH..|done]. Qed.

Definition sample_marshal (l : list ReleaseVariable) : string := bits (encode l).
Definition sample_unmarshal (t : string) : option (list ReleaseVariable) := decode (of_bits t).

Lemma sample_json l : sample_unmarshal (sample_marshal l) = Some l.
Proof. unfold sample_unmarshal, sample_marshal. by rewrite of_bits_bits, decode_encode. Qed.

#[local] Instance sample_box : Box := {
  NonceSize := 2; Seal := λ _ p, p; Open := λ _ c, Some c }.
#[local] Instance sample_box_laws : BoxLaws.
Proof. split; [cbn; lia|done|done]. Qed.

Definition sample_lifecycle_variables : gmap Z LifecycleVariable :=
  {[ 1 := mkLifecycleVariable 1 1 "A" None None 0 0;
     2 := mkLifecycleVariable 2 1 "B" None (Some 5) 0 0 ]}.

Definition sample_deployment : Deployment :=
  mkDeployment 9 3 5 "queued" None None 0 0 None None "deploy" None None (Some "prod") None.

Definition sample_store : DB :=
  set_variables (vt_set_lifecycle sample_lifecycle_variables
    (vt_set_release {[ 7 := mkReleaseVariable 7 3 "B" None (Some 5) 0 0 ]}
       (db_variables (empty_db 0))))
    (set_projects {[ 2 := mkProject 2 "p" (Some 1) ]}
      (set_lifecycles {[ 1 := mkLifecycle 1 "l" None 0 ]}
        (set_stages {[ 1 := mkStage 1 1 5 0 0 ]}
          (set_releases {[ 3 := mkRelease 3 2 "v1" "[]" 0 "deployment" ]}
            (set_deployments {[ 9 := sample_deployment ]} (empty_db 0)))))).
