(* ===== verification/PreviewTheorems.v ===== *)
(** * PreviewTheorems: from a project's definitions to the values of a step

    A release copies the project's variables in listing order; what the preview
    of a project shows as effective is what a deployment of such a release
    resolves, as long as no two definitions share a name and a scope. *)
From stdpp Require Import pretty.
From S2P Require Import Prelude Text Db Tx QueueQueries DispatchQueries StageQueries AccessQueries Base64 Secret Variables Resolution Preview VariableTheorems.

(** ** Loops over rows *)

Lemma map_result_forall2 {A B} (f : A → result B) l k :
  map_result f l = Ok k ↔ Forall2 (λ x y, f x = Ok y) l k.
Proof.
  revert k. induction l as [|x l IH]; intros k; cbn [map_result].
  { split; [by intros [= <-]|by inversion 1]. }
  split.
  - intros (y & Hy & H)%result_bind_ok. apply result_bind_ok in H as (ys & Hys & [= <-]).
    constructor; [done|]. by apply IH.
  - inversion 1 as [|? y ? ys Hy Hys]; subst. apply IH in Hys. by rewrite Hy, Hys.
Qed.

Lemma map_result_perm {A B} (f : A → result B) (l l' : list A) (k' : list B) :
  l ≡ₚ l' → map_result f l' = Ok k' → ∃ k, map_result f l = Ok k ∧ k ≡ₚ k'.
Proof.
  intros Hl. setoid_rewrite map_result_forall2. revert k'.
  induction Hl as [|x l l' Hl IH|x y l|l1 l2 l3 _ IH1 _ IH2]; intros k' Hk'.
  - inversion Hk'; subst. by exists [].
  - inversion Hk' as [|? y ? ys Hy Hys]; subst. destruct (IH ys Hys) as (k & Hk & Hp).
    exists (y :: k). split; [by constructor|by constructor].
  - inversion Hk' as [|? a ? ys Ha H1]; subst. inversion H1 as [|? b ? zs Hb H2]; subst.
    exists (b :: a :: zs). split; [by repeat constructor|apply Permutation_swap].
  - destruct (IH2 k' Hk') as (k2 & Hk2 & Hp2). destruct (IH1 k2 Hk2) as (k1 & Hk1 & Hp1).
    exists k1. split; [done|by etrans].
Qed.

(** A sorted list is what sorting any of its permutations gives. *)
Lemma sort_by_fmap {A B} (le : A → A → bool) (le' : B → B → bool) (f : A → B) (l : list A) :
  (∀ x y, le' (f x) (f y) = le x y) → sort_by le' (f <$> l) = f <$> sort_by le l.
Proof.
  intros Hle. induction l as [|x l IH]; [done|]. cbn [fmap list_fmap sort_by foldr].
  change (foldr (insert_by le') [] (f <$> l)) with (sort_by le' (f <$> l)). rewrite IH.
  change (foldr (insert_by le) [] l) with (sort_by le l).
  clear IH. induction (sort_by le l) as [|y k IHk]; [done|]. cbn [fmap list_fmap insert_by].
  rewrite Hle. destruct (le x y); [done|].
  change (f y :: insert_by le' (f x) (f <$> k) = f y :: (f <$> insert_by le x k)). by rewrite IHk.
Qed.

(** ** A release's copy *)

Definition same_variable (v : Variable_) (r : ReleaseVariable) : Prop :=
  v_Name v = rv_Name r ∧ v_Value v = rv_Value r ∧ v_EnvironmentID v = rv_EnvironmentID r ∧
  v_Secret v = rv_Secret r.

(** No row is above the AUTOINCREMENT counter. *)
Definition release_ids_ok (s : DB) : Prop :=
  ∀ id v, vt_release (db_variables s) !! id = Some v → rv_ID v = id ∧ id ≤ vt_release_seq (db_variables s).

(** The rows a list of parameters becomes, from the counter [seq] on. *)
Fixpoint rows_of (seq now release : Z) (params : list CreateReleaseVariableParams)
    : list ReleaseVariable :=
  match params with
  | [] => []
  | p :: rest =>
      mkReleaseVariable (seq + 1) release (cr_Name p) (cr_Value p) (cr_EnvironmentID p) now (cr_Secret p)
      :: rows_of (seq + 1) now release rest
  end.

Definition rows_in (s : DB) (release : Z) : list ReleaseVariable :=
  filter (λ v, rv_ReleaseID v = release) (snd <$> map_to_list (vt_release (db_variables s))).

Lemma rows_in_insert s i row release :
  vt_release (db_variables s) !! rv_ID row = None → rv_ReleaseID row = release →
  rows_in (set_variables (vt_set_release_seq i
    (vt_set_release (<[rv_ID row := row]> (vt_release (db_variables s))) (db_variables s))) s) release
  ≡ₚ row :: rows_in s release.
Proof.
  intros Hnone Hrel. unfold rows_in.
  match goal with |- filter _ (_ <$> map_to_list ?t) ≡ₚ _ =>
    change t with (<[rv_ID row := row]> (vt_release (db_variables s))) end.
  rewrite map_to_list_insert, fmap_cons by done. by rewrite filter_cons_True.
Qed.

Lemma insertVariables_rows params release s s' :
  release_ids_ok s → insertVariables params release s = Ok (tt, s') →
  db_now s' = db_now s ∧
  rows_in s' release ≡ₚ rows_of (vt_release_seq (db_variables s)) (db_now s) release params
                        ++ rows_in s release.
Proof.
  revert s. induction params as [|p params IH]; intros s Hids Hs; cbn [insertVariables for_each rows_of] in *.
  { by injection Hs as <-. }
  apply bind_inv in Hs as ([] & s1 & H1 & Hs). apply bind_inv in H1 as (row & s2 & H2 & H1).
  injection H1 as ->. unfold CreateReleaseVariable in H2. case_match eqn:E; [|done].
  injection H2 as <- <-. cbn [cr_Name cr_Value cr_EnvironmentID cr_Secret cr_ReleaseID] in Hs.
  assert (vt_release (db_variables s) !! (vt_release_seq (db_variables s) + 1) = None) as Hfresh.
  { destruct (vt_release _ !! _) as [v|] eqn:Ev; [|done]. apply Hids in Ev. lia. }
  apply IH in Hs as [Hnow Hrows].
  - split; [done|]. rewrite Hrows.
    match goal with |- context [<[?i := ?row]> (vt_release (db_variables s))] =>
      pose proof (rows_in_insert s i row release Hfresh eq_refl) as Hins end.
    etrans; [apply Permutation_app_head, Hins|]. by rewrite <-Permutation_middle.
  - intros id v Hv. cbn in Hv |- *. apply lookup_insert_Some in Hv as [[<- <-]|[_ Hv]]; [done|].
    apply Hids in Hv. lia.
Qed.

(** Rows with consecutive IDs are sorted by ID, and the ID tells them apart. *)
Lemma consecutive_ids n (D : list ReleaseVariable) :
  rv_ID <$> D = seqZ n (Z.of_nat (length D)) →
  (∀ x, x ∈ D → n ≤ rv_ID x) ∧ StronglySorted (λ a b, rv_by_id a b = true) D ∧
  (∀ x y, x ∈ D → y ∈ D → rv_by_id x y = true → rv_by_id y x = true → x = y).
Proof.
  unfold rv_by_id. revert n. induction D as [|d D IH]; intros n Hids.
  { split; [by intros ? ?%not_elem_of_nil|]. split; [apply SSorted_nil|by intros ? ? ?%not_elem_of_nil]. }
  rewrite seqZ_cons in Hids by (cbn; lia). injection Hids as Hd Hids.
  destruct (IH (Z.succ n)) as (Hge & Hst & Hinj).
  { etrans; [exact Hids|]. f_equal. cbn. lia. }
  split_and!.
  - intros x [->|Hx]%elem_of_cons; [lia|]. specialize (Hge x Hx). lia.
  - constructor; [done|]. apply Forall_forall. intros x Hx. specialize (Hge x Hx). lia.
  - intros x y [->|Hx]%elem_of_cons [->|Hy]%elem_of_cons H1 H2; [done|..|by apply Hinj].
    + specialize (Hge y Hy). lia.
    + specialize (Hge x Hx). lia.
Qed.

Section copy.
Context `{BoxLaws} (configured : bool).
Implicit Types (variables : list Variable_).

Definition good_nonces (nonces : nat → option bytes) : Prop :=
  ∀ i, ∃ n, nonces i = Some n ∧ length n = NonceSize ∧ Forall is_byte n.

Definition decrypts (e d : ReleaseVariable) : Prop :=
  rv_with_value e <$> decryptValue configured (rv_Value e) = Ok d.

Lemma release_params_rows nonces i variables params seq now release :
  good_nonces nonces → release_params configured nonces i variables = Ok params →
  ∃ D, Forall2 decrypts (rows_of seq now release params) D ∧ Forall2 same_variable variables D ∧
    rv_ID <$> D = seqZ (seq + 1) (Z.of_nat (length D)).
Proof.
  intros Hgood. revert i params seq. induction variables as [|v variables IH]; intros i params seq H1;
    cbn [release_params] in H1.
  { injection H1 as <-. exists []. repeat split; constructor. }
  case_match; [done|]. case_match; [done|].
  apply result_bind_ok in H1 as (c & Hc & H1). apply result_bind_ok in H1 as (rest & Hrest & [= <-]).
  destruct (IH _ _ (seq + 1) Hrest) as (D & Hdec & Hsame & Hids).
  destruct (Hgood i) as (n & Hn & Hlen & Hbytes). rewrite Hn in Hc.
  destruct (decrypt_encryptValue configured n (v_Value v)) as (c' & Hc' & Hval & _); [done..|].
  rewrite Hc in Hc'. injection Hc' as <-.
  exists (mkReleaseVariable (seq + 1) release (v_Name v) (v_Value v) (v_EnvironmentID v) now (v_Secret v) :: D).
  split_and!.
  - constructor; [|done]. unfold decrypts. cbn. by rewrite Hval.
  - by constructor.
  - rewrite seqZ_cons by (cbn; lia). cbn [fmap list_fmap rv_ID length]. f_equal.
    rewrite Hids. f_equal; lia.
Qed.
End copy.

(** A release carries the project's variables: reading a fresh release back
    gives, in the order of the IDs, the project's variables in listing order,
    newest first, with name, value, scope and secrecy unchanged. *)
Theorem release_copy `{BoxLaws} (configured : bool) (nonces : nat → option bytes)
    (project release : Z) (params : list CreateReleaseVariableParams) (s0 s s' : DB) :
  good_nonces nonces → release_ids_ok s → rows_in s release = [] →
  buildReleaseVariables configured nonces project s0 = Ok (params, s0) →
  insertVariables params release s = Ok (tt, s') →
  ∃ variables rows, Repository_ListVariablesByProject configured project s0 = Ok (variables, s0) ∧
    Repository_ListReleaseVariablesByRelease configured release s' = Ok (rows, s') ∧
    Forall2 same_variable variables (sort_by rv_by_id rows).
Proof.
  intros Hgood Hids Hnone Hbuild Hins.
  apply bind_inv in Hbuild as (variables & s1 & Hvars & Hparams). apply lift_ok in Hparams as [Hparams ->].
  apply insertVariables_rows in Hins as [_ Hrows]; [|done]. rewrite Hnone, app_nil_r in Hrows.
  destruct (release_params_rows configured nonces 0 variables params
    (vt_release_seq (db_variables s)) (db_now s) release Hgood Hparams) as (D & Hdec & Hsame & HidsD).
  apply map_result_forall2 in Hdec.
  destruct (map_result_perm _ (sort_by (by_created_desc rv_CreatedAt rv_ID) (rows_in s' release)) _ D
    (transitivity (sort_by_perm _ _) Hrows) Hdec) as (rows & Hread & Hperm).
  exists variables, rows. split; [done|]. split.
  { change (Repository_ListReleaseVariablesByRelease configured release s')
      with (lift (map_result (λ v, rv_with_value v <$> decryptValue configured (rv_Value v))
        (sort_by (by_created_desc rv_CreatedAt rv_ID) (rows_in s' release))) s').
    apply lift_ok. by split. }
  destruct (consecutive_ids _ _ HidsD) as (_ & Hst & Hinj).
  rewrite (sort_by_unique rv_by_id rows D); [done|unfold rv_by_id; lia..|done|done|done].
Qed.

(** ** Precedence in the preview *)

Section precedence.
Implicit Types (l C : list VariableDefinition) (S : list ReleaseVariable).

Lemma index_scopes_none i l m sc :
  (∀ v, v ∈ l → scopeKey v ≠ sc) → index_scopes i l m !! sc = m !! sc.
Proof.
  revert i m. induction l as [|v l IH]; intros i m Hl; [done|]. cbn [index_scopes].
  rewrite IH by (intros w Hw; apply Hl; by right). apply lookup_insert_ne, Hl. by left.
Qed.

Lemma index_scopes_at i l m sc j :
  last_at (λ v, scopeKey v = sc) l j → index_scopes i l m !! sc = Some (i + j)%nat.
Proof.
  revert i m j. induction l as [|v l IH]; intros i m j [(x & Hx & Hsc) Hlast]; [done|].
  cbn [index_scopes]. destruct j as [|j].
  - injection Hx as ->. rewrite index_scopes_none, Hsc, lookup_insert_eq; [f_equal; lia|].
    intros w Hw. apply list_elem_of_lookup in Hw as [k Hk]. apply (Hlast (Datatypes.S k) w); [lia|done].
  - rewrite (IH _ _ j); [f_equal; lia|]. split; [by exists x|].
    intros k y Hk Hy. apply (Hlast (Datatypes.S k) y); [lia|done].
Qed.

(** A definition of the catalog shows a variable; a secret shows no value. *)
Record shows (d : VariableDefinition) (v : ReleaseVariable) : Prop := {
  sh_name : vd_Name d = rv_Name v;
  sh_environment : vd_EnvironmentID d = rv_EnvironmentID v;
  sh_secret : vd_Secret d = negb (Z.eqb (rv_Secret v) 0);
  sh_value : vd_Value d = if vd_Secret d then None else Some (default "" (rv_Value v));
  sh_pending : vd_Effective d = false }.

Lemma last_at_shows C S name environment j :
  Forall2 shows C S → last_at (defines name environment) S j →
  last_at (λ d, scopeKey d = (name, environment)) C j.
Proof.
  intros HC [(x & Hx & Hn & He) Hlast]. split.
  - destruct (Forall2_lookup_r _ _ _ _ _ HC Hx) as (d & Hd & [H1 H2 _ _ _]). exists d.
    split; [done|]. unfold scopeKey. congruence.
  - intros k d Hk Hd Hsc. destruct (Forall2_lookup_l _ _ _ _ _ HC Hd) as (y & Hy & [H1 H2 _ _ _]).
    apply (Hlast k y Hk Hy). unfold scopeKey in Hsc. split; congruence.
Qed.

(** The definition that takes effect in an environment, by position. *)
Definition pick S (environmentID : Z) (name : string) : option ReleaseVariable :=
  match last (filter (defines name (Some environmentID)) S) with
  | Some v => Some v
  | None => last (filter (defines name None) S)
  end.

(** Whether a definition that is no runtime identity takes effect. *)
Lemma effective_definition preview C i d :
  vc_EnvironmentID preview ≠ 0 → IsEnvironmentIdentity (vd_Name d) = false → vd_Effective d = false →
  vd_Effective (resolve_definition preview C (index_scopes 0 C ∅) i d)
  = (configuredWinner preview d (index_scopes 0 C ∅) =? i)%nat && negb (another_environment preview d).
Proof.
  intros Henv Hname Hpending. unfold resolve_definition.
  change (configuredWinner preview (vd_set_Reference _ d) (index_scopes 0 C ∅))
    with (configuredWinner preview d (index_scopes 0 C ∅)).
  change (vd_Name (vd_set_Reference _ d)) with (vd_Name d). rewrite Hname.
  destruct (_ =? i)%nat; cbn [negb andb]; [|exact Hpending].
  rewrite (proj2 (Z.eqb_neq _ _) Henv).
  change (another_environment preview (vd_set_Reference _ d)) with (another_environment preview d).
  destruct (another_environment preview d); [exact Hpending|].
  by destruct (configuredAvailability _ _).
Qed.

Lemma resolve_definition_same preview C i d :
  let d' := resolve_definition preview C (index_scopes 0 C ∅) i d in
  vd_Name d' = vd_Name d ∧ vd_Secret d' = vd_Secret d ∧ vd_Value d' = vd_Value d.
Proof.
  cbn zeta. unfold resolve_definition. cbn zeta.
  destruct (IsEnvironmentIdentity _); [done|]. destruct (negb _); [done|].
  destruct (Z.eqb _ _); [done|]. destruct (another_environment _ _); [done|].
  by destruct (configuredAvailability _ _).
Qed.

Lemma resolve_definition_keeps preview C i d v :
  shows d v → let d' := resolve_definition preview C (index_scopes 0 C ∅) i d in
  vd_Name d' = rv_Name v ∧ vd_Secret d' = negb (Z.eqb (rv_Secret v) 0) ∧
  vd_Value d' = if vd_Secret d' then None else Some (default "" (rv_Value v)).
Proof.
  intros [H1 _ H2 H3 _]. cbn zeta.
  destruct (resolve_definition_same preview C i d) as (-> & -> & ->). by rewrite H1, H2, H3, H2.
Qed.

Lemma last_at_exists (P : ReleaseVariable → Prop) `{∀ v, Decision (P v)} S i v :
  S !! i = Some v → P v → ∃ j, last_at P S j.
Proof.
  intros Hv HP. destruct (proj2 (last_filter_in P S)) as [w Hw].
  { exists v. split; [|done]. by eapply list_elem_of_lookup_2. }
  apply last_filter_at in Hw as (j & _ & _ & Hj). by exists j.
Qed.

Lemma winner_scoped preview C S d j :
  Forall2 shows C S → is_Some (vd_EnvironmentID d) →
  last_at (defines (vd_Name d) (vd_EnvironmentID d)) S j →
  configuredWinner preview d (index_scopes 0 C ∅) = j.
Proof.
  intros HC [e He] Hj. unfold configuredWinner.
  rewrite (bool_decide_false (vd_EnvironmentID d = None)), andb_false_r by congruence.
  by erewrite (index_scopes_at 0 C ∅ (scopeKey d)) by (by eapply last_at_shows).
Qed.

Lemma winner_unscoped preview C S d j :
  vc_EnvironmentID preview ≠ 0 → Forall2 shows C S → vd_EnvironmentID d = None →
  last_at (defines (vd_Name d) (Some (vc_EnvironmentID preview))) S j ∨
  (∀ v, v ∈ S → ¬ defines (vd_Name d) (Some (vc_EnvironmentID preview)) v) ∧
    last_at (defines (vd_Name d) None) S j →
  configuredWinner preview d (index_scopes 0 C ∅) = j.
Proof.
  intros Henv HC He Hj. unfold configuredWinner.
  rewrite (proj2 (Z.eqb_neq _ _) Henv), bool_decide_true by done. cbn [negb andb].
  destruct Hj as [Hj|[Hnone Hj]].
  - by erewrite (index_scopes_at 0 C ∅ (vd_Name d, Some _)) by (by eapply last_at_shows).
  - rewrite (index_scopes_none 0 C ∅ (vd_Name d, Some (vc_EnvironmentID preview))), lookup_empty.
    + cbn [default]. unfold scopeKey. rewrite He. by erewrite (index_scopes_at 0 C ∅ _) by (by eapply last_at_shows).
    + intros w Hw Hsc. apply list_elem_of_lookup in Hw as [k Hk].
      destruct (Forall2_lookup_l _ _ _ _ _ HC Hk) as (y & Hy & [H1 H2 _ _ _]).
      apply (Hnone y); [by eapply list_elem_of_lookup_2|]. unfold scopeKey in Hsc. split; congruence.
Qed.

(** The position of the effective definition of a name. *)
Definition effective_at S (environmentID : Z) (name : string) (i : nat) : Prop :=
  last_at (defines name (Some environmentID)) S i ∨
  (∀ v, v ∈ S → ¬ defines name (Some environmentID) v) ∧ last_at (defines name None) S i.

Lemma effective_iff preview C S i d :
  vc_EnvironmentID preview ≠ 0 → Forall2 shows C S → IsEnvironmentIdentity (vd_Name d) = false →
  C !! i = Some d →
  vd_Effective (resolve_definition preview C (index_scopes 0 C ∅) i d) = true ↔
  effective_at S (vc_EnvironmentID preview) (vd_Name d) i.
Proof.
  intros Henv HC Hname Hd. destruct (Forall2_lookup_l _ _ _ _ _ HC Hd) as (v & Hv & [H1 H2 _ _ H5]).
  rewrite effective_definition, andb_true_iff, Nat.eqb_eq, negb_true_iff by done.
  unfold another_environment, effective_at. destruct (vd_EnvironmentID d) as [e|] eqn:He.
  - destruct (last_at_exists (defines (vd_Name d) (Some e)) S i v Hv) as [j Hj]; [by split|].
    assert (configuredWinner preview d (index_scopes 0 C ∅) = j) as ->.
    { eapply winner_scoped; [done|by rewrite He|by rewrite He]. }
    rewrite negb_false_iff, Z.eqb_eq. split.
    + intros [-> ->]. by left.
    + intros [[(w & Hw & _ & Hwe) Hl]|[_ [(w & Hw & _ & Hwe) _]]]; [|congruence].
      assert (e = vc_EnvironmentID preview) as -> by congruence. split; [|done].
      eapply last_at_unique; [exact Hj|]. split; [exists w; split; [done|split; congruence]|done].
  - destruct (last (filter (defines (vd_Name d) (Some (vc_EnvironmentID preview))) S)) as [w|] eqn:Ew.
    + apply last_filter_at in Ew as (j & Hw & [_ Hwe] & Hj).
      rewrite (winner_unscoped preview C S d j) by (done || by left). split.
      * intros [-> _]. by left.
      * intros [[(u & Hu & _ & Hue) _]|[Hnone _]]; [congruence|].
        exfalso. eapply (Hnone w); [by eapply list_elem_of_lookup_2|]. destruct Hj as [(x & Hx & HP) _].
        congruence.
    + destruct (last_at_exists (defines (vd_Name d) None) S i v Hv) as [j Hj]; [by split|].
      assert (∀ u, u ∈ S → ¬ defines (vd_Name d) (Some (vc_EnvironmentID preview)) u) as Hnone.
      { intros u Hu HP. apply (is_Some_None (A:=ReleaseVariable)). rewrite <-Ew. apply last_filter_in.
        by exists u. }
      rewrite (winner_unscoped preview C S d j) by (done || by right). split.
      * intros [-> _]. by right.
      * intros [[(u & Hu & _ & Hue) _]|[_ Hl]]; [congruence|]. split; [|done].
        by eapply last_at_unique.
Qed.

(** An effective definition and the value a step gets. *)
Definition agrees (d : VariableDefinition) (r : ResolvedVariable) : Prop :=
  vd_Name d = r_Name r ∧ vd_Secret d = r_Secret r ∧
  vd_Value d = if r_Secret r then None else Some (r_Value r).

Lemma pick_at S environmentID name v :
  pick S environmentID name = Some v ↔ ∃ i, S !! i = Some v ∧ effective_at S environmentID name i.
Proof.
  unfold pick, effective_at. split.
  - destruct (last (filter (defines name (Some environmentID)) S)) as [w|] eqn:E.
    + intros [= <-]. apply last_filter_at in E as (i & Hi & _ & Hl). exists i. auto.
    + intros (i & Hi & _ & Hl)%last_filter_at. exists i. split; [done|]. right. split; [|done].
      intros u Hu HP. apply (is_Some_None (A:=ReleaseVariable)). rewrite <-E. apply last_filter_in. by exists u.
  - intros (i & Hi & [Hl|[Hnone Hl]]).
    + destruct Hl as [(x & Hx & HP) Hl]. destruct (last (filter _ _)) as [w|] eqn:E.
      * apply last_filter_at in E as (j & Hj & _ & Hlj).
        assert (i = j) as -> by (eapply last_at_unique; [split; [by exists x|exact Hl]|done]). congruence.
      * exfalso. apply (is_Some_None (A:=ReleaseVariable)). rewrite <-E. apply last_filter_in.
        exists x. split; [by eapply list_elem_of_lookup_2|done].
    + rewrite (filter_none (defines name (Some environmentID))) by done. cbn [last].
      destruct (last (filter _ _)) as [w|] eqn:E.
      * apply last_filter_at in E as (j & Hj & _ & Hlj).
        assert (i = j) as -> by (by eapply last_at_unique). congruence.
      * exfalso. apply (is_Some_None (A:=ReleaseVariable)). rewrite <-E. apply last_filter_in.
        destruct Hl as [(x & Hx & HP) _]. exists x. split; [by eapply list_elem_of_lookup_2|done].
Qed.

Lemma effective_at_unique S environmentID name i j :
  effective_at S environmentID name i → effective_at S environmentID name j → i = j.
Proof.
  assert (∀ k P, last_at P S k → ∃ v, v ∈ S ∧ P v) as Hex.
  { intros k P [(v & Hv & HP) _]. exists v. split; [by eapply list_elem_of_lookup_2|done]. }
  intros [Hi|[Hni Hi]] [Hj|[Hnj Hj]]; [by eapply last_at_unique| | |by eapply last_at_unique].
  - destruct (Hex _ _ Hi) as (v & Hv & HP). by destruct (Hnj v Hv).
  - destruct (Hex _ _ Hj) as (v & Hv & HP). by destruct (Hni v Hv).
Qed.

(** The preview shows one effective definition of a name, the picked one, or none. *)
Lemma preview_pick preview C S name :
  vc_EnvironmentID preview ≠ 0 → IsEnvironmentIdentity name = false → Forall2 shows C S →
  Forall2 agrees (filter (λ d, vd_Effective d = true ∧ vd_Name d = name) (resolved_definitions preview C))
    (option_list (resolved_of <$> pick S (vc_EnvironmentID preview) name)).
Proof.
  intros Henv Hname HC.
  assert (∀ i d, resolved_definitions preview C !! i = Some d →
    (vd_Effective d = true ∧ vd_Name d = name ↔ effective_at S (vc_EnvironmentID preview) name i)) as Hiff.
  { intros i d Hi. unfold resolved_definitions in Hi. rewrite list_lookup_imap in Hi.
    destruct (C !! i) as [c|] eqn:Hc; [|done]. injection Hi as <-.
    destruct (Forall2_lookup_l _ _ _ _ _ HC Hc) as (v & Hv & Hshows).
    destruct (resolve_definition_same preview C i c) as (Hn & _ & _). rewrite Hn. split.
    - intros [He <-]. by apply (effective_iff preview C S i c).
    - intros He. assert (vd_Name c = name) as <-; [|split; [by apply (effective_iff preview C S i c)|done]].
      destruct Hshows as [H1 _ _ _ _]. rewrite H1.
      destruct He as [[(x & Hx & [Hxn _]) _]|[_ [(x & Hx & [Hxn _]) _]]]; congruence. }
  destruct (pick S (vc_EnvironmentID preview) name) as [v|] eqn:Epick.
  - apply pick_at in Epick as (i & Hi & Heff).
    rewrite (filter_at _ _ i) by (intros j x Hj; rewrite (Hiff j x Hj); split;
      [intros; by eapply effective_at_unique|by intros ->]).
    destruct (Forall2_lookup_r _ _ _ _ _ HC Hi) as (c & Hc & Hshows).
    unfold resolved_definitions. rewrite list_lookup_imap, Hc. constructor; [|constructor].
    destruct (resolve_definition_keeps preview C i c v Hshows) as (H1 & H2 & H3).
    unfold agrees, resolved_of. cbn [r_Name r_Secret r_Value]. by rewrite H1, H3, H2.
  - rewrite filter_none; [constructor|]. intros d Hd HP. apply list_elem_of_lookup in Hd as [i Hi].
    apply (Hiff i d Hi) in HP as Heff. assert (is_Some (S !! i)) as [v Hv].
    { apply lookup_lt_is_Some. apply lookup_lt_Some in Hi. unfold resolved_definitions in Hi.
      by rewrite length_imap, (Forall2_length _ _ _ HC) in Hi. }
    assert (pick S (vc_EnvironmentID preview) name = Some v) as H by (apply pick_at; by exists i). congruence.
Qed.

End precedence.

(** ** The captured list *)

(** The same definition, whatever row carries it. *)
Definition alike (a b : ReleaseVariable) : Prop :=
  rv_Name a = rv_Name b ∧ rv_EnvironmentID a = rv_EnvironmentID b ∧
  rv_Value a = rv_Value b ∧ rv_Secret a = rv_Secret b.

Lemma resolved_of_alike (a b : option ReleaseVariable) :
  option_Forall2 alike a b → resolved_of <$> a = resolved_of <$> b.
Proof.
  destruct 1 as [x y (H1 & _ & H2 & H3)|]; [|done]. cbn. unfold resolved_of. by rewrite H1, H2, H3.
Qed.

Lemma filter_alike name environment l k :
  Forall2 alike l k → Forall2 alike (filter (defines name environment) l) (filter (defines name environment) k).
Proof.
  induction 1 as [|x y l k Hxy _ IH]; [constructor|]. rewrite !filter_cons.
  assert (defines name environment x ↔ defines name environment y) as Hiff.
  { destruct Hxy as (H1 & H2 & _). unfold defines. by rewrite H1, H2. }
  destruct (decide (defines name environment x)) as [H|H].
  - rewrite decide_True by (by apply Hiff). by constructor.
  - by rewrite decide_False by (by rewrite <-Hiff).
Qed.

Lemma last_filter_app {A} (P : A → Prop) `{∀ x, Decision (P x)} (l k : list A) :
  last (filter P (l ++ k)) = match last (filter P k) with Some x => Some x | None => last (filter P l) end.
Proof.
  rewrite filter_app. induction (filter P k) as [|x m _] using rev_ind; [by rewrite app_nil_r|].
  by rewrite app_assoc, !last_snoc.
Qed.

Lemma pick_alike l k environmentID name :
  Forall2 alike l k → option_Forall2 alike (pick l environmentID name) (pick k environmentID name).
Proof.
  intros H. unfold pick.
  pose proof (Forall2_last _ _ _ (filter_alike name (Some environmentID) _ _ H)) as H1.
  pose proof (Forall2_last _ _ _ (filter_alike name None _ _ H)) as H2.
  destruct H1; [by constructor|done].
Qed.

Lemma number_alike l : Forall2 alike (number l) l.
Proof.
  apply Forall2_lookup. intros i. unfold number. rewrite list_lookup_imap.
  destruct (l !! i); by repeat constructor.
Qed.

(** The resolution of a numbered list takes it in its own order. *)
Lemma effective_number l environmentID name :
  resolved_of <$> effective (number l) environmentID name = resolved_of <$> pick l environmentID name.
Proof.
  destruct (consecutive_ids 1 (number l) (number_ids l)) as (_ & Hst & Hinj).
  rewrite <-(resolved_of_alike _ _ (pick_alike _ _ environmentID name (number_alike l))).
  unfold effective, latest. rewrite (sort_by_unique rv_by_id (number l) (number l)); [done|..];
    [unfold rv_by_id; lia|unfold rv_by_id; lia|done|done|done].
Qed.

Definition scope_of_row (v : ReleaseVariable) : variableScope := (rv_Name v, rv_EnvironmentID v).

Lemma overrides_of_none l sc :
  overrides_of l !! sc = None ↔ sc ∉ scope_of_variable <$> l.
Proof.
  unfold overrides_of. induction l as [|v l IH] using rev_ind.
  { cbn. split; [intros _ []%not_elem_of_nil|by rewrite lookup_empty]. }
  rewrite foldl_snoc, fmap_app, elem_of_app. cbn [fmap list_fmap]. rewrite list_elem_of_singleton.
  destruct (decide (scope_of_variable v = sc)) as [->|Hne].
  - rewrite lookup_insert_eq. naive_solver.
  - rewrite lookup_insert_ne by done. naive_solver.
Qed.

Lemma NoDup_fmap_filter {A B} (f : A → B) (P : A → Prop) `{∀ x, Decision (P x)} (l : list A) :
  NoDup (f <$> l) → NoDup (f <$> filter P l).
Proof.
  induction l as [|x l IH]; [done|]. cbn [fmap list_fmap]. intros [Hx Hnd]%NoDup_cons.
  rewrite filter_cons. destruct (decide (P x)); [|by apply IH].
  cbn [fmap list_fmap]. constructor; [|by apply IH]. intros (y & Hy & Hin)%list_elem_of_fmap.
  apply list_elem_of_filter in Hin as [_ Hin]. apply Hx. rewrite Hy. by apply list_elem_of_fmap_2.
Qed.

(** At most one definition per scope: the last one is the only one. *)
Lemma last_filter_perm name environment l k :
  NoDup (scope_of_row <$> l) → l ≡ₚ k →
  last (filter (defines name environment) l) = last (filter (defines name environment) k).
Proof.
  intros Hnd Hp. assert (filter (defines name environment) l ≡ₚ filter (defines name environment) k) as Hf
    by by rewrite Hp.
  assert (∀ x, x ∈ filter (defines name environment) l → scope_of_row x = (name, environment)) as Hsc.
  { intros x [[H1 H2] _]%list_elem_of_filter. unfold scope_of_row. congruence. }
  assert (NoDup (scope_of_row <$> filter (defines name environment) l)) as Hnd'.
  { by apply NoDup_fmap_filter. }
  destruct (filter _ l) as [|x [|y m]].
  - by apply Permutation_nil in Hf as ->.
  - by apply Permutation_singleton_l in Hf as ->.
  - exfalso. apply NoDup_cons in Hnd' as [Hx _]. apply Hx. cbn [fmap list_fmap].
    rewrite (Hsc x), (Hsc y) by set_solver. left.
Qed.

(** A project's variable as a row of the list. *)
Definition row_of (release : Z) (v : Variable_) : ReleaseVariable :=
  mkReleaseVariable 0 release (v_Name v) (v_Value v) (v_EnvironmentID v) 0 (v_Secret v).

Lemma kept_inherited release allowed shared local :
  (λ v, inherited_variable release (iv_Variable v)) <$>
    filter (λ v, iv_Override v = None) (inherit allowed shared local)
  = inherited_variable release <$>
      filter (λ v, overrides_of local !! scope_of_lifecycle v = None)
        (filter (λ v, scope_allowed allowed (lv_EnvironmentID v) = true) shared).
Proof.
  unfold inherit. induction (filter _ shared) as [|v l IH]; [done|].
  cbn [fmap list_fmap]. rewrite !filter_cons.
  match goal with |- context [decide (iv_Override ?x = None)] =>
    change (iv_Override x) with (overrides_of local !! scope_of_lifecycle v) end.
  destruct (decide (overrides_of local !! scope_of_lifecycle v = None)); [|exact IH].
  cbn [fmap list_fmap]. by f_equal.
Qed.

Lemma filter_kept release name environment local (l : list LifecycleVariable) :
  (name, environment) ∉ scope_of_variable <$> local →
  filter (defines name environment) (inherited_variable release <$>
    filter (λ v, overrides_of local !! scope_of_lifecycle v = None) l)
  = filter (defines name environment) (inherited_variable release <$> l).
Proof.
  intros Hnot. induction l as [|v l IH]; [done|]. cbn [fmap list_fmap]. rewrite !filter_cons.
  destruct (decide (overrides_of local !! scope_of_lifecycle v = None)) as [Ho|Ho]; cbn [fmap list_fmap].
  - rewrite filter_cons. by destruct (decide (defines _ _ _)); rewrite IH.
  - rewrite decide_False; [exact IH|]. intros [H1 H2]. apply Ho, overrides_of_none.
    unfold scope_of_lifecycle. cbn in H1, H2. by rewrite H1, H2.
Qed.

Section execution.
Context (release : Z) (variables : list Variable_) (rows : list ReleaseVariable).
Hypothesis same : Forall2 same_variable variables rows.
Hypothesis distinct : NoDup (scope_of_variable <$> variables).

Lemma rows_alike : Forall2 alike rows (row_of release <$> variables).
Proof.
  apply Forall2_fmap_r, Forall2_flip. eapply Forall2_impl; [exact same|].
  intros v r (H1 & H2 & H3 & H4). unfold flip, alike. cbn. auto.
Qed.

Lemma scopes_of_rows : scope_of_row <$> (row_of release <$> variables) = scope_of_variable <$> variables.
Proof. rewrite <-list_fmap_compose. by apply list_fmap_ext. Qed.

Lemma scopes_of_overrides : scope_of_variable <$> (override_of <$> rows) = scope_of_variable <$> variables.
Proof.
  rewrite <-list_fmap_compose. clear distinct. induction same as [|v r vs rs (H1 & _ & H3 & _) Hrest IH]; [done|].
  cbn [fmap list_fmap]. rewrite (IH Hrest). f_equal. unfold scope_of_variable. cbn. by rewrite H1, H3.
Qed.

Lemma last_row name environment :
  option_Forall2 alike (last (filter (defines name environment) rows))
    (last (filter (defines name environment) (row_of release <$> sort_by v_by_id variables))).
Proof.
  rewrite <-(last_filter_perm name environment (row_of release <$> variables)
    (row_of release <$> sort_by v_by_id variables)).
  - apply Forall2_last, filter_alike, rows_alike.
  - by rewrite scopes_of_rows.
  - by rewrite sort_by_perm.
Qed.

(** What is captured resolves as the catalog's definitions do. *)
Lemma captured_pick allowed shared environmentID name :
  resolved_of <$> pick (((λ v, inherited_variable release (iv_Variable v)) <$>
      filter (λ v, iv_Override v = None) (inherit allowed shared (override_of <$> rows))) ++ rows)
    environmentID name
  = resolved_of <$> pick ((inherited_variable release <$>
      filter (λ v, scope_allowed allowed (lv_EnvironmentID v) = true) shared)
      ++ (row_of release <$> sort_by v_by_id variables)) environmentID name.
Proof.
  apply resolved_of_alike. unfold pick. rewrite kept_inherited, !last_filter_app.
  assert (∀ environment, last (filter (defines name environment) rows) = None →
    filter (defines name environment) (inherited_variable release <$>
      filter (λ v, overrides_of (override_of <$> rows) !! scope_of_lifecycle v = None)
        (filter (λ v, scope_allowed allowed (lv_EnvironmentID v) = true) shared))
    = filter (defines name environment) (inherited_variable release <$>
        filter (λ v, scope_allowed allowed (lv_EnvironmentID v) = true) shared)) as Hkept.
  { intros environment Hnone. apply filter_kept. rewrite <-list_fmap_compose.
    intros (r & Hr & Hin)%list_elem_of_fmap. apply (is_Some_None (A:=ReleaseVariable)).
    rewrite <-Hnone. apply last_filter_in. exists r. split; [done|].
    unfold scope_of_variable in Hr. cbn in Hr. by injection Hr as -> ->. }
  pose proof (last_row name (Some environmentID)) as H1. pose proof (last_row name None) as H2.
  destruct (last (filter (defines name (Some environmentID)) rows)) as [x|] eqn:E1.
  { inversion H1; subst. by constructor. }
  inversion H1; subst. rewrite (Hkept _ E1).
  destruct (last (filter (defines name (Some environmentID)) (inherited_variable release <$> _)));
    [by repeat constructor|].
  destruct (last (filter (defines name None) rows)) as [x|] eqn:E2.
  { inversion H2; subst. by constructor. }
  inversion H2; subst. rewrite (Hkept _ E2).
  destruct (last (filter (defines name None) (inherited_variable release <$> _))); by repeat constructor.
Qed.
End execution.

(** ** Values for display *)

Definition hide_lifecycle (v : LifecycleVariable) : LifecycleVariable :=
  if Z.eqb (lv_Secret v) 0 then v else lv_with_value v None.

Definition hide_variable (v : Variable_) : Variable_ :=
  if Z.eqb (v_Secret v) 0 then v else v_with_value v None.

Lemma map_result_image {A B} (f g : A → result B) (h : B → B) l k :
  (∀ x y, f x = Ok y → g x = Ok (h y)) → map_result f l = Ok k → map_result g l = Ok (h <$> k).
Proof.
  intros Hfg. rewrite !map_result_forall2. induction 1; cbn [fmap list_fmap]; constructor; auto.
Qed.

Section display.
Context `{Box} (configured : bool).

Lemma display_variables project s variables :
  Repository_ListVariablesByProject configured project s = Ok (variables, s) →
  ListProjectVariablesForDisplay configured project s = Ok (hide_variable <$> variables, s).
Proof.
  intros (vars & s1 & Hvars & Hmap)%bind_inv. apply lift_ok in Hmap as [Hmap ->].
  unfold ListProjectVariablesForDisplay. rewrite (bind_ok _ _ _ _ _ Hvars). apply lift_ok.
  split; [|done]. eapply map_result_image; [|exact Hmap]. intros x y Hy. cbn beta in Hy |- *. unfold displayValue, hide_variable.
  destruct (decryptValue configured (v_Value x)) as [value|] eqn:E; cbn in Hy; [|discriminate Hy].
  injection Hy as <-. cbn.
  by destruct (Z.eqb (v_Secret x) 0).
Qed.

Lemma display_lifecycle lifecycle s variables s' :
  Repository_ListLifecycleVariables configured lifecycle s = Ok (variables, s') →
  ListLifecycleVariablesForDisplay configured lifecycle s = Ok (hide_lifecycle <$> variables, s').
Proof.
  intros (vars & s1 & Hvars & Hmap)%bind_inv. apply lift_ok in Hmap as [Hmap ->].
  unfold ListLifecycleVariablesForDisplay. rewrite (bind_ok _ _ _ _ _ Hvars). apply lift_ok.
  split; [|done]. eapply map_result_image; [|exact Hmap]. intros x y Hy. cbn beta in Hy |- *. unfold displayValue, hide_lifecycle.
  destruct (decryptValue configured (lv_Value x)) as [value|] eqn:E; cbn in Hy; [|discriminate Hy].
  injection Hy as <-. cbn.
  by destruct (Z.eqb (lv_Secret x) 0).
Qed.

(** The two readings of the inherited variables see the same rows. *)
Lemma inherited_both project local local' s r r' s1 s2 :
  inheritedVariables configured project local true s = Ok (r, s1) →
  inheritedVariables configured project local' false s = Ok (r', s2) →
  ∃ allowed shared, snd r = inherit allowed (hide_lifecycle <$> shared) local ∧
    snd r' = inherit allowed shared local'.
Proof.
  unfold inheritedVariables. destruct (prj_LifecycleID project) as [id|].
  - intros (lc & t1 & Hlc & H1)%bind_inv (lc' & t1' & Hlc' & H2)%bind_inv.
    rewrite Hlc in Hlc'. injection Hlc' as <- <-.
    apply bind_inv in H1 as (sh & t2 & Hsh & H1). apply bind_inv in H2 as (shared & t2' & Hshared & H2).
    apply display_lifecycle in Hshared. rewrite Hsh in Hshared. injection Hshared as -> <-.
    apply bind_inv in H1 as (allowed & t3 & Ha & H1). apply bind_inv in H2 as (allowed' & t3' & Ha' & H2).
    rewrite Ha in Ha'. injection Ha' as <- <-. injection H1 as <- _. injection H2 as <- _.
    by exists allowed, shared.
  - intros [= <- _] [= <- _]. by exists [], [].
Qed.
End display.

Lemma shows_lifecycle lifecycle names release v :
  shows (lifecycle_definition lifecycle names (hide_lifecycle v)) (inherited_variable release v).
Proof.
  unfold lifecycle_definition, variableDefinition, hide_lifecycle.
  destruct (Z.eqb (lv_Secret v) 0) eqn:E; [|cbn [lv_Secret lv_with_value]]; rewrite ?E; cbn [negb vd_Secret vd_set_Scope];
    [destruct (lv_EnvironmentID v) eqn:He|cbn [lv_EnvironmentID lv_with_value]; destruct (lv_EnvironmentID v) eqn:He];
    split; cbn; rewrite ?E, ?He; done.
Qed.

Lemma shows_project project names release v :
  shows (project_definition project names (hide_variable v)) (row_of release v).
Proof.
  unfold project_definition, variableDefinition, hide_variable.
  destruct (Z.eqb (v_Secret v) 0) eqn:E; [|cbn [v_Secret v_with_value]]; rewrite ?E; cbn [negb vd_Secret vd_set_Scope];
    [destruct (v_EnvironmentID v) eqn:He|cbn [v_EnvironmentID v_with_value]; destruct (v_EnvironmentID v) eqn:He];
    split; cbn; rewrite ?E, ?He; done.
Qed.

(** ** The preview and the execution *)

Lemma shows_configured project lifecycle names release allowed shared variables :
  Forall2 shows
    (configured_definitions project lifecycle names
       (inherit allowed (hide_lifecycle <$> shared) (sort_by v_by_id (hide_variable <$> variables)))
       (sort_by v_by_id (hide_variable <$> variables)))
    ((inherited_variable release <$> filter (λ v, scope_allowed allowed (lv_EnvironmentID v) = true) shared)
     ++ (row_of release <$> sort_by v_by_id variables)).
Proof.
  unfold configured_definitions. apply Forall2_app.
  - unfold inherit. rewrite <-list_fmap_compose. induction shared as [|v l IH]; [constructor|].
    cbn [fmap list_fmap]. rewrite !filter_cons.
    assert (lv_EnvironmentID (hide_lifecycle v) = lv_EnvironmentID v) as ->.
    { unfold hide_lifecycle. by destruct (Z.eqb (lv_Secret v) 0). }
    destruct (decide (scope_allowed allowed (lv_EnvironmentID v) = true)); [|exact IH].
    constructor; [apply shows_lifecycle|exact IH].
  - rewrite (sort_by_fmap v_by_id).
    + induction (sort_by v_by_id variables) as [|v l IH]; [constructor|].
      constructor; [apply shows_project|exact IH].
    + intros x y. unfold v_by_id, hide_variable. by destruct (Z.eqb (v_Secret x) 0), (Z.eqb (v_Secret y) 0).
Qed.

(** The catalog's definitions are the resolved ones. *)
Lemma catalog_configured `{Box} configured project preview s catalog s' variables :
  Repository_ListVariablesByProject configured (prj_ID project) s = Ok (variables, s) →
  Repository_AvailableVariables configured project preview s = Ok (catalog, s') →
  ∃ names inherited s2,
    inheritedVariables configured project (sort_by v_by_id (hide_variable <$> variables)) true s
      = Ok (inherited, s2) ∧
    av_Configured catalog = resolved_definitions preview
      (configured_definitions project (fst inherited) names (snd inherited)
         (sort_by v_by_id (hide_variable <$> variables))).
Proof.
  intros Hvars (environments & s1 & Henv & H1)%bind_inv.
  assert (s1 = s) as ->.
  { unfold VariableEnvironments, ListEnvironments, ListLifecycleStageEnvironmentIDs in Henv.
    destruct (prj_LifecycleID project); cbn in Henv; by injection Henv as _ <-. }
  apply bind_inv in H1 as (local & s2 & Hlocal & H1).
  rewrite (display_variables _ _ _ _ Hvars) in Hlocal. injection Hlocal as <- <-.
  apply bind_inv in H1 as (inherited & s3 & Hinh & H1). injection H1 as <- _.
  by eexists _, inherited, s3.
Qed.

Lemma captured_list `{Box} configured d s l rel project rows :
  GetRelease (d_ReleaseID d) s = Ok (rel, s) → GetProject (rel_ProjectID rel) s = Ok (project, s) →
  Repository_ListReleaseVariablesByRelease configured (rel_ID rel) s = Ok (rows, s) →
  captured_variables configured d s = Ok (l, s) →
  ∃ inherited s2,
    inheritedVariables configured project (override_of <$> sort_by rv_by_id rows) false s
      = Ok (inherited, s2) ∧
    l = captured (rel_ID rel) (snd inherited) (sort_by rv_by_id rows).
Proof.
  intros Hrel Hproject Hrows. unfold captured_variables.
  rewrite (bind_ok _ _ _ _ _ Hrel), (bind_ok _ _ _ _ _ Hproject), (bind_ok _ _ _ _ _ Hrows).
  intros (inherited & s2 & Hinh & H1)%bind_inv. exists inherited, s2. split; [exact Hinh|].
  destruct (existsb _ _); [done|]. by injection H1 as <- _.
Qed.

(** The values of a name that is no runtime identity come from the definitions. *)
Lemma deployment_at variables d rs name :
  IsEnvironmentIdentity name = false → ResolveDeploymentVariables variables d = Ok rs →
  filter (λ r, r_Name r = name) rs
  = option_list (resolved_of <$> effective variables (d_EnvironmentID d) name).
Proof.
  intros Hname. unfold ResolveDeploymentVariables. destruct (d_EnvironmentNameSnapshot d); [|done].
  intros (user & Huser & [= <-])%result_bind_ok.
  rewrite filter_app, <-(resolution_at _ _ _ name Huser), list_filter_filter_l by (by intros r ->).
  rewrite (filter_none _ [_; _]); [by rewrite app_nil_r|].
  intros r [->| ->%list_elem_of_singleton]%elem_of_cons <-; discriminate Hname.
Qed.

(** C36: the preview of a project in an environment shows the values its next
    deployment there will run with. Let a release carry the project's current
    variables and a deployment of it be captured while the lifecycle is
    unchanged. Provided no two variables of the project share a name and a
    scope, every name that is no runtime identity has an effective definition
    in the preview exactly when a step gets a value of that name, at most one,
    with the same secrecy and, unless it is secret, the same value. *)
Theorem preview_matches_execution `{Box} (configured : bool) (s : DB) (project : Project)
    (preview : VariableContext) (d : Deployment) (catalog : AvailableVariables) (rel : Release)
    (variables : list Variable_) (rows l : list ReleaseVariable) (rs : list ResolvedVariable) :
  GetRelease (d_ReleaseID d) s = Ok (rel, s) → GetProject (rel_ProjectID rel) s = Ok (project, s) →
  Repository_ListVariablesByProject configured (prj_ID project) s = Ok (variables, s) →
  Repository_ListReleaseVariablesByRelease configured (rel_ID rel) s = Ok (rows, s) →
  Forall2 same_variable variables (sort_by rv_by_id rows) →
  NoDup (scope_of_variable <$> variables) →
  d_EnvironmentID d ≠ 0 → vc_EnvironmentID preview = d_EnvironmentID d →
  Repository_AvailableVariables configured project preview s = Ok (catalog, s) →
  captured_variables configured d s = Ok (l, s) →
  ResolveDeploymentVariables l d = Ok rs →
  ∀ name, IsEnvironmentIdentity name = false →
    Forall2 agrees (filter (λ v, vd_Effective v = true ∧ vd_Name v = name) (av_Configured catalog))
      (filter (λ r, r_Name r = name) rs).
Proof.
  intros Hrel Hproject Hvars Hrows Hsame Hnd Henv Hpreview Hcatalog Hl Hrs name Hname.
  destruct (catalog_configured _ _ _ _ _ _ _ Hvars Hcatalog) as (names & inherited & s2 & Hinh & ->).
  destruct (captured_list _ _ _ _ _ _ _ Hrel Hproject Hrows Hl) as (inherited' & s3 & Hinh' & ->).
  destruct (inherited_both _ _ _ _ _ _ _ _ _ Hinh Hinh') as (allowed & shared & Hi & Hi').
  rewrite (deployment_at _ _ _ _ Hname Hrs). unfold captured. rewrite effective_number, Hi'.
  rewrite (captured_pick (rel_ID rel) variables) by done. rewrite <-Hpreview, Hi.
  apply preview_pick; [by rewrite Hpreview|done|apply shows_configured].
Qed.

(** *** Concrete projects *)

#[local] Existing Instance sample_box.
#[local] Existing Instance sample_box_laws.

Definition value_of {A} (otherwise : A) (r : result (A * DB)) : A :=
  match r with Ok (a, _) => a | Err _ => otherwise end.

Definition preview_store (variables : list Variable_) (rows : list ReleaseVariable) : DB :=
  set_variables (vt_set_lifecycle
      {[ 1 := mkLifecycleVariable 1 1 "B" (Some "inherited") (Some 5) 0 0;
         2 := mkLifecycleVariable 2 1 "C" (Some "hidden") None 1 0 ]}
    (vt_set_project (list_to_map ((λ v, (v_ID v, v)) <$> variables))
      (vt_set_release (list_to_map ((λ v, (rv_ID v, v)) <$> rows)) (db_variables (empty_db 0)))))
    (set_environments {[ 5 := plain_environment "prod" ]} (set_projects {[ 2 := mkProject 2 "p" (Some 1) ]}
      (set_lifecycles {[ 1 := mkLifecycle 1 "l" None 0 ]}
        (set_stages {[ 1 := mkStage 1 1 5 0 0 ]}
          (set_releases {[ 3 := mkRelease 3 2 "v1" "[]" 0 "deployment" ]}
            (set_deployments {[ 9 := sample_deployment ]} (empty_db 0))))))).

Definition preview_variables : list Variable_ :=
  [mkVariable 11 2 "A" (Some "x") None 0 0 0; mkVariable 12 2 "B" (Some "y") (Some 5) 0 0 0].
Definition preview_rows : list ReleaseVariable :=
  [mkReleaseVariable 21 3 "A" (Some "x") None 0 0; mkReleaseVariable 22 3 "B" (Some "y") (Some 5) 0 0].
Definition preview_context : VariableContext := mkContext "script" 5 "bash" "local" "host" [].
Definition preview_project : Project := mkProject 2 "p" (Some 1).
Definition preview_sample : DB := preview_store preview_variables preview_rows.
Definition preview_catalog (s : DB) : AvailableVariables :=
  value_of (mkAvailable [] [] [] preview_context [])
    (Repository_AvailableVariables false preview_project preview_context s).
Definition preview_captured (s : DB) : list ReleaseVariable :=
  value_of [] (captured_variables false sample_deployment s).
Definition preview_resolved (s : DB) : list ResolvedVariable :=
  match ResolveDeploymentVariables (preview_captured s) sample_deployment with
  | Ok rs => rs | Err _ => [] end.

Lemma preview_matches_execution_witness :
  Forall2 agrees
    (filter (λ v, vd_Effective v = true ∧ vd_Name v = "B") (av_Configured (preview_catalog preview_sample)))
    (filter (λ r, r_Name r = "B") (preview_resolved preview_sample)) ∧
  (r_Value <$> filter (λ r, r_Name r = "B") (preview_resolved preview_sample)) = ["y"].
Proof.
  split; [|by vm_compute].
  apply (preview_matches_execution false preview_sample preview_project preview_context sample_deployment
           (preview_catalog preview_sample) (mkRelease 3 2 "v1" "[]" 0 "deployment")
           preview_variables preview_rows (preview_captured preview_sample)); try by vm_compute.
  - by repeat constructor.
  - repeat constructor; cbn; set_solver.
Defined.

Definition state_of {A} (r : result (A * DB)) : DB :=
  match r with Ok (_, s) => s | Err _ => empty_db 0 end.

(** Two variables saved with encryption. *)
Definition copy_sample : DB :=
  state_of ((Repository_CreateVariable true (Some [1; 2]) (mkVariableParams 2 "A" (Some "x") None 1 0);;
             Repository_CreateVariable true (Some [3; 4]) (mkVariableParams 2 "B" None (Some 5) 0 0))
            (preview_store [] [])).
Definition copy_params : list CreateReleaseVariableParams :=
  value_of [] (buildReleaseVariables true (λ _, Some [5; 6]) 2 copy_sample).

Lemma release_copy_witness :
  ∃ variables rows s', (v_Value <$> variables) = [Some "x"; None] ∧
    Repository_ListReleaseVariablesByRelease true 3 s' = Ok (rows, s') ∧
    Forall2 same_variable variables (sort_by rv_by_id rows).
Proof.
  destruct (insertVariables copy_params 3 copy_sample) as [[[] s']|e] eqn:E; [|vm_compute in E; discriminate].
  destruct (release_copy true (λ _, Some [5; 6]) 2 3 copy_params copy_sample copy_sample s')
    as (variables & rows & Hvars & Hrows & Hsame).
  - intros i. exists [5; 6]. repeat split. repeat constructor; unfold is_byte; lia.
  - intros id v Hv. vm_compute in Hv. by destruct id.
  - by vm_compute.
  - by vm_compute.
  - exact E.
  - exists variables, rows, s'. split; [|by split]. vm_compute in Hvars. by injection Hvars as <-.
Defined.

(** *** Unscoped duplicates

    The schema admits two unscoped variables of one name. A release created from
    them lists the newer one first, so the older one has the last ID and is what
    runs; the preview shows the newer one as effective. *)
Definition duplicate_variables : list Variable_ :=
  [mkVariable 11 2 "A" (Some "old") None 1 0 0; mkVariable 12 2 "A" (Some "new") None 2 0 0].
Definition duplicate_sample : DB :=
  let s := preview_store duplicate_variables [] in
  state_of ((params ← buildReleaseVariables false (λ _, None) 2; insertVariables params 3) s).

Lemma duplicate_preview_diverges :
  variables_ok (vt_project (db_variables duplicate_sample)) = true ∧
  (vd_Value <$> filter (λ v, vd_Effective v = true ∧ vd_Name v = "A")
     (av_Configured (preview_catalog duplicate_sample))) = [Some "new"] ∧
  (r_Value <$> filter (λ r, r_Name r = "A") (preview_resolved duplicate_sample)) = ["old"].
Proof. by vm_compute. Qed.
