(* ===== verification/NetAddr.v ===== *)
(** * NetAddr: the texts that Go's [net.ParseIP] accepts

    [net.ParseIP] is netip.ParseAddr without zones. Only whether a text is an
    address matters to the program, so the parsers return a [bool]; their loops
    recurse on the remaining text. *)
From S2P Require Import Prelude Text.

Definition dot : Ascii.ascii := Ascii.ascii_of_nat 46.
Definition colon : Ascii.ascii := Ascii.ascii_of_nat 58.

Definition digit (c : Ascii.ascii) : bool := byte_in 48 57 c.
Definition hex_digit (c : Ascii.ascii) : bool := digit c || byte_in 97 102 c || byte_in 65 70 c.

(** netip.parseIPv4Fields: [value] and [length] of the octet being read, [position]
    the number of octets before it. *)
Fixpoint ipv4_fields (value : Z) (length position : nat) (p : string) : bool :=
  match p with
  | EmptyString => (position =? 3)%nat && (0 <? length)%nat
  | String c rest =>
      if digit c then
        if (length =? 1)%nat && (value =? 0) then false
        else let value := value * 10 + (Z.of_nat (Ascii.nat_of_ascii c) - 48) in
             if 255 <? value then false else ipv4_fields value (S length) position rest
      else if Ascii.eqb c dot then
        if (length =? 0)%nat || (position =? 3)%nat then false
        else ipv4_fields 0 0 (S position) rest
      else false
  end.

Definition parseIPv4 (p : string) : bool := ipv4_fields 0 0 0 p.

(** The length of the hexadecimal run at the head of the text, and the rest. *)
Fixpoint hex_run (p : string) : nat * string :=
  match p with
  | String c rest => if hex_digit c then let '(n, r) := hex_run rest in (S n, r) else (0%nat, p)
  | EmptyString => (0%nat, p)
  end.

(** The loop of netip.parseIPv6: [room] groups of two bytes are left and
    [ellipsis] says whether [::] was read. *)
Fixpoint ipv6_groups (room : nat) (ellipsis : bool) (p : string) : bool :=
  match room with
  | O => false
  | S rest_room =>
      let '(run, after) := hex_run p in
      if (run =? 0)%nat || (4 <? run)%nat then false
      else match after with
      | EmptyString => if (rest_room =? 0)%nat then negb ellipsis else ellipsis
      | String c next =>
          if Ascii.eqb c dot then
            if (negb ellipsis && negb (room =? 2)%nat) || (room <? 2)%nat || negb (parseIPv4 p) then false
            else if (room =? 2)%nat then negb ellipsis else ellipsis
          else if Ascii.eqb c colon then
            match next with
            | EmptyString => false
            | String d tail =>
                if Ascii.eqb d colon then
                  if ellipsis then false
                  else match tail with
                       | EmptyString => negb (rest_room =? 0)%nat
                       | _ => ipv6_groups rest_room true tail
                       end
                else ipv6_groups rest_room ellipsis next
            end
          else false
      end
  end.

Definition parseIPv6 (p : string) : bool :=
  match strip_prefix (String colon (String colon EmptyString)) p with
  | Some EmptyString => true
  | Some rest => ipv6_groups 8 true rest
  | None => ipv6_groups 8 false p
  end.

(** The family is chosen by the first dot or colon. A per cent sign before them
    is an error; after a colon it starts a zone, which [net.ParseIP] refuses. *)
Fixpoint address_family (p : string) : option bool :=
  match p with
  | EmptyString => None
  | String c rest =>
      if Ascii.eqb c dot then Some true
      else if Ascii.eqb c colon then Some false
      else if byte_in 37 37 c then None else address_family rest
  end.

(** [net.ParseIP(p) != nil] *)
Definition ParseIP (p : string) : bool :=
  match address_family p with
  | None => false
  | Some true => parseIPv4 p
  | Some false => negb (contains "%" p) && parseIPv6 p
  end.

Example parse_ip_samples :
  ParseIP <$> ["10.0.0.1"; "1.2.3"; "1.2.3.4.5"; "256.1.1.1"; "01.2.3.4"; "1..2.3"; "1.2.3.";
               "::"; "::1"; "2001:db8::1"; "1:2:3:4:5:6:7:8"; "1:2:3:4:5:6:7"; "1::2::3";
               "::ffff:10.0.0.1"; "1:2:3:4:5:6:1.2.3.4"; "fe80::1%eth0"; "12345::"; "1:2:3:4:5:6:7::"; "host"; "1:"]
  = [true; false; false; false; false; false; false;
     true; true; true; true; false; false;
     true; true; false; false; true; false; false].
Proof. reflexivity. Qed.
