(* ===== verification/Ansible.v ===== *)
(** * Ansible: step definitions and their inventories (internal/stepdefinition)

    [ValidateKind] decides which step definitions may be stored, admitted and
    executed; for an Ansible step it reads the inventory and selects the target
    hosts ([Targets]). The YAML decoder, the known_hosts parser of
    golang.org/x/crypto/ssh and the JSON codec of the configuration are
    parameters. Go maps of names are [gmap]s; the order in which they are
    iterated does not reach a result, because the targets are sorted. *)
From S2P Require Import Prelude Text NetAddr Variables.

Inductive Kind := DocumentNode | SequenceNode | MappingNode | ScalarNode | AliasNode.

#[global] Instance Kind_eq_dec : EqDecision Kind.
Proof. solve_decision. Defined.

(** yaml.Node: kind, style, tag, value, anchor, content. *)
#[warnings="-register-all"]
Inductive Node := mkNode (kind : Kind) (style : Z) (tag value anchor : string) (content : list Node).

Definition n_Kind (n : Node) : Kind := let 'mkNode k _ _ _ _ _ := n in k.
Definition n_Style (n : Node) : Z := let 'mkNode _ s _ _ _ _ := n in s.
Definition n_Tag (n : Node) : string := let 'mkNode _ _ t _ _ _ := n in t.
Definition n_Value (n : Node) : string := let 'mkNode _ _ _ v _ _ := n in v.
Definition n_Anchor (n : Node) : string := let 'mkNode _ _ _ _ a _ := n in a.
Definition n_Content (n : Node) : list Node := let 'mkNode _ _ _ _ _ c := n in c.

Record Ansible := mkAnsible {
  an_Connection : string;
  an_Playbook : string;
  an_Inventory : string;
  an_ExtraVars : gmap string string;
  an_SSHKeyVariable : string;
  an_KnownHosts : string;
  an_Tags : list string;
  an_Limit : list string;
  an_Check : option bool }.

(** One call of ssh.ParseKnownHosts. *)
Inductive KnownHost := NoMoreKeys | InvalidKey | HostKey (rest : string).

Class AnsibleLibraries := {
  (** the first document of a YAML stream, and whether the stream ends after it *)
  yaml_decode : string → option (Node * bool);
  ParseKnownHosts : string → KnownHost;
  (** json.Marshal of an [Ansible], and the strict decoder of [DecodeAnsible] *)
  ansible_marshal : Ansible → string;
  ansible_unmarshal : string → option Ansible }.

(** ssh.ParseKnownHosts consumes input with every key. *)
Class AnsibleLibrariesLaws `{AnsibleLibraries} := {
  known_hosts_consumes : ∀ raw rest, ParseKnownHosts raw = HostKey rest →
    (String.length rest < String.length raw)%nat }.

Definition invalid {A} (message : string) : result A := Err (ErrOther message).
Definition require (b : bool) (message : string) : result unit := if b then Ok tt else invalid message.

(** [for _, x := range l { if err := f(x); err != nil { return err } }] *)
Fixpoint each {A} (f : A → result unit) (l : list A) : result unit :=
  match l with [] => Ok tt | x :: l => f x;; each f l end.

(** [for i := 0; i < len(l); i += 2 { key, value := l[i], l[i+1]; ... }] *)
Fixpoint each_pair {S} (f : Node → Node → S → result S) (l : list Node) (st : S) : result S :=
  match l with
  | [] => Ok st
  | [_] => invalid "index out of range"
  | key :: value :: l => st ← f key value st; each_pair f l st
  end.

(** ** YAML documents *)

Definition core_tags : list string :=
  [""; "!!map"; "!!seq"; "!!str"; "!!int"; "!!bool"; "!!null"; "!!float"; "!!timestamp"].

(** The loop over the children: [mapping] says that keys are at even positions. *)
Fixpoint validate_children (validate : Node → Z → result Z) (mapping even : bool)
    (keys : list string) (l : list Node) (budget : Z) : result Z :=
  match l with
  | [] => Ok budget
  | child :: l =>
      if mapping && even then
        if negb (bool_decide (n_Kind child = ScalarNode)) || negb (String.eqb (n_Tag child) "!!str")
           || (n_Value child ∈? keys)
        then invalid "YAML requires unique string keys"
        else budget ← validate child budget;
             validate_children validate mapping (negb even) (n_Value child :: keys) l budget
      else budget ← validate child budget;
           validate_children validate mapping (negb even) keys l budget
  end.

(** The remaining budget is the result; the code updates it in place. *)
Fixpoint validateYAML (n : Node) (budget : Z) : result Z :=
  match n with
  | mkNode kind _ tag _ anchor content =>
      let budget := budget - 1 in
      if budget <? 0 then invalid "YAML exceeds 1024 combined nodes"
      else if bool_decide (kind = AliasNode) || negb (String.eqb anchor "")
      then invalid "YAML aliases and anchors are unsupported"
      else if negb (tag ∈? core_tags) then invalid "custom YAML tags are unsupported"
      else validate_children validateYAML (bool_decide (kind = MappingNode)) true [] content budget
  end.

Section documents.
Context `{AnsibleLibraries}.

Definition yamlDocument (raw label : string) (kind : Kind) (budget : Z) : result (Node * Z) :=
  if (String.length raw =? 0)%nat || (256 * 1024 <? Z.of_nat (String.length raw))
  then invalid (label +:+ " must contain 1 to 262144 bytes")
  else match yaml_decode raw with
  | None => invalid ("invalid " +:+ label +:+ " YAML")
  | Some (_, false) => invalid (label +:+ " requires one YAML document")
  | Some (doc, true) =>
      match n_Content doc with
      | [root] =>
          if bool_decide (n_Kind root = kind) then
            match validateYAML doc budget with
            | Ok budget => Ok (root, budget)
            | Err (ErrOther message) => invalid (label +:+ ": " +:+ message)
            | Err e => Err e
            end
          else invalid ("invalid " +:+ label +:+ " structure")
      | _ => invalid ("invalid " +:+ label +:+ " structure")
      end
  end.
End documents.

(** strings.ToLower: the runes outside ASCII whose lower case is in ASCII give
    [i] and [k], which none of the four words contains. *)
Fixpoint validateInventoryScalars (n : Node) : result unit :=
  match n with
  | mkNode _ style tag value _ content =>
      if String.eqb tag "!!str" && Z.eqb style 0 && (ascii_lower value ∈? ["yes"; "no"; "on"; "off"])
      then invalid "quote inventory strings yes, no, on, and off"
      else each validateInventoryScalars content
  end.

(** ** Options *)

(** The expression [^[A-Za-z0-9_][A-Za-z0-9_.-]*$]. *)
Definition inventoryIdentifier (name : string) : bool :=
  match name with
  | EmptyString => false
  | String c rest =>
      (letter c || digit c)
      && forallb (λ c, letter c || digit c || byte_in 45 46 c) (String.list_ascii_of_string rest)
  end.

Definition reserved_words : list string :=
  ["as"; "assert"; "await"; "break"; "continue"; "del"; "elif"; "except"; "finally"; "from"; "global";
   "nonlocal"; "raise"; "try"; "while"; "with"; "yield"; "connection"; "remote_user"; "become";
   "become_user"; "become_method"; "become_flags"; "become_password"; "delegate_to"; "delegate_facts";
   "collections"; "module_defaults"; "strategy"; "serial"; "order"; "force_handlers"; "any_errors_fatal";
   "max_fail_percentage"; "gather_facts"; "gather_subset"; "gather_timeout"; "fact_path"; "port"; "no_log";
   "timeout"; "ignore_errors"; "ignore_unreachable"; "run_once"; "check_mode"; "diff"; "hosts"; "tasks";
   "name"; "tags"; "roles"; "vars_files"; "inventory_dir"; "inventory_file"; "playbook_dir"; "play_hosts";
   "role_name"; "role_path"].

Definition reserved_names : list string :=
  ["hostvars"; "groups"; "group_names"; "inventory_hostname"; "inventory_hostname_short"; "environment";
   "lookup"; "query"; "q"; "now"; "undef"; "omit"; "vars"; "True"; "False"; "None"; "async"; "lambda";
   "class"; "import"; "for"; "if"; "else"; "def"; "return"; "pass"; "in"; "is"; "not"; "and"; "or"].

(** Called with an [identifier], whose lower case is the one of ASCII. *)
Definition reservedAnsibleVariable (name : string) : bool :=
  (name ∈? reserved_words) || String.prefix "ansible_" (ascii_lower name) || (name ∈? reserved_names).

Section options.
Context `{AnsibleLibraries}.

(** The loop of [validateKnownHosts]: the number of keys, [None] for an invalid
    one. Every key consumes input, so the length of the text is enough fuel. *)
Fixpoint known_host_keys (fuel : nat) (rest : string) : option nat :=
  match fuel with
  | O => Some 0%nat
  | S fuel =>
      if (String.length rest =? 0)%nat then Some 0%nat
      else match ParseKnownHosts rest with
           | NoMoreKeys => Some 0%nat
           | InvalidKey => None
           | HostKey rest => S <$> known_host_keys fuel rest
           end
  end.

Definition validateKnownHosts (raw : string) : result unit :=
  if (String.length raw =? 0)%nat || (256 * 1024 <? Z.of_nat (String.length raw))
  then invalid "known_hosts must contain 1 to 262144 bytes"
  else match known_host_keys (String.length raw) raw with
       | None => invalid "invalid known_hosts configuration"
       | Some O => invalid "known_hosts requires a host key"
       | Some _ => Ok tt
       end.

Definition validateConnection (a : Ansible) : result unit :=
  if an_Connection a ∈? [""; "ssh"] then
    require (identifier (an_SSHKeyVariable a)) "SSH credential reference is required";;
    validateKnownHosts (an_KnownHosts a)
  else if String.eqb (an_Connection a) "local" then
    require (String.eqb (an_SSHKeyVariable a) "" && String.eqb (an_KnownHosts a) "")
      "local connections cannot contain SSH configuration"
  else invalid "connection must be ssh or local".

Definition validateOptions (a : Ansible) : result unit :=
  require (negb ((128 <? size (an_ExtraVars a))%nat || (64 <? length (an_Tags a))%nat
                 || (1000 <? length (an_Limit a))%nat)) "too many Ansible mappings, tags, or limits";;
  each (λ '(name, source),
      require (identifier name && negb (reservedAnsibleVariable name) && identifier source)
        "invalid Ansible variable mapping") (map_to_list (an_ExtraVars a));;
  validateConnection a;;
  each (λ tag,
      require (inventoryIdentifier tag && (String.length tag <=? 128)%nat) "invalid Ansible tag") (an_Tags a).
End options.

(** ** Inventories *)

Record Inventory := mkInventory {
  iv_groups : gmap string (list string);
  iv_hosts : gset string }.

Definition empty_inventory : Inventory := mkInventory ∅ ∅.

Definition add_group (name : string) (st : Inventory) : Inventory :=
  mkInventory (<[name := []]> (iv_groups st)) (iv_hosts st).

(** [hosts[host] = true] and the host appended to every group of the path. *)
Definition add_host (path : list string) (host : string) (st : Inventory) : Inventory :=
  mkInventory
    (foldl (λ groups group, <[group := default [] (groups !! group) ++ [host]]> groups)
       (iv_groups st) path)
    ({[host]} ∪ iv_hosts st).

Definition validateInventoryHostValue (key : string) (value : Node) : result unit :=
  if negb (bool_decide (n_Kind value = ScalarNode)) then invalid "host values must be literal"
  else if key ∈? ["ansible_host"; "ansible_user"] then
    require (String.eqb (n_Tag value) "!!str") "host address and user must be strings";;
    require (inventoryIdentifier (n_Value value)
             || (String.eqb key "ansible_host" && ParseIP (n_Value value)))
      "host address and user must be literal names or IP addresses"
  else if String.eqb key "ansible_port" then
    match ParseInt (n_Value value) with
    | Some port => require ((1 <=? port) && (port <=? 65535)) "invalid inventory port"
    | None => invalid "invalid inventory port"
    end
  else invalid "unsupported inventory host option".

Definition inventoryHostValues (n : Node) : result unit :=
  if String.eqb (n_Tag n) "!!null" then Ok tt
  else if negb (bool_decide (n_Kind n = MappingNode)) then invalid "host configuration must be a mapping"
  else each_pair (λ key value _, validateInventoryHostValue (n_Value key) value) (n_Content n) tt.

Section inventory.
Context (a : Ansible).

Definition inventory_host (path : list string) (key value : Node) (st : Inventory) : result Inventory :=
  let host := n_Value key in
  require (negb (negb (inventoryIdentifier host)
                 || (negb (String.eqb (an_Connection a) "local") && String.eqb host "localhost")
                 || (String.eqb (an_Connection a) "local" && negb (String.eqb host "localhost"))))
    "invalid inventory host";;
  require (negb (String.eqb (an_Connection a) "local" && negb (length (n_Content value) =? 0)%nat))
    "local inventory hosts cannot contain connection options";;
  inventoryHostValues value;;
  Ok (add_host path host st).

Definition inventoryHosts (value : Node) (path : list string) (st : Inventory) : result Inventory :=
  if bool_decide (n_Kind value = MappingNode)
  then each_pair (inventory_host path) (n_Content value) st
  else invalid "inventory hosts must be a mapping".

(** [inventoryGroupBody], with [inventoryGroups] as an argument. *)
Definition inventoryGroupBody (groups : Node → list string → Inventory → result Inventory)
    (body : Node) (path : list string) (st : Inventory) : result Inventory :=
  match body with
  | mkNode kind _ _ _ _ content =>
      if bool_decide (kind = MappingNode) then
        each_pair (λ field value st,
          if String.eqb (n_Value field) "hosts" then inventoryHosts value path st
          else if String.eqb (n_Value field) "children" then
            if bool_decide (last path = Some "ungrouped")
            then invalid "ungrouped cannot contain child groups"
            else groups value path st
          else invalid "inventory supports only static hosts and children") content st
      else invalid "inventory group requires hosts or children"
  end.

Fixpoint inventoryGroups (n : Node) (ancestors : list string) (st : Inventory) : result Inventory :=
  match n with
  | mkNode kind _ _ _ _ content =>
      if bool_decide (kind = MappingNode) then
        each_pair (λ key body st,
          let name := n_Value key in
          require (negb (negb (length ancestors =? 0)%nat && (name ∈? ["all"; "ungrouped"])))
            "all and ungrouped must be top-level inventory groups";;
          require (negb (negb (inventoryIdentifier name) || (name ∈? ancestors)))
            "invalid or cyclic inventory group";;
          require (is_null (iv_groups st !! name)) "duplicate inventory group";;
          inventoryGroupBody inventoryGroups body (ancestors ++ [name]) (add_group name st)) content st
      else invalid "inventory groups must be mappings"
  end.
End inventory.

Definition validateInventoryNames (st : Inventory) : result unit :=
  let hosts := elements (iv_hosts st) in
  require (negb ((length hosts =? 0)%nat || (1000 <? length hosts)%nat)) "inventory requires 1 to 1000 hosts";;
  each (λ host,
      require (negb (not_null (iv_groups st !! host) || (host ∈? ["all"; "ungrouped"])))
        "inventory host and group names must be distinct") hosts.

(** Every host belongs to [all]; only hosts without another group are [ungrouped]. *)
Definition reconcileInventoryGroups (st : Inventory) : gmap string (list string) :=
  let grouped := concat (snd <$> filter (λ kv : string * list string, (kv.1 ∈? ["all"; "ungrouped"]) = false)
                            (map_to_list (iv_groups st))) in
  <["all" := elements (iv_hosts st)]>
    (<["ungrouped" := filter (λ host, (host ∈? grouped) = false) (elements (iv_hosts st))]> (iv_groups st)).

(** The loop over the limits. *)
Fixpoint select_limits (groups : gmap string (list string)) (hosts selected : gset string)
    (limits : list string) : result (gset string) :=
  match limits with
  | [] => Ok selected
  | limit :: limits =>
      require (inventoryIdentifier limit) "limit must name inventory hosts or groups";;
      if bool_decide (limit ∈ hosts) then select_limits groups hosts ({[limit]} ∪ selected) limits
      else match groups !! limit with
           | None => invalid "limit contains an unknown host or group"
           | Some members => select_limits groups hosts (list_to_set members ∪ selected) limits
           end
  end.

Definition selectTargets (a : Ansible) (groups : gmap string (list string)) (hosts : gset string)
    : result (list string) :=
  match an_Limit a with
  | [] => Ok (sorted hosts)
  | limits =>
      selected ← select_limits groups hosts ∅ limits;
      require (negb (length (sorted selected) =? 0)%nat) "limit selects no hosts";;
      Ok (sorted selected)
  end.

Section targets.
Context `{AnsibleLibraries}.

Definition Targets (a : Ansible) : result (list string) :=
  '(_, budget) ← yamlDocument (an_Playbook a) "playbook" SequenceNode 1024;
  '(inventory, _) ← yamlDocument (an_Inventory a) "inventory" MappingNode budget;
  validateInventoryScalars inventory;;
  validateOptions a;;
  st ← inventoryGroups a inventory [] empty_inventory;
  validateInventoryNames st;;
  selectTargets a (reconcileInventoryGroups st) (iv_hosts st).

(** ** Step definitions (definition.go) *)

Record Definition_ := mkDefinition {
  sd_Kind : string;
  sd_Ansible : option Ansible;
  sd_Name : string;
  sd_ScriptBody : string;
  sd_Interpreter : string;
  sd_SortOrder : Z;
  sd_TimeoutSeconds : Z;
  sd_MaxRetries : Z;
  sd_ExecutionTarget : string;
  sd_AgentExecutionMode : string;
  sd_AgentSelectors : list string;
  sd_ContainerImage : string;
  sd_NetworkMode : string;
  sd_ApprovalArtifactPath : string;
  sd_ApprovalReviewPath : string;
  sd_ApprovalReviewFormat : string;
  sd_VariableNames : list string }.

Definition StepKind (d : Definition_) : string :=
  if String.eqb (sd_Kind d) "" then "script" else sd_Kind d.

(** [(a *Ansible) JSON()] *)
Definition Ansible_JSON (a : option Ansible) : string :=
  match a with Some a => ansible_marshal a | None => "" end.

Definition DecodeAnsible (raw : string) : result (option Ansible) :=
  if String.eqb raw "" then Ok None
  else match ansible_unmarshal raw with
       | Some a => Ok (Some a)
       | None => invalid "invalid Ansible configuration"
       end.

Definition validateAnsibleKind (d : Definition_) : result unit :=
  match sd_Ansible d with
  | None => invalid "Ansible configuration is required"
  | Some a =>
      require (String.eqb (sd_ScriptBody d) "" && String.eqb (sd_Interpreter d) ""
               && (length (sd_VariableNames d) =? 0)%nat) "Ansible steps cannot contain script fields";;
      require ((sd_ExecutionTarget d ∈? [""; "local"]) && (length (sd_AgentSelectors d) =? 0)%nat
               && (sd_AgentExecutionMode d ∈? [""; "host"]))
        "Ansible requires a server container; remote agents are unsupported";;
      require (negb (String.eqb (TrimSpace (sd_ContainerImage d)) "")) "Ansible execution image is required";;
      require (sd_NetworkMode d ∈? ["none"; "bridge"])
        "Ansible requires an explicit none or bridge network selection";;
      Targets a;;
      Ok tt
  end.

Definition ValidateKind (d : Definition_) : result unit :=
  if String.eqb (StepKind d) "script" then
    require (bool_decide (sd_Ansible d = None)) "script steps cannot contain Ansible configuration"
  else if String.eqb (StepKind d) "ansible" then validateAnsibleKind d
  else invalid "unknown step kind".

Definition ValidateWrite (d : Definition_) : result unit :=
  match sd_Ansible d ≫= an_Check with
  | Some _ => invalid "select Ansible check mode when starting an execution"
  | None => ValidateKind d
  end.
End targets.
