(* ===== verification/AnsibleTheorems.v ===== *)
(** * AnsibleTheorems: what an inventory selects

    [declares inventory path host]: the inventory lists the host under the group
    at [path], outermost group first. The theorem reads [Targets] as a query on
    this relation. *)
From S2P Require Import Prelude Text NetAddr Variables Ansible.

Fixpoint pairs (l : list Node) : list (Node * Node) :=
  match l with
  | key :: value :: l => (key, value) :: pairs l
  | _ => []
  end.

Inductive declares : Node → list string → string → Prop :=
  | declares_host n key body field value host options :
      (key, body) ∈ pairs (n_Content n) → (field, value) ∈ pairs (n_Content body) →
      n_Value field = "hosts" → (host, options) ∈ pairs (n_Content value) →
      declares n [n_Value key] (n_Value host)
  | declares_child n key body field value path host :
      (key, body) ∈ pairs (n_Content n) → (field, value) ∈ pairs (n_Content body) →
      n_Value field = "children" → declares value path host →
      declares n (n_Value key :: path) host.

(** The groups of an inventory, those without hosts too. *)
Inductive group_in : Node → string → Prop :=
  | group_here n key body :
      (key, body) ∈ pairs (n_Content n) → group_in n (n_Value key)
  | group_child n key body field value group :
      (key, body) ∈ pairs (n_Content n) → (field, value) ∈ pairs (n_Content body) →
      n_Value field = "children" → group_in value group → group_in n group.

Definition declared (inventory : Node) (host : string) : Prop := ∃ path, declares inventory path host.

(** Ansible's groups: [all] has every host, [ungrouped] those of no other group. *)
Definition member (inventory : Node) (group host : string) : Prop :=
  if String.eqb group "all" then declared inventory host
  else if String.eqb group "ungrouped" then
    declared inventory host ∧
    ∀ path g, declares inventory path host → g ∈ path → g = "all" ∨ g = "ungrouped"
  else ∃ path, declares inventory path host ∧ group ∈ path.

Definition selects (inventory : Node) (limit host : string) : Prop :=
  (limit = host ∧ declared inventory host) ∨ member inventory limit host.

Definition names_target (inventory : Node) (limit : string) : Prop :=
  declared inventory limit ∨ group_in inventory limit ∨ limit = "all" ∨ limit = "ungrouped".

(** ** Loops *)

Lemma require_ok b message u : require b message = Ok u ↔ b = true.
Proof. destruct b, u; naive_solver. Qed.

Lemma each_ok {A} (f : A → result unit) l u : each f l = Ok u ↔ ∀ x, x ∈ l → f x = Ok tt.
Proof.
  destruct u. induction l as [|x l IH]; cbn [each]; [set_solver|].
  rewrite result_bind_ok. setoid_rewrite elem_of_cons. split.
  - intros ([] & Hx & Hl) y [->|Hy]; [done|]. by apply IH.
  - intros Hall. exists tt. split; [by apply Hall; left|]. apply IH. eauto.
Qed.

(** Induction over the nodes of a document. *)
Section node_ind.
Context (P : Node → Prop).
Context (Hnode : ∀ kind style tag value anchor content,
  Forall P content → P (mkNode kind style tag value anchor content)).

Fixpoint node_rect (n : Node) : P n :=
  match n with
  | mkNode kind style tag value anchor content =>
      Hnode kind style tag value anchor content
        ((fix children (l : list Node) : Forall P l :=
            match l with
            | [] => Forall_nil_2 P
            | child :: l => Forall_cons_2 P child l (node_rect child) (children l)
            end) content)
  end.
End node_ind.

(** ** What reading a part of the inventory adds

    [grows N D st st']: [st'] has the hosts of [st] and those that [D] lists
    under some path, in the groups of the path; the groups of [st], those of
    the paths, and those in [N]. *)
Definition members (groups : gmap string (list string)) (g : string) : list string := default [] (groups !! g).

Record grows (N : string → Prop) (D : list string → string → Prop) (st st' : Inventory) : Prop := {
  gr_hosts : ∀ h, h ∈ iv_hosts st' ↔ h ∈ iv_hosts st ∨ ∃ p, D p h;
  gr_members : ∀ g h, h ∈ members (iv_groups st') g ↔
    h ∈ members (iv_groups st) g ∨ ∃ p, D p h ∧ g ∈ p;
  gr_groups : ∀ g, is_Some (iv_groups st' !! g) ↔
    is_Some (iv_groups st !! g) ∨ N g ∨ ∃ p h, D p h ∧ g ∈ p }.

Lemma grows_refl (N : string → Prop) (D : list string → string → Prop) st :
  (∀ g, ¬ N g) → (∀ p h, ¬ D p h) → grows N D st st.
Proof. intros HN HD. split; naive_solver. Qed.

Lemma grows_iff (N N' : string → Prop) (D D' : list string → string → Prop) st st' :
  grows N D st st' → (∀ g, N g ↔ N' g) → (∀ p h, D p h ↔ D' p h) → grows N' D' st st'.
Proof.
  intros [Hh Hm Hg] HN HD. split.
  - intros h. rewrite Hh. by setoid_rewrite HD.
  - intros g h. rewrite Hm. by setoid_rewrite HD.
  - intros g. rewrite Hg, HN. by setoid_rewrite HD.
Qed.

Lemma grows_trans (N1 N2 : string → Prop) (D1 D2 : list string → string → Prop) st1 st2 st3 :
  grows N1 D1 st1 st2 → grows N2 D2 st2 st3 →
  grows (λ g, N1 g ∨ N2 g) (λ p h, D1 p h ∨ D2 p h) st1 st3.
Proof.
  intros [Hh Hm Hg] [Hh' Hm' Hg']. split.
  - intros h. rewrite Hh', Hh. naive_solver.
  - intros g h. rewrite Hm', Hm. naive_solver.
  - intros g. rewrite Hg', Hg. naive_solver.
Qed.

Lemma grows_pairs (f : Node → Node → Inventory → result Inventory)
    (N : Node → Node → string → Prop) (D : Node → Node → list string → string → Prop) l :
  (∀ key value st st', (key, value) ∈ pairs l → f key value st = Ok st' →
     grows (N key value) (D key value) st st') →
  ∀ st st', each_pair f l st = Ok st' →
  grows (λ g, ∃ key value, (key, value) ∈ pairs l ∧ N key value g)
        (λ p h, ∃ key value, (key, value) ∈ pairs l ∧ D key value p h) st st'.
Proof.
  remember (length l) as n eqn:Hn. revert l Hn.
  induction n as [n IH] using lt_wf_ind. intros l -> Hf st st'.
  destruct l as [|key [|value l]]; cbn [each_pair pairs] in *.
  - intros [= <-]. apply grows_refl; set_solver.
  - done.
  - intros (st1 & H1 & H2)%result_bind_ok.
    assert (grows (N key value) (D key value) st st1) as G1 by (apply Hf; [left|done]).
    eapply grows_iff; [eapply grows_trans; [exact G1|]| |].
    + eapply (IH (length l)); [cbn; lia|done| |exact H2]. intros k v ? ? Hin. apply Hf. by right.
    + intros g. setoid_rewrite elem_of_cons. naive_solver.
    + intros p h. setoid_rewrite elem_of_cons. naive_solver.
Qed.

Lemma append_host host path groups :
  let groups' := foldl (λ groups group, <[group := default [] (groups !! group) ++ [host]]> groups) groups path in
  (∀ g h, h ∈ members groups' g ↔ h ∈ members groups g ∨ (h = host ∧ g ∈ path)) ∧
  (∀ g, is_Some (groups' !! g) ↔ is_Some (groups !! g) ∨ g ∈ path).
Proof.
  revert groups. induction path as [|x path IH]; intros groups; cbn; [set_solver|].
  destruct (IH (<[x:=default [] (groups !! x) ++ [host]]> groups)) as [Hm Hg]. cbn in Hm, Hg. split.
  - intros g h. rewrite Hm, elem_of_cons. unfold members. destruct (decide (x = g)) as [->|Hne].
    + rewrite lookup_insert_eq. cbn. rewrite elem_of_app, list_elem_of_singleton. naive_solver.
    + rewrite lookup_insert_ne by done. naive_solver.
  - intros g. rewrite Hg, elem_of_cons. destruct (decide (x = g)) as [->|Hne].
    + rewrite lookup_insert_eq. naive_solver.
    + rewrite lookup_insert_ne by done. naive_solver.
Qed.

Lemma grows_host path host st :
  grows (λ _, False) (λ p h, p = path ∧ h = host) st (add_host path host st).
Proof.
  destruct (append_host host path (iv_groups st)) as [Hm Hg]. split; cbn.
  - intros h. set_solver.
  - intros g h. rewrite Hm. naive_solver.
  - intros g. rewrite Hg. naive_solver.
Qed.

Lemma grows_group name st :
  iv_groups st !! name = None → grows (λ g, g = name) (λ _ _, False) st (add_group name st).
Proof.
  intros Hn. split; cbn; [naive_solver|..]; intros g; [intros h; unfold members|];
    destruct (decide (name = g)) as [<-|]; rewrite ?lookup_insert_eq, ?lookup_insert_ne, ?Hn by done;
    naive_solver.
Qed.

Section parts.
Context (a : Ansible).

Lemma grows_hosts value path st st' :
  inventoryHosts a value path st = Ok st' →
  grows (λ _, False)
    (λ p h, p = path ∧ ∃ key options, (key, options) ∈ pairs (n_Content value) ∧ h = n_Value key) st st'.
Proof.
  unfold inventoryHosts. destruct (bool_decide _); [|done]. intros H.
  eapply grows_iff.
  - eapply (grows_pairs _ (λ _ _ _, False) (λ key _ p h, p = path ∧ h = n_Value key)); [|exact H].
    intros key options st1 st1' _. unfold inventory_host.
    intros ([] & _ & ([] & _ & ([] & _ & [= <-])%result_bind_ok)%result_bind_ok)%result_bind_ok.
    apply grows_host.
  - naive_solver.
  - naive_solver.
Qed.

(** What the body of the group at [path] declares, and the groups under it. *)
Definition body_declares (body : Node) (path p : list string) (h : string) : Prop :=
  ∃ field value, (field, value) ∈ pairs (n_Content body) ∧
    ((n_Value field = "hosts" ∧ p = path ∧
        ∃ key options, (key, options) ∈ pairs (n_Content value) ∧ h = n_Value key) ∨
     (n_Value field = "children" ∧ ∃ q, declares value q h ∧ p = path ++ q)).

Definition body_groups (body : Node) (g : string) : Prop :=
  ∃ field value, (field, value) ∈ pairs (n_Content body) ∧ n_Value field = "children" ∧ group_in value g.

Definition inventory_spec (n : Node) : Prop := ∀ ancestors st st',
  inventoryGroups a n ancestors st = Ok st' →
  grows (group_in n) (λ p h, ∃ q, declares n q h ∧ p = ancestors ++ q) st st'.

Lemma pairs_in l key value : (key, value) ∈ pairs l → key ∈ l ∧ value ∈ l.
Proof.
  remember (length l) as n eqn:Hn. revert l Hn.
  induction n as [n IH] using lt_wf_ind. intros [|k [|v l]] ->; cbn [pairs]; [set_solver..|].
  intros [[= -> ->]|H]%elem_of_cons; [set_solver|].
  destruct (IH (length l) ltac:(cbn; lia) l eq_refl H). set_solver.
Qed.

Lemma grows_body body path st st' :
  (∀ value, value ∈ n_Content body → inventory_spec value) →
  inventoryGroupBody a (inventoryGroups a) body path st = Ok st' →
  grows (body_groups body) (body_declares body path) st st'.
Proof.
  intros IH. destruct body as [kind style tag text anchor content]. cbn [inventoryGroupBody].
  destruct (bool_decide _); [|done]. intros H.
  eapply grows_iff; [eapply (grows_pairs _
    (λ field value g, n_Value field = "children" ∧ group_in value g)
    (λ field value p h, (n_Value field = "hosts" ∧ p = path ∧
        ∃ key options, (key, options) ∈ pairs (n_Content value) ∧ h = n_Value key) ∨
      (n_Value field = "children" ∧ ∃ q, declares value q h ∧ p = path ++ q))); [|exact H]|done..].
  intros field value' st1 st1' [_ Hv]%pairs_in.
  destruct (String.eqb_spec (n_Value field) "hosts") as [Hf|Hf].
  - intros Hh%grows_hosts. eapply grows_iff; [exact Hh|..]; rewrite Hf; naive_solver.
  - destruct (String.eqb_spec (n_Value field) "children") as [Hc|Hc]; [|done].
    destruct (bool_decide _); [done|]. intros Hg. apply (IH value' Hv) in Hg.
    eapply grows_iff; [exact Hg|..]; naive_solver.
Qed.

Lemma declares_unfold n p h :
  declares n p h ↔ ∃ key body, (key, body) ∈ pairs (n_Content n) ∧ body_declares body [n_Value key] p h.
Proof.
  split.
  - intros [? key body field value host options H1 H2 H3 H4|? key body field value path host H1 H2 H3 H4];
      exists key, body; (split; [done|]); exists field, value; (split; [done|]).
    + left. split_and!; [done|done|]. exists host, options. done.
    + right. split; [done|]. exists path. done.
  - intros (key & body & H1 & field & value & H2 & [(Hf & -> & host & options & H3 & ->)|(Hf & q & H3 & ->)]).
    + eapply declares_host; eauto.
    + eapply declares_child; eauto.
Qed.

Lemma group_in_unfold n g :
  group_in n g ↔ ∃ key body, (key, body) ∈ pairs (n_Content n) ∧ (g = n_Value key ∨ body_groups body g).
Proof.
  split.
  - intros [? key body H1|? key body field value group H1 H2 H3 H4]; exists key, body; (split; [done|]).
    + by left.
    + right. exists field, value. eauto.
  - intros (key & body & H1 & [->|(field & value & H2 & Hf & H3)]).
    + eapply group_here; eauto.
    + eapply group_child; eauto.
Qed.

Lemma body_declares_app body path path' p h :
  body_declares body (path ++ path') p h ↔ ∃ q, body_declares body path' q h ∧ p = path ++ q.
Proof.
  split.
  - intros (field & value & Hin & [(? & -> & ?)|(? & q & ? & ->)]).
    + exists path'. split; [|done]. exists field, value. eauto.
    + exists (path' ++ q). rewrite app_assoc. split; [|done]. exists field, value. eauto 10.
  - intros (q & (field & value & Hin & [(? & -> & ?)|(? & r & ? & ->)]) & ->); exists field, value; split; eauto.
    right. split; [done|]. exists r. by rewrite app_assoc.
Qed.

Lemma grows_groups n : inventory_spec n ∧ Forall inventory_spec (n_Content n).
Proof.
  induction n as [kind style tag text anchor content IH] using node_rect.
  assert (Forall inventory_spec content) as Hspec by (eapply Forall_impl; [exact IH|naive_solver]).
  split; [|done]. intros ancestors st st'. cbn [inventoryGroups].
  destruct (bool_decide _); [|done]. intros H.
  eapply grows_iff; [eapply (grows_pairs _
    (λ key body g, g = n_Value key ∨ body_groups body g)
    (λ key body p h, body_declares body (ancestors ++ [n_Value key]) p h)); [|exact H]|..].
  - intros key body st1 st1' [_ Hb]%pairs_in.
    intros ([] & _ & ([] & _ & ([] & Hnew%require_ok & Hbody)%result_bind_ok)%result_bind_ok)%result_bind_ok.
    apply is_null_true in Hnew. rewrite Forall_forall in IH. destruct (IH body Hb) as [_ Hin].
    rewrite Forall_forall in Hin. apply (grows_body _ _ _ _ Hin) in Hbody.
    eapply grows_iff; [eapply grows_trans; [by apply grows_group|exact Hbody]|naive_solver..].
  - intros g. rewrite group_in_unfold. naive_solver.
  - intros p h. setoid_rewrite declares_unfold. setoid_rewrite body_declares_app. cbn [n_Content].
    split; [intros (k & b & ? & q & ? & ->)|intros (q & (k & b & ? & ?) & ->)]; eauto 10.
Qed.
End parts.

(** ** Selection *)

(** The inventory passes every check before the selection, and reads as [st]. *)
Definition accepted `{AnsibleLibraries} (a : Ansible) (inventory : Node) (st : Inventory) : Prop :=
  ∃ playbook budget budget',
    yamlDocument (an_Playbook a) "playbook" SequenceNode 1024 = Ok (playbook, budget) ∧
    yamlDocument (an_Inventory a) "inventory" MappingNode budget = Ok (inventory, budget') ∧
    validateInventoryScalars inventory = Ok tt ∧ validateOptions a = Ok tt ∧
    inventoryGroups a inventory [] empty_inventory = Ok st ∧ validateInventoryNames st = Ok tt.

Lemma Targets_accepted `{AnsibleLibraries} a targets :
  Targets a = Ok targets ↔
  ∃ inventory st, accepted a inventory st ∧
    selectTargets a (reconcileInventoryGroups st) (iv_hosts st) = Ok targets.
Proof.
  unfold Targets, accepted. rewrite result_bind_ok. split.
  - intros ([playbook budget] & Hp & H1). apply result_bind_ok in H1 as ([inventory budget'] & Hi & H1).
    apply result_bind_ok in H1 as ([] & Hs & H1). apply result_bind_ok in H1 as ([] & Ho & H1).
    apply result_bind_ok in H1 as (st & Hg & H1). apply result_bind_ok in H1 as ([] & Hn & H1).
    exists inventory, st. split; [|done]. by exists playbook, budget, budget'.
  - intros (inventory & st & (playbook & budget & budget' & Hp & Hi & Hs & Ho & Hg & Hn) & Ht).
    exists (playbook, budget). split; [done|]. cbn. rewrite Hi. cbn. rewrite Hs. cbn. rewrite Ho. cbn.
    rewrite Hg. cbn. by rewrite Hn.
Qed.

Section selection.
Context (groups : gmap string (list string)) (hosts : gset string).

Definition known_limit (limit : string) : Prop :=
  inventoryIdentifier limit = true ∧ (limit ∈ hosts ∨ is_Some (groups !! limit)).

Definition limit_hosts (limit host : string) : Prop :=
  if decide (limit ∈ hosts) then host = limit else host ∈ members groups limit.

Lemma select_limits_ok limits selected s :
  select_limits groups hosts selected limits = Ok s →
  Forall known_limit limits ∧
  ∀ h, h ∈ s ↔ h ∈ selected ∨ ∃ limit, limit ∈ limits ∧ limit_hosts limit h.
Proof.
  revert selected. induction limits as [|limit limits IH]; intros selected; cbn [select_limits].
  { intros [= <-]. split; [done|]. set_solver. }
  intros ([] & Hid%require_ok & H)%result_bind_ok.
  unfold known_limit, limit_hosts in *. setoid_rewrite elem_of_cons.
  case_bool_decide as Hh.
  - apply IH in H as [Hk Hs]. split; [by constructor; auto|]. intros h. rewrite Hs. clear IH Hs.
    setoid_rewrite elem_of_union. setoid_rewrite elem_of_singleton. split.
    + intros [[->|?]|(l & ? & ?)]; [|by left|eauto]. right. exists limit. rewrite decide_True by done. auto.
    + intros [?|(l & [->|?] & Hl)]; [auto| |eauto]. rewrite decide_True in Hl by done. auto.
  - destruct (groups !! limit) as [m|] eqn:Em; [|done]. apply IH in H as [Hk Hs].
    split; [constructor; [split; [done|]; right; by rewrite Em|done]|]. intros h. rewrite Hs. clear IH Hs.
    setoid_rewrite elem_of_union. setoid_rewrite elem_of_list_to_set. split.
    + intros [[?|?]|(l & ? & ?)]; [|by left|eauto]. right. exists limit. rewrite decide_False by done.
      unfold members. rewrite Em. auto.
    + intros [?|(l & [->|?] & Hl)]; [auto| |eauto]. rewrite decide_False in Hl by done.
      unfold members in Hl. rewrite Em in Hl. auto.
Qed.

Lemma select_limits_total limits selected :
  Forall known_limit limits → ∃ s, select_limits groups hosts selected limits = Ok s.
Proof.
  revert selected. induction limits as [|limit limits IH]; intros selected; cbn [select_limits]; [eauto|].
  intros [[Hid Hk] Hl]%Forall_cons_1. rewrite Hid. cbn. case_bool_decide as Hh; [by apply IH|].
  destruct Hk as [?|[m Hm]]; [done|]. rewrite Hm. by apply IH.
Qed.

(** Every limit is known, some host is selected, and the list is the sorted selection. *)
Lemma selectTargets_ok a targets :
  selectTargets a groups hosts = Ok targets ↔
  Forall known_limit (an_Limit a) ∧ (an_Limit a = [] ∨ targets ≠ []) ∧
  StronglySorted (λ p d, string_le p d = true) targets ∧ NoDup targets ∧
  ∀ h, h ∈ targets ↔
    (an_Limit a = [] ∧ h ∈ hosts) ∨ ∃ limit, limit ∈ an_Limit a ∧ limit_hosts limit h.
Proof.
  unfold selectTargets. destruct (an_Limit a) as [|l0 ls] eqn:El.
  - transitivity (targets = sorted hosts); [naive_solver|]. rewrite sorted_unique.
    split; [intros (? & ? & ?); split_and!|intros (? & ? & ? & ? & ?)]; set_solver.
  - assert (∀ s, (∀ h, h ∈ s ↔ h ∈ (∅ : gset string) ∨ ∃ limit, limit ∈ l0 :: ls ∧ limit_hosts limit h) →
      targets = sorted s ↔ StronglySorted (λ p d, string_le p d = true) targets ∧ NoDup targets ∧
      ∀ h, h ∈ targets ↔ (l0 :: ls = [] ∧ h ∈ hosts) ∨ ∃ limit, limit ∈ l0 :: ls ∧ limit_hosts limit h) as Hu.
    { intros s Hs. rewrite sorted_unique. setoid_rewrite Hs. setoid_rewrite elem_of_empty. naive_solver. }
    rewrite result_bind_ok. split.
    + intros (s & [Hk Hs]%select_limits_ok & ([] & Hne%require_ok & [= <-])%result_bind_ok).
      split; [done|]. split; [right; by destruct (sorted s)|]. by apply (Hu s Hs).
    + intros (Hk & [?|Hne] & Hrest); [done|].
      destruct (select_limits_total (l0 :: ls) ∅ Hk) as [s E]. exists s. split; [done|].
      apply select_limits_ok in E as [_ Hs]. apply (Hu s Hs) in Hrest as <-.
      by destruct targets.
Qed.
End selection.

(** ** Groups as Ansible sees them *)
Definition special (g : string) : Prop := g = "all" ∨ g = "ungrouped".

Lemma path_group n path h g : declares n path h → g ∈ path → group_in n g.
Proof.
  induction 1 as [n key body field value host options H1 H2 H3 H4
                 |n key body field value path host H1 H2 H3 H4 IH].
  - intros ->%list_elem_of_singleton. eapply group_here; eauto.
  - intros [->|Hg]%elem_of_cons; [eapply group_here; eauto|]. eapply group_child; eauto.
Qed.


Lemma special_true g : (g ∈? ["all"; "ungrouped"])%bool = true ↔ special g.
Proof. rewrite in_list_true, !elem_of_cons, elem_of_nil. unfold special. naive_solver. Qed.


Lemma elem_of_concat {A} (x : A) (l : list (list A)) : x ∈ concat l ↔ ∃ k, k ∈ l ∧ x ∈ k.
Proof.
  induction l as [|k l IH]; cbn; [set_solver|]. rewrite elem_of_app, IH. set_solver.
Qed.


Lemma selects_declared inventory limit h : selects inventory limit h → declared inventory h.
Proof.
  unfold selects, member, declared. destruct (String.eqb limit "all"); [naive_solver|].
  destruct (String.eqb limit "ungrouped"); naive_solver.
Qed.

Section reconciled.
Context (inventory : Node) (st : Inventory).
Context (Hgrows : grows (group_in inventory) (λ p h, ∃ q, declares inventory q h ∧ p = [] ++ q)
                    empty_inventory st).

Lemma hosts_declared h : h ∈ iv_hosts st ↔ declared inventory h.
Proof using Hgrows.
  rewrite (gr_hosts _ _ _ _ Hgrows). unfold declared. cbn. set_solver.
Qed.

Lemma members_declared g h :
  h ∈ members (iv_groups st) g ↔ ∃ path, declares inventory path h ∧ g ∈ path.
Proof using Hgrows.
  rewrite (gr_members _ _ _ _ Hgrows). unfold members. cbn. rewrite lookup_empty. cbn.
  split; [intros [H|(p & (q & ? & ->) & ?)]; [by apply not_elem_of_nil in H|eauto]|naive_solver].
Qed.

Lemma groups_declared g : is_Some (iv_groups st !! g) ↔ group_in inventory g.
Proof using Hgrows.
  rewrite (gr_groups _ _ _ _ Hgrows). cbn. rewrite lookup_empty. split.
  - intros [[? ?]|[?|(p & h & (q & Hq & ->) & Hg)]]; [done..|]. eauto using path_group.
  - intros H. right. by left.
Qed.

Lemma host_names h :
  validateInventoryNames st = Ok tt → declared inventory h → ¬ group_in inventory h ∧ h ≠ "all" ∧ h ≠ "ungrouped".
Proof using Hgrows.
  intros Hnames Hh%hosts_declared. revert Hnames. unfold validateInventoryNames.
  intros ([] & _ & H)%result_bind_ok. rewrite each_ok in H.
  specialize (H h ltac:(by apply elem_of_elements)). apply require_ok, negb_true_iff, orb_false_iff in H
    as [Hg Hn]. split.
  - intros Hin%groups_declared. apply not_null_true in Hin. congruence.
  - cbn in Hn. rewrite orb_false_r in Hn. apply orb_false_iff in Hn as [?%String.eqb_neq ?%String.eqb_neq]. done.
Qed.

Lemma elem_of_grouped h :
  h ∈ concat (snd <$> filter (λ kv : string * list string, (kv.1 ∈? ["all"; "ungrouped"])%bool = false)
                  (map_to_list (iv_groups st)))
  ↔ ∃ path g, declares inventory path h ∧ g ∈ path ∧ ¬ special g.
Proof using Hgrows.
  rewrite elem_of_concat. split.
  - intros (l & ([g l'] & -> & [Hg Hin]%list_elem_of_filter)%list_elem_of_fmap & Hh).
    apply elem_of_map_to_list in Hin. cbn [fst snd] in Hg, Hh.
    assert (h ∈ members (iv_groups st) g) as Hm by (unfold members; by rewrite Hin).
    apply members_declared in Hm as (path & ? & ?). exists path, g. split_and!; [done..|].
    intros Hs%special_true. congruence.
  - intros (path & g & Hd & Hg & Hs). assert (h ∈ members (iv_groups st) g) as Hm
      by (apply members_declared; eauto).
    unfold members in Hm. destruct (iv_groups st !! g) as [l|] eqn:El; [|by apply not_elem_of_nil in Hm].
    exists l. split; [|done]. apply list_elem_of_fmap. exists (g, l). split; [done|].
    apply list_elem_of_filter. split; [|by apply elem_of_map_to_list]. cbn [fst].
    apply not_true_iff_false. by rewrite special_true.
Qed.

Lemma members_reconciled g h :
  h ∈ members (reconcileInventoryGroups st) g ↔ member inventory g h.
Proof using Hgrows.
  unfold member, members, reconcileInventoryGroups.
  destruct (String.eqb_spec g "all") as [->|Hall].
  { rewrite lookup_insert_eq. cbn. by rewrite elem_of_elements, hosts_declared. }
  rewrite lookup_insert_ne by done. destruct (String.eqb_spec g "ungrouped") as [->|Hun].
  - rewrite lookup_insert_eq. cbn [default from_option id]. rewrite list_elem_of_filter, elem_of_elements, hosts_declared.
    rewrite <-not_true_iff_false, in_list_true, elem_of_grouped. split.
    + intros [Hn Hd]. split; [done|]. intros path g Hp Hg.
      destruct (decide (g = "all")) as [?|?]; [by left|]. destruct (decide (g = "ungrouped")) as [?|?]; [by right|].
      exfalso. apply Hn. exists path, g. split_and!; [done..|]. by intros [?|?].
    + intros [Hd Hn]. split; [|done]. intros (path & g & Hp & Hg & Hs). by apply Hs, (Hn path).
  - rewrite lookup_insert_ne by done. apply members_declared.
Qed.

Lemma known_reconciled limit :
  known_limit (reconcileInventoryGroups st) (iv_hosts st) limit ↔
  inventoryIdentifier limit = true ∧ names_target inventory limit.
Proof using Hgrows.
  unfold known_limit, names_target, reconcileInventoryGroups. rewrite hosts_declared, <-groups_declared.
  destruct (decide (limit = "all")) as [->|Hall]; [rewrite lookup_insert_eq; naive_solver|].
  rewrite lookup_insert_ne by done.
  destruct (decide (limit = "ungrouped")) as [->|Hun]; [rewrite lookup_insert_eq; naive_solver|].
  rewrite lookup_insert_ne by done. naive_solver.
Qed.

Lemma limit_selects limit h :
  validateInventoryNames st = Ok tt →
  limit_hosts (reconcileInventoryGroups st) (iv_hosts st) limit h ↔ selects inventory limit h.
Proof using Hgrows.
  intros Hnames. unfold limit_hosts, selects. destruct (decide (limit ∈ iv_hosts st)) as [Hl|Hl]; rewrite hosts_declared in Hl.
  - destruct (host_names limit Hnames Hl) as (Hng & Hall & Hun). split; [naive_solver|].
    intros [[-> _]|Hm]; [done|]. unfold member in Hm. apply String.eqb_neq in Hall, Hun.
    rewrite Hall, Hun in Hm. destruct Hm as (path & Hd & Hin). exfalso. eauto using path_group.
  - rewrite members_reconciled. naive_solver.
Qed.

End reconciled.

Lemma names_nonempty st : validateInventoryNames st = Ok tt → ∃ h, h ∈ iv_hosts st.
Proof.
  unfold validateInventoryNames. intros ([] & H%require_ok & _)%result_bind_ok.
  apply negb_true_iff, orb_false_iff in H as [H _]. apply Nat.eqb_neq in H.
  destruct (elements (iv_hosts st)) as [|h l] eqn:E; [done|]. exists h.
  apply elem_of_elements. rewrite E. left.
Qed.

(** The conditions on the limits and the list, on the inventory that was read. *)
Lemma select_inventory a inventory st hosts :
  grows (group_in inventory) (λ p h, ∃ q, declares inventory q h ∧ p = [] ++ q) empty_inventory st →
  validateInventoryNames st = Ok tt →
  selectTargets a (reconcileInventoryGroups st) (iv_hosts st) = Ok hosts ↔
  (∀ limit, limit ∈ an_Limit a → inventoryIdentifier limit = true ∧ names_target inventory limit) ∧
  hosts ≠ [] ∧ StronglySorted (λ p d, string_le p d = true) hosts ∧ NoDup hosts ∧
  ∀ host, host ∈ hosts ↔ declared inventory host ∧
    (an_Limit a = [] ∨ ∃ limit, limit ∈ an_Limit a ∧ selects inventory limit host).
Proof.
  intros Hg Hn. rewrite selectTargets_ok, Forall_forall.
  setoid_rewrite (known_reconciled inventory st Hg).
  setoid_rewrite (λ l h, limit_selects inventory st Hg l h Hn).
  setoid_rewrite (hosts_declared inventory st Hg).
  assert (∀ h, (an_Limit a = [] ∧ declared inventory h ∨
      ∃ limit, limit ∈ an_Limit a ∧ selects inventory limit h) ↔
    declared inventory h ∧ (an_Limit a = [] ∨ ∃ limit, limit ∈ an_Limit a ∧ selects inventory limit h)) as Hiff
    by (intros h; split; [intros [[??]|(l & ? & ?)]|intros [? [?|(l & ? & ?)]]]; eauto 10 using selects_declared).
  setoid_rewrite Hiff. split; [|naive_solver].
  intros (Hk & Hne & Hs & Hnd & Hin). split_and!; [done| |done..].
  destruct Hne as [He|?]; [|done]. intros ->. destruct (names_nonempty st Hn) as [h Hh].
  apply (hosts_declared inventory st Hg) in Hh. apply (not_elem_of_nil h), Hin. auto.
Qed.

(** C24: c35: [Targets] accepts a configuration exactly when its documents and options
    are valid, every limit names a host or a group of the inventory, and a host is
    left. Then it lists, sorted and without duplicates, the declared hosts that a
    limit selects: by name, by [all], by a group on one of its paths, or by
    [ungrouped] when every group on its paths is [all] or [ungrouped]. *)
Theorem targets `{AnsibleLibraries} (a : Ansible) (hosts : list string) :
  Targets a = Ok hosts ↔
  ∃ inventory st, accepted a inventory st ∧
    (∀ limit, limit ∈ an_Limit a → inventoryIdentifier limit = true ∧ names_target inventory limit) ∧
    hosts ≠ [] ∧ StronglySorted (λ p d, string_le p d = true) hosts ∧ NoDup hosts ∧
    ∀ host, host ∈ hosts ↔ declared inventory host ∧
      (an_Limit a = [] ∨ ∃ limit, limit ∈ an_Limit a ∧ selects inventory limit host).
Proof.
  rewrite Targets_accepted. apply exist_proper. intros inventory. apply exist_proper. intros st.
  split; (intros [Hacc Hsel]; split; [done|]);
    destruct Hacc as (playbook & budget & budget' & _ & _ & _ & _ & Hg & Hn);
    apply grows_groups in Hg; by apply (select_inventory a inventory st).
Qed.

(** More fuel than the length of the text reads the same keys. *)
Lemma known_host_keys_fuel `{AnsibleLibrariesLaws} fuel raw :
  (String.length raw ≤ fuel)%nat → known_host_keys fuel raw = known_host_keys (String.length raw) raw.
Proof.
  enough (∀ n m p, (String.length p ≤ n)%nat → (String.length p ≤ m)%nat →
            known_host_keys n p = known_host_keys m p) as Hall by (intros; by apply Hall).
  clear raw fuel. induction n as [|n IH]; intros [|m] p Hn Hm; cbn [known_host_keys]; try done;
    destruct (String.length p) as [|k] eqn:El; cbn [Nat.eqb]; try done; try lia.
  destruct (ParseKnownHosts p) as [| |rest] eqn:Ep; [done..|].
  apply known_hosts_consumes in Ep. f_equal. apply IH; lia.
Qed.

(** ** A sample inventory: [web] has a and b, [db] has a child group with c. *)
Module Sample.
Definition text (v : string) : Node := mkNode ScalarNode 0 "!!str" v "" [].
Definition nothing : Node := mkNode ScalarNode 0 "!!null" "" "" [].
Definition mapping (l : list Node) : Node := mkNode MappingNode 0 "!!map" "" "" l.
Definition document (root : Node) : Node := mkNode DocumentNode 0 "" "" "" [root].

Definition inventory : Node := mapping
  [text "web"; mapping [text "hosts"; mapping [text "b"; nothing; text "a"; nothing]];
   text "db"; mapping [text "children"; mapping
     [text "primary"; mapping [text "hosts"; mapping [text "c"; nothing]]]]].

#[local] Instance libraries : AnsibleLibraries := {|
  yaml_decode p := if String.eqb p "I" then Some (document inventory, true)
                   else Some (document (mkNode SequenceNode 0 "!!seq" "" "" []), true);
  ParseKnownHosts p := match p with
    | String _ rest => HostKey rest | EmptyString => NoMoreKeys end;
  ansible_marshal _ := "{}";
  ansible_unmarshal _ := None |}.

Definition config (limit : list string) : Ansible := mkAnsible "ssh" "P" "I" ∅ "KEY" "k" [] limit None.

Example select_all : Targets (config []) = Ok ["a"; "b"; "c"].
Proof. vm_compute. reflexivity. Qed.
Example select_group : Targets (config ["db"; "b"]) = Ok ["b"; "c"].
Proof. vm_compute. reflexivity. Qed.
Example select_ungrouped : Targets (config ["ungrouped"]) = Err (ErrOther "limit selects no hosts").
Proof. vm_compute. reflexivity. Qed.
Example select_unknown :
  Targets (config ["d"]) = Err (ErrOther "limit contains an unknown host or group").
Proof. vm_compute. reflexivity. Qed.
End Sample.
