(* ===== verification/RemoteLifecycle.v ===== *)
(** * RemoteLifecycle: deployments executed by an agent

    The functions of internal/repository/remote_lifecycle.go,
    remote_deployment_start.go, remote_terminal.go, remote_cancellation.go,
    remote_transactions.go, remote_poll_claim.go and agent_admin.go. An agent
    authenticates every call with the claim's token; the server expires claims
    that were never started, loses claims whose heartbeat stopped, and resolves
    late outcomes without reviving a failed deployment. Signals to waiting
    pollers ([notifyRemoteWork]) carry no state and are left out. *)
From S2P Require Import Prelude Db Tx QueueQueries DeploymentQueue DispatchQueries.

(** What the lifecycle takes from outside the repository: the protocol's
    timeouts in seconds, the compatibility check of resource policies (the text
    of its refusal), and the rendering of [%q]. *)
Class AgentEnvironment := {
  LostThreshold : Z;
  CancelAcknowledgementTimeout : Z;
  PreStartClaimTimeout : Z;
  CheckCompatibility : string → option string;
  #[global] agent_format :: GoFormat }.

Record RemoteLifecycleClaim := mkIdentity {
  il_DeploymentID : Z;
  il_AgentID : string;
  il_ClaimTokenHash : option string }.

(** [if err != nil || changed != 1 { return transitionError(err) }] *)
Definition one_row (m : Tx Z) : Tx unit :=
  changed ← m; guard (Z.eqb changed 1) ErrRemoteLifecycleConflict.

Definition lockRemoteLifecycleRows (identity : RemoteLifecycleClaim) (requireToken : bool)
    : Tx (RemoteDeploymentClaim * Deployment) :=
  one_row (if requireToken
           then LockRemoteLifecycleClaim (il_DeploymentID identity) (il_AgentID identity)
                  (il_ClaimTokenHash identity)
           else LockRemoteMaintenanceClaim (il_DeploymentID identity) (il_AgentID identity));;
  one_row (LockAssignedRemoteDeployment (il_DeploymentID identity) (Some (il_AgentID identity)));;
  claim ← GetRemoteDeploymentClaim (il_DeploymentID identity);
  deployment ← GetDeployment (il_DeploymentID identity);
  mret (claim, deployment).

Definition lockRemoteLifecycle (identity : RemoteLifecycleClaim) (requireToken : bool)
    : Tx (RemoteDeploymentClaim * Deployment) :=
  one_row (LockClaimAgent (il_AgentID identity));;
  lockRemoteLifecycleRows identity requireToken.

(** ** remote_lifecycle.go: heartbeats *)

Definition heartbeatRemoteDeployment (identity : RemoteLifecycleClaim) : Tx bool :=
  rows ← lockRemoteLifecycle identity true;
  now ← CurrentUnixTime;
  let claim := rows.1 in let deployment := rows.2 in
  guard (String.eqb (d_Status deployment) "running"
         && (c_State claim ∈? ["started"; "cancel_requested"])) ErrRemoteLifecycleConflict;;
  one_row (DispatchQueries.HeartbeatRemoteDeployment now (il_DeploymentID identity)
             (il_AgentID identity) (il_ClaimTokenHash identity));;
  one_row (TouchAgentHeartbeat now (il_AgentID identity));;
  mret (String.eqb (c_State claim) "cancel_requested").

Definition HeartbeatRemoteDeployment (identity : RemoteLifecycleClaim) : DB → result bool * DB :=
  WithTx (heartbeatRemoteDeployment identity).

(** ** remote_deployment_start.go *)

Definition startRemoteDeployment (identity : RemoteLifecycleClaim) : Tx unit :=
  rows ← lockRemoteLifecycle identity true;
  now ← CurrentUnixTime;
  let claim := rows.1 in let deployment := rows.2 in
  if String.eqb (c_State claim) "claimed" then
    guard (String.eqb (d_Status deployment) "pending") ErrRemoteLifecycleConflict;;
    one_row (DispatchQueries.StartRemoteDeployment now (il_DeploymentID identity)
               (il_AgentID identity) (il_ClaimTokenHash identity));;
    one_row (StartRemoteDeploymentStatus now (il_DeploymentID identity) (il_AgentID identity))
  else if c_State claim ∈? ["started"; "cancel_requested"] then
    guard (String.eqb (d_Status deployment) "running" && not_null (c_StartedAt claim))
      ErrRemoteLifecycleConflict
  else fail ErrRemoteLifecycleConflict.

Section environment.
Context `{AgentEnvironment}.

(** The scrubber is the credential scrubber of the deployment's payload. *)
Definition startRemoteDeploymentWithLogs (identity : RemoteLifecycleClaim)
    (scrubber : option (string → string)) : Tx (list DeploymentLog) :=
  d ← GetDeployment (il_DeploymentID identity);
  advanceEnvironmentQueue (d_EnvironmentID d);;
  owner ← attempt (GetDeploymentSlot (d_ID d));
  match owner with
  | Ok o => guard (Z.eqb o (d_ID d)) ErrRemoteLifecycleConflict
  | Err _ => fail ErrRemoteLifecycleConflict
  end;;
  blockers ← ListDeploymentQueueBlockers (d_ID d);
  guard (negb (existsb (λ b, negb (Z.eqb b (d_ID d))) blockers)) ErrRemoteLifecycleConflict;;
  claim ← GetRemoteDeploymentClaim (il_DeploymentID identity);
  startRemoteDeployment identity;;
  match scrubber with
  | None => mret []
  | Some scrub =>
      if String.eqb (c_State claim) "claimed" then
        agent ← GetAgent (il_AgentID identity);
        now ← CurrentUnixTime;
        log ← CreateRemoteDeploymentLog (il_DeploymentID identity)
                (scrub ("Execution agent: agent=" +:+ quote (scrub (a_Name agent))
                        +:+ " id=" +:+ quote (scrub (a_ID agent)))) now;
        mret [log]
      else mret []
  end.

Definition StartRemoteDeploymentWithLogs (identity : RemoteLifecycleClaim)
    (scrubber : option (string → string)) : DB → result (list DeploymentLog) * DB :=
  WithDeploymentTx (il_DeploymentID identity) (startRemoteDeploymentWithLogs identity scrubber).

Definition StartRemoteDeployment (identity : RemoteLifecycleClaim) (s : DB) : result unit * DB :=
  match StartRemoteDeploymentWithLogs identity None s with
  | (Ok _, s') => (Ok tt, s')
  | (Err e, s') => (Err e, s')
  end.
End environment.

(** ** remote_terminal.go: outcomes *)

Definition remoteAgentFailedReason : string := "remote_agent_failed".

Record RemoteTerminalResult := mkTerminal {
  t_Changed : bool;
  t_DeploymentID : Z;
  t_ProjectID : Z;
  t_EnvironmentID : Z;
  t_EnvironmentName : string;
  t_State : string }.

Definition no_terminal : RemoteTerminalResult := mkTerminal false 0 0 0 "" "".

Definition finishRemoteDeploymentLifecycle (identity : RemoteLifecycleClaim) (state : string)
    : Tx RemoteTerminalResult :=
  rows ← lockRemoteLifecycle identity true;
  now ← CurrentUnixTime;
  let claim := rows.1 in let deployment := rows.2 in
  if String.eqb (c_State claim) state then mret no_terminal
  else
    guard (negb
      ((negb (String.eqb state "succeeded") && negb (String.eqb state "failed")
        && negb (String.eqb state "cleanup_unconfirmed"))
       || (negb (String.eqb (c_State claim) "started") && negb (String.eqb (c_State claim) "lost")
           && negb (String.eqb (c_State claim) "cancel_unconfirmed")
           && (negb (String.eqb (c_State claim) "cancel_requested")
               || negb (String.eqb state "cleanup_unconfirmed")))
       || (negb (String.eqb (d_Status deployment) "running")
           && negb (String.eqb (d_Status deployment) "failed")))) ErrRemoteLifecycleConflict;;
    release ← GetRelease (d_ReleaseID deployment);
    environment ← GetEnvironment (d_EnvironmentID deployment);
    one_row (FinishRemoteDeployment state
      (if String.eqb state "failed" then Some remoteAgentFailedReason else None) now
      (il_DeploymentID identity) (il_AgentID identity) (il_ClaimTokenHash identity));;
    if String.eqb (d_Status deployment) "failed" && negb (String.eqb state "cleanup_unconfirmed")
    then mret no_terminal
    else
      one_row (FinishRemoteDeploymentStatus state now (il_DeploymentID identity)
                 (il_AgentID identity));;
      mret (mkTerminal true (d_ID deployment) (rel_ProjectID release) environment.1
              (e_Name environment.2) state).

Definition FinishRemoteDeploymentLifecycle (identity : RemoteLifecycleClaim) (state : string)
    : DB → result RemoteTerminalResult * DB :=
  WithDeploymentTx (il_DeploymentID identity) (finishRemoteDeploymentLifecycle identity state).

Definition cancelRemoteDeploymentStatus (now : Z) (identity : RemoteLifecycleClaim) : Tx unit :=
  one_row (CancelRemoteDeploymentStatus now (il_DeploymentID identity) (il_AgentID identity)).

Definition acknowledgeRemoteCancellation (identity : RemoteLifecycleClaim) : Tx bool :=
  rows ← lockRemoteLifecycle identity true;
  now ← CurrentUnixTime;
  let claim := rows.1 in let deployment := rows.2 in
  if String.eqb (c_State claim) "cancelled" then mret false
  else
    guard ((c_State claim ∈? ["cancel_requested"; "cancel_unconfirmed"])
           && (d_Status deployment ∈? ["running"; "failed"])) ErrRemoteLifecycleConflict;;
    one_row (AcknowledgeRemoteDeploymentCancellation now (il_DeploymentID identity)
               (il_AgentID identity) (il_ClaimTokenHash identity));;
    if String.eqb (d_Status deployment) "failed" then mret true
    else cancelRemoteDeploymentStatus now identity;; mret true.

Definition AcknowledgeRemoteCancellation (identity : RemoteLifecycleClaim) : DB → result bool * DB :=
  WithDeploymentTx (il_DeploymentID identity) (acknowledgeRemoteCancellation identity).

(** ** remote_cancellation.go *)

Record RemoteAssignedDeployment := mkAssigned {
  as_DeploymentID : Z;
  as_AgentID : string }.

Definition assigned_identity (a : RemoteAssignedDeployment) : RemoteLifecycleClaim :=
  mkIdentity (as_DeploymentID a) (as_AgentID a) None.

Definition cancelAssignedRemoteDeployment (assigned : RemoteAssignedDeployment) : Tx unit :=
  now ← CurrentUnixTime;
  rows ← lockRemoteLifecycle (assigned_identity assigned) false;
  let claim := rows.1 in let deployment := rows.2 in
  if c_State claim ∈? ["waiting"; "claimed"] then
    guard (d_Status deployment ∈? ["pending"; "pending_approval"]) ErrRemoteLifecycleConflict;;
    one_row (RequestRemoteDeploymentCancellation now (as_DeploymentID assigned));;
    cancelRemoteDeploymentStatus now (assigned_identity assigned)
  else if String.eqb (c_State claim) "started" then
    guard (String.eqb (d_Status deployment) "running") ErrRemoteLifecycleConflict;;
    one_row (RequestRemoteDeploymentCancellation now (as_DeploymentID assigned))
  else if String.eqb (c_State claim) "cancel_requested" then
    guard (String.eqb (d_Status deployment) "running") ErrRemoteLifecycleConflict
  else if String.eqb (c_State claim) "cancelled" then
    guard (String.eqb (d_Status deployment) "cancelled") ErrRemoteLifecycleConflict
  else fail ErrRemoteLifecycleConflict.

Definition CancelAssignedRemoteDeployment (assigned : RemoteAssignedDeployment)
    : DB → result unit * DB :=
  WithDeploymentTx (as_DeploymentID assigned) (cancelAssignedRemoteDeployment assigned).

Definition failRemoteDeployment (now : Z) (identity : RemoteLifecycleClaim)
    (deployment : Deployment) : Tx unit :=
  guard (String.eqb (d_Status deployment) "running") ErrRemoteLifecycleConflict;;
  one_row (FailRemoteDeploymentStatus now (il_DeploymentID identity) (il_AgentID identity)).

Section maintenance.
Context `{AgentEnvironment}.

(** The transaction body for one candidate; a conflict while locking means
    that the claim moved on and is not an error. *)
Definition maintain_claim (candidate : Z * string) : Tx unit :=
  now ← CurrentUnixTime;
  let identity := mkIdentity candidate.1 candidate.2 None in
  rows ← attempt (lockRemoteLifecycle identity false);
  match rows with
  | Err ErrRemoteLifecycleConflict => mret tt
  | Err e => fail e
  | Ok (claim, deployment) =>
      if String.eqb (c_State claim) "claimed" then
        if sql_le (c_ClaimExpiresAt claim) now then
          one_row (ExpireRemoteClaim now (c_DeploymentID claim) (c_AgentID claim))
        else mret tt
      else if String.eqb (c_State claim) "started" then
        let staleBefore := now - LostThreshold in
        if sql_le (c_LastHeartbeatAt claim) staleBefore then
          one_row (LoseStaleRemoteClaim now (c_DeploymentID claim) (c_AgentID claim) staleBefore);;
          failRemoteDeployment now identity deployment
        else mret tt
      else if String.eqb (c_State claim) "cancel_requested" then
        let staleBefore := now - CancelAcknowledgementTimeout in
        if sql_le (c_CancelRequestedAt claim) staleBefore then
          one_row (ExpireRemoteCancellationClaim now (c_DeploymentID claim) (c_AgentID claim)
                     staleBefore);;
          failRemoteDeployment now identity deployment
        else mret tt
      else mret tt
  end.

Definition maintainRemoteClaim (candidate : Z * string) : DB → result unit * DB :=
  WithDeploymentTx candidate.1 (maintain_claim candidate).

Fixpoint maintain_claims (claims : list (Z * string)) (s : DB) : result unit * DB :=
  match claims with
  | [] => (Ok tt, s)
  | candidate :: rest =>
      match maintainRemoteClaim candidate s with
      | (Ok _, s') => maintain_claims rest s'
      | (Err e, s') => (Err e, s')
      end
  end.

Definition MaintainRemoteLifecycle (s : DB) : result unit * DB :=
  match ListRemoteLifecycleClaims s with
  | Ok (claims, _) => maintain_claims claims s
  | Err e => (Err e, s)
  end.

(** ** remote_transactions.go, remote_resource_policy.go *)

(** A missing advertisement is the empty string. *)
Definition remoteResourcePolicy (agent : string) : Tx string :=
  advertisement ← read (λ s, default "" (db_agent_policies s !! agent));
  match CheckCompatibility advertisement with
  | None => mret advertisement
  | Some e => fail (ErrLimits ("invalid step execution limits: agent " +:+ quote agent
                      +:+ " resource policy is incompatible: " +:+ e))
  end.

Definition claimRemoteDeployment (arg : ClaimRemoteDeploymentParams) : Tx Z :=
  locked ← LockClaimAgent (cp_AgentID arg);
  if Z.eqb locked 0 then mret 0
  else remoteResourcePolicy (cp_AgentID arg);; DispatchQueries.ClaimRemoteDeployment arg.

Definition ClaimRemoteDeployment (arg : ClaimRemoteDeploymentParams) (s : DB) : result Z * DB :=
  match WithDeploymentTx (cp_DeploymentID arg)
          (d ← GetDeployment (cp_DeploymentID arg);
           advanceEnvironmentQueue (d_EnvironmentID d);;
           claimRemoteDeployment arg) s with
  | (Err ErrNoRows, s') => (Ok 0, s')
  | r => r
  end.
End maintenance.

Definition CancelRemoteDeployment (now deployment : Z) : DB → result Z * DB :=
  WithDeploymentTx deployment
    (changed ← CancelStepDeployment deployment;
     if Z.eqb changed 0 then mret changed
     else RequestRemoteDeploymentCancellation now deployment;; mret changed).

(** ** remote_poll_claim.go *)

Definition failWaitingRemotePayload (deployment : Z) (agent : string) (now : Z) (reason : string)
    : Tx unit :=
  FailWaitingRemotePayload reason now deployment agent;;
  FailUnsupportedRemoteDeploymentStatus now agent;;
  mret tt.

Record RemotePreparedClaim := mkPrepared {
  pc_Token : string;
  pc_TokenHash : option string;
  pc_Ciphertext : string }.

Record RemoteClaim := mkRemoteClaim {
  rc_DeploymentID : Z;
  rc_Token : string;
  rc_Ciphertext : string }.

Section poll.
Context `{AgentEnvironment}.
(** The payload snapshot reads the store; its contents are opaque here. *)
Context {Snapshot : Type} (remotePayloadSnapshot : string → Z → DB → result Snapshot).
(** The caller's callback, which encrypts the payload and makes the token. *)
Context (prepare : Snapshot → result RemotePreparedClaim).

Definition log_line (deployment : Z) (line : string) : Tx unit :=
  CreateDeploymentLog deployment None line;; mret tt.

(** From the snapshot on: refuse the payload, or hand the claim out. *)
Definition prepare_and_claim (agentID : string) (candidate now : Z) : Tx (option RemoteClaim) :=
  snapshot ← read (remotePayloadSnapshot agentID candidate);
  match snapshot with
  | Err (ErrLimits message) =>
      log_line candidate message;;
      failWaitingRemotePayload candidate agentID now "remote_execution_capability_unavailable";;
      mret None
  | Err e => fail e
  | Ok snapshot =>
      match prepare snapshot with
      | Err (ErrEnvironment message) =>
          log_line candidate message;;
          failWaitingRemotePayload candidate agentID now "remote_execution_capability_unavailable";;
          mret None
      | Err ErrUnsupportedProtocol =>
          failWaitingRemotePayload candidate agentID now "remote_payload_requires_agent_3";;
          mret None
      | Err e => fail e
      | Ok prepared =>
          changed ← DispatchQueries.ClaimRemoteDeployment
            (mkClaimParams (pc_TokenHash prepared) (Some (pc_Ciphertext prepared))
               (now + PreStartClaimTimeout) now candidate agentID);
          if Z.eqb changed 0 then mret None
          else mret (Some (mkRemoteClaim candidate (pc_Token prepared) (pc_Ciphertext prepared)))
      end
  end.

Definition claim_candidate (agentID : string) (candidate : Z) : Tx (option RemoteClaim) :=
  locked ← LockClaimAgent agentID;
  if Z.eqb locked 0 then mret None
  else
    agent ← GetAgent agentID;
    if negb (Z.eqb (a_Draining agent) 0) then mret None
    else
      now ← CurrentUnixTime;
      waiting ← ListWaitingRemoteDeploymentClaims agentID;
      if negb (match waiting with first :: _ => Z.eqb first candidate | [] => false end)
      then mret None
      else
        locked ← LockWaitingRemoteDeploymentClaim candidate agentID;
        if Z.eqb locked 0 then mret None
        else
          locked ← LockPendingRemoteDeployment candidate agentID;
          if Z.eqb locked 0 then mret None
          else prepare_and_claim agentID candidate now.

(** One attempt of the poll: the candidate is read before the transaction and
    read again inside it. [None] is the Go result [claimed = false]. *)
Definition ClaimRemoteDeploymentPayload (agentID : string) (s : DB)
    : result (option RemoteClaim) * DB :=
  match ListWaitingRemoteDeploymentClaims agentID s with
  | Ok (candidate :: _, _) => WithDeploymentTx candidate (claim_candidate agentID candidate) s
  | Ok ([], _) => (Ok None, s)
  | Err e => (Err e, s)
  end.
End poll.

(** ** agent_admin.go *)

Definition setAgentDraining (agentID : string) (draining : bool) : Tx Z :=
  locked ← LockClaimAgent agentID;
  GetAgent agentID;;
  guard (Z.eqb locked 1) ErrAgentUnavailable;;
  DispatchQueries.SetAgentDraining (if draining then 1 else 0) agentID.

Definition SetAgentDraining (agentID : string) (draining : bool) (s : DB) : result bool * DB :=
  match WithTx (setAgentDraining agentID draining) s with
  | (Ok changed, s') => (Ok (negb (Z.eqb changed 0)), s')
  | (Err e, s') => (Err e, s')
  end.

Definition clearAgentTransferCapabilities (agentID : string) : Tx unit :=
  ClearAgentStagingCapability agentID;;
  ClearAgentArtifactCapability agentID;;
  ClearAgentResourcePolicy agentID.

Definition revokeAgentClaim (now : Z) (claim : RemoteDeploymentClaim) : Tx unit :=
  one_row (if not_null (c_StartedAt claim)
           then RevokeStartedRemoteClaim now (c_DeploymentID claim) (c_AgentID claim)
           else RevokeUnstartedRemoteClaim now (c_DeploymentID claim) (c_AgentID claim));;
  one_row (TerminateRevokedRemoteDeployment now (c_DeploymentID claim) (c_AgentID claim)).

Definition revokeAgent (agentID : string) : Tx bool :=
  locked ← LockRevocableAgent agentID;
  agent ← GetAgent agentID;
  if String.eqb (a_Status agent) "revoked" then mret false
  else
    guard (Z.eqb locked 1) ErrAgentUnavailable;;
    SetAgentStatus "revoked" agentID;;
    clearAgentTransferCapabilities agentID;;
    now ← CurrentUnixTime;
    RevokeAgentRemoteStepRuns now agentID;;
    claims ← ListRevocableAgentClaims agentID;
    for_each claims (revokeAgentClaim now);;
    FailDeploymentsWithTerminalRemoteStepRuns now;;
    ReconcileTerminalVerifications;;
    mret true.

Definition RevokeAgent (agentID : string) : DB → result bool * DB :=
  WithQueueMaintenanceTx (revokeAgent agentID).
