(* ===== verification/RemoteSafety.v ===== *)
(** * RemoteSafety: invariants of the remote lifecycle

    Helper lemmas of the remote lifecycle: when the row locks of a call
    succeed, which claim rows satisfy the schema after each transition, the
    edges of the claim state machine, and the fact that no call makes a
    deployment a blocker of its scope. *)
From S2P Require Import Prelude Db Tx QueueQueries DeploymentQueue QueueSafety DispatchQueries RemoteLifecycle.

(** ** Row locks *)

(** The rows a call reads once its locks are granted. *)
Record locks (s : DB) (identity : RemoteLifecycleClaim) (token : bool)
    (c : RemoteDeploymentClaim) (d : Deployment) : Prop := {
  lk_agent : agent_ready s (il_AgentID identity) = true;
  lk_claim : db_claims s !! il_DeploymentID identity = Some c;
  lk_holder : c_AgentID c = il_AgentID identity;
  lk_token : token = true →
    ∃ h, il_ClaimTokenHash identity = Some h ∧ c_ClaimTokenHash c = Some h;
  lk_deployment : db_deployments s !! il_DeploymentID identity = Some d;
  lk_assigned : d_AssignedAgentID d = Some (il_AgentID identity) }.

Section locking.
Implicit Types (s : DB) (identity : RemoteLifecycleClaim).

Lemma count_one b : Z.eqb (count b) 1 = b.
Proof. by destruct b. Qed.

Lemma one_row_ok (m : Tx Z) s s' : m s = Ok (1, s') → one_row m s = Ok (tt, s').
Proof. intros Hm. unfold one_row. by rewrite (bind_ok _ _ _ _ _ Hm). Qed.

Lemma one_row_inv (m : Tx Z) s s' :
  one_row m s = Ok (tt, s') → m s = Ok (1, s').
Proof.
  unfold one_row. intros (n & s1 & Hm & Hk)%bind_inv. destruct (Z.eqb_spec n 1) as [->|]; [|done].
  by injection Hk as <-.
Qed.

Lemma one_row_lock (b : DB → bool) s :
  one_row (read (λ s, count (b s))) s =
    if b s then Ok (tt, s) else Err ErrRemoteLifecycleConflict.
Proof. unfold one_row, read, mbind, tx_bind. rewrite count_one. by destruct (b s). Qed.

Lemma sql_eq2_true {A} `{EqDecision A} (x y : option A) :
  sql_eq2 x y = true ↔ ∃ h, y = Some h ∧ x = Some h.
Proof. unfold sql_eq2. destruct y; [rewrite sql_eq_true|]; naive_solver. Qed.

Lemma assigned_lock id agent s :
  LockAssignedRemoteDeployment id agent s =
    Ok (count (deployment_is s id (λ d, sql_eq2 (d_AssignedAgentID d) agent)), s).
Proof. unfold LockAssignedRemoteDeployment, deployment_is, read. by destruct (db_deployments s !! id). Qed.

Lemma lock_granted s identity token c d :
  locks s identity token c d → lockRemoteLifecycle identity token s = Ok ((c, d), s).
Proof.
  intros [Ha Hc Hh Ht Hd Has]. unfold lockRemoteLifecycle, lockRemoteLifecycleRows.
  rewrite (bind_ok (one_row (LockClaimAgent _)) _ s tt s) by (unfold LockClaimAgent; by rewrite one_row_lock, Ha).
  rewrite (bind_ok (one_row (if token then _ else _)) _ s tt s).
  2: { destruct token; unfold LockRemoteLifecycleClaim, LockRemoteMaintenanceClaim;
         rewrite one_row_lock; unfold claim_in; rewrite Hc, Hh, String.eqb_refl; [|done].
       destruct Ht as (h & Hih & Hch); [done|]. cbn.
       rewrite (proj2 (sql_eq2_true _ _)) by eauto. done. }
  rewrite (bind_ok (one_row (LockAssignedRemoteDeployment _ _)) _ s tt s).
  2: { apply one_row_ok. rewrite assigned_lock. unfold deployment_is. rewrite Hd.
       rewrite (proj2 (sql_eq2_true _ _)) by eauto. done. }
  unfold GetRemoteDeploymentClaim, GetDeployment, mbind, tx_bind. rewrite Hc. by rewrite Hd.
Qed.

Lemma lock_decided s identity token :
  (∃ c d, locks s identity token c d) ∨
  lockRemoteLifecycle identity token s = Err ErrRemoteLifecycleConflict.
Proof.
  unfold lockRemoteLifecycle, lockRemoteLifecycleRows.
  destruct (agent_ready s (il_AgentID identity)) eqn:Ha;
    [|right; apply bind_err; unfold LockClaimAgent; by rewrite one_row_lock, Ha].
  rewrite (bind_ok (one_row (LockClaimAgent _)) _ s tt s) by (unfold LockClaimAgent; by rewrite one_row_lock, Ha).
  set (p := λ c, String.eqb (c_AgentID c) (il_AgentID identity)
    && (if token then sql_eq2 (c_ClaimTokenHash c) (il_ClaimTokenHash identity) else true)).
  assert (Hlock : one_row (if token
         then LockRemoteLifecycleClaim (il_DeploymentID identity) (il_AgentID identity)
                (il_ClaimTokenHash identity)
         else LockRemoteMaintenanceClaim (il_DeploymentID identity) (il_AgentID identity)) s =
    if claim_in s (il_DeploymentID identity) p then Ok (tt, s) else Err ErrRemoteLifecycleConflict).
  { destruct token; unfold LockRemoteLifecycleClaim, LockRemoteMaintenanceClaim;
      rewrite one_row_lock; unfold claim_in, p; destruct (db_claims s !! _); try done.
    by rewrite andb_true_r. }
  destruct (claim_in s (il_DeploymentID identity) p) eqn:Hin; [|right; by apply bind_err].
  rewrite (bind_ok _ _ _ _ _ Hlock).
  unfold claim_in in Hin. destruct (db_claims s !! il_DeploymentID identity) as [c|] eqn:Hc; [|done].
  destruct (deployment_is s (il_DeploymentID identity)
    (λ d, sql_eq2 (d_AssignedAgentID d) (Some (il_AgentID identity)))) eqn:Hd.
  - left. unfold deployment_is in Hd.
    destruct (db_deployments s !! il_DeploymentID identity) as [d|] eqn:Hdep; [|done].
    exists c, d. unfold p in Hin. apply andb_true_iff in Hin as [Hag%String.eqb_eq Htok].
    apply sql_eq2_true in Hd as (h & [= <-] & Has).
    split; try done. intros ->. by apply sql_eq2_true.
  - right. apply bind_err. unfold one_row. rewrite (bind_ok _ _ _ _ _ (assigned_lock _ _ s)).
    by rewrite Hd.
Qed.

(** A call either runs on its locked rows or is a conflict without effect. *)
Lemma lock_cases {A} (k : RemoteDeploymentClaim * Deployment → Tx A) s identity token :
  (∃ c d, locks s identity token c d ∧
     (lockRemoteLifecycle identity token ≫= k) s = k (c, d) s) ∨
  (lockRemoteLifecycle identity token ≫= k) s = Err ErrRemoteLifecycleConflict.
Proof.
  destruct (lock_decided s identity token) as [(c & d & Hl)|Hl].
  - left. exists c, d. split; [done|]. apply bind_ok. by apply lock_granted.
  - right. by apply bind_err.
Qed.
End locking.

(** ** Statements that find their row *)
Section statements.
Implicit Types (s : DB).

Lemma update_claim_ok s id where_ set c :
  db_claims s !! id = Some c → where_ s c = true →
  claims_ok (<[id := set s c]> (db_claims s)) = true →
  update_claim id where_ set s = Ok (1, set_claims (<[id := set s c]> (db_claims s)) s).
Proof.
  intros Hc Hw Hok. unfold update_claim, update_pk, store_claims, checked, mbind, tx_bind.
  rewrite Hc, Hw. cbn [db_claims set_claims]. by rewrite Hok.
Qed.

Lemma update_claim_cases s id where_ set n s' :
  update_claim id where_ set s = Ok (n, s') →
  (n = 0 ∧ s' = s) ∨
  (n = 1 ∧ ∃ c, db_claims s !! id = Some c ∧ where_ s c = true ∧
     s' = set_claims (<[id := set s c]> (db_claims s)) s ∧ claims_ok (db_claims s') = true).
Proof.
  unfold update_claim, store_claims, checked, mbind, tx_bind.
  destruct (update_pk_cases (db_claims s) id (where_ s) (set s))
    as [(c & Hc & Hw & ->)|[-> _]]; cbn [db_claims set_claims].
  - destruct (claims_ok _) eqn:Hok; [|done]. intros [= <- <-]. right. eauto 10.
  - destruct (claims_ok _) eqn:Hok; [|done]. intros [= <- <-]. left. split; [done|].
    by destruct s.
Qed.

Lemma update_deployment_ok s id where_ set d :
  db_deployments s !! id = Some d → where_ s d = true →
  update_deployment id where_ set s =
    Ok (1, set_deployments (<[id := set s d]> (db_deployments s)) s).
Proof. intros Hd Hw. unfold update_deployment, update_pk. by rewrite Hd, Hw. Qed.

Lemma update_deployment_cases s id where_ set n s' :
  update_deployment id where_ set s = Ok (n, s') →
  (n = 0 ∧ s' = s) ∨
  (n = 1 ∧ ∃ d, db_deployments s !! id = Some d ∧ where_ s d = true ∧
     s' = set_deployments (<[id := set s d]> (db_deployments s)) s).
Proof.
  unfold update_deployment.
  destruct (update_pk_cases (db_deployments s) id (where_ s) (set s))
    as [(d & Hd & Hw & ->)|[-> _]]; intros [= <- <-]; [right; eauto 10|].
  left. split; [done|]. by destruct s.
Qed.
End statements.

(** ** Transitions keep the schema

    A transition that keeps or clears the token and gains no capacity cannot
    violate a unique index; the row CHECK is the only thing left to verify. *)
Section schema.
Implicit Types (t : gmap Z RemoteDeploymentClaim) (c : RemoteDeploymentClaim).

Lemma claims_ok_check t id c : claims_ok t = true → t !! id = Some c → claim_check c = true.
Proof.
  unfold claims_ok. rewrite !andb_true_iff, forall_rows_true. intros [[Hr _] _]. apply Hr.
Qed.

Lemma capacity_of_some st a b :
  capacity_of st a = Some b ↔ (st ∈? capacity_states)%bool = true ∧ b = a.
Proof. unfold capacity_of. destruct (st ∈? capacity_states)%bool; naive_solver. Qed.

Lemma claims_ok_update t id c c' :
  claims_ok t = true → t !! id = Some c → claim_check c' = true →
  c_AgentID c' = c_AgentID c →
  (c_ClaimTokenHash c' = c_ClaimTokenHash c ∨ c_ClaimTokenHash c' = None) →
  ((c_State c' ∈? capacity_states)%bool = true → (c_State c ∈? capacity_states)%bool = true) →
  claims_ok (<[id := c']> t) = true.
Proof.
  intros Hok Hc Hcheck Hagent Htok Hcap. unfold claims_ok in *. rewrite !andb_true_iff in *.
  destruct Hok as [[Hrow Hu1] Hu2]. split_and!.
  - by apply forall_rows_insert.
  - apply unique_on_insert; [done|]. intros b k r Hb Hk Hr Hrb.
    destruct Htok as [Heq|Heq]; rewrite Heq in Hb; [|done].
    apply Hk. rewrite unique_on_true in Hu1. by apply (Hu1 k id r c b).
  - apply unique_on_insert; [done|]. intros b k r Hb Hk Hr Hrb.
    apply capacity_of_some in Hb as [Hb ->]. apply Hk.
    rewrite unique_on_true in Hu2. apply (Hu2 k id r c (c_AgentID c)); [done..| |].
    + by rewrite <-Hagent.
    + apply capacity_of_some. auto.
Qed.
End schema.

(** Evaluate the CHECK of a row whose state is known: the token part is kept
    by the transition, the state part is a case split on four NULL tests. *)
Ltac claim_check_cases :=
  match goal with
  | Hc : claim_check ?c = true, Hst : c_State ?c = _ |- claim_check ?c' = true =>
      let Htok := fresh "Htok" in let Hrow := fresh "Hrow" in
      unfold claim_check in Hc |- *; rewrite !andb_true_iff in Hc |- *;
      destruct Hc as [[_ Htok] Hrow]; unfold claim_state_check in Hrow |- *;
      rewrite Hst in Hrow; cbn -[not_null claim_token_check] in Hrow |- *; rewrite ?Hst;
      cbn -[not_null claim_token_check]; split; [split; [reflexivity|try exact Htok]|]
  end;
  repeat match goal with
  | H : context [not_null ?o] |- _ => is_var o; destruct (not_null o); cbn in H |- *
  | H : context [not_null (?f ?c)] |- _ => destruct (not_null (f c)); cbn in H |- *
  end; try done.

(** ** The edges of the claim state machine

    Each transition of DispatchQueries as a function of the row, with the
    states it starts from; the CHECK of the schema holds after it. *)
Section transitions.
Implicit Types (c : RemoteDeploymentClaim).

Lemma check_started c now :
  claim_check c = true → c_State c = "claimed" →
  claim_check (c_set_State "started" (c_set_StartedAt (Some now) (c_set_UpdatedAt now c))) = true.
Proof. intros Hc Hst. claim_check_cases. Qed.

Lemma check_token_held c :
  claim_check c = true → c_State c = "started" ∨ c_State c = "cancel_requested" →
  is_Some (c_ClaimTokenHash c).
Proof.
  intros Hc Hst. apply not_null_true. unfold claim_check in Hc. rewrite !andb_true_iff in Hc.
  destruct Hc as [_ Hrow]. unfold claim_state_check in Hrow.
  destruct Hst as [Hst|Hst]; rewrite Hst in Hrow; cbn -[not_null] in Hrow;
    destruct (not_null (c_ClaimTokenHash c)); try done; by destruct (not_null _).
Qed.

Lemma check_heartbeat c now :
  claim_check c = true → c_State c = "started" ∨ c_State c = "cancel_requested" →
  claim_check (c_set_LastHeartbeatAt (Some now) (c_set_UpdatedAt now c)) = true.
Proof.
  intros Hc Hst. destruct (check_token_held c Hc Hst) as [h Hh].
  destruct Hst as [Hst|Hst]; claim_check_cases;
    unfold claim_token_check in Htok |- *; cbn; rewrite Hh in *;
    rewrite !andb_true_iff in *; naive_solver.
Qed.

Lemma check_finished c state reason now :
  claim_check c = true →
  c_State c = "started" ∨ c_State c = "lost" ∨ c_State c = "cancel_unconfirmed" ∨
    (c_State c = "cancel_requested" ∧ state = "cleanup_unconfirmed") →
  state = "succeeded" ∨ state = "failed" ∨ state = "cleanup_unconfirmed" →
  claim_check (c_set_State state (c_set_Reason reason (c_set_FinishedAt (Some now)
    (c_set_CancelRequestedAt None (c_set_UpdatedAt now c))))) = true.
Proof.
  intros Hc Hst Hstate. destruct Hst as [Hst|[Hst|[Hst|[Hst ->]]]];
    try (destruct Hstate as [->|[->| ->]]); claim_check_cases.
Qed.

Lemma check_acknowledged c now :
  claim_check c = true → c_State c = "cancel_requested" ∨ c_State c = "cancel_unconfirmed" →
  claim_check (c_set_State "cancelled" (c_set_FinishedAt (Some now) (c_set_UpdatedAt now c))) = true.
Proof. intros Hc [Hst|Hst]; claim_check_cases. Qed.

Definition requested (now : Z) (c : RemoteDeploymentClaim) : RemoteDeploymentClaim :=
  c_set_State (if is_null (c_StartedAt c) then "cancelled" else "cancel_requested")
    (c_set_FinishedAt (if is_null (c_StartedAt c) then Some now else None)
      (c_set_CancelRequestedAt (Some now) (c_set_UpdatedAt now c))).

Lemma check_requested c now :
  claim_check c = true →
  c_State c = "waiting" ∨ c_State c = "claimed" ∨ c_State c = "started" →
  claim_check (requested now c) = true.
Proof.
  intros Hc Hst. unfold requested, is_null.
  destruct (not_null (c_StartedAt c)) eqn:Es; cbn -[not_null];
    destruct Hst as [Hst|[Hst|Hst]]; claim_check_cases.
Qed.

Lemma check_expired c now :
  claim_check c = true → c_State c = "claimed" →
  claim_check (c_set_State "waiting" (c_set_Reason None (c_set_ClaimTokenHash None
     (c_set_Ciphertext None (c_set_ClaimExpiresAt None (c_set_LastHeartbeatAt None
       (c_set_UpdatedAt now c))))))) = true.
Proof. intros Hc Hst. claim_check_cases. Qed.

Lemma check_lost c now :
  claim_check c = true → c_State c = "started" →
  claim_check (c_set_State "lost" (c_set_Reason (Some "remote_agent_lost")
     (c_set_FinishedAt (Some now) (c_set_UpdatedAt now (c_set_LogBuffer None c))))) = true.
Proof. intros Hc Hst. claim_check_cases. Qed.

Lemma check_unconfirmed c now :
  claim_check c = true → c_State c = "cancel_requested" →
  claim_check (c_set_State "cancel_unconfirmed" (c_set_Reason (Some "remote_cancel_unconfirmed")
     (c_set_FinishedAt (Some now) (c_set_UpdatedAt now (c_set_LogBuffer None c))))) = true.
Proof. intros Hc Hst. claim_check_cases. Qed.

Lemma check_revoked_started c now :
  claim_check c = true → c_State c = "started" ∨ c_State c = "cancel_requested" →
  claim_check (c_set_State "lost" (c_set_Reason (Some "remote_agent_revoked_after_start")
     (c_set_CancelRequestedAt None (c_set_FinishedAt (Some now)
       (c_set_UpdatedAt now (c_set_LogBuffer None c)))))) = true.
Proof. intros Hc [Hst|Hst]; claim_check_cases. Qed.

(** The reasons a claim may fail with before it started. *)
Definition prestart_reasons : list string :=
  ["remote_agent_revoked_before_start"; "remote_execution_capability_unavailable";
   "remote_payload_requires_agent_3"].

Lemma check_failed_unstarted c c' reason now :
  claim_check c = true → c_State c = "waiting" ∨ c_State c = "claimed" →
  (reason ∈? prestart_reasons)%bool = true →
  c' = c_set_State "failed" (c_set_Reason (Some reason) (c_set_FinishedAt (Some now)
         (c_set_UpdatedAt now c))) ∨
  c' = c_set_State "failed" (c_set_Reason (Some reason) (c_set_FinishedAt (Some now)
         (c_set_UpdatedAt now (c_set_LogBuffer None c)))) →
  claim_check c' = true.
Proof.
  intros Hc Hst Hr Hc'. unfold prestart_reasons in Hr. cbn in Hr.
  destruct Hst as [Hst|Hst], Hc' as [->| ->]; claim_check_cases;
    rewrite ?andb_true_r, ?orb_false_r in *; try exact Hr.
Qed.
End transitions.
