(* ===== verification/RemoteSpec.v ===== *)
(** * RemoteSpec: the lifecycle of one remote deployment

    The abstract machine that the remote functions implement: one step moves a
    claim together with its deployment. A step is enabled by the states of the
    two rows and by the clock; it writes both rows at once, so no observer sees
    a started claim with a pending deployment. The facts proved here, by cases
    on the rules, are what the rest of the program relies on: the claim follows
    the edges of its state machine, the schema holds, and no step makes an
    environment busier. *)
From S2P Require Import Prelude Db Tx QueueQueries DeploymentQueue QueueSafety DispatchQueries RemoteLifecycle RemoteSafety.

Definition outcomes : list string := ["succeeded"; "failed"; "cleanup_unconfirmed"].

Definition finish_claim (state : string) (now : Z) (c : RemoteDeploymentClaim) : RemoteDeploymentClaim :=
  c_set_State state
    (c_set_Reason (if String.eqb state "failed" then Some remoteAgentFailedReason else None)
      (c_set_FinishedAt (Some now) (c_set_CancelRequestedAt None (c_set_UpdatedAt now c)))).

Definition end_deployment (status : string) (now : Z) (d : Deployment) : Deployment :=
  d_set_Status status (d_set_FinishedAt (Some now) d).

Definition cancel_claim (now : Z) (c : RemoteDeploymentClaim) : RemoteDeploymentClaim :=
  c_set_State "cancelled" (c_set_FinishedAt (Some now) (c_set_UpdatedAt now c)).

(** The rows of a claim and of its deployment. *)
Definition rows : Type := RemoteDeploymentClaim * Deployment.

Inductive lifecycle (now : Z) : rows → rows → Prop :=
  | lc_start c d e :
      c_State c = "claimed" → c_StartedAt c = None → c_ClaimExpiresAt c = Some e → now < e →
      d_Status d = "pending" → d_StartedAt d = None →
      lifecycle now (c, d)
        (c_set_State "started" (c_set_StartedAt (Some now) (c_set_UpdatedAt now c)),
         d_set_Status "running" (d_set_StartedAt (Some now) d))
  | lc_heartbeat c d :
      c_State c = "started" ∨ c_State c = "cancel_requested" → d_Status d = "running" →
      lifecycle now (c, d) (c_set_LastHeartbeatAt (Some now) (c_set_UpdatedAt now c), d)
  | lc_finish c d state :
      (c_State c = "started" ∨ c_State c = "lost" ∨ c_State c = "cancel_unconfirmed" ∨
        (c_State c = "cancel_requested" ∧ state = "cleanup_unconfirmed")) →
      state ∈ outcomes → d_Status d = "running" →
      lifecycle now (c, d) (finish_claim state now c, end_deployment state now d)
  | lc_late_outcome c d state :
      (c_State c = "started" ∨ c_State c = "lost" ∨ c_State c = "cancel_unconfirmed") →
      state = "succeeded" ∨ state = "failed" → d_Status d = "failed" →
      lifecycle now (c, d) (finish_claim state now c, d)
  | lc_late_cleanup c d :
      (c_State c = "started" ∨ c_State c = "lost" ∨ c_State c = "cancel_unconfirmed" ∨
        c_State c = "cancel_requested") → d_Status d = "failed" →
      lifecycle now (c, d) (finish_claim "cleanup_unconfirmed" now c,
                            end_deployment "cleanup_unconfirmed" now d)
  | lc_acknowledge c d :
      c_State c = "cancel_requested" ∨ c_State c = "cancel_unconfirmed" → d_Status d = "running" →
      lifecycle now (c, d) (cancel_claim now c, end_deployment "cancelled" now d)
  | lc_late_acknowledge c d :
      c_State c = "cancel_requested" ∨ c_State c = "cancel_unconfirmed" → d_Status d = "failed" →
      lifecycle now (c, d) (cancel_claim now c, d)
  | lc_cancel_unstarted c d :
      c_State c = "waiting" ∨ c_State c = "claimed" →
      d_Status d = "pending" ∨ d_Status d = "pending_approval" →
      lifecycle now (c, d) (requested now c, end_deployment "cancelled" now d)
  | lc_request_cancel c d :
      c_State c = "started" → d_Status d = "running" →
      lifecycle now (c, d) (requested now c, d)
  | lc_expire c d e :
      c_State c = "claimed" → c_StartedAt c = None → c_ClaimExpiresAt c = Some e → e ≤ now →
      lifecycle now (c, d)
        (c_set_State "waiting" (c_set_Reason None (c_set_ClaimTokenHash None
           (c_set_Ciphertext None (c_set_ClaimExpiresAt None (c_set_LastHeartbeatAt None
             (c_set_UpdatedAt now c)))))), d)
  | lc_lose c d :
      c_State c = "started" → d_Status d = "running" →
      lifecycle now (c, d)
        (c_set_State "lost" (c_set_Reason (Some "remote_agent_lost")
           (c_set_FinishedAt (Some now) (c_set_UpdatedAt now (c_set_LogBuffer None c)))),
         end_deployment "failed" now d)
  | lc_unconfirmed c d :
      c_State c = "cancel_requested" → d_Status d = "running" →
      lifecycle now (c, d)
        (c_set_State "cancel_unconfirmed" (c_set_Reason (Some "remote_cancel_unconfirmed")
           (c_set_FinishedAt (Some now) (c_set_UpdatedAt now (c_set_LogBuffer None c)))),
         end_deployment "failed" now d)
  | lc_revoke_started c d :
      c_State c = "started" ∨ c_State c = "cancel_requested" →
      (d_Status d ∈? remote_prestart)%bool = true →
      lifecycle now (c, d)
        (c_set_State "lost" (c_set_Reason (Some "remote_agent_revoked_after_start")
           (c_set_CancelRequestedAt None (c_set_FinishedAt (Some now)
             (c_set_UpdatedAt now (c_set_LogBuffer None c))))),
         end_deployment "failed" now d)
  | lc_revoke_unstarted c d :
      c_State c = "waiting" ∨ c_State c = "claimed" →
      (d_Status d ∈? remote_prestart)%bool = true →
      lifecycle now (c, d)
        (c_set_State "failed" (c_set_Reason (Some "remote_agent_revoked_before_start")
           (c_set_FinishedAt (Some now) (c_set_UpdatedAt now (c_set_LogBuffer None c)))),
         end_deployment "failed" now d).

(** Both rows written at once. *)
Definition put (id : Z) (r : rows) (s : DB) : DB :=
  set_deployments (<[id := r.2]> (db_deployments s)) (set_claims (<[id := r.1]> (db_claims s)) s).

(** A step of the store: the rows of one assigned deployment move. *)
Inductive remote_step (s : DB) : DB → Prop :=
  | remote_move id c d r :
      db_claims s !! id = Some c → db_deployments s !! id = Some d →
      d_AssignedAgentID d = Some (c_AgentID c) →
      lifecycle (db_now s) (c, d) r → remote_step s (put id r s).

(** ** The edges of the claim *)

Definition claim_edges : list (string * string) :=
  [("waiting", "claimed"); ("waiting", "cancelled"); ("waiting", "failed");
   ("claimed", "waiting"); ("claimed", "started"); ("claimed", "cancelled"); ("claimed", "failed");
   ("started", "cancel_requested"); ("started", "succeeded"); ("started", "failed");
   ("started", "cleanup_unconfirmed"); ("started", "lost");
   ("cancel_requested", "cancelled"); ("cancel_requested", "cleanup_unconfirmed");
   ("cancel_requested", "cancel_unconfirmed"); ("cancel_requested", "lost");
   ("lost", "succeeded"); ("lost", "failed"); ("lost", "cleanup_unconfirmed");
   ("cancel_unconfirmed", "succeeded"); ("cancel_unconfirmed", "failed");
   ("cancel_unconfirmed", "cleanup_unconfirmed"); ("cancel_unconfirmed", "cancelled")].

Definition claim_edge (a b : string) : Prop := (a, b) ∈ claim_edges.

(** Same claim, later state. *)
Definition row_follows (c c' : RemoteDeploymentClaim) : Prop :=
  c_AgentID c' = c_AgentID c ∧ c_DeploymentID c' = c_DeploymentID c ∧
  rtc claim_edge (c_State c) (c_State c').

Definition claims_follow (s s' : DB) : Prop :=
  ∀ id c, db_claims s !! id = Some c →
    ∃ c', db_claims s' !! id = Some c' ∧ row_follows c c'.

Lemma row_follows_refl c : row_follows c c.
Proof. done. Qed.

#[export] Instance claims_follow_refl : Reflexive claims_follow.
Proof. intros s id c Hc. eauto using row_follows_refl. Qed.
#[export] Instance claims_follow_trans : Transitive claims_follow.
Proof.
  intros s1 s2 s3 H12 H23 id c Hc. destruct (H12 id c Hc) as (c2 & Hc2 & ? & ? & ?).
  destruct (H23 id c2 Hc2) as (c3 & Hc3 & ? & ? & ?). exists c3. split; [done|].
  split; [congruence|]. split; [congruence|]. by etrans.
Qed.

(** A step that keeps the schema, moves claims along their edges, and makes no
    deployment a blocker. The schema of the state before is assumed: it tells,
    for instance, that a waiting claim has not started. *)
Definition sound_step (s s' : DB) : Prop :=
  claims_ok (db_claims s) = true →
  claims_ok (db_claims s') = true ∧ shrinks s s' ∧ claims_follow s s'.

#[export] Instance sound_step_refl : Reflexive sound_step.
Proof. by intros s. Qed.
#[export] Instance sound_step_trans : Transitive sound_step.
Proof.
  intros s1 s2 s3 H12 H23 Hok. destruct (H12 Hok) as (Hok2 & ? & ?).
  destruct (H23 Hok2) as (? & ? & ?). split; [done|]. split; by etrans.
Qed.

Lemma sound_of_shrinks s s' : shrinks s s' → db_claims s' = db_claims s → sound_step s s'.
Proof.
  intros Hs Hc Hok. rewrite Hc. split; [done|]. split; [done|]. intros id c Hid.
  exists c. rewrite Hc. eauto using row_follows_refl.
Qed.

Ltac claim_edge_now := eapply rtc_once; unfold claim_edge; by apply (bool_decide_unpack _).

(** ** What a step does to the two rows *)
Section lifecycle_facts.
Context (now : Z) (c : RemoteDeploymentClaim) (d : Deployment) (r : rows).
Context (Hlc : lifecycle now (c, d) r) (Hcheck : claim_check c = true).

Lemma lifecycle_check : claim_check r.1 = true.
Proof using Hlc Hcheck.
  inversion Hlc; subst; cbn [fst].
  - by apply check_started.
  - by apply check_heartbeat.
  - apply check_finished; [done..|]. unfold outcomes in *. set_solver.
  - apply check_finished; [done|tauto|tauto].
  - apply check_finished; [done| |tauto].
    match goal with H : _ ∨ _ |- _ => clear -H; intuition end.
  - by apply check_acknowledged.
  - by apply check_acknowledged.
  - apply check_requested; [done|tauto].
  - apply check_requested; [done|tauto].
  - by apply check_expired.
  - by apply check_lost.
  - by apply check_unconfirmed.
  - by apply check_revoked_started.
  - by eapply (check_failed_unstarted c _ "remote_agent_revoked_before_start"); [| | |right].
Qed.

Lemma lifecycle_identity :
  identity r.2 = identity d ∧ d_AssignedAgentID r.2 = d_AssignedAgentID d ∧
  c_AgentID r.1 = c_AgentID c ∧ c_DeploymentID r.1 = c_DeploymentID c.
Proof using Hlc. by inversion Hlc; subst. Qed.

Lemma lifecycle_token :
  c_ClaimTokenHash r.1 = c_ClaimTokenHash c ∨ c_ClaimTokenHash r.1 = None.
Proof using Hlc. inversion Hlc; subst; cbn; auto. Qed.
End lifecycle_facts.

Lemma check_unstarted c :
  claim_check c = true → c_State c = "waiting" ∨ c_State c = "claimed" → is_null (c_StartedAt c) = true.
Proof.
  intros Hc Hst. unfold claim_check in Hc. rewrite !andb_true_iff in Hc. destruct Hc as [_ Hrow].
  unfold claim_state_check, is_null in *. destruct Hst as [Hst|Hst]; rewrite Hst in Hrow;
    cbn -[not_null] in Hrow; destruct (not_null (c_StartedAt c)); try done;
    rewrite ?andb_false_r in Hrow; done.
Qed.

Lemma check_started_at c :
  claim_check c = true → c_State c = "started" → is_null (c_StartedAt c) = false.
Proof.
  intros Hc Hst. unfold claim_check in Hc. rewrite !andb_true_iff in Hc. destruct Hc as [_ Hrow].
  unfold claim_state_check, is_null in *. rewrite Hst in Hrow.
  cbn -[not_null] in Hrow; destruct (not_null (c_StartedAt c)); [done|].
  rewrite ?andb_false_r in Hrow; done.
Qed.

Lemma check_has_started c :
  claim_check c = true →
  c_State c = "started" ∨ c_State c = "lost" ∨ c_State c = "cancel_unconfirmed" ∨
    c_State c = "cancel_requested" → not_null (c_StartedAt c) = true.
Proof.
  intros Hc Hst. unfold claim_check in Hc. rewrite !andb_true_iff in Hc. destruct Hc as [_ Hrow].
  unfold claim_state_check in *. destruct Hst as [Hst|[Hst|[Hst|Hst]]]; rewrite Hst in Hrow;
    cbn -[not_null] in Hrow; destruct (not_null (c_StartedAt c)); try done;
    rewrite ?andb_false_r in Hrow; done.
Qed.

Lemma is_blocker_held s id c d :
  db_claims s !! id = Some c → (c_State c ∈? held_states)%bool = true → is_blocker s id d = true.
Proof.
  intros Hc Hh. unfold is_blocker, claim_in. rewrite Hc, Hh. by rewrite !orb_true_r.
Qed.

Section lifecycle_steps.
Context (now : Z) (c : RemoteDeploymentClaim) (d : Deployment) (r : rows).
Context (Hlc : lifecycle now (c, d) r) (Hcheck : claim_check c = true).

Lemma lifecycle_edge : rtc claim_edge (c_State c) (c_State r.1).
Proof using Hlc Hcheck.
  inversion Hlc; subst; cbn [fst c_State]; unfold requested, outcomes in *; cbn [c_State];
    repeat match goal with
    | H : _ ∈ [_; _; _] |- _ => rewrite !elem_of_cons, elem_of_nil in H
    | H : _ ∨ _ |- _ => destruct H as [H|H]
    | H : _ ∧ _ |- _ => destruct H as [H ?]
    | H : False |- _ => destruct H
    end; subst;
    repeat match goal with
    | H : c_State c = _ |- _ => progress cbn -[is_null]; rewrite H
    end;
    try (rewrite (check_unstarted c Hcheck) by tauto);
    try (rewrite (check_started_at c Hcheck) by done);
    first [reflexivity|claim_edge_now].
Qed.

Lemma lifecycle_capacity :
  (c_State r.1 ∈? capacity_states)%bool = true → (c_State c ∈? capacity_states)%bool = true.
Proof using Hlc Hcheck.
  inversion Hlc; subst; cbn [fst]; unfold requested, outcomes in *;
    repeat match goal with
    | H : _ ∈ [_; _; _] |- _ => rewrite !elem_of_cons, elem_of_nil in H
    | H : _ ∨ _ |- _ => destruct H as [H|H]
    | H : _ ∧ _ |- _ => destruct H as [H ?]
    | H : False |- _ => destruct H
    end; subst; cbn -[is_null];
    try (rewrite (check_unstarted c Hcheck) by tauto);
    repeat match goal with H : c_State c = _ |- _ => rewrite H; clear H end; done.
Qed.

Lemma lifecycle_blocking s id :
  db_claims s !! id = Some c → db_deployments s !! id = Some d →
  is_blocker (put id r s) id r.2 = true → is_blocker s id d = true.
Proof using Hlc Hcheck.
  intros Hc Hd Hb.
  assert (Hheld : (c_State c ∈? held_states)%bool = true → is_blocker s id d = true)
    by (intros; by eapply is_blocker_held).
  assert (Hactive : (d_Status d ∈? active_statuses)%bool = true → is_blocker s id d = true)
    by apply is_blocker_on.
  inversion Hlc; subst;
    repeat match goal with
    | H : _ ∨ _ |- _ => destruct H as [H|H]
    | H : _ ∧ _ |- _ => destruct H as [H ?]
    end;
    try (apply Hheld; match goal with H : c_State c = _ |- _ => rewrite H end; reflexivity);
    try (apply Hactive; match goal with H : d_Status d = _ |- _ => rewrite H end; reflexivity).
  all: match type of Hb with is_blocker (put _ (?c', ?d') _) _ _ = _ =>
    apply (is_blocker_off s id d d'); [done..|];
    apply (is_blocker_claim s (put id (c', d') s) id d' c c'); [done| | | | |exact Hb] end;
    [apply lookup_insert_eq|done| |
     unfold claim_cleaning; match goal with H : c_State c = _ |- _ => rewrite H end; done].
  - unfold requested. rewrite (check_unstarted c Hcheck) by tauto. done.
  - done.
Qed.
End lifecycle_steps.

(** ** A step is sound *)
Section remote_step_facts.
Implicit Types (s : DB).

Lemma put_scope_row s id r d id' :
  db_deployments s !! id = Some d → identity r.2 = identity d →
  identity <$> db_deployments (put id r s) !! id' = identity <$> db_deployments s !! id'.
Proof.
  intros Hd Hi. cbn. destruct (decide (id = id')) as [<-|]; [|by rewrite lookup_insert_ne].
  rewrite lookup_insert_eq, Hd. cbn. by rewrite Hi.
Qed.

Lemma put_shrinks s id r c d :
  db_claims s !! id = Some c → db_deployments s !! id = Some d → identity r.2 = identity d →
  (is_blocker (put id r s) id r.2 = true → is_blocker s id d = true) →
  shrinks s (put id r s).
Proof.
  intros Hc Hd Hi Hb. split; [split; [done..|]|].
  - intros id'. by eapply put_scope_row.
  - intros id'. destruct (decide (id = id')) as [<-|Hne].
    + unfold blocking. cbn [put db_deployments set_deployments]. rewrite lookup_insert_eq, Hd. exact Hb.
    + unfold blocking. cbn [put db_deployments set_deployments]. rewrite lookup_insert_ne by done.
      destruct (db_deployments s !! id') as [d'|]; [|done].
      unfold is_blocker, claim_in, run_in. cbn. by rewrite lookup_insert_ne.
Qed.

Lemma remote_step_sound s s' : remote_step s s' → sound_step s s'.
Proof.
  intros [id c d r Hc Hd Has Hlc] Hok.
  pose proof (claims_ok_check _ _ _ Hok Hc) as Hcheck.
  destruct (lifecycle_identity _ _ _ _ Hlc) as (Hi & _ & Ha & Hdep).
  split; [|split].
  - cbn. eapply claims_ok_update; eauto using lifecycle_check, lifecycle_token, lifecycle_capacity.
  - eapply put_shrinks; [done..|]. by eapply lifecycle_blocking.
  - intros id' c' Hc'. cbn. destruct (decide (id = id')) as [<-|Hne].
    + rewrite lookup_insert_eq. eexists. split; [done|]. simplify_eq.
      split; [done|]. split; [done|]. by eapply lifecycle_edge.
    + rewrite lookup_insert_ne by done. eauto using row_follows_refl.
Qed.

(** Claims that an agent runs belong to running deployments of that agent. *)
Definition lifecycle_ok (s : DB) : Prop :=
  ∀ id c, db_claims s !! id = Some c → c_State c = "started" ∨ c_State c = "cancel_requested" →
    ∃ d, db_deployments s !! id = Some d ∧ d_Status d = "running" ∧
         d_AssignedAgentID d = Some (c_AgentID c).

Lemma remote_step_lifecycle s s' :
  remote_step s s' → claims_ok (db_claims s) = true → lifecycle_ok s → lifecycle_ok s'.
Proof.
  intros [id c d r Hc Hd Has Hlc] Hok Hinv id' c' Hc' Hst.
  pose proof (claims_ok_check _ _ _ Hok Hc) as Hcheck.
  change (db_claims (put id r s)) with (<[id := r.1]> (db_claims s)) in Hc'.
  change (db_deployments (put id r s)) with (<[id := r.2]> (db_deployments s)).
  destruct (decide (id = id')) as [<-|Hne].
  2: { rewrite lookup_insert_ne in Hc' by done. rewrite lookup_insert_ne by done. eauto. }
  rewrite lookup_insert_eq in Hc'. rewrite lookup_insert_eq. injection Hc' as <-.
  exists r.2. split; [done|].
  destruct (lifecycle_identity _ _ _ _ Hlc) as (_ & Has' & Ha & _).
  split; [|by rewrite Has', Ha].
  inversion Hlc; subst; cbn in Hst |- *; unfold requested, outcomes in *;
    repeat match goal with
    | H : _ ∈ [_; _; _] |- _ => rewrite !elem_of_cons, elem_of_nil in H
    | H : _ ∨ _ |- _ => destruct H as [H|H]
    | H : _ ∧ _ |- _ => destruct H as [H ?]
    | H : False |- _ => destruct H
    end; subst; try done; cbn in *;
    rewrite (check_unstarted c Hcheck) in * by tauto; done.
Qed.
End remote_step_facts.
