(* ===== verification/RemoteRefine.v ===== *)
(** * RemoteRefine: the remote functions implement the lifecycle

    For each function of the remote lifecycle, its result and the store it
    leaves once its row locks are granted, as a step of RemoteSpec. Every
    statement finds its row: after the guards of a function, no UPDATE can
    affect zero rows or violate the schema. *)
From S2P Require Import Prelude Db Tx QueueQueries DeploymentQueue QueueSafety DispatchQueries RemoteLifecycle RemoteSafety RemoteSpec.

Section refine.
Implicit Types (s : DB) (identity : RemoteLifecycleClaim).

Lemma put_claim s id c d :
  db_deployments s !! id = Some d →
  set_claims (<[id := c]> (db_claims s)) s = put id (c, d) s.
Proof.
  intros Hd. unfold put. cbn. rewrite (insert_id _ _ _ Hd). by destruct s.
Qed.

Lemma one_row_claim s id where_ set c :
  db_claims s !! id = Some c → where_ s c = true →
  claims_ok (db_claims s) = true →
  claim_check (set s c) = true → c_AgentID (set s c) = c_AgentID c →
  (c_ClaimTokenHash (set s c) = c_ClaimTokenHash c ∨ c_ClaimTokenHash (set s c) = None) →
  ((c_State (set s c) ∈? capacity_states)%bool = true → (c_State c ∈? capacity_states)%bool = true) →
  one_row (update_claim id where_ set) s = Ok (tt, set_claims (<[id := set s c]> (db_claims s)) s).
Proof.
  intros Hc Hw Hok Hcheck Ha Ht Hcap. apply one_row_ok, update_claim_ok; [done..|].
  by eapply claims_ok_update.
Qed.

Lemma one_row_deployment s id where_ set d :
  db_deployments s !! id = Some d → where_ s d = true →
  one_row (update_deployment id where_ set) s =
    Ok (tt, set_deployments (<[id := set s d]> (db_deployments s)) s).
Proof. intros Hd Hw. by apply one_row_ok, update_deployment_ok. Qed.

(** Moving the claim and then the deployment is one step of the lifecycle. *)
Lemma one_row_pair s id wc fc wd fd c d c' d' :
  db_claims s !! id = Some c → db_deployments s !! id = Some d →
  claims_ok (db_claims s) = true → lifecycle (db_now s) (c, d) (c', d') →
  wc s c = true → fc s c = c' →
  wd (set_claims (<[id := c']> (db_claims s)) s) d = true →
  fd (set_claims (<[id := c']> (db_claims s)) s) d = d' →
  one_row (update_claim id wc fc) s = Ok (tt, set_claims (<[id := c']> (db_claims s)) s) ∧
  one_row (update_deployment id wd fd) (set_claims (<[id := c']> (db_claims s)) s) =
    Ok (tt, put id (c', d') s).
Proof.
  intros Hc Hd Hok Hlc Hwc <- Hwd <-. pose proof (claims_ok_check _ _ _ Hok Hc) as Hcheck.
  destruct (lifecycle_identity _ _ _ _ Hlc) as (_ & _ & Ha & _).
  pose proof (lifecycle_check _ _ _ _ Hlc Hcheck) as Hc'.
  pose proof (lifecycle_token _ _ _ _ Hlc) as Ht.
  pose proof (lifecycle_capacity _ _ _ _ Hlc Hcheck) as Hcap. cbn [fst] in *. split.
  - by apply one_row_claim.
  - rewrite (one_row_deployment _ id wd fd d); done.
Qed.

(** Moving the claim alone. *)
Lemma one_row_single s id wc fc c d c' :
  db_claims s !! id = Some c → db_deployments s !! id = Some d →
  claims_ok (db_claims s) = true → lifecycle (db_now s) (c, d) (c', d) →
  wc s c = true → fc s c = c' →
  one_row (update_claim id wc fc) s = Ok (tt, put id (c', d) s).
Proof.
  intros Hc Hd Hok Hlc Hwc <-. pose proof (claims_ok_check _ _ _ Hok Hc) as Hcheck.
  destruct (lifecycle_identity _ _ _ _ Hlc) as (_ & _ & Ha & _).
  pose proof (lifecycle_check _ _ _ _ Hlc Hcheck) as Hc'.
  pose proof (lifecycle_token _ _ _ _ Hlc) as Ht.
  pose proof (lifecycle_capacity _ _ _ _ Hlc Hcheck) as Hcap. cbn [fst] in *.
  rewrite <-(put_claim _ _ _ d Hd). by apply one_row_claim.
Qed.

Lemma pair_bind {A} s id wc fc wd fd c d c' d' (k : unit → Tx A) :
  db_claims s !! id = Some c → db_deployments s !! id = Some d →
  claims_ok (db_claims s) = true → lifecycle (db_now s) (c, d) (c', d') →
  fc s c = c' → fd (set_claims (<[id := c']> (db_claims s)) s) d = d' →
  wc s c = true → wd (set_claims (<[id := c']> (db_claims s)) s) d = true →
  (one_row (update_claim id wc fc);; one_row (update_deployment id wd fd) ≫= k) s =
    k tt (put id (c', d') s).
Proof.
  intros Hc Hd Hok Hlc Hfc Hfd Hwc Hwd.
  destruct (one_row_pair s id wc fc wd fd c d c' d') as [H1 H2]; [done..|].
  rewrite (bind_ok _ _ _ _ _ H1). by rewrite (bind_ok _ _ _ _ _ H2).
Qed.

Lemma pair_last s id wc fc wd fd c d c' d' :
  db_claims s !! id = Some c → db_deployments s !! id = Some d →
  claims_ok (db_claims s) = true → lifecycle (db_now s) (c, d) (c', d') →
  fc s c = c' → fd (set_claims (<[id := c']> (db_claims s)) s) d = d' →
  wc s c = true → wd (set_claims (<[id := c']> (db_claims s)) s) d = true →
  (one_row (update_claim id wc fc);; one_row (update_deployment id wd fd)) s =
    Ok (tt, put id (c', d') s).
Proof.
  intros Hc Hd Hok Hlc Hfc Hfd Hwc Hwd.
  destruct (one_row_pair s id wc fc wd fd c d c' d') as [H1 H2]; [done..|].
  by rewrite (bind_ok _ _ _ _ _ H1).
Qed.

Lemma single_bind {A} s id wc fc c d c' (k : unit → Tx A) :
  db_claims s !! id = Some c → db_deployments s !! id = Some d →
  claims_ok (db_claims s) = true → lifecycle (db_now s) (c, d) (c', d) →
  fc s c = c' → wc s c = true →
  (one_row (update_claim id wc fc) ≫= k) s = k tt (put id (c', d) s).
Proof.
  intros Hc Hd Hok Hlc Hfc Hwc. apply bind_ok. by eapply one_row_single.
Qed.

Lemma one_row_miss {A} s id wc fc c (k : unit → Tx A) :
  db_claims s !! id = Some c → claims_ok (db_claims s) = true → wc s c = false →
  (one_row (update_claim id wc fc) ≫= k) s = Err ErrRemoteLifecycleConflict.
Proof.
  intros Hc Hok Hw. apply bind_err. unfold one_row, update_claim, update_pk, store_claims, checked,
    mbind, tx_bind. rewrite Hc, Hw. cbn [db_claims set_claims]. by rewrite Hok.
Qed.

Lemma bind_ret_r {A} (m : Tx A) s : (m ≫= mret) s = m s.
Proof. unfold mbind, tx_bind, mret, tx_ret. by destruct (m s) as [[a s']|]. Qed.

Lemma locks_where s identity c d :
  locks s identity true c d →
  String.eqb (c_AgentID c) (il_AgentID identity) = true ∧
  sql_eq2 (c_ClaimTokenHash c) (il_ClaimTokenHash identity) = true ∧
  agent_ready s (c_AgentID c) = true ∧
  sql_eq (d_AssignedAgentID d) (il_AgentID identity) = true ∧
  sql_eq (d_AssignedAgentID d) (c_AgentID c) = true.
Proof.
  intros [Ha Hc Hh Ht Hd Has]. rewrite Hh, String.eqb_refl, Ha, Has.
  rewrite (proj2 (sql_eq2_true _ _)) by (destruct Ht as (h & ? & ?); eauto).
  by rewrite (proj2 (sql_eq_true _ _)).
Qed.
End refine.

(** Reduce a boolean condition whose state and status are known. *)
Ltac states :=
  repeat match goal with
  | H : c_State ?c = _ |- context [c_State ?c] => rewrite H
  | H : d_Status ?d = _ |- context [d_Status ?d] => rewrite H
  end; cbn.

Section functions.
Implicit Types (s : DB) (identity : RemoteLifecycleClaim).

(** ** Outcomes *)

(** Whether the claim may take the outcome now. *)
Definition finishable (state : string) (c : RemoteDeploymentClaim) (d : Deployment) : bool :=
  (state ∈? outcomes)
  && ((c_State c ∈? ["started"; "lost"; "cancel_unconfirmed"])
      || (String.eqb (c_State c) "cancel_requested" && String.eqb state "cleanup_unconfirmed"))
  && (d_Status d ∈? ["running"; "failed"]).

Lemma finish_guard state c d :
  negb
    ((negb (String.eqb state "succeeded") && negb (String.eqb state "failed")
      && negb (String.eqb state "cleanup_unconfirmed"))
     || (negb (String.eqb (c_State c) "started") && negb (String.eqb (c_State c) "lost")
         && negb (String.eqb (c_State c) "cancel_unconfirmed")
         && (negb (String.eqb (c_State c) "cancel_requested")
             || negb (String.eqb state "cleanup_unconfirmed")))
     || (negb (String.eqb (d_Status d) "running")
         && negb (String.eqb (d_Status d) "failed"))) = finishable state c d.
Proof.
  unfold finishable, outcomes. cbn.
  destruct (String.eqb state "succeeded"), (String.eqb state "failed"),
    (String.eqb state "cleanup_unconfirmed"), (String.eqb (c_State c) "started"),
    (String.eqb (c_State c) "lost"), (String.eqb (c_State c) "cancel_unconfirmed"),
    (String.eqb (c_State c) "cancel_requested"), (String.eqb (d_Status d) "running"),
    (String.eqb (d_Status d) "failed"); reflexivity.
Qed.

(** The rows after an accepted outcome. *)
Definition finished (state : string) (now : Z) (c : RemoteDeploymentClaim) (d : Deployment) : rows :=
  (finish_claim state now c,
   if String.eqb (d_Status d) "failed" && negb (String.eqb state "cleanup_unconfirmed")
   then d else end_deployment state now d).

Lemma finishable_cases state c d :
  finishable state c d = true →
  (c_State c = "started" ∨ c_State c = "lost" ∨ c_State c = "cancel_unconfirmed" ∨
    (c_State c = "cancel_requested" ∧ state = "cleanup_unconfirmed")) ∧
  state ∈ outcomes ∧ (d_Status d = "running" ∨ d_Status d = "failed").
Proof.
  unfold finishable. rewrite !andb_true_iff, orb_true_iff, andb_true_iff, !in_list_true, !String.eqb_eq.
  rewrite !elem_of_cons, !elem_of_nil. tauto.
Qed.

Lemma finished_lifecycle state now c d :
  finishable state c d = true → lifecycle now (c, d) (finished state now c d).
Proof.
  intros (Hst & Hout & Hd)%finishable_cases. unfold finished.
  destruct Hd as [Hd|Hd]; rewrite Hd; cbn [String.eqb Ascii.eqb andb].
  - by apply lc_finish.
  - destruct (String.eqb_spec state "cleanup_unconfirmed") as [->|Hne].
    + apply lc_late_cleanup; [|done]. tauto.
    + apply lc_late_outcome; [|unfold outcomes in Hout; set_solver|done].
      destruct Hst as [?|[?|[?|[? ?]]]]; auto. done.
Qed.

Lemma finish_exec s identity state c d rel env :
  locks s identity true c d → claims_ok (db_claims s) = true →
  db_releases s !! d_ReleaseID d = Some rel → db_environments s !! d_EnvironmentID d = Some env →
  finishRemoteDeploymentLifecycle identity state s =
    if String.eqb (c_State c) state then Ok (no_terminal, s)
    else if finishable state c d then
      Ok (if String.eqb (d_Status d) "failed" && negb (String.eqb state "cleanup_unconfirmed")
          then no_terminal
          else mkTerminal true (d_ID d) (rel_ProjectID rel) (d_EnvironmentID d) (e_Name env) state,
          put (il_DeploymentID identity) (finished state (db_now s) c d) s)
    else Err ErrRemoteLifecycleConflict.
Proof.
  intros Hl Hok Hrel Henv. unfold finishRemoteDeploymentLifecycle.
  rewrite (bind_ok _ _ _ _ _ (lock_granted _ _ _ _ _ Hl)).
  rewrite (bind_ok CurrentUnixTime _ s (db_now s) s) by done. cbv zeta. cbn [fst snd].
  destruct (String.eqb (c_State c) state) eqn:Esame; [done|]. rewrite finish_guard.
  destruct (finishable state c d) eqn:Hfin; [|done].
  pose proof (finished_lifecycle state (db_now s) c d Hfin) as Hlc.
  pose proof (finishable_cases _ _ _ Hfin) as (Hst & Hout & Hds).
  destruct (locks_where _ _ _ _ Hl) as (H1 & H2 & H3 & H4 & H5).
  pose proof (lk_claim _ _ _ _ _ Hl) as Hc. pose proof (lk_deployment _ _ _ _ _ Hl) as Hd.
  pose proof (claims_ok_check _ _ _ Hok Hc) as Hcheck.
  rewrite (bind_ok (guard true _) _ s tt s) by done.
  rewrite (bind_ok (GetRelease _) _ s rel s) by (unfold GetRelease; by rewrite Hrel).
  rewrite (bind_ok (GetEnvironment _) _ s (d_EnvironmentID d, env) s)
    by (unfold GetEnvironment; by rewrite Henv).
  assert (Hw : (λ (state : string) (c : RemoteDeploymentClaim),
     String.eqb (c_AgentID c) (il_AgentID identity)
     && sql_eq2 (c_ClaimTokenHash c) (il_ClaimTokenHash identity)
     && ((c_State c ∈? ["started"; "lost"; "cancel_unconfirmed"])
         || (String.eqb (c_State c) "cancel_requested" && String.eqb state "cleanup_unconfirmed"))
     && not_null (c_StartedAt c)
     && (String.eqb state "succeeded" || String.eqb state "failed"
         || String.eqb state "cleanup_unconfirmed")
     && deployment_is s (il_DeploymentID identity) (λ d, sql_eq (d_AssignedAgentID d) (c_AgentID c)
          && (d_Status d ∈? ["running"; "failed"]))
     && agent_ready s (c_AgentID c)) state c = true).
  { unfold deployment_is. rewrite Hd, H1, H2, H3, H5.
    unfold finishable, outcomes in Hfin. rewrite !andb_true_iff in Hfin. destruct Hfin as [[Hf1 Hf2] Hf3].
    rewrite Hf2, Hf3. rewrite (check_has_started c Hcheck) by tauto. cbn in Hf1 |- *.
    rewrite orb_false_r in Hf1. rewrite <-orb_assoc, Hf1. done. }
  unfold finished in Hlc |- *.
  destruct (String.eqb (d_Status d) "failed" && negb (String.eqb state "cleanup_unconfirmed")) eqn:Elate.
  - etrans; [by apply (single_bind s _ _ _ c d (finish_claim state (db_now s) c))|]. done.
  - etrans; [apply (pair_bind s _ _ _ _ _ c d (finish_claim state (db_now s) c)
      (end_deployment state (db_now s) d)); try done|done].
    cbn beta. rewrite H4. destruct Hds as [->|Hds]; [done|]. rewrite Hds in Elate |- *. cbn in Elate.
    apply negb_false_iff in Elate. by rewrite Elate.
Qed.

(** Acknowledged cancellations. *)
Lemma acknowledge_exec s identity c d :
  locks s identity true c d → claims_ok (db_claims s) = true →
  acknowledgeRemoteCancellation identity s =
    if String.eqb (c_State c) "cancelled" then Ok (false, s)
    else if (c_State c ∈? ["cancel_requested"; "cancel_unconfirmed"])
            && (d_Status d ∈? ["running"; "failed"]) then
      Ok (true, put (il_DeploymentID identity)
                  (cancel_claim (db_now s) c,
                   if String.eqb (d_Status d) "failed" then d
                   else end_deployment "cancelled" (db_now s) d) s)
    else Err ErrRemoteLifecycleConflict.
Proof.
  intros Hl Hok. unfold acknowledgeRemoteCancellation.
  rewrite (bind_ok _ _ _ _ _ (lock_granted _ _ _ _ _ Hl)).
  rewrite (bind_ok CurrentUnixTime _ s (db_now s) s) by done. cbv zeta. cbn [fst snd].
  destruct (String.eqb (c_State c) "cancelled") eqn:Esame; [done|].
  destruct ((c_State c ∈? ["cancel_requested"; "cancel_unconfirmed"])
            && (d_Status d ∈? ["running"; "failed"])) eqn:Hg; [|done].
  pose proof Hg as [Hst Hds]%andb_true_iff.
  apply in_list_true in Hst, Hds. rewrite !elem_of_cons, elem_of_nil in Hst, Hds.
  assert (Hst' : c_State c = "cancel_requested" ∨ c_State c = "cancel_unconfirmed") by tauto.
  destruct (locks_where _ _ _ _ Hl) as (H1 & H2 & H3 & H4 & H5).
  pose proof (lk_claim _ _ _ _ _ Hl) as Hc. pose proof (lk_deployment _ _ _ _ _ Hl) as Hd.
  rewrite (bind_ok (guard true _) _ s tt s) by done.
  assert (Hw : (λ c, String.eqb (c_AgentID c) (il_AgentID identity)
     && sql_eq2 (c_ClaimTokenHash c) (il_ClaimTokenHash identity)
     && (c_State c ∈? ["cancel_requested"; "cancel_unconfirmed"])) c = true).
  { cbn beta. rewrite H1, H2. by apply andb_true_iff in Hg as [-> _]. }
  destruct (String.eqb_spec (d_Status d) "failed") as [Hf|Hf].
  - etrans; [apply (single_bind s _ _ _ c d (cancel_claim (db_now s) c)); try done|done].
    by apply lc_late_acknowledge.
  - assert (Hrun : d_Status d = "running") by tauto. unfold cancelRemoteDeploymentStatus.
    etrans; [apply (pair_bind s _ _ _ _ _ c d (cancel_claim (db_now s) c)
      (end_deployment "cancelled" (db_now s) d)); try done|done].
    + by apply lc_acknowledge.
    + cbn beta. by rewrite H4, Hrun.
Qed.

(** ** Start *)

Definition startable (now : Z) (c : RemoteDeploymentClaim) (d : Deployment) : bool :=
  String.eqb (d_Status d) "pending" && is_null (d_StartedAt d) && is_null (c_StartedAt c)
  && sql_gt (c_ClaimExpiresAt c) now.

Definition start_rows (now : Z) (c : RemoteDeploymentClaim) (d : Deployment) : rows :=
  (c_set_State "started" (c_set_StartedAt (Some now) (c_set_UpdatedAt now c)),
   d_set_Status "running" (d_set_StartedAt (Some now) d)).

Lemma startable_lifecycle now c d :
  c_State c = "claimed" → startable now c d = true → lifecycle now (c, d) (start_rows now c d).
Proof.
  intros Hst. unfold startable. rewrite !andb_true_iff, String.eqb_eq, !is_null_true.
  intros [[[Hd Hds] Hcs] He]. unfold sql_gt in He. destruct (c_ClaimExpiresAt c) as [e|] eqn:Ee; [|done].
  apply bool_decide_eq_true in He. by eapply lc_start.
Qed.

Lemma start_exec s identity c d :
  locks s identity true c d → claims_ok (db_claims s) = true →
  startRemoteDeployment identity s =
    if String.eqb (c_State c) "claimed" then
      if startable (db_now s) c d
      then Ok (tt, put (il_DeploymentID identity) (start_rows (db_now s) c d) s)
      else Err ErrRemoteLifecycleConflict
    else if (c_State c ∈? ["started"; "cancel_requested"])
            && (String.eqb (d_Status d) "running" && not_null (c_StartedAt c)) then Ok (tt, s)
    else Err ErrRemoteLifecycleConflict.
Proof.
  intros Hl Hok. unfold startRemoteDeployment.
  rewrite (bind_ok _ _ _ _ _ (lock_granted _ _ _ _ _ Hl)).
  rewrite (bind_ok CurrentUnixTime _ s (db_now s) s) by done. cbv zeta. cbn [fst snd].
  pose proof (lk_claim _ _ _ _ _ Hl) as Hc. pose proof (lk_deployment _ _ _ _ _ Hl) as Hd.
  destruct (locks_where _ _ _ _ Hl) as (H1 & H2 & H3 & H4 & H5).
  destruct (String.eqb_spec (c_State c) "claimed") as [Hst|Hst].
  2: { destruct (c_State c ∈? ["started"; "cancel_requested"])%bool; [|done]. cbn [andb].
       by destruct (String.eqb (d_Status d) "running" && not_null (c_StartedAt c)). }
  unfold startable. destruct (String.eqb_spec (d_Status d) "pending") as [Hp|Hp]; [|done].
  rewrite (bind_ok (guard true _) _ s tt s) by done. cbn [andb].
  assert (Hw : (λ c, String.eqb (c_AgentID c) (il_AgentID identity)
     && sql_eq2 (c_ClaimTokenHash c) (il_ClaimTokenHash identity)
     && String.eqb (c_State c) "claimed" && is_null (c_StartedAt c)
     && sql_gt (c_ClaimExpiresAt c) (db_now s)
     && deployment_is s (il_DeploymentID identity) (λ d, sql_eq (d_AssignedAgentID d) (c_AgentID c)
          && String.eqb (d_Status d) "pending")
     && agent_ready s (c_AgentID c)) c =
     is_null (c_StartedAt c) && sql_gt (c_ClaimExpiresAt c) (db_now s)).
  { cbn beta. unfold deployment_is. rewrite Hd, H1, H2, H3, H5, Hst, Hp. cbn. by rewrite !andb_true_r. }
  destruct (is_null (c_StartedAt c) && sql_gt (c_ClaimExpiresAt c) (db_now s)) eqn:Hg.
  2: { rewrite <-andb_assoc, Hg, andb_false_r. by eapply one_row_miss. }
  rewrite <-andb_assoc, Hg, andb_true_r.
  destruct (is_null (d_StartedAt d)) eqn:Hds.
  - apply (pair_last s _ _ _ _ _ c d); try done; [|cbn beta; by rewrite H4, Hp, Hds].
    apply startable_lifecycle; [done|]. unfold startable. rewrite Hp, Hds, <-andb_assoc, Hg. done.
  - (* the claim moves, but the deployment already has a start time *)
    pose proof (claims_ok_check _ _ _ Hok Hc) as Hcheck.
    rewrite (bind_ok (one_row (DispatchQueries.StartRemoteDeployment _ _ _ _)) _ s tt
      (set_claims (<[il_DeploymentID identity := (start_rows (db_now s) c d).1]> (db_claims s)) s)).
    2: { etrans; [apply (one_row_claim s _ _ _ c); [done..| | | |]|done].
         - by apply check_started.
         - done.
         - by left.
         - cbn. by rewrite Hst. }
    unfold one_row, StartRemoteDeploymentStatus, update_deployment, update_pk, mbind, tx_bind.
    cbn [db_deployments set_claims]. rewrite Hd, H4, Hp, Hds. done.
Qed.

(** ** Cancellation by the server *)

Lemma cancel_exec s a c d :
  locks s (assigned_identity a) false c d → claims_ok (db_claims s) = true →
  cancelAssignedRemoteDeployment a s =
    if c_State c ∈? ["waiting"; "claimed"] then
      if d_Status d ∈? ["pending"; "pending_approval"] then
        Ok (tt, put (as_DeploymentID a)
                  (requested (db_now s) c, end_deployment "cancelled" (db_now s) d) s)
      else Err ErrRemoteLifecycleConflict
    else if String.eqb (c_State c) "started" then
      if String.eqb (d_Status d) "running"
      then Ok (tt, put (as_DeploymentID a) (requested (db_now s) c, d) s)
      else Err ErrRemoteLifecycleConflict
    else if (String.eqb (c_State c) "cancel_requested" && String.eqb (d_Status d) "running")
            || (String.eqb (c_State c) "cancelled" && String.eqb (d_Status d) "cancelled")
    then Ok (tt, s)
    else Err ErrRemoteLifecycleConflict.
Proof.
  intros Hl Hok. unfold cancelAssignedRemoteDeployment.
  rewrite (bind_ok CurrentUnixTime _ s (db_now s) s) by done.
  rewrite (bind_ok _ _ _ _ _ (lock_granted _ _ _ _ _ Hl)). cbv zeta. cbn [fst snd].
  pose proof (lk_claim _ _ _ _ _ Hl) as Hc. pose proof (lk_deployment _ _ _ _ _ Hl) as Hd.
  pose proof (lk_assigned _ _ _ _ _ Hl) as Has. cbn [assigned_identity il_DeploymentID il_AgentID] in *.
  destruct (c_State c ∈? ["waiting"; "claimed"])%bool eqn:Hun.
  { destruct (d_Status d ∈? ["pending"; "pending_approval"])%bool eqn:Hpre; [|done].
    rewrite (bind_ok (guard true _) _ s tt s) by done. unfold cancelRemoteDeploymentStatus.
    pose proof Hun as Hst%in_list_true. pose proof Hpre as Hds%in_list_true.
    rewrite !elem_of_cons, elem_of_nil in Hst, Hds.
    apply (pair_last s _ _ _ _ _ c d (requested (db_now s) c)
      (end_deployment "cancelled" (db_now s) d)); try done.
    - apply lc_cancel_unstarted; tauto.
    - cbn beta. destruct Hst as [->|[->|[]]]; done.
    - cbn beta. rewrite Has, (proj2 (sql_eq_true _ _)) by done.
      destruct Hds as [->|[->|[]]]; done. }
  destruct (String.eqb_spec (c_State c) "started") as [Hst|Hst].
  { destruct (String.eqb_spec (d_Status d) "running") as [Hrun|Hrun]; [|done].
    rewrite (bind_ok (guard true _) _ s tt s) by done.
    eapply one_row_single; [done..| | |]; [by apply lc_request_cancel|cbn beta; by rewrite Hst|done]. }
  destruct (String.eqb (c_State c) "cancel_requested") eqn:Ecr.
  { apply String.eqb_eq in Ecr. rewrite Ecr. cbn. by destruct (String.eqb (d_Status d) "running"). }
  cbn [andb orb]. destruct (String.eqb (c_State c) "cancelled"); [|done].
  cbn [andb]. by destruct (String.eqb (d_Status d) "cancelled").
Qed.

(** ** Heartbeats *)

(** A heartbeat moves the claim's clock and the agent's. *)
Lemma heartbeat_inv s identity b s' :
  claims_ok (db_claims s) = true → heartbeatRemoteDeployment identity s = Ok (b, s') →
  ∃ c d a, locks s identity true c d ∧ d_Status d = "running" ∧
    (c_State c = "started" ∨ c_State c = "cancel_requested") ∧
    b = String.eqb (c_State c) "cancel_requested" ∧
    s' = set_agents (<[il_AgentID identity := a]> (db_agents s))
           (put (il_DeploymentID identity)
              (c_set_LastHeartbeatAt (Some (db_now s)) (c_set_UpdatedAt (db_now s) c), d) s).
Proof.
  intros Hok. unfold heartbeatRemoteDeployment.
  destruct (lock_decided s identity true) as [(c & d & Hl)|He];
    [|rewrite (bind_err _ _ _ _ He); done].
  rewrite (bind_ok _ _ _ _ _ (lock_granted _ _ _ _ _ Hl)).
  rewrite (bind_ok CurrentUnixTime _ s (db_now s) s) by done. cbv zeta. cbn [fst snd].
  pose proof (lk_claim _ _ _ _ _ Hl) as Hc. pose proof (lk_deployment _ _ _ _ _ Hl) as Hd.
  destruct (String.eqb (d_Status d) "running" && (c_State c ∈? ["started"; "cancel_requested"])) eqn:Hg;
    [|done].
  rewrite (bind_ok (guard true _) _ s tt s) by done.
  apply andb_true_iff in Hg as [Hrun%String.eqb_eq Hst%in_list_true].
  rewrite !elem_of_cons, elem_of_nil in Hst.
  assert (Hst' : c_State c = "started" ∨ c_State c = "cancel_requested") by tauto.
  intros (u1 & s1 & Hq1 & Hrest)%bind_inv. destruct u1.
  apply one_row_inv in Hq1. apply update_claim_cases in Hq1 as [[? _]|(_ & c1 & Hc1 & _ & -> & _)]; [done|].
  assert (c1 = c) as -> by congruence.
  apply bind_inv in Hrest as ([] & s2 & Hq2 & Hr). injection Hr as <- <-.
  apply one_row_inv in Hq2. unfold TouchAgentHeartbeat, update_agent in Hq2.
  match type of Hq2 with context [update_pk ?m ?k ?w ?f] =>
    destruct (update_pk_cases m k w f) as [(a & Ha & _ & Heq)|[Heq _]] end;
    rewrite Heq in Hq2; injection Hq2 as Hs2; [|done]. subst s2.
  exists c, d, (a_set_LastHeartbeatAt (Some (db_now s)) (a_set_UpdatedAt (db_now s) a)).
  do 4 (split; [done|]). rewrite <-(put_claim _ _ _ d Hd). done.
Qed.
End functions.

(** ** Maintenance *)
Section maintain.
Context `{AgentEnvironment}.
Implicit Types (s : DB).

(** What the sweep does with one claim, from its two rows. *)
Definition maintained (now : Z) (c : RemoteDeploymentClaim) (d : Deployment) : option rows :=
  if String.eqb (c_State c) "claimed" && sql_le (c_ClaimExpiresAt c) now then
    Some (c_set_State "waiting" (c_set_Reason None (c_set_ClaimTokenHash None
            (c_set_Ciphertext None (c_set_ClaimExpiresAt None (c_set_LastHeartbeatAt None
              (c_set_UpdatedAt now c)))))), d)
  else if String.eqb (c_State c) "started" && sql_le (c_LastHeartbeatAt c) (now - LostThreshold) then
    Some (c_set_State "lost" (c_set_Reason (Some "remote_agent_lost")
            (c_set_FinishedAt (Some now) (c_set_UpdatedAt now (c_set_LogBuffer None c)))),
          end_deployment "failed" now d)
  else if String.eqb (c_State c) "cancel_requested"
          && sql_le (c_CancelRequestedAt c) (now - CancelAcknowledgementTimeout) then
    Some (c_set_State "cancel_unconfirmed" (c_set_Reason (Some "remote_cancel_unconfirmed")
            (c_set_FinishedAt (Some now) (c_set_UpdatedAt now (c_set_LogBuffer None c)))),
          end_deployment "failed" now d)
  else None.

Lemma maintained_lifecycle now c d r :
  claim_check c = true →
  (c_State c = "started" ∨ c_State c = "cancel_requested" → d_Status d = "running") →
  maintained now c d = Some r → lifecycle now (c, d) r.
Proof.
  intros Hcheck Hrun. unfold maintained.
  destruct (String.eqb_spec (c_State c) "claimed") as [Hst|Hst]; cbn [andb].
  { rewrite Hst. cbn. destruct (sql_le (c_ClaimExpiresAt c) now) eqn:He; [|done]. intros [= <-].
    unfold sql_le in He. destruct (c_ClaimExpiresAt c) as [e|] eqn:Ee; [|done].
    apply bool_decide_eq_true in He. apply (lc_expire now c d e); [done| |done|done].
    apply is_null_true, check_unstarted; tauto. }
  destruct (String.eqb_spec (c_State c) "started") as [Hst'|Hst']; cbn [andb].
  { rewrite Hst'. cbn. destruct (sql_le _ _); [|done]. intros [= <-]. apply lc_lose; tauto. }
  destruct (String.eqb_spec (c_State c) "cancel_requested") as [Hst''|?]; cbn [andb]; [|done].
  destruct (sql_le _ _); [|done]. intros [= <-]. apply lc_unconfirmed; tauto.
Qed.

Lemma maintain_exec s id agent c d :
  locks s (mkIdentity id agent None) false c d → claims_ok (db_claims s) = true →
  c_DeploymentID c = id →
  (c_State c = "started" ∨ c_State c = "cancel_requested" → d_Status d = "running") →
  maintain_claim (id, agent) s =
    match maintained (db_now s) c d with
    | Some r => Ok (tt, put id r s)
    | None => Ok (tt, s)
    end.
Proof.
  intros Hl Hok Hkey Hrun. unfold maintain_claim.
  rewrite (bind_ok CurrentUnixTime _ s (db_now s) s) by done. cbv zeta. cbn [fst snd].
  rewrite (bind_ok (attempt _) _ s (Ok (c, d)) s)
    by (unfold attempt; by rewrite (lock_granted _ _ _ _ _ Hl)).
  pose proof (lk_claim _ _ _ _ _ Hl) as Hc. pose proof (lk_deployment _ _ _ _ _ Hl) as Hd.
  pose proof (lk_assigned _ _ _ _ _ Hl) as Has. pose proof (lk_holder _ _ _ _ _ Hl) as Hh.
  cbn [il_DeploymentID il_AgentID] in *. subst id.
  pose proof (claims_ok_check _ _ _ Hok Hc) as Hcheck.
  pose proof (maintained_lifecycle (db_now s) c d) as Hlc. unfold maintained in *.
  destruct (String.eqb_spec (c_State c) "claimed") as [Hst|Hst]; cbn [andb] in *.
  { rewrite Hst in *. cbn in Hlc |- *. destruct (sql_le (c_ClaimExpiresAt c) (db_now s)) eqn:He; [|done].
    eapply one_row_single; [done..|by apply Hlc| |done].
    cbn beta. rewrite Hst, He, String.eqb_refl. cbn. rewrite check_unstarted; tauto. }
  destruct (String.eqb_spec (c_State c) "started") as [Hst'|Hst']; cbn [andb] in *.
  { rewrite Hst' in *. cbn in Hlc |- *. destruct (sql_le (c_LastHeartbeatAt c) _) eqn:He; [|done].
    unfold failRemoteDeployment. rewrite Hrun by tauto. rewrite String.eqb_refl.
    apply (pair_last s _ _ _ _ _ c d); try done; [by apply Hlc; [|tauto|]|..]; cbn beta.
    - by rewrite Hst', He, String.eqb_refl.
    - rewrite Has, (proj2 (sql_eq_true _ _)), Hrun by (done || tauto). done. }
  destruct (String.eqb_spec (c_State c) "cancel_requested") as [Hst''|?]; cbn [andb] in *; [|done].
  destruct (sql_le (c_CancelRequestedAt c) _) eqn:He; [|done].
  unfold failRemoteDeployment. rewrite Hrun by tauto. rewrite String.eqb_refl.
  apply (pair_last s _ _ _ _ _ c d); try done; [by apply Hlc; [|tauto|]|..]; cbn beta.
  - by rewrite Hst'', He, String.eqb_refl.
  - rewrite Has, (proj2 (sql_eq_true _ _)), Hrun by (done || tauto). done.
Qed.
End maintain.
