(* ===== verification/CreationQueries.v ===== *)
(** * CreationQueries: the statements that create a deployment

    deployments.sql.go, deployment_steps.sql.go, deployment_state.sql.go,
    artifacts.sql.go, verification.sql.go, rollback.sql.go, idempotency.sql.go,
    and the row locks of releases and projects. An INSERT checks the primary
    key, the foreign keys and the CHECKs of its table; [INSERT ... SELECT]
    inserts no row when its condition fails. *)
From S2P Require Import Prelude Text Db Tx StageQueries QueueQueries DispatchQueries.

(** A new table value in the store's creation tables. *)
Definition update_creation (f : DeploymentTables → DeploymentTables) (s : DB) : DB :=
  set_creation (f (db_creation s)) s.

(** INSERT into a table with a primary key: [ok] are the other constraints. *)
Definition insert_row {K A} `{Countable K} (table : DB → gmap K A) (store : gmap K A → DB → DB)
    (k : K) (row : A) (ok : bool) : Tx unit := λ s,
  if is_null (table s !! k) && ok then Ok (tt, store (<[k := row]> (table s)) s) else Err ErrConstraint.

Definition has_deployment (s : DB) (id : Z) : bool := not_null (db_deployments s !! id).

(** ** deployments.sql.go *)

Record CreateDeploymentParams := mkDeploymentParams {
  cd_ReleaseID : Z;
  cd_EnvironmentID : Z;
  cd_Status : string;
  cd_StartedAt : option Z;
  cd_FinishedAt : option Z;
  cd_Forced : Z;
  cd_Note : option string;
  cd_AssignedAgentID : option string;
  cd_AnsibleCheckMode : option Z }.

#[export] Instance CreateDeploymentParams_eta : Eta CreateDeploymentParams := λ p,
  mkDeploymentParams (cd_ReleaseID p) (cd_EnvironmentID p) (cd_Status p) (cd_StartedAt p)
    (cd_FinishedAt p) (cd_Forced p) (cd_Note p) (cd_AssignedAgentID p) (cd_AnsibleCheckMode p).

Definition cd_set_Status : string → CreateDeploymentParams → CreateDeploymentParams :=
  ltac:(set_field cd_Status).
Definition cd_set_AssignedAgentID : option string → CreateDeploymentParams → CreateDeploymentParams :=
  ltac:(set_field cd_AssignedAgentID).
Definition cd_set_AnsibleCheckMode : option Z → CreateDeploymentParams → CreateDeploymentParams :=
  ltac:(set_field cd_AnsibleCheckMode).

(** AUTOINCREMENT: one more than the largest id that the table has or had. *)
Definition next_deployment_id (s : DB) : Z :=
  foldr Z.max (dt_seq (db_creation s)) (fst <$> map_to_list (db_deployments s)) + 1.

Definition new_deployment (s : DB) (arg : CreateDeploymentParams) : Deployment :=
  mkDeployment (next_deployment_id s) (cd_ReleaseID arg) (cd_EnvironmentID arg) (cd_Status arg)
    (cd_StartedAt arg) (cd_FinishedAt arg) (db_now s) (cd_Forced arg) (cd_Note arg)
    (cd_AssignedAgentID arg) "deployment" None None
    (e_Name <$> db_environments s !! cd_EnvironmentID arg) (cd_AnsibleCheckMode arg).

Definition deployment_constraints (s : DB) (arg : CreateDeploymentParams) : bool :=
  not_null (db_releases s !! cd_ReleaseID arg) && not_null (db_environments s !! cd_EnvironmentID arg)
  && match cd_AssignedAgentID arg with Some a => not_null (db_agents s !! a) | None => true end
  && match cd_AnsibleCheckMode arg with Some m => Z.eqb m 0 || Z.eqb m 1 | None => true end.

Definition insert_deployment (d : Deployment) (s : DB) : DB :=
  update_creation (dt_set_seq (d_ID d)) (set_deployments (<[d_ID d := d]> (db_deployments s)) s).

Definition CreateDeployment (arg : CreateDeploymentParams) : Tx Deployment := λ s,
  if deployment_constraints s arg
  then Ok (new_deployment s arg, insert_deployment (new_deployment s arg) s)
  else Err ErrConstraint.

(** The cleanup of a deployment's containers was neither confirmed nor is it
    the business of an agent. *)
Definition local_cleanup_open (s : DB) (id : Z) (d : Deployment) : bool :=
  String.eqb (d_Status d) "cleanup_unconfirmed"
  && (not_null (d_ContainerNamespace d)
      || (is_null (d_CleanupConfirmedAt d)
          && negb (run_in s id (λ r, String.eqb (r_State r) "cleanup_unconfirmed"))
          && negb (claim_in s id (λ c, String.eqb (c_State c) "cleanup_unconfirmed")))).

Definition HasUnconfirmedContainerCleanup (id : Z) : Tx Z := read (λ s, count (
  deployment_is s id (local_cleanup_open s id)
  || run_in s id (λ r, String.eqb (r_State r) "cleanup_unconfirmed" && is_null (r_CleanupConfirmedAt r))
  || claim_in s id (λ c, String.eqb (c_State c) "cleanup_unconfirmed" && is_null (c_CleanupConfirmedAt c)))).

(** A step of the deployment frozen in Ansible's check mode, for a deployment
    without a mode of its own. *)
Definition legacy_check (s : DB) (d : Deployment) : bool :=
  is_null (d_AnsibleCheckMode d)
  && exists_row (db_steps s) (λ st, Z.eqb (s_DeploymentID st) (d_ID d)
       && String.eqb (s_Kind st) "ansible" && contains check_true (s_AnsibleJson st)).

Definition IsAnsibleCheckDeployment (id : Z) : Tx Z := λ s,
  match db_deployments s !! id with
  | Some d => Ok (count (sql_eq (d_AnsibleCheckMode d) 1 || legacy_check s d), s)
  | None => Err ErrNoRows
  end.

(** UPDATE of the three columns: [started_at] is overwritten too. *)
Definition UpdateDeploymentStatus (id : Z) (status : string) (started finished : option Z) : Tx unit :=
  update_deployment id (λ _ _, true)
    (λ _ d, d_set_Status status (d_set_StartedAt started (d_set_FinishedAt finished d)));;
  mret tt.

Definition ConfirmRemoteDeploymentLocalCleanup (id : Z) : Tx unit :=
  update_deployment id
    (λ s _, run_in s id (λ r, String.eqb (r_State r) "cleanup_unconfirmed"))
    (λ _, d_set_ContainerNamespace None);;
  mret tt.

(** ** releases.sql.go and projects.sql.go *)

Definition LockProject (id : Z) : Tx Z := read (λ s, count (not_null (db_projects s !! id))).
Definition LockRelease (id : Z) : Tx Z := read (λ s, count (not_null (db_releases s !! id))).

(** SetProjectLifecycle, and with [None] ClearProjectLifecycle: the foreign key
    is checked when there is a row to update. *)
Definition SetProjectLifecycle (lifecycle : option Z) (id : Z) : Tx unit :=
  valid ← read (λ s, is_null (db_projects s !! id)
                     || match lifecycle with Some l => not_null (db_lifecycles s !! l) | None => true end);
  guard valid ErrConstraint;;
  write (λ s, set_projects (alter (λ p, mkProject (prj_ID p) (prj_Name p) lifecycle) id (db_projects s)) s).

Definition GetDeploymentRelease (id : Z) : Tx Release := λ s,
  match db_releases s !! id with
  | Some r => if String.eqb (rel_Kind r) "deployment" then Ok (r, s) else Err ErrNoRows
  | None => Err ErrNoRows
  end.

(** ** deployment_steps.sql.go and deployment_state.sql.go *)

Definition snapshot_statuses : list string := ["queued"; "pending"; "pending_approval"].

(** The deployment is not started, its source is not frozen and nothing was attempted. *)
Definition snapshot_open (s : DB) (id : Z) : bool :=
  deployment_is s id (λ d, d_Status d ∈? snapshot_statuses) && is_null (db_step_sources s !! id).

Definition LockDeploymentSnapshot (id : Z) : Tx Z := read (λ s, count (
  snapshot_open s id && negb (exists_row (db_steps s) (λ st, Z.eqb (s_DeploymentID st) id)))).

Definition coalesce (v default_ : string) : string := if String.eqb v "" then default_ else v.

(** The row of an INSERT: the three columns with a default, and created_at. *)
Definition step_row (now : Z) (st : DeploymentStep) : DeploymentStep :=
  mkStep (s_DeploymentID st) (s_StepIndex st) (s_SourceStepID st) (s_Name st) (s_ScriptBody st)
    (s_TimeoutSeconds st) (s_MaxRetries st) (s_ExecutionTarget st) now
    (coalesce (s_Interpreter st) "bash") (s_ContainerImage st) (s_VariableNames st) (s_NetworkMode st)
    (s_ApprovalArtifactPath st) (s_ApprovalReviewPath st) (s_ApprovalReviewFormat st)
    (coalesce (s_AgentExecutionMode st) "host") (coalesce (s_Kind st) "script") (s_AnsibleJson st).

Definition step_check (st : DeploymentStep) : bool :=
  (0 <=? s_StepIndex st) && (0 <=? s_TimeoutSeconds st) && (0 <=? s_MaxRetries st)
  && (s_ExecutionTarget st ∈? ["local"; "agent"]) && (s_NetworkMode st ∈? [""; "none"; "bridge"])
  && (s_ApprovalReviewFormat st ∈? [""; "summary"; "terraform"])
  && (s_Kind st ∈? ["script"; "ansible"]).

Definition snapshot_writable (s : DB) (id : Z) : bool :=
  snapshot_open s id && negb (bool_decide (id ∈ dt_attempts (db_creation s))).

(** [st] are the parameters; the identifiers of the row are its columns. *)
Definition CreateDeploymentStep (st : DeploymentStep) : Tx Z := λ s,
  if snapshot_writable s (s_DeploymentID st) then
    (insert_row db_steps set_steps (s_DeploymentID st, s_StepIndex st) (step_row (db_now s) st)
       (step_check (step_row (db_now s) st));; mret 1) s
  else Ok (0, s).

(** SQL's [length]: the number of characters, that is of bytes that start one. *)
Definition characters (p : string) : nat :=
  length (filter (λ c, byte_in 128 191 c = false) (String.list_ascii_of_string p)).

Definition AddDeploymentStepSelector (deployment index : Z) (label : string) : Tx Z := λ s,
  if snapshot_writable s deployment then
    if bool_decide ((deployment, index, label) ∈ dt_selectors (db_creation s))
       || is_null (db_steps s !! (deployment, index))
       || negb ((1 <=? characters label)%nat && (characters label <=? 64)%nat)
    then Err ErrConstraint
    else Ok (1, update_creation (λ t,
           dt_set_selectors ({[(deployment, index, label)]} ∪ dt_selectors t) t) s)
  else Ok (0, s).

Definition FreezeDeploymentStepSourceJSON (steps_json : string) (id : Z) : Tx Z := λ s,
  if snapshot_open s id
  then Ok (1, set_step_sources (<[id := steps_json]> (db_step_sources s)) s)
  else Ok (0, s).

Definition FreezeDeploymentStepSource (id : Z) : Tx Z := λ s,
  match db_deployments s !! id ≫= λ d, db_releases s !! d_ReleaseID d with
  | Some release => FreezeDeploymentStepSourceJSON (rel_StepsJson release) id s
  | None => Ok (0, s)
  end.

Definition GetDeploymentStepSource (id : Z) : Tx string := λ s,
  match db_step_sources s !! id with Some json => Ok (json, s) | None => Err ErrNoRows end.

(** ** verification.sql.go, artifacts.sql.go and artifact_gates.sql.go *)

Definition CreateDeploymentVerification (id : Z) (type target : string) (timeout index : Z) : Tx unit := λ s,
  insert_row db_verifications set_verifications id
    (mkVerification id type target timeout index "pending" None None)
    (has_deployment s id && (type ∈? ["http"; "bash"]) && (1 <=? timeout) && (timeout <=? 300)) s.

Definition CreateArtifactGateRun (id : Z) : Tx unit := λ s,
  insert_row (λ s, dt_gate_runs (db_creation s)) (λ t, update_creation (dt_set_gate_runs t)) id
    (mkGateRun 0 0) (has_deployment s id) s.

(** INSERT ... SELECT of the artifact of a release or of another deployment. *)
Definition copy_artifact (row : option Artifact) (id : Z) : Tx unit := λ s,
  match row with
  | None => Ok (tt, s)
  | Some a =>
      insert_row (λ s, dt_artifacts (db_creation s)) (λ t, update_creation (dt_set_artifacts t)) id a
        (has_deployment s id) s
  end.

Definition CopyReleaseArtifactToDeployment (id release : Z) : Tx unit := λ s,
  copy_artifact (dt_release_artifacts (db_creation s) !! release) id s.

Definition CopyDeploymentArtifact (id source : Z) : Tx unit := λ s,
  copy_artifact (dt_artifacts (db_creation s) !! source) id s.

(** ** rollback.sql.go *)

Definition project_of (s : DB) (d : Deployment) : option Z := rel_ProjectID <$> db_releases s !! d_ReleaseID d.

(** A deployment of the kind that changes its environment. *)
Definition real_deployment (s : DB) (d : Deployment) : bool :=
  String.eqb (d_Kind d) "deployment" && Z.eqb (default 0 (d_AnsibleCheckMode d)) 0
  && negb (legacy_check s d).

(** The first row in [ORDER BY created_at DESC, id DESC]. *)
Definition latest_deployment (s : DB) (where_ : Deployment → bool) : Tx Deployment := λ s0,
  match sort_by latest_le (filter (λ d, where_ d = true) (snd <$> map_to_list (db_deployments s))) with
  | d :: _ => Ok (d, s0)
  | [] => Err ErrNoRows
  end.

Definition GetLatestProjectEnvironmentDeployment (project environment : Z) : Tx Deployment := λ s,
  latest_deployment s (λ d, sql_eq (project_of s d) project && Z.eqb (d_EnvironmentID d) environment
    && real_deployment s d) s.

(** The statuses and states of [ListDeploymentQueueBlockers], and the waiting ones. *)
Definition HasActiveProjectEnvironmentDeployment (project environment : Z) : Tx Z := read (λ s, count (
  existsb (λ kd : Z * Deployment, sql_eq (project_of s kd.2) project
      && Z.eqb (d_EnvironmentID kd.2) environment && String.eqb (d_Kind kd.2) "deployment"
      && ((d_Status kd.2 ∈? ["queued"; "pending_approval"]) || is_blocker s kd.1 kd.2))
    (map_to_list (db_deployments s)))).

Definition GetRollbackTarget (source : Z) : Tx Deployment := λ s,
  match db_deployments s !! source with
  | None => Err ErrNoRows
  | Some src =>
      latest_deployment s (λ d, sql_eq2 (project_of s d) (project_of s src)
        && Z.eqb (d_EnvironmentID d) (d_EnvironmentID src)
        && real_deployment s d && String.eqb (d_Status d) "succeeded"
        && negb (Z.eqb (d_ReleaseID d) (d_ReleaseID src))
        && ((d_CreatedAt d <? d_CreatedAt src)
            || (Z.eqb (d_CreatedAt d) (d_CreatedAt src) && (d_ID d <? d_ID src)))) s
  end.

Definition CreateDeploymentRollback (id source target : Z) (source_version target_version : string)
    : Tx unit := λ s,
  insert_row (λ s, dt_rollbacks (db_creation s)) (λ t, update_creation (dt_set_rollbacks t)) id
    (mkRollback source target source_version target_version) (has_deployment s id) s.

(** ** idempotency.sql.go *)

Record ClaimIdempotencyParams := mkIdempotencyParams {
  ip_UserID : Z;
  ip_ProjectID : Z;
  ip_Operation : string;
  ip_KeyHash : string;
  ip_RequestHash : string }.

Definition idempotency_key (p : ClaimIdempotencyParams) : Z * Z * string * string :=
  (ip_UserID p, ip_ProjectID p, ip_Operation p, ip_KeyHash p).

Definition ClaimIdempotency (p : ClaimIdempotencyParams) : Tx unit := λ s,
  insert_row (λ s, dt_idempotency (db_creation s)) (λ t, update_creation (dt_set_idempotency t))
    (idempotency_key p) (mkIdempotency (ip_RequestHash p) "")
    (not_null (ax_users (db_access s) !! ip_UserID p) && not_null (db_projects s !! ip_ProjectID p)) s.

Definition CompleteIdempotency (p : ClaimIdempotencyParams) (response : string) : Tx unit :=
  write (update_creation (λ t, dt_set_idempotency
    (alter (λ row, mkIdempotency (ik_RequestHash row) response) (idempotency_key p) (dt_idempotency t)) t)).

Definition GetIdempotency (p : ClaimIdempotencyParams) : Tx IdempotencyRow := λ s,
  match dt_idempotency (db_creation s) !! idempotency_key p with
  | Some row => Ok (row, s)
  | None => Err ErrNoRows
  end.
