(* ===== verification/GateQueries.v ===== *)
(** * GateQueries: the statements of internal/db/artifact_gates.sql.go *)
From S2P Require Import Prelude Db Tx QueueQueries DispatchQueries CreationQueries.

Definition gate_runs (s : DB) : gmap Z ArtifactGateRun := dt_gate_runs (db_creation s).
Definition gates (s : DB) : gmap (Z * Z) ArtifactGate := dt_gates (db_creation s).
Definition gate_chunks (s : DB) : gmap (Z * Z * Z) string := dt_gate_chunks (db_creation s).

Definition set_gate_runs (t : gmap Z ArtifactGateRun) : DB → DB := update_creation (dt_set_gate_runs t).
Definition set_gates (t : gmap (Z * Z) ArtifactGate) : DB → DB := update_creation (dt_set_gates t).
Definition set_gate_chunks (t : gmap (Z * Z * Z) string) : DB → DB := update_creation (dt_set_gate_chunks t).

Definition GetArtifactGateRun (id : Z) : Tx ArtifactGateRun := λ s,
  match gate_runs s !! id with Some r => Ok (r, s) | None => Err ErrNoRows end.

Definition ClaimArtifactGateRun (id : Z) : Tx Z := λ s,
  let '(t, n) := update_pk (gate_runs s) id
    (λ r, Z.eqb (gr_Claimed r) 0 && deployment_is s id (λ d, String.eqb (d_Status d) "pending"))
    (λ r, mkGateRun (gr_NextStep r) 1) in
  Ok (n, set_gate_runs t s).

Definition AdvanceArtifactGateRun (id next_step : Z) : Tx unit := write (λ s,
  set_gate_runs (update_pk (gate_runs s) id (λ _, true) (λ _, mkGateRun next_step 0)).1 s).

Definition LockArtifactGateDeployment (id : Z) : Tx Z := read (λ s, count (has_deployment s id)).

(** The three transitions of the deployment. *)
Definition PublishArtifactGateDeployment (id : Z) : Tx Z :=
  update_deployment id (λ _ d, String.eqb (d_Status d) "running") (λ _, d_set_Status "publishing_artifact").
Definition PauseArtifactGateDeployment (id : Z) : Tx Z :=
  update_deployment id (λ _ d, String.eqb (d_Status d) "publishing_artifact")
    (λ _, d_set_Status "awaiting_artifact_approval").
Definition ResumeArtifactGateDeployment (id : Z) : Tx Z :=
  update_deployment id (λ _ d, String.eqb (d_Status d) "awaiting_artifact_approval")
    (λ _, d_set_Status "pending").

Definition GetArtifactGate (id step : Z) : Tx ArtifactGate := λ s,
  match gates s !! (id, step) with Some g => Ok (g, s) | None => Err ErrNoRows end.

Record CreateArtifactGateParams := mkGateParams {
  gp_DeploymentID : Z;
  gp_StepIndex : Z;
  gp_ArtifactPath : string;
  gp_ArtifactSha256 : string;
  gp_BundleSha256 : string;
  gp_BundleSize : Z;
  gp_Review : string;
  gp_CreatedAt : Z;
  gp_ExpiresAt : Z }.

Definition new_gate (p : CreateArtifactGateParams) : ArtifactGate :=
  mkGate (gp_DeploymentID p) (gp_StepIndex p) 1 "awaiting" (gp_ArtifactPath p) (gp_ArtifactSha256 p)
    (gp_BundleSha256 p) (gp_BundleSize p) (gp_Review p) (gp_CreatedAt p) (gp_ExpiresAt p) None None.

Definition CreateArtifactGate (p : CreateArtifactGateParams) : Tx unit := λ s,
  insert_row gates set_gates (gp_DeploymentID p, gp_StepIndex p) (new_gate p)
    (has_deployment s (gp_DeploymentID p)) s.

Definition CreateArtifactGateChunk (id step index : Z) (ciphertext : string) : Tx unit := λ s,
  insert_row gate_chunks set_gate_chunks (id, step, index) ciphertext (not_null (gates s !! (id, step))) s.

Definition GetArtifactGateChunk (id step index : Z) : Tx string := λ s,
  match gate_chunks s !! (id, step, index) with Some c => Ok (c, s) | None => Err ErrNoRows end.

Definition ApproveArtifactGate (id step revision : Z) (sha256 : string) (now : Z)
    (by_ at_ : option Z) : Tx Z := λ s,
  let '(t, n) := update_pk (gates s) (id, step)
    (λ g, String.eqb (ag_Status g) "awaiting" && String.eqb (ag_ArtifactSha256 g) sha256
       && Z.eqb (ag_Revision g) revision && (now <? ag_ExpiresAt g))
    (λ g, ag_set_Status "approved" (ag_set_ApprovedBy by_ (ag_set_ApprovedAt at_ g))) in
  Ok (n, set_gates t s).

Definition update_gates (where_ : DB → ArtifactGate → bool) (status : string) : Tx unit := write (λ s,
  set_gates (update_where (gates s) (where_ s) (ag_set_Status status)).1 s).

Definition FinishArtifactGates (id : Z) (status : string) : Tx unit :=
  update_gates (λ _ g, Z.eqb (ag_DeploymentID g) id && String.eqb (ag_Status g) "awaiting") status.

(** The gate a deployment waits at has expired: it is the one before the next step. *)
Definition gate_expired (s : DB) (now id : Z) : bool :=
  match gate_runs s !! id with
  | Some r => exists_row (gates s) (λ g, Z.eqb (ag_DeploymentID g) id
                && Z.eqb (ag_StepIndex g) (gr_NextStep r - 1) && (ag_ExpiresAt g <=? now))
  | None => false
  end.

Definition ExpireArtifactGateDeployments (now : Z) : Tx unit := write (λ s,
  set_deployments (map_imap (λ id d, Some
    (if (d_Status d ∈? ["awaiting_artifact_approval"; "pending"]) && gate_expired s now id
     then d_set_Status "expired" (d_set_FinishedAt (Some now) d) else d)) (db_deployments s)) s).

Definition ExpireArtifactGates (now : Z) : Tx unit :=
  update_gates (λ s g, (ag_Status g ∈? ["awaiting"; "approved"]) && (ag_ExpiresAt g <=? now)
    && deployment_is s (ag_DeploymentID g) (λ d, String.eqb (d_Status d) "expired")
    && match gate_runs s !! ag_DeploymentID g with
       | Some r => Z.eqb (ag_StepIndex g) (gr_NextStep r - 1) | None => false end) "expired".

Definition CancelTerminalArtifactGates : Tx unit :=
  update_gates (λ s g, String.eqb (ag_Status g) "awaiting"
    && deployment_is s (ag_DeploymentID g) (λ d, d_Status d ∈? ["failed"; "cancelled"; "cleanup_unconfirmed"]))
    "cancelled".

Definition DeleteExpiredArtifactGateChunks (cutoff : Z) : Tx unit := write (λ s,
  set_gate_chunks (filter (λ kc : Z * Z * Z * string,
    deployment_is s kc.1.1.1 (λ d, match d_FinishedAt d with Some f => f <? cutoff | None => false end
      && (d_Status d ∈? ["succeeded"; "failed"; "cancelled"; "rejected"; "expired"])) = false)
    (gate_chunks s)) s).
