(* ===== verification/ArtifactGate.v ===== *)
(** * ArtifactGate: approval of built artifacts, and the end of a local run

    internal/repository/artifact_gate.go and artifact_gate_storage.go, and
    completeDeployment of internal/runner/deployment_result.go. A deployment
    with a gate stops after the step that built the artifact, publishes an
    encrypted bundle with its review, and waits: running, publishing_artifact,
    awaiting_artifact_approval, then pending again, rejected, cancelled or
    expired. SHA-256 is a parameter. *)
From stdpp Require Import pretty.
From S2P Require Import Prelude Text Db Tx QueueQueries DeploymentQueue DispatchQueries CreationQueries GateQueries Base64 Secret Variables.

(** [s[:n]] and [s[n:]], [None] when the text is shorter. *)
Fixpoint split_at (n : nat) (p : string) : option (string * string) :=
  match n, p with
  | O, _ => Some (EmptyString, p)
  | S n, EmptyString => None
  | S n, String c rest =>
      match split_at n rest with Some (a, b) => Some (String c a, b) | None => None end
  end.

Definition gateChunkSize : Z := 2 ^ 20.
Definition newline : string := String (Ascii.ascii_of_nat 10) EmptyString.

(** [fmt.Sprintf] of three %d separated by slashes, and a newline. *)
Definition chunk_prefix (id step index : Z) : string :=
  pretty id +:+ "/" +:+ pretty step +:+ "/" +:+ pretty index +:+ newline.

(** ** The local run *)

(** [None]: the deployment has no gate. *)
Definition BeginArtifactGateRun (id : Z) (s : DB) : result (option ArtifactGateRun) * DB :=
  match GetArtifactGateRun id s with
  | Err ErrNoRows => (Ok None, s)
  | Err e => (Err e, s)
  | Ok _ =>
      WithDeploymentTx id (
        LockArtifactGateDeployment id;;
        run ← GetArtifactGateRun id;
        n ← ClaimArtifactGateRun id;
        guard (Z.eqb n 1) ErrArtifactGate;;
        started ← startLocalDeployment id;
        guard started ErrArtifactGate;;
        mret (Some run)) s
  end.

Definition PauseArtifactGate (id next_step : Z) : DB → result unit * DB :=
  WithDeploymentTx id (
    n ← PauseArtifactGateDeployment id;
    guard (Z.eqb n 1) ErrArtifactGate;;
    AdvanceArtifactGateRun id next_step).

Definition terminal_run_statuses : list string :=
  ["succeeded"; "failed"; "cancelled"; "rejected"; "expired"; "cleanup_unconfirmed"].

(** The function of the transaction of [completeDeployment]: the status that stands. *)
Definition complete_body (now id : Z) (status : string) (localCleanupConfirmed : bool) : Tx string :=
  deployment ← GetDeployment id;
  (if localCleanupConfirmed && String.eqb status "cleanup_unconfirmed"
   then ConfirmRemoteDeploymentLocalCleanup id else mret tt);;
  if (d_Status deployment ∈? terminal_run_statuses) && negb (String.eqb status "cleanup_unconfirmed")
  then mret (d_Status deployment)
  else
    (if String.eqb status "cancelled" then CancelStepDeployment id;; mret tt
     else UpdateDeploymentStatus id status None (Some now));;
    FinishArtifactGates id "cancelled";;
    FinishDeploymentVerification id (if String.eqb status "cancelled" then "cancelled" else "failed");;
    mret status.

(** [now] is the runner's clock; [cancelled]: the run was cancelled and
    cancellation wins. *)
Definition completeDeployment (now id : Z) (status : string) (cancelled localCleanupConfirmed : bool)
    : DB → result string * DB :=
  let status := if cancelled then "cancelled" else status in
  WithDeploymentTx id (complete_body now id status localCleanupConfirmed).

(** ** Bundles *)
Section bundles.
Context `{Box} (configured : bool) (sha256_hex : string → string) (ArchiveBytes : Z).

Definition validateArtifactGateBundleSize (size : Z) : result unit :=
  if negb configured || (size <=? 0) then Err ErrArtifactGate
  else if ArchiveBytes <? size then Err ErrArtifactGateSize else Ok tt.

(** The loop that reads and encrypts: the data read and the ciphertexts. Every
    round reads at least one byte, so [remaining] is enough fuel. *)
Fixpoint encrypt_chunks (fuel : nat) (nonces : Z → option bytes) (id step index remaining : Z)
    (source : string) : result (string * list string) :=
  match fuel with
  | O => Ok ("", [])
  | S fuel =>
      if remaining <=? 0 then Ok ("", [])
      else
        let n := Z.min gateChunkSize remaining in
        match split_at (Z.to_nat n) source with
        | None => Err (ErrOther "unexpected EOF")
        | Some (data, source) =>
            ciphertext ← Encrypt (nonces index) (chunk_prefix id step index +:+ data);
            '(read, ciphertexts) ← encrypt_chunks fuel nonces id step (index + 1) (remaining - n) source;
            Ok (data +:+ read, ciphertext :: ciphertexts)
        end
  end.

(** The statements that store the bundle, in the transaction of [SaveArtifactGate]. *)
Definition store_bundle (gate : CreateArtifactGateParams) (ciphertexts : list string) : Tx unit :=
  changed ← PublishArtifactGateDeployment (gp_DeploymentID gate);
  guard (Z.eqb changed 1) ErrArtifactGate;;
  CreateArtifactGate gate;;
  for_each (imap (λ i c, (Z.of_nat i, c)) ciphertexts) (λ ic,
    CreateArtifactGateChunk (gp_DeploymentID gate) (gp_StepIndex gate) ic.1 ic.2).

(** [source] is the text of the bundle file; the spool file between the
    preparation and the transaction holds the ciphertexts. *)
Definition SaveArtifactGate (nonces : Z → option bytes) (gate : CreateArtifactGateParams)
    (source : string) (s : DB) : result unit * DB :=
  match
    validateArtifactGateBundleSize (gp_BundleSize gate);;
    '(read, ciphertexts) ← encrypt_chunks (Z.to_nat (gp_BundleSize gate)) nonces (gp_DeploymentID gate)
                             (gp_StepIndex gate) 0 (gp_BundleSize gate) source;
    if String.eqb (sha256_hex read) (gp_BundleSha256 gate) then Ok ciphertexts else Err ErrArtifactGate
  with
  | Err e => (Err e, s)
  | Ok ciphertexts => WithDeploymentTx (gp_DeploymentID gate) (store_bundle gate ciphertexts) s
  end.

(** The loop of [WriteArtifactGateBundle]: the bytes it writes. *)
Fixpoint read_chunks (fuel : nat) (s : DB) (gate : ArtifactGate) (index remaining : Z) : result string :=
  match fuel with
  | O => Ok ""
  | S fuel =>
      if remaining <=? 0 then Ok ""
      else match GetArtifactGateChunk (ag_DeploymentID gate) (ag_StepIndex gate) index s with
      | Err _ => Err ErrArtifactGate
      | Ok (ciphertext, _) =>
          if 2 * gateChunkSize <? Z.of_nat (String.length ciphertext) then Err ErrArtifactGate
          else match Decrypt ciphertext with
          | Err _ => Err ErrArtifactGate
          | Ok plaintext =>
              match strip_prefix (chunk_prefix (ag_DeploymentID gate) (ag_StepIndex gate) index) plaintext with
              | None => Err ErrArtifactGate
              | Some data =>
                  if Z.eqb (Z.of_nat (String.length data)) (Z.min gateChunkSize remaining) then
                    rest ← read_chunks fuel s gate (index + 1) (remaining - Z.of_nat (String.length data));
                    Ok (data +:+ rest)
                  else Err ErrArtifactGate
              end
          end
      end
  end.

Definition WriteArtifactGateBundle (gate : ArtifactGate) : Tx string := λ s,
  match
    validateArtifactGateBundleSize (ag_BundleSize gate);;
    data ← read_chunks (Z.to_nat (ag_BundleSize gate)) s gate 0 (ag_BundleSize gate);
    if String.eqb (sha256_hex data) (ag_BundleSha256 gate) then Ok data else Err ErrArtifactGate
  with
  | Ok data => Ok (data, s)
  | Err e => Err e
  end.

(** ** Decisions *)

(** [if errors.Is(err, sql.ErrNoRows) { return ErrArtifactGate }] *)
Definition gate_or_unavailable (id step : Z) : Tx ArtifactGate := λ s,
  match GetArtifactGate id step s with Err ErrNoRows => Err ErrArtifactGate | r => r end.

(** The conditions a decision is checked against. *)
Definition gate_open (now revision : Z) (checksum : string) (gate : ArtifactGate) : bool :=
  negb (negb (String.eqb (ag_Status gate) "awaiting") || negb (Z.eqb (ag_Revision gate) revision)
        || negb (String.eqb (ag_ArtifactSha256 gate) checksum) || (ag_ExpiresAt gate <=? now)).

(** The function of the transaction; [verified] is the gate whose bundle was read. *)
Definition approveArtifact (verified : ArtifactGate) (id step revision user : Z) (checksum : string)
    : Tx unit :=
  LockArtifactGateDeployment id;;
  deployment ← GetDeployment id;
  guard (String.eqb (d_Status deployment) "awaiting_artifact_approval") ErrArtifactGate;;
  gate ← gate_or_unavailable id step;
  now ← CurrentUnixTime;
  guard (gate_open now revision checksum gate
         && String.eqb (ag_BundleSha256 gate) (ag_BundleSha256 verified)
         && Z.eqb (ag_BundleSize gate) (ag_BundleSize verified)) ErrArtifactGate;;
  n ← ApproveArtifactGate id step revision checksum now (Some user) (Some now);
  guard (Z.eqb n 1) ErrArtifactGate;;
  n ← ResumeArtifactGateDeployment id;
  guard (Z.eqb n 1) ErrArtifactGate.

(** The reads before the transaction run against [before]; other requests may
    commit between them and the transaction, which sees [s]. *)
Definition ApproveArtifact (before : DB) (id step revision user : Z) (checksum : string) (s : DB)
    : result unit * DB :=
  match
    (verified ← gate_or_unavailable id step;
     guard (negb (negb (String.eqb (ag_Status verified) "awaiting") || negb (Z.eqb (ag_Revision verified) revision)
                  || negb (String.eqb (ag_ArtifactSha256 verified) checksum))) ErrArtifactGate;;
     now ← CurrentUnixTime;
     guard (negb (ag_ExpiresAt verified <=? now)) ErrArtifactGate;;
     WriteArtifactGateBundle verified;;
     mret verified) before
  with
  | Err e => (Err e, s)
  | Ok (verified, _) => WithDeploymentTx id (approveArtifact verified id step revision user checksum) s
  end.
End bundles.

(** The check of [RejectArtifactGate]. *)
Definition reject_check (id step revision : Z) (checksum : string) : Tx unit :=
  gate ← gate_or_unavailable id step;
  now ← CurrentUnixTime;
  guard (gate_open now revision checksum gate) ErrArtifactGate.

(** The function of the transaction of [rejectArtifact]. *)
Definition reject_body (id : Z) (status : string) (validate : Tx unit) : Tx unit :=
  LockArtifactGateDeployment id;;
  deployment ← GetDeployment id;
  guard (String.eqb (d_Status deployment) "awaiting_artifact_approval") ErrArtifactGate;;
  validate;;
  now ← CurrentUnixTime;
  FinishArtifactGates id status;;
  UpdateDeploymentStatus id status None (Some now);;
  ReconcileTerminalVerifications.

Definition rejectArtifact (id : Z) (status : string) (validate : Tx unit) (s : DB) : result unit * DB :=
  if negb (status ∈? ["rejected"; "cancelled"]) then (Err ErrArtifactGate, s)
  else WithDeploymentTx id (reject_body id status validate) s.

Definition RejectArtifact (id : Z) (status : string) : DB → result unit * DB :=
  rejectArtifact id status (mret tt).

Definition RejectArtifactGate (id step revision : Z) (checksum : string) : DB → result unit * DB :=
  rejectArtifact id "rejected" (reject_check id step revision checksum).

(** Seven days of retention for the bundles of finished deployments. *)
Definition MaintainArtifactGates : DB → result unit * DB :=
  WithQueueMaintenanceTx (
    now ← CurrentUnixTime;
    ExpireArtifactGateDeployments now;;
    ExpireArtifactGates now;;
    ReconcileTerminalVerifications;;
    CancelTerminalArtifactGates;;
    DeleteExpiredArtifactGateChunks (now - 7 * 24 * 60 * 60)).
