(* ===== verification/DeploymentCreation.v ===== *)
(** * DeploymentCreation: from a release to a queued deployment

    deployment_creation.go, deployment_insert.go, deployment_snapshot.go,
    verification.go, ansible.go, idempotency.go and rollback.go of
    internal/repository, with internal/agentexecution and
    artifact.ValidateGateConfig. encoding/json, the agent's protocol package
    and the lower case of strings.ToLower are parameters. *)
From stdpp Require Import pretty.
From S2P Require Import Prelude Text Db Tx QueueQueries DeploymentQueue DispatchQueries StageQueries AccessQueries CreationQueries GateQueries ArtifactGate Gate Staging Base64 Secret Variables Ansible.

(** github.com/DeveloperDurp/durpdeploy-agent: execution modes. *)
Class AgentProtocol := {
  ExecutionHost : string;
  ExecutionContainer : string;
  ParseExecutionMode : string → result string;
  (** [executor.Step{mode, image, variable names}.ValidateExecution()] *)
  ValidateExecution : string → string → list string → result unit }.

(** encoding/json on the types that creation stores, and strings.ToLower. *)
Class CreationLibraries := {
  steps_unmarshal : string → option (list Definition_);
  names_marshal : list string → string;
  deployment_marshal : Deployment → string;
  ToLower : string → string }.

Record ExecutionLimits := mkLimits {
  MaxRetries : Z;
  MaxTimeoutSeconds : Z }.

(** [fmt.Errorf(prefix + "%w", err)]: errors.Is sees through it. *)
Definition wrap {A} (prefix : string) (r : result A) : result A :=
  match r with
  | Err (ErrLimits m) => Err (ErrLimits (prefix +:+ m))
  | Err (ErrEnvironment m) => Err (ErrEnvironment (prefix +:+ m))
  | Err (ErrOther m) => Err (ErrOther (prefix +:+ m))
  | r => r
  end.

(** ** internal/agentexecution *)

Definition limits_text : string := "invalid step execution limits: ".

Definition ValidateLimitsWithPolicy (timeout retries : Z) (limits : ExecutionLimits) : result unit :=
  if timeout <? 0 then Err (ErrLimits (limits_text +:+ "timeout must be a non-negative integer"))
  else if MaxTimeoutSeconds limits <? timeout
  then Err (ErrLimits (limits_text +:+ "timeout must not exceed " +:+ pretty (MaxTimeoutSeconds limits) +:+ " seconds"))
  else if retries <? 0 then Err (ErrLimits (limits_text +:+ "max retries must be a non-negative integer"))
  else if MaxRetries limits <? retries
  then Err (ErrLimits (limits_text +:+ "max retries must not exceed " +:+ pretty (MaxRetries limits)))
  else Ok tt.

Section parse.
Context `{AgentProtocol}.

Definition Parse (target mode image : string) (names : list string) : result string :=
  let mode := if String.eqb mode "" then ExecutionHost else mode in
  mode ← wrap "agent execution mode: " (ParseExecutionMode mode);
  if String.eqb target "local" then
    if negb (String.eqb mode ExecutionHost) then Err ErrLocalMode else Ok mode
  else if String.eqb mode ExecutionHost && negb (String.eqb image "")
  then invalid "container image is not valid for agent-host steps"
  else if String.eqb mode ExecutionContainer && String.eqb image ""
  then invalid "container image is required for agent-container steps"
  else wrap "agent step configuration: " (ValidateExecution mode image names);; Ok mode.
End parse.

(** ** artifact.ValidateGateConfig *)

Definition bad_gate_path (p : string) : bool :=
  (128 <? String.length p)%nat || negb (ValidPath p) || String.eqb p "." || has_forbidden p.

Definition ValidateGateConfig (target network artifact_path review_path format : string) : result unit :=
  if negb (network ∈? [""; "none"; "bridge"]) then Err ErrGateConfig
  else if String.eqb target "agent" && (String.eqb network "bridge" || negb (String.eqb artifact_path ""))
  then Err ErrGateConfig
  else if String.eqb artifact_path "" then
    if negb (String.eqb review_path "") || negb (String.eqb format "") then Err ErrGateConfig else Ok tt
  else if existsb bad_gate_path [artifact_path; review_path] then Err ErrGateConfig
  else if String.eqb artifact_path review_path || negb (format ∈? ["summary"; "terraform"])
  then Err ErrGateConfig else Ok tt.

(** ** Steps of a release *)

(** CreateDeploymentStepParams (the columns of the row that the caller sets;
    the row's created_at is the statement's) and the selectors. *)
Record DeploymentStepSnapshot := mkSnapshot {
  ss_Params : DeploymentStep;
  ss_Selectors : list string }.

Section creation.
Context `{GoFormat} `{Box} (configured : bool).
Context (marshal : list ReleaseVariable → string) (unmarshal : string → option (list ReleaseVariable)).
Context `{AnsibleLibraries} `{AgentProtocol} `{CreationLibraries} (limits : ExecutionLimits).

Definition decode_step (for_refresh : bool) (step : Definition_) : result DeploymentStepSnapshot :=
  let named {A} : result A → result A := wrap ("step " +:+ quote (sd_Name step) +:+ ": ") in
  named (ValidateKind step);;
  (if negb for_refresh || (sd_TimeoutSeconds step <? 0) || (sd_MaxRetries step <? 0)
   then named (ValidateLimitsWithPolicy (sd_TimeoutSeconds step) (sd_MaxRetries step) limits)
   else Ok tt);;
  let target := if String.eqb (sd_ExecutionTarget step) "" then "local" else sd_ExecutionTarget step in
  if negb (target ∈? ["local"; "agent"])
  then invalid ("step " +:+ quote (sd_Name step) +:+ " has unknown execution target " +:+ quote target)
  else if String.eqb target "local" && String.eqb (TrimSpace (sd_ContainerImage step)) ""
  then Err ErrLegacyServerStep
  else
    mode ← named (Parse target (sd_AgentExecutionMode step) (sd_ContainerImage step) (sd_VariableNames step));
    ValidateGateConfig target (sd_NetworkMode step) (sd_ApprovalArtifactPath step)
      (sd_ApprovalReviewPath step) (sd_ApprovalReviewFormat step);;
    Ok (mkSnapshot
      (mkStep 0 0 None (sd_Name step) (sd_ScriptBody step) (sd_TimeoutSeconds step) (sd_MaxRetries step)
         target 0 (sd_Interpreter step) (sd_ContainerImage step) (names_marshal (sd_VariableNames step))
         (sd_NetworkMode step) (sd_ApprovalArtifactPath step) (sd_ApprovalReviewPath step)
         (sd_ApprovalReviewFormat step) mode (StepKind step) (Ansible_JSON (sd_Ansible step)))
      (sd_AgentSelectors step)).

Definition decodeDeploymentSteps (raw : string) (for_refresh : bool) : result (list DeploymentStepSnapshot) :=
  match steps_unmarshal raw with
  | None => invalid "decode release steps"
  | Some source => map_result (decode_step for_refresh) source
  end.

Definition deploymentStepsFromRelease (raw : string) : result (list DeploymentStepSnapshot) :=
  decodeDeploymentSteps raw false.

(** ** Freezing the steps (deployment_snapshot.go) *)

(** The loop over the selectors: a label is stored once. *)
Fixpoint snapshot_selectors (id index : Z) (seen labels : list string) : Tx unit :=
  match labels with
  | [] => mret tt
  | label :: labels =>
      let label := ToLower (TrimSpace label) in
      if label ∈? seen then snapshot_selectors id index seen labels
      else AddDeploymentStepSelector id index label;;
           snapshot_selectors id index (label :: seen) labels
  end.

Definition step_at (id index : Z) (st : DeploymentStep) : DeploymentStep :=
  mkStep id index (s_SourceStepID st) (s_Name st) (s_ScriptBody st) (s_TimeoutSeconds st)
    (s_MaxRetries st) (s_ExecutionTarget st) (s_CreatedAt st) (s_Interpreter st) (s_ContainerImage st)
    (s_VariableNames st) (s_NetworkMode st) (s_ApprovalArtifactPath st) (s_ApprovalReviewPath st)
    (s_ApprovalReviewFormat st) (s_AgentExecutionMode st) (s_Kind st) (s_AnsibleJson st).

Definition snapshotDeploymentStepsFromSource (id : Z) (steps : list DeploymentStepSnapshot)
    (steps_json : string) : Tx unit :=
  n ← LockDeploymentSnapshot id;
  guard (negb (Z.eqb n 0 || (id <=? 0))) ErrNoRows;;
  for_each (imap (λ i step, (Z.of_nat i, step)) steps) (λ istep,
    CreateDeploymentStep (step_at id istep.1 (ss_Params istep.2));;
    snapshot_selectors id istep.1 [] (ss_Selectors istep.2));;
  n ← (if String.eqb steps_json "" then FreezeDeploymentStepSource id
       else FreezeDeploymentStepSourceJSON steps_json id);
  guard (negb (Z.eqb n 0)) ErrNoRows.

(** ** Verification (verification.go) *)

Definition BashImage : string :=
  "harbor.durp.info/dockerhub/library/bash@sha256:a54fb4422b18f05dd3107c36f39d67b26334fda7ec89f4126052b45e228e2f15".

(** The step appended after the last one; the target is stored encrypted elsewhere. *)
Definition bash_step (timeout : Z) (step : DeploymentStepSnapshot) : DeploymentStepSnapshot :=
  let st := ss_Params step in
  mkSnapshot
    (mkStep (s_DeploymentID st) (s_StepIndex st) None "Post-deployment verification" "" timeout 0
       "local" (s_CreatedAt st) "bash" BashImage (s_VariableNames st) (s_NetworkMode st)
       (s_ApprovalArtifactPath st) (s_ApprovalReviewPath st) (s_ApprovalReviewFormat st)
       (s_AgentExecutionMode st) (s_Kind st) (s_AnsibleJson st)) [].

Definition snapshotVerification (deployment : Deployment) (steps : list DeploymentStepSnapshot)
    : Tx (list DeploymentStepSnapshot) :=
  if negb (String.eqb (d_Kind deployment) "deployment") then mret steps
  else
    environment ← GetEnvironment (d_EnvironmentID deployment);
    let env := environment.2 in
    if String.eqb (e_VerificationType env) "" then mret steps
    else
      let index := Z.of_nat (length steps) in
      steps ← (if String.eqb (e_VerificationType env) "bash" then
                 match last steps with
                 | None => fail ErrVerificationInvalid
                 | Some step => mret (steps ++ [bash_step (e_VerificationTimeoutSeconds env) step])
                 end
               else mret steps);
      CreateDeploymentVerification (d_ID deployment) (e_VerificationType env) (e_VerificationTarget env)
        (e_VerificationTimeoutSeconds env) index;;
      mret steps.

(** ** Admission of Ansible steps (ansible.go) *)

(** The loop of [ansibleCredentialAvailable] with its two pointers. *)
Fixpoint credential_available (rows : list Variable_) (name : string) (environment : Z)
    (global scoped : option Variable_) : bool :=
  match rows with
  | [] =>
      match (match scoped with Some row => Some row | None => global end) with
      | Some row => negb (Z.eqb (v_Secret row) 0) && negb (Z.eqb (v_IsCredential row) 0)
      | None => false
      end
  | row :: rows =>
      if negb (String.eqb (v_Name row) name) then credential_available rows name environment global scoped
      else
        let global' := match v_EnvironmentID row with None => Some row | Some _ => global end in
        let scoped' := if sql_eq (v_EnvironmentID row) environment then Some row else scoped in
        if Z.eqb environment 0 && negb (Z.eqb (v_Secret row) 0) && negb (Z.eqb (v_IsCredential row) 0)
        then true else credential_available rows name environment global' scoped'
  end.

Definition ansibleCredentialAvailable (rows : list Variable_) (name : string) (environment : Z) : bool :=
  credential_available rows name environment None None.

(** The row made of an inherited definition: only these columns are read. *)
Definition inherited_row (v : LifecycleVariable) : Variable_ :=
  mkVariable 0 0 (lv_Name v) None (lv_EnvironmentID v) 0 (lv_Secret v) (lv_IsCredential v).

Definition ValidateAnsibleCredential (project_id : Z) (name : string) (environment : Z) : Tx unit :=
  project ← GetProject project_id;
  local ← ListVariablesByProject project_id;
  inherited ← inheritedVariables configured project local true;
  let rows := local ++ ((λ row, inherited_row (iv_Variable row))
                <$> filter (λ row, iv_Override row = None) (snd inherited)) in
  guard (ansibleCredentialAvailable rows name environment) ErrInvalidAnsible.

Definition validateAnsibleAdmission (project environment : Z) (steps : list DeploymentStepSnapshot) : Tx unit :=
  for_each steps (λ step,
    if negb (String.eqb (s_Kind (ss_Params step)) "ansible") then mret tt
    else
      config ← lift (DecodeAnsible (s_AnsibleJson (ss_Params step)));
      match config with
      | None => fail ErrInvalidAnsible
      | Some a =>
          if String.eqb (an_Connection a) "local" then mret tt
          else ValidateAnsibleCredential project (an_SSHKeyVariable a) environment
      end).

(** The values a step of the deployment sees: those of its environment before the global ones. *)
Definition captured_map (environment : Z) (variables : list ReleaseVariable) : gmap string ReleaseVariable :=
  let put m v := <[rv_Name v := v]> m in
  foldl put ∅ (filter (λ v, rv_EnvironmentID v = Some environment) variables)
  ∪ foldl put ∅ (filter (λ v, rv_EnvironmentID v = None) variables).

Definition validateAnsibleCapturedStep (step : DeploymentStepSnapshot) (global : gmap string ReleaseVariable)
    : result unit :=
  match DecodeAnsible (s_AnsibleJson (ss_Params step)) with
  | Ok (Some a) =>
      if negb (String.eqb (an_Connection a) "local")
         && match global !! an_SSHKeyVariable a with Some key => Z.eqb (rv_Secret key) 0 | None => true end
      then Err ErrInvalidAnsible
      else each (λ source,
        if IsEnvironmentIdentity source || String.eqb source "ARTIFACT_PATH"
           || String.eqb source StageVariable || String.eqb source ApprovedVariable then Ok tt
        else if is_null (global !! source) then Err ErrInvalidAnsible else Ok tt)
        (snd <$> map_to_list (an_ExtraVars a))
  | _ => Err ErrInvalidAnsible
  end.

Definition is_ansible (step : DeploymentStepSnapshot) : bool := String.eqb (s_Kind (ss_Params step)) "ansible".

Definition validateAnsibleCapturedVariables (deployment : Deployment) (steps : list DeploymentStepSnapshot)
    : Tx unit :=
  if negb (existsb is_ansible steps) then mret tt
  else
    variables ← deploymentVariables configured unmarshal (d_ID deployment);
    let global := captured_map (d_EnvironmentID deployment) variables in
    lift (each (λ step, if is_ansible step then validateAnsibleCapturedStep step global else Ok tt) steps).

(** ** Creation (deployment_insert.go) *)

Definition lockRelease (id : Z) : Tx unit :=
  release ← GetRelease id;
  projects ← LockProject (rel_ProjectID release);
  guard (negb (Z.eqb projects 0)) ErrNoRows;;
  rows ← LockRelease id;
  guard (negb (Z.eqb rows 0)) ErrNoRows.

Definition validateDeploymentArtifactGate (kind : string) (steps : list DeploymentStepSnapshot) : result bool :=
  let gate (step : DeploymentStepSnapshot) := negb (String.eqb (s_ApprovalArtifactPath (ss_Params step)) "") in
  if negb (existsb gate steps) then Ok false
  else if negb (String.eqb kind "deployment") || match last steps with Some step => gate step | None => true end
  then Err ErrGateConfig
  else if existsb (λ step, negb (Z.eqb (s_MaxRetries (ss_Params step)) 0)) steps then Err ErrGateConfig
  else Ok true.

(** The row of the parameters that is inserted: no agent, and [pending] waits in the queue. *)
Definition queued_params (arg : CreateDeploymentParams) : CreateDeploymentParams :=
  let arg := cd_set_AssignedAgentID None arg in
  if String.eqb (cd_Status arg) "pending" then cd_set_Status "queued" arg else arg.

Definition createDeploymentWithSteps (nonce : option bytes) (arg : CreateDeploymentParams)
    (steps : list DeploymentStepSnapshot) (steps_json : string) : Tx Deployment :=
  (if sql_eq (cd_AnsibleCheckMode arg) 1 && negb (existsb is_ansible steps)
   then fail ErrAnsibleCheckMode else mret tt);;
  release ← GetRelease (cd_ReleaseID arg);
  validateAnsibleAdmission (rel_ProjectID release) (cd_EnvironmentID arg) steps;;
  variables ← ListReleaseVariablesByRelease (cd_ReleaseID arg);
  guard (negb (existsb reserved_path variables)) ErrReserved;;
  gated ← lift (validateDeploymentArtifactGate (rel_Kind release) steps);
  deployment ← CreateDeployment (queued_params arg);
  snapshotDeploymentVariables configured marshal nonce deployment;;
  validateAnsibleCapturedVariables deployment steps;;
  (if gated : bool then CreateArtifactGateRun (d_ID deployment) else mret tt);;
  steps ← snapshotVerification deployment steps;
  snapshotDeploymentStepsFromSource (d_ID deployment) steps steps_json;;
  queueAudit (d_ID deployment) "deployment_queue_created";;
  advanceEnvironmentQueue (cd_EnvironmentID arg);;
  GetDeployment (d_ID deployment).

Definition createDeployment (nonce : option bytes) (arg : CreateDeploymentParams) : Tx Deployment :=
  let arg := cd_set_AnsibleCheckMode (Some (default 0 (cd_AnsibleCheckMode arg))) arg in
  LockDeploymentEnvironment (cd_EnvironmentID arg);;
  lockRelease (cd_ReleaseID arg);;
  release ← GetRelease (cd_ReleaseID arg);
  steps ← lift (deploymentStepsFromRelease (rel_StepsJson release));
  result ← createDeploymentWithSteps nonce arg steps "";
  CopyReleaseArtifactToDeployment (d_ID result) (cd_ReleaseID arg);;
  mret result.

(** The frozen source of a deployment; without one, its release's steps. *)
Definition step_source (id release : Z) : Tx string :=
  source ← attempt (GetDeploymentStepSource id);
  match source with
  | Ok json => mret json
  | Err ErrNoRows => release ← GetRelease release; mret (rel_StepsJson release)
  | Err e => fail e
  end.

Definition createDeploymentFromDeployment (nonce : option bytes) (arg : CreateDeploymentParams)
    (source_id : Z) : Tx Deployment :=
  LockDeploymentEnvironment (cd_EnvironmentID arg);;
  lockRelease (cd_ReleaseID arg);;
  source ← GetDeployment source_id;
  unconfirmed ← HasUnconfirmedContainerCleanup (d_ID source);
  guard (Z.eqb unconfirmed 0) ErrContainerCleanupUnconfirmed;;
  guard (Z.eqb (d_ReleaseID source) (cd_ReleaseID arg)) (ErrOther "source deployment release mismatch");;
  let arg := cd_set_AnsibleCheckMode (d_AnsibleCheckMode source) arg in
  json ← step_source source_id (cd_ReleaseID arg);
  steps ← lift (deploymentStepsFromRelease json);
  result ← createDeploymentWithSteps nonce arg steps json;
  CopyDeploymentArtifact (d_ID result) source_id;;
  mret result.

(** ** Idempotency (idempotency.go) *)

Definition Claim (request : ClaimIdempotencyParams) : Tx unit :=
  if String.eqb (ip_KeyHash request) "" then mret tt else ClaimIdempotency request.

Definition Complete (request : ClaimIdempotencyParams) (response : Deployment) : Tx unit :=
  if String.eqb (ip_KeyHash request) "" then mret tt
  else CompleteIdempotency request (deployment_marshal response).

(** [None]: the request was not seen before (or has no key). *)
Definition LookupIdempotency (request : ClaimIdempotencyParams) : Tx (option string) :=
  if String.eqb (ip_KeyHash request) "" then mret None
  else
    row ← attempt (GetIdempotency request);
    match row with
    | Err ErrNoRows => mret None
    | Err e => fail e
    | Ok row =>
        if String.eqb (ik_RequestHash row) (ip_RequestHash request) then mret (Some (ik_ResponseJson row))
        else fail ErrIdempotencyConflict
    end.

(** ** The entry points

    The artifact gates are maintained in a transaction of their own first. The
    result's mode is local: a new deployment has no agent. *)
Definition after_maintenance {A} (body : Tx A) (s : DB) : result A * DB :=
  match MaintainArtifactGates s with
  | (Err e, s1) => (Err e, s1)
  | (Ok _, s1) => withQueueTx body s1
  end.

Definition no_idempotency : ClaimIdempotencyParams := mkIdempotencyParams 0 0 "" "" "".

Definition CreateDeploymentIdempotent (nonce : option bytes) (arg : CreateDeploymentParams)
    (request : ClaimIdempotencyParams) : DB → result Deployment * DB :=
  after_maintenance (
    Claim request;;
    result ← createDeployment nonce arg;
    Complete request result;;
    mret result).

Definition Repository_CreateDeployment (nonce : option bytes) (arg : CreateDeploymentParams)
    : DB → result Deployment * DB :=
  CreateDeploymentIdempotent nonce arg no_idempotency.

Definition CreateDeploymentFromDeployment (nonce : option bytes) (arg : CreateDeploymentParams)
    (source_id : Z) : DB → result Deployment * DB :=
  after_maintenance (createDeploymentFromDeployment nonce arg source_id).

(** ** Rollback (rollback.go) *)

Record RollbackPreview := mkPreview {
  rp_SourceDeploymentID : Z;
  rp_TargetDeploymentID : Z;
  rp_SourceReleaseID : Z;
  rp_TargetReleaseID : Z;
  rp_SourceVersion : string;
  rp_TargetVersion : string;
  rp_ProjectID : Z;
  rp_EnvironmentID : Z;
  rp_EnvironmentName : string;
  rp_RequiresApproval : bool;
  rp_Blocked : bool;
  rp_Reason : string }.

Definition previewRollback (source_id : Z) : Tx RollbackPreview :=
  source ← GetDeployment source_id;
  check ← IsAnsibleCheckDeployment source_id;
  guard (Z.eqb check 0 && String.eqb (d_Kind source) "deployment"
         && (d_Status source ∈? ["succeeded"; "failed"; "cancelled"])) ErrRollbackConflict;;
  release ← GetDeploymentRelease (d_ReleaseID source);
  latest ← GetLatestProjectEnvironmentDeployment (rel_ProjectID release) (d_EnvironmentID source);
  guard (Z.eqb (d_ID latest) (d_ID source)) ErrRollbackConflict;;
  active ← HasActiveProjectEnvironmentDeployment (rel_ProjectID release) (d_EnvironmentID source);
  guard (Z.eqb active 0) ErrRollbackConflict;;
  target ← attempt (GetRollbackTarget source_id);
  match target with
  | Err ErrNoRows => fail ErrNoRollbackTarget
  | Err e => fail e
  | Ok target =>
      targetRelease ← GetDeploymentRelease (d_ReleaseID target);
      project ← GetProject (rel_ProjectID release);
      env ← GetEnvironment (d_EnvironmentID source);
      decision ← CheckAndApproval project targetRelease (d_EnvironmentID source);
      mret (mkPreview (d_ID source) (d_ID target) (rel_ID release) (rel_ID targetRelease)
        (rel_Version release) (rel_Version targetRelease) (prj_ID project) env.1 (e_Name env.2)
        decision.2 decision.1.1 decision.1.2)
  end.

Definition PreviewRollback := previewRollback.

(** The note of the new deployment; the arrow is U+2192. *)
Definition rollback_note (source_id : Z) (preview : RollbackPreview) : string :=
  "Rollback of #" +:+ pretty source_id +:+ ": " +:+ rp_SourceVersion preview +:+ " → " +:+
  rp_TargetVersion preview +:+ " (from successful deployment #" +:+ pretty (rp_TargetDeploymentID preview) +:+ ")".

Definition rollback_params (source_id : Z) (preview : RollbackPreview) : CreateDeploymentParams :=
  mkDeploymentParams (rp_TargetReleaseID preview) (rp_EnvironmentID preview)
    (if rp_RequiresApproval preview then "pending_approval" else "pending") None None 0
    (Some (rollback_note source_id preview)) None None.

Definition createRollback (nonce : option bytes) (source_id expected_target : Z) : Tx Deployment :=
  source ← GetDeployment source_id;
  LockDeploymentEnvironment (d_EnvironmentID source);;
  lockRelease (d_ReleaseID source);;
  preview ← previewRollback source_id;
  guard (Z.eqb expected_target (rp_TargetDeploymentID preview)) ErrRollbackTargetChanged;;
  guard (negb (rp_Blocked preview)) (RollbackGateError (rp_Reason preview));;
  result ← createDeploymentFromDeployment nonce (rollback_params source_id preview)
             (rp_TargetDeploymentID preview);
  CreateDeploymentRollback (d_ID result) source_id (rp_TargetDeploymentID preview)
    (rp_SourceVersion preview) (rp_TargetVersion preview);;
  mret result.

Definition CreateRollback (nonce : option bytes) (source_id expected_target : Z)
    : DB → result Deployment * DB :=
  withQueueTx (createRollback nonce source_id expected_target).
End creation.
