(* ===== verification/StepQueries.v ===== *)
(** * StepQueries: the statements of internal/db/remote_steps.sql.go

    A step of a running deployment is fanned out to every eligible agent as one
    run per agent. Runs are offered ('waiting'), handed out ('claimed'), executed
    ('started', 'cancel_requested') and finished. Here are also the statements on
    an agent's capabilities (agent_capabilities.sql.go and its neighbours), on the
    log sequences of a run, and those that recover runs at start-up. *)
From S2P Require Import Prelude Text Db Tx QueueQueries DispatchQueries.

(** ** The view eligible_remote_step_agents (migrations/060) *)

Definition selectors_met (s : DB) (deployment step : Z) (agent : string) : bool :=
  forallb (λ wanted : Z * Z * string,
    negb (Z.eqb wanted.1.1 deployment && Z.eqb wanted.1.2 step)
    || existsb (λ owned : string * string,
         String.eqb owned.1 agent && String.eqb (ascii_lower owned.2) (ascii_lower wanted.2))
         (elements (st_labels (db_dispatch s))))
    (elements (dt_selectors (db_creation s))).

Definition staging_input (s : DB) (deployment step : Z) : bool :=
  bool_decide ((deployment, step, "") ∈ db_staging s).

Definition eligible_remote_step_agents (s : DB) (deployment step : Z) (agent : string) : bool :=
  match db_steps s !! (deployment, step), db_deployments s !! deployment,
        db_agents s !! agent, db_pairings s !! agent with
  | Some st, Some d, Some a, Some p =>
      String.eqb (a_Status a) "active" && is_null (a_RevokedAt a) && String.eqb (p_State p) "paired"
      && bool_decide ((agent, d_EnvironmentID d) ∈ st_environments (db_dispatch s))
      && step_capability s agent (s_Interpreter st) (s_AgentExecutionMode st)
      && String.eqb (s_ExecutionTarget st) "agent"
      && selectors_met s deployment step agent
      && (negb (staging_input s deployment step) || bool_decide (agent ∈ db_agent_staging s))
      && (is_null (dt_artifacts (db_creation s) !! deployment) || bool_decide (agent ∈ db_agent_artifact s))
  | _, _, _, _ => false
  end.

(** ** Reads *)

Definition run_le (p q : RemoteStepRun) : bool :=
  (r_CreatedAt p <? r_CreatedAt q)
  || ((r_CreatedAt p =? r_CreatedAt q)
      && ((r_DeploymentID p <? r_DeploymentID q)
          || ((r_DeploymentID p =? r_DeploymentID q) && (r_StepIndex p <=? r_StepIndex q)))).

Definition select_runs (s : DB) (where_ : RemoteStepRun → bool) : list RemoteStepRun :=
  filter (λ r, where_ r = true) (snd <$> map_to_list (db_runs s)).

(** A waiting run that the agent may take now. *)
Definition run_claimable (s : DB) (agent : string) (r : RemoteStepRun) : bool :=
  String.eqb (r_AgentID r) agent && String.eqb (r_State r) "waiting"
  && deployment_is s (r_DeploymentID r) (λ d, String.eqb (d_Status d) "running")
  && eligible_remote_step_agents s (r_DeploymentID r) (r_StepIndex r) (r_AgentID r)
  && slot_of_deployment s (r_DeploymentID r)
  && negb (exists_row (db_claims s) (λ c, String.eqb (c_AgentID c) (r_AgentID r)
       && (c_State c ∈? capacity_states)))
  && agent_clean s (r_AgentID r).

(** The deployment and the step of each row. *)
Definition ListWaitingRemoteStepRuns (agent : string) : Tx (list (Z * Z)) := read (λ s,
  (λ r, (r_DeploymentID r, r_StepIndex r)) <$> sort_by run_le (select_runs s (run_claimable s agent))).

Definition ListRemoteStepRuns (deployment step : Z) : Tx (list RemoteStepRun) := read (λ s,
  sort_by (λ p q, string_le (r_AgentID p) (r_AgentID q))
    (select_runs s (λ r, Z.eqb (r_DeploymentID r) deployment && Z.eqb (r_StepIndex r) step))).

(** A run as the local runner sees it: agent, state, start and draining. *)
Record ListRemoteStepRunsForRunnerRow := mkRunnerRow {
  rr_AgentID : string;
  rr_State : string;
  rr_StartedAt : option Z;
  rr_Draining : Z }.

Definition ListRemoteStepRunsForRunner (deployment step : Z) : Tx (list ListRemoteStepRunsForRunnerRow) :=
  read (λ s, omap (λ r, a ← db_agents s !! r_AgentID r;
      Some (mkRunnerRow (r_AgentID r) (r_State r) (r_StartedAt r) (a_Draining a)))
    (sort_by (λ p q, string_le (r_AgentID p) (r_AgentID q))
      (select_runs s (λ r, Z.eqb (r_DeploymentID r) deployment && Z.eqb (r_StepIndex r) step)))).

(** The run that an agent's token names. *)
Definition run_of_claim (deployment : Z) (agent : string) (token : option string) (r : RemoteStepRun) : bool :=
  Z.eqb (r_DeploymentID r) deployment && String.eqb (r_AgentID r) agent
  && sql_eq2 (r_ClaimTokenHash r) token.

Definition LockRemoteStepRun (deployment : Z) (agent : string) (token : option string) : Tx Z :=
  read (λ s, Z.of_nat (length (select_runs s (run_of_claim deployment agent token)))).

Definition GetRemoteStepRunByClaim (deployment : Z) (agent : string) (token : option string)
    : Tx RemoteStepRun := λ s,
  match select_runs s (run_of_claim deployment agent token) with
  | run :: _ => Ok (run, s)
  | [] => Err ErrNoRows
  end.

Definition HasStagingInput (deployment step : Z) : Tx Z :=
  read (λ s, count (staging_input s deployment step)).

(** The row without its checksum and size. *)
Definition GetStagingSnapshot (deployment step : Z) (producer : string) : Tx unit := λ s,
  if bool_decide ((deployment, step, producer) ∈ db_staging s) then Ok (tt, s) else Err ErrNoRows.

(** ** New runs *)

Definition new_run (deployment step : Z) (agent : string) (now : Z) : RemoteStepRun :=
  mkRun deployment step agent "waiting" None None None None None None None now now None 0 None.

Definition add_runs (deployment step now : Z) (agents : list string)
    (t : gmap (Z * Z * string) RemoteStepRun) : gmap (Z * Z * string) RemoteStepRun :=
  foldr (λ agent t, <[(deployment, step, agent) := new_run deployment step agent now]> t) t agents.

Definition CreateRemoteStepRuns (deployment step : Z) : Tx Z := λ s,
  let script := match db_steps s !! (deployment, step) with
                | Some st => String.eqb (s_Kind st) "script" | None => false end in
  if script && deployment_is s deployment (λ d, String.eqb (d_Status d) "running")
     && slot_of_deployment s deployment
  then
    let agents := filter (λ agent, eligible_remote_step_agents s deployment step agent = true
                           ∧ db_runs s !! (deployment, step, agent) = None)
                    (fst <$> map_to_list (db_agents s)) in
    (store_runs (add_runs deployment step (db_now s) agents (db_runs s));;
     mret (Z.of_nat (length agents))) s
  else Ok (0, s).

(** ** Transitions of a run *)

(** An UPDATE of one run by primary key. *)
Definition update_run (deployment step : Z) (agent : string) (where_ : DB → RemoteStepRun → bool)
    (set : DB → RemoteStepRun → RemoteStepRun) : Tx Z := λ s,
  let '(t, n) := update_pk (db_runs s) (deployment, step, agent) (where_ s) (set s) in
  (store_runs t;; mret n) s.

Record ClaimRemoteStepRunParams := mkRunClaimParams {
  rp_ClaimTokenHash : option string;
  rp_Ciphertext : option string;
  rp_ClaimExpiresAt : Z;
  rp_Now : Z;
  rp_DeploymentID : Z;
  rp_StepIndex : Z;
  rp_AgentID : string }.

Definition ClaimRemoteStepRun (arg : ClaimRemoteStepRunParams) : Tx Z :=
  update_run (rp_DeploymentID arg) (rp_StepIndex arg) (rp_AgentID arg)
    (λ s r, String.eqb (r_State r) "waiting"
       && match db_agents s !! r_AgentID r with
          | Some a => String.eqb (a_Status a) "active" && Z.eqb (a_Draining a) 0 | None => false end
       && eligible_remote_step_agents s (r_DeploymentID r) (r_StepIndex r) (r_AgentID r)
       && agent_clean s (r_AgentID r))
    (λ _ r, r_set_State "claimed" (r_set_ClaimTokenHash (rp_ClaimTokenHash arg)
       (r_set_Ciphertext (rp_Ciphertext arg) (r_set_ClaimExpiresAt (Some (rp_ClaimExpiresAt arg))
         (r_set_LastHeartbeatAt (Some (rp_Now arg)) (r_set_UpdatedAt (rp_Now arg) r)))))).

Definition StartRemoteStepRun (now deployment step : Z) (agent : string) (token : option string) : Tx Z :=
  update_run deployment step agent
    (λ s r, sql_eq2 (r_ClaimTokenHash r) token && String.eqb (r_State r) "claimed"
       && sql_gt (r_ClaimExpiresAt r) now && agent_ready s (r_AgentID r))
    (λ _ r, r_set_State "started" (r_set_StartedAt (Some now)
       (r_set_LastHeartbeatAt (Some now) (r_set_UpdatedAt now r)))).

Definition HeartbeatRemoteStepRun (now deployment step : Z) (agent : string) (token : option string) : Tx Z :=
  update_run deployment step agent
    (λ _ r, sql_eq2 (r_ClaimTokenHash r) token && (r_State r ∈? ["started"; "cancel_requested"]))
    (λ _ r, r_set_LastHeartbeatAt (Some now) (r_set_UpdatedAt now r)).

Definition FinishRemoteStepRun (state : string) (now deployment step : Z) (agent : string)
    (token : option string) : Tx Z :=
  update_run deployment step agent
    (λ _ r, sql_eq2 (r_ClaimTokenHash r) token
       && ((r_State r ∈? ["started"; "lost"; "cancel_unconfirmed"])
           || (String.eqb (r_State r) "cancel_requested" && String.eqb state "cleanup_unconfirmed")))
    (λ _ r, r_set_State state (r_set_FinishedAt (Some now) (r_set_UpdatedAt now r))).

Definition AcknowledgeRemoteStepCancellation (now deployment step : Z) (agent : string)
    (token : option string) : Tx Z :=
  update_run deployment step agent
    (λ _ r, sql_eq2 (r_ClaimTokenHash r) token
       && (r_State r ∈? ["cancel_requested"; "cancel_unconfirmed"]))
    (λ _ r, r_set_State "cancelled" (r_set_FinishedAt (Some now) (r_set_UpdatedAt now r))).

Definition UpdateRemoteStepLogBuffer (buffer : option string) (deployment step : Z) (agent : string)
    (token : option string) : Tx Z :=
  update_run deployment step agent
    (λ _ r, sql_eq2 (r_ClaimTokenHash r) token) (λ _ r, r_set_LogBuffer buffer r).

Definition RequestRemoteStepCancellation (now deployment : Z) : Tx Z :=
  update_runs
    (λ _ r, Z.eqb (r_DeploymentID r) deployment && (r_State r ∈? ["waiting"; "claimed"; "started"]))
    (λ _ r, let waiting := String.eqb (r_State r) "waiting" in
       r_set_State (if waiting then "cancelled" else "cancel_requested")
         (r_set_CancelRequestedAt (Some now)
           (r_set_FinishedAt (if waiting then Some now else r_FinishedAt r) (r_set_UpdatedAt now r)))).

Definition ExpireRemoteStepClaims (now : Z) : Tx Z :=
  update_runs
    (λ _ r, String.eqb (r_State r) "claimed" && is_null (r_StartedAt r)
       && sql_le (r_ClaimExpiresAt r) now)
    (λ _ r, r_set_State "waiting" (r_set_ClaimTokenHash None (r_set_Ciphertext None
       (r_set_ClaimExpiresAt None (r_set_LastHeartbeatAt None (r_set_UpdatedAt now r)))))).

Definition ExpireRemoteStepCancellations (now stale_before : Z) : Tx Z :=
  update_runs
    (λ _ r, String.eqb (r_State r) "cancel_requested" && sql_le (r_CancelRequestedAt r) stale_before)
    (λ _ r, r_set_State "cancel_unconfirmed" (r_set_FinishedAt (Some now)
       (r_set_UpdatedAt now (r_set_LogBuffer None r)))).

Definition LoseStaleRemoteStepRuns (now stale_before : Z) : Tx Z :=
  update_runs
    (λ _ r, String.eqb (r_State r) "started" && sql_le (r_LastHeartbeatAt r) stale_before)
    (λ _ r, r_set_State "lost" (r_set_FinishedAt (Some now)
       (r_set_UpdatedAt now (r_set_LogBuffer None r)))).

Definition FailInvalidWaitingRemoteSteps (now deployment : Z) : Tx unit :=
  update_runs
    (λ _ r, Z.eqb (r_DeploymentID r) deployment && String.eqb (r_State r) "waiting")
    (λ _ r, r_set_State "failed" (r_set_FinishedAt (Some now) (r_set_UpdatedAt now r)));;
  mret tt.

Definition FailUnsupportedWaitingRemoteStepRuns (now : Z) (agent : string) : Tx Z :=
  update_runs
    (λ s r, String.eqb (r_AgentID r) agent && String.eqb (r_State r) "waiting"
       && negb (eligible_remote_step_agents s (r_DeploymentID r) (r_StepIndex r) (r_AgentID r)))
    (λ _ r, r_set_State "failed" (r_set_FinishedAt (Some now) (r_set_UpdatedAt now r))).

Definition ConfirmRemoteStepCleanup (now : Z) (agent : string) : Tx unit :=
  update_runs
    (λ _ r, String.eqb (r_AgentID r) agent && String.eqb (r_State r) "cleanup_unconfirmed"
       && is_null (r_CleanupConfirmedAt r))
    (λ _ r, r_set_CleanupConfirmedAt (Some now) r);;
  mret tt.

(** ** The deployments of runs *)

Definition FailInvalidRemoteStepDeployment (now deployment : Z) : Tx unit :=
  update_deployment deployment
    (λ s d, String.eqb (d_Status d) "running" && is_null (d_AssignedAgentID d)
       && negb (run_in s deployment (λ r,
            r_State r ∈? ["waiting"; "claimed"; "started"; "cancel_requested"])))
    (λ _ d, d_set_Status "failed" (d_set_FinishedAt (Some now) d));;
  mret tt.

(** Start-up: what an earlier process of the server left running. *)
Definition local_running (d : Deployment) : bool :=
  (d_Status d ∈? ["running"; "publishing_artifact"]) && is_null (d_AssignedAgentID d).

Definition CancelOrphanedRemoteStepRuns (now : Z) : Tx Z :=
  update_runs
    (λ s r, (r_State r ∈? ["waiting"; "claimed"; "started"; "cancel_requested"])
       && deployment_is s (r_DeploymentID r) (λ d,
            String.eqb (d_Status d) "running" && is_null (d_AssignedAgentID d)))
    (λ _ r, let waiting := String.eqb (r_State r) "waiting" in
       r_set_State (if waiting then "cancelled" else "cancel_requested")
         (r_set_RecoveryCancelled 1
           (r_set_CancelRequestedAt
              (if String.eqb (r_State r) "cancel_requested" then r_CancelRequestedAt r else Some now)
             (r_set_FinishedAt (if waiting then Some now else r_FinishedAt r) (r_set_UpdatedAt now r))))).

Definition MarkUnreconciledLocalDeployments (now : Z) : Tx Z :=
  update_deployments
    (λ s d, local_running d && not_null (d_ContainerNamespace d)
       && (exists_row (db_steps s) (λ st, Z.eqb (s_DeploymentID st) (d_ID d)
             && String.eqb (s_ExecutionTarget st) "local")
           || exists_row (db_verifications s) (λ v, Z.eqb (v_DeploymentID v) (d_ID d)
                && String.eqb (v_Type v) "bash"))
       && negb (run_in s (d_ID d) (λ r, r_State r ∈? ["claimed"; "started"; "cancel_requested"])))
    (λ _ d, d_set_Status "cleanup_unconfirmed"
       (d_set_FinishedAt (Some (default now (d_FinishedAt d))) d)).

Definition FailOrphanedDeployments (now : Z) : Tx Z :=
  update_deployments
    (λ s d, local_running d
       && negb (run_in s (d_ID d) (λ r, String.eqb (r_State r) "cancel_requested")))
    (λ _ d, d_set_Status "failed" (d_set_FinishedAt (Some now) d)).
