(* ===== verification/RemotePayload.v ===== *)
(** * RemotePayload: what an agent is given to execute

    remote_payload_snapshot.go of internal/repository reads everything a payload
    is made of in the claim's transaction; prepared_claim.go and
    poll_capabilities.go of internal/dispatch compare the agent's capabilities
    with the request, select the variables and seal the payload for the agent.
    The agent's module (protocol versions, encoding of a step, sealing),
    encoding/json, encoding/pem and SHA-256 are parameters. *)
From S2P Require Import Prelude Text Db Tx QueueQueries DispatchQueries RemoteLifecycle CreationQueries GateQueries ArtifactGate Base64 Secret Variables Resolution Ansible DeploymentCreation StepQueries.

(** ** Capabilities of an agent *)

Definition of_agent (agent : string) (t : gset (string * string)) : list string :=
  sort_by string_le (snd <$> filter (λ c : string * string, c.1 = agent) (elements t)).

Definition ListAgentInterpreters (agent : string) : Tx (list string) :=
  read (λ s, of_agent agent (db_agent_interpreters s)).
Definition ListAgentExecutionModes (agent : string) : Tx (list string) :=
  read (λ s, of_agent agent (db_agent_execution_modes s)).
Definition ListAgentContainerRuntimes (agent : string) : Tx (list string) :=
  read (λ s, of_agent agent (db_agent_container_runtimes s)).
Definition ListAgentContainerInterpreters (agent : string) : Tx (list string) :=
  read (λ s, of_agent agent (db_agent_container_interpreters s)).

Definition GetDeploymentArtifact (deployment : Z) : Tx Artifact := λ s,
  match dt_artifacts (db_creation s) !! deployment with Some a => Ok (a, s) | None => Err ErrNoRows end.

(** ** The snapshot *)

Record Pin := mkPin { pin_SHA256 : string; pin_Size : Z }.

Record RemotePayloadSnapshot := mkPayloadSnapshot {
  ps_Artifact : option Pin;
  ps_Staging : bool;
  ps_Agent : Agent;
  ps_Deployment : Deployment;
  ps_Release : Release;
  ps_Environment : Environment;
  ps_Steps : list DeploymentStep;
  ps_Variables : list ReleaseVariable;
  ps_HostInterpreters : list string;
  ps_ExecutionModes : list string;
  ps_ContainerRuntimes : list string;
  ps_ContainerInterpreters : list string;
  ps_ResourcePolicy : string }.

(** executor.Step, as far as it is filled in. *)
Record Step := mkExecutorStep {
  xs_Name : string;
  xs_ScriptBody : string;
  xs_Interpreter : string;
  xs_SortOrder : Z;
  xs_TimeoutSeconds : Z;
  xs_MaxRetries : Z;
  xs_ExecutionMode : string;
  xs_ContainerImage : string;
  xs_VariableNames : list string }.

Record VariableSnapshot := mkVariableSnapshot {
  vs_Name : string;
  vs_Value : string;
  vs_Secret : bool }.

Record ReleaseSnapshot := mkReleaseSnapshot {
  rs_Artifact : option Pin;
  rs_Staging : bool;
  rs_ID : Z;
  rs_ProjectID : Z;
  rs_Version : string;
  rs_Steps : list Step }.

Record EnvironmentSnapshot := mkEnvironmentSnapshot {
  es_ID : Z;
  es_Name : string }.

Record Payload := mkPayload {
  py_DeploymentID : Z;
  py_Release : ReleaseSnapshot;
  py_Environment : EnvironmentSnapshot;
  py_Variables : list VariableSnapshot }.

(** The agent's module and the standard library's codecs. *)
Class PayloadLibraries := {
  (** agentartifact.Pin.ValidateWithPolicy *)
  ValidatePin : Pin → result unit;
  AgentV1 : string;
  AgentV3 : string;
  ParseProtocolVersion : string → result string;
  names_unmarshal : string → option (list string);
  (** the type and the bytes of the first PEM block *)
  pem_decode : string → option (string * string);
  (** executor.Step.MarshalForProtocol *)
  MarshalForProtocol : Step → string → result string;
  (** json.Marshal of the payload with its steps already encoded *)
  wire_marshal : Payload → list string → string;
  (** agentpayload.Seal: certificate, deployment, plaintext *)
  payload_seal : string → Z → string → result string;
  (** SHA-256, and base64.RawURLEncoding of the token's random bytes *)
  token_sha256 : string → string;
  RawURLEncoding : bytes → string }.

Section snapshot.
Context `{AgentEnvironment} `{PayloadLibraries} `{Box} (configured : bool).
Context (unmarshal : string → option (list ReleaseVariable)) (limits : ExecutionLimits).

Definition check_payload_step (step : DeploymentStep) : Tx unit :=
  if String.eqb (s_Kind step) "ansible" && String.eqb (s_ExecutionTarget step) "agent"
  then fail (ErrOther "native Ansible execution is unsupported on remote agents")
  else lift (wrap ("step " +:+ quote (s_Name step) +:+ ": ")
               (ValidateLimitsWithPolicy (s_TimeoutSeconds step) (s_MaxRetries step) limits)).

Definition remotePayloadSnapshot (agentID : string) (deploymentID : Z) : Tx RemotePayloadSnapshot :=
  agent ← GetAgent agentID;
  policy ← remoteResourcePolicy agentID;
  host ← ListAgentInterpreters agentID;
  modes ← ListAgentExecutionModes agentID;
  runtimes ← ListAgentContainerRuntimes agentID;
  container ← ListAgentContainerInterpreters agentID;
  deployment ← GetDeployment deploymentID;
  release ← GetRelease (d_ReleaseID deployment);
  environment ← GetEnvironment (d_EnvironmentID deployment);
  steps ← ListDeploymentSteps deploymentID;
  for_each steps check_payload_step;;
  variables ← deploymentVariables configured unmarshal deploymentID;
  packageRow ← attempt (GetDeploymentArtifact deploymentID);
  pin ← match packageRow with
        | Ok row =>
            let pin := mkPin (at_Sha256 row) (at_Size row) in
            lift (wrap "invalid deployment package pin: " (ValidatePin pin));;
            mret (Some pin)
        | Err ErrNoRows => mret None
        | Err e => fail e
        end;
  mret (mkPayloadSnapshot pin false agent deployment release environment.2 steps variables host modes
          runtimes container policy).

(** One step of the deployment; an index out of range is refused. *)
Definition remoteStepPayloadSnapshot (agentID : string) (deploymentID stepIndex : Z)
    : Tx RemotePayloadSnapshot :=
  snapshot ← remotePayloadSnapshot agentID deploymentID;
  match (if stepIndex <? 0 then None else ps_Steps snapshot !! Z.to_nat stepIndex) with
  | None => fail (ErrOther "remote step index is out of range")
  | Some step =>
      stage ← HasStagingInput deploymentID stepIndex;
      mret (mkPayloadSnapshot (ps_Artifact snapshot) (negb (Z.eqb stage 0)) (ps_Agent snapshot)
              (ps_Deployment snapshot) (ps_Release snapshot) (ps_Environment snapshot) [step]
              (ps_Variables snapshot) (ps_HostInterpreters snapshot) (ps_ExecutionModes snapshot)
              (ps_ContainerRuntimes snapshot) (ps_ContainerInterpreters snapshot)
              (ps_ResourcePolicy snapshot))
  end.
End snapshot.

(** ** internal/dispatch: the capabilities of the poll *)

(** dispatch.PollRequest. *)
Record PollRequest := mkPollRequest {
  pq_Protocol : string;
  pq_SupportedInterpreters : list string;
  pq_ExecutionModes : list string;
  pq_ContainerRuntimes : list string;
  pq_ContainerInterpreters : list string;
  pq_Staging : bool;
  pq_Artifact : bool;
  pq_ResourcePolicy : string }.

Definition sameCapabilities (reported stored : list string) : bool :=
  bool_decide (sort_by string_le reported = stored).

Section dispatch.
Context `{AgentProtocol} `{PayloadLibraries}.

Definition pollCapabilitiesMatch (request : PollRequest) (snapshot : RemotePayloadSnapshot) : bool :=
  let stored := default "" (a_AgentProtocol (ps_Agent snapshot)) in
  let protocol := if String.eqb stored "" then AgentV1 else stored in
  let host := if String.eqb (pq_Protocol request) AgentV1 then ["bash"]
              else pq_SupportedInterpreters request in
  let modes := if negb (String.eqb (pq_Protocol request) AgentV3) then [ExecutionHost]
               else pq_ExecutionModes request in
  (negb (ps_Staging snapshot) || pq_Staging request)
  && (is_null (ps_Artifact snapshot) || pq_Artifact request)
  && String.eqb (pq_ResourcePolicy request) (ps_ResourcePolicy snapshot)
  && String.eqb protocol (pq_Protocol request)
  && sameCapabilities host (ps_HostInterpreters snapshot)
  && sameCapabilities modes (ps_ExecutionModes snapshot)
  && sameCapabilities (pq_ContainerRuntimes request) (ps_ContainerRuntimes snapshot)
  && sameCapabilities (pq_ContainerInterpreters request) (ps_ContainerInterpreters snapshot).

(** ** The variables of a payload *)

(** The loop over the steps: [None] when a step may see every variable. *)
Fixpoint selected_names (steps : list DeploymentStep) (selected : gset string)
    : result (option (gset string)) :=
  match steps with
  | [] => Ok (Some selected)
  | step :: steps =>
      if String.eqb (s_VariableNames step) "" then Ok None
      else match names_unmarshal (s_VariableNames step) with
           | None => Err (ErrOther "decode variable allowlist")
           | Some [] => Ok None
           | Some names => selected_names steps (list_to_set names ∪ selected)
           end
  end.

(** The loop over the variables: what is kept, and the names still wanted. *)
Fixpoint select_variables (variables : list ResolvedVariable) (selected : gset string)
    : list ResolvedVariable * gset string :=
  match variables with
  | [] => ([], selected)
  | variable :: variables =>
      if bool_decide (r_Name variable ∈ selected) || IsEnvironmentIdentity (r_Name variable) then
        let '(kept, missing) := select_variables variables (selected ∖ {[r_Name variable]}) in
        (variable :: kept, missing)
      else select_variables variables selected
  end.

Definition selectRemoteVariables (steps : list DeploymentStep) (variables : list ResolvedVariable)
    : result (list ResolvedVariable) :=
  selected ← selected_names steps ∅;
  match selected with
  | None => Ok variables
  | Some selected =>
      let '(kept, missing) := select_variables variables selected in
      if bool_decide (missing = ∅) then Ok kept
      else Err (ErrOther ("selected remote variables are unavailable: "
                  +:+ String.concat ", " (sort_by string_le (elements missing))))
  end.

(** [names] with the identity variables that are missing in it. *)
Definition with_identity (names : list string) (resolved : list ResolvedVariable) : list string :=
  foldl (λ names variable,
    if IsEnvironmentIdentity (r_Name variable) && bool_decide (r_Name variable ∉ names)
    then names ++ [r_Name variable] else names) names resolved.

Definition remoteClaimVariableNames (step : DeploymentStep) (resolved : list ResolvedVariable)
    (protocol : string) : result (list string) :=
  names ← (if String.eqb (s_VariableNames step) "" then Ok []
           else match names_unmarshal (s_VariableNames step) with
                | None => Err (ErrOther "decode step variables")
                | Some names => Ok names
                end);
  let names := match names with [] => [] | _ => with_identity names resolved end in
  if negb (String.eqb protocol AgentV3) && negb (length names =? 0)%nat then
    selected ← selectRemoteVariables [step] resolved;
    if bool_decide (selected = resolved) then Ok [] else Err ErrUnsupportedProtocol
  else Ok names.

(** [containerenv.ValidateEntry] *)
Definition ValidateEntry (name value : string) : result unit :=
  match ValidateIdentifier name with
  | Some _ => Err (ErrEnvironment "invalid execution environment: variable name is not an identifier")
  | None =>
      if free_of Ascii.zero value then Ok tt
      else Err (ErrEnvironment "invalid execution environment: value contains NUL")
  end.

Definition VariableSnapshots (variables : list ResolvedVariable) : list VariableSnapshot :=
  (λ v, mkVariableSnapshot (r_Name v) (r_Value v) (r_Secret v)) <$> variables.

(** The loop over the steps. *)
Fixpoint executor_steps (index : Z) (steps : list DeploymentStep) (resolved : list ResolvedVariable)
    (protocol : string) : result (list Step) :=
  match steps with
  | [] => Ok []
  | step :: steps =>
      names ← remoteClaimVariableNames step resolved protocol;
      rest ← executor_steps (index + 1) steps resolved protocol;
      Ok (mkExecutorStep (s_Name step) (s_ScriptBody step) (s_Interpreter step) (index + 1)
            (s_TimeoutSeconds step) (s_MaxRetries step) (s_AgentExecutionMode step)
            (s_ContainerImage step) names :: rest)
  end.

(** The first part of [prepareRemoteClaim]: the payload, and its protocol. *)
Definition remote_payload (snapshot : RemotePayloadSnapshot) : result (Payload * string) :=
  if not_null (ps_Artifact snapshot) && (negb (ps_Staging snapshot) || negb (length (ps_Steps snapshot) =? 1)%nat)
  then Err ErrUnsupportedProtocol
  else
    resolved ← ResolveDeploymentVariables (ps_Variables snapshot) (ps_Deployment snapshot);
    resolved ← selectRemoteVariables (ps_Steps snapshot) resolved;
    map_result (λ v, ValidateEntry (r_Name v) (r_Value v)) resolved;;
    protocol ← match a_AgentProtocol (ps_Agent snapshot) with
               | Some p => ParseProtocolVersion p | None => Ok AgentV1 end;
    steps ← executor_steps 0 (ps_Steps snapshot) resolved protocol;
    Ok (mkPayload (d_ID (ps_Deployment snapshot))
          (mkReleaseSnapshot (ps_Artifact snapshot) (ps_Staging snapshot) (rel_ID (ps_Release snapshot))
             (rel_ProjectID (ps_Release snapshot)) (rel_Version (ps_Release snapshot)) steps)
          (mkEnvironmentSnapshot (d_EnvironmentID (ps_Deployment snapshot))
             (default "" (d_EnvironmentNameSnapshot (ps_Deployment snapshot))))
          (VariableSnapshots resolved), protocol).

Definition SealForProtocol (payload : Payload) (certificate protocol : string) : result string :=
  steps ← map_result (λ step, MarshalForProtocol step protocol) (rs_Steps (py_Release payload));
  payload_seal certificate (py_DeploymentID payload) (wire_marshal payload steps).

(** [raw]: the random bytes of the token, if the generator does not fail. *)
Definition prepareRemoteClaim (raw : option bytes) (snapshot : RemotePayloadSnapshot)
    : result RemotePreparedClaim :=
  '(payload, protocol) ← remote_payload snapshot;
  match pem_decode (default "" (a_CertificatePem (ps_Agent snapshot))) with
  | Some ("CERTIFICATE", certificate) =>
      ciphertext ← SealForProtocol payload certificate protocol;
      match raw with
      | None => Err (ErrOther "generate claim token")
      | Some raw =>
          let token := RawURLEncoding raw in
          Ok (mkPrepared token (Some (token_sha256 token)) ciphertext)
      end
  | _ => Err (ErrOther "decode agent certificate")
  end.

(** The callback of the poll. *)
Definition poll_prepare (request : PollRequest) (raw : option bytes) (snapshot : RemotePayloadSnapshot)
    : result RemotePreparedClaim :=
  if pollCapabilitiesMatch request snapshot then prepareRemoteClaim raw snapshot
  else Err ErrStaleAgentPoll.
End dispatch.
