(* ===== verification/LogScrub.v ===== *)
(** * LogScrub: redaction of secrets in log text (internal/logscrub/scrubber.go)

    The regular expression engine (regexp, regexp/syntax) is a parameter: the
    combined expression as the list of its matches in a text, a compiled program
    as its instructions. The simulation of a program that finds the text to hold
    back, written in this package, is modelled instruction by instruction. *)
From S2P Require Import Prelude Text.

Definition replacement : string := "[REDACTED]".

(** [s[i:j]] *)
Definition slice_of (i j : nat) (s : string) : string := String.substring i (j - i) s.

(** ** Replacement *)

Section scrubber.
(** [FindAllStringIndex(text, -1)] of the combined expression, when there is one. *)
Context (all : option (string → list (nat * nat))).

(** [ReplaceAllString]: the text between the matches and a marker for each. *)
Fixpoint replace_from (text : string) (cursor : nat) (matches : list (nat * nat)) : string :=
  match matches with
  | [] => slice_of cursor (String.length text) text
  | (a, b) :: rest => slice_of cursor a text +:+ replacement +:+ replace_from text b rest
  end.

Definition Scrub (text : string) : string :=
  match all with
  | None => text
  | Some find => replace_from text 0 (find text)
  end.

(** The loop over the matches for the part [start, stop). *)
Fixpoint scrub_part (joined : string) (start stop cursor : nat) (matches : list (nat * nat)) : string :=
  match matches with
  | [] => if (cursor <? stop)%nat then slice_of cursor stop joined else ""
  | (a, b) :: rest =>
      if (b <=? start)%nat || (stop <=? a)%nat then scrub_part joined start stop cursor rest
      else
        let left := Nat.max a start in
        (if (cursor <? left)%nat then slice_of cursor left joined else "")
        +:+ (if (start <=? a)%nat then replacement else "")
        +:+ scrub_part joined start stop (Nat.min b stop) rest
  end.

Fixpoint scrub_parts (joined : string) (matches : list (nat * nat)) (offset : nat) (parts : list string)
    : list string :=
  match parts with
  | [] => []
  | part :: rest =>
      let stop := (offset + String.length part)%nat in
      scrub_part joined offset stop offset matches :: scrub_parts joined matches stop rest
  end.

Definition ScrubParts (parts : list string) : list string :=
  match all with
  | None => parts
  | Some find =>
      let joined := String.concat "" parts in
      match find joined with [] => parts | matches => scrub_parts joined matches 0 parts end
  end.
End scrubber.

(** ** Programs (regexp/syntax.Prog) *)

Inductive InstOp :=
  | InstAlt | InstAltMatch | InstCapture | InstEmptyWidth | InstMatch | InstFail | InstNop
  | InstRune | InstRune1 | InstRuneAny | InstRuneAnyNotNL.

(** [MatchRune]: the method of the instruction, on runes. *)
Record Inst := mkInst {
  Op : InstOp;
  Out : nat;
  Arg : nat;
  MatchRune : Z → bool }.

Record Program := mkProgram {
  Insts : list Inst;
  Start : nat }.

(** [IsWordChar] and [EmptyOpContext]: the empty-width conditions that hold
    between two runes, a negative one standing for the end of the text. *)
Definition IsWordChar (r : Z) : bool :=
  Z.leb 97 r && Z.leb r 122 || Z.leb 65 r && Z.leb r 90 || Z.leb 48 r && Z.leb r 57 || Z.eqb r 95.

Definition EmptyOpContext (r1 r2 : Z) : Z :=
  let before := if IsWordChar r1 then 0 else if Z.eqb r1 10 then 1 else if Z.ltb r1 0 then 5 else 0 in
  let after := if IsWordChar r2 then 0 else if Z.eqb r2 10 then 2 else if Z.ltb r2 0 then 10 else 0 in
  let word := if xorb (IsWordChar r1) (IsWordChar r2) then 16 else 32 in
  Z.lor (Z.lor before after) word.

(** [utf8.DecodeRuneInString]: the rune and its width; U+FFFD of width 1 for an
    invalid encoding. *)
Definition byte_value (c : Ascii.ascii) : Z := Z.of_nat (Ascii.nat_of_ascii c).

Definition DecodeRune (p : string) : Z * nat :=
  let bad := (65533, 1%nat) in
  match p with
  | EmptyString => (65533, 0%nat)
  | String a p =>
      let va := byte_value a in
      if byte_in 0 127 a then (va, 1%nat) else
      match p with
      | EmptyString => bad
      | String b p =>
          let vb := Z.land (byte_value b) 63 in
          if byte_in 194 223 a then
            if byte_in 128 191 b then (64 * Z.land va 31 + vb, 2%nat) else bad
          else match p with
          | EmptyString => bad
          | String c p =>
              let vc := Z.land (byte_value c) 63 in
              if byte_in 224 239 a then
                if (if byte_in 224 224 a then byte_in 160 191 b
                    else if byte_in 237 237 a then byte_in 128 159 b else byte_in 128 191 b)
                   && byte_in 128 191 c
                then (4096 * Z.land va 15 + 64 * vb + vc, 3%nat) else bad
              else match p with
              | EmptyString => bad
              | String d _ =>
                  if byte_in 240 244 a
                     && (if byte_in 240 240 a then byte_in 144 191 b
                         else if byte_in 244 244 a then byte_in 128 143 b else byte_in 128 191 b)
                     && byte_in 128 191 c && byte_in 128 191 d
                  then (262144 * Z.land va 7 + 4096 * vb + 64 * vc + Z.land (byte_value d) 63, 4%nat)
                  else bad
              end
          end
      end
  end.

(** The runes of a text with their widths; a text has at most as many runes as bytes. *)
Fixpoint runes_from (fuel : nat) (p : string) : list (Z * nat) :=
  match fuel, p with
  | S fuel, String _ _ =>
      let (r, size) := DecodeRune p in
      (r, size) :: runes_from fuel (String.substring size (String.length p - size) p)
  | _, _ => []
  end.
Definition runes (p : string) : list (Z * nat) := runes_from (String.length p) p.

(** ** The simulation *)

Definition recordPatternState (states : gmap nat nat) (pc start : nat) : gmap nat nat :=
  match states !! pc with
  | Some previous => if (start <? previous)%nat then <[pc := start]> states else states
  | None => <[pc := start]> states
  end.

Section simulation.
Context (p : Program).

(** [range m]: the order in which Go iterates over a map. *)
Context (order : gmap nat nat → list (nat * nat)).

Definition empty_width_ok (i : Inst) (previousRune nextRune : Z) (resolveEmpty : bool) : bool :=
  let context := EmptyOpContext previousRune nextRune in
  let required := Z.of_nat (Arg i) in
  negb resolveEmpty || Z.eqb (Z.land context required) required.

(** [None]: an index out of range, or no fuel left. *)
Fixpoint addClosure (fuel : nat) (states : gmap nat nat) (pc start : nat) (previousRune nextRune : Z)
    (resolveEmpty : bool) : option (gmap nat nat) :=
  match fuel with
  | O => None
  | S fuel =>
      if match states !! pc with Some previous => (previous <=? start)%nat | None => false end
      then Some states
      else
        let states := <[pc := start]> states in
        instruction ← Insts p !! pc;
        match Op instruction with
        | InstAlt | InstAltMatch =>
            states ← addClosure fuel states (Out instruction) start previousRune nextRune resolveEmpty;
            addClosure fuel states (Arg instruction) start previousRune nextRune resolveEmpty
        | InstCapture | InstNop =>
            addClosure fuel states (Out instruction) start previousRune nextRune resolveEmpty
        | InstEmptyWidth =>
            if empty_width_ok instruction previousRune nextRune resolveEmpty
            then addClosure fuel states (Out instruction) start previousRune nextRune resolveEmpty
            else Some states
        | _ => Some states
        end
  end.

(** A call marks its state, so a chain of calls visits no state twice. *)
Definition closure_fuel : nat := S (length (Insts p)).

Fixpoint expand (states : gmap nat nat) (raw : list (nat * nat)) (previousRune nextRune : Z)
    (resolveEmpty : bool) : option (gmap nat nat) :=
  match raw with
  | [] => Some states
  | (pc, start) :: raw =>
      states ← addClosure closure_fuel states pc start previousRune nextRune resolveEmpty;
      expand states raw previousRune nextRune resolveEmpty
  end.

Fixpoint advance (next : gmap nat nat) (expanded : list (nat * nat)) (r : Z) : option (gmap nat nat) :=
  match expanded with
  | [] => Some next
  | (pc, start) :: expanded =>
      instruction ← Insts p !! pc;
      advance (if MatchRune instruction r then recordPatternState next (Out instruction) start else next)
        expanded r
  end.

Fixpoint pending_loop (text : list (Z * nat)) (offset : nat) (previousRune : Z) (raw : gmap nat nat)
    : option (gmap nat nat * Z) :=
  match text with
  | [] => Some (raw, previousRune)
  | (r, size) :: text =>
      let raw := recordPatternState raw (Start p) offset in
      expanded ← expand ∅ (order raw) previousRune r true;
      next ← advance ∅ (order expanded) r;
      pending_loop text (offset + size) r next
  end.

(** The instructions that wait for more text. *)
Definition waiting (op : InstOp) : bool :=
  match op with
  | InstRune | InstRune1 | InstRuneAny | InstRuneAnyNotNL | InstEmptyWidth => true
  | _ => false
  end.

Fixpoint longest_waiting (expanded : list (nat * nat)) (length_of_text pending : nat) : option nat :=
  match expanded with
  | [] => Some pending
  | (pc, start) :: expanded =>
      instruction ← Insts p !! pc;
      longest_waiting expanded length_of_text
        (if waiting (Op instruction) then Nat.max pending (length_of_text - start) else pending)
  end.

Definition pendingBytes (text : string) : option nat :=
  ends ← pending_loop (runes text) 0 (-1) ∅;
  expanded ← expand ∅ (order (fst ends)) (snd ends) (-1) false;
  longest_waiting (order expanded) (String.length text) 0.
End simulation.

(** ** The text to hold back *)

(** [text[i:]] *)
Definition suffix_from (i : nat) (text : string) : string := slice_of i (String.length text) text.

(** utf8.FullRuneInString: the text begins with a whole encoding of a rune, an
    invalid one counted as whole. *)
Definition full_rune (p : string) : bool :=
  match p with
  | EmptyString => false
  | String a p =>
      let size := if byte_in 194 223 a then 2%nat else if byte_in 224 239 a then 3%nat
                  else if byte_in 240 244 a then 4%nat else 1%nat in
      if (size <=? S (String.length p))%nat then true
      else match p with
      | EmptyString => false
      | String b p =>
          let accepted :=
            if byte_in 224 224 a then byte_in 160 191 b else if byte_in 237 237 a then byte_in 128 159 b
            else if byte_in 240 240 a then byte_in 144 191 b else if byte_in 244 244 a then byte_in 128 143 b
            else byte_in 128 191 b in
          negb accepted
          || match p with EmptyString => false | String c _ => negb (byte_in 128 191 c) end
      end
  end.

(** The loop of [incompleteUTF8SuffixBytes] over the last three bytes: [back] bytes
    from the end, up to [limit]. [utf8.RuneStart] is no continuation byte. *)
Fixpoint incomplete_from (steps back : nat) (text : string) : nat :=
  match steps with
  | O => 0%nat
  | S steps =>
      let rest := suffix_from (String.length text - back) text in
      match rest with
      | EmptyString => 0%nat
      | String c _ =>
          if byte_in 128 191 c then incomplete_from steps (S back) text
          else if full_rune rest then 0%nat else back
      end
  end.
Definition incompleteUTF8SuffixBytes (text : string) : nat :=
  incomplete_from (Nat.min 3 (String.length text)) 1 text.

(** [for size := limit; size > pending; size--]: the first size that fits. *)
Fixpoint longest_size (fits : nat → bool) (size pending : nat) : nat :=
  match size with
  | O => pending
  | S smaller => if (size <=? pending)%nat then pending
                 else if fits size then size else longest_size fits smaller pending
  end.

Definition HasSuffix (text suffix : string) : bool :=
  (String.length suffix <=? String.length text)%nat
  && String.eqb (suffix_from (String.length text - String.length suffix) text) suffix.

Definition prefix_of (size : nat) (p : string) : string := slice_of 0 size p.

Definition word_byte (c : Ascii.ascii) : bool :=
  byte_in 97 122 c || byte_in 65 90 c || byte_in 48 57 c || byte_in 95 95 c.

(** No word byte before position [start]. *)
Definition word_starts (text : string) (start : nat) : bool :=
  match start with
  | O => true
  | S before => match String.get before text with Some c => negb (word_byte c) | None => true end
  end.

(** [strings.EqualFold] of two texts of the same length, the second one in lower
    case ASCII: a rune outside ASCII is longer than the letter it folds to. *)
Definition hasWordSuffixFold (text suffix : string) : bool :=
  (String.length suffix <=? String.length text)%nat
  && String.eqb (ascii_lower (suffix_from (String.length text - String.length suffix) text)) suffix
  && word_starts text (String.length text - String.length suffix).

(** *** commonPendingPatterns

    Each expression ends with [$], so its match in a text is the longest suffix
    that it describes. *)
Definition white (c : Ascii.ascii) : bool := byte_in 9 10 c || byte_in 12 13 c || byte_in 32 32 c.
Definition alphanumeric (c : Ascii.ascii) : bool := byte_in 48 57 c || byte_in 65 90 c || byte_in 97 122 c.

Definition all_bytes (f : Ascii.ascii → bool) (p : string) : bool :=
  forallb f (String.list_ascii_of_string p).

Fixpoint drop_white (p : string) : string :=
  match p with String c rest => if white c then drop_white rest else p | EmptyString => p end.

Definition after (prefix p : string) (f : string → bool) : bool :=
  match strip_prefix prefix p with Some rest => f rest | None => false end.

(** [Bearer\s+[A-Za-z0-9._~+/-]*$] *)
Definition bearer_tail (p : string) : bool := after "Bearer" p (λ rest,
  match rest with
  | String c _ => white c && all_bytes (λ c, alphanumeric c || byte_in 45 47 c || byte_in 43 43 c
                    || byte_in 95 95 c || byte_in 126 126 c) (drop_white rest)
  | EmptyString => false
  end).

(** [ghp_[A-Za-z0-9]*$], [AKIA[0-9A-Z]{0,15}$] and [xox[bap]-[A-Za-z0-9-]*$] *)
Definition github_tail (p : string) : bool := after "ghp_" p (all_bytes alphanumeric).
Definition aws_tail (p : string) : bool := after "AKIA" p (λ rest,
  all_bytes (λ c, byte_in 48 57 c || byte_in 65 90 c) rest && (String.length rest <=? 15)%nat).
Definition slack_tail (p : string) : bool :=
  existsb (λ prefix, after prefix p (all_bytes (λ c, alphanumeric c || byte_in 45 45 c)))
    ["xoxb-"; "xoxa-"; "xoxp-"].

(** A word in either case: the long s (C5 BF) folds to s and the sign of Kelvin
    (E2 84 AA) to k. *)
Fixpoint strip_fold (word p : string) : option string :=
  match word, p with
  | EmptyString, _ => Some p
  | _, EmptyString => None
  | String w word', String c rest =>
      if Ascii.eqb w c || (byte_in 65 90 c && Nat.eqb (Ascii.nat_of_ascii c + 32) (Ascii.nat_of_ascii w))
      then strip_fold word' rest
      else match rest with
      | String c2 rest2 =>
          if byte_in 115 115 w && byte_in 197 197 c && byte_in 191 191 c2 then strip_fold word' rest2
          else match rest2 with
          | String c3 rest3 =>
              if byte_in 107 107 w && byte_in 226 226 c && byte_in 132 132 c2 && byte_in 170 170 c3
              then strip_fold word' rest3 else None
          | EmptyString => None
          end
      | EmptyString => None
      end
  end.

(** White space, and possibly an equals sign, white space and a value without
    white space and quotes. *)
Definition assigned_tail (p : string) : bool :=
  match drop_white p with
  | EmptyString => true
  | String c rest => byte_in 61 61 c
      && all_bytes (λ c, negb (white c || byte_in 34 34 c || byte_in 39 39 c)) (drop_white rest)
  end.

(** [(?i:\b(password|token|key)...)$], for the suffix that starts at [start]. *)
Definition assignment_tail (text : string) (start : nat) : bool :=
  let p := suffix_from start text in
  xorb (negb (word_starts text start)) (match p with String c _ => word_byte c | EmptyString => false end)
  && existsb (λ word, match strip_fold word p with Some rest => assigned_tail rest | None => false end)
       ["password"; "token"; "key"].

Definition common_tail (text : string) (size : nat) : bool :=
  let start := (String.length text - size)%nat in
  let p := suffix_from start text in
  bearer_tail p || github_tail p || aws_tail p || slack_tail p || assignment_tail text start.

(** *** PendingBytes *)

Record Scrubber := mkScrubber {
  sc_all : option (string → list (nat * nat));
  sc_literals : list string;
  sc_pendingPatterns : list Program }.

(** A match across the boundary is held back from its first byte. *)
Definition extend_to_match (text : string) (pending : nat) (matches : list (nat * nat)) : nat :=
  let boundary := (String.length text - pending)%nat in
  match filter (λ m : nat * nat, (m.1 < boundary)%nat ∧ (boundary < m.2)%nat) matches with
  | m :: _ => (String.length text - m.1)%nat
  | [] => pending
  end.

(** The methods of a pointer that may be nil. *)
Section methods.
Context (order : gmap nat nat → list (nat * nat)) (s : option Scrubber).

Definition Scrubber_Scrub (text : string) : string :=
  match s with Some s => Scrub (sc_all s) text | None => text end.

Definition Scrubber_ScrubParts (parts : list string) : list string :=
  match s with Some s => ScrubParts (sc_all s) parts | None => parts end.

(** A simulation returns for every compiled program ([pending_bytes]). *)
Definition PendingBytes (text : string) : nat :=
  match s with
  | None => 0%nat
  | Some s =>
      if String.eqb text "" then 0%nat
      else
        let len := String.length text in
        let incompleteRune := incompleteUTF8SuffixBytes text in
        let pending := foldl (λ pending literal,
          longest_size (λ size, HasSuffix text (prefix_of size literal))
            (Nat.min len (String.length literal - 1)) pending) incompleteRune (sc_literals s) in
        let pending := foldl (λ pending prefix,
          longest_size (λ size, HasSuffix text (prefix_of size prefix))
            (Nat.min len (String.length prefix)) pending)
          pending ["Bearer"; "ghp_"; "AKIA"; "xoxb-"; "xoxa-"; "xoxp-"] in
        let pending := foldl (λ pending word,
          longest_size (λ size, hasWordSuffixFold text (prefix_of size word))
            (Nat.min len (String.length word)) pending) pending ["password"; "token"; "key"] in
        let pending := longest_size (common_tail text) len pending in
        let pending := foldl (λ pending program,
          let held := default 0%nat (pendingBytes program order (prefix_of (len - incompleteRune) text)) in
          Nat.max pending (if (held =? 0)%nat then 0 else held + incompleteRune)) pending (sc_pendingPatterns s) in
        match sc_all s with
        | Some find => if (pending =? 0)%nat then pending else extend_to_match text pending (find text)
        | None => pending
        end
  end.
End methods.
