(* ===== verification/LogBuffer.v ===== *)
(** * LogBuffer: the log lines an agent sends (internal/repository/remote_log_buffer.go)

    An agent numbers its log events and sends them in batches, which may be
    repeated and reordered. The server publishes them in order, once each, and
    keeps back the tail that may be the beginning of a secret; tail and gaps are
    stored encrypted. encoding/json is a parameter, with the limits of the agent's
    protocol package. Sequences are int64: no addition overflows, since the cursor
    is compared with its bound before it is advanced. *)
From S2P Require Import Prelude Text Base64 Secret Variables LogScrub.

Record RemoteLogEvent := mkEvent {
  le_Sequence : Z;
  le_Line : string }.

(** remoteLogBuffer with its two lists of events. *)
Record remoteLogBuffer := mkBuffer {
  lb_Version : Z;
  lb_ReceivedThrough : Z;
  lb_Suppressed : bool;
  lb_Tail : list RemoteLogEvent;
  lb_Gaps : list RemoteLogEvent }.

(** The protocol's limits, and encoding/json on the types of the buffer. A raw
    message is its text. *)
Class LogProtocol := {
  MaxLogEvents : Z;
  MaxLogBatchBytes : Z;
  buffer_marshal : remoteLogBuffer → string;
  buffer_unmarshal : string → option remoteLogBuffer;
  (** the version, when there is one, and the raw events *)
  envelope_unmarshal : string → option (option Z * string);
  fields_unmarshal : string → option (gmap string string);
  events_unmarshal : string → option (list RemoteLogEvent) }.

(** ** Admission *)

(** The loop of [remoteLogEventsFit] over the lines, with the bytes that remain. *)
Fixpoint lines_fit (remaining : Z) (events : list RemoteLogEvent) : bool :=
  match events with
  | [] => true
  | event :: events =>
      let size := Z.of_nat (String.length (le_Line event)) in
      if remaining <? size then false else lines_fit (remaining - size) events
  end.

(** The entries of [bySequence] in the order of their sequences. *)
Definition event_le (a b : Z * RemoteLogEvent) : bool := a.1 <=? b.1.

Definition admit_event (received : Z) (m : gmap Z RemoteLogEvent) (event : RemoteLogEvent)
    : gmap Z RemoteLogEvent :=
  if le_Sequence event <=? received then m
  else match m !! le_Sequence event with
       | Some _ => m
       | None => <[le_Sequence event := event]> m
       end.

Definition by_sequence (state : remoteLogBuffer) (incoming : list RemoteLogEvent) : gmap Z RemoteLogEvent :=
  foldl (admit_event (lb_ReceivedThrough state))
    (foldl (λ m event, <[le_Sequence event := event]> m) ∅ (lb_Gaps state)) incoming.

(** The sequence that comes after [cursor]: a stream starts at 0 or at 1. *)
Definition expected_sequence (cursor sequence : Z) : Z :=
  if Z.eqb cursor (-1) && negb (Z.eqb sequence 0) then 1 else cursor + 1.

Fixpoint contiguousEventCount (events : list RemoteLogEvent) (cursor : Z) : nat :=
  match events with
  | [] => 0%nat
  | event :: events =>
      if Z.eqb cursor MaxInt64 then 0%nat
      else if Z.eqb (le_Sequence event) (expected_sequence cursor (le_Sequence event))
      then S (contiguousEventCount events (le_Sequence event)) else 0%nat
  end.

Section buffer.
Context `{LogProtocol}.

Definition remoteLogEventsFit (events : list RemoteLogEvent) : bool :=
  negb (MaxLogEvents <? Z.of_nat (length events)) && lines_fit MaxLogBatchBytes events.

Definition validateRemoteLogGaps (gaps : list RemoteLogEvent) (cursor : Z) : result unit :=
  if negb (remoteLogEventsFit gaps) then Err ErrRemoteLifecycleConflict
  else match last gaps with
       | None => Ok tt
       | Some event =>
           let expected := if Z.eqb cursor (-1) then 1 else cursor + 1 in
           if MaxLogEvents <=? le_Sequence event - expected then Err ErrRemoteLifecycleConflict else Ok tt
       end.

Definition admitRemoteLogEvents (state : remoteLogBuffer) (incoming : list RemoteLogEvent)
    : result (list RemoteLogEvent * list RemoteLogEvent * Z) :=
  if negb (remoteLogEventsFit incoming) then Err ErrRemoteLifecycleConflict
  else if existsb (λ event, le_Sequence event <? 0) incoming then Err ErrInvalidRemoteLog
  else
    let merged := snd <$> sort_by event_le (map_to_list (by_sequence state incoming)) in
    let count := contiguousEventCount merged (lb_ReceivedThrough state) in
    let cursor := match last (take count merged) with
                  | Some event => le_Sequence event | None => lb_ReceivedThrough state end in
    let gaps := drop count merged in
    validateRemoteLogGaps gaps cursor;;
    Ok (take count merged, gaps, cursor).

(** ** Publishing *)

(** The loop of [readyEventCount]: the events within the [safe] bytes. *)
Fixpoint ready_within (events : list RemoteLogEvent) (consumed safe : Z) : nat :=
  match events with
  | [] => 0%nat
  | event :: events =>
      let consumed := consumed + Z.of_nat (String.length (le_Line event)) in
      if safe <? consumed then 0%nat else S (ready_within events consumed safe)
  end.

Definition total_bytes (events : list RemoteLogEvent) : Z :=
  Z.of_nat (sum_list_with (λ event, String.length (le_Line event)) events).

Definition readyEventCount (events : list RemoteLogEvent) (holdBytes : nat) : nat :=
  let safe := total_bytes events - Z.of_nat holdBytes in
  if safe <=? 0 then 0%nat else ready_within events 0 safe.

Definition with_line (event : RemoteLogEvent) (line : string) : RemoteLogEvent :=
  mkEvent (le_Sequence event) line.

Section publish.
Context (order : gmap nat nat → list (nat * nat)) (scrubber : option Scrubber).

Definition scrubRemoteLogEvents (events : list RemoteLogEvent) : list RemoteLogEvent :=
  zip_with (λ event part, with_line event (Scrubber_Scrub scrubber part)) events
    (Scrubber_ScrubParts scrubber (le_Line <$> events)).

Definition suppress (events : list RemoteLogEvent) : list RemoteLogEvent :=
  (λ event, with_line event "[REDACTED]") <$> events.

Definition fresh_buffer (lastSequence : Z) : remoteLogBuffer := mkBuffer 2 lastSequence false [] [].

(** The events to publish and the buffer to store. *)
Definition prepareRemoteLogEvents (pending : option remoteLogBuffer) (incoming : list RemoteLogEvent)
    (lastSequence : Z) (flush : bool) : result (list RemoteLogEvent * option remoteLogBuffer) :=
  let pending := default (fresh_buffer lastSequence) pending in
  '(contiguous, gaps, cursor) ← admitRemoteLogEvents pending incoming;
  let merged := lb_Tail pending ++ contiguous ++ (if flush then gaps else []) in
  let gaps := if flush then [] else gaps in
  let readyCount :=
    if negb flush && negb (lb_Suppressed pending)
    then readyEventCount merged (PendingBytes order scrubber (String.concat "" (le_Line <$> merged)))
    else length merged in
  let tail := drop readyCount merged in
  let fits := remoteLogEventsFit (tail ++ gaps) in
  let suppressed := lb_Suppressed pending || negb fits in
  let ready := if fits then take readyCount merged else merged in
  let state := mkBuffer 2 cursor suppressed (if fits then tail else []) gaps in
  let published := if suppressed then suppress ready else scrubRemoteLogEvents ready in
  Ok (published, if flush then None else Some state).
End publish.

(** ** Stored buffers *)

(** The loop of [validRemoteLogTail]: the last sequence of the tail. *)
Fixpoint tail_through (received previous : Z) (tail : list RemoteLogEvent) : option Z :=
  match tail with
  | [] => Some previous
  | event :: tail =>
      let sequence := le_Sequence event in
      if (sequence <? 0) || (sequence <=? previous) || (received <? sequence)
         || (negb (Z.eqb (sequence - previous) 1) && (negb (Z.eqb previous (-1)) || negb (Z.eqb sequence 1)))
      then None else tail_through received sequence tail
  end.

Definition validRemoteLogTail (state : remoteLogBuffer) (published : Z) : bool :=
  match tail_through (lb_ReceivedThrough state) published (lb_Tail state) with
  | Some previous => Z.eqb previous (lb_ReceivedThrough state)
  | None => false
  end.

Fixpoint gaps_increase (previous : Z) (gaps : list RemoteLogEvent) : bool :=
  match gaps with
  | [] => true
  | event :: gaps =>
      negb ((le_Sequence event <? 0) || (le_Sequence event <=? previous))
      && gaps_increase (le_Sequence event) gaps
  end.

Definition validateRemoteLogState (state : remoteLogBuffer) (published : Z) : result unit :=
  if negb (Z.eqb (lb_Version state) 2) || (lb_ReceivedThrough state <? -1)
     || (lb_ReceivedThrough state <? published)
     || (lb_Suppressed state && negb (length (lb_Tail state) =? 0)%nat)
     || negb (remoteLogEventsFit (lb_Tail state ++ lb_Gaps state))
     || negb (validRemoteLogTail state published)
     || negb (gaps_increase (lb_ReceivedThrough state) (lb_Gaps state))
  then Err ErrInvalidRemoteLog
  else match admitRemoteLogEvents state [] with
       | Ok ([], _, _) => Ok tt
       | _ => Err ErrInvalidRemoteLog
       end.

Definition field_present (fields : gmap string string) (name : string) : bool :=
  negb (String.eqb (default "" (fields !! name)) "").

Definition validateRemoteLogFields (fields : gmap string string) : result unit :=
  if existsb (λ name, negb (field_present fields name) || String.eqb (default "" (fields !! name)) "null")
       ["version"; "received_through"; "suppressed"; "events"]
  then Err ErrInvalidRemoteLog
  else match fields_unmarshal (default "" (fields !! "events")) with
       | None => Err (ErrOther "json")
       | Some events => if field_present events "tail" && field_present events "gaps" then Ok tt
                        else Err ErrInvalidRemoteLog
       end.

Definition decodeLegacyRemoteLogBuffer (raw : string) (lastSequence : Z) : result remoteLogBuffer :=
  if String.eqb raw "" || String.eqb raw "null" then Err ErrInvalidRemoteLog
  else match events_unmarshal raw with
       | None => Err (ErrOther "json")
       | Some events =>
           '(contiguous, gaps, cursor) ← admitRemoteLogEvents (fresh_buffer lastSequence) events;
           Ok (mkBuffer 2 cursor false contiguous gaps)
       end.

Definition decode_state (plaintext : string) (lastSequence : Z) : result remoteLogBuffer :=
  match envelope_unmarshal plaintext, fields_unmarshal plaintext with
  | Some (version, events), Some fields =>
      if not_null (fields !! "version") && is_null version then Err ErrInvalidRemoteLog
      else if is_null version then decodeLegacyRemoteLogBuffer events lastSequence
      else match buffer_unmarshal plaintext with
           | None => Err (ErrOther "json")
           | Some state => validateRemoteLogFields fields;; validateRemoteLogState state lastSequence;; Ok state
           end
  | _, _ => Err (ErrOther "json")
  end.

Section stored.
Context `{Box} (configured : bool).

Definition decodeRemoteLogBuffer (value : option string) (lastSequence : Z) : result (option remoteLogBuffer) :=
  match value with
  | None => Ok None
  | Some text =>
      if String.eqb text "" then Ok None
      else
        plaintext ← decryptValue configured value;
        state ← decode_state (default "" plaintext) lastSequence; Ok (Some state)
  end.

Definition encodeRemoteLogBuffer (nonce : option bytes) (state : option remoteLogBuffer)
    : result (option string) :=
  match state with
  | None => Ok None
  | Some state => encryptValue configured nonce (Some (buffer_marshal state))
  end.
End stored.
End buffer.
