(* ===== verification/RemoteSteps.v ===== *)
(** * RemoteSteps: steps that agents execute for a deployment that runs locally

    remote_step_dispatch.go, remote_step_start.go, remote_step_heartbeat.go and
    remote_step_execution.go of internal/repository, Maintain of
    internal/dispatch/dispatcher.go, the polling of internal/dispatch, and the
    recovery at start-up (recoverPendingDeployments of cmd/server/main.go). A
    function that answers [handled = false] leaves the call to the lifecycle of
    remote deployments: the token is not one of a run. *)
From S2P Require Import Prelude Text Db Tx QueueQueries DeploymentQueue DispatchQueries RemoteLifecycle CreationQueries GateQueries ArtifactGate Base64 Secret Variables Resolution Ansible DeploymentCreation StepQueries RemotePayload LogScrub.

(** ** Dispatch *)

(** What an agent offers a run for: its deployment and step. *)
Definition same_candidate (waiting : list (Z * Z)) (candidate : Z * Z) : bool :=
  match waiting with first :: _ => bool_decide (first = candidate) | [] => false end.

Section dispatch.
Context `{AgentEnvironment}.

(** [validateQueuedRemotePolicies]: the loop over the runs. *)
Definition check_run_policy (run : RemoteStepRun) : Tx unit :=
  if String.eqb (r_State run) "waiting" then remoteResourcePolicy (r_AgentID run);; mret tt else mret tt.

Definition validateQueuedRemotePolicies (deploymentID stepIndex : Z) : Tx unit :=
  runs ← ListRemoteStepRuns deploymentID stepIndex;
  for_each runs check_run_policy.

Definition queueRemoteStepRuns (deploymentID stepIndex : Z) : Tx Z :=
  d ← GetDeployment deploymentID;
  advanceEnvironmentQueue (d_EnvironmentID d);;
  created ← CreateRemoteStepRuns deploymentID stepIndex;
  validateQueuedRemotePolicies deploymentID stepIndex;;
  mret created.

Definition QueueRemoteStepRuns (deploymentID stepIndex : Z) : DB → result Z * DB :=
  WithDeploymentTx deploymentID (queueRemoteStepRuns deploymentID stepIndex).

Definition failInvalidRemoteSteps (deploymentID : Z) (message : string) : Tx unit :=
  log_line deploymentID message;;
  now ← CurrentUnixTime;
  FailInvalidWaitingRemoteSteps now deploymentID;;
  FailInvalidRemoteStepDeployment now deploymentID.

Section payload.
Context `{PayloadLibraries} `{Box} (configured : bool).
Context (unmarshal : string → option (list ReleaseVariable)) (limits : ExecutionLimits).
Context (prepare : RemotePayloadSnapshot → result RemotePreparedClaim).

(** From the snapshot on: refuse the payload, or hand the run out. *)
Definition prepare_and_claim_step (agentID : string) (candidate : Z * Z) : Tx (option RemoteClaim) :=
  snapshot ← attempt (remoteStepPayloadSnapshot configured unmarshal limits agentID candidate.1 candidate.2);
  match snapshot with
  | Err (ErrLimits message) => failInvalidRemoteSteps candidate.1 message;; mret None
  | Err e => fail e
  | Ok snapshot =>
      match prepare snapshot with
      | Err (ErrEnvironment message) => failInvalidRemoteSteps candidate.1 message;; mret None
      | Err e => fail e
      | Ok prepared =>
          now ← CurrentUnixTime;
          changed ← ClaimRemoteStepRun
            (mkRunClaimParams (pc_TokenHash prepared) (Some (pc_Ciphertext prepared))
               (now + PreStartClaimTimeout) now candidate.1 candidate.2 agentID);
          if Z.eqb changed 0 then mret None
          else mret (Some (mkRemoteClaim candidate.1 (pc_Token prepared) (pc_Ciphertext prepared)))
      end
  end.

Definition claimRemoteStepPayload (agentID : string) (candidate : Z * Z) : Tx (option RemoteClaim) :=
  locked ← LockClaimAgent agentID;
  if Z.eqb locked 0 then mret None
  else
    agent ← GetAgent agentID;
    if negb (Z.eqb (a_Draining agent) 0) then mret None
    else
      waiting ← ListWaitingRemoteStepRuns agentID;
      if same_candidate waiting candidate then prepare_and_claim_step agentID candidate
      else mret None.

(** One attempt: the candidate is read before the transaction and again inside it. *)
Definition ClaimRemoteStepPayload (agentID : string) (s : DB) : result (option RemoteClaim) * DB :=
  match ListWaitingRemoteStepRuns agentID s with
  | Ok (candidate :: _, _) => WithDeploymentTx candidate.1 (claimRemoteStepPayload agentID candidate) s
  | Ok ([], _) => (Ok None, s)
  | Err e => (Err e, s)
  end.

(** Dispatcher.claim: a step first, then a deployment. *)
Definition claim (agentID : string) (s : DB) : result (option RemoteClaim) * DB :=
  match ClaimRemoteStepPayload agentID s with
  | (Ok None, s') =>
      ClaimRemoteDeploymentPayload
        (λ agent id s, match remotePayloadSnapshot configured unmarshal limits agent id s with
                       | Ok (snapshot, _) => Ok snapshot | Err e => Err e end) prepare agentID s'
  | r => r
  end.
End payload.
End dispatch.

(** ** The run that a call is about *)

Definition remoteStepRun (identity : RemoteLifecycleClaim) : Tx RemoteStepRun :=
  locked ← LockRemoteStepRun (il_DeploymentID identity) (il_AgentID identity) (il_ClaimTokenHash identity);
  guard (Z.eqb locked 1) ErrNoRows;;
  GetRemoteStepRunByClaim (il_DeploymentID identity) (il_AgentID identity) (il_ClaimTokenHash identity).

(** [errors.Is(err, sql.ErrNoRows)]: not handled. *)
Definition with_run {A} (identity : RemoteLifecycleClaim) (unhandled : A) (body : RemoteStepRun → Tx A) : Tx A :=
  run ← attempt (remoteStepRun identity);
  match run with
  | Ok run => body run
  | Err ErrNoRows => mret unhandled
  | Err e => fail e
  end.

(** ** Heartbeats *)

(** The answer: whether the agent is to cancel, and whether the call was handled. *)
Definition heartbeatRemoteStep (identity : RemoteLifecycleClaim) : Tx (bool * bool) :=
  with_run identity (false, false) (λ run,
    guard (r_State run ∈? ["started"; "cancel_requested"]) ErrRemoteLifecycleConflict;;
    now ← CurrentUnixTime;
    one_row (HeartbeatRemoteStepRun now (r_DeploymentID run) (r_StepIndex run) (r_AgentID run)
               (il_ClaimTokenHash identity));;
    one_row (TouchAgentHeartbeat now (il_AgentID identity));;
    mret (String.eqb (r_State run) "cancel_requested", true)).

Definition HeartbeatRemoteStep (identity : RemoteLifecycleClaim) : DB → result (bool * bool) * DB :=
  WithTx (heartbeatRemoteStep identity).

(** ** Start *)

Definition withDeploymentLogTx {A} (id : Z) (fn : Tx A) : DB → result A * DB :=
  WithTx (locked ← LockDeploymentLogStream id; guard (Z.eqb locked 1) ErrNoRows;; fn).

(** [strings.ReplaceAll] of NUL by a visible escape. *)
Fixpoint escape_nul (text : string) : string :=
  match text with
  | EmptyString => EmptyString
  | String c rest =>
      if Ascii.eqb c Ascii.zero then "\0" +:+ escape_nul rest else String c (escape_nul rest)
  end.

(** The loop of [remoteStepLogName] over the runes: the bytes within the UTF-16 units. *)
Fixpoint label_bytes (remaining : Z) (characters : list (Z * nat)) : nat :=
  match characters with
  | [] => 0%nat
  | (character, width) :: characters =>
      let remaining := remaining - (if 65535 <? character then 2 else 1) in
      if remaining <? 0 then 0%nat else (width + label_bytes remaining characters)%nat
  end.

Definition remoteStepLogName (name agentID : string) (scrubber : option Scrubber) : string :=
  let label := Scrubber_Scrub scrubber (name +:+ " @ " +:+ agentID) in
  let label := Scrubber_Scrub scrubber (escape_nul label) in
  prefix_of (label_bytes 255 (runes label)) label.

Section start.
Context `{AgentEnvironment}.

Definition startRemoteStep (identity : RemoteLifecycleClaim) (scrubber : option Scrubber)
    : Tx (list DeploymentLog * bool) :=
  with_run identity ([], false) (λ run,
    if r_State run ∈? ["started"; "cancel_requested"] then mret ([], true)
    else
      now ← CurrentUnixTime;
      one_row (StartRemoteStepRun now (r_DeploymentID run) (r_StepIndex run) (r_AgentID run)
                 (il_ClaimTokenHash identity));;
      agent ← GetAgent (r_AgentID run);
      steps ← ListDeploymentSteps (r_DeploymentID run);
      match (if r_StepIndex run <? 0 then None else steps !! Z.to_nat (r_StepIndex run)) with
      | None => fail ErrRemoteLifecycleConflict
      | Some step =>
          log ← CreateStepDeploymentLog (r_DeploymentID run)
            (Some (remoteStepLogName (s_Name step) (r_AgentID run) scrubber))
            (Scrubber_Scrub scrubber ("Execution agent: agent="
               +:+ quote (Scrubber_Scrub scrubber (a_Name agent)) +:+ " id=" +:+ quote (r_AgentID run)))
            (Some (r_StepIndex run)) None;
          mret ([log], true)
      end).

Definition StartRemoteStep (identity : RemoteLifecycleClaim) (scrubber : option Scrubber)
    : DB → result (list DeploymentLog * bool) * DB :=
  withDeploymentLogTx (il_DeploymentID identity) (startRemoteStep identity scrubber).
End start.

(** ** Outcomes *)

Definition finish_states : list string := ["succeeded"; "failed"; "cleanup_unconfirmed"].

(** [true]: handled. *)
Definition finishRemoteStep (identity : RemoteLifecycleClaim) (state : string) : Tx bool :=
  with_run identity false (λ run,
    if String.eqb (r_State run) state then mret true
    else
      (if String.eqb state "succeeded" then
         stage ← HasStagingInput (r_DeploymentID run) (r_StepIndex run);
         if negb (Z.eqb stage 0) then
           output ← attempt (GetStagingSnapshot (r_DeploymentID run) (r_StepIndex run) (r_AgentID run));
           match output with Ok _ => mret tt | Err _ => fail ErrRemoteLifecycleConflict end
         else mret tt
       else mret tt);;
      guard (state ∈? finish_states) ErrRemoteLifecycleConflict;;
      now ← CurrentUnixTime;
      one_row (FinishRemoteStepRun state now (r_DeploymentID run) (r_StepIndex run) (r_AgentID run)
                 (il_ClaimTokenHash identity));;
      mret true).

Definition FinishRemoteStep (identity : RemoteLifecycleClaim) (state : string) : DB → result bool * DB :=
  WithDeploymentTx (il_DeploymentID identity) (finishRemoteStep identity state).

(** The answer: changed, handled. *)
Definition acknowledgeRemoteStepCancellation (identity : RemoteLifecycleClaim) : Tx (bool * bool) :=
  with_run identity (false, false) (λ run,
    if String.eqb (r_State run) "cancelled" then mret (false, true)
    else
      now ← CurrentUnixTime;
      one_row (AcknowledgeRemoteStepCancellation now (r_DeploymentID run) (r_StepIndex run)
                 (r_AgentID run) (il_ClaimTokenHash identity));;
      mret (true, true)).

Definition Repository_AcknowledgeRemoteStepCancellation (identity : RemoteLifecycleClaim)
    : DB → result (bool * bool) * DB :=
  WithDeploymentTx (il_DeploymentID identity) (acknowledgeRemoteStepCancellation identity).

(** ** Maintenance *)

Definition ExpireAgentPairings (now : Z) : Tx unit := write (λ s,
  set_pairings (update_where (db_pairings s)
    (λ p, String.eqb (p_State p) "pending" && (p_ExpiresAt p <=? now))
    (λ p, p_set_State "expired" (p_set_UpdatedAt now p))).1 s).

Section maintenance.
Context `{AgentEnvironment}.

(** The first transaction of Dispatcher.Maintain. *)
Definition maintain_dispatch : Tx unit :=
  now ← CurrentUnixTime;
  ExpireAgentPairings now;;
  ExpireRemoteStepClaims now;;
  ExpireRemoteStepCancellations now (now - CancelAcknowledgementTimeout);;
  LoseStaleRemoteStepRuns now (now - LostThreshold);;
  FailDeploymentsWithTerminalRemoteStepRuns now;;
  ReconcileTerminalVerifications.

Definition Maintain (s : DB) : result unit * DB :=
  match WithQueueMaintenanceTx maintain_dispatch s with
  | (Ok _, s') => MaintainRemoteLifecycle s'
  | (Err e, s') => (Err e, s')
  end.
End maintenance.

(** ** Start-up *)

Definition recover_orphans : Tx Z :=
  now ← CurrentUnixTime;
  CancelOrphanedRemoteStepRuns now;;
  MarkUnreconciledLocalDeployments now;;
  failed ← FailOrphanedDeployments now;
  CancelTerminalArtifactGates;;
  ReconcileTerminalVerifications;;
  mret failed.

(** recoverPendingDeployments up to the runners it launches again: an error of
    the first transaction is logged only. *)
Definition recoverPendingDeployments (s : DB) : result unit * DB :=
  ReconcileDeploymentQueues (WithQueueMaintenanceTx recover_orphans s).2.
