(* ===== verification/AgentPoll.v ===== *)
(** * AgentPoll: what an agent reports when it polls

    agent_poll.go, agent_poll_compare.go and agent_poll_transfer.go of
    internal/repository with the statements they use (agent_capabilities.sql.go
    and its neighbours): the reported capabilities replace the stored ones,
    finished clean-up is confirmed, and waiting work that the agent can no longer
    execute fails. *)
From S2P Require Import Prelude Text Db Tx QueueQueries DeploymentQueue DispatchQueries RemoteLifecycle CreationQueries GateQueries ArtifactGate Base64 Secret Variables Resolution Ansible DeploymentCreation StepQueries RemotePayload.

(** ** Statements *)

Record HeartbeatAgentParams := mkHeartbeat {
  hp_Now : Z;
  hp_AgentVersion : option string;
  hp_ID : string;
  hp_CertificateFingerprint : option string }.

Definition HeartbeatAgent (arg : HeartbeatAgentParams) : Tx Z :=
  update_agent (hp_ID arg)
    (λ s a, sql_eq2 (a_CertificateFingerprint a) (hp_CertificateFingerprint arg)
       && String.eqb (a_Status a) "active"
       && (is_null (a_LastHeartbeatAt a) || sql_le (a_LastHeartbeatAt a) (hp_Now arg))
       && match db_pairings s !! hp_ID arg with Some p => String.eqb (p_State p) "paired" | None => false end)
    (λ _ a, a_set_LastHeartbeatAt (Some (hp_Now arg)) (a_set_AgentVersion (hp_AgentVersion arg)
       (a_set_UpdatedAt (hp_Now arg) a))).

Definition SetAgentProtocol (protocol : option string) (id : string) : Tx unit :=
  update_agent id (λ _ a, String.eqb (a_Status a) "active") (λ _ a, a_set_AgentProtocol protocol a);;
  mret tt.

(** INSERT into a capability table: its CHECK, its primary key, the agent. *)
Definition add_capability (get : DB → gset (string * string)) (set : gset (string * string) → DB → DB)
    (allowed : list string) (agent value : string) : Tx unit :=
  s ← read (λ s, s);
  guard ((value ∈? allowed) && negb (bool_decide ((agent, value) ∈ get s))
         && not_null (db_agents s !! agent)) ErrConstraint;;
  write (λ s, set ({[(agent, value)]} ∪ get s) s).

Definition clear_capabilities (get : DB → gset (string * string)) (set : gset (string * string) → DB → DB)
    (agent : string) : Tx unit :=
  write (λ s, set (filter (λ c : string * string, c.1 ≠ agent) (get s)) s).

Definition interpreters : list string := ["bash"; "pwsh"; "python3"].

Definition AddAgentInterpreter := add_capability db_agent_interpreters set_agent_interpreters interpreters.
Definition AddAgentExecutionMode :=
  add_capability db_agent_execution_modes set_agent_execution_modes ["host"; "container"].
Definition AddAgentContainerRuntime :=
  add_capability db_agent_container_runtimes set_agent_container_runtimes ["docker"; "podman"].
Definition AddAgentContainerInterpreter :=
  add_capability db_agent_container_interpreters set_agent_container_interpreters interpreters.

Definition DeleteAgentInterpreters := clear_capabilities db_agent_interpreters set_agent_interpreters.
Definition DeleteAgentExecutionModes := clear_capabilities db_agent_execution_modes set_agent_execution_modes.
Definition DeleteAgentContainerRuntimes :=
  clear_capabilities db_agent_container_runtimes set_agent_container_runtimes.
Definition DeleteAgentContainerInterpreters :=
  clear_capabilities db_agent_container_interpreters set_agent_container_interpreters.

(** INSERT of an agent into a table with one row per agent. *)
Definition AddAgentStagingCapability (agent : string) : Tx unit :=
  s ← read (λ s, s);
  guard (negb (bool_decide (agent ∈ db_agent_staging s)) && not_null (db_agents s !! agent)) ErrConstraint;;
  write (λ s, set_agent_staging ({[agent]} ∪ db_agent_staging s) s).

Definition AddAgentArtifactCapability (agent : string) : Tx unit :=
  s ← read (λ s, s);
  guard (negb (bool_decide (agent ∈ db_agent_artifact s)) && not_null (db_agents s !! agent)) ErrConstraint;;
  write (λ s, set_agent_artifact ({[agent]} ∪ db_agent_artifact s) s).

Definition AddAgentResourcePolicy (agent advertisement : string) : Tx unit :=
  s ← read (λ s, s);
  guard (is_null (db_agent_policies s !! agent) && not_null (db_agents s !! agent)) ErrConstraint;;
  write (λ s, set_agent_policies (<[agent := advertisement]> (db_agent_policies s)) s).

(** [ORDER BY category, capability] *)
Definition capability_le (p q : string * string) : bool :=
  match String.compare p.1 q.1 with
  | Lt => true
  | Eq => string_le p.2 q.2
  | Gt => false
  end.

Definition capabilities (category : string) (values : list string) : list (string * string) :=
  pair category <$> values.

Definition ListAgentPollCapabilities (agent : string) : Tx (list (string * string)) := read (λ s,
  sort_by capability_le
    (capabilities "host" (of_agent agent (db_agent_interpreters s))
     ++ capabilities "mode" (of_agent agent (db_agent_execution_modes s))
     ++ capabilities "runtime" (of_agent agent (db_agent_container_runtimes s))
     ++ capabilities "container" (of_agent agent (db_agent_container_interpreters s))
     ++ (if bool_decide (agent ∈ db_agent_staging s) then [("staging", "")] else [])
     ++ (if bool_decide (agent ∈ db_agent_artifact s) then [("artifact", "")] else [])
     ++ match db_agent_policies s !! agent with Some p => [("resource_policy", p)] | None => [] end
     ++ match db_agents s !! agent with
        | Some a => [("protocol", default "" (a_AgentProtocol a))] | None => [] end)).

(** ** The poll *)

(** [reported] of matchesStoredCapabilities before it is sorted. *)
Definition reported_capabilities (request : PollRequest) (stored : list (string * string))
    : list (string * string) :=
  [("protocol", pq_Protocol request)]
  ++ capabilities "host" (pq_SupportedInterpreters request)
  ++ capabilities "mode" (pq_ExecutionModes request)
  ++ capabilities "runtime" (pq_ContainerRuntimes request)
  ++ capabilities "container" (pq_ContainerInterpreters request)
  ++ (if pq_Staging request || bool_decide (("staging", "") ∈ stored) then [("staging", "")] else [])
  ++ (if pq_Artifact request then [("artifact", "")] else [])
  ++ (if negb (String.eqb (pq_ResourcePolicy request) "")
      then [("resource_policy", pq_ResourcePolicy request)] else []).

Definition matchesStoredCapabilities (request : PollRequest) (agentID : string) : Tx bool :=
  stored ← ListAgentPollCapabilities agentID;
  mret (bool_decide (stored = sort_by capability_le (reported_capabilities request stored))).

Definition recordTransferCapabilities (request : PollRequest) (agentID : string) : Tx unit :=
  (if pq_Staging request then ClearAgentStagingCapability agentID;; AddAgentStagingCapability agentID
   else mret tt);;
  ClearAgentArtifactCapability agentID;;
  (if pq_Artifact request then AddAgentArtifactCapability agentID else mret tt);;
  ClearAgentResourcePolicy agentID;;
  if negb (String.eqb (pq_ResourcePolicy request) "")
  then AddAgentResourcePolicy agentID (pq_ResourcePolicy request) else mret tt.

Definition clearAgentCapabilities (agentID : string) : Tx unit :=
  DeleteAgentInterpreters agentID;;
  DeleteAgentExecutionModes agentID;;
  DeleteAgentContainerRuntimes agentID;;
  DeleteAgentContainerInterpreters agentID.

Definition recordExecutionCapabilities (request : PollRequest) (agentID : string) : Tx unit :=
  SetAgentProtocol (Some (pq_Protocol request)) agentID;;
  clearAgentCapabilities agentID;;
  for_each (pq_SupportedInterpreters request) (AddAgentInterpreter agentID);;
  for_each (pq_ExecutionModes request) (AddAgentExecutionMode agentID);;
  for_each (pq_ContainerRuntimes request) (AddAgentContainerRuntime agentID);;
  for_each (pq_ContainerInterpreters request) (AddAgentContainerInterpreter agentID).

Section poll.
Context `{AgentEnvironment} `{AgentProtocol} `{PayloadLibraries}.

(** What an older protocol cannot report. *)
Definition normalized (request : PollRequest) : PollRequest :=
  mkPollRequest (pq_Protocol request)
    (if String.eqb (pq_Protocol request) AgentV1 then ["bash"] else pq_SupportedInterpreters request)
    (if negb (String.eqb (pq_Protocol request) AgentV3) then [ExecutionHost] else pq_ExecutionModes request)
    (pq_ContainerRuntimes request) (pq_ContainerInterpreters request)
    (pq_Staging request) (pq_Artifact request) (pq_ResourcePolicy request).

Definition record_capabilities (request : PollRequest) (agentID : string) : Tx unit :=
  unchanged ← matchesStoredCapabilities request agentID;
  if (unchanged : bool) then mret tt
  else recordTransferCapabilities request agentID;; recordExecutionCapabilities request agentID.

(** An agent with a container runtime has removed what it left behind. *)
Definition confirm_cleanup (request : PollRequest) (now : Z) (agentID : string) : Tx unit :=
  if String.eqb (pq_Protocol request) AgentV3 && negb (length (pq_ContainerRuntimes request) =? 0)%nat then
    ConfirmRemoteStepCleanup now agentID;;
    ConfirmRemoteDeploymentCleanup now agentID;;
    mret tt
  else mret tt.

Definition record_poll (heartbeat : HeartbeatAgentParams) (request : PollRequest) : Tx Z :=
  changed ← HeartbeatAgent heartbeat;
  if Z.eqb changed 0 then mret changed
  else
    record_capabilities request (hp_ID heartbeat);;
    confirm_cleanup request (hp_Now heartbeat) (hp_ID heartbeat);;
    FailUnsupportedWaitingRemoteStepRuns (hp_Now heartbeat) (hp_ID heartbeat);;
    FailUnsupportedWaitingRemoteDeploymentClaims (hp_Now heartbeat) (hp_ID heartbeat);;
    FailUnsupportedRemoteDeploymentStatus (hp_Now heartbeat) (hp_ID heartbeat);;
    mret changed.

Definition RecordAgentPollCapabilities (heartbeat : HeartbeatAgentParams) (request : PollRequest) (s : DB)
    : result Z * DB :=
  match CheckCompatibility (pq_ResourcePolicy request) with
  | Some message => (Err (ErrOther message), s)
  | None => WithQueueMaintenanceTx (record_poll heartbeat (normalized request)) s
  end.
End poll.
