(* ===== verification/RemoteLogs.v ===== *)
(** * RemoteLogs: publishing the log lines of agents

    remote_logs.go, remote_step_logs.go and step_logs.go of internal/repository
    with the statements on log sequences: what [prepareRemoteLogEvents] publishes
    is stored once per sequence, and the buffer that is left is stored with the
    run or the claim; the last lines are stored in the transaction that records
    the outcome. *)
From S2P Require Import Prelude Text Db Tx QueueQueries DeploymentQueue DispatchQueries RemoteLifecycle Base64 Secret Variables StepQueries RemotePayload LogScrub LogBuffer RemoteSteps.

(** ** Statements *)

(** [COALESCE(MAX(sequence), -1)] *)
Definition max_sequence (sequences : list Z) : Z := foldr Z.max (-1) sequences.

Definition GetLastRemoteStepLogSequence (deployment step : Z) (agent : string) : Tx Z := read (λ s,
  max_sequence (omap (λ kv : Z * Z * string * Z * Z,
      if bool_decide (kv.1.1 = (deployment, step, agent)) then Some kv.1.2 else None)
    (map_to_list (st_log_sequences (db_dispatch s))))).

Definition log_by_id (s : DB) (id : Z) : option DeploymentLog :=
  head (filter (λ l, l_ID l = id) (db_logs s)).

Definition GetRemoteStepLogBySequence (deployment step : Z) (agent : string) (sequence : Z)
    : Tx DeploymentLog := λ s,
  match st_log_sequences (db_dispatch s) !! (deployment, step, agent, sequence) ≫= log_by_id s with
  | Some log => Ok (log, s)
  | None => Err ErrNoRows
  end.

(** INSERT: the primary key, the CHECK, and the two foreign keys. *)
Definition CreateRemoteStepLogSequence (deployment step : Z) (agent : string) (sequence log : Z) : Tx unit :=
  s ← read (λ s, s);
  guard (is_null (st_log_sequences (db_dispatch s) !! (deployment, step, agent, sequence))
         && (0 <=? sequence) && not_null (log_by_id s log)
         && not_null (db_runs s !! (deployment, step, agent))) ErrConstraint;;
  write (λ s, set_dispatch (st_set_log_sequences
    (<[(deployment, step, agent, sequence) := log]> (st_log_sequences (db_dispatch s))) (db_dispatch s)) s).

Definition GetLastRemoteDeploymentLogSequence (deployment : Z) : Tx Z := read (λ s,
  max_sequence (omap (λ kv : Z * Z * Z, if Z.eqb kv.1.1 deployment then Some kv.1.2 else None)
    (map_to_list (db_log_scopes s)))).

Definition GetRemoteDeploymentLogBySequence (deployment sequence : Z) : Tx DeploymentLog := λ s,
  match db_log_scopes s !! (deployment, sequence) ≫= log_by_id s with
  | Some log => if Z.eqb (l_DeploymentID log) deployment then Ok (log, s) else Err ErrNoRows
  | None => Err ErrNoRows
  end.

Definition CreateDeploymentLogScope (log deployment sequence : Z) : Tx unit :=
  s ← read (λ s, s);
  guard (is_null (db_log_scopes s !! (deployment, sequence))
         && negb (exists_row (db_log_scopes s) (Z.eqb log))
         && (0 <=? sequence)
         && match log_by_id s log with Some l => Z.eqb (l_DeploymentID l) deployment | None => false end)
    ErrConstraint;;
  write (λ s, set_log_scopes (<[(deployment, sequence) := log]> (db_log_scopes s)) s).

Definition UpdateRemoteDeploymentLogBuffer (buffer : option string) (deployment : Z) (agent : string)
    (token : option string) : Tx Z :=
  update_claim deployment
    (λ _ c, String.eqb (c_AgentID c) agent && sql_eq2 (c_ClaimTokenHash c) token)
    (λ _ c, c_set_LogBuffer buffer c).

(** ** Lines *)

(** [remoteLogLineEscaper]: one visible line per event. *)
Fixpoint escape_line (text : string) : string :=
  match text with
  | EmptyString => EmptyString
  | String c rest =>
      if byte_in 0 0 c then "\0" +:+ escape_line rest
      else if byte_in 10 10 c then "\n" +:+ escape_line rest
      else if byte_in 13 13 c then "\r" +:+ escape_line rest
      else if byte_in 11 11 c then "\v" +:+ escape_line rest
      else if byte_in 12 12 c then "\f" +:+ escape_line rest
      else match rest with
      | String c2 rest2 =>
          if byte_in 194 194 c && byte_in 133 133 c2 then "\u0085" +:+ escape_line rest2
          else match rest2 with
          | String c3 rest3 =>
              if byte_in 226 226 c && byte_in 128 128 c2 && byte_in 168 168 c3
              then "\u2028" +:+ escape_line rest3
              else if byte_in 226 226 c && byte_in 128 128 c2 && byte_in 169 169 c3
              then "\u2029" +:+ escape_line rest3
              else String c (escape_line rest)
          | EmptyString => String c (escape_line rest)
          end
      | EmptyString => String c (escape_line rest)
      end
  end.

Definition remoteLogTerminal (state : string) : bool :=
  state ∈? ["succeeded"; "failed"; "cancelled"; "cleanup_unconfirmed"; "lost"; "cancel_unconfirmed"].

Section logs.
Context `{AgentEnvironment} `{LogProtocol} `{Box} (configured : bool).
Context (order : gmap nat nat → list (nat * nat)).
Context (scrubber : option Scrubber).

Definition attributedRemoteLog (line agentID : string) : string :=
  Scrubber_Scrub scrubber (escape_line (Scrubber_Scrub scrubber line))
  +:+ " agent_id=" +:+ quote (Scrubber_Scrub scrubber agentID).

(** ** Runs (remote_step_logs.go) *)

(** The loop over the published events: the lines that are new. *)
Fixpoint store_step_lines (run : RemoteStepRun) (step_name : string) (ready : list RemoteLogEvent)
    : Tx (list DeploymentLog) :=
  match ready with
  | [] => mret []
  | event :: ready =>
      if le_Sequence event <? 0 then fail ErrInvalidRemoteLog
      else
        existing ← attempt (GetRemoteStepLogBySequence (r_DeploymentID run) (r_StepIndex run)
                              (r_AgentID run) (le_Sequence event));
        match existing with
        | Ok _ => store_step_lines run step_name ready
        | Err ErrNoRows =>
            log ← CreateStepDeploymentLog (r_DeploymentID run)
              (Some (remoteStepLogName step_name (r_AgentID run) scrubber))
              (attributedRemoteLog (le_Line event) (r_AgentID run)) (Some (r_StepIndex run)) None;
            CreateRemoteStepLogSequence (r_DeploymentID run) (r_StepIndex run) (r_AgentID run)
              (le_Sequence event) (l_ID log);;
            inserted ← store_step_lines run step_name ready;
            mret (log :: inserted)
        | Err e => fail e
        end
  end.

(** [nonce]: the bytes drawn when the buffer is encrypted. *)
Definition appendRemoteStepLogs (nonce : option bytes) (identity : RemoteLifecycleClaim)
    (run : RemoteStepRun) (events : list RemoteLogEvent) (flush : bool) : Tx (list DeploymentLog) :=
  guard (negb (negb flush && negb (r_State run ∈? ["started"; "cancel_requested"])))
    ErrRemoteLifecycleConflict;;
  guard (negb (flush && negb (remoteLogTerminal (r_State run)))) ErrRemoteLifecycleConflict;;
  steps ← ListDeploymentSteps (r_DeploymentID run);
  match (if r_StepIndex run <? 0 then None else steps !! Z.to_nat (r_StepIndex run)) with
  | None => fail ErrRemoteLifecycleConflict
  | Some step =>
      lastSequence ← GetLastRemoteStepLogSequence (r_DeploymentID run) (r_StepIndex run) (r_AgentID run);
      pending ← lift (decodeRemoteLogBuffer configured (r_LogBufferCiphertext run) lastSequence);
      prepared ← lift (prepareRemoteLogEvents order scrubber pending events lastSequence flush);
      inserted ← store_step_lines run (s_Name step) prepared.1;
      buffer ← lift (encodeRemoteLogBuffer configured nonce prepared.2);
      one_row (UpdateRemoteStepLogBuffer buffer (r_DeploymentID run) (r_StepIndex run) (r_AgentID run)
                 (il_ClaimTokenHash identity));;
      mret inserted
  end.

Definition append_step_logs (nonce : option bytes) (identity : RemoteLifecycleClaim)
    (events : list RemoteLogEvent) (flush : bool) : Tx (list DeploymentLog * bool) :=
  with_run identity ([], false) (λ run,
    inserted ← appendRemoteStepLogs nonce identity run events flush; mret (inserted, true)).

Definition AppendRemoteStepLogs (nonce : option bytes) (identity : RemoteLifecycleClaim)
    (events : list RemoteLogEvent) : DB → result (list DeploymentLog * bool) * DB :=
  withDeploymentLogTx (il_DeploymentID identity) (append_step_logs nonce identity events false).

Definition FlushRemoteStepLogs (nonce : option bytes) (identity : RemoteLifecycleClaim)
    : DB → result (list DeploymentLog * bool) * DB :=
  withDeploymentLogTx (il_DeploymentID identity) (append_step_logs nonce identity [] true).

(** ** Claims (remote_logs.go) *)

(** The line, and whether it is new. *)
Definition appendRemoteDeploymentLog (deploymentID now : Z) (sequence : Z) (line : string)
    : Tx (DeploymentLog * bool) :=
  existing ← attempt (GetRemoteDeploymentLogBySequence deploymentID sequence);
  match existing with
  | Ok log => mret (log, false)
  | Err ErrNoRows =>
      log ← CreateRemoteDeploymentLog deploymentID line now;
      CreateDeploymentLogScope (l_ID log) deploymentID sequence;;
      mret (log, true)
  | Err e => fail e
  end.

Fixpoint store_lines (identity : RemoteLifecycleClaim) (now : Z) (ready : list RemoteLogEvent)
    : Tx (list DeploymentLog) :=
  match ready with
  | [] => mret []
  | event :: ready =>
      if le_Sequence event <? 0 then fail ErrInvalidRemoteLog
      else
        stored ← appendRemoteDeploymentLog (il_DeploymentID identity) now (le_Sequence event)
                   (attributedRemoteLog (le_Line event) (il_AgentID identity));
        inserted ← store_lines identity now ready;
        mret (if (stored.2 : bool) then stored.1 :: inserted else inserted)
  end.

Definition appendRemoteDeploymentLogs (nonce : option bytes) (identity : RemoteLifecycleClaim)
    (events : list RemoteLogEvent) (flush : bool) : Tx (list DeploymentLog) :=
  rows ← (if flush then lockRemoteLifecycleRows identity true else lockRemoteLifecycle identity true);
  let claim := rows.1 in let deployment := rows.2 in
  guard (negb (flush && negb (remoteLogTerminal (c_State claim)))) ErrRemoteLifecycleConflict;;
  now ← CurrentUnixTime;
  guard (negb (negb flush && (negb (String.eqb (d_Status deployment) "running")
                              || negb (c_State claim ∈? ["started"; "cancel_requested"]))))
    ErrRemoteLifecycleConflict;;
  lastSequence ← GetLastRemoteDeploymentLogSequence (il_DeploymentID identity);
  pending ← lift (decodeRemoteLogBuffer configured (c_LogBufferCiphertext claim) lastSequence);
  prepared ← lift (prepareRemoteLogEvents order scrubber pending events lastSequence flush);
  inserted ← store_lines identity now prepared.1;
  buffer ← lift (encodeRemoteLogBuffer configured nonce prepared.2);
  one_row (UpdateRemoteDeploymentLogBuffer buffer (il_DeploymentID identity) (il_AgentID identity)
             (il_ClaimTokenHash identity));;
  mret inserted.

Definition AppendRemoteDeploymentLogs (nonce : option bytes) (identity : RemoteLifecycleClaim)
    (events : list RemoteLogEvent) : DB → result (list DeploymentLog) * DB :=
  withDeploymentLogTx (il_DeploymentID identity) (appendRemoteDeploymentLogs nonce identity events false).

Definition FlushRemoteDeploymentLogs (nonce : option bytes) (identity : RemoteLifecycleClaim)
    : DB → result (list DeploymentLog) * DB :=
  withDeploymentLogTx (il_DeploymentID identity) (appendRemoteDeploymentLogs nonce identity [] true).

(** ** Outcomes with the last lines (step_logs.go) *)

Definition lock_stream (id : Z) : Tx unit :=
  locked ← LockDeploymentLogStream id; guard (Z.eqb locked 1) ErrNoRows.

Definition finish_step_with_logs (nonce : option bytes) (identity : RemoteLifecycleClaim) (state : string)
    : Tx (list DeploymentLog * bool) :=
  lock_stream (il_DeploymentID identity);;
  handled ← (if String.eqb state "cancelled"
             then answer ← acknowledgeRemoteStepCancellation identity; mret answer.2
             else finishRemoteStep identity state);
  if negb handled then mret ([], false)
  else
    run ← remoteStepRun identity;
    inserted ← appendRemoteStepLogs nonce identity run [] true;
    mret (inserted, true).

Definition FinishRemoteStepWithLogs (nonce : option bytes) (identity : RemoteLifecycleClaim)
    (state : string) : DB → result (list DeploymentLog * bool) * DB :=
  WithDeploymentTx (il_DeploymentID identity) (finish_step_with_logs nonce identity state).

Definition finish_deployment_with_logs (nonce : option bytes) (identity : RemoteLifecycleClaim)
    (state : string) : Tx (list DeploymentLog * RemoteTerminalResult) :=
  lock_stream (il_DeploymentID identity);;
  outcome ← (if String.eqb state "cancelled"
             then acknowledgeRemoteCancellation identity;; mret no_terminal
             else finishRemoteDeploymentLifecycle identity state);
  inserted ← appendRemoteDeploymentLogs nonce identity [] true;
  mret (inserted, outcome).

Definition FinishRemoteDeploymentWithLogs (nonce : option bytes) (identity : RemoteLifecycleClaim)
    (state : string) : DB → result (list DeploymentLog * RemoteTerminalResult) * DB :=
  WithDeploymentTx (il_DeploymentID identity) (finish_deployment_with_logs nonce identity state).

Definition Repository_CreateStepDeploymentLog (deployment : Z) (step_name : option string) (line : string)
    (step_index : option Z) (step_state : option string) : DB → result DeploymentLog * DB :=
  withDeploymentLogTx deployment (CreateStepDeploymentLog deployment step_name line step_index step_state).
End logs.
