(* ===== verification/StepSpec.v ===== *)
(** * StepSpec: how the runs of a step move

    The edges of a run's state machine, what a run contributes to the blocking
    condition of its deployment, and when a new table of runs makes no deployment
    a blocker. *)
From S2P Require Import Prelude Db Tx QueueQueries DeploymentQueue QueueSafety.

Definition run_key (r : RemoteStepRun) : Z * Z * string := (r_DeploymentID r, r_StepIndex r, r_AgentID r).

Definition run_edges : list (string * string) :=
  [("waiting", "claimed"); ("waiting", "failed"); ("waiting", "cancelled");
   ("claimed", "waiting"); ("claimed", "started"); ("claimed", "cancel_requested"); ("claimed", "lost");
   ("started", "cancel_requested"); ("started", "succeeded"); ("started", "failed");
   ("started", "cleanup_unconfirmed"); ("started", "lost");
   ("cancel_requested", "cancelled"); ("cancel_requested", "cancel_unconfirmed");
   ("cancel_requested", "cleanup_unconfirmed"); ("cancel_requested", "lost");
   ("lost", "succeeded"); ("lost", "failed"); ("lost", "cleanup_unconfirmed");
   ("cancel_unconfirmed", "succeeded"); ("cancel_unconfirmed", "failed");
   ("cancel_unconfirmed", "cleanup_unconfirmed"); ("cancel_unconfirmed", "cancelled")].

Definition run_edge (a b : string) : Prop := (a, b) ∈ run_edges.

(** Same run, later state. *)
Definition run_follows (r r' : RemoteStepRun) : Prop :=
  run_key r' = run_key r ∧ rtc run_edge (r_State r) (r_State r').

Lemma run_follows_refl r : run_follows r r.
Proof. done. Qed.

(** No run disappears. *)
Definition runs_follow (s s' : DB) : Prop :=
  ∀ k r, db_runs s !! k = Some r → ∃ r', db_runs s' !! k = Some r' ∧ run_follows r r'.

#[export] Instance runs_follow_refl : Reflexive runs_follow.
Proof. intros s k r Hr. eauto using run_follows_refl. Qed.
#[export] Instance runs_follow_trans : Transitive runs_follow.
Proof.
  intros s1 s2 s3 H12 H23 k r Hr. destruct (H12 k r Hr) as (r2 & Hr2 & ? & ?).
  destruct (H23 k r2 Hr2) as (r3 & Hr3 & ? & ?). exists r3. split; [done|]. split; [congruence|by etrans].
Qed.

Lemma runs_follow_same s s' : db_runs s' = db_runs s → runs_follow s s'.
Proof. intros H k r Hr. exists r. rewrite H. eauto using run_follows_refl. Qed.

(** An edge named by two literals. *)
Ltac run_edge_now := eapply rtc_once; unfold run_edge; by apply (bool_decide_unpack _).

(** ** Runs and blockers *)

Definition run_blocks (r : RemoteStepRun) : bool :=
  (String.eqb (r_State r) "cleanup_unconfirmed" && is_null (r_CleanupConfirmedAt r))
  || (r_State r ∈? held_states).

Definition run_cleaning (r : RemoteStepRun) : bool := String.eqb (r_State r) "cleanup_unconfirmed".

(** [r'] in place of [r] cannot turn their deployment into a blocker. *)
Definition run_shrinks (s : DB) (r r' : RemoteStepRun) : Prop :=
  blocking s (r_DeploymentID r) = true ∨
  ((run_blocks r' = true → run_blocks r = true) ∧ (run_cleaning r = true → run_cleaning r' = true)).

Lemma run_shrinks_refl s r : run_shrinks s r r.
Proof. by right. Qed.

Lemma run_in_true s id p :
  run_in s id p = true ↔ ∃ k r, db_runs s !! k = Some r ∧ r_DeploymentID r = id ∧ p r = true.
Proof.
  unfold run_in. rewrite exists_row_true. split; intros (k & r & Hr & H); exists k, r;
    rewrite ?andb_true_iff, ?Z.eqb_eq in *; tauto.
Qed.

Lemma run_blocker_bits (st cu ns unc rc rc' rb rb' rh rh' cc k h : bool) :
  (rb' || rh' = true → rb || rh = true) → (rc = true → rc' = true) →
  st || (cu && (ns || (unc && negb cc && negb rc'))) || k || rb' || h || rh' = true →
  st || (cu && (ns || (unc && negb cc && negb rc))) || k || rb || h || rh = true.
Proof.
  intros Hb Hc. destruct st; [done|]. destruct k; [by destruct cu, ns, unc, cc, rc|].
  destruct h; [intros _; destruct rb; by rewrite !orb_true_r|]. rewrite !orb_false_r.
  destruct rc; [rewrite (Hc eq_refl)|]; destruct rb', rh';
    (try (destruct rb, rh; cbn in Hb |- *; try discriminate (Hb eq_refl); intros _; by rewrite ?orb_true_r));
    cbn [orb]; rewrite ?orb_false_r; intros H; destruct cu, ns, unc, cc; cbn in *; done.
Qed.

(** A new table whose rows are old ones that shrank, or new ones that do not block. *)
Lemma shrinks_set_runs s t :
  (∀ k r', t !! k = Some r' →
     (∃ r, db_runs s !! k = Some r ∧ r_DeploymentID r' = r_DeploymentID r ∧ run_shrinks s r r')
     ∨ run_blocks r' = false) →
  (∀ k r, db_runs s !! k = Some r → ∃ r', t !! k = Some r' ∧ r_DeploymentID r' = r_DeploymentID r
     ∧ run_shrinks s r r') →
  shrinks s (set_runs t s).
Proof.
  intros Hnew Hold. split; [by split|]. intros id. unfold blocking at 1. cbn.
  destruct (blocking s id) eqn:Hb; [done|]. unfold blocking in Hb.
  destruct (db_deployments s !! id) as [d|] eqn:Hd; [|done]. intros Hb'. exfalso. revert Hb.
  assert (Hnb : blocking s id = false → is_blocker s id d = false)
    by (unfold blocking; by rewrite Hd). intros Hb.
  enough (is_blocker s id d = true) by congruence. revert Hb'. unfold is_blocker.
  change (claim_in (set_runs t s)) with (claim_in s). apply run_blocker_bits.
  - rewrite !orb_true_iff, !run_in_true. intros [H|H]; destruct H as (k & r' & Hr' & Hid & Hp).
    + assert (Hblk : run_blocks r' = true) by (unfold run_blocks; by rewrite Hp).
      destruct (Hnew k r' Hr') as [(r & Hr & Hdep & [Hbl|[H1 _]])|H]; [|..|congruence].
      * rewrite <-Hdep, Hid in Hbl. unfold blocking in Hbl. rewrite Hd in Hbl. congruence.
      * specialize (H1 Hblk). unfold run_blocks in H1. apply orb_true_iff in H1 as [H1|H1];
          [left|right]; exists k, r; split_and!; (done || congruence).
    + assert (Hblk : run_blocks r' = true) by (unfold run_blocks; rewrite Hp; apply orb_true_r).
      destruct (Hnew k r' Hr') as [(r & Hr & Hdep & [Hbl|[H1 _]])|H]; [|..|congruence].
      * rewrite <-Hdep, Hid in Hbl. unfold blocking in Hbl. rewrite Hd in Hbl. congruence.
      * specialize (H1 Hblk). unfold run_blocks in H1. apply orb_true_iff in H1 as [H1|H1];
          [left|right]; exists k, r; split_and!; (done || congruence).
  - rewrite !run_in_true. intros (k & r & Hr & Hid & Hp).
    destruct (Hold k r Hr) as (r' & Hr' & Hdep & [Hbl|[_ H2]]).
    + rewrite Hid in Hbl. unfold blocking in Hbl. rewrite Hd in Hbl. congruence.
    + exists k, r'. split_and!; [done|congruence|by apply H2].
Qed.
