(* ===== verification/System.v ===== *)
(** * System: every operation keeps the store's invariant

    The invariant of the queue and of the remote lifecycle together, and the
    relation that every operation of these components respects. *)
From S2P Require Import Prelude Db Tx QueueQueries DeploymentQueue QueueSafety DispatchQueries RemoteLifecycle RemoteSafety RemoteSpec RemoteRefine StepSpec.

(** Claims are stored under their deployment, which exists. *)
Definition claim_keys (s : DB) : Prop :=
  ∀ id c, db_claims s !! id = Some c → c_DeploymentID c = id ∧ is_Some (db_deployments s !! id).

(** Runs satisfy the schema and are stored under their key, and their
    deployments exist. *)
Definition run_keys (s : DB) : Prop :=
  runs_ok (db_runs s) = true ∧
  ∀ k r, db_runs s !! k = Some r → k = run_key r ∧ is_Some (db_deployments s !! r_DeploymentID r).

(** A deployment that is admitted, runs, or waits for the approval of its artifact. *)
Definition active (s : DB) (id : Z) : bool :=
  match db_deployments s !! id with Some d => d_Status d ∈? active_statuses | None => false end.

(** At most one of the deployments of a scope is active. *)
Definition one_active (s : DB) : Prop :=
  ∀ sc a b, scope_of s a = Some sc → scope_of s b = Some sc →
    active s a = true → active s b = true → a = b.

Lemma active_blocking s id : active s id = true → blocking s id = true.
Proof.
  unfold active, blocking. destruct (db_deployments s !! id); [|done]. intros Ha.
  unfold is_blocker. by rewrite Ha.
Qed.

Lemma exclusive_one_active s : exclusive s → one_active s.
Proof. intros [Hone _] sc a b Ha Hb Haa Hab. apply (Hone sc); auto using active_blocking. Qed.

(** The invariant of the store in two strengths. Every entry point keeps the
    first, [store_inv false], whatever it is called on. The [full] one adds the
    contract of the queue (deployments that are over may block as well) and of
    the remote lifecycle. *)
Record store_inv (full : bool) (s : DB) : Prop := {
  si_wf : queue_wf s;
  si_active : one_active s;
  si_claims : claims_ok (db_claims s) = true;
  si_keys : claim_keys s;
  si_runs : run_keys s;
  si_contract : full = true → exclusive s ∧ lifecycle_ok s }.
#[global] Arguments si_wf {full} s.
#[global] Arguments si_active {full} s.
#[global] Arguments si_claims {full} s.
#[global] Arguments si_keys {full} s.
#[global] Arguments si_runs {full} s.
#[global] Arguments si_contract {full} s.

Notation sys_inv := (store_inv true).

Lemma si_queue s : sys_inv s → queue_inv s.
Proof. intros Hinv. split; [apply Hinv|by apply Hinv]. Qed.

Lemma si_lifecycle s : sys_inv s → lifecycle_ok s.
Proof. intros Hinv. by apply Hinv. Qed.

Lemma sys_intro s :
  queue_inv s → claims_ok (db_claims s) = true → lifecycle_ok s → claim_keys s → run_keys s → sys_inv s.
Proof. intros [] Hc Hl Hk Hr. split; auto using exclusive_one_active. Qed.

Lemma store_weaken full s : store_inv full s → store_inv false s.
Proof. intros []. by split. Qed.

(** Every deployment of the first store is in the second one, in the same scope. *)
Definition scopes_kept (s s' : DB) : Prop :=
  ∀ id sc, scope_of s id = Some sc → scope_of s' id = Some sc.

Lemma scopes_kept_eq s s' : (∀ id, scope_of s' id = scope_of s id) → scopes_kept s s'.
Proof. intros H id sc. by rewrite H. Qed.

(** Claims and runs move along their edges and no deployment leaves its scope. *)
Definition follows (s s' : DB) : Prop := claims_follow s s' ∧ scopes_kept s s' ∧ runs_follow s s'.

#[export] Instance follows_refl : Reflexive follows.
Proof. intros s. split; [done|]. split; [by intros id sc|done]. Qed.
#[export] Instance follows_trans : Transitive follows.
Proof.
  intros s1 s2 s3 (Hc1 & Hs1 & Hr1) (Hc2 & Hs2 & Hr2). split; [by etrans|]. split; [|by etrans].
  intros id sc Hid. by apply Hs2, Hs1.
Qed.

Definition store_step (full : bool) (s s' : DB) : Prop := store_inv full s → store_inv full s' ∧ follows s s'.
Notation sys_step := (store_step true).

#[export] Instance store_step_refl full : Reflexive (store_step full).
Proof. by intros s. Qed.
#[export] Instance store_step_trans full : Transitive (store_step full).
Proof.
  intros s1 s2 s3 H12 H23 Hi. destruct (H12 Hi) as [Hi2 ?]. destruct (H23 Hi2) as [? ?].
  split; [done|]. by etrans.
Qed.

Section steps.
Context {full : bool}.
Implicit Types (s : DB).

(** Deployments are not deleted: their scope still names them. *)
Lemma row_kept s s' id :
  queue_wf s → scopes_kept s s' →
  is_Some (db_deployments s !! id) → is_Some (db_deployments s' !! id).
Proof.
  intros Hwf Hsc [d Hd]. destruct (wf_release _ Hwf _ _ Hd) as [rel Hrel].
  assert (scope_of s id = Some (rel_ProjectID rel, d_EnvironmentID d)) as Hs
    by (apply scope_of_lookup; eauto).
  apply Hsc in Hs. apply scope_of_lookup in Hs as (d' & ? & ? & _). eauto.
Qed.

Lemma keys_kept s s' :
  queue_wf s → scopes_kept s s' → claim_keys s →
  (∀ id c', db_claims s' !! id = Some c' →
     ∃ c, db_claims s !! id = Some c ∧ c_DeploymentID c' = c_DeploymentID c) →
  claim_keys s'.
Proof.
  intros Hwf Hsc Hk Hc id c' Hc'. destruct (Hc id c' Hc') as (c & Hid & ->).
  destruct (Hk id c Hid) as [? Hd]. split; [done|]. by eapply row_kept.
Qed.

Lemma runs_kept s s' :
  queue_wf s → scopes_kept s s' → db_runs s' = db_runs s → run_keys s → run_keys s'.
Proof.
  intros Hwf Hsc Hr [Hok Hk]. split; [by rewrite Hr|]. intros k r. rewrite Hr.
  intros [? H]%Hk. split; [done|]. by eapply row_kept.
Qed.

Lemma active_same s s' :
  (∀ id, scope_of s' id = scope_of s id) → (∀ id, active s' id = true → active s id = true) →
  one_active s → one_active s'.
Proof. intros Hs Ha Hone sc a b. rewrite !Hs. intros ????. apply (Hone sc); auto. Qed.

(** Rows of deployments change and claims and runs do not: what remains to be
    said about the rows, the second and the fourth part for the contract only. *)
Lemma sys_deployments s s' :
  reshapes s s' → (full = true → ∀ id, blocking s' id = true → blocking s id = true) →
  (∀ id, active s' id = true → active s id = true) →
  db_claims s' = db_claims s → db_runs s' = db_runs s →
  (full = true → ∀ id c d, db_claims s !! id = Some c →
     c_State c = "started" ∨ c_State c = "cancel_requested" →
     db_deployments s !! id = Some d → d_Status d = "running" → d_AssignedAgentID d = Some (c_AgentID c) →
     ∃ d', db_deployments s' !! id = Some d' ∧ d_Status d' = "running" ∧
           d_AssignedAgentID d' = Some (c_AgentID c)) →
  store_step full s s'.
Proof.
  intros Hre Hb Ha Hcl Hru Hrun [Hwf Hone Hc Hk Hrk Hx].
  pose proof (reshapes_scope _ _ Hre) as Hscope. split.
  - split; [by eapply reshapes_wf|by eapply active_same|by rewrite Hcl|..].
    + apply (keys_kept s); [done|by apply scopes_kept_eq|done|]. intros id c. rewrite Hcl. eauto.
    + apply (runs_kept s); [done|by apply scopes_kept_eq|done..].
    + intros Hf. destruct (Hx Hf) as [Hex Hl]. split; [by eapply reshapes_exclusive; eauto|].
      intros id c Hid Hst. rewrite Hcl in Hid. destruct (Hl id c Hid Hst) as (d & Hd & Hr & Hag). eauto.
  - split; [|split; [by apply scopes_kept_eq|by apply runs_follow_same]].
    intros id c Hid. exists c. rewrite Hcl. eauto using row_follows_refl.
Qed.

Lemma sys_same s s' : same_queue_tables s s' → store_step full s s'.
Proof.
  intros Hsame. destruct (same_shrinks _ _ Hsame) as [Hre Hb]. destruct Hsame as [Hd _ _ _ Hc Hr].
  apply sys_deployments; try done.
  - intros id. unfold active. by rewrite Hd.
  - intros _ id c d _ _ Hid. rewrite Hd. eauto.
Qed.

#[export] Instance sys_relation : StoreRelation (store_step full).
Proof. split; [apply _..|apply sys_same]. Qed.

Lemma env_steps_running env s s' id d :
  rtc (env_step env) s s' → db_deployments s !! id = Some d → d_Status d = "running" →
  db_deployments s' !! id = Some d.
Proof.
  induction 1 as [|x y z [p Hp] _ IH]; [done|]. intros Hd Hr. apply IH; [|done].
  destruct (advanced_deployment _ _ _ Hp id) as [->|(_ & dq & Hdq & Hq & _)]; [done|].
  simplify_eq. congruence.
Qed.

Lemma env_steps_claims env s s' : rtc (env_step env) s s' → db_claims s' = db_claims s.
Proof.
  induction 1 as [|x y z [p Hp] _ IH]; [done|]. rewrite IH.
  by destruct (advanced_tables _ _ _ Hp) as (-> & _).
Qed.

Lemma env_steps_runs env s s' : rtc (env_step env) s s' → db_runs s' = db_runs s.
Proof.
  induction 1 as [|x y z [p Hp] _ IH]; [done|]. rewrite IH.
  by destruct (advanced_tables _ _ _ Hp) as (_ & -> & _).
Qed.

Lemma env_steps_active env s s' : rtc (env_step env) s s' → one_active s → one_active s'.
Proof.
  induction 1 as [|x y z [p Hp] _ IH]; [done|]. intros Hone. apply IH. clear IH.
  intros sc a b. rewrite !(advanced_scope _ _ _ Hp). intros Hsa Hsb Ha Hb.
  assert (Hact : ∀ i, active y i = true → active x i = true ∨
    (scope_of x i = Some (p, env) ∧ db_slots y !! (p, env) = Some i ∧ (∀ j, scope_of x j = Some (p, env) → blocking x j = false))).
  { intros i Hi. destruct Hp as [| | |n d audit Hnb Hn Hd Hq Hmin]; [by left..|].
    destruct (decide (i = n)) as [->|Hne].
    - right. split; [done|]. split; [apply lookup_insert_eq|exact Hnb].
    - left. unfold active in *. cbn in Hi. by rewrite lookup_insert_ne in Hi. }
  assert (Hfree : ∀ i, (∀ j, scope_of x j = Some (p, env) → blocking x j = false) → scope_of x i = Some (p, env) → active x i = false).
  { intros i Hf Hi. apply not_true_iff_false. intros Hx%active_blocking. by rewrite Hf in Hx. }
  destruct (Hact a Ha) as [Ha'|(Hpa & Hla & Hfa)], (Hact b Hb) as [Hb'|(Hpb & Hlb & Hfb)].
  - by apply (Hone sc).
  - simplify_eq. by rewrite Hfree in Ha'.
  - simplify_eq. by rewrite Hfree in Hb'.
  - congruence.
Qed.

#[export] Instance sys_queue_relation : QueueRelation (store_step full).
Proof.
  split; [apply _|]. intros env s [] s' Heq [Hwf Hone Hc Hk Hrk Hx].
  destruct (advanceEnvironmentQueue_spec s env Hwf) as (s1 & Hs1 & Hst & _).
  rewrite Hs1 in Heq. injection Heq as <-.
  assert (Hkept : scopes_kept s s1) by (apply scopes_kept_eq; intros id; by eapply env_steps_scope).
  pose proof (env_steps_claims _ _ _ Hst) as Hcl. pose proof (env_steps_runs _ _ _ Hst) as Hru. split.
  - split; [by eapply env_steps_wf|by eapply env_steps_active|by rewrite Hcl|..].
    + apply (keys_kept s); [done..|]. intros id c. rewrite Hcl. eauto.
    + by apply (runs_kept s).
    + intros Hf. destruct (Hx Hf) as [Hex Hl]. split; [by eapply env_steps_inv|].
      intros id c. rewrite Hcl. intros Hid Hs. destruct (Hl id c Hid Hs) as (d & Hd & Hr & Ha).
      exists d. split; [by eapply env_steps_running|done].
  - split; [|split; [done|by apply runs_follow_same]].
    intros id c Hid. exists c. rewrite Hcl. eauto using row_follows_refl.
Qed.

(** ** Statements *)

(** What a new row must not do: block where the old one did not, which only the
    contract forbids, and become active. *)
Definition row_calm s (id : Z) d d' : Prop :=
  (full = true → is_blocker s id d' = true → is_blocker s id d = true) ∧
  ((d_Status d' ∈? active_statuses)%bool = true → (d_Status d ∈? active_statuses)%bool = true).

Lemma calm_on s id d d' : (d_Status d ∈? active_statuses)%bool = true → row_calm s id d d'.
Proof. intros Ha. split; [intros _ _; by apply is_blocker_on|done]. Qed.

Lemma calm_off s id d d' :
  (d_Status d' ∈? active_statuses)%bool = false → d_Status d' ≠ "cleanup_unconfirmed" → row_calm s id d d'.
Proof. intros Ha Hc. split; [intros _; by apply is_blocker_off|congruence]. Qed.

(** One row of deployments replaced; the contract asks for more when an agent runs it. *)
Lemma sys_set_row_at s id d d' :
  db_deployments s !! id = Some d → identity d' = identity d → row_calm s id d d' →
  (full = true → ∀ c, db_claims s !! id = Some c → c_State c = "started" ∨ c_State c = "cancel_requested" →
     d_Status d = "running" → d_AssignedAgentID d = Some (c_AgentID c) →
     d_Status d' = "running" ∧ d_AssignedAgentID d' = Some (c_AgentID c)) →
  store_step full s (set_deployments (<[id := d']> (db_deployments s)) s).
Proof.
  intros Hd Hi [Hb Ha] Hr. apply sys_deployments; [|..|done|done|].
  - split; [done..|]. intros id'. cbn. destruct (decide (id = id')) as [<-|]; [|by rewrite lookup_insert_ne].
    rewrite lookup_insert_eq, Hd. cbn. by rewrite Hi.
  - intros Hf id'. by apply (shrinks_set_row s id d d' Hd Hi (Hb Hf)).
  - intros id'. unfold active. cbn. destruct (decide (id = id')) as [<-|Hne].
    + rewrite lookup_insert_eq, Hd. exact Ha.
    + by rewrite lookup_insert_ne.
  - intros Hf id' c dx Hc Hs Hd' Hst Hag. specialize (Hr Hf). cbn. destruct (decide (id = id')) as [<-|Hne].
    + assert (dx = d) as -> by congruence. exists d'. rewrite lookup_insert_eq. by destruct (Hr c Hc Hs Hst Hag).
    + exists dx. by rewrite lookup_insert_ne.
Qed.

Lemma sys_set_row s id d d' :
  db_deployments s !! id = Some d → identity d' = identity d → row_calm s id d d' →
  (full = true → ∀ ag, d_Status d = "running" → d_AssignedAgentID d = Some ag →
     d_Status d' = "running" ∧ d_AssignedAgentID d' = Some ag) →
  store_step full s (set_deployments (<[id := d']> (db_deployments s)) s).
Proof. intros Hd Hi Hc Hr. eapply sys_set_row_at; [done..|]. intros Hf c _ _. by apply Hr. Qed.

Lemma sys_update_deployment id where_ set :
  (∀ s d, db_deployments s !! id = Some d → where_ s d = true →
     identity (set s d) = identity d ∧ row_calm s id d (set s d) ∧
     (full = true → d_Status d = "running" → d_AssignedAgentID d = None)) →
  respects (store_step full) (update_deployment id where_ set).
Proof.
  intros Hset s a s' Heq.
  apply update_deployment_cases in Heq as [[_ ->]|(_ & d & Hd & Hw & ->)]; [done|].
  destruct (Hset s d Hd Hw) as (? & ? & Hn). eapply sys_set_row; [done..|].
  intros Hf ag Hr. by rewrite (Hn Hf Hr).
Qed.

Lemma sys_start_local id : respects (store_step full) (StartQueuedLocalDeployment id).
Proof.
  apply sys_update_deployment. intros s d Hd Hw. rewrite !andb_true_iff in Hw.
  destruct Hw as [[Hst%String.eqb_eq _] _]. split; [done|]. split; [|congruence].
  apply calm_on. by rewrite Hst.
Qed.

Lemma sys_cancel_queued id : respects (store_step full) (QueueQueries.CancelQueuedDeployment id).
Proof.
  apply sys_update_deployment. intros s d Hd Hw. split; [done|].
  split; [by apply calm_off|]. intros _ Hr. rewrite Hr in Hw. done.
Qed.

Lemma sys_approve id : respects (store_step full) (ApproveDeploymentStatus id).
Proof.
  apply sys_update_deployment. intros s d Hd Hw. split; [done|].
  split; [by apply calm_off|]. intros _ Hr. rewrite Hr in Hw. done.
Qed.

(** A claim may move along an edge when its deployment already blocks, or when
    it neither holds nor leaves capacity; an agent's start is not such a move. *)
Definition claim_moves (s : DB) (id : Z) (c c' : RemoteDeploymentClaim) : Prop :=
  claim_shrinks s id c c' ∧ row_follows c c' ∧
  (c_State c' = c_State c ∨ (c_State c' ≠ "started" ∧ c_State c' ≠ "cancel_requested")).

Lemma claim_moves_refl s id c : claim_moves s id c c.
Proof. split; [apply claim_shrinks_refl|]. split; [apply row_follows_refl|by left]. Qed.

Lemma sys_set_claims s t :
  claims_ok t = true →
  (∀ id c', t !! id = Some c' → ∃ c, db_claims s !! id = Some c ∧ claim_moves s id c c') →
  (∀ id c, db_claims s !! id = Some c → ∃ c', t !! id = Some c' ∧ claim_moves s id c c') →
  store_step full s (set_claims t s).
Proof.
  intros Hok Hnew Hold Hinv.
  assert (Hsh : shrinks s (set_claims t s)).
  { apply shrinks_set_claims.
    - intros id c' (c & Hc & Hsh & _)%Hnew. eauto.
    - intros id Ht. destruct (db_claims s !! id) as [c|] eqn:Hc; [|done].
      destruct (Hold id c Hc) as (c' & Hc' & _). congruence. }
  split; [split|split; [|split]].
  - eapply reshapes_wf; [apply Hsh|apply Hinv].
  - exact (si_active _ Hinv).
  - done.
  - intros id c' (c & Hc & _ & (_ & -> & _) & _)%Hnew. by apply (si_keys _ Hinv id c).
  - exact (si_runs _ Hinv).
  - intros Hf. destruct (si_contract _ Hinv Hf) as [Hex Hl].
    split; [eapply reshapes_exclusive; [apply Hsh|apply Hsh|done]|].
    intros id c' (c & Hc & _ & (Hag & _) & Hst)%Hnew Hrun. rewrite Hag.
    destruct Hst as [Hst|[? ?]]; [|tauto]. rewrite Hst in Hrun. by apply (Hl id c).
  - intros id c Hc. destruct (Hold id c Hc) as (c' & Hc' & _ & Hf & _). eauto.
  - by apply scopes_kept_eq.
  - by apply runs_follow_same.
Qed.

Lemma sys_update_claim id where_ set :
  (∀ s c, db_claims s !! id = Some c → where_ s c = true → claim_moves s id c (set s c)) →
  respects (store_step full) (update_claim id where_ set).
Proof.
  intros Hset s a s' Heq.
  apply update_claim_cases in Heq as [[_ ->]|(_ & c & Hc & Hw & -> & Hok)]; [done|].
  apply sys_set_claims; [done|..]; intros id' c'.
  - intros [[<- <-]|[_ Hx]]%lookup_insert_Some; eauto using claim_moves_refl.
  - intros Hx. destruct (decide (id = id')) as [<-|Hne].
    + rewrite lookup_insert_eq. simplify_eq. eauto.
    + rewrite lookup_insert_ne by done. eauto using claim_moves_refl.
Qed.

Lemma sys_update_claims where_ set :
  (∀ s id c, db_claims s !! id = Some c → where_ s c = true → claim_moves s id c (set s c)) →
  respects (store_step full) (update_claims where_ set).
Proof.
  intros Hset s a s'. unfold update_claims, store_claims, checked, mbind, tx_bind, mret, tx_ret.
  destruct (update_where _ _ _) as [t n] eqn:Eu. cbn.
  destruct (claims_ok t) eqn:Hok; [|done]. intros [= _ <-].
  assert (Ht : ∀ id, t !! id = (λ c, if where_ s c then set s c else c) <$> db_claims s !! id).
  { intros id. rewrite <-(lookup_update_where _ (where_ s) (set s)). by rewrite Eu. }
  assert (Hrow : ∀ id c, db_claims s !! id = Some c → claim_moves s id c (if where_ s c then set s c else c)).
  { intros id c Hc. destruct (where_ s c) eqn:Ew; [by apply Hset|apply claim_moves_refl]. }
  apply sys_set_claims; [done|..]; intros id c Hc.
  - rewrite Ht in Hc. apply fmap_Some in Hc as (c0 & Hc0 & ->). eauto.
  - rewrite Ht, Hc. cbn. eauto.
Qed.

Lemma sys_cancel_waiting id : respects (store_step full) (CancelWaitingQueuedRemoteClaim id).
Proof.
  unfold CancelWaitingQueuedRemoteClaim. apply respects_bind; [typeclasses eauto| |intros; respects].
  apply sys_update_claim. intros s c Hc Hw%String.eqb_eq. split; [|split; [|by right]].
  - right. split; [done|]. unfold claim_cleaning. by rewrite Hw.
  - split; [done|]. split; [done|]. cbn. rewrite Hw. claim_edge_now.
Qed.

Lemma sys_fail_waiting reason now id agent :
  respects (store_step full) (FailWaitingRemotePayload reason now id agent).
Proof.
  apply sys_update_claim. intros s c Hc [_ Hw%String.eqb_eq]%andb_true_iff.
  split; [|split; [|by right]].
  - right. split; [done|]. unfold claim_cleaning. by rewrite Hw.
  - split; [done|]. split; [done|]. cbn. rewrite Hw. claim_edge_now.
Qed.

Lemma sys_claim arg : respects (store_step full) (DispatchQueries.ClaimRemoteDeployment arg).
Proof.
  apply sys_update_claim. intros s c Hc Hw. rewrite !andb_true_iff in Hw.
  destruct Hw as (((((((((([_ Hst%String.eqb_eq] & _) & _) & _) & Hd) & _) & _) & _) & _) & _) & _).
  split; [|split; [|by right]].
  - left. unfold deployment_is in Hd. unfold blocking.
    destruct (db_deployments s !! cp_DeploymentID arg) as [d|]; [|done].
    apply andb_true_iff in Hd as [_ Hp%String.eqb_eq]. apply is_blocker_on. by rewrite Hp.
  - split; [done|]. split; [done|]. cbn. rewrite Hst. claim_edge_now.
Qed.

Lemma remote_step_active s s' id : remote_step s s' → active s' id = true → active s id = true.
Proof.
  intros [i c d r Hc Hd _ Hlc]. unfold active. cbn. destruct (decide (i = id)) as [->|Hne];
    [|by rewrite lookup_insert_ne]. rewrite lookup_insert_eq, Hd.
  inversion Hlc; subst; cbn [snd]; unfold end_deployment, outcomes in *; cbn; try done;
    try match goal with H : d_Status d = _ |- _ => by rewrite H end;
    match goal with H : _ ∈ [_; _; _] |- _ => rewrite !elem_of_cons, elem_of_nil in H;
      destruct H as [->|[->|[->|[]]]]; done end.
Qed.

Lemma sys_remote_step s s' : remote_step s s' → store_step full s s'.
Proof.
  intros Hstep Hinv. destruct (remote_step_sound s s' Hstep (si_claims _ Hinv)) as (Hok & [Hre Hb] & Hf).
  assert (scopes_kept s s') as Hkept by (apply scopes_kept_eq; intros id; by apply reshapes_scope).
  split; [|split; [done|]; split; [done|by apply runs_follow_same; destruct Hstep]].
  split; [eapply reshapes_wf; [done|apply Hinv]| |done|..].
  - eapply active_same; [|intros id; by apply remote_step_active|apply Hinv].
    intros id. by apply reshapes_scope.
  - apply (keys_kept s); [apply Hinv|done|apply Hinv|].
    intros id c' Hc'. destruct Hstep as [id0 c d r Hc Hd Has Hlc]. cbn in Hc'.
    destruct (decide (id0 = id)) as [->|Hne].
    + rewrite lookup_insert_eq in Hc'. injection Hc' as <-.
      destruct (lifecycle_identity _ _ _ _ Hlc) as (_ & _ & _ & ->). eauto.
    + rewrite lookup_insert_ne in Hc' by done. eauto.
  - apply (runs_kept s); [apply Hinv|done| |apply Hinv]. by destruct Hstep.
  - intros Hfull. destruct (si_contract _ Hinv Hfull) as [Hex Hl].
    split; [by eapply reshapes_exclusive|]. eapply remote_step_lifecycle; [done|apply Hinv|done].
Qed.

Lemma sys_unsupported_claims now agent :
  respects (store_step full) (FailUnsupportedWaitingRemoteDeploymentClaims now agent).
Proof.
  apply sys_update_claims. intros s id c Hc [[_ Hw%String.eqb_eq]%andb_true_iff _]%andb_true_iff.
  split; [|split; [|by right]].
  - right. split; [done|]. unfold claim_cleaning. by rewrite Hw.
  - split; [done|]. split; [done|]. cbn. rewrite Hw. claim_edge_now.
Qed.

Lemma sys_confirm_claims now agent : respects (store_step full) (ConfirmRemoteDeploymentCleanup now agent).
Proof.
  apply sys_update_claims. intros s id c Hc Hw. split; [|split; [done|by left]].
  right. split; [|done]. unfold claim_blocks. cbn. rewrite andb_false_r. cbn. intros ->. apply orb_true_r.
Qed.

(** Deployments refused for their payload had not started. *)
Lemma sys_fail_unsupported now agent :
  respects (store_step full) (FailUnsupportedRemoteDeploymentStatus now agent).
Proof.
  intros s a s' Heq. unfold FailUnsupportedRemoteDeploymentStatus, update_deployments in Heq.
  match type of Heq with context [update_where ?m ?w ?f] => set (w0 := w) in *; set (f0 := f) in * end.
  destruct (update_where (db_deployments s) w0 f0) as [t n] eqn:Eu. injection Heq as <- <-.
  assert (Ht : ∀ id, t !! id = (λ d, if w0 d then f0 d else d) <$> db_deployments s !! id).
  { intros id. rewrite <-(lookup_update_where _ w0 f0). by rewrite Eu. }
  assert (Hw0 : ∀ d, w0 d = true → (d_Status d ∈? ["queued"; "pending"; "pending_approval"])%bool = true).
  { unfold w0. intros d [? _]%andb_true_iff. done. }
  apply sys_deployments; [| | |done|done|].
  - split; [done..|]. intros id. cbn. rewrite Ht. destruct (db_deployments s !! id) as [d|]; [|done].
    cbn. by destruct (w0 d).
  - intros _ id. unfold blocking. cbn. rewrite Ht. destruct (db_deployments s !! id) as [d|]; [|done]. cbn.
    change (is_blocker (set_deployments t s)) with (is_blocker s).
    destruct (w0 d); [by apply is_blocker_off|done].
  - intros id. unfold active. cbn. rewrite Ht. destruct (db_deployments s !! id) as [d|]; [|done]. cbn.
    by destruct (w0 d).
  - intros _ id c d _ _ Hd Hr Ha. cbn. rewrite Ht, Hd. cbn.
    destruct (w0 d) eqn:Ew; [|eauto]. apply Hw0 in Ew. by rewrite Hr in Ew.
Qed.

Lemma same_update_agent id where_ set : respects same_queue_tables (update_agent id where_ set).
Proof. intros s a s'. unfold update_agent. destruct (update_pk _ _ _ _). by intros [= _ <-]. Qed.

(** SELECT ... by primary key *)
Lemma same_get_agent id : respects same_queue_tables (GetAgent id).
Proof. intros s a s'. unfold GetAgent. destruct (db_agents s !! id); [by intros [= _ <-]|done]. Qed.
Lemma same_get_claim id : respects same_queue_tables (GetRemoteDeploymentClaim id).
Proof. intros s a s'. unfold GetRemoteDeploymentClaim. destruct (db_claims s !! id); [by intros [= _ <-]|done]. Qed.
Lemma same_get_slot id : respects same_queue_tables (GetDeploymentSlot id).
Proof. intros s a s'. unfold GetDeploymentSlot. destruct (_ ≫= _); [by intros [= _ <-]|done]. Qed.
End steps.

#[export] Hint Resolve same_get_agent same_get_claim same_get_slot : respects.
#[export] Hint Resolve sys_start_local sys_cancel_queued sys_approve sys_cancel_waiting
  sys_fail_waiting sys_claim sys_fail_unsupported sys_unsupported_claims sys_confirm_claims
  same_update_agent : respects.

(** ** The bodies of the remote functions *)
Section bodies.
Context {full : bool}.
Implicit Types (s : DB) (identity : RemoteLifecycleClaim).

(** A locked pair of rows moved by the lifecycle is a step of the store. *)
Lemma locked_step s identity token c d r :
  locks s identity token c d → lifecycle (db_now s) (c, d) r →
  store_step full s (put (il_DeploymentID identity) r s).
Proof.
  intros [Ha Hc Hh Ht Hd Has] Hlc. apply sys_remote_step. eapply remote_move; [done..| |done].
  by rewrite Hh.
Qed.

Lemma sys_rows s d :
  store_inv full s → (∃ id, db_deployments s !! id = Some d) →
  ∃ rel env, db_releases s !! d_ReleaseID d = Some rel ∧
             db_environments s !! d_EnvironmentID d = Some env.
Proof.
  intros Hinv (id & Hd). pose proof (si_wf _ Hinv) as Hwf. destruct (wf_release _ Hwf _ _ Hd) as [rel ?].
  destruct (wf_environment _ Hwf _ _ Hd) as [env ?]. eauto.
Qed.

Lemma sys_finish identity state : respects (store_step full) (finishRemoteDeploymentLifecycle identity state).
Proof.
  intros s a s' Heq Hinv. destruct (lock_decided s identity true) as [(c & d & Hl)|He].
  2: { unfold finishRemoteDeploymentLifecycle in Heq. by rewrite (bind_err _ _ _ _ He) in Heq. }
  destruct (sys_rows s d Hinv) as (rel & env & Hrel & Henv); [eexists; apply Hl|].
  rewrite (finish_exec s identity state c d rel env Hl (si_claims _ Hinv) Hrel Henv) in Heq.
  destruct (String.eqb (c_State c) state); [by injection Heq as _ <-|].
  destruct (finishable state c d) eqn:Hf; [|done]. injection Heq as _ <-. revert Hinv.
  eapply locked_step; [done|]. by apply finished_lifecycle.
Qed.

Lemma acknowledged_lifecycle now c d :
  (c_State c ∈? ["cancel_requested"; "cancel_unconfirmed"])
    && (d_Status d ∈? ["running"; "failed"]) = true →
  lifecycle now (c, d) (cancel_claim now c,
    if String.eqb (d_Status d) "failed" then d else end_deployment "cancelled" now d).
Proof.
  intros [Hst%in_list_true Hd%in_list_true]%andb_true_iff.
  rewrite !elem_of_cons, elem_of_nil in Hst, Hd.
  destruct (String.eqb_spec (d_Status d) "failed").
  - apply lc_late_acknowledge; tauto.
  - apply lc_acknowledge; tauto.
Qed.

Lemma sys_acknowledge identity : respects (store_step full) (acknowledgeRemoteCancellation identity).
Proof.
  intros s a s' Heq Hinv. destruct (lock_decided s identity true) as [(c & d & Hl)|He].
  2: { unfold acknowledgeRemoteCancellation in Heq. by rewrite (bind_err _ _ _ _ He) in Heq. }
  rewrite (acknowledge_exec s identity c d Hl (si_claims _ Hinv)) in Heq.
  destruct (String.eqb (c_State c) "cancelled"); [by injection Heq as _ <-|].
  destruct ((c_State c ∈? _) && _) eqn:Hg; [|done]. injection Heq as _ <-. revert Hinv.
  eapply locked_step; [done|]. by apply acknowledged_lifecycle.
Qed.

Lemma sys_cancel_assigned a : respects (store_step full) (cancelAssignedRemoteDeployment a).
Proof.
  intros s r s' Heq Hinv. destruct (lock_decided s (assigned_identity a) false) as [(c & d & Hl)|He].
  2: { unfold cancelAssignedRemoteDeployment in Heq.
       rewrite (bind_ok CurrentUnixTime _ s (db_now s) s) in Heq by done.
       by rewrite (bind_err _ _ _ _ He) in Heq. }
  rewrite (cancel_exec s a c d Hl (si_claims _ Hinv)) in Heq.
  destruct (c_State c ∈? ["waiting"; "claimed"])%bool eqn:Hun.
  { destruct (d_Status d ∈? ["pending"; "pending_approval"])%bool eqn:Hpre; [|done].
    injection Heq as _ <-. revert Hinv. apply (locked_step s (assigned_identity a) false c d _ Hl).
    apply in_list_true in Hun, Hpre. rewrite !elem_of_cons, elem_of_nil in Hun, Hpre.
    apply lc_cancel_unstarted; tauto. }
  destruct (String.eqb_spec (c_State c) "started") as [Hst|Hst].
  { destruct (String.eqb_spec (d_Status d) "running") as [Hr|Hr]; [|done].
    injection Heq as _ <-. revert Hinv. apply (locked_step s (assigned_identity a) false c d _ Hl).
    by apply lc_request_cancel. }
  destruct ((_ && _) || _); [|done]. by injection Heq as _ <-.
Qed.

Lemma sys_start_remote identity : respects (store_step full) (startRemoteDeployment identity).
Proof.
  intros s a s' Heq Hinv. destruct (lock_decided s identity true) as [(c & d & Hl)|He].
  2: { unfold startRemoteDeployment in Heq. by rewrite (bind_err _ _ _ _ He) in Heq. }
  rewrite (start_exec s identity c d Hl (si_claims _ Hinv)) in Heq.
  destruct (String.eqb_spec (c_State c) "claimed") as [Hst|Hst].
  - destruct (startable (db_now s) c d) eqn:Hs; [|done]. injection Heq as _ <-. revert Hinv.
    eapply locked_step; [done|]. by apply startable_lifecycle.
  - destruct (_ && _); [|done]. by injection Heq as _ <-.
Qed.

Lemma sys_heartbeat identity : respects (store_step full) (heartbeatRemoteDeployment identity).
Proof.
  intros s b s' Heq Hinv.
  destruct (heartbeat_inv s identity b s' (si_claims _ Hinv) Heq) as (c & d & a & Hl & Hr & Hst & _ & ->).
  pose proof (locked_step s identity true c d _ Hl (lc_heartbeat (db_now s) c d Hst Hr)) as Hstep.
  revert Hinv. apply (store_step_trans full s _ _ Hstep). by apply sys_same.
Qed.
End bodies.

#[export] Hint Resolve sys_finish sys_acknowledge sys_cancel_assigned sys_start_remote
  sys_heartbeat : respects.

Section maintenance.
Context `{AgentEnvironment}.
Implicit Types (s : DB).

(** In a store that satisfies the invariant the sweep of one claim never
    fails: it moves the claim or leaves it. *)
Lemma maintain_claim_cases s candidate :
  sys_inv s →
  maintain_claim candidate s = Ok (tt, s) ∨
  ∃ c d r, locks s (mkIdentity candidate.1 candidate.2 None) false c d ∧
    maintained (db_now s) c d = Some r ∧ lifecycle (db_now s) (c, d) r ∧
    maintain_claim candidate s = Ok (tt, put candidate.1 r s).
Proof.
  destruct candidate as [id agent]. cbn [fst snd]. intros Hinv.
  destruct (lock_decided s (mkIdentity id agent None) false) as [(c & d & Hl)|He].
  - assert (Hrun : c_State c = "started" ∨ c_State c = "cancel_requested" → d_Status d = "running").
    { intros Hst. destruct (si_lifecycle _ Hinv id c (lk_claim _ _ _ _ _ Hl) Hst) as (d' & Hd' & Hr & _).
      pose proof (lk_deployment _ _ _ _ _ Hl) as Hd. cbn in Hd. by simplify_eq. }
    assert (Hkey : c_DeploymentID c = id) by apply (si_keys _ Hinv id c), (lk_claim _ _ _ _ _ Hl).
    rewrite (maintain_exec s id agent c d Hl (si_claims _ Hinv) Hkey Hrun).
    destruct (maintained (db_now s) c d) as [r|] eqn:Hm; [right|by left].
    exists c, d, r. split; [done|]. split; [done|]. split; [|done].
    apply maintained_lifecycle; [|done..].
    apply (claims_ok_check _ _ _ (si_claims _ Hinv) (lk_claim _ _ _ _ _ Hl)).
  - left. unfold maintain_claim. rewrite (bind_ok CurrentUnixTime _ s (db_now s) s) by done.
    cbv zeta. rewrite (bind_ok (attempt _) _ s (Err ErrRemoteLifecycleConflict) s); [done|].
    unfold attempt. cbn [fst snd]. by rewrite He.
Qed.

Context {full : bool}.

Lemma sys_expire_claim now id agent : respects (store_step full) (ExpireRemoteClaim now id agent).
Proof.
  apply sys_update_claim. intros s c Hc Hw. rewrite !andb_true_iff in Hw.
  destruct Hw as [[[_ Hst%String.eqb_eq] _] _].
  split; [|split; [|by right]]; [right; split; [done|]; unfold claim_cleaning; by rewrite Hst|].
  split; [done|]. split; [done|]. cbn. rewrite Hst. claim_edge_now.
Qed.

Lemma sys_lose_claim now id agent stale : respects (store_step full) (LoseStaleRemoteClaim now id agent stale).
Proof.
  apply sys_update_claim. intros s c Hc Hw. rewrite !andb_true_iff in Hw.
  destruct Hw as [[_ Hst%String.eqb_eq] _].
  split; [|split; [|by right]]; [right; unfold claim_blocks, claim_cleaning; by rewrite Hst|].
  split; [done|]. split; [done|]. cbn. rewrite Hst. claim_edge_now.
Qed.

Lemma sys_expire_cancellation now id agent stale :
  respects (store_step full) (ExpireRemoteCancellationClaim now id agent stale).
Proof.
  apply sys_update_claim. intros s c Hc Hw. rewrite !andb_true_iff in Hw.
  destruct Hw as [[_ Hst%String.eqb_eq] _].
  split; [|split; [|by right]]; [right; unfold claim_blocks, claim_cleaning; by rewrite Hst|].
  split; [done|]. split; [done|]. cbn. rewrite Hst. claim_edge_now.
Qed.

(** The deployment of a claim that is over fails; whether it runs under another
    claim is a question of the contract. *)
Lemma sys_fail_status now id agent :
  full = false → respects (store_step full) (FailRemoteDeploymentStatus now id agent).
Proof.
  intros ->. apply sys_update_deployment. intros s d Hd Hw. split; [done|]. split; [by apply calm_off|done].
Qed.

Lemma same_lock_lifecycle identity token : respects same_queue_tables (lockRemoteLifecycle identity token).
Proof. respects. Qed.
End maintenance.

#[export] Hint Resolve sys_expire_claim sys_lose_claim sys_expire_cancellation same_lock_lifecycle : respects.

Section sweep.
Context `{AgentEnvironment} {full : bool}.
Implicit Types (s : DB).

Lemma sys_maintain candidate : respects (store_step full) (maintain_claim candidate).
Proof.
  destruct full eqn:Hfull.
  - intros s [] s' Heq Hinv. destruct (maintain_claim_cases s candidate Hinv) as
      [Hm|(c & d & r & Hl & _ & Hlc & Hm)]; rewrite Hm in Heq; injection Heq as <-; [done|].
    revert Hinv. apply (locked_step s (mkIdentity candidate.1 candidate.2 None) false c d r Hl Hlc).
  - pose proof (λ now id agent, sys_fail_status (full := false) now id agent eq_refl) as Hfail.
    unfold maintain_claim, failRemoteDeployment. respects.
Qed.

Lemma sys_maintain_claims l s : store_step full s (maintain_claims l s).2.
Proof.
  revert s. induction l as [|x l IH]; intros s; [done|]. cbn.
  pose proof (WithDeploymentTx_respects (store_step full) x.1 (maintain_claim x) s (sys_maintain x)) as Hw.
  unfold maintainRemoteClaim. destruct (WithDeploymentTx x.1 (maintain_claim x) s) as [[[]|e] s1];
    cbn in *; [|done]. etrans; [exact Hw|apply IH].
Qed.
End sweep.

(** ** Credentials

    What decides whether a call is granted its locks: the agent, its pairing,
    the claim and the assignment. Admission changes none of them. *)
Record same_credentials (s s' : DB) : Prop := {
  sc_agents : db_agents s' = db_agents s;
  sc_pairings : db_pairings s' = db_pairings s;
  sc_claims : db_claims s' = db_claims s;
  sc_assigned : ∀ id, d_AssignedAgentID <$> db_deployments s' !! id =
                      d_AssignedAgentID <$> db_deployments s !! id }.

#[export] Instance same_credentials_refl : Reflexive same_credentials.
Proof. by split. Qed.
#[export] Instance same_credentials_trans : Transitive same_credentials.
Proof.
  intros s1 s2 s3 [Ha Hb Hc Hd] [Ha' Hb' Hc' Hd']. split; [congruence..|]. intros id. by rewrite Hd'.
Qed.

Section credentials.
Implicit Types (s : DB) (identity : RemoteLifecycleClaim).

Lemma credentials_locks s s' identity token c d :
  same_credentials s s' → locks s' identity token c d → ∃ d0, locks s identity token c d0.
Proof.
  intros [Ha Hp Hc Has] [L1 L2 L3 L4 L5 L6].
  pose proof (Has (il_DeploymentID identity)) as Hd. rewrite L5 in Hd. cbn in Hd.
  destruct (db_deployments s !! il_DeploymentID identity) as [d0|] eqn:Ed; [|done].
  injection Hd as Hd. exists d0. unfold agent_ready in L1. rewrite Ha, Hp in L1. rewrite Hc in L2.
  split; try done. by rewrite <-Hd.
Qed.

Lemma credentials_create_slot env dep :
  respects same_credentials (CreateEnvironmentDeploymentSlot env dep).
Proof. by intros s a s' [->|[t ->]]%create_slot_cases. Qed.

Lemma credentials_write f : (∀ s, same_credentials s (f s)) → respects same_credentials (write f).
Proof. intros Hf s a s' [= _ <-]. apply Hf. Qed.

Lemma credentials_admit id : respects same_credentials (AdmitQueuedDeployment id).
Proof.
  intros s a s' [[_ ->]|(_ & d & Hd & _ & ->)]%update_deployment_cases; [done|].
  split; [done..|]. intros id'. cbn. destruct (decide (id = id')) as [<-|]; [|by rewrite lookup_insert_ne].
  by rewrite lookup_insert_eq, Hd.
Qed.

Lemma credentials_get_slot id : respects same_credentials (GetDeploymentSlot id).
Proof. intros s a s'. unfold GetDeploymentSlot. destruct (_ ≫= _); [by intros [= _ <-]|done]. Qed.
Lemma credentials_next id : respects same_credentials (GetNextQueuedDeployment id).
Proof.
  intros s a s'. unfold GetNextQueuedDeployment.
  destruct (in_scope_rows s id _) as [|[n d] l]; [done|by intros [= _ <-]].
Qed.

Lemma credentials_advance env : respects same_credentials (advanceEnvironmentQueue env).
Proof.
  unfold advanceEnvironmentQueue, advanceDeploymentQueue, DeleteDeploymentSlot, queueAudit.
  repeat first
    [ apply credentials_create_slot | apply credentials_admit
    | apply credentials_write; done
    | apply credentials_get_slot | apply credentials_next
    | respects_step ].
Qed.

Lemma bind_respects R {A B} (m : Tx A) (k : A → Tx B) s b s' :
  (m ≫= k) s = Ok (b, s') → respects R m →
  ∃ a s1, m s = Ok (a, s1) ∧ R s s1 ∧ k a s1 = Ok (b, s').
Proof. intros (a & s1 & Hm & Hk)%bind_inv Hr. exists a, s1. eauto. Qed.
End credentials.
