(* ===== verification/CreationSafety.v ===== *)
(** * CreationSafety: creation and artifact gates keep the store's invariant

    Every statement of CreationQueries.v and GateQueries.v, and the entry
    points built from them, respect [store_step]: a new deployment enters its
    queue without disturbing the deployments and claims that are there, and a
    gate moves its own deployment only. *)
From S2P Require Import Prelude Text Db Tx StageQueries QueueQueries DeploymentQueue QueueSafety DispatchQueries RemoteLifecycle RemoteSafety RemoteSpec RemoteRefine StepSpec AccessQueries Base64 Secret Variables VariableTheorems Gate Ansible CreationQueries GateQueries ArtifactGate DeploymentCreation System.

(** Open a statement and look at every outcome of it. *)
Ltac open_statement :=
  let s := fresh "s" in let a := fresh "a" in let s' := fresh "s'" in
  intros s a s';
  lazymatch goal with |- ?m s = _ → _ => unfold_head m end;
  repeat case_match; try done; (intros [= _ <-] || (intros ?; simplify_eq)).

(** Walk through a body and, beyond what the hints know, open its statements:
    what is left of one is a case split, an update of tables that [rows] says the
    relation does not see, or another statement on the same store. *)
Ltac walk_statement rows :=
  lazymatch goal with
  | |- respects _ (write _) => let s := fresh in intros s ? ? [= _ <-]; rows
  | |- respects _ (checked _ _) => apply respects_checked; intros ?; rows
  | |- respects _ (insert_row _ _ _ _ _) => unfold insert_row
  | |- respects _ (λ _, _) =>
      let s := fresh "s" in let a := fresh "a" in let s' := fresh "s'" in intros s a s'; cbv beta;
      repeat match goal with |- context [match ?x with _ => _ end = _ → _] => destruct x end;
      lazymatch goal with
      | |- Ok _ = Ok _ → _ => intros [= _ <-]; rows
      | |- Err _ = _ → _ => done
      | |- ?m s = Ok _ → ?R _ _ => refine ((_ : respects R m) s a s')
      end
  end.
Ltac walk rows := repeat first [progress respects | walk_statement rows].

Ltac same_statement := open_statement; by split.
Ltac readonly_statement := open_statement; done.

(** ** Queries *)
Section queries.
Lemma readonly_get_release id : readonly (GetRelease id).
Proof. readonly_statement. Qed.
Lemma readonly_get_deployment_release id : readonly (GetDeploymentRelease id).
Proof. readonly_statement. Qed.
Lemma readonly_get_environment id : readonly (GetEnvironment id).
Proof. readonly_statement. Qed.
Lemma readonly_get_project id : readonly (GetProject id).
Proof. readonly_statement. Qed.
Lemma readonly_get_lifecycle id : readonly (GetLifecycle id).
Proof. readonly_statement. Qed.
Lemma readonly_latest_success r e : readonly (GetLatestSuccessfulDeploymentForReleaseEnv r e).
Proof. readonly_statement. Qed.
Lemma readonly_get_source id : readonly (GetDeploymentStepSource id).
Proof. readonly_statement. Qed.
Lemma readonly_get_gate_run id : readonly (GetArtifactGateRun id).
Proof. readonly_statement. Qed.
Lemma readonly_get_gate id step : readonly (GetArtifactGate id step).
Proof. readonly_statement. Qed.
Lemma readonly_gate_or_unavailable id step : readonly (gate_or_unavailable id step).
Proof.
  intros s g s'. unfold gate_or_unavailable. pose proof (readonly_get_gate id step s) as Hg.
  destruct (GetArtifactGate id step s) as [[g0 s0]|[]]; try done. apply Hg.
Qed.
Lemma readonly_get_idempotency p : readonly (GetIdempotency p).
Proof. readonly_statement. Qed.
Lemma readonly_deployment_variables `{Box} configured unmarshal id :
  readonly (deploymentVariables configured unmarshal id).
Proof.
  intros s a s'. unfold deploymentVariables, mbind, result_bind.
  destruct (deploymentVariablesAt _ _ _ _ _ _ _); [|done]. by intros [= _ <-].
Qed.
Lemma readonly_is_check id : readonly (IsAnsibleCheckDeployment id).
Proof. readonly_statement. Qed.
Lemma readonly_latest s where_ : readonly (latest_deployment s where_).
Proof. readonly_statement. Qed.
Lemma readonly_latest_project p e : readonly (GetLatestProjectEnvironmentDeployment p e).
Proof. intros s a s'. apply readonly_latest. Qed.
Lemma readonly_rollback_target id : readonly (GetRollbackTarget id).
Proof.
  intros s a s'. unfold GetRollbackTarget. destruct (db_deployments s !! id); [|done]. apply readonly_latest.
Qed.
End queries.

#[export] Hint Resolve @readonly_lift readonly_get_release readonly_get_deployment_release
  readonly_get_environment readonly_get_project readonly_get_lifecycle readonly_latest_success
  readonly_get_source readonly_get_gate_run readonly_get_gate readonly_gate_or_unavailable
  readonly_get_idempotency @readonly_deployment_variables readonly_is_check readonly_latest_project
  readonly_rollback_target @readonly_captured : readonly.
#[export] Hint Extern 2 (respects _ _) =>
  apply readonly_respects; [typeclasses eauto|solve [eauto with readonly nocore]] : respects.

(** ** Statements that leave the tables of the invariant alone *)
Section statements.

Lemma same_insert_row {K A} `{Countable K} (table : DB → gmap K A) store k row ok :
  (∀ t s, same_queue_tables s (store t s)) → respects same_queue_tables (insert_row table store k row ok).
Proof.
  intros Hst s a s'. unfold insert_row. destruct (_ && _); [|done]. intros [= _ <-]. apply Hst.
Qed.

Lemma same_create_step st : respects same_queue_tables (CreateDeploymentStep st).
Proof.
  intros s a s'. unfold CreateDeploymentStep. destruct (snapshot_writable _ _); [|by intros [= _ <-]].
  intros ([] & s1 & Hi & Heq)%bind_inv. injection Heq as _ <-. revert Hi.
  by apply same_insert_row.
Qed.
Lemma same_add_selector d i l : respects same_queue_tables (AddDeploymentStepSelector d i l).
Proof. same_statement. Qed.
Lemma same_freeze_json json id : respects same_queue_tables (FreezeDeploymentStepSourceJSON json id).
Proof. same_statement. Qed.
Lemma same_freeze id : respects same_queue_tables (FreezeDeploymentStepSource id).
Proof.
  intros s a s'. unfold FreezeDeploymentStepSource. destruct (_ ≫= _); [apply same_freeze_json|].
  by intros [= _ <-].
Qed.
Lemma same_create_verification id ty target timeout index :
  respects same_queue_tables (CreateDeploymentVerification id ty target timeout index).
Proof. intros s. by apply same_insert_row. Qed.
Lemma same_create_gate_run id : respects same_queue_tables (CreateArtifactGateRun id).
Proof. intros s. by apply same_insert_row. Qed.
Lemma same_copy_artifact row id : respects same_queue_tables (copy_artifact row id).
Proof.
  intros s a s'. unfold copy_artifact. destruct row; [by apply same_insert_row|by intros [= _ <-]].
Qed.
Lemma same_copy_release id r : respects same_queue_tables (CopyReleaseArtifactToDeployment id r).
Proof. intros s. apply same_copy_artifact. Qed.
Lemma same_copy_deployment id r : respects same_queue_tables (CopyDeploymentArtifact id r).
Proof. intros s. apply same_copy_artifact. Qed.
Lemma same_create_rollback id a b v w : respects same_queue_tables (CreateDeploymentRollback id a b v w).
Proof. intros s. by apply same_insert_row. Qed.
Lemma same_claim_idempotency p : respects same_queue_tables (ClaimIdempotency p).
Proof. intros s. by apply same_insert_row. Qed.
Lemma same_complete_idempotency p r : respects same_queue_tables (CompleteIdempotency p r).
Proof. by apply same_write. Qed.
Lemma same_create_gate p : respects same_queue_tables (CreateArtifactGate p).
Proof. intros s. by apply same_insert_row. Qed.
Lemma same_create_chunk id step i c : respects same_queue_tables (CreateArtifactGateChunk id step i c).
Proof. intros s. by apply same_insert_row. Qed.
Lemma same_claim_gate_run id : respects same_queue_tables (ClaimArtifactGateRun id).
Proof. intros s a s'. unfold ClaimArtifactGateRun. destruct (update_pk _ _ _ _). by intros [= _ <-]. Qed.
Lemma same_advance_gate_run id n : respects same_queue_tables (AdvanceArtifactGateRun id n).
Proof. by apply same_write. Qed.
Lemma same_approve_gate id step rev sha now b a :
  respects same_queue_tables (ApproveArtifactGate id step rev sha now b a).
Proof. intros s x s'. unfold ApproveArtifactGate. destruct (update_pk _ _ _ _). by intros [= _ <-]. Qed.
Lemma same_update_gates w st : respects same_queue_tables (update_gates w st).
Proof. by apply same_write. Qed.
Lemma same_delete_chunks c : respects same_queue_tables (DeleteExpiredArtifactGateChunks c).
Proof. by apply same_write. Qed.
Lemma same_reconcile_verifications : respects same_queue_tables ReconcileTerminalVerifications.
Proof. by apply same_write. Qed.
Lemma same_variable_snapshot id v : respects same_queue_tables (CreateDeploymentVariableSnapshot id v).
Proof. same_statement. Qed.
End statements.

#[export] Hint Resolve same_create_step same_add_selector same_freeze_json same_freeze
  same_create_verification same_create_gate_run same_copy_release same_copy_deployment
  same_create_rollback same_claim_idempotency same_complete_idempotency same_create_gate
  same_create_chunk same_claim_gate_run same_advance_gate_run same_approve_gate
  same_update_gates same_delete_chunks same_variable_snapshot
  same_reconcile_verifications : respects.

(** ** A new row of deployments *)
Section insertion.
Implicit Types (s : DB).

Lemma foldr_max_ge (l : list Z) (n x : Z) : x ∈ l → x <= foldr Z.max n l.
Proof.
  induction l as [|y l IH]; [set_solver|]. cbn. intros [->|Hx]%elem_of_cons; [lia|].
  specialize (IH Hx). lia.
Qed.

Lemma next_deployment_fresh s : db_deployments s !! next_deployment_id s = None.
Proof.
  destruct (db_deployments s !! next_deployment_id s) as [d|] eqn:Hd; [exfalso|done].
  assert (next_deployment_id s ∈ fst <$> map_to_list (db_deployments s)) as Hin.
  { apply list_elem_of_fmap. eexists (_, d). split; [done|]. by apply elem_of_map_to_list. }
  apply (foldr_max_ge _ (dt_seq (db_creation s))) in Hin. unfold next_deployment_id in Hin at 1. lia.
Qed.

(** A row that neither its status nor a claim or a run makes a blocker. *)
Lemma fresh_not_blocker {full} s id d :
  store_inv full s → db_deployments s !! id = None → (d_Status d ∈? active_statuses)%bool = false →
  d_Status d ≠ "cleanup_unconfirmed" → is_blocker s id d = false.
Proof.
  intros Hinv Hid Hst Hcl%String.eqb_neq.
  assert (Hc : ∀ p, claim_in s id p = false).
  { intros p. unfold claim_in. destruct (db_claims s !! id) as [c|] eqn:Hc; [|done].
    apply (si_keys _ Hinv) in Hc as [_ [? ?]]. congruence. }
  assert (Hr : ∀ p, run_in s id p = false).
  { intros p. unfold run_in. apply exists_row_false. intros k r Hr.
    destruct (Z.eqb_spec (r_DeploymentID r) id) as [<-|]; [|done].
    apply (proj2 (si_runs _ Hinv)) in Hr as [_ [? ?]]. congruence. }
  unfold is_blocker. by rewrite Hst, Hcl, !Hc, !Hr.
Qed.

Section fresh.
Context {full : bool} (s : DB) (d : Deployment).
Context (Hfresh : db_deployments s !! d_ID d = None) (Hinv : store_inv full s).
Context (Hrel : is_Some (db_releases s !! d_ReleaseID d)).
Context (Henv : is_Some (db_environments s !! d_EnvironmentID d)).
Context (Hst : (d_Status d ∈? active_statuses)%bool = false) (Hcl : d_Status d ≠ "cleanup_unconfirmed").

Let s' := insert_deployment d s.

Lemma fresh_row id row : db_deployments s !! id = Some row → db_deployments s' !! id = Some row.
Proof using Hfresh.
  intros Hid. cbn. rewrite lookup_insert_ne; [done|]. intros <-. congruence.
Qed.

Lemma fresh_scope : scopes_kept s s'.
Proof using Hfresh.
  intros id sc (row & rel & Hid & Hr & ->)%scope_of_lookup. apply scope_of_lookup.
  exists row, rel. split; [by apply fresh_row|done].
Qed.

(** A deployment that blocks afterwards was there, in the same scope. *)
Lemma fresh_blocking id sc :
  blocking s' id = true → scope_of s' id = Some sc → blocking s id = true ∧ scope_of s id = Some sc.
Proof using Hfresh Hinv Hst Hcl.
  unfold blocking, scope_of, deployment_scope. cbn.
  destruct (decide (d_ID d = id)) as [<-|Hne].
  - rewrite lookup_insert_eq. intros Hb. exfalso. revert Hb.
    change (is_blocker s' (d_ID d) d) with (is_blocker s (d_ID d) d). by rewrite (fresh_not_blocker (full := full)).
  - by rewrite lookup_insert_ne.
Qed.

Lemma fresh_active id sc :
  active s' id = true → scope_of s' id = Some sc → active s id = true ∧ scope_of s id = Some sc.
Proof using Hfresh Hst.
  unfold active, scope_of, deployment_scope. cbn. destruct (decide (d_ID d = id)) as [<-|Hne].
  - rewrite lookup_insert_eq. intros Ha. change ((d_Status d ∈? active_statuses)%bool = true) in Ha. congruence.
  - by rewrite lookup_insert_ne.
Qed.

Lemma fresh_wf : queue_wf s'.
Proof using Hfresh Hinv Hrel Henv.
  pose proof fresh_scope as Hsc. destruct (si_wf _ Hinv) as [Hk Hr He Hs]. split.
  - intros id row. cbn. intros [[<- <-]|[_ Hid]]%lookup_insert_Some; eauto.
  - intros id row. cbn. intros [[<- <-]|[_ Hid]]%lookup_insert_Some; eauto.
  - intros id row. cbn. intros [[<- <-]|[_ Hid]]%lookup_insert_Some; eauto.
  - intros sc id Hslot. apply Hsc. by apply Hs.
Qed.

Lemma fresh_exclusive : exclusive s → exclusive s'.
Proof using Hfresh Hinv Hst Hcl.
  intros [Hone Hown]. split.
  - intros sc a b Ha Hb Hba Hbb. destruct (fresh_blocking a sc Hba Ha), (fresh_blocking b sc Hbb Hb).
    by apply (Hone sc).
  - intros sc b o Hb Hbb Hslot. destruct (fresh_blocking b sc Hbb Hb). by apply (Hown sc b o).
Qed.

Lemma sys_insert_deployment : store_inv full s' ∧ follows s s'.
Proof using Hfresh Hinv Hrel Henv Hst Hcl.
  pose proof fresh_scope as Hsc. split; [split|split; [|split; [done|by apply runs_follow_same]]].
  - apply fresh_wf.
  - intros sc a b Ha Hb Haa Hab. destruct (fresh_active a sc Haa Ha), (fresh_active b sc Hab Hb).
    by apply (si_active _ Hinv sc).
  - apply Hinv.
  - intros id c Hc. destruct (si_keys _ Hinv id c Hc) as [? [row ?]].
    split; [done|]. exists row. by apply fresh_row.
  - split; [apply (si_runs _ Hinv)|]. intros k r Hk.
    destruct (proj2 (si_runs _ Hinv) k r Hk) as [? [row ?]]. split; [done|]. exists row. by apply fresh_row.
  - intros Hf. destruct (si_contract _ Hinv Hf) as [Hex Hl]. split; [by apply fresh_exclusive|].
    intros id c Hc Hcs. destruct (Hl id c Hc Hcs) as (row & Hrow & ?).
    exists row. split; [by apply fresh_row|done].
  - intros id c Hc. exists c. eauto using row_follows_refl.
Qed.
End fresh.

(** A deployment that waits is inserted without disturbing the queue. *)
Lemma sys_create_deployment {full} arg :
  (cd_Status arg ∈? snapshot_statuses)%bool = true → cd_Status arg ≠ "pending" →
  respects (store_step full) (CreateDeployment arg).
Proof.
  intros Hst%in_list_true Hp s d s'. unfold CreateDeployment.
  destruct (deployment_constraints s arg) eqn:Hok; [|done]. intros [= <- <-] Hinv.
  unfold deployment_constraints in Hok. rewrite !andb_true_iff, !not_null_true in Hok.
  destruct Hok as [[[Hrel Henv] _] _].
  unfold snapshot_statuses in Hst. rewrite !elem_of_cons, elem_of_nil in Hst.
  apply sys_insert_deployment; try done; [apply next_deployment_fresh|..];
    cbn [new_deployment d_Status]; destruct Hst as [->|[Hp'|[->|[]]]]; done.
Qed.
End insertion.

(** ** Creating deployments *)
Section creating.
Context {full : bool}.
Context `{GoFormat} `{Box} (configured : bool).
Context (marshal : list ReleaseVariable → string) (unmarshal : string → option (list ReleaseVariable)).
Context `{AnsibleLibraries} `{AgentProtocol} `{CreationLibraries} (limits : ExecutionLimits).
Implicit Types (s : DB).

Lemma queued_not_pending arg : cd_Status (queued_params arg) ≠ "pending".
Proof.
  unfold queued_params. destruct (String.eqb_spec (cd_Status (cd_set_AssignedAgentID None arg)) "pending"); done.
Qed.

Lemma same_snapshot_selectors id index seen labels :
  respects same_queue_tables (snapshot_selectors id index seen labels).
Proof. revert seen. induction labels as [|l labels IH]; intros seen; cbn [snapshot_selectors]; respects; auto. Qed.
Hint Resolve same_snapshot_selectors : respects.

Lemma same_snapshot_variables nonce d :
  respects same_queue_tables (snapshotDeploymentVariables configured marshal nonce d).
Proof. unfold snapshotDeploymentVariables. respects. Qed.

Lemma same_validate_captured d steps :
  respects same_queue_tables (validateAnsibleCapturedVariables configured unmarshal d steps).
Proof. unfold validateAnsibleCapturedVariables. respects. Qed.

Lemma same_snapshot_verification d steps : respects same_queue_tables (snapshotVerification d steps).
Proof. unfold snapshotVerification. respects. Qed.

Lemma same_snapshot_steps id steps json :
  respects same_queue_tables (snapshotDeploymentStepsFromSource id steps json).
Proof. unfold snapshotDeploymentStepsFromSource. respects. Qed.

Lemma same_admission project environment steps :
  respects same_queue_tables (validateAnsibleAdmission configured project environment steps).
Proof.
  unfold validateAnsibleAdmission, ValidateAnsibleCredential, inheritedVariables. respects.
Qed.
Hint Resolve same_snapshot_variables same_validate_captured same_snapshot_verification
  same_snapshot_steps same_admission : respects.

(** A deployment is created waiting, whatever status was asked for: the steps
    of a started one cannot be frozen. *)
Lemma created_waiting nonce arg steps json s d s' :
  createDeploymentWithSteps configured marshal unmarshal nonce arg steps json s = Ok (d, s') →
  (cd_Status (queued_params arg) ∈? snapshot_statuses)%bool = true.
Proof.
  unfold createDeploymentWithSteps. intros E. do 6 apply bind_inv in E as (? & ? & _ & E).
  apply bind_inv in E as (row & s1 & Hc & E).
  apply (bind_respects same_queue_tables) in E as (? & s2 & _ & R2 & E); [|respects].
  apply (bind_respects same_queue_tables) in E as (? & s3 & _ & R3 & E); [|respects].
  apply (bind_respects same_queue_tables) in E as (? & s4 & _ & R4 & E); [|respects].
  apply (bind_respects same_queue_tables) in E as (? & s5 & _ & R5 & E); [|respects].
  apply bind_inv in E as (? & s6 & Hs & _).
  unfold snapshotDeploymentStepsFromSource in Hs. apply bind_inv in Hs as (n & s7 & Hl & Hs).
  unfold LockDeploymentSnapshot in Hl. injection Hl as <- <-.
  apply bind_inv in Hs as (? & s8 & Hg & _).
  assert (Hrow : db_deployments s5 !! d_ID row = Some row ∧ d_Status row = cd_Status (queued_params arg)).
  { rewrite (sq_deployments _ _ R5), (sq_deployments _ _ R4), (sq_deployments _ _ R3),
      (sq_deployments _ _ R2). revert Hc. unfold CreateDeployment.
    destruct (deployment_constraints _ _); [|done]. intros [= <- <-]. cbn. by rewrite lookup_insert_eq. }
  destruct Hrow as [Hrow <-]. unfold snapshot_open, deployment_is in Hg. rewrite Hrow in Hg.
  by destruct (d_Status row ∈? snapshot_statuses)%bool.
Qed.

Lemma sys_create_with_steps nonce arg steps json :
  respects (store_step full) (createDeploymentWithSteps configured marshal unmarshal nonce arg steps json).
Proof.
  destruct (cd_Status (queued_params arg) ∈? snapshot_statuses)%bool eqn:Hst.
  - assert (Hc : respects (store_step full) (CreateDeployment (queued_params arg)))
      by (apply sys_create_deployment; [done|apply queued_not_pending]).
    unfold createDeploymentWithSteps. respects.
  - intros s d s' E. apply created_waiting in E. congruence.
Qed.
Hint Resolve sys_create_with_steps : respects.

Lemma sys_create_deployment_body nonce arg :
  respects (store_step full) (createDeployment configured marshal unmarshal limits nonce arg).
Proof. unfold createDeployment. respects. Qed.

Lemma sys_create_from_deployment nonce arg source :
  respects (store_step full) (createDeploymentFromDeployment configured marshal unmarshal limits nonce arg source).
Proof. unfold createDeploymentFromDeployment. respects. Qed.
Hint Resolve sys_create_deployment_body sys_create_from_deployment : respects.

Lemma sys_create_rollback nonce source target :
  respects (store_step full) (createRollback configured marshal unmarshal limits nonce source target).
Proof. unfold createRollback, previewRollback. respects. Qed.
End creating.

#[export] Hint Resolve sys_create_deployment_body sys_create_from_deployment sys_create_rollback : respects.

(** ** Artifact gates and the end of a local run *)
Section gating.
Context {full : bool}.
Implicit Types (s : DB).

Lemma sys_pause id : respects (store_step full) (PauseArtifactGateDeployment id).
Proof.
  apply sys_update_deployment. intros s d Hd Hw%String.eqb_eq. split; [done|]. rewrite Hw.
  split; [|done]. apply calm_on. by rewrite Hw.
Qed.

Lemma sys_resume id : respects (store_step full) (ResumeArtifactGateDeployment id).
Proof.
  apply sys_update_deployment. intros s d Hd Hw%String.eqb_eq. split; [done|]. rewrite Hw.
  split; [|done]. apply calm_on. by rewrite Hw.
Qed.

Lemma sys_expire_gates now : respects (store_step full) (ExpireArtifactGateDeployments now).
Proof.
  intros s a s' [= _ <-].
  set (due := λ id d, (d_Status d ∈? ["awaiting_artifact_approval"; "pending"])%bool && gate_expired s now id).
  set (ended := λ d, d_set_Status "expired" (d_set_FinishedAt (Some now) d)).
  set (t := map_imap _ _).
  assert (Ht : ∀ id, t !! id = (λ d, if due id d then ended d else d) <$> db_deployments s !! id).
  { intros id. unfold t. rewrite map_lookup_imap. by destruct (db_deployments s !! id). }
  apply sys_deployments; [| | |done|done|].
  - split; [done..|]. intros id. cbn. rewrite Ht. destruct (db_deployments s !! id) as [d|]; [|done].
    cbn. by destruct (due id d).
  - intros _ id. unfold blocking. cbn. rewrite Ht. destruct (db_deployments s !! id) as [d|]; [|done].
    cbn. change (is_blocker (set_deployments t s)) with (is_blocker s). destruct (due id d); [|done].
    by apply is_blocker_off.
  - intros id. unfold active. cbn. rewrite Ht. destruct (db_deployments s !! id) as [d|]; [|done].
    cbn. by destruct (due id d).
  - intros _ id c d _ _ Hd Hr Ha. exists d. cbn. rewrite Ht, Hd. cbn. unfold due. by rewrite Hr.
Qed.

(** A transaction whose function is safe in the state it starts from. *)
Lemma sys_deployment_tx {A} id (fn : Tx A) s :
  (∀ a s1, fn (set_pending_audit [] s) = Ok (a, s1) → store_step full (set_pending_audit [] s) s1) →
  store_step full s (WithDeploymentTx id fn s).2.
Proof.
  intros Hfn. destruct (WithDeploymentTx id fn s) as [[a|e] s'] eqn:E; cbn.
  - apply WithDeploymentTx_inv in E as (d & s1 & s2 & Hd & Hs1 & Hs2 & ->).
    transitivity (set_pending_audit [] s); [by apply sr_same, begin_same|].
    etrans; [by eapply Hfn|]. transitivity s2; [by eapply qr_advance|apply sr_same, committed_same].
  - revert E. unfold WithDeploymentTx. destruct (GetDeployment id s) as [[d s0]|e0]; [|by intros [= _ <-]].
    intros E. match type of E with withQueueTx ?m s = _ =>
      destruct (m (set_pending_audit [] s)) as [[x sx]|ex] eqn:Em;
      [rewrite (withQueueTx_ok m s x sx Em) in E|rewrite (withQueueTx_err m s ex Em) in E] end;
      [done|by injection E as _ <-].
Qed.

(** The deployment runs on the server: it holds its scope, and no agent has it. *)
Definition runs_locally (s : DB) (id : Z) : bool :=
  deployment_is s id (λ d, (d_Status d ∈? active_statuses) && is_null (d_AssignedAgentID d)).

Lemma runs_locally_true s id :
  runs_locally s id = true ↔ ∃ d, db_deployments s !! id = Some d ∧
    (d_Status d ∈? active_statuses)%bool = true ∧ d_AssignedAgentID d = None.
Proof.
  unfold runs_locally, deployment_is. destruct (db_deployments s !! id) as [d|].
  - rewrite andb_true_iff. split.
    + intros [? ?]. exists d. by destruct (d_AssignedAgentID d).
    + intros (? & [= <-] & ? & ->). done.
  - split; [done|]. by intros (? & ? & _).
Qed.

(** A status is written to a row: it is calm unless the row was over. *)
Lemma sys_update_status id status st fin s d a s' :
  db_deployments s !! id = Some d →
  row_calm (full := full) s id d (d_set_Status status d) →
  (full = true → d_Status d = "running" → d_AssignedAgentID d = None) →
  UpdateDeploymentStatus id status st fin s = Ok (a, s') → store_step full s s'.
Proof.
  intros Hd [Hb Ha] Hr. unfold UpdateDeploymentStatus. intros (n & s1 & Hu & Heq)%bind_inv.
  injection Heq as _ <-. apply update_deployment_cases in Hu as [[_ ->]|(_ & d0 & Hd0 & _ & ->)]; [done|].
  simplify_eq. eapply sys_set_row; [done|done|by split|].
  intros Hf ag Hrun. by rewrite (Hr Hf Hrun).
Qed.

Lemma sys_store_bundle gate ciphertexts s a s' :
  (full = true → runs_locally s (gp_DeploymentID gate) = true) →
  store_bundle gate ciphertexts s = Ok (a, s') → store_step full s s'.
Proof.
  intros Hlocal. unfold store_bundle. intros E.
  apply bind_inv in E as (n & s1 & Hp & E).
  transitivity s1.
  2: { match type of E with ?m s1 = _ => assert (Hm : respects (store_step full) m) by respects; by eapply Hm end. }
  apply update_deployment_cases in Hp as [[_ ->]|(_ & d0 & Hd0 & Hw%String.eqb_eq & ->)]; [done|].
  eapply sys_set_row; [done|done| |].
  - apply calm_on. by rewrite Hw.
  - intros Hf ag _. apply Hlocal, runs_locally_true in Hf as (d & Hd & _ & Ha).
    assert (d = d0) as -> by congruence. by rewrite Ha.
Qed.

Lemma sys_reject id status validate s a s' :
  respects same_queue_tables validate →
  reject_body id status validate s = Ok (a, s') → store_step full s s'.
Proof.
  intros Hv E. apply bind_inv in E as (n & s1 & [= _ <-] & E).
  apply bind_inv in E as (d & s1 & Hd & E). unfold GetDeployment in Hd.
  destruct (db_deployments s !! id) as [d0|] eqn:Hrow; [|done]. injection Hd as <- <-.
  apply bind_inv in E as (u & s1 & Hg & E).
  destruct (String.eqb_spec (d_Status d0) "awaiting_artifact_approval") as [Hst|]; [|done].
  injection Hg as _ <-.
  apply (bind_respects same_queue_tables) in E as (v & s2 & _ & R2 & E); [|done].
  apply bind_inv in E as (now & s3 & [= _ <-] & E).
  apply (bind_respects same_queue_tables) in E as (w & s4 & _ & R4 & E); [|respects].
  apply bind_inv in E as (x & s5 & Hu & E).
  transitivity s2; [by apply sr_same|]. transitivity s4; [by apply sr_same|].
  transitivity s5; [|apply sr_same; by injection E as _ <-].
  eapply (sys_update_status _ _ _ _ s4 d0); [| | |exact Hu].
  - by rewrite (sq_deployments _ _ R4), (sq_deployments _ _ R2).
  - apply calm_on. by rewrite Hst.
  - by rewrite Hst.
Qed.

(** The runner completes a deployment that it runs, or one that is over, which
    stands unless a clean-up could not be confirmed. *)
Definition own_completion (s : DB) (id : Z) (status : string) : bool :=
  runs_locally s id
  || (deployment_is s id (λ d, d_Status d ∈? terminal_run_statuses)
      && negb (String.eqb status "cleanup_unconfirmed")).

Lemma own_completion_row s id status d :
  own_completion s id status = true → db_deployments s !! id = Some d →
  (d_Status d ∈? terminal_run_statuses)%bool && negb (String.eqb status "cleanup_unconfirmed") = false →
  (d_Status d ∈? active_statuses)%bool = true ∧ d_AssignedAgentID d = None.
Proof.
  intros [(x & Hx & Hst & Ha)%runs_locally_true|Ho]%orb_true_iff Hd Hgo; [by simplify_eq|].
  unfold deployment_is in Ho. rewrite Hd in Ho. congruence.
Qed.

Lemma sys_confirm_local id s d a s' :
  db_deployments s !! id = Some d → (full = true → (d_Status d ∈? active_statuses)%bool = true ∧ d_AssignedAgentID d = None) →
  ConfirmRemoteDeploymentLocalCleanup id s = Ok (a, s') →
  store_step full s s' ∧ ∃ d', db_deployments s' !! id = Some d' ∧ d_Status d' = d_Status d ∧
    d_AssignedAgentID d' = d_AssignedAgentID d.
Proof.
  intros Hd Hown (n & s2 & Hu & Heq)%bind_inv. injection Heq as _ <-.
  apply update_deployment_cases in Hu as [[_ ->]|(_ & d2 & Hd2 & _ & ->)]; [by split; eauto|].
  assert (d2 = d) as -> by congruence. split; [|eexists; split; [apply lookup_insert_eq|done]].
  eapply sys_set_row; [done|done| |].
  - split; [|done]. intros Hf _. apply is_blocker_on. by apply Hown.
  - intros Hf ag _. by rewrite (proj2 (Hown Hf)).
Qed.

Lemma sys_end_own id status now s d a s' :
  db_deployments s !! id = Some d → (status ∈? active_statuses)%bool = false →
  (full = true → (d_Status d ∈? active_statuses)%bool = true ∧ d_AssignedAgentID d = None) →
  (if String.eqb status "cancelled" then CancelStepDeployment id;; mret tt
   else UpdateDeploymentStatus id status None (Some now)) s = Ok (a, s') → store_step full s s'.
Proof.
  intros Hd Hstat Hown. destruct (String.eqb status "cancelled").
  - intros (n & s2 & Hu & Heq)%bind_inv. injection Heq as _ <-.
    apply update_deployment_cases in Hu as [[_ ->]|(_ & d2 & Hd2 & _ & ->)]; [done|].
    assert (d2 = d) as -> by congruence. eapply sys_set_row; [done|done|by apply calm_off|].
    intros Hf ag _. by rewrite (proj2 (Hown Hf)).
  - apply (sys_update_status _ _ _ _ s d); [done|..].
    + split; [intros Hf _; by apply is_blocker_on, Hown|]. cbn [d_set_Status d_Status]. congruence.
    + intros Hf _. by apply Hown.
Qed.

Lemma sys_complete now id status confirmed s a s' :
  (status ∈? active_statuses)%bool = false → (full = true → own_completion s id status = true) →
  complete_body now id status confirmed s = Ok (a, s') → store_step full s s'.
Proof.
  intros Hstat Hown E. unfold complete_body in E.
  apply bind_inv in E as (d & s0 & Hg & E). unfold GetDeployment in Hg.
  destruct (db_deployments s !! id) as [d0|] eqn:Hd; [|done]. injection Hg as <- <-.
  apply bind_inv in E as (u & s1 & Hc & E).
  destruct (_ && negb (String.eqb status "cleanup_unconfirmed")) eqn:Hgo in E.
  { apply andb_true_iff in Hgo as [_ Hne%negb_true_iff]. rewrite Hne, andb_false_r in Hc.
    injection Hc as _ <-. by injection E as _ <-. }
  assert (Hrow : full = true → (d_Status d0 ∈? active_statuses)%bool = true ∧ d_AssignedAgentID d0 = None)
    by (intros Hf; by eapply own_completion_row; [apply Hown|..]).
  assert (store_step full s s1 ∧ ∃ d1, db_deployments s1 !! id = Some d1 ∧ d_Status d1 = d_Status d0 ∧
    d_AssignedAgentID d1 = d_AssignedAgentID d0) as [H01 (d1 & Hd1 & Hst1 & Ha1)].
  { destruct (confirmed && _); [by eapply sys_confirm_local|]. injection Hc as _ <-. by split; eauto. }
  apply bind_inv in E as (v & s2 & Hu & E). transitivity s1; [done|]. transitivity s2.
  - eapply (sys_end_own id status now s1 d1); [done|done| |exact Hu]. by rewrite Hst1, Ha1.
  - match type of E with ?m s2 = _ => assert (Hm : respects (store_step full) m) by respects; by eapply Hm end.
Qed.
End gating.

#[export] Hint Resolve sys_pause sys_resume sys_expire_gates : respects.
