(* ===== verification/StepSafety.v ===== *)
(** * StepSafety: step dispatch keeps the store's invariant

    Every statement on runs is a [store_step] (System.v). What the maintenance
    of dispatch marks as unclean keeps the contract unless a failed local
    deployment has left containers behind and the clean-up of one of its runs is
    recorded ([stale_cleanup]). *)
From S2P Require Import Prelude Text Db Tx QueueQueries DeploymentQueue QueueSafety DispatchQueries RemoteLifecycle RemoteSafety RemoteSpec RemoteRefine Base64 Secret Variables Resolution Ansible CreationQueries GateQueries ArtifactGate DeploymentCreation StepQueries RemotePayload LogScrub LogBuffer RemoteSteps AgentPoll RemoteLogs StepSpec System CreationSafety.

Section statements.
Context {full : bool}.
Implicit Types (s : DB) (r : RemoteStepRun).

(** ** A new table of runs *)

(** One row after a step. *)
Definition run_moves (s : DB) (r r' : RemoteStepRun) : Prop := run_follows r r' ∧ run_shrinks s r r'.

Lemma run_moves_refl s r : run_moves s r r.
Proof. split; [apply run_follows_refl|apply run_shrinks_refl]. Qed.

Lemma sys_set_runs s t :
  runs_ok t = true →
  (∀ k r', t !! k = Some r' →
     (∃ r, db_runs s !! k = Some r ∧ run_moves s r r') ∨
     (run_blocks r' = false ∧ k = run_key r' ∧ is_Some (db_deployments s !! r_DeploymentID r'))) →
  (∀ k r, db_runs s !! k = Some r → ∃ r', t !! k = Some r' ∧ run_moves s r r') →
  store_step full s (set_runs t s).
Proof.
  intros Hok Hnew Hold Hinv. pose proof (proj2 (si_runs _ Hinv)) as Hr.
  assert (Hdep : ∀ r r', run_follows r r' → r_DeploymentID r' = r_DeploymentID r).
  { intros r r' [H _]. unfold run_key in H. congruence. }
  assert (Hsh : shrinks s (set_runs t s)).
  { apply shrinks_set_runs.
    - intros k r' Hr'. destruct (Hnew k r' Hr') as [(r & ? & Hf & ?)|(? & _)]; [left|by right]. eauto 6.
    - intros k r Hr0. destruct (Hold k r Hr0) as (r' & ? & Hf & ?). eauto 6. }
  split; [|split; [intros id c Hid; eauto using row_follows_refl|split]].
  - split; [eapply reshapes_wf; [apply Hsh|apply Hinv]|exact (si_active _ Hinv)|apply Hinv|exact (si_keys _ Hinv)|..].
    + split; [done|]. intros k r' Hr'.
      destruct (Hnew k r' Hr') as [(r & Hr0 & Hf & _)|(_ & ? & ?)]; [|done].
      destruct (Hr k r Hr0) as [-> ?]. cbn. rewrite (Hdep r r' Hf). split; [|done]. by destruct Hf.
    + intros Hf. destruct (si_contract _ Hinv Hf) as [Hex Hl]. split; [|done].
      eapply reshapes_exclusive; [apply Hsh|apply Hsh|done].
  - by apply scopes_kept_eq.
  - intros k r Hr0. destruct (Hold k r Hr0) as (r' & ? & ? & _). eauto.
Qed.

(** UPDATE statements on runs, by condition and by primary key. *)
Lemma sys_update_runs where_ set :
  (∀ s r, where_ s r = true → run_moves s r (set s r)) → respects (store_step full) (update_runs where_ set).
Proof.
  intros Hset s a s'. unfold update_runs, store_runs, checked, mbind, tx_bind, mret, tx_ret.
  destruct (update_where _ _ _) as [t n] eqn:Eu. cbn.
  destruct (runs_ok t) eqn:Hok; [|done]. intros [= _ <-].
  assert (Ht : ∀ k, t !! k = (λ r, if where_ s r then set s r else r) <$> db_runs s !! k).
  { intros k. rewrite <-(lookup_update_where _ (where_ s) (set s)). by rewrite Eu. }
  assert (Hrow : ∀ r, run_moves s r (if where_ s r then set s r else r)).
  { intros r. destruct (where_ s r) eqn:Ew; [by apply Hset|apply run_moves_refl]. }
  apply sys_set_runs; [done|..]; intros k.
  - intros r'. rewrite Ht. intros (r & Hr & ->)%fmap_Some. left. eauto.
  - intros r Hr. rewrite Ht, Hr. cbn. eauto.
Qed.

Lemma update_run_cases deployment step agent where_ set s n s' :
  update_run deployment step agent where_ set s = Ok (n, s') →
  (n = 0 ∧ s' = s) ∨
  (n = 1 ∧ ∃ r, db_runs s !! (deployment, step, agent) = Some r ∧ where_ s r = true ∧
     s' = set_runs (<[(deployment, step, agent) := set s r]> (db_runs s)) s ∧ runs_ok (db_runs s') = true).
Proof.
  unfold update_run, store_runs, checked, mbind, tx_bind, mret, tx_ret.
  destruct (update_pk_cases (db_runs s) (deployment, step, agent) (where_ s) (set s))
    as [(r & Hr & Hw & ->)|[-> _]]; cbn; destruct (runs_ok _) eqn:Hok; try done; intros [= <- <-].
  - right. split; [done|]. exists r. by split_and!.
  - left. split; [done|]. by destruct s.
Qed.

Lemma sys_set_run s k r r' :
  db_runs s !! k = Some r → run_moves s r r' → runs_ok (<[k := r']> (db_runs s)) = true →
  store_step full s (set_runs (<[k := r']> (db_runs s)) s).
Proof.
  intros Hr Hm Hok. apply sys_set_runs; [done|..]; intros k'.
  - intros x [[<- <-]|[_ Hx]]%lookup_insert_Some; left; eauto using run_moves_refl.
  - intros x Hx. destruct (decide (k = k')) as [<-|Hne].
    + rewrite lookup_insert_eq. simplify_eq. eauto.
    + rewrite lookup_insert_ne by done. eauto using run_moves_refl.
Qed.

Lemma sys_update_run deployment step agent where_ set :
  (∀ s r, where_ s r = true → run_moves s r (set s r)) →
  respects (store_step full) (update_run deployment step agent where_ set).
Proof.
  intros Hset s n s' [[_ ->]|(_ & r & Hr & Hw & -> & Hok)]%update_run_cases; [done|].
  apply sys_set_run with r; auto.
Qed.

(** Every edge but the first one frees what the run holds, or keeps it. *)
Lemma edge_moves s r r' :
  run_key r' = run_key r → (r_State r, r_State r') ∈ tail run_edges → run_moves s r r'.
Proof.
  intros Hk He. split; [split; [done|by apply rtc_once, list_elem_of_further]|]. right.
  unfold run_blocks, run_cleaning. revert He. generalize (r_State r) (r_State r') (r_CleanupConfirmedAt r').
  intros a b confirmed He. cbn [tail run_edges] in He. rewrite !elem_of_cons, elem_of_nil in He.
  repeat (destruct He as [[= -> ->]|He]; [split; cbn; destruct confirmed; done|]). done.
Qed.

(** No edge: columns that neither name nor hold anything. *)
Lemma same_state_moves s r r' :
  run_key r' = run_key r → r_State r' = r_State r →
  (not_null (r_CleanupConfirmedAt r) = true → not_null (r_CleanupConfirmedAt r') = true) → run_moves s r r'.
Proof.
  intros Hk Hst Hc. split; [split; [done|by rewrite Hst]|]. right. unfold run_blocks, run_cleaning.
  rewrite Hst. split; [|done]. destruct (r_CleanupConfirmedAt r), (r_CleanupConfirmedAt r'); cbn in *;
    try done; [by specialize (Hc eq_refl)|rewrite andb_false_r; cbn; intros ->; apply orb_true_r].
Qed.
End statements.

(** The state of a run is one of the listed ones: one edge each. *)
Ltac run_states H :=
  apply in_list_true in H; rewrite !elem_of_cons, elem_of_nil in H;
  repeat (destruct H as [H|H]); [..|done].

Ltac run_edges_now H :=
  apply edge_moves; [done|cbn; rewrite H; by apply (bool_decide_unpack _)].

Ltac run_state H := apply String.eqb_eq in H; run_edges_now H.

Section transitions.
Context {full : bool}.
Implicit Types (s : DB) (r : RemoteStepRun).

Lemma sys_cancel_runs now id : respects (store_step full) (RequestRemoteStepCancellation now id).
Proof.
  apply sys_update_runs. intros s r [_ Hst]%andb_true_iff. cbv zeta.
  run_states Hst; run_edges_now Hst.
Qed.

Lemma sys_expire_claims now : respects (store_step full) (ExpireRemoteStepClaims now).
Proof. apply sys_update_runs. intros s r [[Hst _]%andb_true_iff _]%andb_true_iff. run_state Hst. Qed.

Lemma sys_expire_cancellations now stale : respects (store_step full) (ExpireRemoteStepCancellations now stale).
Proof. apply sys_update_runs. intros s r [Hst _]%andb_true_iff. run_state Hst. Qed.

Lemma sys_lose_stale now stale : respects (store_step full) (LoseStaleRemoteStepRuns now stale).
Proof. apply sys_update_runs. intros s r [Hst _]%andb_true_iff. run_state Hst. Qed.

Lemma sys_fail_invalid now id : respects (store_step full) (FailInvalidWaitingRemoteSteps now id).
Proof.
  unfold FailInvalidWaitingRemoteSteps. apply respects_bind; [typeclasses eauto| |intros; respects].
  apply sys_update_runs. intros s r [_ Hst]%andb_true_iff. run_state Hst.
Qed.

Lemma sys_fail_unsupported_runs now agent : respects (store_step full) (FailUnsupportedWaitingRemoteStepRuns now agent).
Proof. apply sys_update_runs. intros s r [[_ Hst]%andb_true_iff _]%andb_true_iff. run_state Hst. Qed.

Lemma sys_confirm_runs now agent : respects (store_step full) (ConfirmRemoteStepCleanup now agent).
Proof.
  unfold ConfirmRemoteStepCleanup. apply respects_bind; [typeclasses eauto| |intros; respects].
  apply sys_update_runs. intros s r _. by apply same_state_moves.
Qed.

Lemma sys_revoke_runs now agent : respects (store_step full) (RevokeAgentRemoteStepRuns now agent).
Proof.
  apply sys_update_runs. intros s r [_ Hst]%andb_true_iff. run_states Hst; run_edges_now Hst.
Qed.

Lemma sys_start_run now dep step agent token : respects (store_step full) (StartRemoteStepRun now dep step agent token).
Proof.
  apply sys_update_run. intros s r [[[_ Hst]%andb_true_iff _]%andb_true_iff _]%andb_true_iff. run_state Hst.
Qed.

Lemma sys_heartbeat_run now dep step agent token :
  respects (store_step full) (HeartbeatRemoteStepRun now dep step agent token).
Proof. apply sys_update_run. intros s r _. by apply same_state_moves. Qed.

Lemma sys_buffer_run buffer dep step agent token :
  respects (store_step full) (UpdateRemoteStepLogBuffer buffer dep step agent token).
Proof. apply sys_update_run. intros s r _. by apply same_state_moves. Qed.

Lemma sys_acknowledge_run now dep step agent token :
  respects (store_step full) (StepQueries.AcknowledgeRemoteStepCancellation now dep step agent token).
Proof.
  apply sys_update_run. intros s r [_ Hst]%andb_true_iff. run_states Hst; run_edges_now Hst.
Qed.

Lemma sys_finish_run state now dep step agent token :
  state ∈ finish_states → respects (store_step full) (FinishRemoteStepRun state now dep step agent token).
Proof.
  intros Hstate. apply sys_update_run. intros s r [_ Hst]%andb_true_iff.
  unfold finish_states in Hstate. rewrite !elem_of_cons, elem_of_nil in Hstate.
  apply orb_true_iff in Hst as [Hst|[Hst ->%String.eqb_eq]%andb_true_iff]; [|run_state Hst].
  run_states Hst; destruct Hstate as [->|[->|[->|[]]]]; run_edges_now Hst.
Qed.

Lemma sys_recover_runs now : respects (store_step full) (CancelOrphanedRemoteStepRuns now).
Proof.
  apply sys_update_runs. intros s r [Hst _]%andb_true_iff. cbv zeta. run_states Hst; [..|];
    first [run_edges_now Hst|by apply same_state_moves; [|cbn; rewrite Hst|]].
Qed.
End transitions.

(** ** New runs *)
Section creation.
Context {full : bool}.
Implicit Types (s : DB) (r : RemoteStepRun).

Lemma lookup_add_runs deployment step now agents t k :
  add_runs deployment step now agents t !! k =
    (if bool_decide (k.1 = (deployment, step) ∧ k.2 ∈ agents)
     then Some (new_run deployment step k.2 now) else t !! k).
Proof.
  destruct k as [kd agent]. cbn [fst snd]. induction agents as [|a agents IH]; cbn [add_runs foldr].
  - rewrite bool_decide_eq_false_2; [done|]. by intros [_ ?%not_elem_of_nil].
  - destruct (decide ((deployment, step, a) = (kd, agent))) as [[= <- <-]|Hne].
    + rewrite lookup_insert_eq, bool_decide_eq_true_2; [done|]. split; [done|by left].
    + rewrite lookup_insert_ne by done. fold (add_runs deployment step now agents t). rewrite IH.
      repeat case_bool_decide; try done.
      * exfalso. match goal with H : ¬ (_ ∧ _ ∈ _ :: _) |- _ => apply H end. split; [tauto|right; tauto].
      * exfalso. destruct_and!. match goal with H : _ ∈ _ :: _ |- _ => apply elem_of_cons in H as [->|H] end;
          [congruence|tauto].
Qed.

Lemma sys_create_runs deployment step : respects (store_step full) (CreateRemoteStepRuns deployment step).
Proof.
  intros s n s'. unfold CreateRemoteStepRuns. destruct (_ && _ && _) eqn:Hg; [|by intros [= _ <-]].
  apply andb_true_iff in Hg as [[_ Hd]%andb_true_iff _].
  set (agents := filter _ _). unfold store_runs, checked, mbind, tx_bind, mret, tx_ret. cbn.
  destruct (runs_ok _) eqn:Hok; [|done]. intros [= _ <-].
  apply sys_set_runs; [done|..]; intros k.
  - intros r'. rewrite lookup_add_runs. case_bool_decide as Hk; [|left; eauto using run_moves_refl].
    intros [= <-]. right. split; [done|]. destruct k as [kd a], Hk as [[= ->] _]. cbn. split; [done|].
    unfold deployment_is in Hd. by destruct (db_deployments s !! deployment).
  - intros r Hr. exists r. split; [|apply run_moves_refl]. rewrite lookup_add_runs.
    case_bool_decide as Hk; [|done]. exfalso. destruct k as [kd a], Hk as [[= ->] Ha].
    apply list_elem_of_filter in Ha as [[_ Hnone] _]. cbn in *. congruence.
Qed.

(** A claim is handed out while the deployment runs. *)
Lemma sys_claim_run s arg n s' :
  deployment_is s (rp_DeploymentID arg) (λ d, String.eqb (d_Status d) "running") = true →
  ClaimRemoteStepRun arg s = Ok (n, s') → store_step full s s'.
Proof.
  intros Hd [[_ ->]|(_ & r & Hr & Hw & -> & Hok)]%update_run_cases Hinv; [done|].
  revert Hinv. intros Hinv. pose proof (proj2 (si_runs _ Hinv) _ _ Hr) as [Hkey _].
  revert Hinv. apply sys_set_run with r; [done| |done]. rewrite !andb_true_iff in Hw.
  destruct Hw as [[[Hst%String.eqb_eq _] _] _]. split; [split; [done|cbn; rewrite Hst; run_edge_now]|].
  left. unfold run_key in Hkey. injection Hkey as <- _ _. unfold blocking, deployment_is in *.
  destruct (db_deployments s !! rp_DeploymentID arg) as [d|]; [|done].
  apply is_blocker_on. apply String.eqb_eq in Hd. by rewrite Hd.
Qed.

(** ** Statements on deployments *)

Lemma sys_update_deployments_at where_ set s n s' :
  (∀ id d, store_inv full s → db_deployments s !! id = Some d → where_ s d = true →
     identity (set s d) = identity d ∧ row_calm (full := full) s id d (set s d) ∧
     (full = true → d_Status d = "running" → d_AssignedAgentID d = None)) →
  update_deployments where_ set s = Ok (n, s') → store_step full s s'.
Proof.
  intros Hset Heq Hinv. unfold update_deployments in Heq.
  destruct (update_where (db_deployments s) (where_ s) (set s)) as [t m] eqn:Eu. injection Heq as _ <-.
  assert (Ht : ∀ id, t !! id = (λ d, if where_ s d then set s d else d) <$> db_deployments s !! id).
  { intros id. rewrite <-(lookup_update_where _ (where_ s) (set s)). by rewrite Eu. }
  pose proof (λ id d, Hset id d Hinv) as Hs. revert Hinv.
  apply sys_deployments; [| | |done|done|].
  - split; [done..|]. intros id. cbn. rewrite Ht. destruct (db_deployments s !! id) as [d|] eqn:Hd; [|done].
    cbn. destruct (where_ s d) eqn:Ew; [|done]. f_equal. by apply (Hs id d).
  - intros Hf id. unfold blocking. cbn. rewrite Ht.
    destruct (db_deployments s !! id) as [d|] eqn:Hd; [|done]. cbn.
    change (is_blocker (set_deployments t s)) with (is_blocker s).
    destruct (where_ s d) eqn:Ew; [by apply (Hs id d)|done].
  - intros id. unfold active. cbn. rewrite Ht. destruct (db_deployments s !! id) as [d|] eqn:Hd; [|done].
    cbn. destruct (where_ s d) eqn:Ew; [by apply (Hs id d)|done].
  - intros Hf id c d _ _ Hd Hr Ha. cbn. rewrite Ht, Hd. cbn. destruct (where_ s d) eqn:Ew; [|eauto].
    destruct (Hs id d Hd Ew) as (_ & _ & Hn). rewrite (Hn Hf Hr) in Ha. done.
Qed.

Lemma sys_update_deployments where_ set :
  (∀ s id d, store_inv full s → db_deployments s !! id = Some d → where_ s d = true →
     identity (set s d) = identity d ∧ row_calm (full := full) s id d (set s d) ∧
     (full = true → d_Status d = "running" → d_AssignedAgentID d = None)) →
  respects (store_step full) (update_deployments where_ set).
Proof. intros Hset s n s'. apply sys_update_deployments_at. intros id d. apply Hset. Qed.

Lemma local_running_facts d : local_running d = true →
  (d_Status d ∈? active_statuses)%bool = true ∧ d_AssignedAgentID d = None.
Proof.
  unfold local_running. intros [Hst%in_list_true Ha]%andb_true_iff. rewrite !elem_of_cons, elem_of_nil in Hst.
  split; [by destruct Hst as [->|[->|[]]]|]. by destruct (d_AssignedAgentID d).
Qed.

Lemma sys_mark_unreconciled now : respects (store_step full) (MarkUnreconciledLocalDeployments now).
Proof.
  apply sys_update_deployments. intros s id d Hinv Hd Hw. rewrite !andb_true_iff in Hw.
  destruct Hw as [[[Hl _] _] _]. apply local_running_facts in Hl as [Hst Ha].
  split; [done|]. split; [by apply calm_on|done].
Qed.

Lemma sys_fail_orphaned now : respects (store_step full) (FailOrphanedDeployments now).
Proof.
  apply sys_update_deployments. intros s id d Hinv Hd [Hl _]%andb_true_iff.
  apply local_running_facts in Hl as [Hst Ha]. split; [done|]. split; [by apply calm_off|done].
Qed.

Lemma sys_fail_invalid_deployment now id : respects (store_step full) (FailInvalidRemoteStepDeployment now id).
Proof.
  unfold FailInvalidRemoteStepDeployment. apply respects_bind; [typeclasses eauto| |intros; respects].
  apply sys_update_deployment. intros s d Hd Hw. rewrite !andb_true_iff in Hw.
  destruct Hw as [[_ Ha] _]. split; [done|]. split; [by apply calm_off|].
  intros _ _. by destruct (d_AssignedAgentID d).
Qed.
End creation.
