(* ===== verification/StepBodies.v ===== *)
(** * StepBodies: the functions of step dispatch keep the store's invariant

    Every function of RemoteSteps.v, AgentPoll.v and RemoteLogs.v is a
    [store_step], from the statements of StepSafety.v. The maintenance of dispatch
    keeps the contract unless a failed deployment of the server has left
    containers behind and the clean-up of one of its runs is recorded
    ([stale_cleanup]). *)
From S2P Require Import Prelude Text Db Tx QueueQueries DeploymentQueue QueueSafety DispatchQueries RemoteLifecycle RemoteSafety RemoteSpec RemoteRefine Base64 Secret Variables Resolution Ansible CreationQueries GateQueries ArtifactGate DeploymentCreation StepQueries RemotePayload LogScrub LogBuffer RemoteSteps AgentPoll RemoteLogs StepSpec System CreationSafety StepSafety.

(** ** Reads *)

Lemma same_run_by_claim dep agent token : respects same_queue_tables (GetRemoteStepRunByClaim dep agent token).
Proof. intros s a s'. unfold GetRemoteStepRunByClaim. destruct (select_runs _ _); [done|by intros [= _ <-]]. Qed.
Lemma same_staging_snapshot dep step agent : respects same_queue_tables (GetStagingSnapshot dep step agent).
Proof. intros s a s'. unfold GetStagingSnapshot. case_bool_decide; [by intros [= _ <-]|done]. Qed.
Lemma same_step_log_by_sequence dep step agent n :
  respects same_queue_tables (GetRemoteStepLogBySequence dep step agent n).
Proof. intros s a s'. unfold GetRemoteStepLogBySequence. destruct (_ ≫= _); [by intros [= _ <-]|done]. Qed.
Lemma same_log_by_sequence dep n : respects same_queue_tables (GetRemoteDeploymentLogBySequence dep n).
Proof.
  intros s a s'. unfold GetRemoteDeploymentLogBySequence. destruct (_ ≫= _); [|done].
  destruct (Z.eqb _ _); [by intros [= _ <-]|done].
Qed.
Lemma same_deployment_artifact dep : respects same_queue_tables (GetDeploymentArtifact dep).
Proof. intros s a s'. unfold GetDeploymentArtifact. destruct (dt_artifacts _ !! _); [by intros [= _ <-]|done]. Qed.

#[export] Hint Resolve same_run_by_claim same_staging_snapshot same_step_log_by_sequence
  same_log_by_sequence same_deployment_artifact : respects.
#[export] Hint Resolve sys_cancel_runs sys_fail_invalid sys_fail_unsupported_runs sys_confirm_runs
  sys_start_run sys_heartbeat_run sys_buffer_run sys_acknowledge_run sys_create_runs
  sys_recover_runs sys_mark_unreconciled sys_fail_orphaned sys_fail_invalid_deployment
  sys_expire_claims sys_expire_cancellations sys_lose_stale : respects.

Section bodies.
Context `{AgentEnvironment} {full : bool}.
Implicit Types (s : DB) (identity : RemoteLifecycleClaim).

Lemma sys_with_run {A} identity (x : A) body :
  (∀ run, respects (store_step full) (body run)) → respects (store_step full) (with_run identity x body).
Proof. intros Hb. unfold with_run, remoteStepRun. respects. Qed.

Lemma sys_heartbeat_step identity : respects (store_step full) (heartbeatRemoteStep identity).
Proof. apply sys_with_run. intros run. respects. Qed.

Lemma sys_start_step identity scrubber : respects (store_step full) (startRemoteStep identity scrubber).
Proof. apply sys_with_run. intros run. respects. Qed.

Lemma sys_finish_step identity state : respects (store_step full) (finishRemoteStep identity state).
Proof.
  apply sys_with_run. intros run. destruct (String.eqb _ _); [respects|].
  apply respects_bind; [typeclasses eauto|respects|]. intros _.
  unfold guard. destruct (state ∈? finish_states)%bool eqn:Hst; [|done].
  apply in_list_true in Hst. pose proof (λ now dep step agent token, sys_finish_run (full := full) state now dep step agent token Hst) as Hrun. respects.
Qed.

Lemma sys_acknowledge_step identity : respects (store_step full) (acknowledgeRemoteStepCancellation identity).
Proof. apply sys_with_run. intros run. respects. Qed.

Lemma sys_queue_runs deployment step : respects (store_step full) (queueRemoteStepRuns deployment step).
Proof. respects. Qed.

Lemma sys_recover_orphans : respects (store_step full) recover_orphans.
Proof. respects. Qed.

(** ** Dispatch *)
Section claim.
Context `{PayloadLibraries} `{AgentProtocol} `{Box} (configured : bool).
Context (unmarshal : string → option (list ReleaseVariable)) (limits : ExecutionLimits).

Lemma same_payload_snapshot agent id :
  respects same_queue_tables (remotePayloadSnapshot configured unmarshal limits agent id).
Proof. respects. Qed.
Hint Resolve same_payload_snapshot : respects.

Lemma same_step_snapshot agent id step :
  respects same_queue_tables (remoteStepPayloadSnapshot configured unmarshal limits agent id step).
Proof. respects. Qed.
Hint Resolve same_step_snapshot : respects.

Lemma waiting_run_running s agent candidate :
  candidate ∈ (λ r, (r_DeploymentID r, r_StepIndex r)) <$> sort_by run_le (select_runs s (run_claimable s agent)) →
  deployment_is s candidate.1 (λ d, String.eqb (d_Status d) "running") = true.
Proof.
  intros (r & -> & Hr)%list_elem_of_fmap. rewrite elem_of_sort_by in Hr.
  unfold select_runs in Hr. apply list_elem_of_filter in Hr as [Hc _].
  unfold run_claimable in Hc. rewrite !andb_true_iff in Hc. cbn. tauto.
Qed.

Context (prepare : RemotePayloadSnapshot → result RemotePreparedClaim).

Lemma sys_fail_invalid_steps id message : respects (store_step full) (failInvalidRemoteSteps id message).
Proof. respects. Qed.
Hint Resolve sys_fail_invalid_steps : respects.

Lemma sys_prepare_and_claim agent candidate s a s' :
  deployment_is s candidate.1 (λ d, String.eqb (d_Status d) "running") = true →
  prepare_and_claim_step configured unmarshal limits prepare agent candidate s = Ok (a, s') → store_step full s s'.
Proof.
  intros Hd E. unfold prepare_and_claim_step in E.
  apply (bind_respects same_queue_tables) in E as (snapshot & s1 & _ & R1 & E); [|respects].
  transitivity s1; [by apply sr_same|]. destruct snapshot as [snapshot|e].
  - destruct (prepare snapshot) as [prepared|e].
    + apply bind_inv in E as (now & s2 & [= _ <-] & E).
      apply bind_inv in E as (changed & s3 & Hc & E).
      transitivity s3; [|destruct (Z.eqb changed 0); by injection E as _ <-].
      eapply sys_claim_run; [|exact Hc]. cbn. unfold deployment_is. by rewrite (sq_deployments _ _ R1).
    + match type of E with ?m s1 = _ => assert (Hm : respects (store_step full) m) by respects; by eapply Hm end.
  - match type of E with ?m s1 = _ => assert (Hm : respects (store_step full) m) by respects; by eapply Hm end.
Qed.

Lemma sys_claim_step agent candidate :
  respects (store_step full) (claimRemoteStepPayload configured unmarshal limits prepare agent candidate).
Proof.
  intros s a s' E. unfold claimRemoteStepPayload in E.
  apply bind_inv in E as (locked & s1 & [= <- <-] & E). destruct (Z.eqb _ 0); [by injection E as _ <-|].
  apply (bind_respects same_queue_tables) in E as (ag & s1 & _ & R1 & E); [|respects].
  transitivity s1; [by apply sr_same|]. destruct (negb _); [by injection E as _ <-|].
  apply bind_inv in E as (waiting & s2 & [= <- <-] & E).
  destruct (same_candidate _ _) eqn:Hsame; [|by injection E as _ <-].
  revert E. apply sys_prepare_and_claim. apply (waiting_run_running _ agent).
  unfold same_candidate in Hsame. destruct (_ <$> _) as [|first rest]; [done|].
  apply bool_decide_eq_true in Hsame as ->. left.
Qed.

Lemma sys_claim_any agent s :
  store_step full s (claim configured unmarshal limits prepare agent s).2.
Proof.
  unfold claim. assert (Hstep : store_step full s (ClaimRemoteStepPayload configured unmarshal limits prepare agent s).2).
  { unfold ClaimRemoteStepPayload. destruct (ListWaitingRemoteStepRuns agent s) as [[[|c l] s1]|e]; [done| |done].
    apply (WithDeploymentTx_respects (store_step full)), sys_claim_step. }
  destruct (ClaimRemoteStepPayload _ _ _ _ _ _) as [[[c|]|e] s1]; [done| |done]. cbn in Hstep.
  etrans; [exact Hstep|]. unfold ClaimRemoteDeploymentPayload.
  destruct (ListWaitingRemoteDeploymentClaims agent s1) as [[[|x l] s2]|e]; [done| |done].
  apply (WithDeploymentTx_respects (store_step full)).
  unfold claim_candidate, RemoteLifecycle.prepare_and_claim, log_line, failWaitingRemotePayload. respects.
Qed.
End claim.
End bodies.

#[export] Hint Resolve sys_heartbeat_step sys_start_step sys_finish_step sys_acknowledge_step
  sys_queue_runs sys_recover_orphans sys_claim_step : respects.

(** ** Log lines *)
Section logs.
Context {full : bool}.
Context `{AgentEnvironment} `{LogProtocol} `{Box} (configured : bool).
Context (order : gmap nat nat → list (nat * nat)).
Implicit Types (s : DB) (identity : RemoteLifecycleClaim) (scrubber : option Scrubber).

Lemma sys_buffer_claim buffer dep agent token :
  respects (store_step full) (UpdateRemoteDeploymentLogBuffer buffer dep agent token).
Proof.
  apply sys_update_claim. intros s c Hc _. split; [by right|]. split; [done|by left].
Qed.

Lemma same_log_sequence dep step agent n log :
  respects same_queue_tables (CreateRemoteStepLogSequence dep step agent n log).
Proof. respects; intros ??? [= _ <-]; done. Qed.

Lemma same_log_scope log dep n : respects same_queue_tables (CreateDeploymentLogScope log dep n).
Proof. respects; intros ??? [= _ <-]; done. Qed.

Lemma same_remote_log dep line now : respects same_queue_tables (CreateRemoteDeploymentLog dep line now).
Proof. by intros s a s' [= _ <-]. Qed.
Hint Resolve sys_buffer_claim same_log_sequence same_log_scope same_remote_log : respects.

Lemma same_store_step_lines scrubber run name ready :
  respects same_queue_tables (store_step_lines scrubber run name ready).
Proof. induction ready as [|event ready IH]; cbn [store_step_lines]; respects. Qed.

Lemma same_store_lines scrubber identity now ready :
  respects same_queue_tables (store_lines scrubber identity now ready).
Proof. induction ready as [|event ready IH]; cbn [store_lines]; respects. Qed.
Hint Resolve same_store_step_lines same_store_lines : respects.

Lemma sys_append_step_lines scrubber nonce identity run events flush :
  respects (store_step full) (appendRemoteStepLogs configured order scrubber nonce identity run events flush).
Proof. unfold appendRemoteStepLogs. respects. Qed.
Hint Resolve sys_append_step_lines : respects.

Lemma sys_append_step_logs scrubber nonce identity events flush :
  respects (store_step full) (append_step_logs configured order scrubber nonce identity events flush).
Proof. apply sys_with_run. intros run. respects. Qed.

Lemma sys_append_logs scrubber nonce identity events flush :
  respects (store_step full) (appendRemoteDeploymentLogs configured order scrubber nonce identity events flush).
Proof. unfold appendRemoteDeploymentLogs. respects. Qed.
Hint Resolve sys_append_logs : respects.

Lemma sys_finish_step_with_logs scrubber nonce identity state :
  respects (store_step full) (finish_step_with_logs configured order scrubber nonce identity state).
Proof. unfold finish_step_with_logs, remoteStepRun. respects. Qed.

Lemma sys_finish_with_logs scrubber nonce identity state :
  respects (store_step full) (finish_deployment_with_logs configured order scrubber nonce identity state).
Proof. unfold finish_deployment_with_logs. respects. Qed.
End logs.

#[export] Hint Resolve sys_append_step_logs sys_append_logs sys_finish_step_with_logs
  sys_finish_with_logs : respects.

(** ** Polls *)
Section poll.
Context `{AgentEnvironment} `{AgentProtocol} `{PayloadLibraries} {full : bool}.

Lemma same_heartbeat_agent arg : respects same_queue_tables (HeartbeatAgent arg).
Proof. apply same_update_agent. Qed.
Hint Resolve same_heartbeat_agent : respects.

Lemma same_record_capabilities request agent : respects same_queue_tables (record_capabilities request agent).
Proof. unfold record_capabilities. respects; by intros ??? [= _ <-]. Qed.
Hint Resolve same_record_capabilities : respects.

Lemma sys_record_poll heartbeat request : respects (store_step full) (record_poll heartbeat request).
Proof. unfold record_poll, confirm_cleanup. respects. Qed.

Lemma sys_poll_capabilities heartbeat request s :
  store_step full s (RecordAgentPollCapabilities heartbeat request s).2.
Proof.
  unfold RecordAgentPollCapabilities. destruct (CheckCompatibility _); [done|].
  apply (WithQueueMaintenanceTx_respects (store_step full)), sys_record_poll.
Qed.
End poll.

(** ** Maintenance *)

(** A failed deployment of the server, with containers, one of whose runs ended
    with its clean-up unconfirmed. *)
Definition stale_cleanup (s : DB) : bool :=
  exists_row (db_deployments s) (λ d, String.eqb (d_Status d) "failed" && is_null (d_AssignedAgentID d)
    && not_null (d_ContainerNamespace d) && run_in s (d_ID d) run_cleaning).

Section maintenance.
Context `{AgentEnvironment} {full : bool}.
Implicit Types (s : DB).

(** The deployments of the server stay, and no run ends with its clean-up unconfirmed. *)
Definition keeps_cleaning (s s' : DB) : Prop :=
  (∀ id d, db_deployments s' !! id = Some d → d_AssignedAgentID d = None → db_deployments s !! id = Some d) ∧
  ∀ id, run_in s' id run_cleaning = true → run_in s id run_cleaning = true.

#[local] Instance keeps_cleaning_refl : Reflexive keeps_cleaning.
Proof. by intros s. Qed.
#[local] Instance keeps_cleaning_trans : Transitive keeps_cleaning.
Proof. intros s1 s2 s3 [H1 H1'] [H2 H2']. split; auto. Qed.

Lemma keeps_update_runs where_ set :
  (∀ s r, where_ s r = true → r_State (set s r) ≠ "cleanup_unconfirmed") →
  respects keeps_cleaning (update_runs where_ set).
Proof.
  intros Hset s n s'. unfold update_runs, store_runs, checked, mbind, tx_bind, mret, tx_ret.
  destruct (update_where _ _ _) as [t m] eqn:Eu. cbn. destruct (runs_ok t); [|done]. intros [= _ <-].
  assert (Ht : ∀ k, t !! k = (λ r, if where_ s r then set s r else r) <$> db_runs s !! k).
  { intros k. rewrite <-(lookup_update_where _ (where_ s) (set s)). by rewrite Eu. }
  split; [done|]. intros id (k & r' & Hr' & Hid & Hc)%run_in_true. cbn in Hr'. rewrite Ht in Hr'.
  apply fmap_Some in Hr' as (r & Hr & ->). apply run_in_true. exists k, r.
  destruct (where_ s r) eqn:Ew; [|done]. exfalso. by apply (Hset s r Ew), String.eqb_eq.
Qed.

Lemma stale_cleanup_kept s s' : keeps_cleaning s s' → stale_cleanup s = false → stale_cleanup s' = false.
Proof.
  intros [Hd Hc] Hs. unfold stale_cleanup in *. rewrite exists_row_false in Hs |- *.
  intros k d Hk. apply not_true_iff_false. intros [Hx Hr%Hc]%andb_true_iff.
  assert (Ha : d_AssignedAgentID d = None)
    by (rewrite !andb_true_iff in Hx; destruct Hx as [[_ Ha] _]; by destruct (d_AssignedAgentID d)).
  specialize (Hs k d (Hd k d Hk Ha)). by rewrite Hx, Hr in Hs.
Qed.

Lemma sys_fail_terminal now s n s' :
  (full = true → stale_cleanup s = false) →
  FailDeploymentsWithTerminalRemoteStepRuns now s = Ok (n, s') → store_step full s s'.
Proof.
  intros Hs. apply sys_update_deployments_at. cbv zeta. intros id d Hinv Hd Hw.
  rewrite (wf_key _ (si_wf _ Hinv) _ _ Hd) in Hw |- *.
  rewrite !andb_true_iff in Hw. destruct Hw as [[[Hst Ha] _] _].
  split; [done|]. split; [|intros _ _; by destruct (d_AssignedAgentID d)].
  split; [|cbn -[run_in]; by destruct (run_in _ _ _)].
  intros Hf. specialize (Hs Hf). unfold stale_cleanup in Hs. rewrite exists_row_false in Hs. specialize (Hs id d Hd).
  rewrite (wf_key _ (si_wf _ Hinv) _ _ Hd) in Hs. unfold run_cleaning in Hs. rewrite Ha in Hs.
  apply orb_true_iff in Hst as [Hst%String.eqb_eq|[Hst Hcl]%andb_true_iff].
  - intros _. apply is_blocker_on. by rewrite Hst.
  - rewrite Hst, Hcl in Hs. rewrite Hcl. cbn in Hs.
    unfold is_blocker. cbn. rewrite Hcl. destruct (d_ContainerNamespace d); [done|].
    cbn. rewrite !andb_false_r. cbn. rewrite !orb_true_iff. tauto.
Qed.

Lemma respects_both {A} R R' (m : Tx A) :
  respects R m → respects R' m → respects (λ s s', R s s' ∧ R' s s') m.
Proof. intros H1 H2 s a s' E. split; eauto. Qed.

(** The statements before the one on deployments. *)
Lemma calm_expire_claims now : respects keeps_cleaning (ExpireRemoteStepClaims now).
Proof. by apply keeps_update_runs. Qed.
Lemma calm_expire_cancellations now stale : respects keeps_cleaning (ExpireRemoteStepCancellations now stale).
Proof. by apply keeps_update_runs. Qed.
Lemma calm_lose now stale : respects keeps_cleaning (LoseStaleRemoteStepRuns now stale).
Proof. by apply keeps_update_runs. Qed.

Lemma sys_maintain_dispatch s a s' :
  (full = true → stale_cleanup s = false) → maintain_dispatch s = Ok (a, s') → store_step full s s'.
Proof.
  intros Hs E. unfold maintain_dispatch in E.
  apply bind_inv in E as (now & s0 & [= _ <-] & E).
  apply bind_inv in E as (u & s1 & [= _ <-] & E).
  apply (bind_respects (λ s s', store_step full s s' ∧ keeps_cleaning s s')) in E as (n2 & s2 & _ & [R2 C2] & E); [|apply respects_both; [respects|apply calm_expire_claims]].
  apply (bind_respects (λ s s', store_step full s s' ∧ keeps_cleaning s s')) in E as (n3 & s3 & _ & [R3 C3] & E); [|apply respects_both; [respects|apply calm_expire_cancellations]].
  apply (bind_respects (λ s s', store_step full s s' ∧ keeps_cleaning s s')) in E as (n4 & s4 & _ & [R4 C4] & E); [|apply respects_both; [respects|apply calm_lose]].
  apply bind_inv in E as (n5 & s5 & H5 & E).
  assert (Hs4 : full = true → stale_cleanup s4 = false).
  { intros Hf. eapply stale_cleanup_kept; [|exact (Hs Hf)]. etrans; [|exact C4]. etrans; [|exact C3]. exact C2. }
  match type of R2 with store_step full ?x _ => transitivity x; [by apply sys_same|] end.
  etrans; [exact R2|]. etrans; [exact R3|]. etrans; [exact R4|].
  transitivity s5; [by eapply sys_fail_terminal|].
  assert (Hr : respects (store_step full) ReconcileTerminalVerifications) by respects. by eapply Hr.
Qed.

(** A transaction of maintenance whose function is safe in the state it starts from. *)
Lemma sys_queue_tx {A} (fn : Tx A) s :
  (∀ a s1, fn (set_pending_audit [] s) = Ok (a, s1) → store_step full (set_pending_audit [] s) s1) →
  store_step full s (WithQueueMaintenanceTx fn s).2.
Proof.
  intros Hfn. unfold WithQueueMaintenanceTx.
  match goal with |- store_step full s (withQueueTx ?m s).2 => destruct (m (set_pending_audit [] s)) as [[a s1]|e] eqn:E;
    [rewrite (withQueueTx_ok m s a s1 E)|rewrite (withQueueTx_err m s e E)] end; [cbn [snd]|done].
  transitivity (set_pending_audit [] s); [by apply sr_same, begin_same|].
  transitivity s1; [|apply sr_same, committed_same].
  apply bind_inv in E as (l & s2 & [= _ <-] & E).
  apply bind_inv in E as (u & s3 & Hl & E).
  assert (s3 = set_pending_audit [] s) as ->.
  { assert (Hr : readonly (for_each l (λ e, LockDeploymentEnvironment e;; mret tt))); [|by eapply Hr].
    apply respects_for_each; [by intros ?|by intros ? ? ? -> ->|]. intros x s0 u0 s4. by intros [= _ <-]. }
  apply bind_inv in E as (b & s4 & Hb & E). transitivity s4; [by eapply Hfn|].
  match type of E with ?m s4 = _ => assert (Hm : respects (store_step full) m) by respects; by eapply Hm end.
Qed.

Lemma sys_maintain_all s : (full = true → stale_cleanup s = false) → store_step full s (Maintain s).2.
Proof.
  intros Hs. unfold Maintain.
  assert (Hm : store_step full s (WithQueueMaintenanceTx maintain_dispatch s).2).
  { apply sys_queue_tx. intros a s1. by apply sys_maintain_dispatch. }
  destruct (WithQueueMaintenanceTx maintain_dispatch s) as [[u|e] s1]; [|done]. cbn in Hm.
  etrans; [exact Hm|apply sys_maintain_claims].
Qed.

(** *** Revocation *)

#[local] Instance cleaning_relation : StoreRelation keeps_cleaning.
Proof.
  split; [apply _..|]. intros s s' [Hd _ _ _ _ Hr]. split; [intros id d; by rewrite Hd|].
  intros id. unfold run_in. by rewrite Hr.
Qed.

Lemma sys_revoke_started now id agent : respects (store_step full) (RevokeStartedRemoteClaim now id agent).
Proof.
  apply sys_update_claim. intros s c Hc Hw. rewrite !andb_true_iff in Hw.
  destruct Hw as [[_ Hst%in_list_true] _]. rewrite !elem_of_cons, elem_of_nil in Hst.
  split; [|split; [|by right]].
  - right. unfold claim_blocks, claim_cleaning. by destruct Hst as [->|[->|[]]].
  - split; [done|]. split; [done|]. cbn. destruct Hst as [->|[->|[]]]; claim_edge_now.
Qed.

Lemma sys_revoke_unstarted now id agent : respects (store_step full) (RevokeUnstartedRemoteClaim now id agent).
Proof.
  apply sys_update_claim. intros s c Hc Hw. rewrite !andb_true_iff in Hw.
  destruct Hw as [[_ Hst%in_list_true] _]. rewrite !elem_of_cons, elem_of_nil in Hst.
  split; [|split; [|by right]].
  - right. split; [done|]. unfold claim_cleaning. by destruct Hst as [->|[->|[]]].
  - split; [done|]. split; [done|]. cbn. destruct Hst as [->|[->|[]]]; claim_edge_now.
Qed.

(** A row that an update changed by one. *)
(** The claim that is revoked is over when its deployment is ended. *)
Lemma sys_revoke_claim now claim : respects (store_step full) (revokeAgentClaim now claim).
Proof.
  intros s [] s' E. unfold revokeAgentClaim in E.
  apply bind_inv in E as ([] & s1 & H1%one_row_inv & H2%one_row_inv).
  assert (store_step full s s1 ∧ ∀ c, db_claims s1 !! c_DeploymentID claim = Some c →
    c_State c ≠ "started" ∧ c_State c ≠ "cancel_requested") as [Hs1 Hover].
  { destruct (not_null _); (split; [(by eapply sys_revoke_started) || (by eapply sys_revoke_unstarted)|]);
      apply update_claim_cases in H1 as [[[=] _]|(_ & c & _ & _ & -> & _)]; intros c';
      cbn; rewrite lookup_insert_eq; by intros [= <-]. }
  transitivity s1; [done|].
  apply update_deployment_cases in H2 as [[_ ->]|(_ & d & Hd & _ & ->)]; [done|].
  eapply sys_set_row_at; [done|done|by apply calm_off|].
  intros _ c Hc Hst. destruct (Hover c Hc). tauto.
Qed.

Lemma calm_revoke_runs now agent : respects keeps_cleaning (RevokeAgentRemoteStepRuns now agent).
Proof. apply keeps_update_runs. intros s r _. cbn. by destruct (String.eqb _ _). Qed.

Lemma calm_update_claim id where_ set : respects keeps_cleaning (update_claim id where_ set).
Proof. intros s n s' [[_ ->]|(_ & c & _ & _ & -> & _)]%update_claim_cases; [done|by split]. Qed.

Lemma calm_terminate now id agent : respects keeps_cleaning (TerminateRevokedRemoteDeployment now id agent).
Proof.
  intros s n s' [[_ ->]|(_ & d & Hd & Hw & ->)]%update_deployment_cases; [done|]. split; [|done].
  intros id' d'. cbn. intros [[_ <-]|[_ Hd']]%lookup_insert_Some Ha; [|done].
  cbn in Ha. by rewrite Ha in Hw.
Qed.

Lemma calm_revoke_claim now claim : respects keeps_cleaning (revokeAgentClaim now claim).
Proof.
  pose proof calm_update_claim. pose proof calm_terminate.
  unfold revokeAgentClaim, one_row, RevokeStartedRemoteClaim, RevokeUnstartedRemoteClaim. respects.
Qed.

Lemma same_set_status status id : respects same_queue_tables (SetAgentStatus status id).
Proof. unfold SetAgentStatus. respects. Qed.
Lemma same_clear_capabilities id : respects same_queue_tables (clearAgentTransferCapabilities id).
Proof.
  unfold clearAgentTransferCapabilities, ClearAgentStagingCapability, ClearAgentArtifactCapability,
    ClearAgentResourcePolicy. respects; apply same_write; by split.
Qed.

Definition calm_step (s s' : DB) : Prop := store_step full s s' ∧ keeps_cleaning s s'.

#[local] Instance calm_step_trans : Transitive calm_step.
Proof. intros s1 s2 s3 [A1 B1] [A2 B2]. split; by etrans. Qed.

Lemma calm_same {A} (m : Tx A) : respects same_queue_tables m → respects calm_step m.
Proof. intros Hm s a s' E. specialize (Hm s a s' E). split; by apply sr_same. Qed.

Lemma sys_revoke agent s a s' :
  (full = true → stale_cleanup s = false) → revokeAgent agent s = Ok (a, s') → store_step full s s'.
Proof.
  intros Hs E. unfold revokeAgent in E.
  apply (bind_respects calm_step) in E as (n & s1 & _ & R1 & E); [|apply calm_same; respects].
  apply (bind_respects calm_step) in E as (ag & s2 & _ & R2 & E); [|apply calm_same; respects].
  destruct (String.eqb _ _); [injection E as _ <-; etrans; [apply R1|apply R2]|].
  apply (bind_respects calm_step) in E as (u3 & s3 & _ & R3 & E); [|apply calm_same; respects].
  apply (bind_respects calm_step) in E as (u4 & s4 & _ & R4 & E); [|apply calm_same, same_set_status].
  apply (bind_respects calm_step) in E as (u5 & s5 & _ & R5 & E); [|apply calm_same, same_clear_capabilities].
  apply (bind_respects calm_step) in E as (now & s6 & _ & R6 & E); [|apply calm_same; respects].
  apply (bind_respects calm_step) in E as (n7 & s7 & _ & R7 & E); [|apply respects_both; [apply sys_revoke_runs|apply calm_revoke_runs]].
  apply (bind_respects calm_step) in E as (cs & s8 & _ & R8 & E); [|apply calm_same; respects].
  apply (bind_respects calm_step) in E as (u9 & s9 & _ & R9 & E);
    [|apply respects_both; (apply respects_for_each; [apply _..|intros x]; (apply sys_revoke_claim || apply calm_revoke_claim))].
  assert (calm_step s s9) as [Rs Rc] by (do 8 (etrans; [eassumption|]); done).
  apply bind_inv in E as (n10 & s10 & Hf & E). transitivity s9; [done|]. transitivity s10.
  - eapply sys_fail_terminal; [|exact Hf]. intros Hfull. eapply stale_cleanup_kept; [exact Rc|by apply Hs].
  - match type of E with ?m s10 = _ => assert (Hr : respects (store_step full) m) by respects; by eapply Hr end.
Qed.

Lemma sys_revoke_agent agent s :
  (full = true → stale_cleanup s = false) → store_step full s (RevokeAgent agent s).2.
Proof. intros Hs. apply sys_queue_tx. intros a s1. by apply sys_revoke. Qed.

Lemma sys_recover s : store_step full s (recoverPendingDeployments s).2.
Proof.
  unfold recoverPendingDeployments. etrans; [|exact (reconcile_environments_respects (store_step full) _ _)].
  apply (WithQueueMaintenanceTx_respects (store_step full)), sys_recover_orphans.
Qed.
End maintenance.
