(* ===== verification/Runs.v ===== *)
(** * Runs: sequences of the repository's entry points

    An [event] is one call of an entry point with its arguments; [perform] is
    the store it leaves, and [run] a history of calls. Whatever is called, and
    whatever it returns, keeps [store_inv false]; a call that is [in_contract]
    keeps [sys_inv]. *)
From S2P Require Import Prelude Text Db Tx QueueQueries DeploymentQueue QueueSafety DispatchQueries RemoteLifecycle RemoteSafety RemoteSpec RemoteRefine Base64 Secret Variables Ansible CreationQueries GateQueries ArtifactGate DeploymentCreation StepQueries RemotePayload LogScrub LogBuffer RemoteSteps AgentPoll RemoteLogs StepSpec System CreationSafety StepSafety StepBodies.

(** What the server is configured with, and the libraries that it calls. *)
Class Server := {
  #[global] server_agents :: AgentEnvironment;
  #[global] server_box :: Box;
  #[global] server_ansible :: AnsibleLibraries;
  #[global] server_protocol :: AgentProtocol;
  #[global] server_json :: CreationLibraries;
  #[global] server_payload :: PayloadLibraries;
  #[global] server_logs :: LogProtocol;
  (** credential.Configured(), and JSON of the captured variables *)
  Configured : bool;
  variables_marshal : list ReleaseVariable → string;
  variables_unmarshal : string → option (list ReleaseVariable);
  Limits : ExecutionLimits;
  (** artifact.Limits: the largest bundle; hex.EncodeToString(sha256.Sum256(b)) *)
  ArchiveBytes : Z;
  sha256_hex : string → string }.

(** The statuses that the local runner reports (internal/runner: every call of
    persistCompletion names one of them). *)
Inductive Completion := CompletedSucceeded | CompletedFailed | CompletedCancelled | CompletedUnclean.

Definition completion_status (outcome : Completion) : string :=
  match outcome with
  | CompletedSucceeded => "succeeded"
  | CompletedFailed => "failed"
  | CompletedCancelled => "cancelled"
  | CompletedUnclean => "cleanup_unconfirmed"
  end.

Section runs.
Context `{Server}.
Implicit Types (s : DB).

(** What publishing lines depends on besides the store: the iteration order of
    a map, the rules of the deployment's scrubber, the bytes of a nonce. *)
Record LogCall := mkLogCall {
  lc_order : gmap nat nat → list (nat * nat);
  lc_scrubber : option Scrubber;
  lc_nonce : option bytes }.

(** One entry point of the repository, with its arguments. *)
Inductive event :=
  | EvReconcile
  | EvStartLocal (id : Z)
  | EvCancelQueued (id : Z)
  | EvApprove (id : Z) (by_ : ApprovalParams)
  | EvCreate (nonce : option bytes) (arg : CreateDeploymentParams) (request : ClaimIdempotencyParams)
  | EvRedeploy (nonce : option bytes) (arg : CreateDeploymentParams) (source : Z)
  | EvRollback (nonce : option bytes) (source expected_target : Z)
  | EvMaintainGates
  | EvBeginGate (id : Z)
  | EvSaveGate (nonces : Z → option bytes) (gate : CreateArtifactGateParams) (source : string)
  | EvPauseGate (id next_step : Z)
  | EvApproveArtifact (before : DB) (id step revision user : Z) (checksum : string)
  | EvRejectArtifact (id : Z) (status : string)
  | EvRejectArtifactGate (id step revision : Z) (checksum : string)
  | EvComplete (now id : Z) (outcome : Completion) (cancelled confirmed : bool)
  | EvPoll (heartbeat : HeartbeatAgentParams) (request : PollRequest)
  | EvClaim (agent : string) (request : PollRequest) (token : option bytes)
  | EvClaimDirect (arg : ClaimRemoteDeploymentParams)
  | EvStartRemote (identity : RemoteLifecycleClaim) (scrubber : option (string → string))
  | EvHeartbeat (identity : RemoteLifecycleClaim)
  | EvFinish (identity : RemoteLifecycleClaim) (state : string)
  | EvAppendLogs (lines : LogCall) (identity : RemoteLifecycleClaim) (events : list RemoteLogEvent)
  | EvFlushLogs (lines : LogCall) (identity : RemoteLifecycleClaim)
  | EvFinishWithLogs (lines : LogCall) (identity : RemoteLifecycleClaim) (state : string)
  | EvAcknowledge (identity : RemoteLifecycleClaim)
  | EvCancelAssigned (assigned : RemoteAssignedDeployment)
  | EvMaintain
  | EvQueueSteps (id step : Z)
  | EvStartStep (identity : RemoteLifecycleClaim) (scrubber : option Scrubber)
  | EvHeartbeatStep (identity : RemoteLifecycleClaim)
  | EvFinishStep (identity : RemoteLifecycleClaim) (state : string)
  | EvAcknowledgeStep (identity : RemoteLifecycleClaim)
  | EvAppendStepLogs (lines : LogCall) (identity : RemoteLifecycleClaim) (events : list RemoteLogEvent)
  | EvFlushStepLogs (lines : LogCall) (identity : RemoteLifecycleClaim)
  | EvFinishStepWithLogs (lines : LogCall) (identity : RemoteLifecycleClaim) (state : string)
  | EvCancelSteps (id : Z)
  | EvMaintainDispatch
  | EvRecover
  | EvDrain (agent : string) (draining : bool)
  | EvRevoke (agent : string)
  | EvClock (seconds : Z).

(** The store after the entry point returned, whatever it returned. *)
Definition perform (e : event) (s : DB) : DB :=
  match e with
  | EvReconcile => (ReconcileDeploymentQueues s).2
  | EvStartLocal id => (StartLocalDeployment id s).2
  | EvCancelQueued id => (CancelQueuedDeployment id s).2
  | EvApprove id by_ => (ApproveDeployment id by_ s).2
  | EvCreate nonce arg request =>
      (CreateDeploymentIdempotent Configured variables_marshal variables_unmarshal Limits nonce arg request s).2
  | EvRedeploy nonce arg source =>
      (CreateDeploymentFromDeployment Configured variables_marshal variables_unmarshal Limits nonce arg source s).2
  | EvRollback nonce source expected =>
      (CreateRollback Configured variables_marshal variables_unmarshal Limits nonce source expected s).2
  | EvMaintainGates => (MaintainArtifactGates s).2
  | EvBeginGate id => (BeginArtifactGateRun id s).2
  | EvSaveGate nonces gate source =>
      (SaveArtifactGate Configured sha256_hex ArchiveBytes nonces gate source s).2
  | EvPauseGate id next => (PauseArtifactGate id next s).2
  | EvApproveArtifact before id step revision user checksum =>
      (ApproveArtifact Configured sha256_hex ArchiveBytes before id step revision user checksum s).2
  | EvRejectArtifact id status => (RejectArtifact id status s).2
  | EvRejectArtifactGate id step revision checksum => (RejectArtifactGate id step revision checksum s).2
  | EvComplete now id outcome cancelled confirmed =>
      (completeDeployment now id (completion_status outcome) cancelled confirmed s).2
  | EvPoll heartbeat request => (RecordAgentPollCapabilities heartbeat request s).2
  | EvClaim agent request token =>
      (claim Configured variables_unmarshal Limits (poll_prepare request token) agent s).2
  | EvClaimDirect arg => (ClaimRemoteDeployment arg s).2
  | EvStartRemote identity scrubber => (StartRemoteDeploymentWithLogs identity scrubber s).2
  | EvHeartbeat identity => (HeartbeatRemoteDeployment identity s).2
  | EvFinish identity state => (FinishRemoteDeploymentLifecycle identity state s).2
  | EvAppendLogs lines identity events =>
      (AppendRemoteDeploymentLogs Configured (lc_order lines) (lc_scrubber lines) (lc_nonce lines)
         identity events s).2
  | EvFlushLogs lines identity =>
      (FlushRemoteDeploymentLogs Configured (lc_order lines) (lc_scrubber lines) (lc_nonce lines) identity s).2
  | EvFinishWithLogs lines identity state =>
      (FinishRemoteDeploymentWithLogs Configured (lc_order lines) (lc_scrubber lines) (lc_nonce lines)
         identity state s).2
  | EvAcknowledge identity => (AcknowledgeRemoteCancellation identity s).2
  | EvCancelAssigned assigned => (CancelAssignedRemoteDeployment assigned s).2
  | EvMaintain => (MaintainRemoteLifecycle s).2
  | EvQueueSteps id step => (QueueRemoteStepRuns id step s).2
  | EvStartStep identity scrubber => (StartRemoteStep identity scrubber s).2
  | EvHeartbeatStep identity => (HeartbeatRemoteStep identity s).2
  | EvFinishStep identity state => (FinishRemoteStep identity state s).2
  | EvAcknowledgeStep identity => (Repository_AcknowledgeRemoteStepCancellation identity s).2
  | EvAppendStepLogs lines identity events =>
      (AppendRemoteStepLogs Configured (lc_order lines) (lc_scrubber lines) (lc_nonce lines)
         identity events s).2
  | EvFlushStepLogs lines identity =>
      (FlushRemoteStepLogs Configured (lc_order lines) (lc_scrubber lines) (lc_nonce lines) identity s).2
  | EvFinishStepWithLogs lines identity state =>
      (FinishRemoteStepWithLogs Configured (lc_order lines) (lc_scrubber lines) (lc_nonce lines)
         identity state s).2
  | EvCancelSteps id => (WithTx (RequestRemoteStepCancellation (db_now s) id) s).2
  | EvMaintainDispatch => (Maintain s).2
  | EvRecover => (recoverPendingDeployments s).2
  | EvDrain agent draining => (SetAgentDraining agent draining s).2
  | EvRevoke agent => (RevokeAgent agent s).2
  | EvClock seconds => set_now (db_now s + seconds) s
  end.

Definition run (events : list event) (s : DB) : DB := foldl (λ s e, perform e s) s events.

(** ** When the contract can be kept

    [store_inv false] is kept by whatever is called ([run_kept]). The contract
    of the queue and of the remote lifecycle needs that the local runner
    publishes a bundle only of a deployment that it runs itself, that it
    completes only such a deployment or, not as unclean, one that is over, and
    that no late clean-up of a run is recorded when dispatch is maintained or an
    agent revoked ([late_cleanup_blocks] in StepTheorems.v shows what happens
    then). *)
Definition in_contract (e : event) (s : DB) : bool :=
  match e with
  | EvSaveGate _ gate _ => runs_locally s (gp_DeploymentID gate)
  | EvComplete _ id outcome cancelled _ =>
      own_completion s id (if cancelled then "cancelled" else completion_status outcome)
  | EvMaintainDispatch | EvRevoke _ => negb (stale_cleanup s)
  | _ => true
  end.

Fixpoint contractual (events : list event) (s : DB) : bool :=
  match events with
  | [] => true
  | e :: events => in_contract e s && contractual events (perform e s)
  end.

(** ** Every entry point is a step of the store *)
Section steps.
Context {full : bool}.

Lemma sys_maintain_gates s : store_step full s (MaintainArtifactGates s).2.
Proof. apply (WithQueueMaintenanceTx_respects (store_step full)). respects. Qed.

Lemma sys_after_maintenance {A} (body : Tx A) s :
  respects (store_step full) body → store_step full s (after_maintenance body s).2.
Proof.
  intros Hb. unfold after_maintenance. pose proof (sys_maintain_gates s) as Hm.
  destruct (MaintainArtifactGates s) as [[u|e] s1]; [|done]. cbn in Hm. etrans; [exact Hm|].
  by apply (withQueueTx_respects (store_step full)).
Qed.

Lemma sys_begin_gate id s : store_step full s (BeginArtifactGateRun id s).2.
Proof.
  unfold BeginArtifactGateRun. destruct (GetArtifactGateRun id s) as [[r s0]|[]]; try done.
  apply (WithDeploymentTx_respects (store_step full)). respects.
Qed.

Lemma sys_save_gate nonces gate source s :
  (full = true → runs_locally s (gp_DeploymentID gate) = true) →
  store_step full s (SaveArtifactGate Configured sha256_hex ArchiveBytes nonces gate source s).2.
Proof.
  intros Hl. unfold SaveArtifactGate. destruct (mbind _ _) as [cs|e]; [|done].
  apply sys_deployment_tx. intros a s1. by apply sys_store_bundle.
Qed.

Lemma sys_approve_artifact before id step revision user checksum s :
  store_step full s (ApproveArtifact Configured sha256_hex ArchiveBytes before id step revision user checksum s).2.
Proof.
  unfold ApproveArtifact. match goal with |- store_step full s (match ?r with _ => _ end).2 =>
    destruct r as [[verified s0]|e] end; [|done].
  apply (WithDeploymentTx_respects (store_step full)). unfold approveArtifact. respects.
Qed.

Lemma sys_reject_artifact id status validate s :
  respects same_queue_tables validate → store_step full s (rejectArtifact id status validate s).2.
Proof.
  intros Hv. unfold rejectArtifact. destruct (negb _); [done|].
  apply sys_deployment_tx. intros a s1. by apply sys_reject.
Qed.

Lemma sys_log_stream {A} id (fn : Tx A) s : respects (store_step full) fn → store_step full s (withDeploymentLogTx id fn s).2.
Proof. intros Hfn. apply (WithTx_respects (store_step full)). respects. Qed.

(** The calls of an agent and the maintenance of its claims. *)
Lemma sys_claim_direct arg s : store_step full s (ClaimRemoteDeployment arg s).2.
Proof.
  unfold ClaimRemoteDeployment.
  match goal with |- context [WithDeploymentTx ?i ?m s] =>
    pose proof (WithDeploymentTx_respects (store_step full) i m s) as Hw;
    destruct (WithDeploymentTx i m s) as [[z|[]] s1] end; apply Hw; respects.
Qed.

Lemma sys_drain agent draining s : store_step full s (SetAgentDraining agent draining s).2.
Proof.
  unfold SetAgentDraining. pose proof (WithTx_respects (store_step full) (setAgentDraining agent draining) s) as Hw.
  destruct (WithTx _ s) as [[z|er] s1]; apply Hw; respects.
Qed.

Lemma completion_over outcome : (completion_status outcome ∈? active_statuses)%bool = false.
Proof. by destruct outcome. Qed.

Lemma sys_completion now id outcome (cancelled confirmed : bool) s :
  (full = true → own_completion s id (if cancelled then "cancelled" else completion_status outcome) = true) →
  store_step full s (completeDeployment now id (completion_status outcome) cancelled confirmed s).2.
Proof.
  intros Ho. apply sys_deployment_tx. intros a s1. apply sys_complete; [|exact Ho].
  destruct cancelled; [done|apply completion_over].
Qed.

Lemma perform_step e s : (full = true → in_contract e s = true) → store_step full s (perform e s).
Proof.
  intros Hc. destruct e; cbn [perform in_contract] in *;
    try (apply (WithDeploymentTx_respects (store_step full)); respects; fail);
    try (apply (WithTx_respects (store_step full)); respects; fail);
    try (apply sys_log_stream; respects; fail).
  - exact (reconcile_environments_respects (store_step full) _ s).
  - apply sys_after_maintenance. respects.
  - apply sys_after_maintenance. respects.
  - apply (withQueueTx_respects (store_step full)). respects.
  - apply sys_maintain_gates.
  - apply sys_begin_gate.
  - by apply sys_save_gate.
  - apply sys_approve_artifact.
  - apply sys_reject_artifact. respects.
  - apply sys_reject_artifact. respects.
  - by apply sys_completion.
  - apply sys_poll_capabilities.
  - apply sys_claim_any.
  - apply sys_claim_direct.
  - apply sys_maintain_claims.
  - apply sys_maintain_all. intros Hf. by apply negb_true_iff, Hc.
  - apply sys_recover.
  - apply sys_drain.
  - apply sys_revoke_agent. intros Hf. by apply negb_true_iff, Hc.
  - by apply sys_same.
Qed.

Lemma run_step events s : (full = true → contractual events s = true) → store_step full s (run events s).
Proof.
  revert s. induction events as [|e events IH]; intros s Hc; [done|]. cbn [contractual] in Hc.
  assert (full = true → in_contract e s = true ∧ contractual events (perform e s) = true) as Hb
    by (intros Hf; by apply andb_true_iff, Hc).
  cbn. etrans; [apply perform_step|apply IH]; intros Hf; by apply Hb.
Qed.
End steps.

(** Whatever is called, in whatever order. *)
Lemma run_kept events s : store_inv false s → store_inv false (run events s) ∧ follows s (run events s).
Proof. by apply (run_step (full := false)). Qed.
End runs.
