(* ===== verification/Plans.v ===== *)
(** * Plans: what freezing the steps of a deployment stores

    The plan of a deployment is the rows of its steps, their selectors, the
    source they come from and its artifact. The statements of creation are
    characterised by what they add to the plans of the store; the lemmas about
    createDeploymentWithSteps and its two callers end the file, with the
    specification [deployed] of what they create. *)
From stdpp Require Import pretty.
From S2P Require Import Prelude Text Db Tx StageQueries QueueQueries DeploymentQueue QueueSafety QueueTheorems DispatchQueries RemoteLifecycle RemoteSafety RemoteSpec RemoteRefine AccessQueries Base64 Secret Variables VariableTheorems Gate Ansible CreationQueries GateQueries ArtifactGate DeploymentCreation System CreationSafety Runs.

(** Statements that only read, one after the other. *)
Ltac read_next E := apply (bind_respects (λ s s' : DB, s' = s)) in E as (? & ? & _ & -> & E); [|respects].

(** ** The tables that hold the plan of a deployment *)
Record same_plans (s s' : DB) : Prop := {
  sp_now : db_now s' = db_now s;
  sp_releases : db_releases s' = db_releases s;
  sp_environments : db_environments s' = db_environments s;
  sp_claims : db_claims s' = db_claims s;
  sp_runs : db_runs s' = db_runs s;
  sp_steps : db_steps s' = db_steps s;
  sp_sources : db_step_sources s' = db_step_sources s;
  sp_selectors : dt_selectors (db_creation s') = dt_selectors (db_creation s);
  sp_attempts : dt_attempts (db_creation s') = dt_attempts (db_creation s);
  sp_artifacts : dt_artifacts (db_creation s') = dt_artifacts (db_creation s);
  sp_release_artifacts : dt_release_artifacts (db_creation s') = dt_release_artifacts (db_creation s) }.

#[export] Instance same_plans_refl : Reflexive same_plans.
Proof. by split. Qed.
#[export] Instance same_plans_trans : Transitive same_plans.
Proof. intros ??? [] []. split; congruence. Qed.

(** Relations that do not see deployments, slots, the audit, verifications,
    captured variables, artifact gates and rollbacks. *)
Class TableRelation (R : DB → DB → Prop) := {
  tr_refl :: Reflexive R;
  tr_trans :: Transitive R;
  tr_deployments : ∀ t s, R s (set_deployments t s);
  tr_slots : ∀ t s, R s (set_slots t s);
  tr_audit : ∀ t s, R s (set_audit t s);
  tr_pending : ∀ t s, R s (set_pending_audit t s);
  tr_staging : ∀ t s, R s (set_staging t s);
  tr_verifications : ∀ t s, R s (set_verifications t s);
  tr_variables : ∀ t s, R s (set_variables t s);
  tr_sequence : ∀ t s, R s (update_creation (dt_set_seq t) s);
  tr_gate_runs : ∀ t s, R s (update_creation (dt_set_gate_runs t) s);
  tr_gates : ∀ f s, R s (update_creation (λ t, dt_set_gates (f t) t) s);
  tr_chunks : ∀ t s, R s (update_creation (dt_set_gate_chunks t) s);
  tr_rollbacks : ∀ t s, R s (update_creation (dt_set_rollbacks t) s) }.

#[export] Instance plans_relation : TableRelation same_plans.
Proof. split; [apply _..| | | | | | | | | | | |]; by split. Qed.

Section tables.
Context (R : DB → DB → Prop) `{!TableRelation R}.

Lemma tables_update_deployment id where_ set : respects R (update_deployment id where_ set).
Proof. intros s a s' [[_ ->]|(_ & d & _ & _ & ->)]%update_deployment_cases; [done|apply tr_deployments]. Qed.

Lemma tables_create_slot env dep : respects R (CreateEnvironmentDeploymentSlot env dep).
Proof. intros s a s' [->|[t ->]]%create_slot_cases; [done|apply tr_slots]. Qed.

Lemma tables_write f : (∀ s, R s (f s)) → respects R (write f).
Proof. intros Hf s a s' [= _ <-]. apply Hf. Qed.
Lemma tables_delete_slot id : respects R (DeleteDeploymentSlot id).
Proof. apply tables_write. intros s. apply tr_slots. Qed.
Lemma tables_queueAudit id action : respects R (queueAudit id action).
Proof. apply tables_write. intros s. apply tr_pending. Qed.

Lemma tables_insert_row {K A} `{Countable K} (table : DB → gmap K A) store k row ok :
  (∀ t s, R s (store t s)) → respects R (insert_row table store k row ok).
Proof.
  intros Hst s a s'. unfold insert_row. destruct (_ && _); [|done]. intros [= _ <-]. apply Hst.
Qed.

Lemma tables_create arg : respects R (CreateDeployment arg).
Proof. open_statement. etrans; [apply tr_deployments|apply tr_sequence]. Qed.
Lemma tables_create_gate_run id : respects R (CreateArtifactGateRun id).
Proof. intros s. apply tables_insert_row, tr_gate_runs. Qed.
Lemma tables_create_verification id ty target timeout index :
  respects R (CreateDeploymentVerification id ty target timeout index).
Proof. intros s. apply tables_insert_row, tr_verifications. Qed.
Lemma tables_variable_snapshot id v : respects R (CreateDeploymentVariableSnapshot id v).
Proof. open_statement. apply tr_variables. Qed.
Lemma tables_create_rollback id a b v w : respects R (CreateDeploymentRollback id a b v w).
Proof. intros s. apply tables_insert_row, tr_rollbacks. Qed.

Lemma tables_update_gates where_ status : respects R (update_gates where_ status).
Proof. apply tables_write. intros s. apply (tr_gates (λ _, _)). Qed.
Lemma tables_expire now : respects R (ExpireArtifactGateDeployments now).
Proof. apply tables_write. intros s. apply tr_deployments. Qed.
Lemma tables_delete_chunks cutoff : respects R (DeleteExpiredArtifactGateChunks cutoff).
Proof. apply tables_write. intros s. apply tr_chunks. Qed.
Lemma tables_reconcile : respects R ReconcileTerminalVerifications.
Proof. apply tables_write. intros s. apply tr_verifications. Qed.

Lemma tables_committed s : R s (committed s).
Proof.
  unfold committed. cbn. etrans; [apply tr_staging|]. unfold flush_audit. etrans; [apply tr_audit|apply tr_pending].
Qed.

Lemma tables_queue_tx {A} (fn : Tx A) s : respects R fn → R s (withQueueTx fn s).2.
Proof.
  intros Hfn. destruct (withQueueTx fn s) as [[a|e] s'] eqn:E; cbn.
  - apply withQueueTx_inv in E as (s1 & Hs1 & ->). transitivity (set_pending_audit [] s); [apply tr_pending|].
    transitivity s1; [by eapply Hfn|apply tables_committed].
  - revert E. destruct (fn (set_pending_audit [] s)) as [[b s1]|e'] eqn:E.
    + by rewrite (withQueueTx_ok _ _ _ _ E).
    + rewrite (withQueueTx_err _ _ _ E). by intros [= _ <-].
Qed.
End tables.

#[export] Hint Resolve readonly_get_deployment : readonly.
Ltac table_statement :=
  lazymatch goal with
  | |- respects _ (update_deployment _ _ _) => apply tables_update_deployment
  | |- respects _ (CreateEnvironmentDeploymentSlot _ _) => apply tables_create_slot
  | |- respects _ (DeleteDeploymentSlot _) => apply tables_delete_slot
  | |- respects _ (queueAudit _ _) => apply tables_queueAudit
  | |- respects _ (CreateDeployment _) => apply tables_create
  | |- respects _ (CreateArtifactGateRun _) => apply tables_create_gate_run
  | |- respects _ (CreateDeploymentVerification _ _ _ _ _) => apply tables_create_verification
  | |- respects _ (CreateDeploymentVariableSnapshot _ _) => apply tables_variable_snapshot
  | |- respects _ (CreateDeploymentRollback _ _ _ _ _) => apply tables_create_rollback
  | |- respects _ (update_gates _ _) => apply tables_update_gates
  | |- respects _ (ExpireArtifactGateDeployments _) => apply tables_expire
  | |- respects _ (DeleteExpiredArtifactGateChunks _) => apply tables_delete_chunks
  | |- respects _ ReconcileTerminalVerifications => apply tables_reconcile
  end.
#[export] Hint Extern 1 (respects ?R _) =>
  lazymatch R with same_queue_tables => fail | store_step _ => fail | _ => table_statement; typeclasses eauto end : respects.

Section composed.
Context (R : DB → DB → Prop) `{!TableRelation R}.
Context `{GoFormat} `{Box} (configured : bool) (marshal : list ReleaseVariable → string).

Lemma tables_advance env : respects R (advanceEnvironmentQueue env).
Proof. unfold advanceEnvironmentQueue, advanceDeploymentQueue, AdmitQueuedDeployment. respects. Qed.

Lemma tables_snapshot_variables nonce d :
  respects R (snapshotDeploymentVariables configured marshal nonce d).
Proof. unfold snapshotDeploymentVariables. respects. Qed.

Lemma tables_snapshot_verification d steps : respects R (snapshotVerification d steps).
Proof. unfold snapshotVerification. respects. Qed.

Hint Extern 1 (respects _ (advanceEnvironmentQueue _)) => apply tables_advance : respects.

Lemma tables_maintain s : R s (MaintainArtifactGates s).2.
Proof.
  apply (tables_queue_tx R (environments ← ListDeploymentQueueEnvironments; _)).
  unfold ExpireArtifactGates, CancelTerminalArtifactGates. respects.
Qed.
End composed.

#[export] Hint Extern 1 (respects _ (advanceEnvironmentQueue _)) =>
  apply tables_advance; typeclasses eauto : respects.

Section entering.
Context `{GoFormat} `{Box} (configured : bool).
Context (marshal : list ReleaseVariable → string) (unmarshal : string → option (list ReleaseVariable)).
Context `{AnsibleLibraries} `{AgentProtocol} `{CreationLibraries} (limits : ExecutionLimits).

Lemma plans_claim_idempotency p : respects same_plans (ClaimIdempotency p).
Proof. intros s. by apply tables_insert_row. Qed.

Lemma readonly_admission project environment steps :
  readonly (validateAnsibleAdmission configured project environment steps).
Proof. unfold readonly, validateAnsibleAdmission, ValidateAnsibleCredential, inheritedVariables. respects. Qed.

Lemma readonly_validate_captured d steps :
  readonly (validateAnsibleCapturedVariables configured unmarshal d steps).
Proof. unfold readonly, validateAnsibleCapturedVariables. respects. Qed.

(** ** What freezing the steps stores *)

Definition step_rows (now id : Z) (steps : list (Z * DeploymentStepSnapshot)) : gmap (Z * Z) DeploymentStep :=
  list_to_map ((λ istep, ((id, istep.1), step_row now (step_at id istep.1 (ss_Params istep.2)))) <$> steps).

Definition label_rows (id index : Z) (labels : list string) : gset (Z * Z * string) :=
  list_to_set ((λ l, (id, index, ToLower (TrimSpace l))) <$> labels).

Definition selector_rows (id : Z) (steps : list (Z * DeploymentStepSnapshot)) : gset (Z * Z * string) :=
  ⋃ ((λ istep, label_rows id istep.1 (ss_Selectors istep.2)) <$> steps).

Definition indexed (steps : list DeploymentStepSnapshot) : list (Z * DeploymentStepSnapshot) :=
  imap (λ i step, (Z.of_nat i, step)) steps.

(** The plan [steps] and the selectors [labels] are added to the store. *)
Record plan_added (s s' : DB) (rows : gmap (Z * Z) DeploymentStep) (labels : gset (Z * Z * string)) : Prop := {
  pa_now : db_now s' = db_now s;
  pa_queue : same_queue_tables s s';
  pa_steps : db_steps s' = rows ∪ db_steps s;
  pa_sources : db_step_sources s' = db_step_sources s;
  pa_selectors : dt_selectors (db_creation s') = labels ∪ dt_selectors (db_creation s);
  pa_attempts : dt_attempts (db_creation s') = dt_attempts (db_creation s);
  pa_artifacts : dt_artifacts (db_creation s') = dt_artifacts (db_creation s);
  pa_release_artifacts : dt_release_artifacts (db_creation s') = dt_release_artifacts (db_creation s) }.

Lemma plan_added_refl s : plan_added s s ∅ ∅.
Proof. split; try done; by rewrite (left_id_L ∅ (∪)). Qed.

Lemma plan_added_trans s1 s2 s3 r1 r2 l1 l2 :
  plan_added s1 s2 r1 l1 → plan_added s2 s3 r2 l2 → r1 ##ₘ r2 → plan_added s1 s3 (r1 ∪ r2) (l1 ∪ l2).
Proof.
  intros [N1 Q1 S1 J1 L1 A1 B1 C1] [N2 Q2 S2 J2 L2 A2 B2 C2] Hd. split; try congruence.
  - by etrans.
  - rewrite S2, S1, (map_union_comm r1 r2) by done. by rewrite (assoc_L (∪)).
  - rewrite L2, L1. set_solver.
Qed.

Lemma plan_added_from s1 s2 s3 rows labels :
  same_queue_tables s1 s2 → same_plans s1 s2 → plan_added s2 s3 rows labels → plan_added s1 s3 rows labels.
Proof.
  intros Q [N _ _ _ _ S J L A B C] [N' Q' S' J' L' A' B' C']. split; try congruence. by etrans.
Qed.

Lemma writable_kept s s' id rows labels :
  plan_added s s' rows labels → snapshot_writable s' id = snapshot_writable s id.
Proof.
  intros [_ Q _ J _ A _ _]. unfold snapshot_writable, snapshot_open, deployment_is.
  by rewrite (sq_deployments _ _ Q), J, A.
Qed.

Lemma add_selector id index label s n s' :
  AddDeploymentStepSelector id index label s = Ok (n, s') → snapshot_writable s id = true →
  plan_added s s' ∅ {[(id, index, label)]}.
Proof.
  unfold AddDeploymentStepSelector. intros E Hw. rewrite Hw in E.
  destruct (_ || _ || _); [done|]. injection E as _ <-. split; try done; cbn; by rewrite ?(left_id_L ∅ (∪)).
Qed.

Lemma add_selectors id index seen labels s s' :
  snapshot_selectors id index seen labels s = Ok (tt, s') → snapshot_writable s id = true →
  (∀ l, l ∈ seen → (id, index, l) ∈ dt_selectors (db_creation s)) →
  plan_added s s' ∅ (label_rows id index labels).
Proof.
  revert seen s. induction labels as [|label labels IH]; intros seen s E Hw Hseen; cbn in E.
  { injection E as <-. apply plan_added_refl. }
  unfold label_rows. cbn. change (list_to_set _) with (label_rows id index labels).
  destruct (ToLower (TrimSpace label) ∈? seen)%bool eqn:Hin.
  - apply in_list_true, Hseen in Hin. destruct (IH _ _ E Hw Hseen). split; try done. set_solver.
  - apply bind_inv in E as (n & s1 & Ha & E). pose proof (add_selector _ _ _ _ _ _ Ha Hw) as Hp.
    pose proof (plan_added_trans s s1 s' ∅ ∅ _ (label_rows id index labels) Hp) as Ht.
    rewrite (left_id_L ∅ (∪)) in Ht. apply Ht; [|apply map_disjoint_empty_l].
    eapply IH; [exact E|by rewrite (writable_kept _ _ _ _ _ Hp)|]. rewrite (pa_selectors _ _ _ _ Hp).
    intros l [->|Hl]%elem_of_cons; [set_solver|]. apply Hseen in Hl. set_solver.
Qed.

Lemma add_step st s n s' :
  CreateDeploymentStep st s = Ok (n, s') → snapshot_writable s (s_DeploymentID st) = true →
  db_steps s !! (s_DeploymentID st, s_StepIndex st) = None ∧
  plan_added s s' {[(s_DeploymentID st, s_StepIndex st) := step_row (db_now s) st]} ∅.
Proof.
  unfold CreateDeploymentStep. intros E Hw. rewrite Hw in E.
  apply bind_inv in E as (u & s1 & Hi & E). injection E as _ <-. revert Hi. unfold insert_row.
  destruct (is_null _ && _) eqn:Hok; [|done]. intros [= _ <-].
  apply andb_true_iff in Hok as [Hn _]. split; [by destruct (db_steps s !! _)|].
  split; try done; cbn; [by rewrite insert_union_singleton_l|set_solver].
Qed.

(** The loop over the steps. *)
Definition snapshot_step (id : Z) (istep : Z * DeploymentStepSnapshot) : Tx unit :=
  CreateDeploymentStep (step_at id istep.1 (ss_Params istep.2));;
  snapshot_selectors id istep.1 [] (ss_Selectors istep.2).

Lemma add_one_step id istep s s' :
  snapshot_step id istep s = Ok (tt, s') → snapshot_writable s id = true →
  plan_added s s' {[(id, istep.1) := step_row (db_now s) (step_at id istep.1 (ss_Params istep.2))]}
    (label_rows id istep.1 (ss_Selectors istep.2)).
Proof.
  unfold snapshot_step. intros (n & s1 & Hc & Hs)%bind_inv Hw.
  destruct (add_step _ _ _ _ Hc Hw) as [_ Hp]. cbn in Hp.
  pose proof (plan_added_trans s s1 s' _ ∅ ∅ (label_rows id istep.1 (ss_Selectors istep.2)) Hp) as Ht.
  rewrite (right_id_L ∅ (∪)), (left_id_L ∅ (∪)) in Ht. apply Ht; [|apply map_disjoint_empty_r].
  eapply add_selectors; [exact Hs|by rewrite (writable_kept _ _ _ _ _ Hp)|]. intros l Hl. set_solver.
Qed.

Lemma step_rows_None now id l k : k.1 ≠ id ∨ k.2 ∉ l.*1 → step_rows now id l !! k = None.
Proof.
  intros Hk. apply not_elem_of_list_to_map. rewrite list_elem_of_fmap. intros ([k' r] & -> & Hin).
  apply list_elem_of_fmap in Hin as ([i step] & [= -> ->] & Hin). cbn in Hk.
  destruct Hk as [Hk|Hk]; [done|]. apply Hk, list_elem_of_fmap. by exists (i, step).
Qed.

Lemma add_steps id l s s' :
  for_each l (snapshot_step id) s = Ok (tt, s') → snapshot_writable s id = true → NoDup l.*1 →
  plan_added s s' (step_rows (db_now s) id l) (selector_rows id l).
Proof.
  revert s. induction l as [|istep l IH]; intros s E Hw Hnd; cbn in E.
  { injection E as <-. apply plan_added_refl. }
  apply bind_inv in E as ([] & s1 & Ha & E). cbn in Hnd. apply NoDup_cons in Hnd as [Hin Hnd].
  pose proof (add_one_step _ _ _ _ Ha Hw) as Hp.
  assert (Hr : plan_added s1 s' (step_rows (db_now s) id l) (selector_rows id l)).
  { rewrite <-(pa_now _ _ _ _ Hp). apply IH; [done| |done]. by rewrite (writable_kept _ _ _ _ _ Hp). }
  pose proof (plan_added_trans _ _ _ _ _ _ _ Hp Hr) as Ht. unfold step_rows, selector_rows. cbn.
  rewrite insert_union_singleton_l. apply Ht. apply map_disjoint_singleton_l, step_rows_None. by right.
Qed.

Lemma indexed_nodup steps : NoDup (indexed steps).*1.
Proof.
  unfold indexed. rewrite NoDup_alt. intros i j x. rewrite !list_lookup_fmap, !list_lookup_imap.
  destruct (steps !! i), (steps !! j); cbn; try done. intros [= <-] [= ?]. lia.
Qed.

Lemma freeze_source id json s n s' :
  (if String.eqb json "" then FreezeDeploymentStepSource id else FreezeDeploymentStepSourceJSON json id) s
  = Ok (n, s') → negb (Z.eqb n 0) = true →
  ∃ source, s' = set_step_sources (<[id := source]> (db_step_sources s)) s ∧
    (json ≠ "" → source = json) ∧
    (json = "" → ∀ d release, db_deployments s !! id = Some d → db_releases s !! d_ReleaseID d = Some release →
       source = rel_StepsJson release).
Proof.
  intros E Hn.
  assert (Hj : ∀ source, FreezeDeploymentStepSourceJSON source id s = Ok (n, s') →
    s' = set_step_sources (<[id := source]> (db_step_sources s)) s).
  { intros source. unfold FreezeDeploymentStepSourceJSON. destruct (snapshot_open s id); [by intros [= _ <-]|].
    intros [= <- _]. done. }
  destruct (String.eqb_spec json "") as [->|Hne]; [|eauto 10 with congruence].
  revert E. unfold FreezeDeploymentStepSource.
  destruct (db_deployments s !! id) as [d|] eqn:Hd; cbn; [|by intros [= <- _]].
  destruct (db_releases s !! d_ReleaseID d) as [release|] eqn:Hr; cbn; [|by intros [= <- _]].
  intros E. exists (rel_StepsJson release). split; [by apply Hj|]. split; [done|].
  intros _ d' release' [= <-]. congruence.
Qed.

Lemma snapshot_steps id steps json s s' :
  snapshotDeploymentStepsFromSource id steps json s = Ok (tt, s') →
  id ∉ dt_attempts (db_creation s) →
  ∃ s1 source,
    plan_added s s1 (step_rows (db_now s) id (indexed steps)) (selector_rows id (indexed steps)) ∧
    s' = set_step_sources (<[id := source]> (db_step_sources s1)) s1 ∧
    (json ≠ "" → source = json) ∧
    (json = "" → ∀ d release, db_deployments s !! id = Some d → db_releases s !! d_ReleaseID d = Some release →
       source = rel_StepsJson release).
Proof.
  unfold snapshotDeploymentStepsFromSource. intros (n & s0 & Hl & E)%bind_inv Hat.
  unfold LockDeploymentSnapshot in Hl. injection Hl as <- <-.
  apply bind_inv in E as (u & s0 & Hg & E).
  destruct (snapshot_open s id) eqn:Hopen; [|done].
  destruct (negb (_ || _)) in Hg; [|done]. injection Hg as _ <-.
  apply bind_inv in E as ([] & s1 & Hf & E). apply bind_inv in E as (m & s2 & Hz & E).
  assert (Hw : snapshot_writable s id = true).
  { unfold snapshot_writable. rewrite Hopen. by rewrite bool_decide_false. }
  pose proof (add_steps id (indexed steps) s s1 Hf Hw (indexed_nodup steps)) as Hp.
  destruct (negb (Z.eqb m 0)) eqn:Hm; [|done]. injection E as <-.
  destruct (freeze_source id json s1 m s2 Hz Hm) as (source & -> & H1' & H2').
  exists s1, source. split; [done|]. split; [done|]. split; [done|]. intros Hj d release Hd Hr.
  apply (H2' Hj d); [by rewrite (sq_deployments _ _ (pa_queue _ _ _ _ Hp))|].
  by rewrite (sq_releases _ _ (pa_queue _ _ _ _ Hp)).
Qed.

(** ** What creating a deployment stores *)

(** The steps that are frozen: those of the release, and the verification's. *)
Definition verified_steps (env : Environment) (steps : list DeploymentStepSnapshot) : list DeploymentStepSnapshot :=
  if String.eqb (e_VerificationType env) "bash"
  then match last steps with
       | Some step => steps ++ [bash_step (e_VerificationTimeoutSeconds env) step]
       | None => steps
       end
  else steps.

Lemma verification_steps d steps s frozen s' :
  d_Kind d = "deployment" → snapshotVerification d steps s = Ok (frozen, s') →
  ∃ env, db_environments s !! d_EnvironmentID d = Some env ∧ frozen = verified_steps env steps.
Proof.
  intros Hk. unfold snapshotVerification. rewrite Hk. cbn [String.eqb negb Ascii.eqb Bool.eqb].
  intros ([id env] & s1 & He & E)%bind_inv. unfold GetEnvironment in He.
  destruct (db_environments s !! d_EnvironmentID d) as [env'|]; [|done]. injection He as <- <- <-.
  exists env'. split; [done|]. unfold verified_steps. cbn [snd] in E.
  destruct (String.eqb_spec (e_VerificationType env') "") as [Ht|_].
  { injection E as <- <-. by rewrite Ht. }
  apply bind_inv in E as (frozen' & s2 & Hf & E). apply bind_inv in E as (u & s3 & _ & E).
  injection E as <- <-. revert Hf. destruct (String.eqb _ "bash"); [|by intros [= <- _]].
  destruct (last steps); [by intros [= <- _]|done].
Qed.

(** Foreign keys: steps, attempts and artifacts belong to deployments. *)
Record plan_keys (s : DB) : Prop := {
  pk_steps : ∀ id i, is_Some (db_steps s !! (id, i)) → is_Some (db_deployments s !! id);
  pk_attempts : ∀ id, id ∈ dt_attempts (db_creation s) → is_Some (db_deployments s !! id);
  pk_artifacts : ∀ id, is_Some (dt_artifacts (db_creation s) !! id) → is_Some (db_deployments s !! id) }.

(** ** Admission *)

(** [d] comes first in the free scope [sc]: nothing blocks it, and every
    deployment that waits there comes after [d]. *)
Definition next_in (s : DB) (sc : Z * Z) (d : Deployment) : Prop :=
  free_scope s sc ∧
  ∀ m dm, scope_of s m = Some sc → db_deployments s !! m = Some dm → d_Status dm = "queued" →
    deployment_le (d_ID d, d) (m, dm) = true.

(** Asked to wait in the queue, the new deployment [d] is admitted exactly when
    it comes first in its scope, and then holds it; otherwise it has the status
    that was asked for. *)
Definition admission (s s' : DB) (sc : Z * Z) (asked : string) (d : Deployment) : Prop :=
  if (asked ∈? ["queued"; "pending"])%bool
  then d_Status d ∈ ["queued"; "pending"] ∧ (d_Status d = "pending" ↔ next_in s sc d) ∧
       (d_Status d = "pending" → db_slots s' !! sc = Some (d_ID d))
  else d_Status d = asked.

(** A new row does not block, and comes first when it is the oldest. *)
Lemma next_after_insert s s' sc row :
  claim_keys s → run_keys s → db_deployments s !! d_ID row = None →
  db_deployments s' = <[d_ID row := row]> (db_deployments s) → db_claims s' = db_claims s →
  db_runs s' = db_runs s → db_releases s' = db_releases s →
  d_Status row = "queued" → scope_of s' (d_ID row) = Some sc →
  free_scope s' sc ∧ oldest s' sc (d_ID row) row ↔ next_in s sc row.
Proof.
  intros Hck Hrk Hf Hd Hc Hr Hrel Hq Hsc.
  assert (Hne : ∀ m, scope_of s m = Some sc → m ≠ d_ID row)
    by (intros m (? & ? & ? & _)%scope_of_lookup ->; congruence).
  assert (Hrow : ∀ m, m ≠ d_ID row → db_deployments s' !! m = db_deployments s !! m)
    by (intros m Hm; by rewrite Hd, lookup_insert_ne).
  assert (Hscope : ∀ m, m ≠ d_ID row → scope_of s' m = scope_of s m)
    by (intros m Hm; unfold scope_of, deployment_scope; by rewrite Hrow, Hrel).
  assert (Hbl : ∀ m, m ≠ d_ID row → blocking s' m = blocking s m) by (intros m Hm; apply blocking_ext; auto).
  assert (Hown : blocking s' (d_ID row) = false).
  { unfold blocking. rewrite Hd, lookup_insert_eq. unfold is_blocker, claim_in. rewrite Hc.
    assert (db_claims s !! d_ID row = None) as ->.
    { destruct (db_claims s !! d_ID row) as [c|] eqn:E; [|done]. destruct (Hck _ _ E) as [_ [? ?]]. congruence. }
    assert (∀ p, run_in s' (d_ID row) p = false) as Hno.
    { intros p. unfold run_in. rewrite Hr. apply exists_row_false. intros k r Hk. apply andb_false_iff. left.
      apply Z.eqb_neq. intros He. destruct (proj2 Hrk k r Hk) as [_ [? ?]]. rewrite He in *. congruence. }
    by rewrite !Hno, Hq. }
  split.
  - intros [Hfree (_ & _ & _ & Hmin)]. split.
    + intros b Hb. rewrite <-Hbl by by apply Hne. apply Hfree. by rewrite Hscope by by apply Hne.
    + intros m dm Hm Hdm Hqm. pose proof (Hne m Hm) as Hmr.
      destruct (Hmin m dm) as [?|?]; [by rewrite Hscope|by rewrite Hrow|done..].
  - intros [Hfree Hmin]. split; [|split; [done|split; [by rewrite Hd, lookup_insert_eq|split; [done|]]]].
    + intros b Hb. destruct (decide (b = d_ID row)) as [->|Hbr]; [done|]. rewrite Hbl by done.
      apply Hfree. by rewrite <-Hscope.
    + intros m dm Hm Hdm Hqm. destruct (decide (m = d_ID row)) as [->|Hmr]; [by left|right].
      apply Hmin; [by rewrite <-Hscope|by rewrite <-Hrow|done].
Qed.

(** [d] was created in [s] as [arg] asks, with [steps] frozen; [json] is the
    source of the steps, the release's when it is empty. *)
Record created (s : DB) (nonce : option bytes) (arg : CreateDeploymentParams) (steps : list DeploymentStepSnapshot)
    (json : string) (d : Deployment) (s' : DB) : Prop := {
  cr_fresh : db_deployments s !! d_ID d = None;
  cr_row : db_deployments s' !! d_ID d = Some d;
  cr_fields : d = d_set_Status (d_Status d) (new_deployment s (queued_params arg));
  cr_admission : ∀ sc, scope_of s' (d_ID d) = Some sc → admission s s' sc (cd_Status arg) d;
  cr_captured : ∃ l c, captured_variables configured d s = Ok (l, s) ∧
    encryptValue configured nonce (Some (marshal l)) = Ok c ∧
    vt_snapshots (db_variables s') = <[d_ID d := default "" c]> (vt_snapshots (db_variables s));
  cr_waits : d_Status d ∈ snapshot_statuses;
  cr_plan : ∃ release env, db_releases s !! cd_ReleaseID arg = Some release ∧
    db_environments s !! cd_EnvironmentID arg = Some env ∧
    db_steps s' = step_rows (db_now s) (d_ID d) (indexed (verified_steps env steps)) ∪ db_steps s ∧
    dt_selectors (db_creation s') =
      selector_rows (d_ID d) (indexed (verified_steps env steps)) ∪ dt_selectors (db_creation s) ∧
    db_step_sources s' =
      <[d_ID d := if String.eqb json "" then rel_StepsJson release else json]> (db_step_sources s);
  cr_claims : db_claims s' = db_claims s;
  cr_runs : db_runs s' = db_runs s;
  cr_releases : db_releases s' = db_releases s;
  cr_environments : db_environments s' = db_environments s;
  cr_artifacts : dt_artifacts (db_creation s') = dt_artifacts (db_creation s);
  cr_release_artifacts : dt_release_artifacts (db_creation s') = dt_release_artifacts (db_creation s) }.

Lemma queued_fields arg :
  cd_ReleaseID (queued_params arg) = cd_ReleaseID arg ∧
  cd_EnvironmentID (queued_params arg) = cd_EnvironmentID arg ∧
  cd_AssignedAgentID (queued_params arg) = None.
Proof. unfold queued_params. by destruct (String.eqb _ _). Qed.

Lemma new_row_constraints s arg d s' :
  CreateDeployment arg s = Ok (d, s') →
  deployment_constraints s arg = true ∧ d = new_deployment s arg ∧ s' = insert_deployment d s.
Proof. unfold CreateDeployment. destruct (deployment_constraints s arg); [|done]. by intros [= <- <-]. Qed.

(** What happens to the row between its insertion and the end. *)
Lemma advanced_row s env d s' d' :
  queue_wf s → db_deployments s !! d_ID d = Some d → advanceEnvironmentQueue env s = Ok (tt, s') →
  db_deployments s' !! d_ID d = Some d' →
  d' = d ∨ d_Status d = "queued" ∧ d' = d_set_Status "pending" d.
Proof.
  intros Hwf Hd Hadv Hd'. destruct (advanceEnvironmentQueue_spec s env Hwf) as (s2 & Hs2 & Hst & _).
  assert (s2 = s') as -> by congruence.
  destruct (env_steps_row _ _ _ (d_ID d) Hst) as [He|(d0 & Hd0 & Hq & He)].
  - left. congruence.
  - right. simplify_eq. split; congruence.
Qed.


(** The statements before the insertion only read. *)
Lemma create_prefix nonce arg steps json s d s' :
  createDeploymentWithSteps configured marshal unmarshal nonce arg steps json s = Ok (d, s') →
  ∃ release gated, db_releases s !! cd_ReleaseID arg = Some release ∧
    validateDeploymentArtifactGate (rel_Kind release) steps = Ok gated ∧
    (deployment ← CreateDeployment (queued_params arg);
     snapshotDeploymentVariables configured marshal nonce deployment;;
     validateAnsibleCapturedVariables configured unmarshal deployment steps;;
     (if gated : bool then CreateArtifactGateRun (d_ID deployment) else mret tt);;
     steps ← snapshotVerification deployment steps;
     snapshotDeploymentStepsFromSource (d_ID deployment) steps json;;
     queueAudit (d_ID deployment) "deployment_queue_created";;
     advanceEnvironmentQueue (cd_EnvironmentID arg);;
     GetDeployment (d_ID deployment)) s = Ok (d, s').
Proof.
  unfold createDeploymentWithSteps. intros E.
  apply (bind_respects (λ s s' : DB, s' = s)) in E as (? & ? & _ & -> & E); [|respects].
  apply bind_inv in E as (release & s1 & Hrel & E). unfold GetRelease in Hrel.
  destruct (db_releases s !! cd_ReleaseID arg) as [r|]; [|done]. injection Hrel as <- <-.
  apply (bind_respects (λ s s' : DB, s' = s)) in E as (? & ? & _ & -> & E); [|apply readonly_admission].
  apply (bind_respects (λ s s' : DB, s' = s)) in E as (? & ? & _ & -> & E); [|respects].
  apply (bind_respects (λ s s' : DB, s' = s)) in E as (? & ? & _ & -> & E); [|respects].
  apply bind_inv in E as (gated & s2 & Hg & E). unfold lift in Hg.
  destruct (validateDeploymentArtifactGate _ _) as [g|] eqn:Hv in Hg; [|done]. injection Hg as <- <-.
  by exists r, g.
Qed.

Lemma create_suffix s row env d s' p :
  queue_wf s → db_deployments s !! d_ID row = Some row → scope_of s (d_ID row) = Some (p, env) →
  (queueAudit (d_ID row) "deployment_queue_created";;
   advanceEnvironmentQueue env;;
   GetDeployment (d_ID row) : Tx Deployment) s = Ok (d, s') →
  same_plans s s' ∧ db_deployments s' !! d_ID row = Some d ∧
  (d = row ∨ d_Status row = "queued" ∧ d = d_set_Status "pending" row) ∧
  (d_Status row = "queued" →
     (d_Status d = "pending" ↔ free_scope s (p, env) ∧ oldest s (p, env) (d_ID row) row) ∧
     (d_Status d = "pending" → db_slots s' !! (p, env) = Some (d_ID row))).
Proof.
  intros Hwf Hrow Hsc (u & s1 & Ha & E)%bind_inv. injection Ha as <- <-.
  apply bind_inv in E as ([] & s2 & Hadv & E). unfold GetDeployment in E.
  destruct (db_deployments s2 !! d_ID row) as [d'|] eqn:Hd; [|done]. injection E as <- <-.
  set (s1 := set_pending_audit _ s) in Hadv.
  assert (Hwf1 : queue_wf s1) by (eapply queue_wf_ext; [|exact Hwf]; by split).
  split; [etrans; [|by eapply (tables_advance same_plans)]; by split|]. split; [done|].
  split; [by apply (advanced_row s1 env row s2 d')|]. intros Hq.
  destruct (advanceEnvironmentQueue_spec s1 env Hwf1) as (s3 & Hs3 & Hst & Hstab).
  assert (s3 = s2) as -> by congruence.
  assert (Hadm : d_Status d' = "pending" → free_scope s1 (p, env) ∧ oldest s1 (p, env) (d_ID row) row).
  { intros Hp. apply (env_steps_admitted env s1 s2 p (d_ID row) row d'); try done. by rewrite Hp. }
  split; [split; [exact Hadm|]|]; [intros [Hfree Hold]|intros [Hfree Hold]%Hadm];
    destruct (env_steps_admit env s1 s2 p (d_ID row) row Hst Hfree Hold (Hstab p) Hwf1) as (Hslot & Hp & _);
    [|exact Hslot].
  assert (d' = d_set_Status "pending" row) as -> by congruence. done.
Qed.

(** The status of a new row, from its queue's. *)
Lemma admission_intro s s1 s' sc arg row d :
  claim_keys s → run_keys s → db_deployments s !! d_ID row = None →
  db_deployments s1 = <[d_ID row := row]> (db_deployments s) → db_claims s1 = db_claims s →
  db_runs s1 = db_runs s → db_releases s1 = db_releases s → scope_of s1 (d_ID row) = Some sc →
  d_Status row = cd_Status (queued_params arg) →
  (d = row ∨ d_Status row = "queued" ∧ d = d_set_Status "pending" row) →
  (d_Status row = "queued" → (d_Status d = "pending" ↔ free_scope s1 sc ∧ oldest s1 sc (d_ID row) row) ∧
     (d_Status d = "pending" → db_slots s' !! sc = Some (d_ID row))) →
  admission s s' sc (cd_Status arg) d.
Proof.
  intros Hck Hrk Hf Hd Hc Hr Hrel Hsc Hst Hcases Hq.
  assert (Hsame : d_ID d = d_ID row ∧ (next_in s sc d ↔ next_in s sc row)) by (by destruct Hcases as [->|[_ ->]]).
  destruct Hsame as [Hid Hnext]. unfold admission. unfold queued_params in Hst.
  change (cd_Status (cd_set_AssignedAgentID None arg)) with (cd_Status arg) in Hst.
  destruct (cd_Status arg ∈? ["queued"; "pending"])%bool eqn:Hasked.
  - assert (Hrq : d_Status row = "queued").
    { apply in_list_true in Hasked. rewrite Hst. rewrite !elem_of_cons, elem_of_nil in Hasked.
      destruct (String.eqb_spec (cd_Status arg) "pending"); [done|]. cbn. tauto. }
    destruct (Hq Hrq) as [Hiff Hslot]. rewrite Hid. split; [|split; [|done]].
    + destruct Hcases as [->|[_ ->]]; [rewrite Hrq|cbn]; set_solver.
    + rewrite Hnext, Hiff. by eapply next_after_insert.
  - destruct (String.eqb_spec (cd_Status arg) "pending") as [Hp|_]; [by rewrite Hp in Hasked|].
    change (cd_Status (cd_set_AssignedAgentID None arg)) with (cd_Status arg) in Hst.
    destruct Hcases as [->|[Hrq _]]; [exact Hst|]. rewrite Hst in Hrq. by rewrite Hrq in Hasked.
Qed.

(** The row, the plan and the tables around them, from the states between. *)
(** The last statements: the deployment is queued, and admitted if it comes first. *)
Lemma queued_and_admitted s arg row release s7 source d s' :
  sys_inv s → sys_inv (insert_deployment row s) → row = new_deployment s (queued_params arg) →
  db_releases s !! cd_ReleaseID arg = Some release → same_queue_tables (insert_deployment row s) s7 →
  (queueAudit (d_ID row) "deployment_queue_created";;
   advanceEnvironmentQueue (cd_EnvironmentID arg);;
   GetDeployment (d_ID row) : Tx Deployment) (set_step_sources source s7) = Ok (d, s') →
  same_plans (set_step_sources source s7) s' ∧ db_deployments s' !! d_ID row = Some d ∧
  (d = row ∨ d_Status row = "queued" ∧ d = d_set_Status "pending" row) ∧
  ∀ sc, scope_of s' (d_ID row) = Some sc → admission s s' sc (cd_Status arg) d.
Proof.
  intros Hinv Hinv1 Hrow Hrel Q E. set (s8 := set_step_sources _ s7) in *.
  destruct (queued_fields arg) as (F1 & F2 & _).
  assert (Hd8 : db_deployments s8 = <[d_ID row := row]> (db_deployments s)) by (cbn; by rewrite (sq_deployments _ _ Q)).
  assert (Hr8 : db_releases s8 = db_releases s) by (cbn; by rewrite (sq_releases _ _ Q)).
  assert (Hsc : scope_of s8 (d_ID row) = Some (rel_ProjectID release, cd_EnvironmentID arg)).
  { apply scope_of_lookup. exists row, release. rewrite Hd8, lookup_insert_eq, Hr8. split; [done|].
    rewrite Hrow. cbn. by rewrite F1, F2. }
  destruct (create_suffix s8 row (cd_EnvironmentID arg) d s' (rel_ProjectID release)) as (Hplan & Hd & Hstat & Hadm); [| |exact Hsc|exact E|].
  { eapply queue_wf_ext; [|apply Hinv1]. etrans; [exact Q|by split]. }
  { rewrite Hd8. apply lookup_insert_eq. }
  split; [done|]. split; [done|]. split; [done|]. intros sc Hs'.
  replace sc with (rel_ProjectID release, cd_EnvironmentID arg).
  - eapply (admission_intro s s8); try done; [apply Hinv..| | | |].
    + rewrite Hrow. apply next_deployment_fresh.
    + cbn. by rewrite (sq_claims _ _ Q).
    + cbn. by rewrite (sq_runs _ _ Q).
    + by rewrite Hrow.
  - apply scope_of_lookup in Hs' as (d0 & rel & Hd0 & Hr0 & ->). assert (d0 = d) as -> by congruence.
    assert (d_ReleaseID d = cd_ReleaseID arg ∧ d_EnvironmentID d = cd_EnvironmentID arg) as [Hre Hen].
    { rewrite <-F1, <-F2. by destruct Hstat as [->|[_ ->]]; rewrite Hrow. }
    rewrite Hre, (sp_releases _ _ Hplan), Hr8 in Hr0. congruence.
Qed.

Lemma created_intro s nonce arg steps json row s1 release env s7 source d s' :
  sys_inv s → sys_inv s1 →
  row = new_deployment s (queued_params arg) → s1 = insert_deployment row s →
  (cd_Status (queued_params arg) ∈? snapshot_statuses)%bool = true →
  db_releases s !! cd_ReleaseID arg = Some release → db_environments s !! cd_EnvironmentID arg = Some env →
  plan_added s1 s7 (step_rows (db_now s) (d_ID row) (indexed (verified_steps env steps)))
    (selector_rows (d_ID row) (indexed (verified_steps env steps))) →
  source = (if String.eqb json "" then rel_StepsJson release else json) →
  (queueAudit (d_ID row) "deployment_queue_created";;
   advanceEnvironmentQueue (cd_EnvironmentID arg);;
   GetDeployment (d_ID row) : Tx Deployment)
    (set_step_sources (<[d_ID row := source]> (db_step_sources s7)) s7) = Ok (d, s') →
  (∃ l c, captured_variables configured row s = Ok (l, s) ∧
    encryptValue configured nonce (Some (marshal l)) = Ok c ∧
    vt_snapshots (db_variables s') = <[d_ID row := default "" c]> (vt_snapshots (db_variables s))) →
  created s nonce arg steps json d s'.
Proof.
  intros Hinv Hinv1 Hrow -> Hst Hrel Henv Hp -> E Hcap.
  apply (queued_and_admitted s arg row release) in E as (Hplan & Hd & Hstat & Hadm); [|done..|apply Hp].
  assert (Hid : d_ID d = d_ID row) by (by destruct Hstat as [->|[_ ->]]).
  destruct Hp as [N Q S J L A B C], Hplan as [N' R' E' C' U' S' J' L' A' B' F'].
  split; rewrite ?Hid; try done.
  - rewrite Hrow. apply next_deployment_fresh.
  - rewrite <-Hrow. by destruct Hstat as [->|[_ ->]]; [destruct row|].
  - destruct Hcap as (l & c & Hl & Hrest). exists l, c. split; [|done].
    apply (captured_same _ row _ s s l s); [done| |done]. by destruct Hstat as [->|[_ ->]].
  - apply in_list_true in Hst. rewrite Hrow in Hstat.
    destruct Hstat as [->|[_ ->]]; [done|]. cbn. set_solver.
  - exists release, env. rewrite S', L', J'. cbn. by rewrite S, L, J.
  - rewrite C'. cbn. by rewrite (sq_claims _ _ Q).
  - rewrite U'. cbn. by rewrite (sq_runs _ _ Q).
  - rewrite R'. cbn. by rewrite (sq_releases _ _ Q).
  - rewrite E'. cbn. by rewrite (sq_environments _ _ Q).
  - rewrite B'. cbn. by rewrite B.
  - rewrite F'. cbn. by rewrite C.
Qed.

(** The captured variables are stored by one statement; the others leave them. *)
Definition same_captures (s s' : DB) : Prop := db_variables s' = db_variables s.

#[export] Instance same_captures_refl : Reflexive same_captures.
Proof. by intros s. Qed.
#[export] Instance same_captures_trans : Transitive same_captures.
Proof. unfold same_captures. intros s1 s2 s3. congruence. Qed.

Lemma captures_selectors id index seen labels : respects same_captures (snapshot_selectors id index seen labels).
Proof. revert seen. induction labels; intros seen; cbn [snapshot_selectors]; walk ltac:(exact eq_refl); auto. Qed.
Hint Resolve captures_selectors : respects.

Lemma captures_frozen id steps json : respects same_captures (snapshotDeploymentStepsFromSource id steps json).
Proof. walk ltac:(exact eq_refl). Qed.
Hint Resolve captures_frozen : respects.

Lemma captures_advance env : respects same_captures (advanceEnvironmentQueue env).
Proof. walk ltac:(exact eq_refl). Qed.
Hint Resolve captures_advance : respects.

Lemma captures_rest gated d steps json env :
  respects same_captures (
    validateAnsibleCapturedVariables configured unmarshal d steps;;
    (if gated : bool then CreateArtifactGateRun (d_ID d) else mret tt);;
    steps ← snapshotVerification d steps;
    snapshotDeploymentStepsFromSource (d_ID d) steps json;;
    queueAudit (d_ID d) "deployment_queue_created";;
    advanceEnvironmentQueue env;;
    GetDeployment (d_ID d)).
Proof. walk ltac:(exact eq_refl). Qed.

Lemma captured_in s nonce row s2 s' :
  snapshotDeploymentVariables configured marshal nonce row (insert_deployment row s) = Ok (tt, s2) →
  same_captures s2 s' →
  ∃ l c, captured_variables configured row s = Ok (l, s) ∧
    encryptValue configured nonce (Some (marshal l)) = Ok c ∧
    vt_snapshots (db_variables s') = <[d_ID row := default "" c]> (vt_snapshots (db_variables s)).
Proof.
  intros (l & c & Hl & Hc & _ & ->)%snapshot_exact ->. exists l, c. split; [|done].
  by eapply captured_same; [| |exact Hl].
Qed.

Lemma create_with_steps_inv nonce arg steps json s d s' :
  sys_inv s → plan_keys s →
  createDeploymentWithSteps configured marshal unmarshal nonce arg steps json s = Ok (d, s') →
  created s nonce arg steps json d s'.
Proof.
  intros Hinv Hkeys Hall. pose proof (created_waiting _ _ _ _ _ _ _ _ _ _ Hall) as Hwait.
  apply create_prefix in Hall as (release & gated & Hrel & _ & E).
  apply bind_inv in E as (row & s1 & Hc & E).
  assert (Hinv1 : sys_inv s1) by by eapply sys_create_deployment; [done|apply queued_not_pending|..].
  apply new_row_constraints in Hc as (Hok & Hrow & Hs1).
  assert (R : ∀ A (m : Tx A) sx sy a, same_queue_tables s1 sx ∧ same_plans s1 sx → m sx = Ok (a, sy) →
    respects same_queue_tables m → respects same_plans m → same_queue_tables s1 sy ∧ same_plans s1 sy).
  { intros A m sx sy a [Q P] Hm Hq Hp. split; [by etrans; [|eapply Hq]|by etrans; [|eapply Hp]]. }
  apply bind_inv in E as ([] & s2 & H2' & E). pose proof (captures_rest _ _ _ _ _ _ _ _ E) as Hrest.
  rewrite Hs1 in H2'. pose proof (captured_in _ _ _ _ _ H2' Hrest) as Hcap. rewrite <-Hs1 in H2'.
  eapply R in H2'; [|done|apply same_snapshot_variables|apply (tables_snapshot_variables same_plans)].
  apply bind_inv in E as (u2 & s3 & H3' & E).
  apply readonly_validate_captured in H3' as ->.
  apply bind_inv in E as (u3 & s4 & H4' & E). eapply R in H4'; [|exact H2'|destruct gated; respects..].
  apply bind_inv in E as (frozen & s5 & Hv & E).
  destruct (verification_steps row steps s4 frozen s5) as (env & Henv & ->); [by rewrite Hrow|done|].
  eapply R in Hv as [Q5 P5]; [|exact H4'|apply same_snapshot_verification|apply (tables_snapshot_verification same_plans)].
  apply bind_inv in E as ([] & s6 & Hs & E). destruct H4' as [_ P4].
  assert (Hfresh : db_deployments s !! d_ID row = None) by (rewrite Hrow; apply next_deployment_fresh).
  apply snapshot_steps in Hs as (s7 & source & Hp & -> & Hj1 & Hj2).
  2: { rewrite (sp_attempts _ _ P5), Hs1. intros Ha. apply (pk_attempts _ Hkeys) in Ha as [? ?].
       congruence. }
  rewrite (sp_environments _ _ P4), Hs1 in Henv. rewrite (sp_now _ _ P5) in Hp.
  eapply plan_added_from in Hp; [|done..]. subst s1.
  eapply (created_intro s nonce arg steps json row _ release env s7 source); try done.
  - rewrite Hrow in Henv. cbn in Henv. by rewrite (proj1 (proj2 (queued_fields arg))) in Henv.
  - destruct (String.eqb_spec json "") as [Hj|]; [|by apply Hj1]. apply (Hj2 Hj row).
    + rewrite (sq_deployments _ _ Q5). cbn. apply lookup_insert_eq.
    + rewrite (sq_releases _ _ Q5), Hrow. cbn. by rewrite (proj1 (queued_fields arg)).
Qed.

Lemma copied_artifact row id s s' :
  copy_artifact row id s = Ok (tt, s') →
  same_queue_tables s s' ∧ db_now s' = db_now s ∧ db_steps s' = db_steps s ∧
  db_step_sources s' = db_step_sources s ∧
  dt_artifacts (db_creation s') = match row with Some a => <[id := a]> | None => λ t, t end (dt_artifacts (db_creation s)) ∧
  db_variables s' = db_variables s.
Proof.
  unfold copy_artifact, insert_row. destruct row as [a|]; [|by intros [= <-]].
  destruct (_ && _); [|done]. by intros [= <-].
Qed.

(** The plan of [d] in [s'], for the theorems: [source] was decoded to [steps],
    which are frozen with the verification of the environment; the variables of
    the release and its project's lifecycle are captured; [artifact] is recorded
    for the deployment, which is admitted when it comes first. *)
Record deployed (nonce : option bytes) (s s' : DB) (release environment : Z) (asked : string)
    (steps : list DeploymentStepSnapshot) (source : string) (artifact : option Artifact) (d : Deployment) : Prop := {
  de_fresh : db_deployments s !! d_ID d = None;
  de_row : db_deployments s' !! d_ID d = Some d;
  de_fields : d_ReleaseID d = release ∧ d_EnvironmentID d = environment ∧ d_AssignedAgentID d = None;
  de_waits : d_Status d ∈ snapshot_statuses;
  de_admission : ∃ r, db_releases s !! release = Some r ∧ admission s s' (rel_ProjectID r, environment) asked d;
  de_captured : ∃ l c, captured_variables configured d s = Ok (l, s) ∧
    encryptValue configured nonce (Some (marshal l)) = Ok c ∧
    vt_snapshots (db_variables s') = <[d_ID d := default "" c]> (vt_snapshots (db_variables s));
  de_steps : ∃ env, db_environments s !! environment = Some env ∧
    db_steps s' = step_rows (db_now s) (d_ID d) (indexed (verified_steps env steps)) ∪ db_steps s;
  de_source : db_step_sources s' = <[d_ID d := source]> (db_step_sources s);
  de_artifact : dt_artifacts (db_creation s') !! d_ID d = artifact;
  de_claims : db_claims s' = db_claims s;
  de_runs : db_runs s' = db_runs s }.

Lemma admission_same s s' s'' sc asked d :
  db_slots s'' = db_slots s' → admission s s' sc asked d → admission s s'' sc asked d.
Proof. unfold admission. by intros ->. Qed.

Lemma deployed_intro nonce s arg steps json d s1 release row s' :
  plan_keys s → created s nonce arg steps json d s1 → db_releases s !! cd_ReleaseID arg = Some release →
  copy_artifact row (d_ID d) s1 = Ok (tt, s') →
  deployed nonce s s' (cd_ReleaseID arg) (cd_EnvironmentID arg) (cd_Status arg) steps
    (if String.eqb json "" then rel_StepsJson release else json) row d.
Proof.
  intros Hk [Hf Hr Hfi Hadm Hcap Hw (release' & env & Hrel & Henv & Hs & _ & Hj) Hcl Hru HR _ Ha _] Hrel' Hc.
  apply copied_artifact in Hc as (Q & N & S & J & A & V). destruct (queued_fields arg) as (E1 & E2 & E3). simplify_eq.
  assert (F : d_ReleaseID d = cd_ReleaseID arg ∧ d_EnvironmentID d = cd_EnvironmentID arg ∧ d_AssignedAgentID d = None)
    by (rewrite Hfi; split; [exact E1|]; split; [exact E2|exact E3]).
  split; rewrite ?V, ?J, ?S, ?(sq_deployments _ _ Q), ?(sq_claims _ _ Q), ?(sq_runs _ _ Q); try done.
  - exists release'. split; [done|]. eapply admission_same; [apply Q|]. apply Hadm. apply scope_of_lookup.
    exists d, release'. destruct F as (-> & -> & _). by rewrite HR.
  - by exists env.
  - rewrite A, Ha. destruct row; [apply lookup_insert_eq|].
    destruct (dt_artifacts (db_creation s) !! d_ID d) eqn:E; [|done].
    destruct (pk_artifacts _ Hk (d_ID d)) as [? ?]; [by eexists|]. congruence.
Qed.

Lemma create_deployment_inv nonce arg s d s' :
  sys_inv s → plan_keys s →
  createDeployment configured marshal unmarshal limits nonce arg s = Ok (d, s') →
  ∃ release steps, db_releases s !! cd_ReleaseID arg = Some release ∧
    deploymentStepsFromRelease limits (rel_StepsJson release) = Ok steps ∧
    deployed nonce s s' (cd_ReleaseID arg) (cd_EnvironmentID arg) (cd_Status arg) steps (rel_StepsJson release)
      (dt_release_artifacts (db_creation s) !! cd_ReleaseID arg) d.
Proof.
  intros Hinv Hk. unfold createDeployment. set (arg' := cd_set_AnsibleCheckMode _ arg). intros E.
  read_next E. read_next E. apply bind_inv in E as (release & s1 & Hrel & E). unfold GetRelease in Hrel.
  destruct (db_releases s !! cd_ReleaseID arg') as [r|] eqn:Hr; [|done]. injection Hrel as <- <-.
  apply bind_inv in E as (steps & s2 & Hst & E). unfold lift in Hst.
  destruct (deploymentStepsFromRelease limits (rel_StepsJson r)) as [steps'|] eqn:Hd; [|done].
  injection Hst as <- <-. apply bind_inv in E as (d' & s3 & Hc & E).
  apply bind_inv in E as ([] & s4 & Hcopy & E). injection E as <- <-.
  apply create_with_steps_inv in Hc; [|done..].
  exists r, steps'. split; [done|]. split; [done|].
  unfold CopyReleaseArtifactToDeployment in Hcopy. rewrite (cr_release_artifacts _ _ _ _ _ _ _ Hc) in Hcopy.
  exact (deployed_intro nonce s arg' steps' "" d' s3 r _ s4 Hk Hc Hr Hcopy).
Qed.

(** The steps of a deployment: those frozen for it, else its release's. *)
Definition frozen_source (s : DB) (id : Z) (release : Release) : string :=
  match db_step_sources s !! id with
  | Some json => if String.eqb json "" then rel_StepsJson release else json
  | None => rel_StepsJson release
  end.

Lemma step_source_inv id release s json s' :
  step_source id release s = Ok (json, s') → s' = s ∧
  ∀ r, db_releases s !! release = Some r →
    json = default (rel_StepsJson r) (db_step_sources s !! id) ∧
    (if String.eqb json "" then rel_StepsJson r else json) = frozen_source s id r.
Proof.
  unfold step_source, frozen_source, attempt, mbind, tx_bind, GetDeploymentStepSource, GetRelease.
  destruct (db_step_sources s !! id) as [j|]; [by intros [= <- <-]|].
  destruct (db_releases s !! release) as [r0|]; [|done]. intros [= <- <-]. split; [done|].
  intros r [= <-]. split; [done|]. by destruct (String.eqb_spec (rel_StepsJson r0) "").
Qed.

Lemma create_from_inv nonce arg source s d s' :
  sys_inv s → plan_keys s →
  createDeploymentFromDeployment configured marshal unmarshal limits nonce arg source s = Ok (d, s') →
  ∃ src release steps, db_deployments s !! source = Some src ∧ d_ReleaseID src = cd_ReleaseID arg ∧
    db_releases s !! cd_ReleaseID arg = Some release ∧
    deploymentStepsFromRelease limits (default (rel_StepsJson release) (db_step_sources s !! source)) = Ok steps ∧
    deployed nonce s s' (cd_ReleaseID arg) (cd_EnvironmentID arg) (cd_Status arg) steps (frozen_source s source release)
      (dt_artifacts (db_creation s) !! source) d.
Proof.
  intros Hinv Hk. unfold createDeploymentFromDeployment. intros E. read_next E. read_next E.
  apply bind_inv in E as (src & s1 & Hsrc & E). unfold GetDeployment in Hsrc.
  destruct (db_deployments s !! source) as [src0|] eqn:Hrow; [|done]. injection Hsrc as <- <-.
  read_next E. read_next E. apply bind_inv in E as (u & s1 & Hg & E).
  destruct (Z.eqb_spec (d_ReleaseID src0) (cd_ReleaseID arg)) as [Hrel|]; [|done]. injection Hg as _ <-.
  set (arg' := cd_set_AnsibleCheckMode _ arg) in E. apply bind_inv in E as (json & s1 & Hj & E).
  destruct (step_source_inv _ _ _ _ _ Hj) as [-> Hjson].
  apply bind_inv in E as (steps & s2 & Hst & E). unfold lift in Hst.
  destruct (deploymentStepsFromRelease limits json) as [steps'|] eqn:Hd; [|done].
  injection Hst as <- <-. apply bind_inv in E as (d' & s3 & Hc & E).
  apply bind_inv in E as ([] & s4 & Hcopy & E). injection E as <- <-.
  apply create_with_steps_inv in Hc; [|done..].
  destruct (cr_plan _ _ _ _ _ _ _ Hc) as (release & env & Hr & _). change (cd_ReleaseID arg') with (cd_ReleaseID arg) in Hr.
  destruct (Hjson release Hr) as [Hjs Hfrozen]. exists src0, release, steps'. rewrite <-Hjs.
  split_and!; [done..|].
  unfold CopyDeploymentArtifact in Hcopy. rewrite (cr_artifacts _ _ _ _ _ _ _ Hc) in Hcopy.
  rewrite <-Hfrozen.
  exact (deployed_intro nonce s arg' steps' json d' s3 release _ s4 Hk Hc Hr Hcopy).
Qed.

(** ** Around the transaction *)

Lemma plan_keys_kept s s' : sys_inv s → sys_step s s' → same_plans s s' → plan_keys s → plan_keys s'.
Proof.
  intros Hinv Hstep [_ _ _ _ _ S _ _ A B _] [K1 K2 K3].
  assert (Hrow : ∀ id, is_Some (db_deployments s !! id) → is_Some (db_deployments s' !! id)).
  { intros id. apply row_kept; [apply Hinv|]. by destruct (Hstep Hinv) as (_ & _ & ? & _). }
  split.
  - intros id i. rewrite S. intros ?%K1. auto.
  - intros id. rewrite A. intros ?%K2. auto.
  - intros id. rewrite B. intros ?%K3. auto.
Qed.

(** Where a creation starts: its transaction has only claimed its key. *)
Record same_start (s s' : DB) : Prop := {
  st_queue : same_queue_tables s s';
  st_plans : same_plans s s';
  st_sources : same_sources s s';
  st_captures : vt_snapshots (db_variables s') = vt_snapshots (db_variables s) }.

#[export] Instance same_start_refl : Reflexive same_start.
Proof. by split. Qed.
#[export] Instance same_start_trans : Transitive same_start.
Proof. intros s1 s2 s3 [] []. split; [by etrans..|congruence]. Qed.

Lemma next_in_same s s' sc d : same_queue_tables s s' → next_in s' sc d ↔ next_in s sc d.
Proof.
  intros [Hd Hr _ _ Hc Hu].
  assert (Hscope : ∀ id, scope_of s' id = scope_of s id) by (intros id; unfold scope_of, deployment_scope; by rewrite Hd, Hr).
  assert (Hbl : ∀ id, blocking s' id = blocking s id) by (intros id; apply blocking_ext; by rewrite ?Hd).
  unfold next_in, free_scope. setoid_rewrite Hscope. setoid_rewrite Hbl. by rewrite Hd.
Qed.

Lemma admission_from s0 s s' sc asked d :
  same_queue_tables s0 s → admission s s' sc asked d → admission s0 s' sc asked d.
Proof. clear. unfold admission. intros Hq. pose proof (next_in_same s0 s sc d Hq). destruct (asked ∈? _)%bool; tauto. Qed.

(** [deployed] between states that differ in nothing it speaks of. *)
Lemma deployed_from nonce s0 s s' s'' release environment asked steps source artifact d :
  same_start s0 s → same_plans s' s'' → same_queue_tables s' s'' → db_variables s'' = db_variables s' →
  deployed nonce s s' release environment asked steps source artifact d →
  deployed nonce s0 s'' release environment asked steps source artifact d.
Proof.
  intros [Q P So V] P' Q' V' [Df Dr Dd Dw (r & Hr & Da) (l & c & Dl & Dc & Ds) (env & He & Dst) Dj Dar Dcl Dru].
  split; rewrite ?V', ?(sp_steps _ _ P'), ?(sp_sources _ _ P'), ?(sp_artifacts _ _ P'), ?(sp_claims _ _ P'),
    ?(sp_runs _ _ P'), ?(sq_deployments _ _ Q'); try done.
  - by rewrite <-(sq_deployments _ _ Q).
  - exists r. rewrite <-(sp_releases _ _ P). split; [done|].
    eapply admission_same; [apply Q'|]. by eapply admission_from.
  - exists l, c. rewrite <-V. split; [|done]. eapply captured_same; [|done|exact Dl].
    destruct So. by split.
  - exists env. by rewrite <-(sp_environments _ _ P), Dst, (sp_now _ _ P), (sp_steps _ _ P).
  - by rewrite Dj, (sp_sources _ _ P).
  - by rewrite Dcl, (sp_claims _ _ P).
  - by rewrite Dru, (sp_runs _ _ P).
Qed.
End entering.
