(* ===== verification/Captures.v ===== *)
(** * Captures: rows that the server only adds, and the rotation of the key

    The rows of idempotency keys and the captured variables of deployments: no
    entry point changes or removes one. Rotating the key rewrites captures; what
    they decrypt to stays, along every [history]. *)
From stdpp Require Import pretty.
From S2P Require Import Prelude Text Db Tx Staging StageQueries QueueQueries DeploymentQueue QueueSafety QueueTheorems DispatchQueries RemoteLifecycle RemoteSafety RemoteSpec RemoteRefine AccessQueries Base64 Secret Variables VariableTheorems Gate Ansible CreationQueries GateQueries ArtifactGate DeploymentCreation StepQueries RemotePayload LogScrub LogBuffer RemoteSteps AgentPoll RemoteLogs StepSpec System CreationSafety StepSafety StepBodies Runs Plans.

Definition keys (s : DB) : gmap (Z * Z * string * string) IdempotencyRow := dt_idempotency (db_creation s).
Definition snapshots (s : DB) : gmap Z string := vt_snapshots (db_variables s).

Record kept (s s' : DB) : Prop := {
  kp_keys : keys s ⊆ keys s';
  kp_snapshots : snapshots s ⊆ snapshots s' }.

#[export] Instance kept_refl : Reflexive kept.
Proof. by intros s. Qed.
#[export] Instance kept_trans : Transitive kept.
Proof. intros s1 s2 s3 [] []. split; by etrans. Qed.

Lemma kept_same s s' : keys s' = keys s → snapshots s' = snapshots s → kept s s'.
Proof. intros H1 H2. split; [by rewrite H1|by rewrite H2]. Qed.

Ltac kept_walk := walk ltac:(first [reflexivity | apply kept_same; reflexivity]).

Lemma kept_advance env : respects kept (advanceEnvironmentQueue env).
Proof. kept_walk. Qed.

#[export] Instance kept_commit : CommitRelation kept.
Proof. split; [apply _..| | | |apply kept_advance]; intros t s; by apply kept_same. Qed.
#[export] Hint Resolve kept_advance : respects.

(** ** What only adds rows *)
Section parts.
Context `{Server}.

Lemma kept_variable_snapshot id v : respects kept (CreateDeploymentVariableSnapshot id v).
Proof.
  intros s a s'. unfold CreateDeploymentVariableSnapshot. destruct (_ && _) eqn:E; [|done]. intros [= _ <-].
  apply andb_true_iff in E as [Hn%bool_decide_eq_true _]. split; [done|]. by apply insert_subseteq.
Qed.

Lemma kept_claim_idempotency p : respects kept (ClaimIdempotency p).
Proof.
  intros s a s'. unfold ClaimIdempotency, insert_row. destruct (_ && _) eqn:E; [|done]. intros [= _ <-].
  apply andb_true_iff in E as [Hn _]. split; [|done]. apply insert_subseteq. by destruct (_ !! _).
Qed.

Lemma kept_selectors id index seen labels : respects kept (snapshot_selectors id index seen labels).
Proof. revert seen. induction labels; intros seen; cbn [snapshot_selectors]; kept_walk; auto. Qed.

Lemma kept_step_lines scrubber run name ready : respects kept (store_step_lines scrubber run name ready).
Proof. induction ready; cbn [store_step_lines]; kept_walk; auto. Qed.

Lemma kept_lines scrubber identity now ready : respects kept (store_lines scrubber identity now ready).
Proof. induction ready; cbn [store_lines]; kept_walk; auto. Qed.
End parts.

#[export] Hint Resolve kept_variable_snapshot kept_claim_idempotency kept_selectors kept_step_lines kept_lines : respects.

Section events.
Context `{Server}.
Implicit Types (s : DB).

Lemma kept_maintain_gates s : kept s (MaintainArtifactGates s).2.
Proof. apply (WithQueueMaintenanceTx_respects kept). kept_walk. Qed.

Lemma kept_after_maintenance {A} (body : Tx A) s : respects kept body → kept s (after_maintenance body s).2.
Proof.
  intros Hb. unfold after_maintenance. pose proof (kept_maintain_gates s) as Hm.
  destruct (MaintainArtifactGates s) as [[u|e] s1]; [|done]. etrans; [exact Hm|].
  by apply (withQueueTx_respects kept).
Qed.

Lemma kept_maintain_claims l s : kept s (maintain_claims l s).2.
Proof.
  revert s. induction l as [|x l IH]; intros s; [done|]. cbn.
  assert (Hw : kept s (maintainRemoteClaim x s).2) by (apply (WithDeploymentTx_respects kept); kept_walk).
  destruct (maintainRemoteClaim x s) as [[[]|e] s1]; [|done]. etrans; [exact Hw|apply IH].
Qed.

Lemma kept_create nonce arg :
  respects kept (createDeployment Configured variables_marshal variables_unmarshal Limits nonce arg).
Proof. kept_walk. Qed.

Lemma kept_create_from nonce arg source :
  respects kept (createDeploymentFromDeployment Configured variables_marshal variables_unmarshal Limits nonce arg source).
Proof. kept_walk. Qed.
Hint Resolve kept_create kept_create_from : respects.

Lemma kept_claim agent request token s :
  kept s (claim Configured variables_unmarshal Limits (poll_prepare request token) agent s).2.
Proof.
  unfold claim. assert (Hstep : kept s (ClaimRemoteStepPayload Configured variables_unmarshal Limits (poll_prepare request token) agent s).2).
  { unfold ClaimRemoteStepPayload. destruct (ListWaitingRemoteStepRuns agent s) as [[[|c l] s1]|e]; [done| |done].
    apply (WithDeploymentTx_respects kept). kept_walk. }
  destruct (ClaimRemoteStepPayload _ _ _ _ _ _) as [[[c|]|e] s1]; [done| |done]. cbn in Hstep.
  etrans; [exact Hstep|]. unfold ClaimRemoteDeploymentPayload.
  destruct (ListWaitingRemoteDeploymentClaims agent s1) as [[[|x l] s2]|e]; [done| |done].
  apply (WithDeploymentTx_respects kept). kept_walk.
Qed.

(** A creation under a key claims a new row, and completes that row only. *)
Lemma complete_row request d s s' k :
  Complete request d s = Ok (tt, s') → snapshots s' = snapshots s ∧
  keys s' !! k = (if decide (ip_KeyHash request ≠ "" ∧ k = idempotency_key request)
                  then λ row, mkIdempotency (ik_RequestHash row) (deployment_marshal d) else id) <$> keys s !! k.
Proof.
  unfold Complete. destruct (String.eqb_spec (ip_KeyHash request) "") as [He|He].
  - intros [= <-]. split; [done|]. rewrite decide_False by tauto. by rewrite option_fmap_id.
  - intros [= <-]. split; [done|]. unfold keys. cbn. destruct (decide (k = idempotency_key request)) as [->|Hne].
    + rewrite decide_True by done. apply lookup_alter_eq.
    + rewrite decide_False by tauto. rewrite lookup_alter_ne by done. by rewrite option_fmap_id.
Qed.

Lemma claim_row request s s' :
  Claim request s = Ok (tt, s') → kept s s' ∧
  (ip_KeyHash request ≠ "" → keys s !! idempotency_key request = None ∧
     keys s' !! idempotency_key request = Some (mkIdempotency (ip_RequestHash request) "")).
Proof.
  unfold Claim. destruct (String.eqb_spec (ip_KeyHash request) "") as [He|He]; [by intros [= <-]|].
  intros E. split; [by eapply kept_claim_idempotency|]. intros _. revert E.
  unfold ClaimIdempotency, insert_row. destruct (is_null _ && _) eqn:Hn; [|done].
  intros [= <-]. apply andb_true_iff in Hn as [Hn _]. split; [unfold keys; by destruct (_ !! _)|].
  apply lookup_insert_eq.
Qed.

Lemma kept_create_keyed nonce arg request :
  respects kept (Claim request;;
    result ← createDeployment Configured variables_marshal variables_unmarshal Limits nonce arg;
    Complete request result;; mret result).
Proof.
  intros s d s' ([] & s1 & Hcl & E)%bind_inv. apply bind_inv in E as (d' & s2 & Hc & E).
  apply bind_inv in E as ([] & s3 & Hco & E). injection E as <- <-.
  apply claim_row in Hcl as [K1 Hnew]. apply kept_create in Hc as K2.
  split; [|rewrite (proj1 (complete_row _ _ _ _ (idempotency_key request) Hco)); by etrans; [apply K1|apply K2]].
  apply map_subseteq_spec. intros k row Hk. destruct (complete_row _ _ _ _ k Hco) as [_ ->].
  rewrite (lookup_weaken _ (keys s2) k row Hk) by (etrans; [apply K1|apply K2]).
  destruct (decide _) as [[Hne ->]|_]; [|done]. by rewrite (proj1 (Hnew Hne)) in Hk.
Qed.

(** Whatever is called. *)
Lemma kept_perform e s : kept s (perform e s).
Proof.
  destruct e; cbn [perform].
  all: try (apply (WithDeploymentTx_respects kept); kept_walk; fail).
  all: try (apply (WithTx_respects kept); kept_walk; fail).
  - apply (reconcile_environments_respects kept).
  - apply kept_after_maintenance, kept_create_keyed.
  - apply kept_after_maintenance. kept_walk.
  - apply (withQueueTx_respects kept). kept_walk.
  - apply kept_maintain_gates.
  - unfold BeginArtifactGateRun. destruct (GetArtifactGateRun id s) as [[r s0]|[]]; try done.
    apply (WithDeploymentTx_respects kept). kept_walk.
  - unfold SaveArtifactGate. destruct (mbind _ _) as [cs|e]; [|done].
    apply (WithDeploymentTx_respects kept). kept_walk.
  - unfold ApproveArtifact. match goal with |- kept s (match ?r with _ => _ end).2 =>
      destruct r as [[verified s0]|e] end; [|done].
    apply (WithDeploymentTx_respects kept). kept_walk.
  - unfold RejectArtifact, rejectArtifact. destruct (negb _); [done|].
    apply (WithDeploymentTx_respects kept). kept_walk.
  - unfold RecordAgentPollCapabilities. destruct (CheckCompatibility _); [done|].
    apply (WithQueueMaintenanceTx_respects kept). kept_walk.
  - apply kept_claim.
  - unfold ClaimRemoteDeployment. match goal with |- context [WithDeploymentTx ?i ?m s] =>
      pose proof (WithDeploymentTx_respects kept i m s) as Hw; destruct (WithDeploymentTx i m s) as [[z|[]] s1] end;
      apply Hw; kept_walk.
  - apply kept_maintain_claims.
  - unfold Maintain. pose proof (WithQueueMaintenanceTx_respects kept maintain_dispatch s) as Hm.
    destruct (WithQueueMaintenanceTx maintain_dispatch s) as [[u|e] s1]; [|apply Hm; kept_walk].
    etrans; [apply Hm; kept_walk|apply kept_maintain_claims].
  - unfold recoverPendingDeployments. etrans; [|exact (reconcile_environments_respects kept _ _)].
    apply (WithQueueMaintenanceTx_respects kept). kept_walk.
  - unfold SetAgentDraining. pose proof (WithTx_respects kept (setAgentDraining agent draining) s) as Hw.
    destruct (WithTx _ s) as [[z|er] s1]; apply Hw; kept_walk.
  - apply (WithQueueMaintenanceTx_respects kept). kept_walk.
  - by apply kept_same.
Qed.

Lemma run_keeps events s : kept s (run events s).
Proof.
  revert s. induction events as [|e events IH]; intros s; [done|]. etrans; [apply kept_perform|apply IH].
Qed.
End events.

(** ** Rotation of the key (cmd/server: runSecretKey, rotateStoredCredentials)

    Every stored value is decrypted with the old key and encrypted with a new
    one, in one transaction. Here are the loops over the four tables of
    variables. [plaintext] is --plaintext, which reads the values as they are;
    [draw table id] is what crypto/rand fills the nonce of a row with; [chunks]
    is the number of rows of deployment_staging_chunks, a table that the store
    does not hold. *)
Section rotation.
Context (old new : Box) (plaintext : bool) (draw : string → Z → option bytes) (chunks : Z).

Definition ListAllVariables : Tx (list Variable_) := read (λ s,
  sort_by (λ a b, v_ID a <=? v_ID b) (snd <$> map_to_list (vt_project (db_variables s)))).
Definition ListAllReleaseVariables : Tx (list ReleaseVariable) := read (λ s,
  sort_by (λ a b, rv_ID a <=? rv_ID b) (snd <$> map_to_list (vt_release (db_variables s)))).
Definition ListAllLifecycleVariables : Tx (list LifecycleVariable) := read (λ s,
  sort_by (λ a b, lv_ID a <=? lv_ID b) (snd <$> map_to_list (vt_lifecycle (db_variables s)))).
Definition ListAllDeploymentVariableSnapshots : Tx (list (Z * string)) := read (λ s,
  sort_by (λ a b : Z * string, a.1 <=? b.1) (map_to_list (snapshots s))).

Definition UpdateVariableValue (value : option string) (id : Z) : Tx unit := write (λ s,
  set_variables (vt_set_project (alter (λ v, v_with_value v value) id (vt_project (db_variables s)))
    (db_variables s)) s).
Definition UpdateReleaseVariableValue (value : option string) (id : Z) : Tx unit := write (λ s,
  set_variables (vt_set_release (alter (λ v, rv_with_value v value) id (vt_release (db_variables s)))
    (db_variables s)) s).
Definition UpdateLifecycleVariableValue (value : option string) (id : Z) : Tx unit := write (λ s,
  set_variables (vt_set_lifecycle (alter (λ v, lv_with_value v value) id (vt_lifecycle (db_variables s)))
    (db_variables s)) s).
Definition UpdateDeploymentVariableSnapshotValue (value : string) (id : Z) : Tx unit := write (λ s,
  set_variables (vt_set_snapshots (alter (λ _, value) id (snapshots s)) (db_variables s)) s).

(** The body of the loops over values that may be null: an empty one stays. *)
Definition rotate_value (read_plain : bool) (what table : string) (id : Z) (value : option string)
    (update : option string → Z → Tx unit) : Tx unit :=
  match value with
  | None => mret tt
  | Some text =>
      if String.eqb text "" then mret tt
      else
        plain ← lift (wrap ("decrypt " +:+ what +:+ " " +:+ pretty id +:+ ": ")
                  (if read_plain then Ok text else Decrypt (H := old) text));
        value ← lift (wrap ("encrypt " +:+ what +:+ " " +:+ pretty id +:+ ": ")
                  (Encrypt (H := new) (draw table id) plain));
        update (Some value) id
  end.

Definition rotateVariables : Tx unit :=
  vars ← ListAllVariables;
  for_each vars (λ v, rotate_value plaintext "variable" "variables" (v_ID v) (v_Value v) UpdateVariableValue).

Definition rotateReleaseVariables : Tx unit :=
  vars ← ListAllReleaseVariables;
  for_each vars (λ v,
    rotate_value plaintext "release variable" "release_variables" (rv_ID v) (rv_Value v) UpdateReleaseVariableValue).

Definition rotate_snapshot (row : Z * string) : Tx unit :=
  plain ← lift (wrap ("decrypt deployment variables " +:+ pretty row.1 +:+ ": ") (Decrypt (H := old) row.2));
  value ← lift (Encrypt (H := new) (draw "deployment_variable_snapshots" row.1) plain);
  UpdateDeploymentVariableSnapshotValue value row.1.

Definition rotateDeploymentVariables : Tx unit :=
  rows ← ListAllDeploymentVariableSnapshots;
  guard (negb (plaintext && negb (length rows =? 0)%nat))
    (ErrOther "--plaintext cannot rotate encrypted deployment variables");;
  for_each rows rotate_snapshot.

Definition rotateLifecycleVariables : Tx unit :=
  rows ← ListAllLifecycleVariables;
  guard (negb (plaintext && negb (length rows =? 0)%nat))
    (ErrOther "--plaintext cannot rotate encrypted lifecycle variables");;
  for_each rows (λ v,
    rotate_value false "lifecycle variable" "lifecycle_variables" (lv_ID v) (lv_Value v) UpdateLifecycleVariableValue).

(** The transaction up to the tables that follow: templates, gate bundles,
    credentials, verification targets, MFA state, identities and log buffers. *)
Definition rotate_tables : Tx unit :=
  rotateVariables;;
  rotateReleaseVariables;;
  guard (chunks <=? 0) (ErrOther ("cannot rotate while deployment staging remains; "
    +:+ "finish deployments and confirm cleanup before retrying"));;
  rotateDeploymentVariables;;
  rotateLifecycleVariables.
End rotation.

Lemma wrap_ok {A} prefix (r : result A) a : wrap prefix r = Ok a → r = Ok a.
Proof. destruct r as [x|e]; [done|]. cbn. by destruct e. Qed.

Definition same_snapshots (s s' : DB) : Prop := snapshots s' = snapshots s.
#[local] Instance same_snapshots_refl : Reflexive same_snapshots.
Proof. by intros s. Qed.
#[local] Instance same_snapshots_trans : Transitive same_snapshots.
Proof. unfold same_snapshots. intros s1 s2 s3. congruence. Qed.
#[local] Instance same_snapshots_commit : CommitRelation same_snapshots.
Proof. split; [apply _..| | | |intros env; walk ltac:(exact eq_refl)]; by intros t s. Qed.

(** [plain] is what the row of the deployment decrypts to. *)
Definition holds_text (configured : bool) (box : Box) (id : Z) (plain : string) (s : DB) : Prop :=
  ∃ value, snapshots s !! id = Some value ∧ decryptValue (H := box) configured (Some value) = Ok (Some plain).

Lemma decrypt_text (box : Box) value plain :
  decryptValue (H := box) true (Some value) = Ok (Some plain) ↔ Decrypt (H := box) value = Ok plain.
Proof.
  unfold decryptValue, DecryptNullString. destruct (String.eqb_spec value "") as [->|Hne].
  - unfold Decrypt. rewrite String.eqb_refl. naive_solver.
  - destruct (Decrypt value) as [p|e]; cbn; naive_solver.
Qed.

Section rotated.
Context (old new : Box) `{!BoxLaws (H := new)} (draw : string → Z → option bytes) (chunks : Z).

(** crypto/rand fills the whole nonce, or fails. *)
Definition drawn : Prop := ∀ table id nonce, draw table id = Some nonce →
  length nonce = NonceSize (Box := new) ∧ Forall is_byte nonce.

Lemma encrypt_decrypts nonce plain value :
  (∀ n, nonce = Some n → length n = NonceSize (Box := new) ∧ Forall is_byte n) →
  Encrypt (H := new) nonce plain = Ok value → Decrypt (H := new) value = Ok plain.
Proof.
  intros Hn He. destruct nonce as [n|].
  - destruct (Hn n eq_refl) as [Hl Hb]. destruct (Decrypt_Encrypt (H := new) n plain Hl Hb) as (c & Hc & Hd). congruence.
  - unfold Encrypt in He. destruct (String.eqb_spec plain "") as [->|]; [|done]. by injection He as <-.
Qed.

Lemma rotate_snapshot_row row s s' :
  drawn → rotate_snapshot old new draw row s = Ok (tt, s') → snapshots s !! row.1 = Some row.2 →
  (∀ id, id ≠ row.1 → snapshots s' !! id = snapshots s !! id) ∧
  ∀ plain, Decrypt (H := old) row.2 = Ok plain →
    ∃ value, snapshots s' !! row.1 = Some value ∧ Decrypt (H := new) value = Ok plain.
Proof.
  intros Hdraw (plain & s1 & Hp & E)%bind_inv Hrow. apply lift_ok in Hp as [Hp ->]. apply wrap_ok in Hp.
  apply bind_inv in E as (value & s2 & Hv & E). apply lift_ok in Hv as [Hv ->]. injection E as <-. split.
  - intros id Hne. unfold snapshots. cbn. by rewrite lookup_alter_ne.
  - intros p Hp'. exists value. split; [unfold snapshots in *; cbn; by rewrite lookup_alter_eq, Hrow|].
    rewrite Hp in Hp'. injection Hp' as <-. eapply encrypt_decrypts; [|exact Hv]. apply Hdraw.
Qed.

Lemma rotate_snapshots rows s s' :
  drawn → for_each rows (rotate_snapshot old new draw) s = Ok (tt, s') → NoDup rows.*1 →
  (∀ id value, (id, value) ∈ rows → snapshots s !! id = Some value) →
  (∀ id, id ∉ rows.*1 → snapshots s' !! id = snapshots s !! id) ∧
  ∀ id value plain, (id, value) ∈ rows → Decrypt (H := old) value = Ok plain →
    ∃ value', snapshots s' !! id = Some value' ∧ Decrypt (H := new) value' = Ok plain.
Proof.
  intros Hdraw. revert s. induction rows as [|[id0 v0] rows IH]; intros s E Hnd Hrows; cbn in E.
  { injection E as <-. split; [done|]. intros ??? Hin. by apply elem_of_nil in Hin. }
  apply bind_inv in E as ([] & s1 & Hr & E). cbn in Hnd. apply NoDup_cons in Hnd as [Hni Hnd].
  destruct (rotate_snapshot_row _ _ _ Hdraw Hr) as [Hother Hone]; [apply Hrows; left|]. cbn in Hother, Hone.
  destruct (IH s1 E Hnd) as [Hrest Hall].
  { intros id value Hin. rewrite Hother; [apply Hrows; by right|]. intros ->. apply Hni, list_elem_of_fmap. by exists (id0, value). }
  split.
  - intros id Hid. cbn in Hid. apply not_elem_of_cons in Hid as [Hne Hid]. rewrite Hrest by done. by apply Hother.
  - intros id value plain [[= -> ->]|Hin]%elem_of_cons Hp; [|by eapply Hall].
    rewrite Hrest by done. by apply Hone.
Qed.

Lemma keeps_project plaintext : respects same_snapshots (rotateVariables old new plaintext draw).
Proof. clear. unfold rotateVariables, rotate_value. walk ltac:(exact eq_refl). Qed.
Lemma keeps_releases plaintext : respects same_snapshots (rotateReleaseVariables old new plaintext draw).
Proof. clear. unfold rotateReleaseVariables, rotate_value. walk ltac:(exact eq_refl). Qed.
Lemma keeps_shared plaintext : respects same_snapshots (rotateLifecycleVariables old new plaintext draw).
Proof. clear. unfold rotateLifecycleVariables, rotate_value. walk ltac:(exact eq_refl). Qed.

Lemma rotation_keeps plaintext id plain s s' :
  drawn → rotate_tables old new plaintext draw chunks s = Ok (tt, s') →
  holds_text true old id plain s → holds_text true new id plain s'.
Proof.
  intros Hdraw Er (value & Hval & Hplain%decrypt_text). unfold rotate_tables in Er.
  apply bind_inv in Er as ([] & s1 & H1 & Er). apply bind_inv in Er as ([] & s2 & H2 & Er).
  apply bind_inv in Er as ([] & s3 & H3 & Er). apply bind_inv in Er as ([] & s4 & H4 & Er).
  assert (Hs : same_snapshots s s3).
  { etrans; [exact (keeps_project _ _ _ _ H1)|]. etrans; [exact (keeps_releases _ _ _ _ H2)|].
    revert H3. destruct (chunks <=? 0); [by intros [= <-]|done]. }
  pose proof (keeps_shared _ _ _ _ Er) as Hs'. unfold same_snapshots in Hs, Hs'.
  unfold rotateDeploymentVariables in H4. apply bind_inv in H4 as (rows & s5 & Hrows & H4). injection Hrows as <- <-.
  apply bind_inv in H4 as ([] & s6 & Hg & H4). assert (s6 = s3) as -> by (by destruct (negb _) in Hg; [injection Hg as <-|]).
  assert (Hin : ∀ i v, (i, v) ∈ sort_by (λ a b : Z * string, a.1 <=? b.1) (map_to_list (snapshots s3)) ↔ snapshots s3 !! i = Some v)
    by (intros i v; by rewrite elem_of_sort_by, elem_of_map_to_list).
  destruct (rotate_snapshots _ _ _ Hdraw H4) as [_ Hall].
  - rewrite sort_by_perm. apply NoDup_fst_map_to_list.
  - intros i v. apply Hin.
  - destruct (Hall id value plain) as (value' & Hv' & Hp'); [apply Hin; by rewrite Hs|done|].
    exists value'. rewrite Hs'. split; [done|]. by apply decrypt_text.
Qed.
End rotated.

(** ** Histories

    A capture is followed through everything that the server, its users and its
    operator do: entry points of the server, statements that edit what captures
    are made from, rotations of the key. A transaction of several statements is
    several edits. *)
Inductive edit :=
  | EdCreateVariable (arg : CreateVariableParams)
  | EdUpdateVariable (id : Z) (name : string) (value : option string) (environment : option Z) (secret : Z)
  | EdUpdateVariableKeepValue (id : Z) (name : string) (environment : option Z) (secret : Z)
  | EdDeleteVariable (id : Z)
  | EdDeleteVariableOverrides (project : Z) (name : string) (environment : option Z)
  | EdCreateLifecycleVariable (arg : CreateLifecycleVariableParams)
  | EdUpdateLifecycleVariable (id lifecycle : Z) (name : string) (value : option string)
      (environment : option Z) (secret : Z)
  | EdUpdateLifecycleVariableKeepValue (id lifecycle : Z) (name : string) (environment : option Z) (secret : Z)
  | EdDeleteLifecycleVariable (id lifecycle : Z)
  | EdCreateReleaseVariable (arg : CreateReleaseVariableParams)
  | EdDeleteReleaseVariables (release : Z)
  | EdSetProjectLifecycle (lifecycle : option Z) (id : Z)
  | EdCreateLifecycleStage (arg : CreateLifecycleStageParams)
  | EdUpdateLifecycleStageOrder (position id lifecycle : Z).

(** The store after the statement, whatever it answers. *)
Definition edited (e : edit) (s : DB) : DB :=
  match e with
  | EdCreateVariable arg => (WithTx (CreateVariable arg) s).2
  | EdUpdateVariable id name value environment secret =>
      (WithTx (UpdateVariable id name value environment secret) s).2
  | EdUpdateVariableKeepValue id name environment secret =>
      (WithTx (UpdateVariableKeepValue id name environment secret) s).2
  | EdDeleteVariable id => (WithTx (DeleteVariable id) s).2
  | EdDeleteVariableOverrides project name environment =>
      (WithTx (DeleteVariableOverrides project name environment) s).2
  | EdCreateLifecycleVariable arg => (WithTx (CreateLifecycleVariable arg) s).2
  | EdUpdateLifecycleVariable id lifecycle name value environment secret =>
      (WithTx (UpdateLifecycleVariable id lifecycle name value environment secret) s).2
  | EdUpdateLifecycleVariableKeepValue id lifecycle name environment secret =>
      (WithTx (UpdateLifecycleVariableKeepValue id lifecycle name environment secret) s).2
  | EdDeleteLifecycleVariable id lifecycle => (WithTx (DeleteLifecycleVariable id lifecycle) s).2
  | EdCreateReleaseVariable arg => (WithTx (CreateReleaseVariable arg) s).2
  | EdDeleteReleaseVariables release => (WithTx (DeleteReleaseVariablesByRelease release) s).2
  | EdSetProjectLifecycle lifecycle id => (WithTx (SetProjectLifecycle lifecycle id) s).2
  | EdCreateLifecycleStage arg => (WithTx (CreateLifecycleStage arg) s).2
  | EdUpdateLifecycleStageOrder position id lifecycle =>
      (WithTx (UpdateLifecycleStageOrder position id lifecycle) s).2
  end.

Lemma edited_snapshots e s : same_snapshots s (edited e s).
Proof.
  destruct e; cbn [edited]; apply (WithTx_respects same_snapshots); walk ltac:(exact eq_refl).
Qed.

(** What may happen between a capture and a read, with the key in use. A
    rotation goes on with [others], the tables that follow. *)
Inductive pass (configured : bool) : Box * DB → Box * DB → Prop :=
  | pass_event (server : Server) e s :
      @Configured server = configured →
      pass configured (@server_box server, s) (@server_box server, perform e s)
  | pass_edit box e s : pass configured (box, s) (box, edited e s)
  | pass_rotation old new plaintext draw chunks others s s' :
      configured = true → BoxLaws (H := new) → drawn new draw → respects same_snapshots others →
      WithTx (rotate_tables old new plaintext draw chunks;; others) s = (Ok tt, s') →
      pass configured (old, s) (new, s').

Definition history (configured : bool) : Box * DB → Box * DB → Prop := rtc (pass configured).

Lemma pass_holds configured a b id plain :
  pass configured a b → holds_text configured a.1 id plain a.2 → holds_text configured b.1 id plain b.2.
Proof.
  intros [server e s <-|box e s|old new plaintext draw chunks others s s' -> Hnew Hdraw Hrest E] Hh; cbn in *.
  - destruct Hh as (value & Hv & Hp). exists value. split; [|done].
    eapply lookup_weaken; [exact Hv|]. apply kp_snapshots, kept_perform.
  - unfold holds_text. by rewrite (edited_snapshots e s).
  - unfold WithTx in E. destruct ((_;; others) s) as [[[] sx]|] eqn:Er; [|done]. injection E as <-.
    apply bind_inv in Er as ([] & s1 & Hrot & Er). pose proof (Hrest _ _ _ Er) as Hs.
    eapply rotation_keeps in Hrot; [|done..]. unfold holds_text in *. by rewrite Hs.
Qed.

Lemma history_holds configured a b id plain :
  history configured a b → holds_text configured a.1 id plain a.2 → holds_text configured b.1 id plain b.2.
Proof. induction 1; [done|]. intros Hh. eauto using pass_holds. Qed.
