(* ===== verification/SampleServer.v ===== *)
(** * SampleServer: concrete libraries, and a store on which the server runs

    Instances of the parameters of the model on which its theorems are
    evaluated: an identity cipher, a decoder that knows two lists of steps, and
    a store with one project and one environment. *)
From stdpp Require Import pretty.
From S2P Require Import Prelude Text Db Tx QueueQueries DeploymentQueue DispatchQueries RemoteLifecycle Base64 Secret Variables VariableTheorems NetAddr Ansible AnsibleTheorems CreationQueries GateQueries ArtifactGate DeploymentCreation QueueTheorems RemotePayload LogScrub LogBuffer System CreationSafety Runs.

#[local] Instance sample_environment : AgentEnvironment := {
  LostThreshold := 90;
  CancelAcknowledgementTimeout := 30;
  PreStartClaimTimeout := 60;
  CheckCompatibility := λ _, None;
  agent_format := {| quote := λ x, x; error_text := λ _, "error" |} }.

#[local] Existing Instance sample_box.
#[local] Existing Instance sample_box_laws.
#[local] Existing Instance Sample.libraries.

#[local] Instance sample_protocol : AgentProtocol := {
  ExecutionHost := "host";
  ExecutionContainer := "container";
  ParseExecutionMode := λ m, if m ∈? ["host"; "container"] then Ok m else Err (ErrOther "unknown mode");
  ValidateExecution := λ _ _ _, Ok tt }.

(** A script that runs in a container on the server. *)
Definition sample_definition (name artifact : string) : Definition_ :=
  mkDefinition "" None name "echo" "bash" 1 60 0 "local" "" [] "image" "none" artifact
    (if String.eqb artifact "" then "" else "review.txt") (if String.eqb artifact "" then "" else "summary") [].

#[local] Instance sample_codecs : CreationLibraries := {
  steps_unmarshal := λ raw,
    if String.eqb raw "[]" then Some []
    else if String.eqb raw "two" then Some [sample_definition "build" ""; sample_definition "deploy" ""]
    else if String.eqb raw "gated" then Some [sample_definition "build" "app.tar"; sample_definition "deploy" ""]
    else None;
  names_marshal := λ _, "[]";
  deployment_marshal := λ d, "{" +:+ pretty (d_ID d) +:+ "}";
  ToLower := λ p, p }.

(** Payloads in the clear, certificates that are their own encoding, lists of
    names separated by nothing. *)
#[local] Instance sample_payloads : PayloadLibraries := {
  ValidatePin := λ _, Ok tt;
  AgentV1 := "agent/1";
  AgentV3 := "agent/3";
  ParseProtocolVersion := λ p, Ok p;
  names_unmarshal := λ raw, if String.eqb raw "[]" then Some [] else Some [raw];
  pem_decode := λ p, Some ("CERTIFICATE", p);
  MarshalForProtocol := λ step _, Ok (xs_Name step);
  wire_marshal := λ payload steps, pretty (py_DeploymentID payload) +:+ ":" +:+ String.concat "," steps;
  payload_seal := λ _ _ text, Ok text;
  token_sha256 := λ token, token;
  RawURLEncoding := text_of }.

(** No buffer is stored: every line is published at once. *)
#[local] Instance sample_stream : LogProtocol := {
  MaxLogEvents := 4;
  MaxLogBatchBytes := 64;
  buffer_marshal := λ _, "";
  buffer_unmarshal := λ _, None;
  envelope_unmarshal := λ _, None;
  fields_unmarshal := λ _, None;
  events_unmarshal := λ _, None }.

#[local] Instance sample_server : Server := {
  Configured := true;
  variables_marshal := sample_marshal;
  variables_unmarshal := sample_unmarshal;
  Limits := mkLimits 10 3600;
  ArchiveBytes := 2 ^ 30;
  sha256_hex := λ p, pretty (Z.of_nat (String.length p)) }.

(** Project 1 deploys releases 1 and 2 to environment 7, which is verified
    over HTTP; deployments 3 and 4 of them succeeded. *)
Definition creation_release (id : Z) (steps : string) : Release :=
  mkRelease id 1 ("1." +:+ pretty id) steps 0 "deployment".

Definition past_deployment (id release : Z) (created : Z) : Deployment :=
  mkDeployment id release 7 "succeeded" (Some created) (Some (created + 5)) created 0 None None
    "deployment" None None (Some "production") (Some 0).

Definition creation_store : DB :=
  set_environments {[7 := mkEnvironment "production" 0 "http" "https://example.com" 30]}
    (set_projects {[1 := mkProject 1 "shop" None]}
      (set_releases {[1 := creation_release 1 "two"; 2 := creation_release 2 "two"; 3 := creation_release 3 "gated"]}
        (set_deployments {[3 := past_deployment 3 1 100; 4 := past_deployment 4 2 200]}
          (set_step_sources {[3 := "two"; 4 := "two"]} (empty_db 1000))))).
