(* ===== verification/RemoteTheorems.v ===== *)
(** * RemoteTheorems: correctness of remote execution

    The theorems about runs of the server (queue and remote lifecycle together)
    and about the calls of an agent, each with an instance on a concrete store. *)
From S2P Require Import Prelude Db Tx QueueQueries DeploymentQueue QueueSafety QueueTheorems DispatchQueries RemoteLifecycle RemoteSafety RemoteSpec RemoteRefine StepSpec System Runs SampleServer.

(** ** A concrete store: deployment 5 is claimed by agent-1, 6 is queued *)

Definition token_a : string := "aaaaaaaaaaaaaaaaaaaaaaaaaaaaaaaa".

Definition sample_agent : Agent :=
  mkAgent "agent-1" "builder" "" "active" None None None None None None 0 0 0 "healthy"
    (Some "agent/2").

Definition sample_pairing : AgentPairing :=
  mkPairing "agent-1" "" "" "" None None None "paired" 0 (Some 1) 0 0 None.

Definition assign (agent : string) (d : Deployment) : Deployment :=
  mkDeployment (d_ID d) (d_ReleaseID d) (d_EnvironmentID d) (d_Status d) (d_StartedAt d)
    (d_FinishedAt d) (d_CreatedAt d) (d_Forced d) (d_Note d) (Some agent) (d_Kind d)
    (d_ContainerNamespace d) (d_CleanupConfirmedAt d) (d_EnvironmentNameSnapshot d)
    (d_AnsibleCheckMode d).

Definition sample_claim (state : string) (started : option Z) : RemoteDeploymentClaim :=
  mkClaim 5 "agent-1" state None (Some token_a) (Some "payload") (Some 1060) (Some 990) started
    None None 900 900 None None.

Definition sample_remote (state status : string) (started : option Z) : DB :=
  set_agents {["agent-1" := sample_agent]} (set_pairings {["agent-1" := sample_pairing]}
    (set_claims {[5 := sample_claim state started]}
      (sample_store [assign "agent-1" (d_set_StartedAt started (sample_deployment 5 status 30));
                     sample_deployment 6 "queued" 40] {[(1, 7) := 5]}))).

Definition sample_claimed : DB := sample_remote "claimed" "pending" None.
Definition sample_started : DB := sample_remote "started" "running" (Some 995).

Definition sample_identity : RemoteLifecycleClaim := mkIdentity 5 "agent-1" (Some token_a).

Definition lifecycle_okb (s : DB) : bool :=
  forallb (λ kc : Z * RemoteDeploymentClaim,
    Z.eqb (c_DeploymentID kc.2) kc.1 && not_null (db_deployments s !! kc.1)
    && (negb (c_State kc.2 ∈? ["started"; "cancel_requested"])
        || deployment_is s kc.1 (λ d, String.eqb (d_Status d) "running"
             && sql_eq (d_AssignedAgentID d) (c_AgentID kc.2)))) (map_to_list (db_claims s)).

Definition runs_okb (s : DB) : bool :=
  runs_ok (db_runs s) && forallb (λ kr : Z * Z * string * RemoteStepRun,
      bool_decide (kr.1 = run_key kr.2) && not_null (db_deployments s !! r_DeploymentID kr.2))
    (map_to_list (db_runs s)).

Definition sys_invb (s : DB) : bool :=
  queue_wfb s && exclusiveb s && claims_ok (db_claims s) && lifecycle_okb s && runs_okb s.

Lemma sys_invb_sound s : sys_invb s = true → sys_inv s.
Proof.
  unfold sys_invb. rewrite !andb_true_iff. intros [[[[H1 H2] H3] H4] H5].
  apply sys_intro; [by split; [apply queue_wfb_sound|apply exclusiveb_sound]|done|..].
  3: { apply andb_true_iff in H5 as [Hok H5]. split; [done|]. intros k r Hr.
       pose proof (forallb_map _ _ H5 _ _ Hr) as H. cbn in H.
       by rewrite andb_true_iff, bool_decide_eq_true, not_null_true in H. }
  - intros id c Hc Hst. pose proof (forallb_map _ _ H4 _ _ Hc) as H. cbn in H.
    apply andb_true_iff in H as [_ H]. apply orb_true_iff in H as [H|H].
    + destruct Hst as [Hst|Hst]; by rewrite Hst in H.
    + unfold deployment_is in H. destruct (db_deployments s !! id) as [d|]; [|done].
      rewrite andb_true_iff, String.eqb_eq, sql_eq_true in H. exists d. tauto.
  - intros id c Hc. pose proof (forallb_map _ _ H4 _ _ Hc) as H. cbn in H.
    rewrite !andb_true_iff, Z.eqb_eq, not_null_true in H. tauto.
Qed.

(** ** Runs *)
Section runs.
Context `{Server}.
Implicit Types (s : DB) (events : list event).

(** C1: whatever sequence of entry points the server runs, whatever each of
    them returns, and with no condition on when they run, an environment of a
    project never has two active deployments (admitted, running, or waiting
    for the approval of an artifact), and no agent holds two claims or two
    runs of steps. In a history that keeps to the contract ([contractual]: the
    local runner publishes a bundle only of a deployment that it runs itself and
    completes only such a deployment or, not as unclean, one that is over, and
    no late clean-up of a run is recorded when dispatch is maintained or an
    agent revoked) it moreover never has two blocking deployments, one that is
    over with its clean-up unconfirmed included, a held slot belongs to the
    blocker, and an agent only runs deployments that are running and assigned
    to it. *)
Theorem run_exclusive events s :
  store_inv false s →
  let s' := run events s in
  (∀ sc a b, scope_of s' a = Some sc → scope_of s' b = Some sc →
     active s' a = true → active s' b = true → a = b) ∧
  (∀ a b ca cb, db_claims s' !! a = Some ca → db_claims s' !! b = Some cb →
     c_AgentID ca = c_AgentID cb → (c_State ca ∈? capacity_states)%bool = true →
     (c_State cb ∈? capacity_states)%bool = true → a = b) ∧
  (∀ j k rj rk, db_runs s' !! j = Some rj → db_runs s' !! k = Some rk →
     r_AgentID rj = r_AgentID rk → (r_State rj ∈? capacity_states)%bool = true →
     (r_State rk ∈? capacity_states)%bool = true → j = k) ∧
  (sys_inv s → contractual events s = true →
   (∀ sc a b, scope_of s' a = Some sc → scope_of s' b = Some sc →
      blocking s' a = true → blocking s' b = true → a = b) ∧
   (∀ sc b o, scope_of s' b = Some sc → blocking s' b = true →
      db_slots s' !! sc = Some o → o = b) ∧
   (∀ id c, db_claims s' !! id = Some c → c_State c = "started" →
      ∃ d, db_deployments s' !! id = Some d ∧ d_Status d = "running" ∧
           d_AssignedAgentID d = Some (c_AgentID c))).
Proof.
  intros Hinv s'. destruct (run_kept events s Hinv) as [[_ Hone Hc _ [Hr _] _] _].
  split; [exact Hone|]. split; [|split].
  - intros a b ca cb Ha Hb Hag Hca Hcb. unfold claims_ok in Hc. rewrite !andb_true_iff in Hc.
    destruct Hc as [_ Hu]. rewrite unique_on_true in Hu.
    apply (Hu a b ca cb (c_AgentID ca)); [done..| |]; apply capacity_of_some; auto.
  - intros j k rj rk Hj Hk' Hag Hcj Hck. unfold runs_ok in Hr. rewrite !andb_true_iff in Hr.
    destruct Hr as [_ Hu]. rewrite unique_on_true in Hu.
    apply (Hu j k rj rk (r_AgentID rj)); [done..| |]; apply capacity_of_some; auto.
  - intros Hfull Hcon. destruct (run_step events s (λ _, Hcon) Hfull) as [Hinv' _].
    destruct (si_contract _ Hinv' eq_refl) as [[H1 H2] Hl].
    split; [exact H1|]. split; [exact H2|]. intros id c Hid Hst. apply (Hl id c Hid). by left.
Qed.

Lemma final_edge a b :
  rtc claim_edge a b → a ∈ ["succeeded"; "failed"; "cancelled"; "cleanup_unconfirmed"] → b = a.
Proof.
  induction 1 as [|a b c Hab _ IH]; [done|]. intros Ha. exfalso. unfold claim_edge, claim_edges in Hab.
  rewrite !elem_of_cons, elem_of_nil in Ha. rewrite !elem_of_cons, elem_of_nil in Hab.
  destruct Ha as [->|[->|[->|[->|[]]]]];
    repeat (destruct Hab as [Hab|Hab]; [discriminate Hab|]); done.
Qed.

(** C19: claims are never lost or handed to another agent, and their states
    move along the edges of the claim state machine only; in particular a
    claim that has succeeded, failed, been cancelled or ended unclean keeps
    that outcome in every run. *)
Theorem run_claim_outcomes_final events s id c :
  sys_inv s → db_claims s !! id = Some c →
  ∃ c', db_claims (run events s) !! id = Some c' ∧
    c_AgentID c' = c_AgentID c ∧ rtc claim_edge (c_State c) (c_State c') ∧
    (c_State c ∈ ["succeeded"; "failed"; "cancelled"; "cleanup_unconfirmed"] →
     c_State c' = c_State c).
Proof.
  intros Hinv Hc. destruct (run_kept events s (store_weaken _ _ Hinv)) as [_ [Hf _]].
  destruct (Hf id c Hc) as (c' & Hc' & Ha & _ & Hst). exists c'.
  split; [done|]. split; [done|]. split; [done|]. by apply final_edge.
Qed.
End runs.

#[local] Existing Instance sample_server.

(** A run that starts, heartbeats, cancels and acknowledges deployment 5. *)
Definition sample_run : list event :=
  [EvStartRemote sample_identity None; EvHeartbeat sample_identity; EvClock 5;
   EvCancelAssigned (mkAssigned 5 "agent-1"); EvAcknowledge sample_identity; EvReconcile].

Lemma run_exclusive_witness :
  sys_inv sample_claimed ∧ contractual sample_run sample_claimed = true ∧
  let s' := run sample_run sample_claimed in
  db_slots s' !! (1, 7) = Some 6 ∧
  (∀ sc a b, scope_of s' a = Some sc → scope_of s' b = Some sc →
     active s' a = true → active s' b = true → a = b) ∧
  (∀ sc a b, scope_of s' a = Some sc → scope_of s' b = Some sc →
     blocking s' a = true → blocking s' b = true → a = b).
Proof.
  assert (Hinv : sys_inv sample_claimed) by (apply sys_invb_sound; vm_compute; reflexivity).
  assert (Hcon : contractual sample_run sample_claimed = true) by (vm_compute; reflexivity).
  split; [exact Hinv|]. split; [exact Hcon|]. split; [vm_compute; reflexivity|].
  destruct (run_exclusive sample_run sample_claimed (store_weaken _ _ Hinv)) as (H1 & _ & _ & H4).
  split; [exact H1|]. exact (proj1 (H4 Hinv Hcon)).
Defined.

Lemma run_claim_outcomes_final_witness :
  ∃ s, sys_inv s ∧ ∃ c', db_claims (run sample_run s) !! 5 = Some c' ∧
    c_State c' = "cancelled".
Proof.
  assert (Hinv : sys_inv sample_claimed) by (apply sys_invb_sound; vm_compute; reflexivity).
  exists sample_claimed. split; [exact Hinv|].
  destruct (run_claim_outcomes_final sample_run sample_claimed 5
    (sample_claim "claimed" None) Hinv eq_refl) as (c' & Hc' & _).
  exists c'. split; [exact Hc'|]. revert Hc'. vm_compute. intros [= <-]. reflexivity.
Defined.

(** ** Agent calls *)
Section calls.
Context `{AgentEnvironment}.
Implicit Types (s : DB) (identity : RemoteLifecycleClaim).

(** The credentials of a call are those of the claim. *)
Definition authentic s identity : Prop := ∃ c d, locks s identity true c d.

Lemma conflict_tx {A} s id (fn : Tx A) :
  fn (set_pending_audit [] s) = Err ErrRemoteLifecycleConflict → is_Some (db_deployments s !! id) →
  WithDeploymentTx id fn s = (Err ErrRemoteLifecycleConflict, s).
Proof. intros Hfn [d Hd]. by eapply WithDeploymentTx_fails. Qed.

Lemma locks_begin s identity token c d :
  locks (set_pending_audit [] s) identity token c d ↔ locks s identity token c d.
Proof. split; intros []; by split. Qed.

Lemma sys_begin s : sys_inv s → sys_inv (set_pending_audit [] s).
Proof. intros Hinv. by apply (sys_same s _ (begin_same s) Hinv). Qed.

(** A start that succeeds was granted its locks. *)
Lemma start_authentic s identity scrubber logs s' :
  startRemoteDeploymentWithLogs identity scrubber s = Ok (logs, s') → authentic s identity.
Proof.
  unfold startRemoteDeploymentWithLogs. intros E.
  apply (bind_respects same_credentials) in E as (d & s1 & _ & R1 & E); [|respects].
  apply (bind_respects same_credentials) in E as (u & s2 & _ & R2 & E); [|apply credentials_advance].
  apply (bind_respects same_credentials) in E as (o & s3 & _ & R3 & E);
    [|apply respects_attempt; [apply _..|apply credentials_get_slot]].
  apply (bind_respects same_credentials) in E as (u' & s4 & _ & R4 & E); [|respects].
  apply (bind_respects same_credentials) in E as (bl & s5 & _ & R5 & E); [|respects].
  apply (bind_respects same_credentials) in E as (u'' & s6 & _ & R6 & E); [|respects].
  apply (bind_respects same_credentials) in E as (c0 & s7 & _ & R7 & E);
    [|intros x y z; unfold GetRemoteDeploymentClaim; destruct (db_claims x !! _); [by intros [= _ <-]|done]].
  apply bind_inv in E as (u3 & s8 & Hstart & _).
  destruct (lock_decided s7 identity true) as [(c & d7 & Hl)|He].
  - destruct (credentials_locks s s7 identity true c d7) as (d0 & Hl0); [|done|by exists c, d0].
    etrans; [exact R1|]. etrans; [exact R2|]. etrans; [exact R3|]. etrans; [exact R4|].
    etrans; [exact R5|]. by etrans.
  - unfold startRemoteDeployment in Hstart. by rewrite (bind_err _ _ _ _ He) in Hstart.
Qed.

(** C20: a call whose agent or token does not match the claim, or whose agent
    is not active and paired, is refused and changes nothing: heartbeats,
    outcomes and acknowledgements are lifecycle conflicts, and a start does
    not succeed. *)
Theorem stale_identity_rejected s identity state scrubber :
  ¬ authentic s identity → is_Some (db_deployments s !! il_DeploymentID identity) →
  HeartbeatRemoteDeployment identity s = (Err ErrRemoteLifecycleConflict, s) ∧
  FinishRemoteDeploymentLifecycle identity state s = (Err ErrRemoteLifecycleConflict, s) ∧
  AcknowledgeRemoteCancellation identity s = (Err ErrRemoteLifecycleConflict, s) ∧
  ∃ e, StartRemoteDeploymentWithLogs identity scrubber s = (Err e, s).
Proof.
  intros Hno Hd.
  assert (Hlock : ∀ s0, same_queue_tables s s0 → db_agents s0 = db_agents s →
    db_pairings s0 = db_pairings s → ∀ A (k : _ → Tx A),
    (lockRemoteLifecycle identity true ≫= k) s0 = Err ErrRemoteLifecycleConflict).
  { intros s0 [Hdep _ _ _ Hcl _] Hag Hpa A k. destruct (lock_decided s0 identity true) as [(c & d & Hl)|He];
      [|by apply bind_err]. exfalso. apply Hno. exists c, d. destruct Hl as [].
    unfold agent_ready in *. rewrite Hag, Hpa in *. rewrite Hdep, Hcl in *. by split. }
  split; [unfold HeartbeatRemoteDeployment, WithTx, heartbeatRemoteDeployment; by rewrite Hlock|].
  split; [apply conflict_tx; [|done]; unfold finishRemoteDeploymentLifecycle; by apply Hlock|].
  split; [apply conflict_tx; [|done]; unfold acknowledgeRemoteCancellation; by apply Hlock|].
  destruct Hd as [d Hd]. destruct (startRemoteDeploymentWithLogs identity scrubber
    (set_pending_audit [] s)) as [[a s1]|e] eqn:E; [|exists e; by eapply WithDeploymentTx_fails].
  exfalso. apply start_authentic in E as (c & d0 & Hl). apply Hno. exists c, d0.
  by apply locks_begin.
Qed.

(** What the body of a successful start leaves. *)
Lemma start_body_inv s identity scrubber logs s' :
  sys_inv s →
  startRemoteDeploymentWithLogs identity scrubber (set_pending_audit [] s) = Ok (logs, s') →
  sys_inv s' ∧ ∃ c d, db_claims s' !! il_DeploymentID identity = Some c ∧
    (c_State c = "started" ∨ c_State c = "cancel_requested") ∧
    db_deployments s' !! il_DeploymentID identity = Some d ∧ d_Status d = "running".
Proof.
  intros Hinv E. pose proof (sys_begin s Hinv) as Hinv0.
  assert (Hr : respects sys_step (startRemoteDeploymentWithLogs identity scrubber)) by respects.
  split; [by apply (Hr _ _ _ E)|]. clear Hr. revert E. unfold startRemoteDeploymentWithLogs. intros E.
  apply (bind_respects sys_step) in E as (d & s1 & _ & R1 & E); [|respects].
  apply (bind_respects sys_step) in E as (u & s2 & _ & R2 & E); [|respects].
  apply (bind_respects sys_step) in E as (o & s3 & _ & R3 & E); [|respects].
  apply (bind_respects sys_step) in E as (u' & s4 & _ & R4 & E); [|respects].
  apply (bind_respects sys_step) in E as (bl & s5 & _ & R5 & E); [|respects].
  apply (bind_respects sys_step) in E as (u'' & s6 & _ & R6 & E); [|respects].
  apply (bind_respects sys_step) in E as (c0 & s7 & _ & R7 & E); [|respects].
  assert (Hinv7 : sys_inv s7).
  { apply R7, R6, R5, R4, R3, R2, R1, Hinv0. }
  apply bind_inv in E as (u3 & s8 & Hstart & E).
  assert (Hsame : same_queue_tables s8 s').
  { destruct scrubber as [scrub|]; [|by injection E as _ <-].
    destruct (String.eqb _ _); [|by injection E as _ <-]. revert E. 
    match goal with |- ?m s8 = Ok (logs, s') → _ =>
      assert (Hr : respects same_queue_tables m) by respects; apply Hr end. }
  destruct (lock_decided s7 identity true) as [(c & d7 & Hl)|He].
  2: { unfold startRemoteDeployment in Hstart. by rewrite (bind_err _ _ _ _ He) in Hstart. }
  rewrite (start_exec s7 identity c d7 Hl (si_claims _ Hinv7)) in Hstart.
  rewrite (sq_claims _ _ Hsame), (sq_deployments _ _ Hsame).
  destruct (String.eqb_spec (c_State c) "claimed") as [Hst|Hst].
  - destruct (startable (db_now s7) c d7); [|done]. injection Hstart as _ <-.
    eexists _, _. cbn. rewrite !lookup_insert_eq. split; [done|]. split; [by left|]. done.
  - destruct ((c_State c ∈? _) && _) eqn:Hg; [|done]. injection Hstart as _ <-.
    apply andb_true_iff in Hg as [Hcs%in_list_true [Hr%String.eqb_eq _]%andb_true_iff].
    rewrite !elem_of_cons, elem_of_nil in Hcs.
    exists c, d7. split; [apply Hl|]. split; [tauto|]. split; [apply Hl|done].
Qed.

Lemma start_body_scope s identity scrubber logs s' :
  sys_inv s →
  startRemoteDeploymentWithLogs identity scrubber (set_pending_audit [] s) = Ok (logs, s') →
  scopes_kept s s'.
Proof.
  intros Hinv E.
  assert (Hr : respects sys_step (startRemoteDeploymentWithLogs identity scrubber)) by respects.
  apply (Hr _ _ _ E), sys_begin, Hinv.
Qed.

(** A body that succeeds is committed, and its environment is swept. *)
Lemma commit_sweep {A} (fn : Tx A) s id d a s1 :
  sys_inv s → db_deployments s !! id = Some d → fn (set_pending_audit [] s) = Ok (a, s1) →
  respects sys_step fn →
  ∃ s', WithDeploymentTx id fn s = (Ok a, s') ∧ sys_inv s' ∧ db_claims s' = db_claims s1 ∧
    (∀ p, settled s' (p, d_EnvironmentID d)) ∧
    ∀ id' d', db_deployments s1 !! id' = Some d' → d_Status d' ≠ "queued" →
      db_deployments s' !! id' = Some d'.
Proof.
  intros Hinv Hd Hfn Hr.
  destruct (Hr _ a s1 Hfn (sys_begin s Hinv)) as [Hinv1 _].
  destruct (WithDeploymentTx_ok fn s id d a s1 Hd Hfn (proj1 (si_queue _ Hinv1)))
    as (s2 & Hs2 & Hst & Hstable).
  exists (committed s2).
  assert (Hinv2 : sys_inv (committed s2)).
  { pose proof (WithDeploymentTx_respects sys_step id fn s Hr Hinv) as [Hi _]. by rewrite Hs2 in Hi. }
  split; [done|]. split; [done|]. split; [by apply (env_steps_claims _ _ _ Hst)|]. split.
  - intros p. apply stable_settled; [apply Hinv2|]. eapply stable_ext; [apply committed_same|apply Hstable].
  - intros id' d' Hd' Hq. cbn.
    destruct (env_steps_row _ _ _ id' Hst) as [->|(dq & Hdq & Hqq & _)]; [done|]. congruence.
Qed.

(** The outcome an agent reports, on every branch. Reporting the state
    the claim already has changes nothing; an outcome that the rows do not
    admit is a conflict without effect; an accepted outcome is recorded in the
    claim and in the deployment, except that a deployment that has already
    failed is not revived by a late success or failure. Afterwards no scope of
    the environment is idle while work waits. *)
Theorem finish_outcome s identity state c d :
  sys_inv s → locks s identity true c d →
  if String.eqb (c_State c) state then
    ∃ s', FinishRemoteDeploymentLifecycle identity state s = (Ok no_terminal, s') ∧
          db_claims s' = db_claims s
  else if finishable state c d then
    ∃ t s', FinishRemoteDeploymentLifecycle identity state s = (Ok t, s') ∧ sys_inv s' ∧
      db_claims s' !! il_DeploymentID identity = Some (finish_claim state (db_now s) c) ∧
      db_deployments s' !! il_DeploymentID identity =
        Some (if String.eqb (d_Status d) "failed" && negb (String.eqb state "cleanup_unconfirmed")
              then d else end_deployment state (db_now s) d) ∧
      t_Changed t = negb (String.eqb (d_Status d) "failed" && negb (String.eqb state "cleanup_unconfirmed")) ∧
      ∀ p, settled s' (p, d_EnvironmentID d)
  else FinishRemoteDeploymentLifecycle identity state s = (Err ErrRemoteLifecycleConflict, s).
Proof.
  intros Hinv Hl. pose proof (lk_deployment _ _ _ _ _ Hl) as Hd.
  destruct (sys_rows s d Hinv) as (rel & env & Hrel & Henv); [by eexists|].
  pose proof (proj2 (locks_begin s identity true c d) Hl) as Hl0.
  pose proof (finish_exec (set_pending_audit [] s) identity state c d rel env Hl0
    (si_claims _ Hinv) Hrel Henv) as Hexec. cbn [db_now set_pending_audit] in Hexec.
  destruct (String.eqb (c_State c) state).
  - destruct (commit_sweep _ s _ d no_terminal _ Hinv Hd Hexec (sys_finish identity state))
      as (s' & Hs' & _ & Hcl & _). exists s'. split; [exact Hs'|]. by rewrite Hcl.
  - destruct (finishable state c d) eqn:Hfin; [|by eapply WithDeploymentTx_fails].
    destruct (commit_sweep _ s _ d _ _ Hinv Hd Hexec (sys_finish identity state))
      as (s' & Hs' & Hinv' & Hcl & Hset & Hrows).
    eexists _, s'. split; [exact Hs'|]. split; [done|].
    split; [rewrite Hcl; apply lookup_insert_eq|].
    split; [|split; [by destruct (_ && _)|done]].
    apply finishable_cases in Hfin as (_ & Hout & Hds).
    apply Hrows; [apply lookup_insert_eq|]. unfold finished. cbn [snd].
    destruct (_ && _); [destruct Hds as [->| ->]; done|].
    cbn. unfold outcomes in Hout. intros ->. rewrite !elem_of_cons, elem_of_nil in Hout.
    destruct Hout as [|[|[|[]]]]; done.
Qed.

(** A remote deployment that the server reports as started is running,
    holds the slot of its scope, is the only blocker of the scope, and its
    claim is running or being cancelled. *)
Theorem start_remote_exclusive s identity scrubber logs s' :
  sys_inv s → StartRemoteDeploymentWithLogs identity scrubber s = (Ok logs, s') →
  sys_inv s' ∧
  ∃ c d sc, db_claims s' !! il_DeploymentID identity = Some c ∧
    (c_State c = "started" ∨ c_State c = "cancel_requested") ∧
    db_deployments s' !! il_DeploymentID identity = Some d ∧ d_Status d = "running" ∧
    scope_of s' (il_DeploymentID identity) = Some sc ∧
    db_slots s' !! sc = Some (il_DeploymentID identity) ∧
    ∀ b, scope_of s' b = Some sc → blocking s' b = true → b = il_DeploymentID identity.
Proof.
  intros Hinv Hstart. pose proof (WithDeploymentTx_respects sys_step (il_DeploymentID identity)
    (startRemoteDeploymentWithLogs identity scrubber) s) as Hstep.
  unfold StartRemoteDeploymentWithLogs in Hstart. rewrite Hstart in Hstep. destruct Hstep as [Hinv' _]; [respects|done|]. cbn in Hinv'.
  split; [done|].
  apply WithDeploymentTx_inv in Hstart as (d0 & s1 & s2 & Hd0 & Hbody & Hadv & ->).
  destruct (advanceEnvironmentQueue_spec s1 (d_EnvironmentID d0)) as (s2' & Hs2 & Hst & Hstable).
  { destruct (start_body_inv s identity scrubber logs s1 Hinv Hbody) as [Hi _]. apply Hi. }
  assert (s2' = s2) as Hs22 by congruence. subst s2'.
  destruct (start_body_inv s identity scrubber logs s1 Hinv Hbody) as (Hinv1 & c & d & Hc & Hcs & Hd & Hr).
  assert (Hrow : db_deployments s2 !! il_DeploymentID identity = Some d)
    by by eapply env_steps_running.
  destruct (sys_rows (committed s2) d Hinv') as (rel & env & Hrel & Henv); [by eexists|].
  exists c, d, (rel_ProjectID rel, d_EnvironmentID d).
  split; [cbn; by rewrite (env_steps_claims _ _ _ Hst)|]. split; [done|]. split; [done|]. split; [done|].
  assert (Hsc : scope_of (committed s2) (il_DeploymentID identity) = Some (rel_ProjectID rel, d_EnvironmentID d)).
  { apply scope_of_lookup. eauto. }
  assert (Hblk : blocking (committed s2) (il_DeploymentID identity) = true).
  { unfold blocking. change (db_deployments (committed s2)) with (db_deployments s2).
    rewrite Hrow. apply is_blocker_on. by rewrite Hr. }
  split; [exact Hsc|]. split.
  - assert (He : d_EnvironmentID d = d_EnvironmentID d0).
    { destruct (sys_rows s d0 Hinv) as (rel0 & env0 & Hrel0 & _); [by eexists|].
      assert (scope_of s (il_DeploymentID identity) = Some (rel_ProjectID rel0, d_EnvironmentID d0)) as Hs0
        by (apply scope_of_lookup; eauto).
      apply (start_body_scope s identity scrubber logs s1 Hinv Hbody) in Hs0.
      rewrite <-(env_steps_scope _ _ _ (il_DeploymentID identity) Hst) in Hs0.
      change (scope_of s2 (il_DeploymentID identity) = Some (rel_ProjectID rel, d_EnvironmentID d)) in Hsc.
      congruence. }
    destruct (Hstable (rel_ProjectID rel)) as [Hout|[(b & o & Hb & Hbl & Ho)|(_ & Hnb & _)]];
      rewrite <-He in *.
    + specialize (Hout _ d Hsc). unfold in_queue in Hout. rewrite Hr in Hout.
      by specialize (Hout Hrow).
    + assert (o = il_DeploymentID identity) as <-; [|exact Ho].
      by apply (ex_owner _ (proj2 (si_queue _ Hinv')) _ _ _ Hsc Hblk).
    + specialize (Hnb _ Hsc).
      change (blocking s2 (il_DeploymentID identity) = true) in Hblk. congruence.
  - intros b Hb Hbl. by apply (ex_one _ (proj2 (si_queue _ Hinv')) _ _ _ Hb Hsc Hbl).
Qed.
End calls.

Lemma stale_identity_rejected_witness :
  ∃ identity, HeartbeatRemoteDeployment identity sample_started =
    (Err ErrRemoteLifecycleConflict, sample_started).
Proof.
  set (identity := mkIdentity 5 "agent-1" (Some "wrong")). exists identity.
  apply (stale_identity_rejected sample_started identity "succeeded" None).
  - intros (c & d & Hl). destruct Hl as [_ Hc _ Ht _ _]. destruct (Ht eq_refl) as (h & Hh & Hch).
    cbn in Hc. vm_compute in Hc. injection Hc as <-. vm_compute in Hch, Hh. congruence.
  - eexists. vm_compute. reflexivity.
Defined.

Lemma sample_locks state status started token :
  (token = true ∨ token = false) →
  locks (sample_remote state status started) sample_identity token (sample_claim state started)
    (assign "agent-1" (d_set_StartedAt started (sample_deployment 5 status 30))).
Proof. intros _. split; try (vm_compute; reflexivity). intros _. exists token_a. done. Qed.

Lemma finish_outcome_witness :
  sys_inv sample_started ∧
  ∃ t s', FinishRemoteDeploymentLifecycle sample_identity "succeeded" sample_started = (Ok t, s') ∧
    t_Changed t = true ∧ db_slots s' !! (1, 7) = Some 6.
Proof.
  assert (Hinv : sys_inv sample_started) by (apply sys_invb_sound; vm_compute; reflexivity).
  split; [exact Hinv|].
  destruct (finish_outcome sample_started sample_identity "succeeded" _ _ Hinv
    (sample_locks "started" "running" (Some 995) true (or_introl eq_refl)))
    as (t & s' & Hs' & _ & _ & _ & Ht & _).
  exists t, s'. split; [exact Hs'|]. split; [rewrite Ht; reflexivity|].
  revert Hs'. vm_compute. intros [= <- <-]. reflexivity.
Defined.

Lemma start_remote_exclusive_witness :
  ∃ s', StartRemoteDeploymentWithLogs sample_identity (Some (λ x, x)) sample_claimed =
      (Ok [mkLog 1 5 None "Execution agent: agent=builder id=agent-1" 1000 None None 1], s') ∧
    sys_inv s'.
Proof.
  destruct (StartRemoteDeploymentWithLogs sample_identity (Some (λ x, x)) sample_claimed)
    as [r s'] eqn:E. exists s'.
  assert (Hr : r = Ok [mkLog 1 5 None "Execution agent: agent=builder id=agent-1" 1000 None None 1]).
  { apply (f_equal fst) in E. cbn [fst] in E. rewrite <-E. vm_compute. reflexivity. }
  subst r. split; [reflexivity|].
  assert (Hinv : sys_inv sample_claimed) by (apply sys_invb_sound; vm_compute; reflexivity).
  exact (proj1 (start_remote_exclusive sample_claimed sample_identity (Some (λ x, x)) _ s' Hinv E)).
Defined.

(** ** Maintenance *)
Section sweep.
Context `{AgentEnvironment}.
Implicit Types (s : DB).

Lemma env_steps_credentials env s s' :
  rtc (env_step env) s s' → same_credentials s s' ∧ db_now s' = db_now s.
Proof.
  induction 1 as [|x y z [p Hp] _ [IH Hn]]; [done|]. split.
  - etrans; [|exact IH]. destruct (advanced_tables _ _ _ Hp) as (Hc & _ & _).
    split; [by destruct Hp|by destruct Hp|done|]. intros id.
    destruct (advanced_deployment _ _ _ Hp id) as [->|(_ & d & -> & _ & ->)]; done.
  - rewrite Hn. by destruct Hp.
Qed.

(** Tables that decide the fate of another claim. *)
Definition elsewhere (s s' : DB) (id : Z) : Prop :=
  db_claims s' !! id = db_claims s !! id ∧
  d_AssignedAgentID <$> db_deployments s' !! id = d_AssignedAgentID <$> db_deployments s !! id ∧
  ∀ d, db_deployments s !! id = Some d → d_Status d ≠ "queued" → db_deployments s' !! id = Some d.

Definition same_clock (s s' : DB) : Prop :=
  db_now s' = db_now s ∧ db_agents s' = db_agents s ∧ db_pairings s' = db_pairings s.

Lemma env_steps_elsewhere env s s' id : rtc (env_step env) s s' → elsewhere s (committed s') id.
Proof.
  intros Hst. destruct (env_steps_credentials env s s' Hst) as [[_ _ Hc Ha] _].
  split; [by cbn; rewrite Hc|]. split; [apply Ha|]. intros d Hd Hq. cbn.
  destruct (env_steps_row _ _ _ id Hst) as [->|(dq & Hdq & Hqq & _)]; [done|]. congruence.
Qed.

Definition due (s s' : DB) (id : Z) (agent : string) : Prop :=
  ∀ c d, locks s (mkIdentity id agent None) false c d →
    match maintained (db_now s) c d with
    | Some r => db_claims s' !! id = Some r.1 ∧
                (c_State c ≠ "claimed" → db_deployments s' !! id = Some r.2)
    | None => db_claims s' !! id = Some c
    end.

Lemma maintained_failed now c d r :
  maintained now c d = Some r → c_State c ≠ "claimed" → d_Status r.2 = "failed".
Proof.
  unfold maintained. intros Hm Hc%String.eqb_neq. rewrite Hc in Hm. cbn in Hm.
  repeat case_match; by simplify_eq.
Qed.

Lemma maintained_moves now c d r : maintained now c d = Some r → c_State r.1 ≠ c_State c.
Proof.
  unfold maintained.
  destruct (String.eqb_spec (c_State c) "claimed") as [->|_]; cbn [andb].
  { destruct (sql_le _ _); [by intros [= <-]|done]. }
  destruct (String.eqb_spec (c_State c) "started") as [->|_]; cbn [andb].
  { destruct (sql_le _ _); [by intros [= <-]|done]. }
  destruct (String.eqb_spec (c_State c) "cancel_requested") as [->|_]; cbn [andb]; [|done].
  destruct (sql_le _ _); [by intros [= <-]|done].
Qed.

Lemma maintain_one s id agent :
  sys_inv s → is_Some (db_deployments s !! id) →
  ∃ s', maintainRemoteClaim (id, agent) s = (Ok tt, s') ∧ sys_inv s' ∧ same_clock s s' ∧
    (∀ id', id' ≠ id → elsewhere s s' id') ∧ due s s' id agent.
Proof.
  intros Hinv [d0 Hd0]. pose proof (sys_begin s Hinv) as Hinv0.
  unfold maintainRemoteClaim. cbn [fst].
  assert (Hgoal : ∀ s1, maintain_claim (id, agent) (set_pending_audit [] s) = Ok (tt, s1) →
    ∃ s2, WithDeploymentTx id (maintain_claim (id, agent)) s = (Ok tt, committed s2) ∧
      rtc (env_step (d_EnvironmentID d0)) s1 s2 ∧ sys_inv (committed s2)).
  { intros s1 Hs1. destruct (sys_maintain (id, agent) _ _ _ Hs1 Hinv0) as [Hinv1 _].
    destruct (WithDeploymentTx_ok _ s id d0 tt s1 Hd0 Hs1 (proj1 (si_queue _ Hinv1)))
      as (s2 & Hs2 & Hst & _). exists s2. split; [done|]. split; [done|].
    pose proof (WithDeploymentTx_respects sys_step id (maintain_claim (id, agent)) s
      (sys_maintain (id, agent)) Hinv) as [Hi _]. by rewrite Hs2 in Hi. }
  destruct (maintain_claim_cases (set_pending_audit [] s) (id, agent) Hinv0)
    as [Hm|(c & d & r & Hl & Hmr & Hlc & Hm)].
  - destruct (Hgoal _ Hm) as (s2 & Hs2 & Hst & Hinv2). exists (committed s2). split; [done|].
    destruct (env_steps_credentials _ _ _ Hst) as [[Ha Hp Hc Has] Hn].
    split; [done|]. split; [done|]. split.
    + intros id' _. by apply (env_steps_elsewhere _ _ _ id' Hst).
    + intros c d Hl. cbn. rewrite Hc.
      destruct (maintained (db_now s) c d) as [r|] eqn:Hmr; [|apply Hl]. exfalso.
      apply locks_begin in Hl. pose proof (lk_claim _ _ _ _ _ Hl) as Hcl.
      rewrite (maintain_exec _ id agent c d Hl (si_claims _ Hinv0)) in Hm.
      * cbn [db_now set_pending_audit] in Hm. rewrite Hmr in Hm.
        assert (Hput : db_claims (put id r (set_pending_audit [] s)) = db_claims s)
          by (change (db_claims s) with (db_claims (set_pending_audit [] s)); congruence).
        pose proof (f_equal (.!! id) Hput) as Heq. cbn in Heq. rewrite lookup_insert_eq in Heq.
        cbn in Hcl. rewrite Hcl in Heq. injection Heq as Heq.
        apply (maintained_moves _ _ _ _ Hmr). by rewrite Heq.
      * by apply (si_keys _ Hinv0 id c).
      * intros Hst'. destruct (si_lifecycle _ Hinv0 id c Hcl Hst') as (d' & Hd' & Hr & _).
        pose proof (lk_deployment _ _ _ _ _ Hl) as Hdd. cbn in Hdd, Hd'. by simplify_eq.
  - destruct (Hgoal _ Hm) as (s2 & Hs2 & Hst & Hinv2). exists (committed s2). split; [done|].
    destruct (env_steps_credentials _ _ _ Hst) as [[Ha Hp Hc Has] Hn].
    split; [done|]. split; [done|]. split.
    + intros id' Hne. destruct (env_steps_elsewhere _ _ _ id' Hst) as (E1 & E2 & E3).
      cbn [fst] in *. unfold elsewhere. cbn in E1, E2, E3 |- *.
      rewrite !lookup_insert_ne in * by done. done.
    + intros c' d' Hl'. apply locks_begin in Hl'.
      pose proof (lk_claim _ _ _ _ _ Hl) as H1. pose proof (lk_claim _ _ _ _ _ Hl') as H2.
      pose proof (lk_deployment _ _ _ _ _ Hl) as H3. pose proof (lk_deployment _ _ _ _ _ Hl') as H4.
      cbn in H1, H2, H3, H4. simplify_eq. cbn in Hmr. rewrite Hmr.
      destruct (env_steps_elsewhere _ _ _ id Hst) as (E1 & _ & E3). cbn in E1, E3.
      rewrite lookup_insert_eq in E1. split; [done|]. intros Hnc. cbn.
      apply E3; [apply lookup_insert_eq|].
      by rewrite (maintained_failed _ _ _ _ Hmr Hnc).
Qed.

Lemma elsewhere_refl s id : elsewhere s s id.
Proof. by split. Qed.

Lemma elsewhere_trans s1 s2 s3 id : elsewhere s1 s2 id → elsewhere s2 s3 id → elsewhere s1 s3 id.
Proof.
  intros (C1 & A1 & R1) (C2 & A2 & R2). split; [congruence|]. split; [congruence|]. eauto.
Qed.

(** The locks of another claim are not affected. *)
Lemma elsewhere_locks s s' id agent c d :
  same_clock s s' → elsewhere s s' id → locks s (mkIdentity id agent None) false c d →
  ∃ d', locks s' (mkIdentity id agent None) false c d' ∧
        (d_Status d ≠ "queued" → d' = d).
Proof.
  intros (_ & Ha & Hp) (Hc & Has & Hr) [L1 L2 L3 L4 L5 L6]. cbn in *.
  rewrite L5 in Has. cbn in Has. destruct (db_deployments s' !! id) as [d'|] eqn:Hd'; [|done].
  injection Has as Has. exists d'. split.
  - unfold agent_ready in L1. rewrite <-Ha, <-Hp in L1. rewrite <-Hc in L2.
    split; try done. by rewrite Has.
  - intros Hq. specialize (Hr d L5 Hq). congruence.
Qed.

Lemma maintain_claims_spec l s :
  sys_inv s → NoDup (fst <$> l) → (∀ x, x ∈ l → is_Some (db_claims s !! x.1)) →
  ∃ s', maintain_claims l s = (Ok tt, s') ∧ sys_inv s' ∧ same_clock s s' ∧
    (∀ id, id ∉ fst <$> l → elsewhere s s' id) ∧
    ∀ x, x ∈ l → due s s' x.1 x.2.
Proof.
  revert s. induction l as [|[id agent] l IH]; intros s Hinv Hnd Hex.
  { exists s. split; [done|]. split; [done|]. split; [done|].
    split; [intros; apply elsewhere_refl|intros x Hx; set_solver]. }
  cbn in Hnd. apply NoDup_cons in Hnd as [Hnin Hnd].
  destruct (Hex (id, agent)) as [c0 Hc0]; [left|]. cbn in Hc0.
  destruct (maintain_one s id agent Hinv) as (s1 & Hs1 & Hinv1 & Hclk1 & Helse1 & Hdue1);
    [by apply (si_keys _ Hinv id c0)|].
  assert (Hne : ∀ x, x ∈ l → x.1 ≠ id).
  { intros x Hx Heq. apply Hnin. rewrite <-Heq. apply list_elem_of_fmap. eauto. }
  destruct (IH s1 Hinv1 Hnd) as (s2 & Hs2 & Hinv2 & Hclk2 & Helse2 & Hdue2).
  { intros x Hx. destruct (Helse1 x.1 (Hne x Hx)) as (-> & _). apply Hex. by right. }
  exists s2. cbn. rewrite Hs1. split; [done|]. split; [done|].
  destruct Hclk1 as (N1 & A1 & P1), Hclk2 as (N2 & A2 & P2).
  split; [split; [congruence|split; congruence]|]. split.
  - intros id' Hid'. cbn in Hid'. apply not_elem_of_cons in Hid' as [Hne' Hid'].
    eapply elsewhere_trans; [by apply Helse1|by apply Helse2].
  - intros x [->|Hx]%elem_of_cons; cbn.
    + intros c d Hl. specialize (Hdue1 c d Hl). destruct (Helse2 id Hnin) as (C2 & _ & R2).
      destruct (maintained (db_now s) c d) as [r|] eqn:Hm; rewrite C2; [|done].
      destruct Hdue1 as [Hcl Hdep]. split; [done|]. intros Hnc. apply R2; [by apply Hdep|].
      by rewrite (maintained_failed _ _ _ _ Hm Hnc).
    + intros c d Hl. destruct (elsewhere_locks s s1 x.1 x.2 c d) as (d' & Hl' & Hdd);
        [by split|by apply Helse1, Hne|done|].
      specialize (Hdue2 x Hx c d' Hl'). rewrite N1 in Hdue2.
      destruct (decide (d_Status d = "queued")) as [Hq|Hq]; [|by rewrite (Hdd Hq) in Hdue2].
      (* a queued deployment has no running claim: only expiry is possible *)
      assert (Hns : c_State c ≠ "started" ∧ c_State c ≠ "cancel_requested").
      { split; intros Hst; destruct (si_lifecycle _ Hinv x.1 c) as (dr & Hdr & Hr & _);
          try (by apply (lk_claim _ _ _ _ _ Hl)); try tauto;
          pose proof (lk_deployment _ _ _ _ _ Hl) as Hd; cbn in Hd; simplify_eq; congruence. }
      destruct Hns as [Hn1%String.eqb_neq Hn2%String.eqb_neq]. unfold maintained in *.
      rewrite Hn1, Hn2 in *. cbn [andb] in *.
      destruct (String.eqb_spec (c_State c) "claimed") as [Hst|Hst]; cbn [andb] in *; [|done].
      destruct (sql_le _ _); [|done]. split; [apply Hdue2|done].
Qed.

Lemma capacity_listed s id c :
  db_claims s !! id = Some c → (c_State c ∈? capacity_states)%bool = true →
  ∃ l, ListRemoteLifecycleClaims s = Ok (l, s) ∧ (id, c_AgentID c) ∈ l.
Proof.
  intros Hc Hst. eexists. split; [done|]. rewrite elem_of_sort_by.
  apply list_elem_of_fmap. exists (id, c). split; [done|].
  apply list_elem_of_filter. split; [done|]. by apply elem_of_map_to_list.
Qed.

Lemma listed_claims s l :
  ListRemoteLifecycleClaims s = Ok (l, s) →
  NoDup (fst <$> l) ∧ ∀ x, x ∈ l → ∃ c, db_claims s !! x.1 = Some c ∧ x.2 = c_AgentID c.
Proof.
  intros [= <-]. split.
  - rewrite sort_by_perm, <-list_fmap_compose. apply NoDup_fmap_fst.
    + intros k c1 c2 [_ H1]%list_elem_of_filter [_ H2]%list_elem_of_filter.
      apply elem_of_map_to_list in H1, H2. congruence.
    + apply NoDup_filter, NoDup_map_to_list.
  - intros x. rewrite elem_of_sort_by. intros ([k c] & -> & Hin)%list_elem_of_fmap.
    apply list_elem_of_filter in Hin as [_ Hin]. exists c. split; [|done]. by apply elem_of_map_to_list.
Qed.

(** The maintenance sweep always succeeds, and treats every claim whose
    agent is active as its clock demands: an expired claim returns to
    'waiting' without its token, a started claim without a heartbeat for
    LostThreshold seconds is lost and its deployment failed, a cancellation
    that was not acknowledged in time is unconfirmed and its deployment
    failed, and every other claim is left alone. *)
Theorem maintenance_complete s :
  sys_inv s →
  ∃ s', MaintainRemoteLifecycle s = (Ok tt, s') ∧ sys_inv s' ∧
    ∀ id c d, db_claims s !! id = Some c → db_deployments s !! id = Some d →
      d_AssignedAgentID d = Some (c_AgentID c) → agent_ready s (c_AgentID c) = true →
      match maintained (db_now s) c d with
      | Some r => db_claims s' !! id = Some r.1 ∧
                  (c_State c ≠ "claimed" →
                   ∃ d', db_deployments s' !! id = Some d' ∧ d_Status d' = "failed")
      | None => db_claims s' !! id = Some c
      end.
Proof.
  intros Hinv. destruct (ListRemoteLifecycleClaims s) as [[l ?]|e] eqn:El; [|done].
  assert (d = s) as -> by by injection El as _ <-.
  destruct (listed_claims s l El) as [Hnd Hin].
  destruct (maintain_claims_spec l s Hinv Hnd) as (s' & Hs' & Hinv' & _ & Helse & Hdue).
  { intros x (c & Hc & _)%Hin. eauto. }
  exists s'. split; [unfold MaintainRemoteLifecycle; by rewrite El|]. split; [done|].
  intros id c d Hc Hd Has Hready. destruct (c_State c ∈? capacity_states)%bool eqn:Hcap.
  - destruct (capacity_listed s id c Hc Hcap) as (l' & El' & Hl). assert (l' = l) as -> by congruence.
    specialize (Hdue _ Hl c d). cbn in Hdue.
    destruct (maintained (db_now s) c d) as [r|] eqn:Hm; [|apply Hdue; by split].
    destruct Hdue as [Hcl Hdep]; [by split|]. split; [done|]. intros Hnc.
    exists r.2. split; [by apply Hdep|]. by eapply maintained_failed.
  - assert (Hnone : maintained (db_now s) c d = None).
    { unfold maintained. cbn in Hcap. apply orb_false_iff in Hcap as [H1 Hcap].
      apply orb_false_iff in Hcap as [H2 Hcap]. apply orb_false_iff in Hcap as [H3 _].
      by rewrite H1, H2, H3. }
    rewrite Hnone. destruct (Helse id) as (-> & _); [|done].
    intros Hl. apply list_elem_of_fmap in Hl as (x & -> & Hx).
    destruct (Hin x Hx) as (c' & Hc' & _). simplify_eq.
    injection El as <-. rewrite elem_of_sort_by in Hx.
    apply list_elem_of_fmap in Hx as ([k c'] & -> & Hx). apply list_elem_of_filter in Hx as [Hst Hx].
    apply elem_of_map_to_list in Hx. cbn in *. simplify_eq. congruence.
Qed.
End sweep.

Lemma maintenance_complete_witness :
  let s := set_now 1085 sample_started in
  sys_inv s ∧ ∃ s', MaintainRemoteLifecycle s = (Ok tt, s') ∧
    (∃ c, db_claims s' !! 5 = Some c ∧ c_State c = "lost").
Proof.
  set (s := set_now 1085 sample_started). cbv zeta.
  assert (Hinv : sys_inv s) by (apply sys_invb_sound; vm_compute; reflexivity).
  split; [exact Hinv|]. destruct (maintenance_complete s Hinv) as (s' & Hs' & _ & Hrows).
  exists s'. split; [exact Hs'|].
  specialize (Hrows 5 (sample_claim "started" (Some 995))
    (assign "agent-1" (d_set_StartedAt (Some 995) (sample_deployment 5 "running" 30)))
    eq_refl eq_refl eq_refl eq_refl).
  eexists. split; [exact (proj1 Hrows)|reflexivity].
Defined.
