(* ===== verification/CreationTheorems.v ===== *)
(** * CreationTheorems: creating, rolling back, and doing it once

    The theorems about deployment_insert.go, deployment_snapshot.go,
    idempotency.go and rollback.go: a created deployment waits in its queue,
    its steps are frozen as its release (or its source) has them, a rollback
    goes back to the release that was in place before, a request with an
    idempotency key is carried out at most once, and the variables captured for
    a deployment stay what they were. *)
From stdpp Require Import pretty.
From S2P Require Import Prelude Text Db Tx Staging StageQueries QueueQueries DeploymentQueue QueueSafety QueueTheorems DispatchQueries RemoteLifecycle RemoteSafety RemoteSpec RemoteRefine AccessQueries Base64 Secret Variables VariableTheorems Gate Ansible CreationQueries GateQueries ArtifactGate DeploymentCreation System CreationSafety Runs Plans Captures SampleServer RemoteTheorems.

(** ** Creating a deployment *)
Section theorems.
Context `{Server}.
Implicit Types (s : DB) (d : Deployment).

Notation create := (createDeployment Configured variables_marshal variables_unmarshal Limits).
Notation create_idempotent := (CreateDeploymentIdempotent Configured variables_marshal variables_unmarshal Limits).
Notation rollback := (CreateRollback Configured variables_marshal variables_unmarshal Limits).

Notation deployed := (deployed Configured variables_marshal).

Lemma claim_start request s s' : Claim request s = Ok (tt, s') → same_start s s'.
Proof.
  unfold Claim. destruct (String.eqb _ _); [by intros [= <-]|].
  unfold ClaimIdempotency, insert_row. destruct (_ && _); [|done]. by intros [= <-].
Qed.
Lemma complete_tables request d s s' :
  Complete request d s = Ok (tt, s') →
  same_queue_tables s s' ∧ same_plans s s' ∧ db_variables s' = db_variables s.
Proof. unfold Complete. destruct (String.eqb _ _); by intros [= <-]. Qed.

(** A state that a creation starts from. *)
Lemma creation_start s sx :
  sys_inv s → plan_keys s → sys_step s sx → same_plans s sx → sys_inv sx ∧ plan_keys sx.
Proof. intros Hinv Hk Hst Hp. split; [by apply Hst|by apply (plan_keys_kept s)]. Qed.

Lemma committed_plans s : same_plans s (committed s).
Proof. by split. Qed.

Lemma begin_start s : same_start s (set_pending_audit [] s).
Proof. by split. Qed.

(** Where the transaction of a creation starts and ends. *)
Lemma after_maintenance_inv {A} (body : Tx A) s r s' :
  after_maintenance body s = (r, s') →
  match r with
  | Ok a => ∃ s1, body (set_pending_audit [] (MaintainArtifactGates s).2) = Ok (a, s1) ∧ s' = committed s1
  | Err _ => s' = (MaintainArtifactGates s).2
  end.
Proof.
  unfold after_maintenance. destruct (MaintainArtifactGates s) as [[u|e] s1] eqn:Em; cbn; [|by intros [= <- <-]].
  intros E. destruct r as [a|e]; [by apply withQueueTx_inv|].
  destruct (body (set_pending_audit [] s1)) as [[a s2]|e'] eqn:Eb.
  - by rewrite (withQueueTx_ok _ _ _ _ Eb) in E.
  - rewrite (withQueueTx_err _ _ _ Eb) in E. by injection E as _ <-.
Qed.

(** C21: creating a deployment, on every branch. The artifact gates are
    maintained first, a transaction of its own that changes no plan and leaves
    the store [s0]; when the creation fails, that is all that has been done.
    When it succeeds the deployment is new and has no agent. Asked to wait in
    the queue it is admitted, and holds its scope, exactly when in [s0] nothing
    blocks its environment of its project and no deployment that waits there
    comes before it, and is queued otherwise; asked for another status it has
    that one. Its frozen steps are exactly the decoded steps of its release with
    the environment's verification appended, its source is the release's JSON,
    the variables captured for it are those of the release and of its project's
    lifecycle in [s0] and no other capture changes, the release's artifact is
    recorded for it, no other plan changes, and no claim or run is touched. *)
Theorem create_deployment nonce arg request s r s' :
  sys_inv s → plan_keys s → create_idempotent nonce arg request s = (r, s') →
  let s0 := (MaintainArtifactGates s).2 in
  sys_inv s' ∧ same_plans s s0 ∧
  match r with
  | Ok d => ∃ release steps,
      db_releases s0 !! cd_ReleaseID arg = Some release ∧
      deploymentStepsFromRelease Limits (rel_StepsJson release) = Ok steps ∧
      deployed nonce s0 s' (cd_ReleaseID arg) (cd_EnvironmentID arg) (cd_Status arg) steps (rel_StepsJson release)
        (dt_release_artifacts (db_creation s0) !! cd_ReleaseID arg) d
  | Err _ => s' = s0
  end.
Proof.
  intros Hinv Hk E s0. split; [|split; [apply (tables_maintain same_plans)|]].
  { pose proof (perform_step (EvCreate nonce arg request) s (λ _, eq_refl) Hinv) as [Hi _].
    cbn [perform] in Hi. by rewrite E in Hi. }
  apply after_maintenance_inv in E. destruct r as [d|e]; [|done]. destruct E as (s1 & E & ->).
  destruct (creation_start s s0 Hinv Hk (sys_maintain_gates s) (tables_maintain same_plans s)) as [Hinv0 Hk0].
  apply bind_inv in E as ([] & s2 & Hcl & E). apply bind_inv in E as (d' & s3 & Hc & E).
  apply bind_inv in E as ([] & s4 & Hco & E). injection E as <- <-.
  assert (St : same_start s0 s2) by (etrans; [apply begin_start|by eapply claim_start]).
  destruct (creation_start s0 s2 Hinv0 Hk0) as [Hinv2 Hk2]; [apply sys_same, St|apply St|].
  apply create_deployment_inv in Hc as (release & steps & Hrel & Hst & Hdep); [|done..].
  exists release, steps. rewrite <-(sp_releases _ _ (st_plans _ _ St)), <-(sp_release_artifacts _ _ (st_plans _ _ St)).
  split; [done|]. split; [done|]. destruct (complete_tables _ _ _ _ Hco) as (Q & P & V).
  eapply deployed_from; [exact St| | | |exact Hdep].
  - etrans; [exact P|apply committed_plans].
  - etrans; [exact Q|apply committed_same].
  - by rewrite <-V.
Qed.

(** ** Rollback *)

(** [d] was created after [x], or is [x]. *)
Definition not_after (x d : Deployment) : Prop :=
  d_CreatedAt x < d_CreatedAt d ∨ d_CreatedAt x = d_CreatedAt d ∧ d_ID x <= d_ID d.

(** [d] is the newest deployment that satisfies [where_]. *)
Definition newest s (where_ : Deployment → bool) d : Prop :=
  (∃ id, db_deployments s !! id = Some d) ∧ where_ d = true ∧
  ∀ id x, db_deployments s !! id = Some x → where_ x = true → not_after x d.

Lemma latest_le_true a b : latest_le a b = true ↔ not_after b a.
Proof.
  unfold latest_le, not_after. rewrite orb_true_iff, andb_true_iff, Z.ltb_lt, Z.eqb_eq, Z.leb_le. lia.
Qed.

Lemma latest_newest s where_ s0 d s' :
  latest_deployment s where_ s0 = Ok (d, s') → s' = s0 ∧ newest s where_ d.
Proof.
  unfold latest_deployment. set (l := filter _ _).
  assert (Hin : ∀ x, x ∈ l ↔ where_ x = true ∧ ∃ id, db_deployments s !! id = Some x).
  { intros x. unfold l. rewrite list_elem_of_filter, list_elem_of_fmap. f_equiv. split.
    - intros ([id y] & -> & Hy%elem_of_map_to_list). eauto.
    - intros [id Hid]. exists (id, x). by rewrite elem_of_map_to_list. }
  destruct (sort_by latest_le l) as [|y rest] eqn:Hs; [done|]. intros [= <- <-]. split; [done|].
  assert (Hy : y ∈ l) by (apply (elem_of_sort_by latest_le); rewrite Hs; left).
  apply Hin in Hy as [Hw Hy]. split; [done|]. split; [done|]. intros id x Hx Hwx.
  assert (x ∈ l) as Hxl by (apply Hin; eauto).
  destruct (sort_by_head latest_le) with (l := l) (x := y) (ys := rest) (y := x) as [->|Hle]; try done.
  - intros a b. rewrite <-not_true_iff_false, !latest_le_true. unfold not_after. lia.
  - intros a b c. rewrite !latest_le_true. unfold not_after. lia.
  - right. done.
  - by apply latest_le_true.
Qed.

(** [x] deploys the project of [d] to the environment of [d]. *)
Definition same_scope s d x : bool :=
  sql_eq2 (project_of s x) (project_of s d) && Z.eqb (d_EnvironmentID x) (d_EnvironmentID d).

(** What a rollback of [src] goes back to: the newest earlier success of
    another release in the scope that was a real deployment. *)
Definition rollback_candidate s src x : bool :=
  same_scope s src x && real_deployment s x && String.eqb (d_Status x) "succeeded"
  && negb (Z.eqb (d_ReleaseID x) (d_ReleaseID src))
  && ((d_CreatedAt x <? d_CreatedAt src)
      || (Z.eqb (d_CreatedAt x) (d_CreatedAt src) && (d_ID x <? d_ID src))).

(** [src] can be rolled back: it is finished, the newest real deployment of
    its scope, and nothing waits or is in progress there. *)
Record can_roll_back s src : Prop := {
  rb_finished : d_Status src ∈ ["succeeded"; "failed"; "cancelled"];
  rb_newest : newest s (λ x, same_scope s src x && real_deployment s x) src;
  rb_idle : ∀ id x, db_deployments s !! id = Some x → same_scope s src x = true →
    d_Kind x = "deployment" → d_Status x ∉ ["queued"; "pending_approval"] ∧ blocking s id = false }.

Lemma newest_ext s p q d : (∀ x, p x = q x) → newest s p d → newest s q d.
Proof. intros He (? & Hp & Hn). split; [done|]. rewrite <-He. split; [done|]. intros id x Hx. rewrite <-He. eauto. Qed.

Lemma same_scope_src s src release x :
  db_releases s !! d_ReleaseID src = Some release →
  same_scope s src x = sql_eq (project_of s x) (rel_ProjectID release) && Z.eqb (d_EnvironmentID x) (d_EnvironmentID src).
Proof. intros Hr. unfold same_scope, project_of at 2. by rewrite Hr. Qed.

(** The checks of a rollback's source. *)
Lemma can_roll_back_intro s source src release latest s1 active s2 :
  queue_wf s → db_deployments s !! source = Some src → db_releases s !! d_ReleaseID src = Some release →
  (d_Status src ∈? ["succeeded"; "failed"; "cancelled"])%bool = true →
  GetLatestProjectEnvironmentDeployment (rel_ProjectID release) (d_EnvironmentID src) s = Ok (latest, s1) →
  d_ID latest = d_ID src →
  HasActiveProjectEnvironmentDeployment (rel_ProjectID release) (d_EnvironmentID src) s = Ok (active, s2) →
  active = 0 → can_roll_back s src.
Proof.
  intros Hwf Hsrc Hrel Hst Hl Hid Ha Hz. split.
  - by apply in_list_true.
  - apply latest_newest in Hl as [_ Hn]. assert (latest = src) as ->.
    { destruct Hn as ((id & Hid') & _). pose proof (wf_key _ Hwf _ _ Hid') as H1.
      pose proof (wf_key _ Hwf _ _ Hsrc) as H2. congruence. }
    eapply newest_ext; [|exact Hn]. intros x. cbn. by rewrite (same_scope_src s src release).
  - intros id x Hx Hsc Hk. subst active. injection Ha as Ha _. unfold count in Ha.
    destruct (existsb _ _) eqn:E in Ha; [done|]. rewrite <-not_true_iff_false, existsb_exists in E.
    rewrite (same_scope_src s src release) in Hsc by done.
    assert (Hno : ((d_Status x ∈? ["queued"; "pending_approval"]) || is_blocker s id x)%bool = false).
    { apply not_true_iff_false. intros Hb. apply E. exists (id, x). split.
      - by apply list_elem_of_In, elem_of_map_to_list.
      - cbn [fst snd]. rewrite Hsc, Hk. cbn. exact Hb. }
    apply orb_false_iff in Hno as [Hq Hb]. split; [|unfold blocking; by rewrite Hx].
    intros Hin%in_list_true. by rewrite Hin in Hq.
Qed.

Lemma target_newest s source src tgt s1 :
  db_deployments s !! source = Some src → GetRollbackTarget source s = Ok (tgt, s1) →
  newest s (rollback_candidate s src) tgt.
Proof.
  intros Hsrc. unfold GetRollbackTarget. rewrite Hsrc. intros [_ Hn]%latest_newest. exact Hn.
Qed.

Lemma deployment_release s id r s' :
  GetDeploymentRelease id s = Ok (r, s') → s' = s ∧ db_releases s !! id = Some r.
Proof.
  unfold GetDeploymentRelease. destruct (db_releases s !! id) as [r0|]; [|done].
  destruct (String.eqb _ _); [by intros [= <- <-]|done].
Qed.

Lemma readonly_check_and_approval project release environment :
  readonly (CheckAndApproval project release environment).
Proof. unfold readonly, CheckAndApproval. respects. Qed.

Lemma preview_inv source s p s' :
  queue_wf s → previewRollback source s = Ok (p, s') →
  s' = s ∧ ∃ src release tgt target_release project,
    db_deployments s !! source = Some src ∧ db_releases s !! d_ReleaseID src = Some release ∧
    can_roll_back s src ∧ newest s (rollback_candidate s src) tgt ∧
    db_releases s !! d_ReleaseID tgt = Some target_release ∧
    db_projects s !! rel_ProjectID release = Some project ∧
    CheckAndApproval project target_release (d_EnvironmentID src) s
      = Ok ((rp_Blocked p, rp_Reason p, rp_RequiresApproval p), s) ∧
    rp_TargetDeploymentID p = d_ID tgt ∧ rp_TargetReleaseID p = rel_ID target_release ∧
    rp_EnvironmentID p = d_EnvironmentID src ∧
    rp_SourceVersion p = rel_Version release ∧ rp_TargetVersion p = rel_Version target_release.
Proof.
  intros Hwf. unfold previewRollback. intros E.
  apply bind_inv in E as (src & s1 & Hsrc & E). unfold GetDeployment in Hsrc.
  destruct (db_deployments s !! source) as [src0|] eqn:Hrow; [|done]. injection Hsrc as <- <-.
  read_next E. apply bind_inv in E as (u & s1 & Hg & E).
  destruct (_ && _) eqn:Hc in Hg; [|done]. apply andb_true_iff in Hc as [_ Hst]. injection Hg as _ <-.
  apply bind_inv in E as (release & s1 & Hrel & E). apply deployment_release in Hrel as [-> Hrel].
  apply bind_inv in E as (latest & s1 & Hl & E). pose proof (readonly_latest_project _ _ _ _ _ Hl) as ->.
  apply bind_inv in E as (u2 & s1 & Hg & E). destruct (Z.eqb_spec (d_ID latest) (d_ID src0)) as [Hid|]; [|done].
  injection Hg as _ <-. apply bind_inv in E as (active & s1 & Ha & E).
  assert (s1 = s) as -> by by injection Ha as _ <-.
  apply bind_inv in E as (u3 & s1 & Hg & E). destruct (Z.eqb_spec active 0) as [Hz|]; [|done].
  injection Hg as _ <-. apply bind_inv in E as (t & s1 & Ht & E). unfold attempt in Ht.
  destruct (GetRollbackTarget source s) as [[tgt s2]|e] eqn:Htgt; injection Ht as <- <-; [|by destruct e].
  pose proof (readonly_rollback_target _ _ _ _ Htgt) as ->.
  apply bind_inv in E as (trel & s1 & Htr & E). apply deployment_release in Htr as [-> Htr].
  apply bind_inv in E as (project & s1 & Hp & E). unfold GetProject in Hp.
  destruct (db_projects s !! rel_ProjectID release) as [project0|] eqn:Hproject; [|done]. injection Hp as <- <-.
  apply bind_inv in E as ([eid env] & s1 & He & E). unfold GetEnvironment in He.
  destruct (db_environments s !! d_EnvironmentID src0) as [env0|]; [|done]. injection He as <- <- <-.
  apply bind_inv in E as ([[blocked reason] approval] & s1 & Hd & E).
  pose proof (readonly_check_and_approval _ _ _ _ _ _ Hd) as ->. injection E as <- <-.
  split; [done|]. exists src0, release, tgt, trel, project0.
  split; [done|]. split; [done|]. split; [by eapply can_roll_back_intro|].
  split; [by eapply target_newest|]. done.
Qed.

Lemma newest_key s p d : queue_wf s → newest s p d → db_deployments s !! d_ID d = Some d.
Proof. intros Hwf ((id & Hid) & _). by rewrite (wf_key _ Hwf _ _ Hid). Qed.

Lemma rollback_tables id source target v w s s' :
  CreateDeploymentRollback id source target v w s = Ok (tt, s') →
  same_queue_tables s s' ∧ same_plans s s' ∧ db_variables s' = db_variables s ∧
  dt_rollbacks (db_creation s') !! id = Some (mkRollback source target v w).
Proof.
  unfold CreateDeploymentRollback, insert_row. destruct (_ && _); [|done]. intros [= <-].
  split; [done|]. split; [done|]. split; [done|]. apply lookup_insert_eq.
Qed.

Lemma refused_rollback nonce source expected s e s' :
  rollback nonce source expected s = (Err e, s') → s' = s.
Proof.
  unfold CreateRollback. destruct (createRollback Configured variables_marshal variables_unmarshal
    Limits nonce source expected (set_pending_audit [] s)) as [[d s1]|e'] eqn:Eb.
  - by rewrite (withQueueTx_ok _ _ _ _ Eb).
  - rewrite (withQueueTx_err _ _ _ Eb). by intros [= _ <-].
Qed.

(** C22: rolling back, on every branch. A rollback succeeds only for a finished
    deployment that is the newest of its project and environment while nothing
    waits or is in progress there; it goes back to the newest earlier success
    of another release, which is the one that the caller expects, and only
    when the promotion gate of the project of the deployment's release lets
    that release in. The new deployment has the plan and the artifact of that
    success and the variables of its release as they are now, waits for approval
    exactly when the gate asks for it, otherwise enters the queue as any
    deployment does, and is recorded as the rollback of the one by the other.
    A refused rollback changes nothing. *)
Theorem create_rollback nonce source expected s r s' :
  sys_inv s → plan_keys s → rollback nonce source expected s = (r, s') →
  sys_inv s' ∧
  match r with
  | Ok d => ∃ src tgt old release project reason approval steps,
      db_deployments s !! source = Some src ∧ can_roll_back s src ∧
      db_deployments s !! expected = Some tgt ∧ newest s (rollback_candidate s src) tgt ∧
      db_releases s !! d_ReleaseID src = Some old ∧ db_releases s !! d_ReleaseID tgt = Some release ∧
      db_projects s !! rel_ProjectID old = Some project ∧
      CheckAndApproval project release (d_EnvironmentID src) (set_pending_audit [] s)
        = Ok ((false, reason, approval), set_pending_audit [] s) ∧
      deploymentStepsFromRelease Limits
        (default (rel_StepsJson release) (db_step_sources s !! expected)) = Ok steps ∧
      deployed nonce s s' (d_ReleaseID tgt) (d_EnvironmentID src)
        (if approval : bool then "pending_approval" else "pending") steps
        (frozen_source s expected release) (dt_artifacts (db_creation s) !! expected) d ∧
      dt_rollbacks (db_creation s') !! d_ID d =
        Some (mkRollback source expected (rel_Version old) (rel_Version release))
  | Err _ => s' = s
  end.
Proof.
  intros Hinv Hk Hroll. split.
  { pose proof (perform_step (EvRollback nonce source expected) s (λ _, eq_refl) Hinv) as [Hi _].
    cbn [perform] in Hi. by rewrite Hroll in Hi. }
  set (s0 := set_pending_audit [] s). destruct r as [d|e]; [|by apply refused_rollback in Hroll].
  apply withQueueTx_inv in Hroll as (s1 & E & ->). fold s0 in E. unfold createRollback in E.
  assert (Hinv0 : sys_inv s0) by by apply sys_begin.
  destruct (creation_start s s0) as [_ Hk0]; [done|done|by apply sys_same|by split|].
  apply bind_inv in E as (src & s2 & Hsrc & E). unfold GetDeployment in Hsrc.
  destruct (db_deployments s0 !! source) as [src0|] eqn:Hrow; [|done]. injection Hsrc as <- <-.
  read_next E. read_next E. apply bind_inv in E as (p & s2 & Hp & E).
  apply preview_inv in Hp as (-> & src & old & tgt & trel & project & Hs & Hold & Hcan & Hnew & Htrel & Hproj &
    Hgate & P1 & P2 & P3 & P4 & P5); [|apply Hinv0].
  apply bind_inv in E as (u & s2 & Hg & E). destruct (Z.eqb_spec expected (rp_TargetDeploymentID p)) as [He|]; [|done].
  injection Hg as _ <-. apply bind_inv in E as (u2 & s2 & Hg & E).
  destruct (rp_Blocked p) eqn:Hbl; [done|]. injection Hg as _ <-.
  apply bind_inv in E as (d' & s2 & Hc & E). apply bind_inv in E as ([] & s3 & Hrb & E). injection E as <- <-.
  apply create_from_inv in Hc as (tgt' & release & steps & Htgt & Hrel & Hr & Hst & Hdep); [|done..].
  rewrite <-He in Htgt, Hst, Hdep. pose proof (newest_key s0 _ tgt (proj1 (si_queue _ Hinv0)) Hnew) as Htk.
  rewrite <-P1, <-He in Htk. assert (tgt' = tgt) as -> by congruence.
  cbn [rollback_params cd_ReleaseID cd_EnvironmentID cd_Status] in *. rewrite P2 in *.
  assert (release = trel) as -> by congruence. rewrite <-Hrel in Hdep. rewrite P3 in Hdep.
  assert (src0 = src) as -> by congruence.
  exists src, tgt, old, trel, project, (rp_Reason p), (rp_RequiresApproval p), steps.
  split; [done|]. split; [by destruct Hcan; split|]. split_and!; try done.
  - destruct (rollback_tables _ _ _ _ _ _ _ Hrb) as (Q & P & V & _).
    eapply (deployed_from _ _ _ s s0); [apply begin_start| | | |exact Hdep].
    + etrans; [exact P|apply committed_plans].
    + etrans; [exact Q|apply committed_same].
    + by rewrite <-V.
  - rewrite <-He, P4, P5 in Hrb. by destruct (rollback_tables _ _ _ _ _ _ _ Hrb) as (_ & _ & _ & Hrow').
Qed.

(** ** Idempotency *)

(** What a key that was used answers, in any store that still has its row. *)
Lemma key_answers s request again hash response :
  ip_KeyHash request ≠ "" → idempotency_key again = idempotency_key request →
  keys s !! idempotency_key request = Some (mkIdempotency hash response) →
  LookupIdempotency again s =
    (if String.eqb hash (ip_RequestHash again) then Ok (Some response, s) else Err ErrIdempotencyConflict) ∧
  ∀ nonce arg, ∃ e, create_idempotent nonce arg again s = (Err e, (MaintainArtifactGates s).2).
Proof.
  intros Hne Ek Hrow.
  assert (Hkey : ip_KeyHash again ≠ "") by (unfold idempotency_key in Ek; simplify_eq; congruence). split.
  - unfold LookupIdempotency, GetIdempotency, attempt, mbind, tx_bind.
    apply String.eqb_neq in Hkey. rewrite Hkey, Ek. unfold keys in Hrow. rewrite Hrow.
    cbn [ik_RequestHash ik_ResponseJson]. by destruct (String.eqb hash (ip_RequestHash again)).
  - intros nonce arg. destruct (create_idempotent nonce arg again s) as [[d|e] s'] eqn:E;
      apply after_maintenance_inv in E; [exfalso|by exists e; rewrite E].
    destruct E as (s1 & E & _). apply bind_inv in E as ([] & s2 & Hcl & _).
    apply claim_row in Hcl as [_ Hnew]. destruct (Hnew Hkey) as [Hnone _]. rewrite Ek in Hnone.
    assert (kept s (set_pending_audit [] (MaintainArtifactGates s).2)) as [Hsub _]
      by (etrans; [apply kept_maintain_gates|by apply kept_same]).
    pose proof (lookup_weaken _ _ _ _ Hrow Hsub). congruence.
Qed.

(** C23: a request with an idempotency key is carried out at most once. A
    creation that succeeds under a key finds the key unused and stores its
    response under it. After any history of entry points the key still answers
    with the stored response, or with a conflict when the request differs, and
    a second creation under it fails whatever it asks for, leaving only the
    maintenance of the artifact gates. *)
Theorem idempotent_create nonce arg request s d s' :
  ip_KeyHash request ≠ "" → create_idempotent nonce arg request s = (Ok d, s') →
  keys s !! idempotency_key request = None ∧
  keys s' !! idempotency_key request = Some (mkIdempotency (ip_RequestHash request) (deployment_marshal d)) ∧
  ∀ events again, idempotency_key again = idempotency_key request →
    let later := run events s' in
    LookupIdempotency again later =
      (if String.eqb (ip_RequestHash request) (ip_RequestHash again)
       then Ok (Some (deployment_marshal d), later) else Err ErrIdempotencyConflict) ∧
    ∀ nonce2 arg2, ∃ e,
      create_idempotent nonce2 arg2 again later = (Err e, (MaintainArtifactGates later).2).
Proof.
  intros Hkey Hall. apply after_maintenance_inv in Hall as (s1 & E & ->).
  set (s0 := set_pending_audit [] _) in E.
  assert (K0 : kept s s0) by (etrans; [apply kept_maintain_gates|by apply kept_same]).
  apply bind_inv in E as ([] & s2 & Hcl & E). apply bind_inv in E as (d' & s3 & Hc & E).
  apply bind_inv in E as ([] & s4 & Hco & E). injection E as <- <-.
  apply claim_row in Hcl as [_ Hnew]. destruct (Hnew Hkey) as [Hnone Hclaimed].
  apply (lookup_weaken _ (keys s3)) in Hclaimed; [|by apply (kp_keys _ _ (kept_create _ _ _ _ _ Hc))].
  assert (Hdone : keys (committed s4) !! idempotency_key request =
    Some (mkIdempotency (ip_RequestHash request) (deployment_marshal d'))).
  { change (keys (committed s4)) with (keys s4). destruct (complete_row _ _ _ _ (idempotency_key request) Hco) as [_ ->].
    rewrite decide_True by done. by rewrite Hclaimed. }
  split; [|split; [exact Hdone|]].
  - apply eq_None_not_Some. intros [row Hrow].
    pose proof (lookup_weaken _ _ _ _ Hrow (kp_keys _ _ K0)). congruence.
  - intros events again Ek later. apply (key_answers later request); [done..|].
    eapply lookup_weaken; [exact Hdone|]. apply run_keeps.
Qed.

(** ** Captures *)

Inductive creation :=
  | ByRequest (nonce : option bytes) (arg : CreateDeploymentParams) (request : ClaimIdempotencyParams)
  | ByRedeploy (nonce : option bytes) (arg : CreateDeploymentParams) (source : Z)
  | ByRollback (nonce : option bytes) (source expected : Z).

Definition created_by (c : creation) : DB → result Deployment * DB :=
  match c with
  | ByRequest nonce arg request => create_idempotent nonce arg request
  | ByRedeploy nonce arg source =>
      CreateDeploymentFromDeployment Configured variables_marshal variables_unmarshal Limits nonce arg source
  | ByRollback nonce source expected => rollback nonce source expected
  end.

Definition nonce_of (c : creation) : option bytes :=
  match c with ByRequest n _ _ | ByRedeploy n _ _ | ByRollback n _ _ => n end.

(** The store that the new deployment's variables are read from. *)
Definition creation_source (c : creation) s : DB :=
  match c with ByRollback _ _ _ => s | _ => (MaintainArtifactGates s).2 end.

Lemma rollback_creation nonce source expected s d s' :
  queue_wf s →
  createRollback Configured variables_marshal variables_unmarshal Limits nonce source expected s = Ok (d, s') →
  ∃ arg target s1,
    createDeploymentFromDeployment Configured variables_marshal variables_unmarshal Limits nonce arg target s = Ok (d, s1) ∧
    same_queue_tables s1 s' ∧ same_plans s1 s' ∧ db_variables s' = db_variables s1.
Proof.
  intros Hwf. unfold createRollback. intros E. apply bind_inv in E as (src & s1 & Hsrc & E).
  assert (s1 = s) as -> by (unfold GetDeployment in Hsrc; by destruct (_ !! _); [injection Hsrc as _ <-|]).
  read_next E. read_next E. apply bind_inv in E as (p & s1 & Hp & E). apply preview_inv in Hp as [-> _]; [|done].
  apply bind_inv in E as (u & s1 & Hg & E). destruct (Z.eqb _ _); [|done]. injection Hg as _ <-.
  apply bind_inv in E as (u2 & s1 & Hg & E). destruct (negb _); [|done]. injection Hg as _ <-.
  apply bind_inv in E as (d' & s1 & Hc & E). apply bind_inv in E as ([] & s2 & Hrb & E). injection E as <- <-.
  apply rollback_tables in Hrb as (Q & P & V & _). eauto 10.
Qed.

(** Whichever entry point creates it, a deployment has the variables captured
    that are read where it starts. *)
Lemma creation_captures c s d s' :
  sys_inv s → plan_keys s → created_by c s = (Ok d, s') →
  let s0 := creation_source c s in
  ∃ l v, captured_variables Configured d s0 = Ok (l, s0) ∧
    encryptValue Configured (nonce_of c) (Some (variables_marshal l)) = Ok v ∧
    snapshots s' = <[d_ID d := default "" v]> (snapshots s0).
Proof.
  intros Hinv Hk E s0.
  assert (Hinv0 : sys_inv s0 ∧ plan_keys s0).
  { destruct c; [apply (creation_start s); [done|done|apply sys_maintain_gates|apply (tables_maintain same_plans)]..|done]. }
  destruct Hinv0 as [Hinv0 Hk0]. set (sb := set_pending_audit [] s0).
  destruct (creation_start s0 sb) as [Hinvb Hkb]; [done|done|by apply sys_same|by split|].
  cut (∃ sx release environment asked steps source artifact,
    deployed (nonce_of c) s0 sx release environment asked steps source artifact d ∧ snapshots s' = snapshots sx).
  { intros (sx & ? & ? & ? & ? & ? & ? & Hdep & ->).
    destruct (de_captured _ _ _ _ _ _ _ _ _ _ _ _ Hdep) as (l & v & H1 & H2 & H3). by exists l, v. }
  assert (Hfrom : ∀ nonce sy release environment asked steps source artifact sx,
    same_start sb sy → deployed nonce sy sx release environment asked steps source artifact d →
    deployed nonce s0 sx release environment asked steps source artifact d).
  { intros * Hst. apply deployed_from; [etrans; [apply begin_start|exact Hst]|done..]. }
  destruct c as [nonce arg request|nonce arg source|nonce source expected]; cbn [created_by nonce_of] in *.
  - apply after_maintenance_inv in E as (s1 & E & ->).
    apply bind_inv in E as ([] & s2 & Hcl & E). apply bind_inv in E as (d' & s3 & Hc & E).
    apply bind_inv in E as ([] & s4 & Hco & E). injection E as <- <-. apply claim_start in Hcl as St.
    destruct (creation_start sb s2 Hinvb Hkb) as [Hinv2 Hk2]; [apply sys_same, St|apply St|].
    apply create_deployment_inv in Hc as (? & ? & _ & _ & Hdep); [|done..].
    apply complete_tables in Hco as (_ & _ & V). do 7 eexists. split; [by eapply Hfrom|]. unfold snapshots. cbn. by rewrite V.
  - apply after_maintenance_inv in E as (s1 & E & ->).
    apply create_from_inv in E as (? & ? & ? & _ & _ & _ & _ & Hdep); [|done..].
    do 7 eexists. split; [by eapply Hfrom|]. done.
  - apply withQueueTx_inv in E as (s1 & E & ->). apply rollback_creation in E as (arg & target & s2 & Hc & _ & _ & V); [|apply Hinvb].
    apply create_from_inv in Hc as (? & ? & ? & _ & _ & _ & _ & Hdep); [|done..].
    do 7 eexists. split; [by eapply Hfrom|]. unfold snapshots. cbn. by rewrite V.
Qed.

(** C35: however a deployment was created, the variables captured for it are
    those of its release and its project's lifecycle where the creation started,
    numbered from 1, none of them a staging path, and no other capture changes.
    While the deployment exists, every read of its variables returns them,
    whatever entry points were called, whatever edits were made of variables, of
    the project's lifecycle and of its stages, and whenever the key was rotated,
    even when the capture was committed between the statements of the read.
    Names and values must be valid UTF-8, which encoding/json carries. *)
Theorem capture_immutable `{!BoxLaws (H := server_box)} c s d s' :
  (∀ l, Forall (λ v, json_text v = true) l → variables_unmarshal (variables_marshal l) = Some l) →
  (∀ nonce, nonce_of c = Some nonce → length nonce = NonceSize ∧ Forall is_byte nonce) →
  sys_inv s → plan_keys s → created_by c s = (Ok d, s') →
  let s0 := creation_source c s in
  ∃ l, captured_variables Configured d s0 = Ok (l, s0) ∧
    rv_ID <$> l = seqZ 1 (Z.of_nat (length l)) ∧ existsb reserved_path l = false ∧
    (∀ id, id ≠ d_ID d → snapshots s' !! id = snapshots s0 !! id) ∧
    (Forall (λ v, json_text v = true) l → ∀ box later, history Configured (server_box, s') (box, later) →
       (∀ second third last, ListDeploymentVariables (H := box) Configured variables_unmarshal
          later second third last (d_ID d) = Ok l) ∧
       ∀ first second third row legacy, snapshots first !! d_ID d = None →
         db_deployments second !! d_ID d = Some row →
         Repository_ListReleaseVariablesByRelease (H := box) Configured (d_ReleaseID row) third = Ok (legacy, third) →
         ListDeploymentVariables (H := box) Configured variables_unmarshal
           first second third later (d_ID d) = Ok l).
Proof.
  intros Hjson Hnonce Hinv Hk E s0. destruct (creation_captures c s d s' Hinv Hk E) as (l & v & Hl & Hv & Hs).
  exists l. destruct (captured_variables_shape _ _ _ _ Hl) as [Hids Hres].
  split; [exact Hl|]. split; [exact Hids|]. split; [exact Hres|].
  split; [intros id Hne; by rewrite Hs, lookup_insert_ne|]. intros Htext box later Hhist.
  destruct (history_holds _ _ _ (d_ID d) (variables_marshal l) Hhist) as (value & Hvalue & Hdec).
  { exists (default "" v). cbn. rewrite Hs, lookup_insert_eq. split; [done|]. by eapply encrypted_text. }
  cbn [fst snd] in Hvalue, Hdec.
  assert (Hread : decode_snapshot (H := box) Configured variables_unmarshal value = Ok l)
    by (unfold decode_snapshot; rewrite Hdec; cbn; by rewrite Hjson).
  split; intros; eapply (capture_read (H := box)); eauto 10.
Qed.
End theorems.

(** ** Steps that are accepted *)
Section frozen.
Context `{GoFormat} `{AnsibleLibraries} `{AgentProtocol} `{CreationLibraries} (limits : ExecutionLimits).


Lemma limits_ok timeout retries u :
  ValidateLimitsWithPolicy timeout retries limits = Ok u →
  0 <= timeout <= MaxTimeoutSeconds limits ∧ 0 <= retries <= MaxRetries limits.
Proof.
  unfold ValidateLimitsWithPolicy.
  destruct (Z.ltb_spec timeout 0); [done|]. destruct (Z.ltb_spec (MaxTimeoutSeconds limits) timeout); [done|].
  destruct (Z.ltb_spec retries 0); [done|]. destruct (Z.ltb_spec (MaxRetries limits) retries); [done|]. lia.
Qed.

(** A path that a gate may name: relative, inside the workspace, of bounded
    length and without a backslash or a NUL. *)
Definition gate_path (p : string) : Prop :=
  (String.length p ≤ 128)%nat ∧ ValidPath p = true ∧ p ≠ "." ∧ has_forbidden p = false.

Lemma gate_config_ok target network artifact review format u :
  ValidateGateConfig target network artifact review format = Ok u →
  network ∈ [""; "none"; "bridge"] ∧
  (target = "agent" → network ≠ "bridge" ∧ artifact = "") ∧
  (if String.eqb artifact "" then review = "" ∧ format = ""
   else gate_path artifact ∧ gate_path review ∧ artifact ≠ review ∧ format ∈ ["summary"; "terraform"]).
Proof.
  unfold ValidateGateConfig, bad_gate_path, gate_path.
  destruct (network ∈? [""; "none"; "bridge"])%bool eqn:Hn; [|done]. apply in_list_true in Hn. cbn [negb].
  destruct (String.eqb target "agent" && _) eqn:Ha; [done|]. intros Hrest. split; [done|]. split.
  { intros ->. rewrite String.eqb_refl in Ha. cbn [andb] in Ha. apply orb_false_iff in Ha as [Hb Hc].
    apply negb_false_iff, String.eqb_eq in Hc. by apply String.eqb_neq in Hb. }
  destruct (String.eqb artifact "").
  - destruct (String.eqb_spec review ""), (String.eqb_spec format ""); by cbn in Hrest.
  - destruct (format ∈? ["summary"; "terraform"])%bool eqn:Hf;
      [|rewrite orb_true_r in Hrest; by destruct (existsb _ [artifact; review])].
    apply in_list_true in Hf. cbn [existsb] in Hrest.
    destruct (_ || (_ || false)) eqn:Hp in Hrest; [done|]. rewrite orb_false_r in Hp.
    rewrite !orb_false_iff, !Nat.ltb_ge, !negb_false_iff, !String.eqb_neq in Hp.
    destruct (String.eqb_spec artifact review); [done|]. tauto.
Qed.

(** The columns that are frozen are those of the definition, and they are
    within the limits of the server. *)
Record accepted_step (def : Definition_) (step : DeploymentStepSnapshot) : Prop := {
  ac_name : s_Name (ss_Params step) = sd_Name def;
  ac_script : s_ScriptBody (ss_Params step) = sd_ScriptBody def;
  ac_selectors : ss_Selectors step = sd_AgentSelectors def;
  ac_timeout : s_TimeoutSeconds (ss_Params step) = sd_TimeoutSeconds def ∧
    0 <= sd_TimeoutSeconds def <= MaxTimeoutSeconds limits;
  ac_retries : s_MaxRetries (ss_Params step) = sd_MaxRetries def ∧ 0 <= sd_MaxRetries def <= MaxRetries limits;
  ac_target : s_ExecutionTarget (ss_Params step) ∈ ["local"; "agent"];
  ac_kind : s_Kind (ss_Params step) = StepKind def ∧ ValidateKind def = Ok tt;
  ac_local : s_ExecutionTarget (ss_Params step) = "local" → TrimSpace (s_ContainerImage (ss_Params step)) ≠ "";
  ac_agent : s_ExecutionTarget (ss_Params step) = "agent" →
    s_NetworkMode (ss_Params step) ≠ "bridge" ∧ s_ApprovalArtifactPath (ss_Params step) = "";
  ac_gate : s_ApprovalArtifactPath (ss_Params step) ≠ "" →
    gate_path (s_ApprovalArtifactPath (ss_Params step)) ∧ gate_path (s_ApprovalReviewPath (ss_Params step)) ∧
    s_ApprovalArtifactPath (ss_Params step) ≠ s_ApprovalReviewPath (ss_Params step) }.

Lemma decode_step_accepted def step : decode_step limits false def = Ok step → accepted_step def step.
Proof.
  unfold decode_step. intros ([] & Hk & E)%result_bind_ok. apply wrap_ok in Hk. cbn [negb orb] in E.
  apply result_bind_ok in E as ([] & Hl & E). apply wrap_ok, limits_ok in Hl.
  set (target := if String.eqb (sd_ExecutionTarget def) "" then "local" else sd_ExecutionTarget def) in E.
  destruct (target ∈? ["local"; "agent"])%bool eqn:Ht; [|done]. apply in_list_true in Ht. cbn [negb] in E.
  destruct (String.eqb target "local" && _) eqn:Hi; [done|].
  apply result_bind_ok in E as (mode & _ & E). apply result_bind_ok in E as (u & Hg & E).
  injection E as <-. apply gate_config_ok in Hg as (_ & Hagent & Hgate).
  split; cbn [ss_Params ss_Selectors s_Name s_ScriptBody s_TimeoutSeconds s_MaxRetries s_ExecutionTarget s_Kind
    s_ContainerImage s_NetworkMode s_ApprovalArtifactPath s_ApprovalReviewPath]; try tauto.
  - intros Hloc. rewrite Hloc, String.eqb_refl in Hi. by apply String.eqb_neq in Hi.
  - intros Hne%String.eqb_neq. rewrite Hne in Hgate. tauto.
Qed.

(** The steps that a deployment freezes are the steps of the source, in
    order, one for one, with their names, scripts and selectors; and each of
    them is within the limits of the server: a timeout and retries in range, a
    known target, an image for a step that runs on the server, neither the
    bridged network nor an approval for a step that runs on an agent, and for
    an approval two different bounded paths inside the workspace. *)
Theorem accepted_steps raw steps :
  deploymentStepsFromRelease limits raw = Ok steps →
  ∃ defs, steps_unmarshal raw = Some defs ∧ Forall2 accepted_step defs steps.
Proof.
  unfold deploymentStepsFromRelease, decodeDeploymentSteps.
  destruct (steps_unmarshal raw) as [defs|]; [|done]. intros E. exists defs. split; [done|].
  revert steps E. induction defs as [|def defs IH]; intros steps E; cbn [map_result] in E.
  - injection E as <-. constructor.
  - apply result_bind_ok in E as (step & Hs & E). apply result_bind_ok in E as (rest & Hr & E).
    injection E as <-. constructor; [by apply decode_step_accepted|by apply IH].
Qed.
End frozen.

(** ** On a concrete store *)
#[local] Existing Instance sample_server.

Lemma plan_keys_intro s :
  map_to_list (db_steps s) = [] → dt_attempts (db_creation s) = ∅ →
  map_to_list (dt_artifacts (db_creation s)) = [] → plan_keys s.
Proof.
  intros Hs%map_to_list_empty_iff Ha Hr%map_to_list_empty_iff. split.
  - intros id i. rewrite Hs, lookup_empty. by intros [? ?].
  - intros id. rewrite Ha. set_solver.
  - intros id. rewrite Hr, lookup_empty. by intros [? ?].
Qed.

Definition sample_nonce : option bytes := Some [1; 2].
Definition deploy (release : Z) : CreateDeploymentParams :=
  mkDeploymentParams release 7 "pending" None None 0 None None None.
Definition keyed : ClaimIdempotencyParams := mkIdempotencyParams 1 1 "deploy" "key" "hash".

Lemma create_deployment_witness :
  sys_inv creation_store ∧ ∃ d s', CreateDeploymentIdempotent Configured variables_marshal
      variables_unmarshal Limits sample_nonce (deploy 1) no_idempotency creation_store = (Ok d, s') ∧
    d_ID d = 5 ∧ d_Status d = "pending" ∧ db_step_sources s' !! 5 = Some "two".
Proof.
  assert (Hinv : sys_inv creation_store) by (apply sys_invb_sound; vm_compute; reflexivity).
  split; [exact Hinv|].
  destruct (CreateDeploymentIdempotent Configured variables_marshal variables_unmarshal Limits
    sample_nonce (deploy 1) no_idempotency creation_store) as [r s'] eqn:E.
  pose proof (create_deployment sample_nonce (deploy 1) no_idempotency creation_store r s' Hinv
    (plan_keys_intro creation_store eq_refl eq_refl eq_refl) E) as (_ & _ & Hr).
  assert (Hd : d_ID <$> r = Ok 5 ∧ d_Status <$> r = Ok "pending").
  { apply (f_equal fst) in E. cbn [fst] in E. rewrite <-E. vm_compute. split; reflexivity. }
  destruct r as [d|e]; [|exfalso; destruct Hd; discriminate].
  exists d, s'. split; [reflexivity|]. destruct Hd as [Hid Hst]. injection Hid as Hid. injection Hst as Hst.
  split; [exact Hid|]. split; [exact Hst|].
  destruct Hr as (release & steps & Hrel & _ & Hdep).
  vm_compute in Hrel. injection Hrel as <-. rewrite (de_source _ _ _ _ _ _ _ _ _ _ _ _ Hdep), Hid. apply lookup_insert_eq.
Defined.

Lemma create_rollback_witness :
  plan_keys creation_store ∧ ∃ d s', CreateRollback Configured variables_marshal variables_unmarshal Limits
      sample_nonce 4 3 creation_store = (Ok d, s') ∧
    d_ReleaseID d = 1 ∧ dt_rollbacks (db_creation s') !! d_ID d = Some (mkRollback 4 3 "1.2" "1.1").
Proof.
  assert (Hk : plan_keys creation_store) by (apply plan_keys_intro; reflexivity).
  split; [exact Hk|].
  assert (Hinv : sys_inv creation_store) by (apply sys_invb_sound; vm_compute; reflexivity).
  destruct (CreateRollback Configured variables_marshal variables_unmarshal Limits sample_nonce 4 3
    creation_store) as [r s'] eqn:E.
  pose proof (create_rollback sample_nonce 4 3 creation_store r s' Hinv Hk E) as [_ Hr].
  assert (Hd : d_ReleaseID <$> r = Ok 1).
  { apply (f_equal fst) in E. cbn [fst] in E. rewrite <-E. vm_compute. reflexivity. }
  destruct r as [d|e]; [|exfalso; discriminate]. exists d, s'. split; [reflexivity|].
  injection Hd as Hd. split; [exact Hd|].
  destruct Hr as (src & tgt & old & release & p & reason & approval & steps & Hsrc & _ & Htgt & _ & Hold & Hrel & _ & _ & _ & _ & Hrb).
  vm_compute in Hsrc, Htgt. injection Hsrc as <-. injection Htgt as <-.
  vm_compute in Hold, Hrel. injection Hold as <-. injection Hrel as <-. exact Hrb.
Defined.

Definition keyed_store : DB :=
  set_access (ax_set_users {[1 := mkUser 1 "a@example.com" "" "A" 0 0 None "user"]} (db_access creation_store))
    creation_store.

(** The second request under the key creates nothing, whatever happened in between. *)
Definition between : list event :=
  [EvStartLocal 5; EvComplete 1000 5 CompletedSucceeded false true; EvClock 60; EvReconcile].

Lemma idempotent_create_witness :
  ip_KeyHash keyed ≠ "" ∧ ∃ d s', CreateDeploymentIdempotent Configured variables_marshal
      variables_unmarshal Limits sample_nonce (deploy 1) keyed keyed_store = (Ok d, s') ∧
    let later := run between s' in
    LookupIdempotency keyed later = Ok (Some "{5}", later) ∧
    ∃ e, CreateDeploymentIdempotent Configured variables_marshal variables_unmarshal Limits
      sample_nonce (deploy 2) keyed later = (Err e, (MaintainArtifactGates later).2).
Proof.
  split; [discriminate|].
  destruct (CreateDeploymentIdempotent Configured variables_marshal variables_unmarshal Limits
    sample_nonce (deploy 1) keyed keyed_store) as [r s'] eqn:E.
  assert (Hd : d_ID <$> r = Ok 5).
  { apply (f_equal fst) in E. cbn [fst] in E. rewrite <-E. vm_compute. reflexivity. }
  destruct r as [d|e]; [|exfalso; discriminate]. exists d, s'. split; [reflexivity|].
  destruct (idempotent_create sample_nonce (deploy 1) keyed keyed_store d s') as (_ & _ & Hagain);
    [discriminate|exact E|].
  destruct (Hagain between keyed eq_refl) as [Hlook Hcreate]. intros later.
  split; [|exact (Hcreate sample_nonce (deploy 2))].
  fold later in Hlook. rewrite Hlook. cbn [deployment_marshal sample_codecs server_json sample_server].
  injection Hd as ->. reflexivity.
Defined.

Lemma accepted_steps_witness :
  ∃ steps, deploymentStepsFromRelease Limits "gated" = Ok steps ∧ length steps = 2%nat ∧
    Forall2 (accepted_step Limits) [sample_definition "build" "app.tar"; sample_definition "deploy" ""] steps.
Proof.
  destruct (deploymentStepsFromRelease Limits "gated") as [steps|e] eqn:E; [|exfalso; vm_compute in E; discriminate].
  exists steps. split; [reflexivity|].
  destruct (accepted_steps Limits "gated" steps E) as (defs & Hdefs & Hall).
  vm_compute in E. injection E as <-. split; [reflexivity|].
  cbn in Hdefs. injection Hdefs as <-. exact Hall.
Defined.

(** The key that a rotation installs. *)
#[local] Instance inverted_box : Box := {
  NonceSize := 3;
  Seal := λ _ p, (λ b, 255 - b) <$> p;
  Open := λ _ c, Some ((λ b, 255 - b) <$> c) }.

Lemma inverted_box_laws : BoxLaws (H := inverted_box).
Proof.
  split; [cbn; lia| |].
  - intros nonce p _ _. cbn. f_equal. induction p as [|b p IH]; [done|]. cbn. rewrite IH. f_equal. lia.
  - intros nonce p Hp. apply Forall_fmap. eapply Forall_impl; [exact Hp|]. unfold is_byte, compose. cbn. lia.
Qed.

Definition encrypted (text : string) : option string :=
  match Encrypt (H := sample_box) sample_nonce text with Ok c => Some c | Err _ => None end.

(** Release 1 has two variables, one of them for environment 7. *)
Definition variables_store : DB :=
  set_variables (vt_set_release {[7 := mkReleaseVariable 7 1 "REGION" (encrypted "eu") None 0 0;
                                  8 := mkReleaseVariable 8 1 "TOKEN" (encrypted "t0p") (Some 7) 0 1]}
    (vt_set_release_seq 8 (db_variables creation_store))) creation_store.

Definition fresh_nonces (table : string) (id : Z) : option bytes := Some [1; 2; 3].

Definition another_region : CreateReleaseVariableParams :=
  mkReleaseVariableParams 1 "REGION" (encrypted "us") None 0.

(** The deployment starts, its release gets other variables, and the key is rotated. *)
Definition edited_store (s : DB) : DB :=
  edited (EdCreateReleaseVariable another_region)
    (edited (EdDeleteReleaseVariables 1) (perform (EvStartLocal 5) s)).
Definition rotated_store (s : DB) : DB :=
  (WithTx (rotate_tables sample_box inverted_box false fresh_nonces 0;; mret tt) s).2.

Lemma rotated_history s :
  (WithTx (rotate_tables sample_box inverted_box false fresh_nonces 0;; mret tt) (edited_store s)).1 = Ok tt →
  history true (sample_box, s) (inverted_box, rotated_store (edited_store s)).
Proof.
  intros Hrot. eapply rtc_l; [exact (pass_event true sample_server (EvStartLocal 5) s eq_refl)|].
  eapply rtc_l; [apply (pass_edit true sample_box (EdDeleteReleaseVariables 1))|].
  eapply rtc_l; [apply (pass_edit true sample_box (EdCreateReleaseVariable another_region))|]. apply rtc_once.
  eapply (pass_rotation true sample_box inverted_box false fresh_nonces 0 (mret tt)).
  - done.
  - apply inverted_box_laws.
  - intros table id nonce [= <-]. split; [done|]. repeat (apply Forall_cons; split; [unfold is_byte; lia|]). apply Forall_nil_2.
  - intros x [] y [= <-]. reflexivity.
  - rewrite <-Hrot. unfold rotated_store. apply surjective_pairing.
Qed.

Definition captured_list : list ReleaseVariable :=
  [mkReleaseVariable 1 1 "REGION" (Some "eu") None 0 0; mkReleaseVariable 2 1 "TOKEN" (Some "t0p") (Some 7) 0 1].

Lemma capture_immutable_witness :
  ∃ d s', created_by (ByRequest sample_nonce (deploy 1) no_idempotency) variables_store = (Ok d, s') ∧
    vt_release (db_variables (edited_store s')) ≠ vt_release (db_variables s') ∧
    ∀ second third last, ListDeploymentVariables (H := inverted_box) Configured variables_unmarshal
      (rotated_store (edited_store s')) second third last (d_ID d) = Ok captured_list.
Proof.
  assert (Hinv : sys_inv variables_store) by (apply sys_invb_sound; vm_compute; reflexivity).
  destruct (created_by (ByRequest sample_nonce (deploy 1) no_idempotency) variables_store) as [r s'] eqn:E.
  assert (Hs : s' = (created_by (ByRequest sample_nonce (deploy 1) no_idempotency) variables_store).2) by by rewrite E.
  assert (Hrel : d_ReleaseID <$> r = Ok 1).
  { apply (f_equal fst) in E. cbn [fst] in E. rewrite <-E. vm_compute. reflexivity. }
  destruct r as [d|e]; [|discriminate]. exists d, s'. split; [reflexivity|].
  split; [intros Hsame; rewrite Hs in Hsame; apply (f_equal (λ t, size t)) in Hsame; vm_compute in Hsame; discriminate|].
  destruct (capture_immutable (H := sample_server) (BoxLaws0 := sample_box_laws) (ByRequest sample_nonce (deploy 1) no_idempotency) variables_store d s')
    as (l & Hl & _ & _ & _ & Hreads).
  - intros l _. apply sample_json.
  - intros nonce [= <-]. split; [reflexivity|]. repeat (apply Forall_cons; split; [unfold is_byte; lia|]). apply Forall_nil_2.
  - exact Hinv.
  - apply plan_keys_intro; reflexivity.
  - exact E.
  - assert (l = captured_list) as ->.
    { injection Hrel as Hrel. unfold captured_variables in Hl. rewrite Hrel in Hl.
      apply (f_equal (λ r, fst <$> r)) in Hl. vm_compute in Hl. injection Hl as <-. reflexivity. }
    apply (Hreads ltac:(repeat constructor) inverted_box (rotated_store (edited_store s'))).
    apply (rotated_history s'). rewrite Hs. vm_compute. reflexivity.
Defined.
