(* ===== verification/GateTheorems.v ===== *)
(** * GateTheorems: bundles and decisions of artifact gates

    The theorems about artifact_gate_storage.go and artifact_gate.go: a bundle
    that was stored is read back as it was, an approval is bound to the gate
    and the bundle that were reviewed, and a rejection ends the deployment. *)
From stdpp Require Import pretty.
From S2P Require Import Prelude Text Db Tx StageQueries QueueQueries DeploymentQueue QueueSafety QueueTheorems DispatchQueries RemoteLifecycle RemoteSafety RemoteSpec RemoteRefine AccessQueries Base64 Secret Variables VariableTheorems Ansible CreationQueries GateQueries ArtifactGate DeploymentCreation System CreationSafety Runs Plans SampleServer RemoteTheorems.

(** ** The size of a stored chunk *)

(** crypto/cipher documents the overhead of GCM: 16 bytes, with a nonce of 12. *)
Class BoxOverhead `{Box} : Prop := {
  seal_overhead : ∀ nonce p, (length (Seal nonce p) ≤ length p + 1024)%nat;
  nonce_small : (NonceSize ≤ 1024)%nat }.

Lemma length_raw src : (3 * String.length (RawEncode src) ≤ 4 * length src + 4)%nat.
Proof. induction src as [| | |a b c l IH] using quantum_ind; cbn [RawEncode String.length length]; lia. Qed.

Lemma length_append a b : String.length (a +:+ b) = (String.length a + String.length b)%nat.
Proof. induction a as [|c a IH]; [done|]. change (String c a +:+ b) with (String c (a +:+ b)). cbn. by rewrite IH. Qed.

Lemma length_std src : (3 * String.length (StdEncode src) ≤ 4 * length src + 10)%nat.
Proof.
  unfold StdEncode. rewrite length_append. pose proof (length_raw src).
  assert (String.length (padding (match (length src mod 3)%nat with 1%nat => 2 | 2%nat => 1 | _ => 0 end)) ≤ 2)%nat.
  { by destruct (length src mod 3)%nat as [|[|[|]]]; cbn; lia. }
  lia.
Qed.

Lemma length_bytes_of p : length (bytes_of p) = String.length p.
Proof. unfold bytes_of. rewrite length_fmap. induction p as [|c p IH]; cbn; [done|by rewrite IH]. Qed.

Lemma length_decimal_go (k : nat) x p :
  (x < 10 ^ N.of_nat k)%N → (String.length (pretty_N_go x p) ≤ k + String.length p)%nat.
Proof.
  revert x p. induction k as [|k IH]; intros x p Hx.
  - assert (x = 0%N) as -> by (cbn in Hx; lia). by rewrite pretty_N_go_0.
  - destruct (decide (x = 0)%N) as [->|Hne]; [rewrite pretty_N_go_0; lia|].
    rewrite pretty_N_go_step by lia. etrans; [apply IH|cbn; lia].
    apply N.Div0.div_lt_upper_bound. rewrite Nat2N.inj_succ, N.pow_succ_r' in Hx. lia.
Qed.

Lemma length_decimal (z : Z) : - 2 ^ 63 <= z <= 2 ^ 63 → (String.length (pretty z) ≤ 21)%nat.
Proof.
  assert (Hn : ∀ n : N, (n ≤ 2 ^ 63)%N → (String.length (pretty n) ≤ 20)%nat).
  { intros n Hn. unfold pretty, pretty_N. destruct (decide (n = 0)%N); [cbn; lia|].
    etrans; [apply (length_decimal_go 20)|cbn; lia]. etrans; [exact (N.lt_succ_diag_r n)|]. cbn in *. lia. }
  intros Hz. destruct z as [|p|p]; cbn [pretty pretty_Z]; [cbn; lia|..].
  - etrans; [apply Hn|]; lia.
  - change (String.length ("-" +:+ pretty (N.pos p)) ≤ 21)%nat. rewrite length_append.
    specialize (Hn (N.pos p)). cbn [String.length]. lia.
Qed.

Definition int64 (z : Z) : Prop := - 2 ^ 63 <= z < 2 ^ 63.

Lemma length_prefix id step index :
  int64 id → int64 step → int64 index → (String.length (chunk_prefix id step index) ≤ 66)%nat.
Proof.
  unfold int64, chunk_prefix. intros ???. rewrite !length_append.
  pose proof (length_decimal id). pose proof (length_decimal step). pose proof (length_decimal index).
  cbn [String.length newline]. lia.
Qed.

Section bundles.
Context `{BoxLaws} `{!BoxOverhead}.

(** A chunk is encrypted to less than the limit of the reader, and decrypts to itself. *)
Lemma chunk_round_trip nonce id step index data :
  int64 id → int64 step → int64 index → Z.of_nat (String.length data) <= gateChunkSize →
  length nonce = NonceSize → Forall is_byte nonce →
  ∃ c, Encrypt (Some nonce) (chunk_prefix id step index +:+ data) = Ok c ∧
    Decrypt c = Ok (chunk_prefix id step index +:+ data) ∧
    Z.of_nat (String.length c) <= 2 * gateChunkSize.
Proof.
  intros Hi Hs Hx Hd Hlen Hb. destruct (Decrypt_Encrypt nonce (chunk_prefix id step index +:+ data))
    as (c & Henc & Hdec); [done..|]. exists c. split; [done|]. split; [done|].
  pose proof (length_prefix id step index Hi Hs Hx). revert Henc. unfold Encrypt.
  destruct (String.eqb _ ""); [intros [= <-]; cbn; lia|]. intros [= <-].
  set (text := chunk_prefix id step index +:+ data).
  pose proof (length_std (nonce ++ Seal nonce (bytes_of text))) as Hstd.
  pose proof (seal_overhead nonce (bytes_of text)) as Hseal. pose proof nonce_small as Hnonce.
  rewrite length_app in Hstd. rewrite length_bytes_of in Hseal. unfold text in Hseal at 2.
  rewrite length_append in Hseal. unfold gateChunkSize in *. lia.
Qed.

Lemma split_at_spec n p a b :
  split_at n p = Some (a, b) → p = a +:+ b ∧ String.length a = n.
Proof.
  revert p a b. induction n as [|n IH]; intros p a b; cbn [split_at]; [by intros [= <- <-]|].
  destruct p as [|c p]; [done|]. destruct (split_at n p) as [[a' b']|] eqn:E; [|done].
  intros [= <- <-]. apply IH in E as [-> <-]. done.
Qed.

(** What crypto/rand is asked for: a full nonce for every chunk. *)
Definition full_nonces (nonces : Z → option bytes) : Prop :=
  ∀ i, ∃ n, nonces i = Some n ∧ length n = NonceSize ∧ Forall is_byte n.

Lemma read_encrypted fuel nonces id step i remaining source read cts s gate :
  full_nonces nonces → int64 id → int64 step → 0 <= i → i + remaining < 2 ^ 63 →
  (Z.to_nat remaining ≤ fuel)%nat →
  encrypt_chunks fuel nonces id step i remaining source = Ok (read, cts) →
  ag_DeploymentID gate = id → ag_StepIndex gate = step →
  (∀ k c, cts !! k = Some c → gate_chunks s !! (id, step, i + Z.of_nat k) = Some c) →
  (∃ rest, source = read +:+ rest) ∧ Z.of_nat (String.length read) = Z.max 0 remaining ∧
  ∀ fuel2, (Z.to_nat remaining ≤ fuel2)%nat → read_chunks fuel2 s gate i remaining = Ok read.
Proof.
  intros Hnonces Hid Hstep. revert i remaining source read cts.
  induction fuel as [|fuel IH]; intros i remaining source read cts Hi Hlt Hfuel E Hgid Hgstep Hrows; cbn [encrypt_chunks] in E.
  { injection E as <- <-. split; [by exists source|]. split; [cbn; lia|].
    intros [|f] _; [done|]. cbn [read_chunks]. by rewrite (proj2 (Z.leb_le remaining 0)) by lia. }
  destruct (Z.leb_spec remaining 0) as [Hr|Hr].
  { injection E as <- <-. split; [by exists source|]. split; [cbn; lia|].
    intros [|f] _; [done|]. cbn [read_chunks]. by rewrite (proj2 (Z.leb_le remaining 0)) by lia. }
  set (n := Z.min gateChunkSize remaining) in E. assert (Hn : 0 < n <= gateChunkSize) by (unfold n, gateChunkSize; lia).
  destruct (split_at (Z.to_nat n) source) as [[data source']|] eqn:Hsplit; [|done].
  apply split_at_spec in Hsplit as [-> Hlen]. destruct (Hnonces i) as (nonce & Hnonce & Hnl & Hnb).
  destruct (chunk_round_trip nonce id step i data) as (c & Henc & Hdec & Hsize); try done;
    [unfold int64; lia|lia|]. rewrite Hnonce, Henc in E. cbn [mbind result_bind] in E.
  destruct (encrypt_chunks fuel nonces id step (i + 1) (remaining - n) source') as [[read' cts']|e] eqn:Erest;
    [|done]. injection E as <- <-.
  destruct (IH (i + 1) (remaining - n) source' read' cts') as ([rest Hrest] & Hlen' & Hread); try done; try lia.
  { intros k c' Hk. rewrite <-(Hrows (S k) c' Hk). do 2 f_equal. lia. }
  split; [exists rest; by rewrite Hrest, string_app_assoc|].
  split; [rewrite length_append; unfold n in *; lia|].
  intros [|fuel2] Hf2; [lia|]. cbn [read_chunks]. rewrite (proj2 (Z.leb_gt remaining 0)) by lia.
  assert (Hrow : gate_chunks s !! (id, step, i) = Some c).
  { rewrite <-(Hrows 0%nat c eq_refl). do 2 f_equal. lia. }
  unfold GetArtifactGateChunk. rewrite Hgid, Hgstep, Hrow.
  rewrite (proj2 (Z.ltb_ge (2 * gateChunkSize) (Z.of_nat (String.length c)))) by lia.
  rewrite Hdec, strip_prefix_app. fold n.
  rewrite (proj2 (Z.eqb_eq (Z.of_nat (String.length data)) n)) by lia.
  rewrite Hlen, Z2Nat.id by lia. rewrite Hread by lia. done.
Qed.

(** ** Storing the bundle *)

Definition save_chunk (id step : Z) (ic : Z * string) : Tx unit := CreateArtifactGateChunk id step ic.1 ic.2.

Lemma insert_chunks id step l s s' :
  for_each l (save_chunk id step) s = Ok (tt, s') →
  gates s' = gates s ∧ db_deployments s' = db_deployments s ∧
  (∀ k c, gate_chunks s !! k = Some c → gate_chunks s' !! k = Some c) ∧
  (∀ i c, (i, c) ∈ l → gate_chunks s' !! (id, step, i) = Some c).
Proof.
  revert s. induction l as [|[i c] l IH]; intros s; cbn [for_each].
  { intros [= <-]. split_and!; [done..|]. intros i c Hin. set_solver. }
  intros ([] & s1 & Hi & E)%bind_inv. unfold save_chunk, CreateArtifactGateChunk, insert_row in Hi. cbn [fst snd] in Hi.
  destruct (is_null _ && _) eqn:Hn; [|done]. injection Hi as <-.
  apply andb_true_iff in Hn as [Hn _]. apply IH in E as (Hg & Hd & Hk & Hl).
  split; [done|]. split; [done|]. split.
  - intros k c' Hc'. apply Hk. cbn. rewrite lookup_insert_ne; [done|]. intros <-. by rewrite Hc' in Hn.
  - intros i' c' [[= -> ->]|Hin]%elem_of_cons; [|by apply Hl]. apply Hk. apply lookup_insert_eq.
Qed.

Lemma store_bundle_rows gate cts s s' :
  store_bundle gate cts s = Ok (tt, s') →
  gates s' !! (gp_DeploymentID gate, gp_StepIndex gate) = Some (new_gate gate) ∧
  (∃ d, db_deployments s !! gp_DeploymentID gate = Some d ∧ d_Status d = "running" ∧
     db_deployments s' !! gp_DeploymentID gate = Some (d_set_Status "publishing_artifact" d)) ∧
  ∀ k c, cts !! k = Some c →
    gate_chunks s' !! (gp_DeploymentID gate, gp_StepIndex gate, Z.of_nat k) = Some c.
Proof.
  unfold store_bundle. intros (n & s1 & Hp & E)%bind_inv. apply bind_inv in E as (u & s2 & Hg & E).
  destruct (Z.eqb_spec n 1) as [->|]; [|done]. injection Hg as _ <-.
  apply update_deployment_cases in Hp as [[Hz _]|(_ & d & Hd & Hw%String.eqb_eq & ->)]; [done|].
  apply bind_inv in E as ([] & s3 & Hc & E). unfold CreateArtifactGate, insert_row in Hc.
  destruct (_ && _); [|done]. injection Hc as <-.
  apply insert_chunks in E as (Hgates & Hdep & _ & Hrows).
  split; [rewrite Hgates; apply lookup_insert_eq|]. split.
  - exists d. split; [done|]. split; [done|]. rewrite Hdep. apply lookup_insert_eq.
  - intros k c Hk. apply Hrows. apply elem_of_lookup_imap. by exists k, c.
Qed.
End bundles.

(** Commits and queue sweeps leave the gates alone. *)
Lemma env_steps_creation env s s' : rtc (env_step env) s s' → db_creation s' = db_creation s.
Proof. induction 1 as [|x y z [p Hp] _ IH]; [done|]. rewrite IH. by destruct Hp. Qed.

Lemma advance_creation env s s' :
  queue_wf s → advanceEnvironmentQueue env s = Ok (tt, s') → db_creation s' = db_creation s.
Proof.
  intros Hwf Hadv. destruct (advanceEnvironmentQueue_spec s env Hwf) as (s2 & Hs2 & Hst & _).
  assert (s2 = s') as -> by congruence. by eapply env_steps_creation.
Qed.


(** A transaction that fails is rolled back. *)
Lemma deployment_tx_err {A} id (fn : Tx A) s e s' :
  WithDeploymentTx id fn s = (Err e, s') → ∃ e0, WithDeploymentTx id fn s = (Err e0, s).
Proof.
  unfold WithDeploymentTx. destruct (GetDeployment id s) as [[d s0]|e0]; [|by eexists].
  intros E. match type of E with withQueueTx ?m s = _ =>
    destruct (m (set_pending_audit [] s)) as [[x sx]|ex] eqn:Em;
    [rewrite (withQueueTx_ok m s x sx Em) in E; done|exists ex; by rewrite (withQueueTx_err m s ex Em)] end.
Qed.

Section theorems.
Context `{Server}.
Implicit Types (s : DB).

Notation save := (SaveArtifactGate Configured sha256_hex ArchiveBytes).
Notation write_bundle := (WriteArtifactGateBundle Configured sha256_hex ArchiveBytes).
Notation approve := (ApproveArtifact Configured sha256_hex ArchiveBytes).

Lemma store_bundle_wf gate cts : respects shrinks (store_bundle gate cts).
Proof.
  assert (respects shrinks (PublishArtifactGateDeployment (gp_DeploymentID gate))).
  { apply shrinks_update_deployment. intros s d Hd Hw%String.eqb_eq. split; [done|]. intros _.
    apply is_blocker_on. by rewrite Hw. }
  unfold store_bundle. respects.
Qed.

(** C25: what the runner stores as the bundle of a gate is what the reviewer
    reads. When the bundle is accepted, exactly the announced number of bytes
    of its file was stored, they have the announced checksum, the deployment
    stops running and publishes, the gate awaits its decision, and as long as
    the chunks are there reading the bundle gives back those bytes. *)
Theorem bundle_round_trip `{!BoxLaws} `{!BoxOverhead} nonces gate source s s' :
  sys_inv s → full_nonces nonces →
  int64 (gp_DeploymentID gate) → int64 (gp_StepIndex gate) → int64 (gp_BundleSize gate) →
  save nonces gate source s = (Ok tt, s') →
  gates s' !! (gp_DeploymentID gate, gp_StepIndex gate) = Some (new_gate gate) ∧
  (∃ d, db_deployments s !! gp_DeploymentID gate = Some d ∧ d_Status d = "running" ∧
     db_deployments s' !! gp_DeploymentID gate = Some (d_set_Status "publishing_artifact" d)) ∧
  ∃ data rest, source = data +:+ rest ∧ Z.of_nat (String.length data) = gp_BundleSize gate ∧
    sha256_hex data = gp_BundleSha256 gate ∧
    ∀ s2, (∀ i, gate_chunks s2 !! (gp_DeploymentID gate, gp_StepIndex gate, i)
              = gate_chunks s' !! (gp_DeploymentID gate, gp_StepIndex gate, i)) →
      write_bundle (new_gate gate) s2 = Ok (data, s2).
Proof.
  intros Hinv Hnonces Hid Hstep Hsize. unfold SaveArtifactGate.
  destruct (validateArtifactGateBundleSize Configured ArchiveBytes (gp_BundleSize gate)) as [[]|e] eqn:Hval;
    [|done]. cbn [mbind result_bind].
  destruct (encrypt_chunks _ _ _ _ _ _ _) as [[read cts]|e] eqn:Henc; [|done].
  cbn [mbind result_bind].
  destruct (String.eqb_spec (sha256_hex read) (gp_BundleSha256 gate)) as [Hsha|]; [|done].
  intros E. apply WithDeploymentTx_inv in E as (d0 & s1 & s2 & Hd0 & Hbody & Hadv & ->).
  assert (Hwf1 : queue_wf s1).
  { pose proof (store_bundle_wf gate cts _ _ _ Hbody) as Hsh. apply shrinks_keeps in Hsh.
    apply Hsh, (si_queue _ (sys_begin s Hinv)). }
  pose proof (advance_creation _ _ _ Hwf1 Hadv) as Hcr.
  apply store_bundle_rows in Hbody as (Hg & (d & Hd & Hr & Hd1) & Hrows).
  assert (Hpos : 0 < gp_BundleSize gate).
  { unfold validateArtifactGateBundleSize in Hval. destruct Configured; [|done]. cbn in Hval.
    destruct (Z.leb_spec (gp_BundleSize gate) 0); [done|lia]. }
  split; [unfold gates in *; cbn; by rewrite Hcr|]. split.
  { exists d. split; [done|]. split; [done|].
    destruct (advanceEnvironmentQueue_spec s1 (d_EnvironmentID d0) Hwf1) as (sx & Hsx & Hst & _).
    assert (sx = s2) as -> by congruence. change (db_deployments (committed s2)) with (db_deployments s2).
    destruct (env_steps_row _ _ _ (gp_DeploymentID gate) Hst) as [->|(dq & Hdq & Hq & _)]; [exact Hd1|].
    simplify_eq. }
  assert (Hread : ∀ s3, (∀ i, gate_chunks s3 !! (gp_DeploymentID gate, gp_StepIndex gate, i)
      = gate_chunks s1 !! (gp_DeploymentID gate, gp_StepIndex gate, i)) →
    (∃ rest, source = read +:+ rest) ∧ Z.of_nat (String.length read) = Z.max 0 (gp_BundleSize gate) ∧
    ∀ fuel2, (Z.to_nat (gp_BundleSize gate) ≤ fuel2)%nat →
      read_chunks fuel2 s3 (new_gate gate) 0 (gp_BundleSize gate) = Ok read).
  { intros s3 Hchunks. apply (read_encrypted (Z.to_nat (gp_BundleSize gate)) nonces
      (gp_DeploymentID gate) (gp_StepIndex gate) 0 (gp_BundleSize gate) source read cts); try done.
    - unfold int64 in Hsize. lia.
    - intros k c Hk. rewrite Hchunks, Z.add_0_l. by apply Hrows. }
  destruct (Hread s1) as ([rest Hsrc] & Hlen & _); [done|].
  exists read, rest. split; [done|]. split; [lia|]. split; [done|]. intros s3 Hchunks.
  unfold WriteArtifactGateBundle. cbn [ag_BundleSize new_gate ag_BundleSha256]. rewrite Hval. cbn [mbind result_bind].
  destruct (Hread s3) as (_ & _ & Hr3).
  { intros i. rewrite Hchunks. unfold gate_chunks. cbn. by rewrite Hcr. }
  rewrite Hr3 by done. cbn [mbind result_bind]. by rewrite (proj2 (String.eqb_eq _ _) Hsha).
Qed.

(** ** Approval *)

(** The decision finds the gate as it was reviewed. *)
Definition approves s (verified : ArtifactGate) (revision : Z) (checksum : string) (gate : ArtifactGate) : Prop :=
  ag_Status gate = "awaiting" ∧ ag_Revision gate = revision ∧ ag_ArtifactSha256 gate = checksum ∧
  db_now s < ag_ExpiresAt gate ∧ ag_BundleSha256 gate = ag_BundleSha256 verified ∧
  ag_BundleSize gate = ag_BundleSize verified.

Lemma gate_open_true now revision checksum gate :
  gate_open now revision checksum gate = true ↔
  ag_Status gate = "awaiting" ∧ ag_Revision gate = revision ∧ ag_ArtifactSha256 gate = checksum ∧
  now < ag_ExpiresAt gate.
Proof.
  unfold gate_open. rewrite negb_true_iff, !orb_false_iff, !negb_false_iff, !String.eqb_eq, Z.eqb_eq, Z.leb_gt. tauto.
Qed.

Definition approved (user now : Z) (gate : ArtifactGate) : ArtifactGate :=
  ag_set_Status "approved" (ag_set_ApprovedBy (Some user) (ag_set_ApprovedAt (Some now) gate)).

Lemma gate_found id step s gate s' :
  gate_or_unavailable id step s = Ok (gate, s') → s' = s ∧ gates s !! (id, step) = Some gate.
Proof.
  unfold gate_or_unavailable, GetArtifactGate. destruct (gates s !! (id, step)); [|done]. by intros [= <- <-].
Qed.

(** The two statements of an approval, when its checks have passed. *)
Lemma approve_tail id step revision user checksum s d gate :
  db_deployments s !! id = Some d → d_Status d = "awaiting_artifact_approval" →
  gates s !! (id, step) = Some gate → ag_Status gate = "awaiting" → ag_Revision gate = revision →
  ag_ArtifactSha256 gate = checksum → db_now s < ag_ExpiresAt gate →
  (n ← ApproveArtifactGate id step revision checksum (db_now s) (Some user) (Some (db_now s));
   guard (Z.eqb n 1) ErrArtifactGate;;
   n ← ResumeArtifactGateDeployment id;
   guard (Z.eqb n 1) ErrArtifactGate : Tx unit) s
  = Ok (tt, set_deployments (<[id := d_set_Status "pending" d]> (db_deployments s))
              (set_gates (<[(id, step) := approved user (db_now s) gate]> (gates s)) s)).
Proof.
  intros Hd Hst Hgate H1' <- <- H4'.
  set (s1 := set_gates (<[(id, step) := approved user (db_now s) gate]> (gates s)) s).
  rewrite (bind_ok _ _ s 1 s1).
  2: { unfold ApproveArtifactGate, update_pk. rewrite Hgate, H1', (proj2 (Z.ltb_lt _ _) H4').
       by rewrite !String.eqb_refl, Z.eqb_refl. }
  rewrite (bind_ok _ _ s1 tt s1) by done.
  rewrite (bind_ok _ _ s1 1 (set_deployments (<[id := d_set_Status "pending" d]> (db_deployments s)) s1)); [done|].
  unfold ResumeArtifactGateDeployment, update_deployment, update_pk.
  change (db_deployments s1) with (db_deployments s). by rewrite Hd, Hst.
Qed.

Lemma approve_inv verified id step revision user checksum s s' :
  approveArtifact verified id step revision user checksum s = Ok (tt, s') →
  ∃ d gate, db_deployments s !! id = Some d ∧ d_Status d = "awaiting_artifact_approval" ∧
    gates s !! (id, step) = Some gate ∧ approves s verified revision checksum gate ∧
    s' = set_deployments (<[id := d_set_Status "pending" d]> (db_deployments s))
           (set_gates (<[(id, step) := approved user (db_now s) gate]> (gates s)) s).
Proof.
  unfold approveArtifact. intros E. read_next E. apply bind_inv in E as (d & s1 & Hd & E).
  unfold GetDeployment in Hd. destruct (db_deployments s !! id) as [d0|] eqn:Hrow; [|done].
  injection Hd as <- <-. apply bind_inv in E as (u & s1 & Hg & E).
  destruct (String.eqb_spec (d_Status d0) "awaiting_artifact_approval") as [Hst|]; [|done]. injection Hg as _ <-.
  apply bind_inv in E as (gate & s1 & Hgate & E). apply gate_found in Hgate as [-> Hgate].
  apply bind_inv in E as (now & s1 & [= <- <-] & E). apply bind_inv in E as (u1 & s1 & Hg & E).
  destruct (_ && _ && _) eqn:Hok in Hg; [|done]. injection Hg as _ <-.
  rewrite !andb_true_iff, String.eqb_eq, Z.eqb_eq, gate_open_true in Hok.
  destruct Hok as [[(H1' & H2' & H3' & H4') H5'] H6'].
  exists d0, gate. split_and!; try done. rewrite (approve_tail id step revision user checksum s d0 gate) in E by done. by injection E as <-.
Qed.

Lemma approve_ok verified id step revision user checksum s d gate :
  db_deployments s !! id = Some d → d_Status d = "awaiting_artifact_approval" →
  gates s !! (id, step) = Some gate → approves s verified revision checksum gate →
  ∃ s', approveArtifact verified id step revision user checksum s = Ok (tt, s').
Proof.
  intros Hd Hst Hgate (H1' & H2' & H3' & H4' & H5' & H6'). eexists. unfold approveArtifact.
  rewrite (bind_ok (LockArtifactGateDeployment id) _ s (count (has_deployment s id)) s) by done.
  rewrite (bind_ok (GetDeployment id) _ s d s) by (unfold GetDeployment; by rewrite Hd).
  rewrite (bind_ok _ _ s tt s) by (by rewrite Hst).
  rewrite (bind_ok (gate_or_unavailable id step) _ s gate s)
    by (unfold gate_or_unavailable, GetArtifactGate; by rewrite Hgate).
  rewrite (bind_ok CurrentUnixTime _ s (db_now s) s) by done.
  rewrite (bind_ok _ _ s tt s).
  2: { rewrite (proj2 (gate_open_true _ _ _ _)) by done. by rewrite H5', H6', String.eqb_refl, Z.eqb_refl. }
  by apply approve_tail with (d := d) (gate := gate).
Qed.

Lemma approve_wf verified id step revision user checksum :
  respects sys_step (approveArtifact verified id step revision user checksum).
Proof. unfold approveArtifact. respects. Qed.

(** The gate and the bundle that the reviewer decides on, as they were when the
    decision was checked. *)
Definition reviewed before (id step revision : Z) (checksum : string) (verified : ArtifactGate) : Prop :=
  gates before !! (id, step) = Some verified ∧ ag_Status verified = "awaiting" ∧
  ag_Revision verified = revision ∧ ag_ArtifactSha256 verified = checksum ∧
  db_now before < ag_ExpiresAt verified ∧ ∃ data, write_bundle verified before = Ok (data, before).

Lemma write_bundle_reads verified s data s' : write_bundle verified s = Ok (data, s') → s' = s.
Proof.
  unfold WriteArtifactGateBundle. match goal with |- match ?r with _ => _ end = _ → _ => destruct r end; [|done].
  by intros [= _ <-].
Qed.

Lemma review_iff before id step revision user checksum s :
  (∃ verified, reviewed before id step revision checksum verified ∧
     approve before id step revision user checksum s =
       WithDeploymentTx id (approveArtifact verified id step revision user checksum) s) ∨
  (∀ verified, ¬ reviewed before id step revision checksum verified) ∧
  ∃ e, approve before id step revision user checksum s = (Err e, s).
Proof.
  unfold ApproveArtifact, gate_or_unavailable, GetArtifactGate, reviewed, mbind, tx_bind, guard.
  destruct (gates before !! (id, step)) as [verified|] eqn:Hg.
  2: { right. split; [by intros v (? & _)|by eexists]. }
  destruct (String.eqb_spec (ag_Status verified) "awaiting") as [H1'|H1']; cbn [negb orb].
  2: { right. split; [by intros v ([= <-] & ? & _)|by eexists]. }
  destruct (Z.eqb_spec (ag_Revision verified) revision) as [H2'|H2']; cbn [negb orb].
  2: { right. split; [by intros v ([= <-] & _ & ? & _)|by eexists]. }
  destruct (String.eqb_spec (ag_ArtifactSha256 verified) checksum) as [H3'|H3']; cbn [negb orb].
  2: { right. split; [by intros v ([= <-] & _ & _ & ? & _)|by eexists]. }
  unfold CurrentUnixTime, read, mret, tx_ret.
  destruct (Z.leb_spec (ag_ExpiresAt verified) (db_now before)) as [H4'|H4']; cbn [negb].
  { right. split; [intros v ([= <-] & _ & _ & _ & ? & _); lia|by eexists]. }
  destruct (write_bundle verified before) as [[data s1]|e] eqn:Hw.
  - pose proof (write_bundle_reads _ _ _ _ Hw) as ->. left. exists verified. split; [|done]. eauto 10.
  - right. split; [intros v ([= <-] & _ & _ & _ & _ & data & ?); congruence|by eexists].
Qed.

(** C26: an artifact is approved exactly when the gate that the reviewer saw
    (its revision, its artifact's checksum and a bundle that was read back
    whole) is the gate that is there when the decision is made, still awaiting
    and not expired, and its deployment awaits the decision. The approval is
    recorded with who and when, the deployment resumes, and no other gate
    changes. A refused approval changes nothing. *)
Theorem approve_artifact before id step revision user checksum s r s' :
  sys_inv s → approve before id step revision user checksum s = (r, s') →
  (r = Ok tt ↔
   ∃ d gate verified, db_deployments s !! id = Some d ∧ d_Status d = "awaiting_artifact_approval" ∧
     gates s !! (id, step) = Some gate ∧ reviewed before id step revision checksum verified ∧
     approves s verified revision checksum gate) ∧
  match r with
  | Ok _ => ∃ d gate, db_deployments s !! id = Some d ∧ gates s !! (id, step) = Some gate ∧
      db_deployments s' !! id = Some (d_set_Status "pending" d) ∧
      gates s' = <[(id, step) := approved user (db_now s) gate]> (gates s)
  | Err _ => s' = s
  end.
Proof.
  intros Hinv E. destruct (review_iff before id step revision user checksum s) as
    [(verified & Hrev & Ha)|[Hno (e & He)]].
  2: { rewrite He in E. injection E as <- <-. split; [|done]. split; [done|].
       intros (d & gate & verified & _ & _ & _ & Hr & _). by destruct (Hno verified). }
  rewrite Ha in E. clear Ha. destruct r as [[]|e].
  - apply WithDeploymentTx_inv in E as (d0 & s1 & s2 & Hd0 & Hbody & Hadv & ->).
    pose proof (approve_wf _ _ _ _ _ _ _ _ _ Hbody (sys_begin s Hinv)) as [Hinv1 _].
    apply approve_inv in Hbody as (d & gate & Hd & Hst & Hg & Hap & Hs1).
    split; [split; [|done]; intros _; by exists d, gate, verified|].
    exists d, gate. split; [done|]. split; [done|]. split.
    + destruct (advanceEnvironmentQueue_spec s1 (d_EnvironmentID d0)) as (sx & Hsx & Hstep & _); [apply Hinv1|].
      assert (sx = s2) as -> by congruence. change (db_deployments (committed s2)) with (db_deployments s2).
      assert (Hd1 : db_deployments s1 !! id = Some (d_set_Status "pending" d))
        by (rewrite Hs1; apply lookup_insert_eq).
      destruct (env_steps_row _ _ _ id Hstep) as [->|(dq & Hdq & Hq & _)]; [done|]. rewrite Hd1 in Hdq.
      by injection Hdq as <-.
    + pose proof (advance_creation _ _ _ (proj1 (si_queue _ Hinv1)) Hadv) as Hcr.
      unfold gates in *. change (db_creation (committed s2)) with (db_creation s2). by rewrite Hcr, Hs1.
  - assert (Hfn : ∃ e0, WithDeploymentTx id (approveArtifact verified id step revision user checksum) s = (Err e0, s))
      by (by apply deployment_tx_err with (e := e) (s' := s')).
    destruct Hfn as [e0 He0]. rewrite He0 in E. injection E as <- <-. split; [|done].
    split; [done|]. intros (d & gate & v & Hd & Hst & Hg & Hv & Hap). exfalso.
    assert (v = verified) as -> by (destruct Hv as (Hv & _), Hrev as (Hr & _); congruence).
    destruct (approve_ok verified id step revision user checksum (set_pending_audit [] s) d gate)
      as [s1 Hs1]; [done..|].
    pose proof (approve_wf _ _ _ _ _ _ _ _ _ Hs1 (sys_begin s Hinv)) as [Hinv1 _].
    destruct (WithDeploymentTx_ok _ s id d tt s1 Hd Hs1 (proj1 (si_queue _ Hinv1))) as (s2 & Hs2 & _).
    congruence.
Qed.

(** ** Rejection *)

Definition rejected (now : Z) (d : Deployment) : Deployment :=
  d_set_Status "rejected" (d_set_StartedAt None (d_set_FinishedAt (Some now) d)).

Definition finished_gates s (id : Z) (status : string) : gmap (Z * Z) ArtifactGate :=
  (update_where (gates s) (λ g, Z.eqb (ag_DeploymentID g) id && String.eqb (ag_Status g) "awaiting")
     (ag_set_Status status)).1.

(** The state that a rejection of [d] leaves, before the queue moves on. *)
Definition after_rejection s (id : Z) (d : Deployment) : DB :=
  match ReconcileTerminalVerifications
    (set_deployments (<[id := rejected (db_now s) d]> (db_deployments s)) (set_gates (finished_gates s id "rejected") s)) with
  | Ok (_, s') => s'
  | Err _ => s
  end.

(** What the reviewer rejects: a gate that awaits the decision and has not expired. *)
Definition rejectable s (id step revision : Z) (checksum : string) d gate : Prop :=
  db_deployments s !! id = Some d ∧ d_Status d = "awaiting_artifact_approval" ∧
  gates s !! (id, step) = Some gate ∧ gate_open (db_now s) revision checksum gate = true.

Lemma reject_body_ok id step revision checksum s d gate :
  rejectable s id step revision checksum d gate →
  reject_body id "rejected" (reject_check id step revision checksum) s = Ok (tt, after_rejection s id d).
Proof.
  intros (Hd & Hst & Hg & Ho). unfold reject_body.
  rewrite (bind_ok (LockArtifactGateDeployment id) _ s (count (has_deployment s id)) s) by done.
  rewrite (bind_ok (GetDeployment id) _ s d s) by (unfold GetDeployment; by rewrite Hd).
  rewrite (bind_ok _ _ s tt s) by (by rewrite Hst).
  rewrite (bind_ok (reject_check id step revision checksum) _ s tt s).
  2: { unfold reject_check.
       rewrite (bind_ok (gate_or_unavailable id step) _ s gate s)
         by (unfold gate_or_unavailable, GetArtifactGate; by rewrite Hg).
       rewrite (bind_ok CurrentUnixTime _ s (db_now s) s) by done. by rewrite Ho. }
  rewrite (bind_ok CurrentUnixTime _ s (db_now s) s) by done.
  rewrite (bind_ok (FinishArtifactGates id "rejected") _ s tt (set_gates (finished_gates s id "rejected") s)) by done.
  erewrite bind_ok; [unfold after_rejection; done|].
  unfold UpdateDeploymentStatus. erewrite bind_ok; [done|].
  unfold update_deployment, update_pk. cbn [db_deployments set_gates update_creation set_creation]. by rewrite Hd.
Qed.

Lemma reject_body_inv id step revision checksum s s' :
  reject_body id "rejected" (reject_check id step revision checksum) s = Ok (tt, s') →
  ∃ d gate, rejectable s id step revision checksum d gate.
Proof.
  unfold reject_body. intros E. read_next E. apply bind_inv in E as (d & s1 & Hd & E).
  unfold GetDeployment in Hd. destruct (db_deployments s !! id) as [d0|] eqn:Hrow; [|done].
  injection Hd as <- <-. apply bind_inv in E as (u & s1 & Hg & E).
  destruct (String.eqb_spec (d_Status d0) "awaiting_artifact_approval") as [Hst|]; [|done]. injection Hg as _ <-.
  apply bind_inv in E as ([] & s1 & Hc & _). unfold reject_check in Hc.
  apply bind_inv in Hc as (gate & s2 & Hgate & Hc). apply gate_found in Hgate as [-> Hgate].
  apply bind_inv in Hc as (now & s2 & [= <- <-] & Hc). exists d0, gate.
  destruct (gate_open (db_now s) revision checksum gate) eqn:Ho; [done|done].
Qed.

(** An artifact is rejected exactly when its deployment awaits the
    decision and the gate is the one that was reviewed, awaiting and not
    expired. The deployment is then rejected and finished now, without the
    time at which it was started; every gate of it that awaits is rejected;
    and no scope of its environment is left idle while work waits. A refused
    rejection changes nothing. *)
Theorem reject_artifact id step revision checksum s r s' :
  sys_inv s → RejectArtifactGate id step revision checksum s = (r, s') →
  (r = Ok tt ↔ ∃ d gate, rejectable s id step revision checksum d gate) ∧
  match r with
  | Ok _ => ∃ d, db_deployments s !! id = Some d ∧
      db_deployments s' !! id = Some (rejected (db_now s) d) ∧
      gates s' = finished_gates s id "rejected" ∧ sys_inv s' ∧
      ∀ p, settled s' (p, d_EnvironmentID d)
  | Err _ => s' = s
  end.
Proof.
  intros Hinv E. assert (Hsys : sys_inv s').
  { pose proof (perform_step (EvRejectArtifactGate id step revision checksum) s (λ _, eq_refl) Hinv) as [Hs _].
    cbn [perform] in Hs. by rewrite E in Hs. }
  change (RejectArtifactGate id step revision checksum s) with
    (WithDeploymentTx id (reject_body id "rejected" (reject_check id step revision checksum)) s) in E.
  destruct r as [[]|e].
  - apply WithDeploymentTx_inv in E as (d0 & s1 & s2 & Hd0 & Hbody & Hadv & ->).
    pose proof (reject_body_inv _ _ _ _ _ _ Hbody) as (d & gate & Hrej).
    rewrite (reject_body_ok _ _ _ _ _ d gate Hrej) in Hbody. injection Hbody as Hs1.
    destruct Hrej as (Hd & Hrej). assert (d0 = d) as -> by (cbn in Hd; congruence).
    split; [split; [intros _; by exists d, gate|done]|]. exists d. split; [done|].
    assert (Hd1 : db_deployments s1 !! id = Some (rejected (db_now s) d))
      by (rewrite <-Hs1; apply lookup_insert_eq).
    assert (Hwf1 : queue_wf s1).
    { assert (reject_body id "rejected" (reject_check id step revision checksum) (set_pending_audit [] s)
        = Ok (tt, s1)) as Hb by (rewrite <-Hs1; eapply reject_body_ok; by split).
      apply (sys_reject (full := true)) in Hb; [|unfold reject_check; respects]. apply Hb, sys_begin, Hinv. }
    destruct (advanceEnvironmentQueue_spec s1 (d_EnvironmentID d) Hwf1) as (sx & Hsx & Hstep & Hstable).
    assert (sx = s2) as -> by congruence. split; [|split; [|split; [done|]]].
    + change (db_deployments (committed s2)) with (db_deployments s2).
      destruct (env_steps_row _ _ _ id Hstep) as [->|(dq & Hdq & Hq & _)]; [done|].
      rewrite Hd1 in Hdq. by injection Hdq as <-.
    + unfold gates. change (db_creation (committed s2)) with (db_creation s2).
      by rewrite (env_steps_creation _ _ _ Hstep), <-Hs1.
    + intros p. apply stable_settled; [apply Hsys|]. eapply stable_ext; [apply committed_same|apply Hstable].
  - destruct (deployment_tx_err _ _ _ _ _ E) as [e0 He0]. rewrite He0 in E. injection E as <- <-.
    split; [|done]. split; [done|]. intros (d & gate & Hrej). exfalso.
    pose proof (reject_body_ok id step revision checksum (set_pending_audit [] s) d gate Hrej) as Hb.
    pose proof Hb as Hs. apply (sys_reject (full := true)) in Hs; [|unfold reject_check; respects].
    pose proof (si_wf _ (proj1 (Hs (sys_begin s Hinv)))) as Hwf.
    destruct (WithDeploymentTx_ok _ s id d tt _ (proj1 Hrej) Hb Hwf) as (s2 & Hs2 & _). congruence.
Qed.
End theorems.

(** ** On a concrete store: deployment 5 of the gated release *)
#[local] Existing Instance sample_server.
#[local] Instance sample_server_laws : @BoxLaws server_box := sample_box_laws.

#[local] Instance sample_overhead : @BoxOverhead server_box.
Proof. split; cbn; lia. Qed.

Definition gated_deployment (status : string) : Deployment :=
  mkDeployment 5 3 7 status (Some 900) None 900 0 None None "deployment" None None (Some "production") (Some 0).

Definition gated_store (status : string) : DB :=
  set_gate_runs {[5 := mkGateRun 1 1]}
    (set_deployments (<[5 := gated_deployment status]> (db_deployments creation_store)) creation_store).

Definition sample_params : CreateArtifactGateParams :=
  mkGateParams 5 0 "app.tar" "sum" "6" 6 "review" 1000 2000.

Definition sample_nonces : Z → option bytes := λ _, Some [1; 2].

Lemma sample_full_nonces : full_nonces sample_nonces.
Proof. intros i. exists [1; 2]. split; [done|]. split; [done|]. repeat constructor; unfold is_byte; lia. Qed.

(** The store that waits for a decision. *)
Definition awaiting_store : DB :=
  (PauseArtifactGate 5 1 (SaveArtifactGate Configured sha256_hex ArchiveBytes sample_nonces sample_params
     "bundle and more" (gated_store "running")).2).2.

Lemma bundle_round_trip_witness :
  full_nonces sample_nonces ∧ ∃ s', SaveArtifactGate Configured sha256_hex ArchiveBytes sample_nonces
      sample_params "bundle and more" (gated_store "running") = (Ok tt, s') ∧
    WriteArtifactGateBundle Configured sha256_hex ArchiveBytes (new_gate sample_params) s' = Ok ("bundle", s').
Proof.
  split; [exact sample_full_nonces|].
  assert (Hinv : sys_inv (gated_store "running")) by (apply sys_invb_sound; vm_compute; reflexivity).
  destruct (SaveArtifactGate Configured sha256_hex ArchiveBytes sample_nonces sample_params
    "bundle and more" (gated_store "running")) as [r s'] eqn:E.
  assert (Hr : r = Ok tt).
  { apply (f_equal fst) in E. cbn [fst] in E. rewrite <-E. vm_compute. reflexivity. }
  subst r. exists s'. split; [reflexivity|].
  destruct (bundle_round_trip sample_nonces sample_params "bundle and more" (gated_store "running") s')
    as (_ & _ & data & rest & Hsrc & Hlen & _ & Hread);
    [exact Hinv|exact sample_full_nonces|unfold int64; cbn; lia..|exact E|].
  rewrite (Hread s') by reflexivity. repeat f_equal.
  destruct data as [|c1 [|c2 [|c3 [|c4 [|c5 [|c6 [|c7 data]]]]]]]; cbn in Hlen; try (exfalso; lia).
  cbn in Hsrc. injection Hsrc as <- <- <- <- <- <- _. reflexivity.
Defined.

Lemma approve_artifact_witness :
  sys_inv awaiting_store ∧ ∃ s', ApproveArtifact Configured sha256_hex ArchiveBytes awaiting_store 5 0 1 9 "sum"
      awaiting_store = (Ok tt, s') ∧
    ∃ d, db_deployments s' !! 5 = Some (d_set_Status "pending" d).
Proof.
  assert (Hinv : sys_inv awaiting_store) by (apply sys_invb_sound; vm_compute; reflexivity).
  split; [exact Hinv|].
  destruct (ApproveArtifact Configured sha256_hex ArchiveBytes awaiting_store 5 0 1 9 "sum" awaiting_store)
    as [r s'] eqn:E.
  assert (Hr : r = Ok tt).
  { apply (f_equal fst) in E. cbn [fst] in E. rewrite <-E. vm_compute. reflexivity. }
  subst r. exists s'. split; [reflexivity|].
  destruct (approve_artifact awaiting_store 5 0 1 9 "sum" awaiting_store (Ok tt) s' Hinv E)
    as [_ (d & gate & _ & _ & Hd & _)]. exists d. exact Hd.
Defined.

Lemma reject_artifact_witness :
  sys_inv awaiting_store ∧ ∃ s', RejectArtifactGate 5 0 1 "sum" awaiting_store = (Ok tt, s') ∧
    ∃ d, db_deployments awaiting_store !! 5 = Some d ∧ d_StartedAt d = Some 900 ∧
      db_deployments s' !! 5 = Some (rejected 1000 d).
Proof.
  assert (Hinv : sys_inv awaiting_store) by (apply sys_invb_sound; vm_compute; reflexivity).
  split; [exact Hinv|].
  destruct (RejectArtifactGate 5 0 1 "sum" awaiting_store) as [r s'] eqn:E.
  assert (Hr : r = Ok tt).
  { apply (f_equal fst) in E. cbn [fst] in E. rewrite <-E. vm_compute. reflexivity. }
  subst r. exists s'. split; [reflexivity|].
  destruct (reject_artifact 5 0 1 "sum" awaiting_store (Ok tt) s' Hinv E) as [_ (d & Hd & Hd' & _)].
  exists d. split; [exact Hd|]. split; [|exact Hd']. vm_compute in Hd. injection Hd as <-. reflexivity.
Defined.
