(* ===== verification/Access.v ===== *)
(** * Access: who may do what (internal/auth)

    The request context carries the user, the browser session, the API token,
    and what the project middleware adds: the project and the membership role.
    A middleware either answers the request ([Deny]) or serves it to the next
    handler with its own context ([Serve]). *)
From stdpp Require Import pretty.
From S2P Require Import Prelude Text Db Tx QueueQueries DispatchQueries Roles AccessQueries.

(** ** The request and its context *)

(** repository.TokenScope; [None] is the nil slice. *)
Record TokenScope := mkTokenScope {
  Scope : string;
  Role : string;
  ProjectIDs : option (list Z) }.

Record TokenAccess := mkTokenAccess {
  ta_ID : string;
  ta_ProjectID : Z;
  ta_Scope : TokenScope }.

Record Request := mkRequest {
  rq_Method : string;
  rq_Path : string;
  rq_Header : gmap string string;
  rq_Cookie : option string;        (* the cookie named session *)
  rq_CsrfForm : string;             (* PostFormValue("csrf_token") *)
  rq_URLParam : string;             (* chi.URLParam(r, "id") *)
  rq_User : option User;
  rq_Session : option Session;
  rq_Token : option TokenAccess;
  rq_ProjectID : option Z;          (* under ProjectAccessKey *)
  rq_ProjectRole : option string    (* under projectRoleKey *) }.

#[export] Instance Request_eta : Eta Request := λ r,
  mkRequest (rq_Method r) (rq_Path r) (rq_Header r) (rq_Cookie r) (rq_CsrfForm r)
    (rq_URLParam r) (rq_User r) (rq_Session r) (rq_Token r) (rq_ProjectID r) (rq_ProjectRole r).

Definition rq_set_User : option User → Request → Request := ltac:(set_field rq_User).
Definition rq_set_Session : option Session → Request → Request := ltac:(set_field rq_Session).
Definition rq_set_Token : option TokenAccess → Request → Request := ltac:(set_field rq_Token).
Definition rq_set_ProjectID : option Z → Request → Request := ltac:(set_field rq_ProjectID).
Definition rq_set_ProjectRole : option string → Request → Request := ltac:(set_field rq_ProjectRole).

Definition Get (r : Request) (name : string) : string := default "" (rq_Header r !! name).

Definition SetUser (r : Request) (user : User) : Request := rq_set_User (Some user) r.

Definition is_api (r : Request) : bool := String.prefix "/api/v1/" (rq_Path r).

Definition write_methods : list string := ["POST"; "PUT"; "PATCH"; "DELETE"].

(** ** Effective roles *)

Definition token_role_allows (token : option TokenAccess) (role : string) : bool :=
  match token with
  | None => true
  | Some t =>
      String.eqb (Scope (ta_Scope t)) "global" && String.eqb (Role (ta_Scope t)) ""
      || AtLeast (Role (ta_Scope t)) role
  end.

Definition tokenRoleAllows (r : Request) (role : string) : bool := token_role_allows (rq_Token r) role.

Definition RoleFromContext (r : Request) : string :=
  match rq_User r with
  | Some u =>
      match rq_Token r with
      | Some t => if negb (tokenRoleAllows r (u_Role u)) then Role (ta_Scope t) else u_Role u
      | None => u_Role u
      end
  | None => ""
  end.

Definition ProjectRoleFromContext (r : Request) : string :=
  let role := RoleFromContext r in
  match rq_ProjectRole r with
  | Some member => if bool_decide (Rank member < Rank role) then member else role
  | None => role
  end.

Definition MembershipRoleFromContext (r : Request) : string := default "" (rq_ProjectRole r).

Definition CanAuthor (r : Request) : bool := AtLeast (ProjectRoleFromContext r) "maintainer".
Definition CanDeploy (r : Request) : bool := AtLeast (ProjectRoleFromContext r) "deployer".

Definition ScopedTokenID (r : Request) : string :=
  match rq_Token r with
  | Some t => if String.eqb (Scope (ta_Scope t)) "scoped" then ta_ID t else ""
  | None => ""
  end.

(** [slices.Contains] on a slice that may be nil. *)
Definition slice_contains (l : option (list Z)) (x : Z) : bool := bool_decide (x ∈ default [] l).

Definition TokenAllowsProject (r : Request) (project : Z) : bool :=
  match rq_Token r with
  | None => true
  | Some t =>
      String.eqb (Scope (ta_Scope t)) "global"
      || String.eqb (Scope (ta_Scope t)) "scoped" && slice_contains (ProjectIDs (ta_Scope t)) project
  end.

(** setTokenProject writes through the pointer the context holds, so the
    callers of the middleware see the project too. *)
Definition setTokenProject (r : Request) (project : Z) : Request :=
  match rq_Token r with
  | Some t => rq_set_Token (Some (mkTokenAccess (ta_ID t) project (ta_Scope t))) r
  | None => r
  end.

(** ** Writes *)

Definition deploymentWrite (r : Request) : bool :=
  String.eqb (rq_Method r) "POST" &&
  let path := TrimPrefix (rq_Path r) "/api/v1" in
  let web := String.eqb (rq_Path r) path in
  match split_on slash path with
  | [root; kind; id; action] =>
      String.eqb root ""
      && match ParseInt id with Some id => bool_decide (0 < id) | None => false end
      && if String.eqb kind "projects" then
           web && String.eqb action "deploy" || negb web && String.eqb action "deployments"
         else
           String.eqb kind "deployments"
           && (String.eqb action "cancel" || String.eqb action "redeploy"
               || negb web && String.eqb action "retry")
  | _ => false
  end.

Definition projectWriteAllowed (r : Request) : bool :=
  if rq_Method r ∈? write_methods then CanAuthor r || CanDeploy r && deploymentWrite r else true.

Definition IsReadOnlyLintRequest (r : Request) : bool :=
  String.eqb (rq_Method r) "POST" && String.eqb (rq_Path r) "/api/v1/lint".

(** ** Responses *)

Record RoleRecovery := mkRecovery { rr_Message : string; rr_Label : string; rr_Href : string }.

Definition RoleRecoveryHelp (r : Request) (requiredRole : string) : list RoleRecovery :=
  match rq_User r with
  | None => []
  | Some _ =>
      (if negb (AtLeast (RoleFromContext r) requiredRole) then
         [mkRecovery "Ask an administrator to review your global role on the" "Users page"
            "/admin/users"]
       else []) ++
      let member := MembershipRoleFromContext r in
      match rq_ProjectID r with
      | Some id =>
          if negb (String.eqb member "") && negb (AtLeast member requiredRole) then
            [mkRecovery "Ask a project administrator to review your project role in"
               "Project member settings"
               ("/projects/" +:+ pretty id +:+ "/edit#project-members")]
          else []
      | None => []
      end
  end.

Definition requestRecovery (r : Request) : list RoleRecovery :=
  RoleRecoveryHelp r (if deploymentWrite r then "deployer" else "maintainer").

Definition unauthorizedMessage : string := "You don't have access to this".

Definition permissionDeniedMessage (r : Request) : string :=
  foldl (λ message help, message +:+ ". " +:+ rr_Message help +:+ " " +:+ rr_Label help)
    unauthorizedMessage (requestRecovery r).

(** What the client gets; the HTML of the two pages is fixed text around the
    recovery help, and the location of a login redirect is not modelled. *)
Inductive Body :=
  | JsonError (message : string)
  | TextError (message : string)
  | Toast (message : string)
  | ViewerPage
  | UnauthorizedPage (help : list RoleRecovery)
  | LoginRedirect.

(** [token] is the token object as the middleware leaves it; [Panic] is the
    dereference of a nil user. *)
Inductive Verdict :=
  | Deny (status : Z) (body : Body) (token : option TokenAccess)
  | Serve (r : Request)
  | Panic.

Definition and_then (v : Verdict) (next : Request → Verdict) : Verdict :=
  match v with Serve r => next r | _ => v end.

Definition RenderJSONError (r : Request) (status : Z) (message : string) : Verdict :=
  Deny status (JsonError message) (rq_Token r).

Definition http_Error (r : Request) (message : string) (status : Z) : Verdict :=
  Deny status (TextError message) (rq_Token r).

Definition RenderRequestError (r : Request) (status : Z) (message : string) : Verdict :=
  if is_api r then RenderJSONError r status message else http_Error r message status.

Definition RenderUnauthorized (r : Request) : Verdict :=
  if String.eqb (Get r "HX-Request") "true"
  then Deny 200 (Toast (permissionDeniedMessage r)) (rq_Token r)
  else Deny 403 (UnauthorizedPage (requestRecovery r)) (rq_Token r).

Definition viewerWriteBlockMessage : string := "Viewers cannot perform write operations".

Definition blockViewerWrite (r : Request) : Verdict :=
  if String.eqb (Get r "HX-Request") "true"
  then Deny 200 (Toast viewerWriteBlockMessage) (rq_Token r)
  else Deny 403 ViewerPage (rq_Token r).

(** ** Middleware without the store *)

Definition RequireRole (allowed : list string) (r : Request) : Verdict :=
  match rq_User r with
  | None => http_Error r "Unauthorized" 401
  | Some _ =>
      if negb (RoleFromContext r ∈? allowed) then
        if is_api r then RenderJSONError r 403 unauthorizedMessage else RenderUnauthorized r
      else Serve r
  end.

Definition viewerSecurityWrite (path : string) : bool :=
  String.eqb path "/logout" || String.prefix "/settings/security/" path.

(** The two functions that answer a write return the answer, or [None] for false. *)
Definition RejectViewerWrite (r : Request) : option Verdict :=
  if negb (String.eqb (RoleFromContext r) "viewer") || viewerSecurityWrite (rq_Path r)
  then None else Some (blockViewerWrite r).

Definition RejectRestrictedWrite (r : Request) : option Verdict :=
  match rq_User r with
  | None => None
  | Some _ =>
      match RejectViewerWrite r with
      | Some v => Some v
      | None =>
          if viewerSecurityWrite (rq_Path r) || AtLeast (RoleFromContext r) "maintainer"
             || String.eqb (RoleFromContext r) "deployer" && deploymentWrite r
          then None else Some (RenderUnauthorized r)
      end
  end.

Definition CSRFMiddleware (r : Request) : Verdict :=
  if negb (rq_Method r ∈? write_methods) then Serve r
  else if String.eqb (rq_Path r) "/login" then Serve r
  else match rq_Session r with
  | None => http_Error r "Unauthorized" 401
  | Some sess =>
      if String.eqb (rq_Path r) "/api/lint" then Serve r
      else match RejectRestrictedWrite r with
      | Some v => v
      | None =>
          let token := if String.eqb (rq_CsrfForm r) "" then Get r "X-CSRF-Token" else rq_CsrfForm r in
          if negb (String.eqb token (se_CsrfToken sess))
          then http_Error r "Invalid CSRF token" 403 else Serve r
      end
  end.

Definition servePasswordChangeWrite (r : Request) : Verdict :=
  match rq_Token r with
  | Some t =>
      if negb (String.eqb (Scope (ta_Scope t)) "global") || negb (String.eqb (Role (ta_Scope t)) "")
      then RenderJSONError r 403 "an unrestricted global token is required" else Serve r
  | None => RenderJSONError r 403 "an unrestricted global token is required"
  end.

(** WriteBlockMiddleware *)
Definition serveApplicationWrite (r : Request) : Verdict :=
  if IsReadOnlyLintRequest r then Serve r
  else if String.eqb (rq_Method r) "POST" && String.eqb (rq_Path r) "/api/v1/users/me/password"
  then servePasswordChangeWrite r
  else if rq_Method r ∈? write_methods then
    if String.eqb (RoleFromContext r) "viewer"
    then RenderJSONError r 403 "viewers cannot perform write operations"
    else if negb (projectWriteAllowed r)
    then RenderJSONError r 403 "maintainer permission is required for configuration writes"
    else Serve r
  else Serve r.

Definition scopedTokenPathAllowed (method path : string) : bool :=
  let allowed := String.prefix "/projects/" path || String.prefix "/deployments/" path in
  let allowed :=
    if String.eqb method "GET" then
      allowed || (path ∈? ["/version"; "/users/me"; "/projects"; "/deployments";
                           "/environments"; "/lifecycles"; "/project-groups"])
      || String.prefix "/environments/" path || String.prefix "/lifecycles/" path
    else allowed in
  if contains "/templates" path
     || String.prefix "/lifecycles/" path
        && (contains "/variables" path || contains "/credentials" path)
  then false else allowed.

Definition TokenScopeMiddleware (r : Request) : Verdict :=
  let path := TrimPrefix (rq_Path r) "/api/v1" in
  let tokenPath := TrimPrefix path "/admin" in
  if match rq_Token r with
     | Some t => negb (String.eqb (Role (ta_Scope t)) "")
                 && (String.eqb tokenPath "/tokens" || String.prefix "/tokens/" tokenPath)
     | None => false
     end
  then RenderJSONError r 403 "tokens with a permission ceiling cannot manage API tokens"
  else if String.eqb (ScopedTokenID r) "" then Serve r
  else if negb (IsReadOnlyLintRequest r) && negb (scopedTokenPathAllowed (rq_Method r) path)
  then RenderJSONError r 403 "token is restricted to selected projects"
  else Serve r.

(** ** Access to a project *)

Definition applyProjectPermission (s : DB) (project : Z) (r : Request) : Verdict :=
  let r := rq_set_ProjectID (Some project) r in
  let checked r :=
    if negb (projectWriteAllowed r) then
      if is_api r then RenderJSONError r 403 "project permission denied" else RenderUnauthorized r
    else Serve r in
  match rq_User r with
  | None => Panic
  | Some user =>
      if negb (String.eqb (u_Role user) "admin") then
        match GetProjectMember project (u_ID user) s with
        | Err _ => RenderRequestError r 403 "project access denied"
        | Ok (role, _) => checked (rq_set_ProjectRole (Some role) r)
        end
      else checked r
  end.

(** [None]: the user is a member. *)
Definition checkProjectMembershipStatus (s : DB) (project user : Z) (deniedStatus : Z) (r : Request)
    : option Verdict :=
  match IsProjectMember project user s with
  | Err _ => Some (RenderRequestError r 500 "Internal server error")
  | Ok (member, _) =>
      if negb (Z.eqb member 1) then
        Some (if Z.eqb deniedStatus 404 then RenderRequestError r 404 "Runbook not found"
              else if is_api r then RenderJSONError r 403 unauthorizedMessage
              else RenderUnauthorized r)
      else None
  end.

Definition checkProjectMembership (s : DB) (user project : Z) (r : Request) : option Verdict :=
  checkProjectMembershipStatus s project user 403 r.

Definition positive_id (text : string) : option Z :=
  match ParseInt text with
  | Some id => if bool_decide (id ≤ 0) then None else Some id
  | None => None
  end.

Definition serveProjectAccess (s : DB) (deniedStatus : Z) (r : Request) : Verdict :=
  match rq_User r with
  | None => http_Error r "Unauthorized" 401
  | Some user =>
      match positive_id (rq_URLParam r) with
      | None => http_Error r "Invalid project id" 400
      | Some project =>
          if negb (TokenAllowsProject r project)
          then RenderRequestError r deniedStatus "project access denied"
          else
            let granted := applyProjectPermission s project (setTokenProject r project) in
            if negb (String.eqb (u_Role user) "admin") then
              match GetProject project s with
              | Err _ => http_Error r "404 page not found" 404
              | Ok _ =>
                  match checkProjectMembershipStatus s project (u_ID user) deniedStatus r with
                  | Some v => v
                  | None => granted
                  end
              end
            else granted
      end
  end.

Definition RequireProjectAccess (s : DB) : Request → Verdict := serveProjectAccess s 403.
Definition RequireProjectAccessNotFound (s : DB) : Request → Verdict := serveProjectAccess s 404.

Definition deploymentNotFoundMessage : string := "404 page not found".

Definition RequireDeploymentProjectAccess (s : DB) (r : Request) : Verdict :=
  match rq_User r with
  | None => RenderRequestError r 401 "Unauthorized"
  | Some user =>
      match positive_id (rq_URLParam r) with
      | None => RenderRequestError r 400 "Invalid deployment id"
      | Some id =>
          match GetDeployment id s with
          | Err _ => RenderRequestError r 404 deploymentNotFoundMessage
          | Ok (deployment, _) =>
              if negb (String.eqb (d_Kind deployment) "deployment")
              then RenderRequestError r 404 deploymentNotFoundMessage
              else match GetRelease (d_ReleaseID deployment) s with
              | Err _ =>
                  if String.eqb (u_Role user) "admin" && String.eqb (ScopedTokenID r) ""
                  then Serve r else RenderRequestError r 404 deploymentNotFoundMessage
              | Ok (release, _) =>
                  let project := rel_ProjectID release in
                  if negb (TokenAllowsProject r project)
                  then RenderRequestError r 403 "project access denied"
                  else
                    let granted := applyProjectPermission s project (setTokenProject r project) in
                    if negb (String.eqb (u_Role user) "admin") then
                      match checkProjectMembership s (u_ID user) project r with
                      | Some v => v
                      | None => granted
                      end
                    else granted
              end
          end
      end
  end.

Definition CanManageProject (s : DB) (project : Z) (r : Request) : bool :=
  match rq_User r with
  | None => false
  | Some user =>
      if negb (CanAuthor r) || negb (TokenAllowsProject r project) || negb (tokenRoleAllows r "admin")
      then false
      else if String.eqb (u_Role user) "admin" then true
      else match GetProjectMember project (u_ID user) s with
           | Ok (role, _) => String.eqb role "admin"
           | Err _ => false
           end
  end.

(** ** Credentials *)
Section credentials.

(** hex.EncodeToString of crypto/sha256. *)
Context (sha256_hex : string → string).

Definition is_hex (text : string) : bool :=
  forallb (λ c, byte_in 48 57 c || byte_in 65 70 c || byte_in 97 102 c)
    (String.list_ascii_of_string text)
  && Nat.even (String.length text).

Definition parseApiToken (token : string) : option string :=
  if negb (Nat.eqb (String.length token) 72) then None
  else match strip_prefix "ddp_pat_" token with
       | None => None
       | Some suffix => if is_hex suffix then Some suffix else None
       end.

Definition HashApiToken (plaintext : string) : string :=
  match parseApiToken plaintext with
  | None => ""
  | Some hexPart => sha256_hex hexPart
  end.

(** [grant] of a row before its projects are read. *)
Definition grant_of (t : ApiToken) : TokenScope := mkTokenScope (tk_Scope t) (tk_TokenRole t) None.

Definition grant_valid (grant : TokenScope) : bool :=
  if String.eqb (Scope grant) "scoped"
  then negb (bool_decide (default [] (ProjectIDs grant) = [])) && Valid (Role grant)
  else String.eqb (Scope grant) "global" && (String.eqb (Role grant) "" || Valid (Role grant)).

(** The first read is a statement of its own, in the state [first]; the
    serializable transaction reads the snapshot [second]. *)
Definition loadTokenAccess (now : Z) (hash : string) (first second : DB)
    : result ((ApiToken * User) * TokenScope) :=
  '(row, _) ← GetApiTokenByHash hash now first;
  '(row, grant) ←
    (if String.eqb (tk_Scope row.1) "scoped" then
       '(row, _) ← GetApiTokenByHash hash now second;
       let grant := grant_of row.1 in
       if String.eqb (Scope grant) "scoped" then
         '(ids, _) ← ListApiTokenProjectIDs (tk_ID row.1) second;
         Ok (row, mkTokenScope (Scope grant) (Role grant) ids)
       else Ok (row, grant)
     else Ok (row, grant_of row.1));
  if grant_valid grant then Ok (row, grant) else Err ErrTokenScope.

Definition setTokenAccess (r : Request) (id : string) (grant : TokenScope) : Request :=
  rq_set_Token (Some (mkTokenAccess id 0 grant)) r.

(** The update of last_used_at by the telemetry is not modelled. *)
Definition ApiTokenMiddleware (now : Z) (first second : DB) (r : Request) : Verdict :=
  let header := Get r "Authorization" in
  if String.eqb header "" then RenderJSONError r 401 "unauthenticated"
  else match cut space header with
  | Some (scheme, token) =>
      if negb (String.eqb scheme "Bearer")
      then RenderJSONError r 401 "invalid authorization format"
      else
        let hash := HashApiToken token in
        if String.eqb hash "" then RenderJSONError r 401 "invalid token format"
        else match loadTokenAccess now hash first second with
        | Err _ => RenderJSONError r 401 "invalid or revoked token"
        | Ok ((row, owner), grant) =>
            let user := mkUser (u_ID owner) (u_Email owner) "" (u_Name owner) 0 0 None (u_Role owner) in
            Serve (setTokenAccess (SetUser r user) (tk_ID row) grant)
        end
  | None => RenderJSONError r 401 "invalid authorization format"
  end.

Definition redirectToLogin (r : Request) : Verdict :=
  if String.eqb (Get r "HX-History-Restore-Request") "true" then Deny 401 LoginRedirect (rq_Token r)
  else if String.eqb (Get r "HX-Request") "true" || String.eqb (Get r "HX-Boosted") "true"
  then Deny 200 LoginRedirect (rq_Token r) else Deny 303 LoginRedirect (rq_Token r).

Definition AuthMiddleware (now : Z) (r : Request) : Tx Verdict :=
  match rq_Cookie r with
  | None => mret (redirectToLogin r)
  | Some cookie =>
      session ← attempt (GetSession cookie now);
      match session with
      | Err _ => mret (redirectToLogin r)
      | Ok (se, owner) =>
          attempt (TouchSession (now + 24 * 60 * 60) (se_ID se));;
          let user := mkUser (u_ID owner) (u_Email owner) "" (u_Name owner) 0 0 None (u_Role owner) in
          mret (Serve (rq_set_Session (Some se) (SetUser r user)))
      end
  end.

Definition loadStreamCredentials (now : Z) (s : DB) (r : Request) (user : Z)
    : option (Request * string) :=
  match rq_Session r with
  | Some session =>
      match GetSession (se_ID session) now s with
      | Err _ => None
      | Ok ((_, owner), _) => if Z.eqb (u_ID owner) user then Some (r, u_Role owner) else None
      end
  | None =>
      match strip_prefix "Bearer " (Get r "Authorization") with
      | None => None
      | Some token =>
          let hash := HashApiToken token in
          if String.eqb hash "" then None
          else match loadTokenAccess now hash s s with
          | Err _ => None
          | Ok ((row, owner), grant) =>
              if negb (Z.eqb (tk_UserID row) user) then None
              else
                let r := SetUser r (mkUser user "" "" "" 0 0 None (u_Role owner)) in
                Some (setTokenAccess r (tk_ID row) grant, u_Role owner)
          end
      end
  end.

Definition CanStreamDeployment (now : Z) (s : DB) (id : Z) (r : Request) : bool :=
  match rq_User r with
  | None => false
  | Some user =>
      match loadStreamCredentials now s r (u_ID user) with
      | None => false
      | Some (r, role) =>
          match GetDeployment id s with
          | Err _ => false
          | Ok (deployment, _) =>
              if String.eqb role "admin" && String.eqb (ScopedTokenID r) "" then true
              else
                match (if String.eqb (d_Kind deployment) "runbook"
                       then fst <$> GetRunbookExecutionByDeployment id s
                       else rel_ProjectID ∘ fst <$> GetRelease (d_ReleaseID deployment) s) with
                | Err _ => false
                | Ok project =>
                    if negb (TokenAllowsProject r project) then false
                    else if String.eqb role "admin" then true
                    else match IsProjectMember project (u_ID user) s with
                         | Ok (member, _) => Z.eqb member 1
                         | Err _ => false
                         end
                end
          end
      end
  end.

(** The chains of server.NewRouter for a project and a deployment route of
    /api/v1 (the body limit and the audit record in between decide nothing),
    with one state for all their reads. *)
Definition api_chain (now : Z) (s : DB) (r : Request) : Verdict :=
  and_then (and_then (ApiTokenMiddleware now s s r) TokenScopeMiddleware) serveApplicationWrite.

Definition api_project (now : Z) (s : DB) (r : Request) : Verdict :=
  and_then (api_chain now s r) (RequireProjectAccess s).

Definition api_deployment (now : Z) (s : DB) (r : Request) : Verdict :=
  and_then (api_chain now s r) (RequireDeploymentProjectAccess s).
End credentials.
