(* ===== verification/AccessTheorems.v ===== *)
(** * AccessTheorems: what a request needs in order to be served *)
From S2P Require Import Prelude Text Db Tx QueueQueries DispatchQueries Roles AccessQueries Access.

(** ** The access tables *)

(** Rows are stored under their own id, an API token has a non-empty id, and
    the constraints of the schema hold. *)
Definition access_ok (a : Access) : bool :=
  keyed u_ID (ax_users a) && keyed tk_ID (ax_tokens a)
  && negb (bool_decide (is_Some (ax_tokens a !! ""))) && users_ok (ax_users a) && tokens_ok a.

Section access_ok.
Context (a : Access) (Hok : access_ok a = true).

Lemma access_ok_users k u : ax_users a !! k = Some u → u_ID u = k ∧ Valid (u_Role u) = true.
Proof.
  unfold access_ok, users_ok in Hok. rewrite !andb_true_iff in Hok.
  destruct Hok as ((((Hk & _) & _) & (Hr & _)) & _). intros Hu. split.
  - by eapply keyed_true in Hk.
  - eapply forall_rows_true in Hr; [|done]. apply in_list_true in Hr. by apply Valid_all.
Qed.

Lemma access_ok_tokens k t : ax_tokens a !! k = Some t →
  tk_ID t = k ∧ k ≠ "" ∧ is_Some (ax_users a !! tk_UserID t) ∧
  tk_Scope t ∈ ["global"; "scoped"].
Proof.
  unfold access_ok, tokens_ok in Hok. rewrite !andb_true_iff in Hok.
  destruct Hok as ((((_ & Hk) & Hn) & _) & (Ht & _)). intros Hu. split_and!.
  - by eapply keyed_true in Hk.
  - intros ->. apply negb_true_iff, bool_decide_eq_false in Hn. eauto.
  - eapply forall_rows_true in Ht; [|done]. rewrite !andb_true_iff in Ht.
    by destruct Ht as [_ ?%bool_decide_eq_true].
  - eapply forall_rows_true in Ht; [|done]. rewrite !andb_true_iff in Ht.
    destruct Ht as [[Hs _] _]. by apply in_list_true.
Qed.

Lemma access_ok_hash k1 k2 t1 t2 :
  ax_tokens a !! k1 = Some t1 → ax_tokens a !! k2 = Some t2 →
  tk_TokenHash t1 = tk_TokenHash t2 → k1 = k2.
Proof.
  unfold access_ok, tokens_ok in Hok. rewrite !andb_true_iff in Hok.
  destruct Hok as (_ & (_ & Hu)). intros H1 H2 Heq.
  rewrite unique_on_true in Hu. eapply Hu; [exact H1|exact H2|done|by rewrite Heq].
Qed.
End access_ok.

(** ** Roles *)

(** The highest rank a token lets its owner use; a global token without a role
    has no ceiling of its own. *)
Definition ceiling (token : option TokenAccess) : Z :=
  match token with
  | None => 4
  | Some t =>
      if String.eqb (Scope (ta_Scope t)) "global" && String.eqb (Role (ta_Scope t)) ""
      then 4 else Rank (Role (ta_Scope t))
  end.

Definition owner_rank (r : Request) : Z := from_option (Rank ∘ u_Role) 0 (rq_User r).

Definition membership (r : Request) : Z := from_option Rank 4 (rq_ProjectRole r).

Lemma role_from_context_rank r :
  from_option (Valid ∘ u_Role) true (rq_User r) = true →
  Rank (RoleFromContext r) = owner_rank r `min` ceiling (rq_Token r).
Proof.
  unfold RoleFromContext, owner_rank, ceiling, tokenRoleAllows, token_role_allows.
  destruct (rq_User r) as [u|]; cbn; [|destruct (rq_Token r) as [t|]; [|done]].
  - intros Hv. apply Valid_rank in Hv. pose proof (Rank_range (u_Role u)).
    destruct (rq_Token r) as [t|]; [|lia]. pose proof (Rank_range (Role (ta_Scope t))).
    destruct (_ && _); cbn; [lia|].
    destruct (AtLeast (Role (ta_Scope t)) (u_Role u)) eqn:E; cbn.
    + apply AtLeast_rank in E. lia.
    + apply not_true_iff_false in E. rewrite AtLeast_rank in E. lia.
  - intros _. case_match; [done|]. pose proof (Rank_range (Role (ta_Scope t))). cbn. lia.
Qed.

Lemma project_role_rank r :
  Rank (ProjectRoleFromContext r) = Rank (RoleFromContext r) `min` membership r.
Proof.
  unfold ProjectRoleFromContext, membership. pose proof (Rank_range (RoleFromContext r)).
  destruct (rq_ProjectRole r) as [m|]; cbn; [|lia]. case_bool_decide; lia.
Qed.

(** The permission a write needs, in terms of the effective rank. *)
Definition may_write (rank : Z) (r : Request) : Prop :=
  rq_Method r ∈ write_methods → 3 ≤ rank ∨ 2 ≤ rank ∧ deploymentWrite r = true.

Lemma project_write_allowed r :
  projectWriteAllowed r = true ↔ may_write (Rank (ProjectRoleFromContext r)) r.
Proof.
  unfold projectWriteAllowed, may_write, CanAuthor, CanDeploy.
  destruct (rq_Method r ∈? write_methods)%bool eqn:E.
  - apply in_list_true in E. rewrite orb_true_iff, andb_true_iff, !AtLeast_rank. cbn.
    change (Rank "maintainer") with 3. change (Rank "deployer") with 2. naive_solver lia.
  - apply not_true_iff_false in E. rewrite in_list_true in E. naive_solver.
Qed.

(** ** Credentials *)

(** [t] is the live token with this hash and [u] its owner. *)
Definition credential (now : Z) (s : DB) (hash : string) (t : ApiToken) (u : User) : Prop :=
  ax_tokens (db_access s) !! tk_ID t = Some t ∧ tk_TokenHash t = hash ∧
  token_live now t = true ∧ ax_users (db_access s) !! tk_UserID t = Some u.

(** The grant the store holds for a token. *)
Definition stored_grant (s : DB) (t : ApiToken) : TokenScope :=
  mkTokenScope (tk_Scope t) (tk_TokenRole t)
    (if String.eqb (tk_Scope t) "scoped" then go_slice (projects_of_token (db_access s) (tk_ID t))
     else None).

Lemma credential_unique now s hash t1 t2 u1 u2 :
  access_ok (db_access s) = true →
  credential now s hash t1 u1 → credential now s hash t2 u2 → t1 = t2 ∧ u1 = u2.
Proof.
  intros Hok (H1 & Hh1 & _ & Hu1) (H2 & Hh2 & _ & Hu2).
  assert (tk_ID t1 = tk_ID t2) as Heq
    by (eapply access_ok_hash; [exact Hok|exact H1|exact H2|congruence]).
  rewrite Heq in H1. simplify_eq. done.
Qed.

Lemma get_token now s hash t u s' :
  access_ok (db_access s) = true →
  GetApiTokenByHash hash now s = Ok ((t, u), s') ↔ credential now s hash t u ∧ s' = s.
Proof.
  intros Hok. unfold GetApiTokenByHash.
  set (l := filter _ _).
  assert (∀ t, t ∈ l ↔ ax_tokens (db_access s) !! tk_ID t = Some t ∧ tk_TokenHash t = hash ∧
                       token_live now t = true) as Hl.
  { intros t1. unfold l. rewrite list_elem_of_filter, list_elem_of_fmap. split.
    - intros ((Hh & Hl) & [k t2] & -> & Hin%elem_of_map_to_list). cbn in *.
      pose proof (access_ok_tokens _ Hok _ _ Hin) as [<- _]. done.
    - intros (Hin & Hh & Hlive). split; [done|]. exists (tk_ID t1, t1).
      split; [done|]. by apply elem_of_map_to_list. }
  split.
  - destruct l as [|t1 l'] eqn:El; [done|]. intros H.
    assert (t1 ∈ t1 :: l') as Hin by left. apply Hl in Hin.
    destruct (ax_users (db_access s) !! tk_UserID t1) as [u1|] eqn:Hu; simplify_eq.
    split; [|done]. unfold credential. naive_solver.
  - intros ((Ht & Hh & Hlive & Hu) & ->). assert (t ∈ l) as Hin by (apply Hl; done).
    destruct l as [|t1 l'] eqn:El; [by apply elem_of_nil in Hin|].
    assert (t1 ∈ t1 :: l') as Hin1 by left. apply Hl in Hin1 as (Ht1 & Hh1 & _).
    assert (tk_ID t1 = tk_ID t) as Heq
      by (eapply access_ok_hash; [exact Hok|exact Ht1|exact Ht|congruence]).
    rewrite Heq in Ht1. simplify_eq. by rewrite Hu.
Qed.

(** One read of the token and its grant, whether it is the first statement or
    the snapshot of the transaction. *)
Lemma load_token_cases now hash first second t u g :
  access_ok (db_access first) = true → access_ok (db_access second) = true →
  loadTokenAccess now hash first second = Ok ((t, u), g) ↔
  grant_valid g = true ∧
  ∃ t0 u0, credential now first hash t0 u0 ∧
    if String.eqb (tk_Scope t0) "scoped"
    then credential now second hash t u ∧ g = stored_grant second t
    else t = t0 ∧ u = u0 ∧ g = stored_grant first t.
Proof.
  intros Hok1 Hok2. unfold loadTokenAccess. rewrite result_bind_ok. split.
  - intros ([[t0 u0] s1] & H1 & H). apply get_token in H1 as [Hc1 ->]; [|done]. cbn in H.
    unfold stored_grant in *.
    destruct (String.eqb (tk_Scope t0) "scoped") eqn:Es.
    + apply result_bind_ok in H as ([[t1 u1] g1] & H & Hv).
      apply result_bind_ok in H as ([[t2 u2] s2] & H2 & H).
      apply get_token in H2 as [Hc2 ->]; [|done]. cbn in H.
      destruct (grant_valid g1) eqn:Eg; [|done].
      destruct (String.eqb (tk_Scope t2) "scoped") eqn:Es2; cbn in H, Hv; simplify_eq;
        (split; [done|]); exists t0, u0; rewrite Es, Es2; done.
    + cbn in H. destruct (grant_valid (grant_of t0)) eqn:Eg; simplify_eq.
      split; [done|]. exists t, u. rewrite Es. done.
  - intros (Hv & t0 & u0 & Hc1 & H). exists ((t0, u0), first).
    split; [by apply get_token|]. cbn. unfold stored_grant in H.
    destruct (String.eqb (tk_Scope t0) "scoped") eqn:Es.
    + destruct H as (Hc2 & ->). apply result_bind_ok.
      assert (GetApiTokenByHash hash now second = Ok ((t, u), second)) as E by (by apply get_token).
      rewrite E. cbn. destruct (String.eqb (tk_Scope t) "scoped") eqn:Es2;
        eexists; (split; [done|]); cbn; unfold grant_of; by rewrite Hv.
    + destruct H as (-> & -> & ->). rewrite Es in *. cbn. unfold grant_of. by rewrite Hv.
Qed.

Lemma load_token now hash s t u g :
  access_ok (db_access s) = true →
  loadTokenAccess now hash s s = Ok ((t, u), g) ↔
  credential now s hash t u ∧ g = stored_grant s t ∧ grant_valid g = true.
Proof.
  intros Hok. rewrite load_token_cases by done. split.
  - intros (Hv & t0 & u0 & Hc0 & H). case_match; [naive_solver|].
    destruct H as (-> & -> & ->). done.
  - intros (Hc & -> & Hv). split; [done|]. exists t, u. split; [done|]. case_match; done.
Qed.

(** ** The project middleware *)

(** What the middleware adds to the context of a served request. *)
Definition with_project (s : DB) (user : User) (project : Z) (r : Request) : Request :=
  let r := rq_set_ProjectID (Some project) r in
  if String.eqb (u_Role user) "admin" then r
  else rq_set_ProjectRole (ax_members (db_access s) !! (project, u_ID user)) r.

(** The user is a global administrator or a member of the project. *)
Definition belongs (s : DB) (user : User) (project : Z) : Prop :=
  u_Role user = "admin" ∨ is_Some (ax_members (db_access s) !! (project, u_ID user)).

Lemma may_write_method rank r1 r2 :
  rq_Method r1 = rq_Method r2 → deploymentWrite r1 = deploymentWrite r2 →
  may_write rank r1 ↔ may_write rank r2.
Proof. unfold may_write. by intros -> ->. Qed.

Lemma apply_project_permission s project r user r' :
  rq_User r = Some user →
  applyProjectPermission s project r = Serve r' ↔
  belongs s user project ∧ r' = with_project s user project r ∧
  may_write (Rank (ProjectRoleFromContext r')) r'.
Proof.
  intros Hu. unfold applyProjectPermission, belongs, with_project, GetProjectMember.
  replace (rq_User (rq_set_ProjectID (Some project) r)) with (Some user) by (by rewrite <-Hu).
  destruct (String.eqb_spec (u_Role user) "admin") as [->|Hna]; cbn [negb].
  - rewrite <-project_write_allowed. destruct (projectWriteAllowed _) eqn:E; cbn [negb].
    + naive_solver.
    + split; [|intros (_ & -> & H); congruence].
      unfold RenderJSONError, RenderUnauthorized. by repeat case_match.
  - destruct (ax_members (db_access s) !! (project, u_ID user)) as [role|].
    2: { unfold RenderRequestError. split; [by case_match|].
         intros ([?|[? ?]] & _); congruence. }
    rewrite <-project_write_allowed. destruct (projectWriteAllowed _) eqn:E; cbn [negb].
    + naive_solver.
    + split; [|intros (_ & -> & H); congruence].
      unfold RenderJSONError, RenderUnauthorized. by repeat case_match.
Qed.

Lemma check_membership s project user st r :
  checkProjectMembershipStatus s project user st r = None ↔
  is_Some (ax_members (db_access s) !! (project, user)).
Proof.
  unfold checkProjectMembershipStatus, IsProjectMember, read.
  destruct (ax_members (db_access s) !! (project, user)); cbn; naive_solver.
Qed.

Lemma check_membership_denies s project user st r v :
  checkProjectMembershipStatus s project user st r = Some v → ∀ r', v ≠ Serve r'.
Proof.
  unfold checkProjectMembershipStatus, IsProjectMember, read, RenderRequestError, RenderUnauthorized.
  intros H r'. repeat case_match; simplify_eq; try done; by repeat case_match.
Qed.

Lemma request_error_denies r st m r' : RenderRequestError r st m ≠ Serve r'.
Proof. unfold RenderRequestError. by case_match. Qed.

Lemma set_token_project_user r project : rq_User (setTokenProject r project) = rq_User r.
Proof. unfold setTokenProject. by case_match. Qed.

(** serveProjectAccess serves exactly the callers the store and the token admit. *)
Lemma serve_project_access s st r user r' :
  rq_User r = Some user →
  serveProjectAccess s st r = Serve r' ↔
  ∃ project, positive_id (rq_URLParam r) = Some project ∧ TokenAllowsProject r project = true ∧
    belongs s user project ∧ (u_Role user = "admin" ∨ is_Some (db_projects s !! project)) ∧
    r' = with_project s user project (setTokenProject r project) ∧
    may_write (Rank (ProjectRoleFromContext r')) r'.
Proof.
  intros Hu. unfold serveProjectAccess, GetProject. rewrite Hu.
  destruct (positive_id (rq_URLParam r)) as [project|]; [|naive_solver].
  destruct (TokenAllowsProject r project) eqn:Ht; cbn [negb].
  2: { split; [by intros []%request_error_denies|].
       intros (project' & [= <-] & H & _). congruence. }
  pose proof (apply_project_permission s project (setTokenProject r project) user r') as Happly.
  rewrite set_token_project_user in Happly. specialize (Happly Hu).
  destruct (String.eqb_spec (u_Role user) "admin") as [Ha|Hna]; cbn [negb].
  { rewrite Happly. naive_solver. }
  destruct (db_projects s !! project) as [p|] eqn:Hp.
  2: { split; [done|]. intros (project' & [= <-] & _ & _ & [?|[? ?]] & _); congruence. }
  destruct (checkProjectMembershipStatus s project (u_ID user) st r) as [v|] eqn:Hc.
  - split; [intros ->; by eapply check_membership_denies in Hc|].
    intros (project' & [= <-] & _ & Hb & _). exfalso.
    destruct Hb as [?|Hb]; [done|]. by rewrite <-check_membership, Hc in Hb.
  - rewrite Happly. naive_solver.
Qed.

(** The same for the routes of a deployment, whose project is that of its release. *)
Definition project_of_deployment (s : DB) (id project : Z) : Prop :=
  ∃ d rel, db_deployments s !! id = Some d ∧ d_Kind d = "deployment" ∧
    db_releases s !! d_ReleaseID d = Some rel ∧ rel_ProjectID rel = project.

Definition orphan_deployment (s : DB) (id : Z) : Prop :=
  ∃ d, db_deployments s !! id = Some d ∧ d_Kind d = "deployment" ∧
    db_releases s !! d_ReleaseID d = None.

Lemma project_of_deployment_eq s id d rel project :
  db_deployments s !! id = Some d → d_Kind d = "deployment" →
  db_releases s !! d_ReleaseID d = Some rel →
  project_of_deployment s id project ↔ project = rel_ProjectID rel.
Proof. unfold project_of_deployment. intros Hd Hk Hr. rewrite Hd. naive_solver congruence. Qed.

Lemma orphan_deployment_no s id d rel :
  db_deployments s !! id = Some d → db_releases s !! d_ReleaseID d = Some rel →
  ¬ orphan_deployment s id.
Proof. intros Hd Hr (d' & Hd' & _ & Hn). congruence. Qed.

Lemma serve_deployment_access s r user r' :
  rq_User r = Some user →
  RequireDeploymentProjectAccess s r = Serve r' ↔
  ∃ id, positive_id (rq_URLParam r) = Some id ∧
    ((orphan_deployment s id ∧ u_Role user = "admin" ∧ ScopedTokenID r = "" ∧ r' = r) ∨
     ∃ project, project_of_deployment s id project ∧ TokenAllowsProject r project = true ∧
       belongs s user project ∧
       r' = with_project s user project (setTokenProject r project) ∧
       may_write (Rank (ProjectRoleFromContext r')) r').
Proof.
  intros Hu. unfold RequireDeploymentProjectAccess, GetDeployment, GetRelease. rewrite Hu.
  destruct (positive_id (rq_URLParam r)) as [id|].
  2: { split; [by intros []%request_error_denies|naive_solver]. }
  destruct (db_deployments s !! id) as [d|] eqn:Hd.
  2: { split; [by intros []%request_error_denies|].
       intros (? & [= <-] & [((d' & ?) & _)|(? & (d' & ?) & _)]); naive_solver congruence. }
  destruct (String.eqb_spec (d_Kind d) "deployment") as [Hk|Hk]; cbn [negb].
  2: { split; [by intros []%request_error_denies|].
       intros (? & [= <-] & [((d' & ?) & _)|(? & (d' & rel' & ?) & _)]); destruct_and!; congruence. }
  destruct (db_releases s !! d_ReleaseID d) as [rel|] eqn:Hrel.
  2: { split.
       - intros H. exists id. split; [done|]. left.
         destruct (String.eqb_spec (u_Role user) "admin"), (String.eqb_spec (ScopedTokenID r) "");
           cbn [andb] in H; try (by apply request_error_denies in H).
         injection H as <-. split; [by exists d|done].
       - intros (? & [= <-] & [(_ & -> & -> & ->)|(? & (d' & rel' & ?) & _)]); [done|].
         destruct_and!. congruence. }
  pose proof (apply_project_permission s (rel_ProjectID rel)
    (setTokenProject r (rel_ProjectID rel)) user r') as Happly.
  rewrite set_token_project_user in Happly. specialize (Happly Hu).
  pose proof (orphan_deployment_no _ _ _ _ Hd Hrel) as Hno.
  split.
  - intros H. exists id. split; [done|]. right. exists (rel_ProjectID rel).
    split; [by eapply project_of_deployment_eq|].
    destruct (TokenAllowsProject r (rel_ProjectID rel)); cbn [negb] in H;
      [|by apply request_error_denies in H].
    destruct (String.eqb_spec (u_Role user) "admin"); cbn [negb] in H; [by apply Happly in H|].
    destruct (checkProjectMembership s (u_ID user) (rel_ProjectID rel) r) as [v|] eqn:Hc;
      [|by apply Happly in H].
    subst v. by eapply check_membership_denies in Hc.
  - intros (? & [= <-] & [[? _]|(project & Hp & Ht & Hb & Hr')]); [done|].
    eapply project_of_deployment_eq in Hp; [|done..]. subst project. rewrite Ht. cbn [negb].
    destruct (String.eqb_spec (u_Role user) "admin"); cbn [negb]; [by apply Happly|].
    destruct Hb as [?|Hb]; [done|].
    unfold checkProjectMembership.
    rewrite (proj2 (check_membership s (rel_ProjectID rel) (u_ID user) 403 r) Hb).
    apply Happly. split; [by right|done].
Qed.

(** ** The chain of /api/v1 *)

(** The routes that end in one of the two project middlewares. *)
Definition project_path (r : Request) : Prop :=
  ∃ rest, rq_Path r = "/api/v1/projects/" +:+ rest ∨ rq_Path r = "/api/v1/deployments/" +:+ rest.

(** The route of a project template, which no scoped token may use. *)
Definition templates_path (r : Request) : bool :=
  contains "/templates" (TrimPrefix (rq_Path r) "/api/v1").

Definition presents (r : Request) (token : string) : Prop :=
  cut space (Get r "Authorization") = Some ("Bearer", token).

(** The request with the caller in its context. *)
Definition caller (r : Request) (t : ApiToken) (u : User) (grant : TokenScope) : Request :=
  setTokenAccess (SetUser r (mkUser (u_ID u) (u_Email u) "" (u_Name u) 0 0 None (u_Role u)))
    (tk_ID t) grant.

Lemma token_scope_serves r r' :
  project_path r →
  TokenScopeMiddleware r = Serve r' ↔
  r' = r ∧ (ScopedTokenID r = "" ∨ templates_path r = false).
Proof.
  intros Hp. unfold TokenScopeMiddleware, templates_path.
  assert (IsReadOnlyLintRequest r = false) as ->.
  { unfold IsReadOnlyLintRequest. destruct Hp as [rest [-> | ->]]; apply andb_false_r. }
  assert (∃ path, TrimPrefix (rq_Path r) "/api/v1" = path ∧ TrimPrefix path "/admin" = path ∧
    String.eqb path "/tokens" = false ∧ String.prefix "/tokens/" path = false ∧
    scopedTokenPathAllowed (rq_Method r) path = negb (contains "/templates" path))
    as (path & -> & -> & -> & -> & ->).
  { destruct Hp as [rest [-> | ->]];
      [exists ("/projects/" +:+ rest)|exists ("/deployments/" +:+ rest)];
      (split_and!; [reflexivity..|]); unfold scopedTokenPathAllowed; rewrite prefix_app;
      (case (contains "/templates" _); [reflexivity|]);
      case (String.eqb (rq_Method r) "GET"); reflexivity. }
  replace (match rq_Token r with Some _ => _ | None => false end) with false
    by (by destruct (rq_Token r) as [t|]; [rewrite andb_false_r|]).
  cbn [negb andb]. rewrite negb_involutive.
  destruct (String.eqb_spec (ScopedTokenID r) "") as [->|Hne]; [naive_solver|].
  destruct (contains "/templates" path); unfold RenderJSONError; naive_solver.
Qed.

Lemma application_write_serves r r' :
  project_path r → rq_ProjectRole r = None →
  serveApplicationWrite r = Serve r' ↔ r' = r ∧ may_write (Rank (RoleFromContext r)) r.
Proof.
  intros Hp Hm. unfold serveApplicationWrite.
  assert (IsReadOnlyLintRequest r = false) as ->.
  { unfold IsReadOnlyLintRequest. destruct Hp as [rest [-> | ->]]; apply andb_false_r. }
  assert (String.eqb (rq_Path r) "/api/v1/users/me/password" = false) as ->
    by (by destruct Hp as [rest [-> | ->]]).
  rewrite andb_false_r.
  assert (Rank (ProjectRoleFromContext r) = Rank (RoleFromContext r)) as Hrank.
  { rewrite project_role_rank. unfold membership. rewrite Hm. cbn.
    pose proof (Rank_range (RoleFromContext r)). lia. }
  pose proof (project_write_allowed r) as Hw. rewrite Hrank in Hw.
  destruct (rq_Method r ∈? write_methods)%bool eqn:E.
  - destruct (String.eqb_spec (RoleFromContext r) "viewer") as [Hv|Hv].
    + split; [done|]. intros [_ H]. apply in_list_true in E. rewrite Hv in H.
      specialize (H E). cbn in H. change (Rank "viewer") with 1 in H. lia.
    + destruct (projectWriteAllowed r); unfold RenderJSONError; cbn [negb]; naive_solver.
  - split; [|naive_solver]. intros [= <-]. split; [done|]. intros Hin%in_list_true. congruence.
Qed.

Section chain.
Context (sha256_hex : string → string) (now : Z) (s : DB).
Hypothesis Hok : access_ok (db_access s) = true.

Lemma authenticated r r1 :
  ApiTokenMiddleware sha256_hex now s s r = Serve r1 ↔
  ∃ token t u, presents r token ∧ HashApiToken sha256_hex token ≠ "" ∧
    credential now s (HashApiToken sha256_hex token) t u ∧
    grant_valid (stored_grant s t) = true ∧ r1 = caller r t u (stored_grant s t).
Proof.
  unfold ApiTokenMiddleware, presents. destruct (String.eqb_spec (Get r "Authorization") "") as [E|_].
  { split; [done|]. rewrite E. naive_solver. }
  destruct (cut space (Get r "Authorization")) as [[scheme token]|]; [|naive_solver].
  destruct (String.eqb_spec scheme "Bearer") as [->|]; cbn [negb]; [|naive_solver].
  destruct (String.eqb_spec (HashApiToken sha256_hex token) "") as [E|Hne]; [naive_solver|].
  destruct (loadTokenAccess now (HashApiToken sha256_hex token) s s) as [[[t u] g]|e] eqn:El.
  - apply load_token in El as (Hc & -> & Hv); [|done]. split.
    + intros [= <-]. exists token, t, u. done.
    + intros (token' & t' & u' & [= <-] & _ & Hc' & _ & ->).
      destruct (credential_unique _ _ _ _ _ _ _ Hok Hc Hc') as [<- <-]. done.
  - split; [done|]. intros (token' & t' & u' & [= <-] & _ & Hc' & Hv' & _).
    assert (loadTokenAccess now (HashApiToken sha256_hex token) s s
            = Ok ((t', u'), stored_grant s t')) as H by (by apply load_token). congruence.
Qed.

(** The whole chain, for the routes of a project. *)
Lemma chain_serves r r1 :
  project_path r → rq_ProjectRole r = None →
  api_chain sha256_hex now s r = Serve r1 ↔
  ∃ token t u, presents r token ∧ HashApiToken sha256_hex token ≠ "" ∧
    credential now s (HashApiToken sha256_hex token) t u ∧
    grant_valid (stored_grant s t) = true ∧ r1 = caller r t u (stored_grant s t) ∧
    (ScopedTokenID r1 = "" ∨ templates_path r1 = false) ∧
    may_write (Rank (RoleFromContext r1)) r1.
Proof.
  intros Hp Hm. unfold api_chain.
  pose proof (authenticated r) as Ha.
  destruct (ApiTokenMiddleware sha256_hex now s s r) as [st b tk | r2 |]; cbn [and_then];
    [split; [done|]; naive_solver| |split; [done|]; naive_solver].
  specialize (Ha r2). destruct Ha as [Ha _].
  destruct (Ha eq_refl) as (token & t & u & Hpr & Hh & Hc & Hv & ->).
  set (r2 := caller r t u (stored_grant s t)) in *.
  assert (project_path r2) as Hp2 by done. assert (rq_ProjectRole r2 = None) as Hm2 by done.
  split.
  - destruct (TokenScopeMiddleware r2) as [| r3 |] eqn:Et; cbn [and_then]; try done.
    apply token_scope_serves in Et as [-> Ht]; [|done].
    intros [-> Hw]%application_write_serves; [|done..]. naive_solver.
  - intros (token' & t' & u' & Hpr' & _ & Hc' & _ & -> & Ht & Hw).
    unfold presents in *. simplify_eq.
    destruct (credential_unique _ _ _ _ _ _ _ Hok Hc Hc') as [<- <-]. fold r2 in Ht, Hw |- *.
    assert (TokenScopeMiddleware r2 = Serve r2) as -> by (by apply token_scope_serves).
    by apply application_write_serves.
Qed.
End chain.

(** ** Who is served *)

Definition token_ceiling (t : ApiToken) : Z :=
  if String.eqb (tk_Scope t) "global" && String.eqb (tk_TokenRole t) "" then 4
  else Rank (tk_TokenRole t).

(** The rank a caller has in a project: no more than the owner's, the token's
    and the membership's. *)
Definition effective_rank (s : DB) (t : ApiToken) (u : User) (project : Z) : Z :=
  Rank (u_Role u) `min` token_ceiling t `min`
  (if String.eqb (u_Role u) "admin" then 4
   else from_option Rank 0 (ax_members (db_access s) !! (project, u_ID u))).

Definition covers (s : DB) (t : ApiToken) (project : Z) : Prop :=
  tk_Scope t = "global" ∨
  tk_Scope t = "scoped" ∧ (tk_ID t, project) ∈ ax_token_projects (db_access s).

(** The request that reaches the handler. *)
Definition served (s : DB) (r : Request) (t : ApiToken) (u : User) (project : Z) : Request :=
  with_project s u project (setTokenProject (caller r t u (stored_grant s t)) project).

(** The caller presents a live token of [u] whose stored grant is well formed. *)
Definition authentic (sha256_hex : string → string) (now : Z) (s : DB) (r : Request)
    (t : ApiToken) (u : User) : Prop :=
  ∃ token, presents r token ∧ HashApiToken sha256_hex token ≠ "" ∧
    credential now s (HashApiToken sha256_hex token) t u ∧ grant_valid (stored_grant s t) = true.

Lemma default_go_slice {A} (l : list A) : default [] (go_slice l) = l.
Proof. by destruct l. Qed.

Lemma elem_of_projects s id project :
  project ∈ projects_of_token (db_access s) id ↔ (id, project) ∈ ax_token_projects (db_access s).
Proof.
  unfold projects_of_token. rewrite elem_of_sort_by, list_elem_of_fmap. split.
  - intros ([id' p] & -> & [Hid Hin%elem_of_elements]%list_elem_of_filter). cbn in *. by subst id'.
  - intros Hin. exists (id, project). split; [done|].
    apply list_elem_of_filter. split; [done|]. by apply elem_of_elements.
Qed.

Lemma caller_allows s r t u project :
  TokenAllowsProject (caller r t u (stored_grant s t)) project = true ↔ covers s t project.
Proof.
  unfold TokenAllowsProject, covers, slice_contains. cbn.
  rewrite orb_true_iff, andb_true_iff, !String.eqb_eq, bool_decide_eq_true.
  split; (intros [?|[Hs Hin]]; [by left|right; split; [done|]]).
  - rewrite Hs in Hin. cbn in Hin. by rewrite default_go_slice, elem_of_projects in Hin.
  - rewrite Hs. cbn. by rewrite default_go_slice, elem_of_projects.
Qed.

Lemma served_rank s r t u project :
  Valid (u_Role u) = true → rq_ProjectRole r = None →
  Rank (ProjectRoleFromContext (served s r t u project))
  = Rank (u_Role u) `min` token_ceiling t `min`
    (if String.eqb (u_Role u) "admin" then 4
     else from_option Rank 4 (ax_members (db_access s) !! (project, u_ID u))).
Proof.
  intros Hv Hm. rewrite project_role_rank, role_from_context_rank;
    unfold served, with_project; destruct (String.eqb (u_Role u) "admin"); try done;
    unfold membership, owner_rank, ceiling, token_ceiling; cbn; by rewrite ?Hm.
Qed.

Lemma served_effective_rank s r t u project :
  Valid (u_Role u) = true → rq_ProjectRole r = None → belongs s u project →
  Rank (ProjectRoleFromContext (served s r t u project)) = effective_rank s t u project.
Proof.
  intros Hv Hm Hb. rewrite served_rank by done. unfold effective_rank.
  destruct (String.eqb_spec (u_Role u) "admin"); [done|].
  destruct Hb as [?|[role ->]]; done.
Qed.

Lemma caller_rank s r t u project :
  Valid (u_Role u) = true → belongs s u project →
  effective_rank s t u project ≤ Rank (RoleFromContext (caller r t u (stored_grant s t))).
Proof.
  intros Hv Hb. rewrite role_from_context_rank by done.
  unfold effective_rank, owner_rank, ceiling, token_ceiling. cbn. apply Z.le_min_l.
Qed.

Lemma may_write_mono rank1 rank2 r : rank1 ≤ rank2 → may_write rank1 r → may_write rank2 r.
Proof. unfold may_write. intros Hle H Hm. destruct (H Hm) as [?|[? ?]]; [left|right]; [lia|split; [lia|done]]. Qed.

(** A scoped token has an id, so the scope middleware sees it. *)
Lemma caller_scoped s r t u :
  access_ok (db_access s) = true → ax_tokens (db_access s) !! tk_ID t = Some t →
  ScopedTokenID (caller r t u (stored_grant s t)) = "" ↔ tk_Scope t ≠ "scoped".
Proof.
  intros Hok Ht. pose proof (access_ok_tokens _ Hok _ _ Ht) as (_ & Hne & _).
  unfold ScopedTokenID. cbn. destruct (String.eqb_spec (tk_Scope t) "scoped"); naive_solver.
Qed.

Lemma credential_valid now s hash t u :
  access_ok (db_access s) = true → credential now s hash t u → Valid (u_Role u) = true.
Proof. intros Hok (_ & _ & _ & Hu). by apply access_ok_users in Hu as [_ ?]. Qed.

(** The project whose logs a stream of the deployment shows. *)
Definition streamed_project (s : DB) (id : Z) (d : Deployment) (project : Z) : Prop :=
  if String.eqb (d_Kind d) "runbook" then ax_executions (db_access s) !! id = Some project
  else rel_ProjectID <$> db_releases s !! d_ReleaseID d = Some project.

Section served.
Context (sha256_hex : string → string) (now : Z) (s : DB).
Hypothesis Hok : access_ok (db_access s) = true.

Lemma chain_caller r r1 :
  project_path r → rq_ProjectRole r = None →
  api_chain sha256_hex now s r = Serve r1 ↔
  ∃ t u, authentic sha256_hex now s r t u ∧ r1 = caller r t u (stored_grant s t) ∧
    (tk_Scope t = "scoped" → templates_path r = false) ∧
    may_write (Rank (RoleFromContext (caller r t u (stored_grant s t)))) r.
Proof.
  intros Hp Hm. rewrite chain_serves by done. unfold authentic. split.
  - intros (token & t & u & Hpr & Hh & Hc & Hv & -> & Ht & Hw). exists t, u.
    split; [by exists token|]. split; [done|]. split; [|done].
    intros Hs. destruct Ht as [Ht|Ht]; [|done]. apply caller_scoped in Ht; [done..|apply Hc].
  - intros (t & u & (token & Hpr & Hh & Hc & Hv) & -> & Ht & Hw). exists token, t, u.
    split_and!; try done. destruct (decide (tk_Scope t = "scoped")); [right; by apply Ht|].
    left. apply caller_scoped; [done|apply Hc|done].
Qed.

Lemma authentic_valid r t u : authentic sha256_hex now s r t u → Valid (u_Role u) = true.
Proof. intros (token & _ & _ & Hc & _). by eapply credential_valid. Qed.

(** For an administrator the ceiling of the token is what counts. *)
Lemma admin_write r t u :
  u_Role u = "admin" →
  may_write (Rank (RoleFromContext (caller r t u (stored_grant s t)))) r ↔
  may_write (token_ceiling t) r.
Proof.
  intros Ha. rewrite role_from_context_rank; [|by cbn; rewrite Ha].
  unfold owner_rank, ceiling, token_ceiling. cbn. rewrite Ha. change (Rank "admin") with 4.
  pose proof (Rank_range (tk_TokenRole t)).
  match goal with |- may_write ?a r ↔ may_write ?b r => replace a with b; [done|] end.
  case_match; lia.
Qed.

(** The second write check decides: it is the stricter of the two. *)
Lemma served_write r t u project :
  rq_ProjectRole r = None → Valid (u_Role u) = true → belongs s u project →
  may_write (Rank (ProjectRoleFromContext (served s r t u project))) (served s r t u project) ↔
  may_write (effective_rank s t u project) r.
Proof.
  intros Hm Hv Hb. rewrite served_effective_rank by done.
  apply may_write_method; unfold served, with_project; by case_match.
Qed.

(** C32: a request to a project route of the API is served exactly when its
    bearer token is live with a well-formed grant, covers the project of the
    URL, belongs to an administrator or to a member of that (existing) project,
    and, for a write, the smallest of the owner's role, the token's ceiling and
    the membership role is maintainer or more, or deployer or more on one of the
    endpoints that execute an existing release. A token restricted to projects
    reaches no template route. The handler sees the project and that role. *)
Theorem api_project_access r r' :
  project_path r → rq_ProjectRole r = None →
  api_project sha256_hex now s r = Serve r' ↔
  ∃ t u project, authentic sha256_hex now s r t u ∧
    positive_id (rq_URLParam r) = Some project ∧ covers s t project ∧ belongs s u project ∧
    (u_Role u = "admin" ∨ is_Some (db_projects s !! project)) ∧
    (tk_Scope t = "scoped" → templates_path r = false) ∧
    may_write (effective_rank s t u project) r ∧ r' = served s r t u project.
Proof.
  intros Hp Hm. unfold api_project. split.
  - destruct (api_chain sha256_hex now s r) as [| r1 |] eqn:Ec; cbn [and_then]; [done| |done].
    apply chain_caller in Ec as (t & u & Ha & -> & Ht & _); [|done..].
    intros H. eapply serve_project_access in H as (project & Hid & Hcov & Hb & Hp' & -> & Hw); [|done].
    exists t, u, project. apply caller_allows in Hcov.
    split_and!; try done. apply served_write; [done|by eapply authentic_valid|done|done].
  - intros (t & u & project & Ha & Hid & Hcov & Hb & Hp' & Ht & Hw & ->).
    pose proof (authentic_valid _ _ _ Ha) as Hv.
    assert (api_chain sha256_hex now s r = Serve (caller r t u (stored_grant s t))) as ->.
    { apply chain_caller; [done..|]. exists t, u. split_and!; try done.
      eapply may_write_mono; [|done]. by apply caller_rank. }
    cbn [and_then]. eapply serve_project_access; [done|]. exists project.
    split_and!; try done; [by apply caller_allows|]. by apply served_write.
Qed.

(** A request to a deployment route is served exactly for such a caller of
    the project of the deployment's release; a deployment whose release is gone
    is served to the tokens of an administrator that are not restricted. *)
Theorem api_deployment_access r r' :
  project_path r → rq_ProjectRole r = None →
  api_deployment sha256_hex now s r = Serve r' ↔
  ∃ t u id, authentic sha256_hex now s r t u ∧ positive_id (rq_URLParam r) = Some id ∧
    (tk_Scope t = "scoped" → templates_path r = false) ∧
    ((orphan_deployment s id ∧ u_Role u = "admin" ∧ tk_Scope t ≠ "scoped" ∧
      may_write (token_ceiling t) r ∧ r' = caller r t u (stored_grant s t)) ∨
     ∃ project, project_of_deployment s id project ∧ covers s t project ∧ belongs s u project ∧
       may_write (effective_rank s t u project) r ∧ r' = served s r t u project).
Proof.
  intros Hp Hm. unfold api_deployment. split.
  - destruct (api_chain sha256_hex now s r) as [| r1 |] eqn:Ec; cbn [and_then]; [done| |done].
    apply chain_caller in Ec as (t & u & Ha & -> & Ht & Hw1); [|done..].
    pose proof Ha as (tok & _ & _ & Hc & _).
    intros H. eapply serve_deployment_access in H as (id & Hid & H); [|done].
    exists t, u, id. split_and!; try done. destruct H as [(Ho & Hadm & Hs & ->)|H]; [left|right].
    + apply caller_scoped in Hs; [|done|apply Hc]. split_and!; try done.
      by apply admin_write in Hw1.
    + destruct H as (project & Hpd & Hcov & Hb & -> & Hw). exists project.
      apply caller_allows in Hcov. split_and!; try done.
      apply served_write; [done|by eapply authentic_valid|done|done].
  - intros (t & u & id & Ha & Hid & Ht & H).
    pose proof (authentic_valid _ _ _ Ha) as Hv. pose proof Ha as (tok & _ & _ & Hc & _).
    assert (api_chain sha256_hex now s r = Serve (caller r t u (stored_grant s t))) as ->.
    { apply chain_caller; [done..|]. exists t, u. split_and!; try done.
      destruct H as [(_ & Hadm & _ & Hw & _)|(project & _ & _ & Hb & Hw & _)];
        [by apply admin_write|eapply may_write_mono; [by apply caller_rank|done]]. }
    cbn [and_then]. eapply serve_deployment_access; [done|]. exists id. split; [done|].
    destruct H as [(Ho & Hadm & Hs & Hw & ->)|(project & Hpd & Hcov & Hb & Hw & ->)]; [left|right].
    + split_and!; try done. apply caller_scoped; [done|apply Hc|done].
    + exists project. split_and!; try done; [by apply caller_allows|]. by apply served_write.
Qed.

(** Both readers of the header find the same token. *)
Lemma bearer_token r token :
  strip_prefix "Bearer " (Get r "Authorization") = Some token ↔ presents r token.
Proof.
  symmetry. unfold presents. apply (cut_prefix space "Bearer").
  intros c Hc. cbn in Hc. naive_solver.
Qed.

Lemma credential_owner hash t u : credential now s hash t u → u_ID u = tk_UserID t.
Proof. intros (_ & _ & _ & Hu). by apply access_ok_users in Hu as [-> _]. Qed.

(** The decision of CanStreamDeployment once the caller is known. *)
Definition stream_allowed (id : Z) (user : User) (r : Request) (role : string) : bool :=
  match GetDeployment id s with
  | Err _ => false
  | Ok (deployment, _) =>
      if String.eqb role "admin" && String.eqb (ScopedTokenID r) "" then true
      else
        match (if String.eqb (d_Kind deployment) "runbook"
               then fst <$> GetRunbookExecutionByDeployment id s
               else rel_ProjectID ∘ fst <$> GetRelease (d_ReleaseID deployment) s) with
        | Err _ => false
        | Ok project =>
            if negb (TokenAllowsProject r project) then false
            else if String.eqb role "admin" then true
            else match IsProjectMember project (u_ID user) s with
                 | Ok (member, _) => Z.eqb member 1
                 | Err _ => false
                 end
        end
  end.

Lemma streamed_project_read id d project :
  (if String.eqb (d_Kind d) "runbook"
   then fst <$> GetRunbookExecutionByDeployment id s
   else rel_ProjectID ∘ fst <$> GetRelease (d_ReleaseID d) s) = Ok project ↔
  streamed_project s id d project.
Proof.
  unfold streamed_project, GetRunbookExecutionByDeployment, GetRelease.
  destruct (String.eqb (d_Kind d) "runbook"); case_match; cbn; naive_solver.
Qed.

Lemma streamed_allowed id user r t u d :
  u_ID u = u_ID user → (∀ project, TokenAllowsProject r project = true ↔ covers s t project) →
  match (if String.eqb (d_Kind d) "runbook"
         then fst <$> GetRunbookExecutionByDeployment id s
         else rel_ProjectID ∘ fst <$> GetRelease (d_ReleaseID d) s) with
  | Err _ => false
  | Ok project =>
      if negb (TokenAllowsProject r project) then false
      else if String.eqb (u_Role u) "admin" then true
      else match IsProjectMember project (u_ID user) s with
           | Ok (member, _) => Z.eqb member 1
           | Err _ => false
           end
  end = true ↔
  ∃ project, streamed_project s id d project ∧ covers s t project ∧ belongs s u project.
Proof.
  intros Hid Hcov. setoid_rewrite <-streamed_project_read.
  destruct (if String.eqb (d_Kind d) "runbook" then _ else _) as [project|e]; [|naive_solver].
  setoid_rewrite <-Hcov. unfold belongs, IsProjectMember, read. rewrite <-Hid.
  transitivity (TokenAllowsProject r project = true ∧
    (u_Role u = "admin" ∨ is_Some (ax_members (db_access s) !! (project, u_ID u)))).
  2: { split; [eauto|]. intros (? & [= ->] & ?). done. }
  destruct (TokenAllowsProject r project); cbn [negb]; [|naive_solver].
  destruct (String.eqb_spec (u_Role u) "admin"); [naive_solver|].
  destruct (ax_members (db_access s) !! (project, u_ID u)) as [role|]; cbn; [naive_solver|].
  split; [done|]. intros (_ & [?|[? ?]]); done.
Qed.

Lemma stream_decision id user r t u r1 :
  ax_tokens (db_access s) !! tk_ID t = Some t → u_ID u = u_ID user →
  r1 = setTokenAccess (SetUser r (mkUser (u_ID user) "" "" "" 0 0 None (u_Role u))) (tk_ID t)
         (stored_grant s t) →
  stream_allowed id user r1 (u_Role u) = true ↔
  ∃ d, db_deployments s !! id = Some d ∧
    (u_Role u = "admin" ∧ tk_Scope t ≠ "scoped" ∨
     ∃ project, streamed_project s id d project ∧ covers s t project ∧ belongs s u project).
Proof.
  intros Ht Hid Hr1. unfold stream_allowed, GetDeployment.
  assert (ScopedTokenID r1 = "" ↔ tk_Scope t ≠ "scoped") as Hsc
    by (rewrite Hr1; by apply (caller_scoped s r t u)).
  destruct (db_deployments s !! id) as [d|]; [|naive_solver].
  pose proof (streamed_allowed id user r1 t u d Hid) as Hlow. specialize (Hlow ltac:(
    intros; rewrite Hr1; apply (caller_allows s r t u))). clear Hr1.
  destruct (String.eqb_spec (u_Role u) "admin") as [Ha|Hna],
    (String.eqb_spec (ScopedTokenID r1) "") as [He|He]; cbn [andb];
    [split; [intros _; exists d; naive_solver|done]|..];
    rewrite Hlow; (split; [intros H; exists d; naive_solver|]);
    intros (? & [= <-] & [[? ?]|H]); naive_solver.
Qed.

(** What CanStreamDeployment rechecks for the caller of an API request. *)
Lemma can_stream r user id :
  rq_User r = Some user → rq_Session r = None →
  CanStreamDeployment sha256_hex now s id r = true ↔
  ∃ t u d, authentic sha256_hex now s r t u ∧ u_ID u = u_ID user ∧
    db_deployments s !! id = Some d ∧
    (u_Role u = "admin" ∧ tk_Scope t ≠ "scoped" ∨
     ∃ project, streamed_project s id d project ∧ covers s t project ∧ belongs s u project).
Proof.
  intros Hu Hs. unfold CanStreamDeployment, loadStreamCredentials. rewrite Hu, Hs. split.
  - destruct (strip_prefix "Bearer " (Get r "Authorization")) as [token|] eqn:Et; [|done].
    apply bearer_token in Et.
    destruct (String.eqb_spec (HashApiToken sha256_hex token) "") as [|Hh]; [done|].
    destruct (loadTokenAccess now _ s s) as [[[t u] g]|e] eqn:El; [|done].
    apply load_token in El as (Hc & -> & Hv); [|done].
    destruct (Z.eqb_spec (tk_UserID t) (u_ID user)) as [Hid|]; cbn [negb]; [|done].
    intros H. exists t, u.
    assert (authentic sha256_hex now s r t u) as Ha by (by exists token).
    assert (u_ID u = u_ID user) as Huid by (rewrite <-Hid; by eapply credential_owner).
    match type of H with context [TokenAllowsProject ?r1] =>
      change (stream_allowed id user r1 (u_Role u) = true) in H end.
    apply (stream_decision id user r t u) in H as (d & Hd & H);
      [by exists d|apply Hc|done|done].
  - intros (t & u & d & (token & Hpr & Hh & Hc & Hv) & Hid & Hd & H).
    apply bearer_token in Hpr as ->. apply String.eqb_neq in Hh as Hh'. rewrite Hh'.
    assert (loadTokenAccess now (HashApiToken sha256_hex token) s s
            = Ok ((t, u), stored_grant s t)) as -> by (by apply load_token).
    assert (tk_UserID t = u_ID user) as Huid
      by (rewrite <-Hid; symmetry; by eapply credential_owner).
    rewrite Huid, Z.eqb_refl. cbn [negb].
    match goal with |- context [TokenAllowsProject ?r1] =>
      change (stream_allowed id user r1 (u_Role u) = true) end.
    apply (stream_decision id user r t u); [apply Hc|done|done|]. by exists d.
Qed.
End served.

Lemma read_may_write rank r : rq_Method r = "GET" → may_write rank r.
Proof. intros Hg Hw. rewrite Hg in Hw. unfold write_methods in Hw. set_solver. Qed.

Lemma streamed_deployment s id d :
  db_deployments s !! id = Some d → d_Kind d = "deployment" →
  (∀ project, streamed_project s id d project ↔ project_of_deployment s id project) ∧
  ((∃ project, project_of_deployment s id project) ∨ orphan_deployment s id).
Proof.
  intros Hd Hk. unfold streamed_project, project_of_deployment, orphan_deployment. rewrite Hk. cbn.
  split.
  - intros project. rewrite fmap_Some. naive_solver congruence.
  - destruct (db_releases s !! d_ReleaseID d) as [rel|] eqn:Hrel; [left|right]; naive_solver.
Qed.

Section recheck.
Context (sha256_hex : string → string).

Lemma api_deployment_context now s r r1 :
  access_ok (db_access s) = true → project_path r → rq_ProjectRole r = None →
  api_deployment sha256_hex now s r = Serve r1 →
  ∃ t u, authentic sha256_hex now s r t u ∧ rq_Session r1 = rq_Session r ∧
    rq_Header r1 = rq_Header r ∧
    rq_User r1 = Some (mkUser (u_ID u) (u_Email u) "" (u_Name u) 0 0 None (u_Role u)).
Proof.
  intros Hok Hp Hm H. apply api_deployment_access in H as (t & u & id & Ha & _ & _ & H); [|done..].
  exists t, u. split; [done|].
  destruct H as [(_ & _ & _ & _ & ->)|(project & _ & _ & _ & _ & ->)]; [done|].
  unfold served, with_project. by case_match.
Qed.

Lemma authentic_header now s r r1 t u :
  rq_Header r1 = rq_Header r → authentic sha256_hex now s r1 t u ↔ authentic sha256_hex now s r t u.
Proof. unfold authentic, presents, Get. by intros ->. Qed.

(** For a GET, being served is a matter of the caller alone. *)
Lemma served_reads now s r id user :
  access_ok (db_access s) = true → project_path r → templates_path r = false →
  rq_ProjectRole r = None → rq_Method r = "GET" → positive_id (rq_URLParam r) = Some id →
  (∃ r1, api_deployment sha256_hex now s r = Serve r1 ∧ u_ID <$> rq_User r1 = Some user) ↔
  ∃ t u, authentic sha256_hex now s r t u ∧ u_ID u = user ∧
    (orphan_deployment s id ∧ u_Role u = "admin" ∧ tk_Scope t ≠ "scoped" ∨
     ∃ project, project_of_deployment s id project ∧ covers s t project ∧ belongs s u project).
Proof.
  intros Hok Hp Htp Hm Hg Hid. setoid_rewrite (api_deployment_access sha256_hex now s Hok r _ Hp Hm).
  split.
  - intros (r1 & (t & u & id' & Ha & Hid' & _ & H) & Huser). simplify_eq. exists t, u.
    destruct H as [(Ho & Hadm & Hs & _ & ->)|(project & Hpd & Hc & Hb & _ & ->)].
    + cbn in Huser. simplify_eq. naive_solver.
    + unfold served, with_project in Huser. case_match; cbn in Huser; simplify_eq; naive_solver.
  - intros (t & u & Ha & <- & [(Ho & Hadm & Hs)|(project & Hpd & Hc & Hb)]).
    + eexists. split.
      * exists t, u, id. split_and!; try done. left. split_and!; try done. by apply read_may_write.
      * done.
    + eexists. split.
      * exists t, u, id. split_and!; try done. right. exists project. split_and!; try done.
        by apply read_may_write.
      * unfold served, with_project. by case_match.
Qed.

(** While a deployment's logs are streamed to an API client, the recheck
    against the current store lets the stream go on exactly when the request
    that opened it would be served again now to the same user. *)
Theorem stream_recheck (now now' : Z) (s s' : DB) (r r1 : Request) (id : Z) :
  access_ok (db_access s) = true → access_ok (db_access s') = true →
  project_path r → templates_path r = false → rq_ProjectRole r = None → rq_Session r = None →
  rq_Method r = "GET" → positive_id (rq_URLParam r) = Some id →
  (∀ d, db_deployments s' !! id = Some d → d_Kind d = "deployment") →
  api_deployment sha256_hex now s r = Serve r1 →
  CanStreamDeployment sha256_hex now' s' id r1 = true ↔
  ∃ r2, api_deployment sha256_hex now' s' r = Serve r2 ∧ u_ID <$> rq_User r2 = u_ID <$> rq_User r1.
Proof.
  intros Hok Hok' Hp Htp Hm Hse Hg Hid Hkind H1.
  apply api_deployment_context in H1 as (t & u & _ & Hs1 & Hh1 & Hu1); [|done..].
  rewrite Hu1. cbn [fmap option_fmap option_map u_ID].
  rewrite (can_stream sha256_hex now' s' Hok' r1 _ id Hu1) by congruence.
  setoid_rewrite (authentic_header now' s' r r1 _ _ Hh1).
  rewrite (served_reads now' s' r id (u_ID u) Hok' Hp Htp Hm Hg Hid). cbn [u_ID]. split.
  - intros (t' & u' & d & Ha & Huid & Hd & H).
    destruct (streamed_deployment s' id d Hd (Hkind _ Hd)) as [Heq Hcase].
    exists t', u'. setoid_rewrite <-Heq. split_and!; [done..|].
    destruct H as [[Hadm Hsc]|H]; [|by right].
    destruct Hcase as [[project Hpd]|Ho]; [right|left; done].
    exists project. split; [by apply Heq|]. split; [|by left].
    destruct Ha as (tok & _ & _ & (Ht & _) & _). left.
    apply access_ok_tokens in Ht as (_ & _ & _ & Hscope); [|done]. set_solver.
  - intros (t' & u' & Ha & Huid & H).
    assert (∃ d, db_deployments s' !! id = Some d) as [d Hd]
      by (destruct H as [((d & ? & _) & _)|(project & (d & rel & ? & _) & _)]; by exists d).
    destruct (streamed_deployment s' id d Hd (Hkind _ Hd)) as [Heq _].
    exists t', u', d. split_and!; [done..|].
    destruct H as [(_ & Hadm & Hsc)|(project & Hpd & H)]; [by left|right].
    exists project. split; [by apply Heq|done].
Qed.
End recheck.

(** A write of a browser session is served exactly when it carries the
    session's CSRF token and the user is a maintainer or more, a deployer on an
    endpoint that executes an existing release, or on a page of the user's own
    security settings. *)
Theorem csrf_write_gate (r r' : Request) (user : User) :
  rq_Method r ∈ write_methods → rq_Path r ∉ ["/login"; "/api/lint"] →
  rq_User r = Some user → rq_Token r = None →
  CSRFMiddleware r = Serve r' ↔
  r' = r ∧ ∃ sess, rq_Session r = Some sess ∧
    (if String.eqb (rq_CsrfForm r) "" then Get r "X-CSRF-Token" else rq_CsrfForm r)
      = se_CsrfToken sess ∧
    (viewerSecurityWrite (rq_Path r) = true ∨ 3 ≤ Rank (u_Role user) ∨
     u_Role user = "deployer" ∧ deploymentWrite r = true).
Proof.
  intros Hm Hp Hu Ht. unfold CSRFMiddleware. apply in_list_true in Hm. rewrite Hm. cbn [negb].
  destruct (String.eqb_spec (rq_Path r) "/login"); [set_solver|].
  destruct (rq_Session r) as [sess|]; [|naive_solver].
  destruct (String.eqb_spec (rq_Path r) "/api/lint"); [set_solver|].
  assert (RoleFromContext r = u_Role user) as Hrole by (unfold RoleFromContext; by rewrite Hu, Ht).
  unfold RejectRestrictedWrite, RejectViewerWrite. rewrite Hu, Hrole.
  pose proof (AtLeast_rank (u_Role user) "maintainer") as Hat.
  change (Rank "maintainer") with 3 in Hat.
  destruct (String.eqb_spec (u_Role user) "viewer") as [Hv|Hv],
    (viewerSecurityWrite (rq_Path r)) eqn:Es; cbn [negb orb].
  1, 3: destruct (String.eqb_spec (if String.eqb (rq_CsrfForm r) "" then Get r "X-CSRF-Token"
          else rq_CsrfForm r) (se_CsrfToken sess)); cbn [negb]; unfold http_Error; naive_solver.
  - split; [unfold blockViewerWrite; by case_match|].
    intros (_ & ? & _ & _ & H). rewrite Hv in H. change (Rank "viewer") with 1 in H.
    destruct H as [?|[?|[? ?]]]; [done|lia|done].
  - destruct (AtLeast (u_Role user) "maintainer") eqn:Ea; cbn [orb];
      [|destruct (String.eqb_spec (u_Role user) "deployer"), (deploymentWrite r) eqn:Ed; cbn [andb]].
    1, 2: destruct (String.eqb_spec (if String.eqb (rq_CsrfForm r) "" then Get r "X-CSRF-Token"
            else rq_CsrfForm r) (se_CsrfToken sess)); cbn [negb]; unfold http_Error;
          naive_solver lia.
    all: (split; [unfold RenderUnauthorized; by case_match|]);
      intros (_ & ? & _ & _ & [?|[H|[? ?]]]); try done;
      rewrite (proj2 Hat) in Ea by lia; done.
Qed.

(** The permissions a request gets from its token are those of one state
    of the store, however the token is edited between the two reads: never the
    role of one grant with the projects of another. *)
Theorem token_grant_snapshot (now : Z) (hash : string) (first second : DB) (t : ApiToken) (u : User)
    (grant : TokenScope) :
  access_ok (db_access first) = true → access_ok (db_access second) = true →
  loadTokenAccess now hash first second = Ok ((t, u), grant) →
  grant_valid grant = true ∧
  ∃ s, (s = first ∨ s = second) ∧ credential now s hash t u ∧ grant = stored_grant s t.
Proof.
  intros Hok1 Hok2 H. apply load_token_cases in H as (Hv & t0 & u0 & Hc & H); [|done..].
  split; [done|]. destruct (String.eqb (tk_Scope t0) "scoped").
  - exists second. split; [by right|done].
  - destruct H as (-> & -> & ->). exists first. split; [by left|done].
Qed.

(** ** Witnesses *)

Definition sample_digest (text : string) : string := "digest of " +:+ text.

Definition sample_secret : string :=
  "0123456789abcdef0123456789abcdef0123456789abcdef0123456789abcdef".
Definition sample_token : string := "ddp_pat_" +:+ sample_secret.

Definition sample_users : gmap Z User :=
  {[ 1 := mkUser 1 "root@example.com" "" "root" 0 0 None "admin";
     2 := mkUser 2 "dev@example.com" "" "dev" 0 0 None "maintainer" ]}.

(** The maintainer's token, restricted to [projects] with the ceiling [role]. *)
Definition sample_access (role : string) (projects : list Z) : Access :=
  mkAccess sample_users ∅ ∅
    {[ "t1" := mkApiToken "t1" 2 (sample_digest sample_secret) "scoped" role None None ]}
    (list_to_set ((λ p, ("t1", p)) <$> projects))
    {[ (7, 2) := "deployer" ]} ∅ (Some 0).

Definition sample_access_store (role : string) (projects : list Z) : DB :=
  set_access (sample_access role projects)
    (set_deployments {[ 5 := mkDeployment 5 3 1 "queued" None None 0 0 None None "deployment" None
                             None None None ]}
      (set_releases {[ 3 := mkRelease 3 7 "1.0" "[]" 0 "release" ]}
        (set_projects {[ 7 := mkProject 7 "app" None ]} (empty_db 100)))).

Definition sample_request (method path id : string) : Request :=
  mkRequest method path {[ "Authorization" := "Bearer " +:+ sample_token ]} None "" id
    None None None None None.

Definition sample_row (role : string) : ApiToken :=
  mkApiToken "t1" 2 (sample_digest sample_secret) "scoped" role None None.
Definition sample_owner : User := mkUser 2 "dev@example.com" "" "dev" 0 0 None "maintainer".

Lemma sample_presents method path id : presents (sample_request method path id) sample_token.
Proof. reflexivity. Qed.

Lemma sample_authentic method path id role projects :
  grant_valid (stored_grant (sample_access_store role projects) (sample_row role)) = true →
  authentic sample_digest 50 (sample_access_store role projects)
    (sample_request method path id) (sample_row role) sample_owner.
Proof. intros. exists sample_token. split_and!; done. Qed.

Lemma api_project_access_witness :
  ∃ r', api_project sample_digest 50 (sample_access_store "deployer" [7])
          (sample_request "POST" "/api/v1/projects/7/deployments" "7") = Serve r'.
Proof.
  eexists. apply (api_project_access sample_digest 50 (sample_access_store "deployer" [7])).
  - vm_compute. reflexivity.
  - exists "7/deployments". left. reflexivity.
  - reflexivity.
  - exists (sample_row "deployer"), sample_owner, 7. split_and!.
    + by apply sample_authentic.
    + reflexivity.
    + right. split; [done|]. by apply (bool_decide_unpack _).
    + right. by eexists.
    + right. by eexists.
    + done.
    + intros _. right. split; [by vm_compute|reflexivity].
    + reflexivity.
Defined.

Lemma api_deployment_access_witness :
  ∃ r', api_deployment sample_digest 50 (sample_access_store "deployer" [7])
          (sample_request "POST" "/api/v1/deployments/5/cancel" "5") = Serve r'.
Proof.
  eexists. apply (api_deployment_access sample_digest 50 (sample_access_store "deployer" [7])).
  - vm_compute. reflexivity.
  - exists "5/cancel". right. reflexivity.
  - reflexivity.
  - exists (sample_row "deployer"), sample_owner, 5. split; [by apply sample_authentic|].
    split; [reflexivity|]. split; [done|]. right. exists 7. split_and!.
    + eexists _, _. split_and!; reflexivity.
    + right. split; [done|]. by apply (bool_decide_unpack _).
    + right. by eexists.
    + intros _. right. split; [by vm_compute|reflexivity].
    + reflexivity.
Defined.

(** The token is narrowed to project 8 while it streams: the stream ends. *)
Lemma stream_recheck_witness :
  ∃ r1, api_deployment sample_digest 50 (sample_access_store "deployer" [7])
          (sample_request "GET" "/api/v1/deployments/5/logs/stream" "5") = Serve r1 ∧
    (CanStreamDeployment sample_digest 60 (sample_access_store "viewer" [8]) 5 r1 = true ↔
     ∃ r2, api_deployment sample_digest 60 (sample_access_store "viewer" [8])
             (sample_request "GET" "/api/v1/deployments/5/logs/stream" "5") = Serve r2 ∧
       u_ID <$> rq_User r2 = u_ID <$> rq_User r1) ∧
    CanStreamDeployment sample_digest 60 (sample_access_store "viewer" [8]) 5 r1 = false ∧
    CanStreamDeployment sample_digest 60 (sample_access_store "viewer" [7; 8]) 5 r1 = true.
Proof.
  eexists. split; [vm_compute; reflexivity|].
  split; [|split; vm_compute; reflexivity].
  apply (stream_recheck sample_digest 50 60 (sample_access_store "deployer" [7])).
  1, 2: vm_compute; reflexivity.
  - exists "5/logs/stream". right. reflexivity.
  - vm_compute. reflexivity.
  - reflexivity.
  - reflexivity.
  - reflexivity.
  - reflexivity.
  - intros d [= <-]. reflexivity.
  - vm_compute. reflexivity.
Defined.

Definition sample_browser (role : string) : Request :=
  mkRequest "POST" "/deployments/5/cancel" ∅ (Some "c") "secret" "5"
    (Some (mkUser 2 "" "" "" 0 0 None role))
    (Some (mkSession "c" 2 "secret" 0 99 None None None)) None None None.

Lemma csrf_write_gate_witness :
  CSRFMiddleware (sample_browser "deployer") = Serve (sample_browser "deployer") ∧
  ∀ r', CSRFMiddleware (sample_browser "viewer") ≠ Serve r'.
Proof.
  split.
  - apply (csrf_write_gate _ _ (mkUser 2 "" "" "" 0 0 None "deployer")); [set_solver..|done|done|].
    split; [done|]. eexists. split_and!; [done|done|]. right. right. split; [done|reflexivity].
  - intros r' H.
    apply (csrf_write_gate _ _ (mkUser 2 "" "" "" 0 0 None "viewer")) in H; [|set_solver..|done|done].
    destruct H as (_ & ? & _ & _ & [?|[H|[? _]]]); [done| |done].
    vm_compute in H. by apply H.
Defined.

(** The token is edited between the two reads: the request gets the new grant. *)
Lemma token_grant_snapshot_witness :
  ∃ t u grant,
    loadTokenAccess 50 (sample_digest sample_secret) (sample_access_store "deployer" [7])
      (sample_access_store "viewer" [8]) = Ok ((t, u), grant) ∧
    grant = mkTokenScope "scoped" "viewer" (Some [8]) ∧ grant_valid grant = true.
Proof.
  eexists _, _, _. split; [vm_compute; reflexivity|]. split; [reflexivity|].
  eapply (token_grant_snapshot 50 (sample_digest sample_secret)
    (sample_access_store "deployer" [7]) (sample_access_store "viewer" [8]));
    vm_compute; reflexivity.
Defined.
