(* ===== verification/TokenScopes.v ===== *)
(** * TokenScopes: the grants of API tokens (internal/repository/token_scope.go)

    The retries of ReplaceTokenScope after a serialization conflict repeat
    [replaceTokenScope] and are not modelled. *)
From S2P Require Import Prelude Text Db Tx QueueQueries DispatchQueries Roles AccessQueries Access AccessTheorems.

(** [slices.Compact]: of consecutive equal elements the first one stays. *)
Fixpoint Compact (l : list Z) : list Z :=
  match l with
  | x :: ((y :: _) as rest) => if Z.eqb x y then Compact rest else x :: Compact rest
  | _ => l
  end.

(** The callers of the functions below use the returned grant only without an error. *)
Definition validateTokenProject (user : User) (id : Z) : Tx unit :=
  guard (negb (bool_decide (id ≤ 0))) ErrTokenScope;;
  project ← attempt (GetProject id);
  match project with
  | Err _ => fail ErrTokenScope
  | Ok _ =>
      if negb (String.eqb (u_Role user) "admin") then
        member ← attempt (IsProjectMember id (u_ID user));
        match member with
        | Ok member => guard (Z.eqb member 1) ErrTokenScope
        | Err _ => fail ErrTokenScope
        end
      else mret tt
  end.

Definition validateTokenProjects (user : User) (ids : list Z) : Tx unit :=
  for_each ids (validateTokenProject user).

Definition ValidateTokenScope (user : User) (grant : TokenScope) : Tx TokenScope :=
  let scope :=
    if String.eqb (Scope grant) "" then
      if negb (String.eqb (Role grant) "") || bool_decide (ProjectIDs grant ≠ None)
      then "scoped" else "global"
    else Scope grant in
  let ids := default [] (ProjectIDs grant) in
  if String.eqb scope "global" then
    if negb (bool_decide (length ids = 0%nat))
       || negb (String.eqb (Role grant) "") && negb (Valid (Role grant))
    then fail ErrTokenScope
    else mret (mkTokenScope scope (Role grant) (Some []))
  else if negb (String.eqb scope "scoped") || negb (Valid (Role grant)) then fail ErrTokenScope
  else if bool_decide (length ids = 0%nat) then fail ErrTokenProjectsRequired
  else
    let ids := Compact (sort_by Z.leb ids) in
    validateTokenProjects user ids;;
    mret (mkTokenScope scope (Role grant) (Some ids)).

Definition SaveTokenScope (id : string) (grant : TokenScope) : Tx unit :=
  n ← SetApiTokenScope (Scope grant) (Role grant) id;
  guard (Z.eqb n 1) ErrTokenScope;;
  DeleteApiTokenProjects id;;
  for_each (default [] (ProjectIDs grant)) (AddApiTokenProject id).

Definition replaceTokenScope (id : string) (grant : TokenScope) : Tx TokenScope :=
  row ← GetApiTokenByID id;
  ids ← ListApiTokenProjectIDs id;
  let previous := mkTokenScope (tk_Scope row) (tk_TokenRole row) ids in
  SaveTokenScope id grant;;
  mret previous.

(** The transaction of APITokenHandler.CreateToken (handler/api/tokens.go). *)
Definition CreateToken_tx (id : string) (user : User) (hash : string) (grant : TokenScope)
    : Tx ApiToken :=
  row ← CreateApiToken id (u_ID user) hash (Scope grant) None;
  SaveTokenScope id grant;;
  mret row.

(** ** Sorting and compacting *)

Lemma Compact_cons y z l :
  Compact (y :: z :: l) = if Z.eqb y z then Compact (z :: l) else y :: Compact (z :: l).
Proof. reflexivity. Qed.

Lemma Compact_elem l x : x ∈ Compact l ↔ x ∈ l.
Proof.
  induction l as [|y [|z l] IH]; [done|done|].
  cbn [Compact]. destruct (Z.eqb_spec y z) as [->|].
  - rewrite IH, !elem_of_cons. naive_solver.
  - rewrite elem_of_cons, IH, (elem_of_cons (z :: l)). done.
Qed.

Lemma Compact_sorted l : StronglySorted Z.le l → StronglySorted Z.lt (Compact l).
Proof.
  induction l as [|y [|z l] IH]; intros Hs; [constructor|repeat constructor|].
  apply StronglySorted_inv in Hs as [Hs Hy]. specialize (IH Hs).
  rewrite Compact_cons. destruct (Z.eqb_spec y z) as [->|Hne]; [done|].
  constructor; [done|]. apply Forall_forall. intros x Hx.
  apply (proj1 (Compact_elem _ _)) in Hx.
  apply StronglySorted_inv in Hs as [_ Hz].
  rewrite Forall_forall in Hz. apply Forall_cons in Hy as [Hyz _].
  apply elem_of_cons in Hx as [->|Hx]; [lia|]. specialize (Hz _ Hx). lia.
Qed.

Lemma sorted_ids l : StronglySorted Z.le (sort_by Z.leb l).
Proof.
  assert (StronglySorted (λ a b, Z.leb a b = true) (sort_by Z.leb l)) as H
    by (apply sort_by_sorted; intros; rewrite ?Z.leb_le, ?Z.leb_gt in *; lia).
  induction H as [|x l' _ IH Hx]; constructor; [done|].
  eapply Forall_impl; [exact Hx|]. intros y ?%Z.leb_le. done.
Qed.

Lemma strictly_sorted_nodup (l : list Z) : StronglySorted Z.lt l → NoDup l.
Proof.
  induction 1 as [|x l _ IH Hx]; constructor; [|done].
  intros Hin. rewrite Forall_forall in Hx. specialize (Hx _ Hin). lia.
Qed.

(** ** Validation *)

(** A project the user may select. *)
Definition selectable (s : DB) (user : User) (project : Z) : Prop :=
  0 < project ∧ is_Some (db_projects s !! project) ∧ belongs s user project.

Lemma validate_project user id s :
  (selectable s user id ∧ validateTokenProject user id s = Ok (tt, s)) ∨
  (¬ selectable s user id ∧ validateTokenProject user id s = Err ErrTokenScope).
Proof.
  unfold validateTokenProject, selectable, belongs, GetProject, IsProjectMember, guard, attempt,
    read, fail, mbind, tx_bind, mret, tx_ret.
  case_bool_decide as Hid; cbn [negb]; [right; split; [lia|done]|].
  destruct (db_projects s !! id) as [p|]; cbn; [|right; split; [|done]; intros (_ & [? ?] & _); done].
  destruct (String.eqb_spec (u_Role user) "admin") as [Ha|Ha]; cbn [negb].
  { left. split; [|done]. split_and!; [lia|eauto|by left]. }
  destruct (ax_members (db_access s) !! (id, u_ID user)) as [role|]; cbn.
  - left. split; [|done]. split_and!; [lia|eauto|right; eauto].
  - right. split; [|done]. intros (_ & _ & [?|[? ?]]); done.
Qed.

Lemma validate_projects user ids s :
  (Forall (selectable s user) ids ∧ validateTokenProjects user ids s = Ok (tt, s)) ∨
  (¬ Forall (selectable s user) ids ∧ validateTokenProjects user ids s = Err ErrTokenScope).
Proof.
  unfold validateTokenProjects. induction ids as [|id ids IH]; cbn [for_each]; [by left|].
  destruct (validate_project user id s) as [[Hs H]|[Hs H]].
  - rewrite (bind_ok _ _ _ _ _ H). destruct IH as [[Hf H']|[Hf H']]; [left|right]; (split; [|done]).
    + by constructor.
    + intros [_ ?]%Forall_cons. done.
  - right. split; [intros [? _]%Forall_cons; done|]. by rewrite (bind_err _ _ _ _ H).
Qed.

(** The grant a validated request stands for. *)
Definition requested_scope (grant : TokenScope) : string :=
  if String.eqb (Scope grant) "" then
    if String.eqb (Role grant) "" && bool_decide (ProjectIDs grant = None) then "global" else "scoped"
  else Scope grant.

Definition valid_grant (s : DB) (user : User) (request grant : TokenScope) : Prop :=
  Scope grant = requested_scope request ∧ Role grant = Role request ∧
  (Scope grant = "global" ∧ (Role grant = "" ∨ Valid (Role grant) = true) ∧
     default [] (ProjectIDs request) = [] ∧ ProjectIDs grant = Some [] ∨
   Scope grant = "scoped" ∧ Valid (Role grant) = true ∧
     ∃ ids, ProjectIDs grant = Some ids ∧ ids ≠ [] ∧ StronglySorted Z.lt ids ∧
       (∀ id, id ∈ ids ↔ id ∈ default [] (ProjectIDs request)) ∧ Forall (selectable s user) ids).

(** A selection is determined by its members. *)
Lemma strictly_sorted_unique (l1 l2 : list Z) :
  StronglySorted Z.lt l1 → StronglySorted Z.lt l2 → (∀ x, x ∈ l1 ↔ x ∈ l2) → l1 = l2.
Proof.
  intros H1 H2 Heq. eapply (StronglySorted_unique_strong Z.lt); [|done|done|].
  - intros x y _ _ Hxy Hyx. lia.
  - apply NoDup_Permutation; [by apply strictly_sorted_nodup..|done].
Qed.

Lemma selection_spec l x : x ∈ Compact (sort_by Z.leb l) ↔ x ∈ l.
Proof. by rewrite Compact_elem, elem_of_sort_by. Qed.

Lemma selection_sorted l : StronglySorted Z.lt (Compact (sort_by Z.leb l)).
Proof. apply Compact_sorted, sorted_ids. Qed.

Section scopes.
Implicit Types (user : User) (request grant : TokenScope).

(** The scoped case, once the scope and the role are known to be valid. *)
Lemma validated_selection user request grant s s' :
  requested_scope request = "scoped" → Valid (Role request) = true →
  let ids := default [] (ProjectIDs request) in
  (if bool_decide (length ids = 0%nat) then fail ErrTokenProjectsRequired
   else
     let ids := Compact (sort_by Z.leb ids) in
     validateTokenProjects user ids;;
     mret (mkTokenScope "scoped" (Role request) (Some ids))) s = Ok (grant, s') ↔
  s' = s ∧ Scope grant = "scoped" ∧ Role grant = Role request ∧
  (Scope grant = "global" ∧ (Role grant = "" ∨ Valid (Role grant) = true) ∧
     ids = [] ∧ ProjectIDs grant = Some [] ∨
   Scope grant = "scoped" ∧ Valid (Role grant) = true ∧
     ∃ l, ProjectIDs grant = Some l ∧ l ≠ [] ∧ StronglySorted Z.lt l ∧
       (∀ id, id ∈ l ↔ id ∈ ids) ∧ Forall (selectable s user) l).
Proof.
  intros Hs Hv ids. pose proof (selection_spec ids) as Hspec.
  pose proof (selection_sorted ids) as Hsorted. cbv zeta.
  set (l := Compact (sort_by Z.leb ids)) in *.
  case_bool_decide as Hlen.
  { split; [done|]. destruct ids; [|done].
    intros (_ & Hsc & _ & [(? & _)|(_ & _ & l' & _ & Hne & _ & Heq & _)]); [congruence|].
    destruct l' as [|x l']; [done|]. assert (x ∈ []) as Hx by (apply Heq; left).
    by apply elem_of_nil in Hx. }
  destruct (validate_projects user l s) as [[Hf H]|[Hf H]].
  - rewrite (bind_ok _ _ _ _ _ H). split.
    + intros [= <- <-]. split_and!; try done. right. split_and!; try done.
      exists l. split_and!; try done. intros Hl. destruct ids as [|x ids']; [done|].
      assert (x ∈ l) as Hx by (apply Hspec; left). rewrite Hl in Hx. by apply elem_of_nil in Hx.
    + intros (-> & Hsc & Hr & [(? & _)|(_ & _ & l' & Hp & _ & Hst & Heq & _)]); [congruence|].
      assert (l' = l) as -> by (apply strictly_sorted_unique; [done|done|]; intros x;
        by rewrite Heq, Hspec).
      destruct grant; cbn in *; by subst.
  - rewrite (bind_err _ _ _ _ H). split; [done|].
    intros (-> & Hsc & Hr & [(? & _)|(_ & _ & l' & Hp & _ & Hst & Heq & Hf')]); [congruence|].
    assert (l' = l) as -> by (apply strictly_sorted_unique; [done|done|]; intros x;
      by rewrite Heq, Hspec). done.
Qed.

(** A requested grant is accepted exactly when it is a global one without
    projects or a scoped one with a role and at least one project, all of them
    existing and within the user's reach; an accepted selection is sorted and
    free of duplicates, and a request that names a role or a selection, even an
    empty one, never becomes global access unless it says so. Validation
    changes nothing. *)
Theorem validate_token_scope user request grant s s' :
  ValidateTokenScope user request s = Ok (grant, s') ↔ s' = s ∧ valid_grant s user request grant.
Proof.
  unfold ValidateTokenScope, valid_grant.
  replace (if String.eqb (Scope request) "" then _ else Scope request)
    with (requested_scope request).
  2: { unfold requested_scope. case_match; [|done].
       destruct (String.eqb (Role request) ""); cbn; [|done]. by destruct (ProjectIDs request). }
  set (ids := default [] (ProjectIDs request)).
  destruct (String.eqb_spec (requested_scope request) "global") as [Hg|Hng].
  { rewrite Hg. destruct ids as [|x l] eqn:Ei; cbn [length]; rewrite ?bool_decide_true by done;
      rewrite ?bool_decide_false by done; cbn [negb orb].
    - destruct (String.eqb_spec (Role request) "") as [Hr|Hr]; cbn [negb andb];
        [|destruct (Valid (Role request)) eqn:Hv; cbn [negb]].
      3: { split; [done|]. intros (_ & ? & Hrole & [(_ & [?|?] & _)|(? & _)]); congruence. }
      all: split;
        [intros [= <- <-]; split_and!; try done; left; split_and!; try done;
           first [by left | by right]
        |intros (-> & Hs & Hrole & [(_ & _ & _ & Hp)|(? & _)]); [|congruence]];
        destruct grant; cbn in *; by subst.
    - split; [done|]. intros (_ & Hs & _ & [(_ & _ & ? & _)|(? & _)]); [done|congruence]. }
  destruct (String.eqb_spec (requested_scope request) "scoped") as [Hs|]; cbn [negb orb].
  2: { split; [done|]. intros (_ & ? & _ & [(? & _)|(? & _)]); congruence. }
  destruct (Valid (Role request)) eqn:Hv; cbn [negb].
  2: { split; [done|]. intros (_ & ? & Hr & [(? & _)|(_ & ? & _)]); congruence. }
  rewrite Hs. apply validated_selection; [done|done].
Qed.
End scopes.

(** ** Saving a grant *)

Definition same_grant (g1 g2 : TokenScope) : Prop :=
  Scope g1 = Scope g2 ∧ Role g1 = Role g2 ∧ default [] (ProjectIDs g1) = default [] (ProjectIDs g2).

Lemma strictly_sorted_of l : StronglySorted Z.le l → NoDup l → StronglySorted Z.lt l.
Proof.
  induction 1 as [|x l Hl IH Hx]; intros Hnd; [constructor|].
  apply NoDup_cons in Hnd as [Hnin Hnd]. constructor; [by apply IH|].
  apply Forall_forall. intros y Hy. rewrite Forall_forall in Hx. specialize (Hx _ Hy).
  assert (x ≠ y) by (by intros ->). lia.
Qed.

Lemma projects_sorted a id : StronglySorted Z.lt (projects_of_token a id).
Proof.
  unfold projects_of_token. apply strictly_sorted_of; [apply sorted_ids|].
  rewrite sort_by_perm. apply NoDup_fmap_2_strong.
  - intros [i1 p1] [i2 p2] [Hi1 _]%list_elem_of_filter [Hi2 _]%list_elem_of_filter. cbn in *.
    by intros ->; subst.
  - apply NoDup_filter, NoDup_elements.
Qed.

Definition with_projects (tp : gset (string * Z)) (s : DB) : DB :=
  set_access (ax_set_token_projects tp (db_access s)) s.

Lemma add_projects id ids s :
  NoDup ids → is_Some (ax_tokens (db_access s) !! id) →
  Forall (λ p, is_Some (db_projects s !! p) ∧ (id, p) ∉ ax_token_projects (db_access s)) ids →
  ∃ tp, for_each ids (AddApiTokenProject id) s = Ok (tt, with_projects tp s) ∧
    ∀ i p, (i, p) ∈ tp ↔ (i, p) ∈ ax_token_projects (db_access s) ∨ i = id ∧ p ∈ ids.
Proof.
  revert s. induction ids as [|p ids IH]; intros s Hnd Ht Hall; cbn [for_each].
  { exists (ax_token_projects (db_access s)). split.
    - unfold with_projects, mret, tx_ret. by destruct s as [? ? ? ? ? ? ? ? ? ? ? ? ? ? ? ? ? ? ? ? ? ? ? ? ? ? ? ? ? [] ?].
    - intros i p. split; [by left|]. intros [?|[_ Hp]]; [done|by apply elem_of_nil in Hp]. }
  apply NoDup_cons in Hnd as [Hnin Hnd]. apply Forall_cons in Hall as [[Hp Hnew] Hall].
  set (tp := {[ (id, p) ]} ∪ ax_token_projects (db_access s)).
  assert (AddApiTokenProject id p s = Ok (tt, with_projects tp s)) as Hadd.
  { unfold AddApiTokenProject. by rewrite !bool_decide_true by done. }
  rewrite (bind_ok _ _ _ _ _ Hadd).
  destruct (IH (with_projects tp s)) as (tp' & Hrun & Htp'); [done|done| |].
  { rewrite Forall_forall in Hall |- *. intros q Hq. destruct (Hall _ Hq) as [Hex Hqnew].
    split; [done|]. cbn. unfold tp. intros [[= ->]%elem_of_singleton|?]%elem_of_union; done. }
  exists tp'. split; [exact Hrun|]. intros i q. rewrite Htp'. cbn. unfold tp.
  rewrite elem_of_union, elem_of_singleton, elem_of_cons. naive_solver.
Qed.

(** The tables after a grant is saved. *)
Definition granted (s : DB) (id : string) (t : ApiToken) (grant : TokenScope)
    (tp : gset (string * Z)) : DB :=
  with_projects tp (set_access (ax_set_tokens
    (<[id := tk_set_TokenRole (Role grant) (tk_set_Scope (Scope grant) t)]>
       (ax_tokens (db_access s))) (db_access s)) s).

Lemma tokens_ok_granted s id t grant :
  access_ok (db_access s) = true → ax_tokens (db_access s) !! id = Some t →
  Scope grant ∈ ["global"; "scoped"] → Role grant ∈ "" :: role_names →
  tokens_ok (ax_set_tokens
    (<[id := tk_set_TokenRole (Role grant) (tk_set_Scope (Scope grant) t)]>
       (ax_tokens (db_access s))) (db_access s)) = true.
Proof.
  intros Hok Ht Hs Hr. pose proof (access_ok_tokens _ Hok _ _ Ht) as (_ & _ & Hu & _).
  unfold access_ok, tokens_ok in *.
  apply andb_true_iff in Hok as [_ [Hrows Huniq]%andb_true_iff]. apply andb_true_iff.
  cbn [ax_tokens ax_users ax_set_tokens]. split.
  - apply forall_rows_insert; [done|]. apply andb_true_iff. split; [apply andb_true_iff; split|].
    + by apply in_list_true.
    + by apply in_list_true.
    + by apply bool_decide_eq_true.
  - apply unique_on_insert; [done|]. cbn. intros h k t' [= <-] Hk Ht' [= Heq].
    rewrite unique_on_true in Huniq. by apply Hk, (Huniq k id t' t (tk_TokenHash t)); [..|rewrite Heq|].
Qed.

Lemma save_grant s id t grant :
  access_ok (db_access s) = true → ax_tokens (db_access s) !! id = Some t →
  tk_RevokedAt t = None → Scope grant ∈ ["global"; "scoped"] → Role grant ∈ "" :: role_names →
  NoDup (default [] (ProjectIDs grant)) →
  Forall (λ p, is_Some (db_projects s !! p)) (default [] (ProjectIDs grant)) →
  ∃ tp, SaveTokenScope id grant s = Ok (tt, granted s id t grant tp) ∧
    ∀ i p, (i, p) ∈ tp ↔
      i ≠ id ∧ (i, p) ∈ ax_token_projects (db_access s) ∨
      i = id ∧ p ∈ default [] (ProjectIDs grant).
Proof.
  intros Hok Ht Hrev Hs Hr Hnd Hex.
  pose proof (tokens_ok_granted _ _ _ _ Hok Ht Hs Hr) as Htok.
  set (t' := tk_set_TokenRole (Role grant) (tk_set_Scope (Scope grant) t)) in *.
  set (a' := ax_set_tokens (<[id := t']> (ax_tokens (db_access s))) (db_access s)) in *.
  set (cleared := filter (λ tp, tp.1 ≠ id) (ax_token_projects a')).
  destruct (add_projects id (default [] (ProjectIDs grant)) (with_projects cleared (set_access a' s)))
    as (tp & Hrun & Htp); [done|..].
  { cbn. rewrite lookup_insert_eq. eauto. }
  { rewrite Forall_forall in Hex |- *. intros p Hp. split; [by apply Hex|].
    cbn. unfold cleared. intros [Hn _]%elem_of_filter. by apply Hn. }
  exists tp. split.
  - unfold SaveTokenScope. assert (SetApiTokenScope (Scope grant) (Role grant) id s
      = Ok (1, set_access a' s)) as Hset.
    { unfold SetApiTokenScope, update_pk. rewrite Ht.
      assert (is_null (tk_RevokedAt t) = true) as -> by (by apply is_null_true).
      cbn [compose]. fold t' a'. by rewrite Htok. }
    rewrite (bind_ok _ _ _ _ _ Hset). cbn [Z.eqb]. exact Hrun.
  - intros i p. rewrite Htp. cbn. unfold cleared. rewrite elem_of_filter. cbn. naive_solver.
Qed.

Lemma granted_ok s id t grant tp :
  access_ok (db_access s) = true → ax_tokens (db_access s) !! id = Some t →
  Scope grant ∈ ["global"; "scoped"] → Role grant ∈ "" :: role_names →
  access_ok (db_access (granted s id t grant tp)) = true.
Proof.
  intros Hok Ht Hs Hr. pose proof (tokens_ok_granted _ _ _ _ Hok Ht Hs Hr) as Htok.
  pose proof (access_ok_tokens _ Hok _ _ Ht) as (Hid & Hne & _).
  unfold access_ok in *. rewrite !andb_true_iff in Hok |- *.
  destruct Hok as ((((Hku & Hkt) & Hn) & Hu) & _). split; [|exact Htok].
  split_and!; [exact Hku| | |exact Hu]; cbn.
  - apply keyed_true. intros k r. destruct (decide (k = id)) as [->|Hk].
    + rewrite lookup_insert_eq. by intros [= <-].
    + rewrite lookup_insert_ne by done. by apply keyed_true.
  - by rewrite lookup_insert_ne.
Qed.

Lemma valid_grant_shape s user request grant :
  valid_grant s user request grant →
  Scope grant ∈ ["global"; "scoped"] ∧ Role grant ∈ "" :: role_names ∧
  StronglySorted Z.lt (default [] (ProjectIDs grant)) ∧
  Forall (λ p, is_Some (db_projects s !! p)) (default [] (ProjectIDs grant)) ∧
  (Scope grant = "global" → default [] (ProjectIDs grant) = []) ∧ grant_valid grant = true.
Proof.
  intros (_ & _ & [(Hs & Hr & _ & Hp)|(Hs & Hr & ids & Hp & Hne & Hst & _ & Hf)]);
    rewrite Hs, Hp; cbn [default from_option]; unfold grant_valid; rewrite Hs, Hp; cbn.
  - split_and!; try done; [set_solver| |repeat constructor|].
    + destruct Hr as [->|Hr]; [left|right]. by apply Valid_all.
    + destruct Hr as [->|Hr]; [done|]. rewrite Hr. by apply orb_true_r.
  - split_and!; try done; [set_solver|right; by apply Valid_all| |].
    + eapply Forall_impl; [exact Hf|]. by intros p (_ & ? & _).
    + rewrite Hr, bool_decide_false by done. done.
Qed.

(** The grant read back is the one that was saved. *)
Lemma granted_reads_back s id t grant tp :
  tk_ID t = id → StronglySorted Z.lt (default [] (ProjectIDs grant)) →
  (∀ i p, (i, p) ∈ tp ↔
    i ≠ id ∧ (i, p) ∈ ax_token_projects (db_access s) ∨
    i = id ∧ p ∈ default [] (ProjectIDs grant)) →
  (Scope grant = "global" → default [] (ProjectIDs grant) = []) →
  Scope grant ∈ ["global"; "scoped"] →
  same_grant (stored_grant (granted s id t grant tp)
    (tk_set_TokenRole (Role grant) (tk_set_Scope (Scope grant) t))) grant.
Proof.
  intros Hid Hst Htp Hglobal Hs. unfold same_grant, stored_grant. cbn. split_and!; [done|done|].
  destruct (String.eqb_spec (Scope grant) "scoped") as [He|He].
  - rewrite default_go_slice. apply strictly_sorted_unique; [apply projects_sorted|done|].
    intros p. rewrite (elem_of_projects (granted s id t grant tp)). cbn. rewrite Htp, Hid. naive_solver.
  - rewrite Hglobal; [done|]. set_solver.
Qed.

Lemma granted_elsewhere s id t grant tp t2 :
  (∀ i p, (i, p) ∈ tp ↔
    i ≠ id ∧ (i, p) ∈ ax_token_projects (db_access s) ∨
    i = id ∧ p ∈ default [] (ProjectIDs grant)) →
  tk_ID t2 ≠ id → stored_grant (granted s id t grant tp) t2 = stored_grant s t2.
Proof.
  intros Htp Hne. unfold stored_grant. f_equal. case_match; [|done]. f_equal.
  apply strictly_sorted_unique; [apply projects_sorted..|]. intros p.
  rewrite (elem_of_projects (granted s id t grant tp)), (elem_of_projects s). cbn.
  rewrite Htp. naive_solver.
Qed.

Lemma grant_valid_same g1 g2 : same_grant g1 g2 → grant_valid g1 = grant_valid g2.
Proof. unfold same_grant, grant_valid. by intros (-> & -> & ->). Qed.

(** Editing the grant of a live token with a validated one succeeds and is
    what the next request reads: the stored grant is the new one, it loads
    without error, the previous grant is returned, and no other token changes. *)
Theorem token_scope_round_trip (s : DB) (id : string) (t : ApiToken) (user : User)
    (request grant : TokenScope) :
  access_ok (db_access s) = true → ax_tokens (db_access s) !! id = Some t →
  tk_RevokedAt t = None → valid_grant s user request grant →
  ∃ previous s' t',
    replaceTokenScope id grant s = Ok (previous, s') ∧ access_ok (db_access s') = true ∧
    previous = mkTokenScope (tk_Scope t) (tk_TokenRole t) (go_slice (projects_of_token (db_access s) id)) ∧
    ax_tokens (db_access s') !! id = Some t' ∧ same_grant (stored_grant s' t') grant ∧
    (∀ now u, token_live now t = true → ax_users (db_access s) !! tk_UserID t = Some u →
       loadTokenAccess now (tk_TokenHash t) s' s' = Ok ((t', u), stored_grant s' t')) ∧
    (∀ id2 t2, id2 ≠ id → ax_tokens (db_access s) !! id2 = Some t2 →
       ax_tokens (db_access s') !! id2 = Some t2 ∧ stored_grant s' t2 = stored_grant s t2).
Proof.
  intros Hok Ht Hrev Hgrant.
  destruct (valid_grant_shape _ _ _ _ Hgrant) as (Hs & Hr & Hst & Hex & Hglobal & Hvalid).
  pose proof (access_ok_tokens _ Hok _ _ Ht) as (Hid & _).
  destruct (save_grant s id t grant) as (tp & Hsave & Htp); try done.
  { by apply strictly_sorted_nodup. }
  set (s' := granted s id t grant tp) in *.
  set (t' := tk_set_TokenRole (Role grant) (tk_set_Scope (Scope grant) t)).
  assert (access_ok (db_access s') = true) as Hok' by (by apply granted_ok).
  assert (same_grant (stored_grant s' t') grant) as Hsame by (by apply granted_reads_back).
  assert (ax_tokens (db_access s') !! id = Some t') as Ht' by (cbn; apply lookup_insert_eq).
  eexists _, s', t'. split; [|split_and!; try done].
  - unfold replaceTokenScope, GetApiTokenByID, ListApiTokenProjectIDs, read, mbind, tx_bind.
    rewrite Ht. assert (is_null (tk_RevokedAt t) = true) as -> by (by apply is_null_true).
    by rewrite Hsave.
  - intros now u Hlive Hu. apply load_token; [done|]. split_and!; [|done|].
    + split_and!; [cbn; rewrite Hid; apply lookup_insert_eq|done|done|done].
    + by rewrite (grant_valid_same _ _ Hsame).
  - intros id2 t2 Hne Ht2. split; [cbn; by rewrite lookup_insert_ne|].
    apply granted_elsewhere; [done|]. pose proof (access_ok_tokens _ Hok _ _ Ht2) as (-> & _). done.
Qed.

(** ** Witness: the sample token is narrowed to a viewer of project 7 *)
Lemma token_scope_round_trip_witness :
  ∃ previous s' t',
    replaceTokenScope "t1" (mkTokenScope "scoped" "viewer" (Some [7]))
      (sample_access_store "deployer" [7]) = Ok (previous, s') ∧
    previous = mkTokenScope "scoped" "deployer" (Some [7]) ∧
    ax_tokens (db_access s') !! "t1" = Some t' ∧ tk_TokenRole t' = "viewer".
Proof.
  destruct (token_scope_round_trip (sample_access_store "deployer" [7]) "t1" (sample_row "deployer")
    sample_owner (mkTokenScope "" "viewer" (Some [7; 7])) (mkTokenScope "scoped" "viewer" (Some [7])))
    as (previous & s' & t' & Hrun & _ & Hprev & Ht' & (_ & Hrole & _) & _).
  - vm_compute. reflexivity.
  - reflexivity.
  - reflexivity.
  - split; [reflexivity|]. split; [reflexivity|]. right. split; [done|]. split; [reflexivity|].
    exists [7]. split; [done|]. split; [done|]. split; [repeat constructor|]. split.
    + intros id. cbn. rewrite !elem_of_cons. naive_solver.
    + apply Forall_singleton. split; [lia|]. split; [by eexists|right; by eexists].
  - exists previous, s', t'. split; [exact Hrun|]. split; [|split; [exact Ht'|exact Hrole]].
    rewrite Hprev. vm_compute. reflexivity.
Defined.
