(* ===== verification/Password.v ===== *)
(** * Password: password hashes (internal/auth/auth.go)

    A hash is the PHC text [$argon2id$v=19$m=..,t=..,p=..$salt$digest]. The
    argon2 key derivation of golang.org/x/crypto is a parameter. *)
From stdpp Require Import pretty.
From S2P Require Import Prelude Text Base64.

(** ** HashPassword and VerifyPassword *)

Definition argon2Time : Z := 2.
Definition argon2Memory : Z := 65536.
Definition argon2Threads : Z := 2.
Definition argon2SaltLen : Z := 16.
Definition argon2KeyLen : Z := 32.

Definition dollar : Ascii.ascii := Ascii.ascii_of_nat 36.
Definition comma : Ascii.ascii := Ascii.ascii_of_nat 44.
Definition equals : Ascii.ascii := Ascii.ascii_of_nat 61.

(** [strconv.ParseUint(p, 10, bits)] *)
Definition ParseUint (p : string) (bits : Z) : option Z :=
  value ← unsigned p; if bool_decide (value < 2 ^ bits) then Some value else None.

(** The loop over the parameters; a later one overwrites an earlier one. *)
Fixpoint read_params (params : list string) (mem time threads : Z) : option (Z * Z * Z) :=
  match params with
  | [] => Some (mem, time, threads)
  | p :: rest =>
      '(key, value) ← cut equals p;
      if String.eqb key "m" then v ← ParseUint value 32; read_params rest v time threads
      else if String.eqb key "t" then v ← ParseUint value 32; read_params rest mem v threads
      else if String.eqb key "p" then v ← ParseUint value 8; read_params rest mem time v
      else None
  end.

Section passwords.

(** [argon2.IDKey(password, salt, time, memory, threads, keyLen)]; it panics
    ([None]) without a pass or a thread. *)
Context (IDKey : string → bytes → Z → Z → Z → Z → option bytes).

Definition phc (salt digest : bytes) : string :=
  "$argon2id$v=19$m=" +:+ pretty argon2Memory +:+ ",t=" +:+ pretty argon2Time +:+ ",p="
  +:+ pretty argon2Threads +:+ "$" +:+ RawEncode salt +:+ "$" +:+ RawEncode digest.

(** [salt]: what rand.Read filled in, [None] when it failed; [None]: a panic. *)
Definition HashPassword (salt : option bytes) (password : string) : option (result string) :=
  match salt with
  | None => Some (Err (ErrOther "generate salt"))
  | Some salt =>
      hash ← IDKey password salt argon2Time argon2Memory argon2Threads argon2KeyLen;
      Some (Ok (phc salt hash))
  end.

Definition VerifyPassword (hash password : string) : option bool :=
  match split_on dollar hash with
  | [_; name; version; params; salt; digest] =>
      if negb (String.eqb name "argon2id") then Some false
      else if negb (String.eqb version "v=19") then Some false
      else
        let params := split_on comma params in
        if negb (Nat.eqb (length params) 3) then Some false
        else match read_params params 0 0 0 with
        | None => Some false
        | Some (mem, time, threads) =>
            match RawDecode salt, RawDecode digest with
            | Some salt, Some expectedHash =>
                let keyLen := Z.of_nat (length expectedHash) mod 2 ^ 32 in
                computedHash ← IDKey password salt time mem threads keyLen;
                Some (bool_decide (computedHash = expectedHash))
            | _, _ => Some false
            end
        end
  | _ => Some false
  end.
End passwords.

(** ** Hash and verify *)

(** The parts a verifier finds in a hash. *)
Lemma phc_parts salt digest :
  Forall is_byte salt → Forall is_byte digest →
  split_on dollar (phc salt digest) =
    [""; "argon2id"; "v=19"; "m=65536,t=2,p=2"; RawEncode salt; RawEncode digest].
Proof.
  intros Hs Hd. unfold phc.
  change (split_on dollar
    ("" +:+ String dollar ("argon2id" +:+ String dollar ("v=19" +:+ String dollar
      ("m=65536,t=2,p=2" +:+ String dollar (RawEncode salt +:+ String dollar
        (RawEncode digest)))))) =
    [""; "argon2id"; "v=19"; "m=65536,t=2,p=2"; RawEncode salt; RawEncode digest]).
  by rewrite !split_on_app, !split_on_free by (reflexivity || by apply raw_free).
Qed.

Section verify.
Context (IDKey : string → bytes → Z → Z → Z → Z → option bytes).

(** argon2 derives a key of the requested length from any password and salt,
    as long as there is a pass and a thread. *)
Hypothesis IDKey_total : ∀ password salt time memory threads keyLen,
  1 ≤ time → 1 ≤ threads → 0 ≤ keyLen →
  ∃ key, IDKey password salt time memory threads keyLen = Some key ∧
    Forall is_byte key ∧ Z.of_nat (length key) = keyLen.

(** Hashing a password succeeds, and the hash verifies a password exactly
    when argon2 derives the same key for both with the stored salt and the
    default parameters; so the password that was hashed verifies. *)
Theorem password_round_trip (salt : bytes) (password other : string) :
  Forall is_byte salt →
  ∃ hash, HashPassword IDKey (Some salt) password = Some (Ok hash) ∧
    VerifyPassword IDKey hash password = Some true ∧
    (VerifyPassword IDKey hash other = Some true ∨ VerifyPassword IDKey hash other = Some false) ∧
    (VerifyPassword IDKey hash other = Some true ↔
     IDKey other salt argon2Time argon2Memory argon2Threads argon2KeyLen =
     IDKey password salt argon2Time argon2Memory argon2Threads argon2KeyLen).
Proof.
  intros Hsalt.
  destruct (IDKey_total password salt argon2Time argon2Memory argon2Threads argon2KeyLen)
    as (key & Hkey & Hbytes & Hlen); [done..|].
  assert (∀ q, VerifyPassword IDKey (phc salt key) q =
    computed ← IDKey q salt argon2Time argon2Memory argon2Threads argon2KeyLen;
    Some (bool_decide (computed = key))) as Hverify.
  { intros q. unfold VerifyPassword. rewrite phc_parts by done. cbn [String.eqb negb].
    rewrite !raw_round_trip by done. rewrite Hlen. reflexivity. }
  exists (phc salt key). split; [unfold HashPassword; by rewrite Hkey|].
  rewrite !Hverify, Hkey. cbn. rewrite bool_decide_true by done. split; [done|].
  destruct (IDKey_total other salt argon2Time argon2Memory argon2Threads argon2KeyLen)
    as (key' & -> & _); [done..|]. cbn. case_bool_decide; naive_solver.
Qed.
End verify.

(** ** Witness: a key derivation that pads the password *)

Definition sample_IDKey (password : string) (salt : bytes) (time memory threads keyLen : Z)
    : option bytes :=
  if bool_decide (1 ≤ time ∧ 1 ≤ threads) then
    Some (take (Z.to_nat keyLen)
      (((λ c, Z.of_nat (Ascii.nat_of_ascii c)) <$> String.list_ascii_of_string password)
       ++ repeat 0 (Z.to_nat keyLen)))
  else None.

Lemma sample_IDKey_total password salt time memory threads keyLen :
  1 ≤ time → 1 ≤ threads → 0 ≤ keyLen →
  ∃ key, sample_IDKey password salt time memory threads keyLen = Some key ∧
    Forall is_byte key ∧ Z.of_nat (length key) = keyLen.
Proof.
  intros Ht Hth Hk. unfold sample_IDKey. rewrite bool_decide_true by done. eexists. split; [done|].
  split.
  - apply Forall_take, Forall_app. split.
    + apply Forall_fmap, Forall_forall. intros c _. unfold is_byte. cbn.
      pose proof (Ascii.nat_ascii_bounded c). lia.
    + apply Forall_forall. intros x Hx%list_elem_of_In%repeat_spec. subst. done.
  - rewrite length_take, length_app, repeat_length. lia.
Qed.

Lemma password_round_trip_witness :
  ∃ hash, HashPassword sample_IDKey (Some [1; 2; 250]) "secret" = Some (Ok hash) ∧
    VerifyPassword sample_IDKey hash "secret" = Some true ∧
    VerifyPassword sample_IDKey hash "guess" ≠ Some true.
Proof.
  destruct (password_round_trip sample_IDKey sample_IDKey_total [1; 2; 250] "secret" "guess")
    as (hash & Hhash & Hv & _ & Heq); [repeat constructor; lia|].
  exists hash. split; [exact Hhash|]. split; [exact Hv|]. rewrite Heq. vm_compute. discriminate.
Defined.
