(* ===== verification/Accounts.v ===== *)
(** * Accounts: local accounts and browser sessions
    (internal/auth/session.go and local_administration.go,
    internal/repository/local_administration.go)

    The random session tokens and the salt are arguments; an error of [WithTx]
    itself and the retries while SQLite is busy are not modelled. *)
From S2P Require Import Prelude Text Db Tx Roles AccessQueries Access AccessTheorems Base64 Password.

(** A transaction that first takes the row of local_administration_lock. *)
Definition local_administration {A} (mutate : Tx A) : Tx A :=
  locked ← LockLocalAdministration;
  guard (Z.eqb locked 1) (ErrOther "local administration lock is unavailable");;
  mutate.

Definition WithLocalAdministrationTx {A} (mutate : Tx A) : DB → result A * DB :=
  WithTx (local_administration mutate).

Definition protectLastAdministrator (user : User) : Tx unit :=
  if negb (String.eqb (u_Role user) "admin") then mret tt
  else
    count ← CountAdministrators;
    guard (negb (bool_decide (count ≤ 1))) ErrLastAdministrator.

Definition InvalidateBrowserAuthInTx (user : Z) : Tx unit :=
  DeleteMFAChallengesByUserID user;;
  DeleteSessionsByUser user.

Definition InvalidateBrowserAuth (user : Z) : DB → result unit * DB :=
  WithTx (InvalidateBrowserAuthInTx user).

Definition deleteAccount (user : Z) : Tx unit :=
  locked ← LockMFAUser user;
  if Z.eqb locked 0 then mret tt
  else
    current ← GetUserByID user;
    protectLastAdministrator current;;
    InvalidateBrowserAuthInTx user;;
    DeleteUser user.

Definition DeleteAccount (user : Z) : DB → result unit * DB :=
  WithLocalAdministrationTx (deleteAccount user).

(** [hash]: the hash of a new password, empty without one. *)
Definition updateAccount (profile : UpdateUserParams) (hash : string) : Tx User :=
  let id := uu_ID profile in
  locked ← LockMFAUser id;
  if Z.eqb locked 0 then fail ErrNoRows
  else
    current ← GetUserByID id;
    (if negb (String.eqb (uu_Role profile) "admin") then protectLastAdministrator current
     else mret tt);;
    UpdateUser profile;;
    (if negb (String.eqb hash "") then UpdateUserPassword hash id else mret tt);;
    (if negb (String.eqb hash "") || negb (String.eqb (u_Role current) (uu_Role profile))
     then InvalidateBrowserAuthInTx id else mret tt);;
    GetUserByID id.

Record PasswordChange := mkPasswordChange {
  pc_UserID : Z;
  pc_Password : string;
  pc_ExpectedHash : string }.

Definition updatePassword (change : PasswordChange) (hash : string) : Tx unit :=
  (if negb (String.eqb (pc_ExpectedHash change) "") then
     LockMFAUser (pc_UserID change);;
     user ← GetUserByID (pc_UserID change);
     guard (String.eqb (u_PasswordHash user) (pc_ExpectedHash change)) ErrPasswordChanged
   else mret tt);;
  UpdateUserPassword hash (pc_UserID change);;
  InvalidateBrowserAuthInTx (pc_UserID change).

Section passwords.
Context (IDKey : string → bytes → Z → Z → Z → Z → option bytes).

(** [None] is a panic of argon2. *)
Definition UpdateAccount (profile : UpdateUserParams) (salt : option bytes) (password : string)
    (s : DB) : option (result User * DB) :=
  if negb (String.eqb password "") then
    hash ← HashPassword IDKey salt password;
    Some (match hash with
          | Ok hash => WithLocalAdministrationTx (updateAccount profile hash) s
          | Err e => (Err e, s)
          end)
  else Some (WithLocalAdministrationTx (updateAccount profile "") s).

Definition UpdatePassword (change : PasswordChange) (salt : option bytes) (s : DB)
    : option (result unit * DB) :=
  hash ← HashPassword IDKey salt (pc_Password change);
  Some (match hash with
        | Ok hash => WithTx (updatePassword change hash) s
        | Err e => (Err e, s)
        end).
End passwords.

(** ** Browser sessions *)

Definition browserSessionTTL : Z := 24 * 60 * 60.

(** [audited]: the Audit callback is set. *)
Record BrowserSessionIssue := mkIssue {
  bi_UserID : Z;
  bi_IPAddress : string;
  bi_UserAgent : string;
  bi_audited : bool }.

Definition null_string (text : string) : option string :=
  if negb (String.eqb text "") then Some text else None.

(** [credentials]: the token and the CSRF token of NewSessionToken. *)
Definition IssueBrowserSessionWith (now : Z) (credentials : result (string * string))
    (issue : BrowserSessionIssue) : Tx Session :=
  guard (bi_audited issue) ErrSessionAuditRequired;;
  match credentials with
  | Err e => fail e
  | Ok (token, csrf) =>
      session ← CreateSession (mkCreateSession token (bi_UserID issue) csrf
                  (now + browserSessionTTL) (null_string (bi_IPAddress issue))
                  (null_string (bi_UserAgent issue)));
      UpdateUserLastLogin (Some now) (bi_UserID issue);;
      mret session
  end.

Definition IssueBrowserSession (now : Z) (credentials : result (string * string))
    (issue : BrowserSessionIssue) : DB → result Session * DB :=
  WithTx (IssueBrowserSessionWith now credentials issue).

Definition recentAuthTTL : Z := 5 * 60.

(** [now] in nanoseconds, as time.Since measures it. *)
Definition IsRecentlyAuthenticated (now : Z) (session : option Session) : bool :=
  match session with
  | Some se =>
      match se_ReauthenticatedAt se with
      | Some at_ => bool_decide (now - at_ * 10 ^ 9 < recentAuthTTL * 10 ^ 9)
      | None => false
      end
  | None => false
  end.

(** ** What each transaction does *)

(** The browser credentials of a user are gone; nothing else changes. *)
Definition signed_out (user : Z) (a : Access) : Access :=
  ax_set_sessions (filter (λ ks, se_UserID ks.2 ≠ user) (ax_sessions a))
    (ax_set_challenges (filter (λ kc, kc.2 ≠ user) (ax_challenges a)) a).

Lemma invalidate_run user s :
  InvalidateBrowserAuthInTx user s = Ok (tt, set_access (signed_out user (db_access s)) s).
Proof. reflexivity. Qed.

(** The guard against removing the last administrator passes. *)
Definition spare_admin (a : Access) (current : User) : Prop :=
  u_Role current = "admin" → (2 ≤ size (administrators a))%nat.

Lemma protect_inv current s u s' :
  protectLastAdministrator current s = Ok (u, s') → s' = s ∧ spare_admin (db_access s) current.
Proof.
  unfold protectLastAdministrator, spare_admin, CountAdministrators, read, guard, mbind, tx_bind.
  destruct (String.eqb_spec (u_Role current) "admin") as [Ha|Ha]; cbn; [|by intros [= _ <-]].
  case_bool_decide as Hc; cbn; [done|]. intros [= _ <-]. split; [done|]. intros _. lia.
Qed.

Lemma delete_account_inv user s s' :
  deleteAccount user s = Ok (tt, s') →
  ax_users (db_access s) !! user = None ∧ s' = s ∨
  ∃ row, ax_users (db_access s) !! user = Some row ∧ spare_admin (db_access s) row ∧
    db_access s' = without_user user (signed_out user (db_access s)).
Proof.
  unfold deleteAccount. intros H. apply bind_inv in H as (n & s1 & [= <- <-] & H).
  destruct (ax_users (db_access s) !! user) as [row|] eqn:Hrow; cbn in H.
  2: { left. by injection H as <-. }
  right. exists row. apply bind_inv in H as (current & s1 & Hget & H).
  unfold GetUserByID in Hget. rewrite Hrow in Hget. injection Hget as <- <-.
  apply bind_inv in H as ([] & s1 & [-> Hspare]%protect_inv & H).
  split; [done|]. split; [done|].
  apply bind_inv in H as ([] & s1 & Hinv & H). rewrite invalidate_run in Hinv.
  injection Hinv as <-. unfold DeleteUser, write in H. cbn in H.
  destruct (decide _) as [_|Hn]; [|by destruct Hn; rewrite Hrow; eauto]. by injection H as <-.
Qed.

(** The row an update leaves. *)
Definition updated (now : Z) (profile : UpdateUserParams) (hash : string) (row : User) : User :=
  let row := u_set_UpdatedAt now (u_set_Role (uu_Role profile) (u_set_Name (uu_Name profile) row)) in
  if String.eqb hash "" then row else u_set_UpdatedAt now (u_set_PasswordHash hash row).

(** The change that ends the sessions of a user. *)
Definition credentials_change (profile : UpdateUserParams) (hash : string) (row : User) : bool :=
  negb (String.eqb hash "") || negb (String.eqb (u_Role row) (uu_Role profile)).

Lemma update_user_inv id set s u s' :
  update_user id set s = Ok (u, s') →
  s' = set_access (ax_set_users (alter set id (ax_users (db_access s))) (db_access s)) s ∧
  users_ok (alter set id (ax_users (db_access s))) = true.
Proof.
  unfold update_user, write_access, checked. cbn. case_match; [|done]. by intros [= _ <-].
Qed.

Definition profile_written (s : DB) (profile : UpdateUserParams) (hash : string) (row : User) : Access :=
  ax_set_users (<[uu_ID profile := updated (db_now s) profile hash row]> (ax_users (db_access s)))
    (db_access s).

(** The optional password statement completes the row that UpdateUser wrote. *)
Lemma password_step profile hash s row u s' :
  let set := u_set_UpdatedAt (db_now s) ∘ u_set_Role (uu_Role profile) ∘ u_set_Name (uu_Name profile) in
  let users := alter set (uu_ID profile) (ax_users (db_access s)) in
  users_ok users = true → ax_users (db_access s) !! uu_ID profile = Some row →
  (if negb (String.eqb hash "") then UpdateUserPassword hash (uu_ID profile) else mret tt)
    (set_access (ax_set_users users (db_access s)) s) = Ok (u, s') →
  s' = set_access (profile_written s profile hash row) s ∧
  users_ok (ax_users (profile_written s profile hash row)) = true.
Proof.
  intros set users Hok Hrow. unfold profile_written, updated.
  assert (users = <[uu_ID profile := set row]> (ax_users (db_access s))) as Husers.
  { unfold users. apply map_eq. intros k. destruct (decide (k = uu_ID profile)) as [->|].
    - by rewrite lookup_alter_eq, lookup_insert_eq, Hrow.
    - by rewrite lookup_alter_ne, lookup_insert_ne. }
  destruct (String.eqb hash "") eqn:Eh; cbn [negb].
  - intros [= <- <-]. rewrite Husers in *. done.
  - intros [-> Hok']%update_user_inv.
    assert (alter (u_set_UpdatedAt (db_now s) ∘ u_set_PasswordHash hash) (uu_ID profile) users =
      <[uu_ID profile := u_set_UpdatedAt (db_now s) (u_set_PasswordHash hash (set row))]>
        (ax_users (db_access s))) as Heq.
    { rewrite Husers. apply map_eq. intros k. destruct (decide (k = uu_ID profile)) as [->|].
      - by rewrite lookup_alter_eq, !lookup_insert_eq.
      - by rewrite lookup_alter_ne, !lookup_insert_ne. }
    split.
    + change (set_access (ax_set_users (alter (u_set_UpdatedAt (db_now s) ∘ u_set_PasswordHash hash)
        (uu_ID profile) users) (db_access s)) s = set_access (ax_set_users
        (<[uu_ID profile := u_set_UpdatedAt (db_now s) (u_set_PasswordHash hash (set row))]>
        (ax_users (db_access s))) (db_access s)) s). by rewrite Heq.
    + change (users_ok (<[uu_ID profile := u_set_UpdatedAt (db_now s) (u_set_PasswordHash hash (set row))]>
        (ax_users (db_access s))) = true). by rewrite <-Heq.
Qed.

Lemma update_account_inv profile hash s u s' :
  updateAccount profile hash s = Ok (u, s') →
  ∃ row, ax_users (db_access s) !! uu_ID profile = Some row ∧
    (uu_Role profile ≠ "admin" → spare_admin (db_access s) row) ∧
    u = updated (db_now s) profile hash row ∧
    let a := ax_set_users (<[uu_ID profile := u]> (ax_users (db_access s))) (db_access s) in
    users_ok (ax_users a) = true ∧
    db_access s' = if credentials_change profile hash row then signed_out (uu_ID profile) a else a.
Proof.
  unfold updateAccount. intros H. apply bind_inv in H as (n & s1 & [= <- <-] & H).
  destruct (ax_users (db_access s) !! uu_ID profile) as [row|] eqn:Hrow; [|done].
  cbn [Z.eqb] in H. exists row. apply bind_inv in H as (current & s1 & Hget & H).
  unfold GetUserByID in Hget. rewrite Hrow in Hget. injection Hget as <- <-.
  apply bind_inv in H as ([] & s1 & Hprot & H).
  assert (s1 = s ∧ (uu_Role profile ≠ "admin" → spare_admin (db_access s) row)) as [-> Hspare].
  { destruct (String.eqb_spec (uu_Role profile) "admin") as [|Hna]; cbn [negb] in Hprot.
    - by injection Hprot as <-.
    - by apply protect_inv in Hprot as [-> ?]. }
  apply bind_inv in H as ([] & s2 & [-> Hok]%update_user_inv & H).
  apply bind_inv in H as ([] & s3 & Hpass & H).
  apply bind_inv in H as ([] & s4 & Hinv & H).
  apply (password_step profile hash s row) in Hpass as [-> Hok3]; [|exact Hok|exact Hrow].
  assert (s4 = set_access (if credentials_change profile hash row
      then signed_out (uu_ID profile) (profile_written s profile hash row)
      else profile_written s profile hash row) s) as ->.
  { unfold credentials_change. destruct (negb (String.eqb hash "") || _).
    - rewrite invalidate_run in Hinv. by injection Hinv as <-.
    - by injection Hinv as <-. }
  unfold GetUserByID in H. cbn [db_access set_access] in H.
  replace (ax_users _) with (<[uu_ID profile := updated (db_now s) profile hash row]>
    (ax_users (db_access s))) in H by (by destruct (credentials_change profile hash row)).
  rewrite lookup_insert_eq in H. injection H as <- <-. done.
Qed.

(** ** An administrator always remains *)

Definition has_admin (a : Access) : Prop :=
  ∃ id u, ax_users a !! id = Some u ∧ u_Role u = "admin".

(** The requests that change accounts and sessions, each a transaction. *)
Inductive account_request :=
  | UpdateRequest (profile : UpdateUserParams) (hash : string)
  | DeleteRequest (user : Z)
  | PasswordRequest (change : PasswordChange) (hash : string)
  | SignOutRequest (user : Z)
  | SignInRequest (now : Z) (credentials : result (string * string)) (issue : BrowserSessionIssue).

Definition serve_account (s : DB) (request : account_request) : DB :=
  match request with
  | UpdateRequest profile hash => (WithLocalAdministrationTx (updateAccount profile hash) s).2
  | DeleteRequest user => (DeleteAccount user s).2
  | PasswordRequest change hash => (WithTx (updatePassword change hash) s).2
  | SignOutRequest user => (InvalidateBrowserAuth user s).2
  | SignInRequest now credentials issue => (IssueBrowserSession now credentials issue s).2
  end.

Lemma WithTx_cases {A} (m : Tx A) s :
  (∃ a s', m s = Ok (a, s') ∧ WithTx m s = (Ok a, s')) ∨
  (∃ e, m s = Err e ∧ WithTx m s = (Err e, s)).
Proof. unfold WithTx. destruct (m s) as [[a s']|e]; eauto 10. Qed.

(** The administration lock touches no other row. *)
Lemma locked_inv {A} (m : Tx A) s a s' :
  local_administration m s = Ok (a, s') →
  ∃ s1, m s1 = Ok (a, s') ∧ db_now s1 = db_now s ∧
    ax_users (db_access s1) = ax_users (db_access s) ∧
    ax_sessions (db_access s1) = ax_sessions (db_access s) ∧
    ax_challenges (db_access s1) = ax_challenges (db_access s) ∧
    ax_tokens (db_access s1) = ax_tokens (db_access s) ∧
    ax_token_projects (db_access s1) = ax_token_projects (db_access s) ∧
    ax_members (db_access s1) = ax_members (db_access s).
Proof.
  unfold local_administration. intros H. apply bind_inv in H as (n & s1 & Hl & H).
  apply bind_inv in H as ([] & s2 & Hg & H). unfold guard in Hg.
  destruct (Z.eqb n 1); [injection Hg as <-|done]. exists s1. split; [done|].
  unfold LockLocalAdministration in Hl. case_match; injection Hl as <- <-; done.
Qed.

Lemma another_admin a id u :
  ax_users a !! id = Some u → u_Role u = "admin" → (2 ≤ size (administrators a))%nat →
  ∃ k v, k ≠ id ∧ ax_users a !! k = Some v ∧ u_Role v = "admin".
Proof.
  intros Hu Ha Hsize.
  assert (administrators a !! id = Some u) as Hin by (apply map_lookup_filter_Some; done).
  assert (delete id (administrators a) ≠ ∅) as (k & v & Hk)%map_choose.
  { intros Hempty. pose proof (map_size_delete id (administrators a)) as Hd.
    rewrite Hin, Hempty, map_size_empty in Hd. lia. }
  apply lookup_delete_Some in Hk as [Hne Hk]. apply map_lookup_filter_Some in Hk as [Hk Hv].
  exists k, v. done.
Qed.

(** Removing or replacing one row keeps an administrator. *)
Lemma has_admin_without a a' id row :
  ax_users a !! id = Some row → spare_admin a row →
  (∀ k, k ≠ id → ax_users a' !! k = ax_users a !! k) → has_admin a → has_admin a'.
Proof.
  intros Hrow Hspare Hother (k & v & Hk & Hv).
  destruct (decide (k = id)) as [->|Hne]; [|by exists k, v; rewrite Hother].
  assert (v = row) as -> by congruence.
  destruct (another_admin a id row) as (k & v & Hne & Hk' & Hv'); [done|done|by apply Hspare|].
  exists k, v. by rewrite Hother.
Qed.

(** An update of one row that keeps its role. *)
Lemma has_admin_alter a a' id set :
  (∀ u, u_Role (set u) = u_Role u) → ax_users a' = alter set id (ax_users a) →
  has_admin a → has_admin a'.
Proof.
  intros Hset Hu (k & v & Hk & Hv). destruct (decide (k = id)) as [->|Hne].
  - exists id, (set v). rewrite Hu, lookup_alter_eq, Hk. by rewrite Hset.
  - exists k, v. by rewrite Hu, lookup_alter_ne.
Qed.

Lemma spare_admin_ext a a' u : ax_users a = ax_users a' → spare_admin a u → spare_admin a' u.
Proof. unfold spare_admin, administrators. by intros ->. Qed.

Lemma has_admin_ext a a' : ax_users a = ax_users a' → has_admin a → has_admin a'.
Proof. unfold has_admin. by intros ->. Qed.

Lemma serve_update_admin s profile hash :
  has_admin (db_access s) → has_admin (db_access (serve_account s (UpdateRequest profile hash))).
Proof.
  cbn. unfold WithLocalAdministrationTx. intros Ha.
  destruct (WithTx_cases (local_administration (updateAccount profile hash)) s)
    as [(u & s' & H & ->)|(e & _ & ->)]; [cbn|done].
  apply locked_inv in H as (s1 & H & _ & Hu & _).
  apply update_account_inv in H as (row & Hrow & Hspare & -> & _ & Haccess).
  assert (∀ k, k ≠ uu_ID profile → ax_users (db_access s') !! k = ax_users (db_access s) !! k) as Hother.
  { intros k Hk. rewrite Haccess. destruct (credentials_change profile hash row);
      cbn; rewrite lookup_insert_ne by done; by rewrite Hu. }
  rewrite Hu in Hrow. destruct (decide (uu_Role profile = "admin")) as [Hadm|Hna].
  - exists (uu_ID profile), (updated (db_now s1) profile hash row). split.
    + rewrite Haccess. destruct (credentials_change profile hash row); cbn; apply lookup_insert_eq.
    + unfold updated. destruct (String.eqb hash ""); exact Hadm.
  - eapply has_admin_without; [exact Hrow| |exact Hother|exact Ha].
    eapply spare_admin_ext; [exact Hu|by apply Hspare].
Qed.

Lemma serve_delete_admin s user :
  has_admin (db_access s) → has_admin (db_access (serve_account s (DeleteRequest user))).
Proof.
  cbn. unfold DeleteAccount, WithLocalAdministrationTx. intros Ha.
  destruct (WithTx_cases (local_administration (deleteAccount user)) s)
    as [([] & s' & H & ->)|(e & _ & ->)]; [cbn|done].
  apply locked_inv in H as (s1 & H & _ & Hu & _).
  apply delete_account_inv in H as [[_ ->]|(row & Hrow & Hspare & Haccess)].
  { by eapply has_admin_ext; [symmetry; exact Hu|]. }
  rewrite Hu in Hrow. eapply has_admin_without; [exact Hrow| | |exact Ha].
  - eapply spare_admin_ext; [exact Hu|done].
  - intros k Hk. rewrite Haccess. cbn. rewrite lookup_delete_ne by done. by rewrite Hu.
Qed.

Lemma serve_password_admin s change hash :
  has_admin (db_access s) → has_admin (db_access (serve_account s (PasswordRequest change hash))).
Proof.
  cbn. intros Ha. destruct (WithTx_cases (updatePassword change hash) s)
    as [([] & s' & H & ->)|(e & _ & ->)]; [cbn|done].
  unfold updatePassword in H. apply bind_inv in H as ([] & s1 & Hcheck & H).
  apply bind_inv in H as ([] & s2 & [-> _]%update_user_inv & H).
  rewrite invalidate_run in H. injection H as <-.
  assert (s1 = s) as ->.
  { destruct (negb (String.eqb (pc_ExpectedHash change) "")); [|by injection Hcheck].
    apply bind_inv in Hcheck as (n & s2 & [= _ <-] & Hcheck).
    apply bind_inv in Hcheck as (u & s2 & Hget & Hcheck). unfold GetUserByID in Hget.
    case_match; [injection Hget as <- <-|done]. unfold guard in Hcheck.
    case_match; [by injection Hcheck|done]. }
  eapply has_admin_alter; [|reflexivity|exact Ha]. done.
Qed.

Lemma serve_sign_in_admin s now credentials issue :
  has_admin (db_access s) →
  has_admin (db_access (serve_account s (SignInRequest now credentials issue))).
Proof.
  cbn. unfold IssueBrowserSession. intros Ha.
  destruct (WithTx_cases (IssueBrowserSessionWith now credentials issue) s)
    as [(se & s' & H & ->)|(e & _ & ->)]; [cbn|done].
  unfold IssueBrowserSessionWith in H. apply bind_inv in H as ([] & s1 & Hg & H).
  unfold guard in Hg. destruct (bi_audited issue); [injection Hg as <-|done].
  destruct credentials as [[token csrf]|e]; [|done].
  apply bind_inv in H as (row & s2 & Hc & H).
  apply bind_inv in H as ([] & s3 & [-> _]%update_user_inv & H). injection H as _ <-.
  unfold CreateSession in Hc. case_match; [injection Hc as _ <-|done].
  eapply has_admin_alter; [|reflexivity|exact Ha]. done.
Qed.

(** C33: whatever accounts are edited, deleted, signed in or out and in whatever
    order, the installation keeps an administrator. *)
Theorem administrator_remains (requests : list account_request) (s : DB) :
  has_admin (db_access s) → has_admin (db_access (foldl serve_account s requests)).
Proof.
  revert s. induction requests as [|request requests IH]; intros s Ha; [done|]. apply IH.
  destruct request.
  - by apply serve_update_admin.
  - by apply serve_delete_admin.
  - by apply serve_password_admin.
  - eapply has_admin_ext; [|exact Ha]. done.
  - by apply serve_sign_in_admin.
Qed.

(** A successful edit of an account writes the profile (and the password,
    when one is given) and nothing else of the row; it signs the user out of
    every browser session and pending challenge exactly when the password or
    the role changed, and it never touches API tokens, memberships or the
    sessions of others. *)
Theorem update_account (s s' : DB) (profile : UpdateUserParams) (hash : string) (user : User) :
  WithLocalAdministrationTx (updateAccount profile hash) s = (Ok user, s') →
  ∃ row, ax_users (db_access s) !! uu_ID profile = Some row ∧
    ax_users (db_access s') = <[uu_ID profile := user]> (ax_users (db_access s)) ∧
    u_Name user = uu_Name profile ∧ u_Role user = uu_Role profile ∧ u_Email user = u_Email row ∧
    u_PasswordHash user = (if String.eqb hash "" then u_PasswordHash row else hash) ∧
    (∀ k se, ax_sessions (db_access s') !! k = Some se ↔
       ax_sessions (db_access s) !! k = Some se ∧
       (se_UserID se = uu_ID profile → hash = "" ∧ u_Role row = uu_Role profile)) ∧
    (∀ k id, ax_challenges (db_access s') !! k = Some id ↔
       ax_challenges (db_access s) !! k = Some id ∧
       (id = uu_ID profile → hash = "" ∧ u_Role row = uu_Role profile)) ∧
    ax_tokens (db_access s') = ax_tokens (db_access s) ∧
    ax_token_projects (db_access s') = ax_token_projects (db_access s) ∧
    ax_members (db_access s') = ax_members (db_access s).
Proof.
  unfold WithLocalAdministrationTx. intros H.
  destruct (WithTx_cases (local_administration (updateAccount profile hash)) s)
    as [(u & s2 & Hrun & H')|(e & _ & H')]; [|congruence]. rewrite H' in H. injection H as -> ->.
  apply locked_inv in Hrun as (s1 & Hrun & _ & Hu & Hs & Hc & Ht & Hp & Hm).
  apply update_account_inv in Hrun as (row & Hrow & _ & -> & _ & Haccess).
  rewrite Hu in Hrow. exists row. rewrite <-Hu, <-Hs, <-Hc, <-Ht, <-Hp, <-Hm in *. rewrite Haccess.
  assert (credentials_change profile hash row = false ↔ hash = "" ∧ u_Role row = uu_Role profile) as Hcc.
  { unfold credentials_change. rewrite orb_false_iff, !negb_false_iff, !String.eqb_eq. done. }
  split; [done|].
  split; [by destruct (credentials_change profile hash row)|].
  unfold updated. split_and!; try (by destruct (String.eqb hash ""));
    try (by destruct (credentials_change profile hash row)).
  - intros k se. destruct (credentials_change profile hash row); cbn; [|naive_solver].
    rewrite map_lookup_filter_Some. naive_solver.
  - intros k id. destruct (credentials_change profile hash row); cbn; [|naive_solver].
    rewrite map_lookup_filter_Some. naive_solver.
Qed.

Lemma delete_account_run user s :
  deleteAccount user s =
  match ax_users (db_access s) !! user with
  | None => Ok (tt, s)
  | Some row =>
      if decide (u_Role row = "admin" ∧ (size (administrators (db_access s)) ≤ 1)%nat)
      then Err ErrLastAdministrator
      else Ok (tt, set_approvals (forget_approver user <$> db_approvals s)
                     (set_access (without_user user (signed_out user (db_access s))) s))
  end.
Proof.
  unfold deleteAccount, LockMFAUser, GetUserByID, protectLastAdministrator, CountAdministrators,
    read, guard, mbind, tx_bind.
  destruct (ax_users (db_access s) !! user) as [row|] eqn:Hrow; [|done]. cbn [Z.eqb]. rewrite Hrow.
  assert (∀ s0, ax_users (db_access s0) !! user = Some row →
    DeleteUser user s0 = Ok (tt, set_approvals (forget_approver user <$> db_approvals s0)
      (set_access (without_user user (db_access s0)) s0))) as Hdel.
  { intros s0 H0. unfold DeleteUser, write. rewrite decide_True by (rewrite H0; eauto). done. }
  destruct (String.eqb_spec (u_Role row) "admin") as [Ha|Ha]; cbn [negb].
  - case_bool_decide as Hc; cbn [negb].
    + by rewrite decide_True by (split; [done|lia]).
    + rewrite decide_False by (intros [_ ?]; lia). unfold mret, tx_ret.
      rewrite invalidate_run. by rewrite Hdel.
  - rewrite decide_False by (by intros [? _]). unfold mret, tx_ret. rewrite invalidate_run. by rewrite Hdel.
Qed.

(** Deleting an account removes the user and everything that referenced
    the user, and nothing that belongs to another user; it fails only to keep
    the last administrator, and does nothing for a user who does not exist. *)
Theorem delete_account (s : DB) (user : Z) :
  is_Some (ax_admin_lock (db_access s)) →
  (∃ row, ax_users (db_access s) !! user = Some row ∧ u_Role row = "admin" ∧
     (size (administrators (db_access s)) ≤ 1)%nat ∧
     DeleteAccount user s = (Err ErrLastAdministrator, s)) ∨
  (∃ s', DeleteAccount user s = (Ok tt, s') ∧
     ax_users (db_access s') = delete user (ax_users (db_access s)) ∧
     (is_Some (ax_users (db_access s) !! user) →
      (∀ k se, ax_sessions (db_access s') !! k = Some se ↔
         ax_sessions (db_access s) !! k = Some se ∧ se_UserID se ≠ user) ∧
      (∀ k t, ax_tokens (db_access s') !! k = Some t ↔
         ax_tokens (db_access s) !! k = Some t ∧ tk_UserID t ≠ user) ∧
      (∀ p u role, ax_members (db_access s') !! (p, u) = Some role ↔
         ax_members (db_access s) !! (p, u) = Some role ∧ u ≠ user))).
Proof.
  intros [version Hlock]. unfold DeleteAccount, WithLocalAdministrationTx, WithTx.
  set (s1 := set_access (ax_set_admin_lock (Some (1 - version)) (db_access s)) s).
  assert (local_administration (deleteAccount user) s = deleteAccount user s1) as ->.
  { unfold local_administration, LockLocalAdministration, mbind, tx_bind. by rewrite Hlock. }
  rewrite delete_account_run. change (ax_users (db_access s1)) with (ax_users (db_access s)).
  change (administrators (db_access s1)) with (administrators (db_access s)).
  destruct (ax_users (db_access s) !! user) as [row|] eqn:Hrow.
  2: { right. exists s1. split_and!; [done|by rewrite delete_id|by intros []]. }
  destruct (decide (u_Role row = "admin" ∧ (size (administrators (db_access s)) ≤ 1)%nat)) as [[Ha Hs]|Hn].
  { left. by exists row. }
  right. eexists. split; [done|]. split; [done|]. intros _. cbn. split_and!.
  - intros k se. rewrite !map_lookup_filter_Some. cbn. naive_solver.
  - intros k t. rewrite map_lookup_filter_Some. done.
  - intros p u role. rewrite map_lookup_filter_Some. done.
Qed.

(** ** Witnesses *)

Definition accounts_store : DB :=
  set_access (ax_set_sessions
    {[ "a" := mkSession "a" 2 "x" 0 99 None None None; "b" := mkSession "b" 1 "y" 0 99 None None None ]}
    (sample_access "deployer" [7])) (sample_access_store "deployer" [7]).

Definition promote : account_request := UpdateRequest (mkUpdateUser "dev" "admin" 2) "".

Lemma administrator_remains_witness :
  has_admin (db_access (foldl serve_account accounts_store
    [DeleteRequest 1; promote; DeleteRequest 1; DeleteRequest 2])).
Proof.
  apply (administrator_remains _ accounts_store). exists 1, (mkUser 1 "root@example.com" "" "root" 0 0 None "admin").
  split; reflexivity.
Defined.

(** The maintainer becomes a deployer and is signed out; the administrator is not. *)
Lemma update_account_witness :
  ∃ user s', WithLocalAdministrationTx (updateAccount (mkUpdateUser "dev" "deployer" 2) "")
      accounts_store = (Ok user, s') ∧
    ax_sessions (db_access s') !! "a" = None ∧ is_Some (ax_sessions (db_access s') !! "b").
Proof.
  destruct (WithLocalAdministrationTx (updateAccount (mkUpdateUser "dev" "deployer" 2) "")
    accounts_store) as [[user|e] s'] eqn:E; [|vm_compute in E; discriminate].
  exists user, s'. split; [reflexivity|].
  destruct (update_account _ _ _ _ _ E) as (row & Hrow & _ & _ & _ & _ & _ & Hse & _). clear E.
  injection Hrow as <-. split.
  - match goal with |- ?x = None => destruct x as [se|] eqn:E; [|reflexivity] end.
    apply Hse in E as [Hin Himp]. vm_compute in Hin. injection Hin as <-.
    destruct (Himp eq_refl) as [_ [=]].
  - eexists. apply (Hse "b"). split; [vm_compute; reflexivity|]. intros H. vm_compute in H. discriminate.
Defined.

Lemma delete_account_witness :
  DeleteAccount 1 accounts_store = (Err ErrLastAdministrator, accounts_store) ∧
  ∃ s', DeleteAccount 2 accounts_store = (Ok tt, s') ∧ ax_tokens (db_access s') !! "t1" = None.
Proof.
  split.
  - destruct (delete_account accounts_store 1) as [(row & _ & _ & _ & H)|(s' & H & _)];
      [by eexists|exact H|]. vm_compute in H. discriminate.
  - destruct (delete_account accounts_store 2) as [(row & _ & _ & _ & H)|(s' & H & _ & Hgone)];
      [by eexists|vm_compute in H; discriminate|].
    exists s'. split; [exact H|]. destruct Hgone as (_ & Ht & _); [by eexists|].
    destruct (ax_tokens (db_access s') !! "t1") as [t|] eqn:E; [|reflexivity].
    apply Ht in E as [E Hne]. vm_compute in E. injection E as <-. by destruct Hne.
Defined.
