(* ===== verification/LogScrubTheorems.v ===== *)
(** * LogScrubTheorems: the simulation ends with the longest waiting suffix

    The search for the text to hold back is a breadth-first simulation with a
    depth-first closure under empty moves. The closure ends because each call
    settles a state; the simulation keeps, for every state, the least offset a
    thread in it started at. *)
From S2P Require Import Prelude Text LogScrub.

(** ** Empty moves *)

Section program.
Context (p : Program).

(** Every instruction leads to instructions (regexp/syntax.Compile). *)
Definition well_formed : Prop :=
  (Start p < length (Insts p))%nat ∧
  ∀ pc i, Insts p !! pc = Some i →
    (Out i < length (Insts p))%nat ∧ (Op i = InstAlt ∨ Op i = InstAltMatch → (Arg i < length (Insts p))%nat).

Hypothesis wf : well_formed.

Section closure.
Context (previousRune nextRune : Z) (resolveEmpty : bool).

(** Where an instruction goes without consuming a rune. *)
Definition moves (i : Inst) : list nat :=
  match Op i with
  | InstAlt | InstAltMatch => [Out i; Arg i]
  | InstCapture | InstNop => [Out i]
  | InstEmptyWidth => if empty_width_ok i previousRune nextRune resolveEmpty then [Out i] else []
  | _ => []
  end.

Definition empty_move (pc q : nat) : Prop := ∃ i, Insts p !! pc = Some i ∧ q ∈ moves i.

Lemma moves_in_range pc i q : Insts p !! pc = Some i → q ∈ moves i → (q < length (Insts p))%nat.
Proof.
  intros Hi Hq. destruct (proj2 wf pc i Hi) as [Hout Harg]. unfold moves in Hq.
  repeat case_match; set_solver.
Qed.

(** A state with a start no later than [s]. *)
Definition settled (m : gmap nat nat) (q s : nat) : Prop := ∃ v, m !! q = Some v ∧ (v ≤ s)%nat.

#[local] Instance settled_dec m q s : Decision (settled m q s).
Proof.
  destruct (m !! q) as [v|] eqn:E; [destruct (decide (v ≤ s)%nat) as [H|H]; [left|right]|right];
    unfold settled; rewrite E; [by exists v|by intros (? & [= <-] & ?)|by intros (? & ? & ?)].
Defined.

Definition unsettled (m : gmap nat nat) (s : nat) : nat :=
  size (filter (λ q, ¬ settled m q s) (set_seq 0 (length (Insts p)) : gset nat)).

(** [m'] knows at least what [m] knows. *)
Definition extends (m m' : gmap nat nat) : Prop := ∀ q v, m !! q = Some v → settled m' q v.

#[local] Instance extends_refl : Reflexive extends.
Proof. intros m q v Hv. exists v. auto. Qed.
#[local] Instance extends_trans : Transitive extends.
Proof.
  intros m1 m2 m3 H1 H2 q v Hv. destruct (H1 q v Hv) as (v2 & Hv2 & ?).
  destruct (H2 q v2 Hv2) as (v3 & Hv3 & ?). exists v3. split; [done|lia].
Qed.

Lemma settled_extends m m' q s : extends m m' → settled m q s → settled m' q s.
Proof.
  intros Hm (v & Hv & Hle). destruct (Hm q v Hv) as (v' & Hv' & ?). exists v'. split; [done|lia].
Qed.

Lemma unsettled_extends m m' s : extends m m' → (unsettled m' s ≤ unsettled m s)%nat.
Proof.
  intros Hm. apply subseteq_size. intros q. rewrite !elem_of_filter. intros [Hq Hin].
  split; [|done]. intros Hs. by apply Hq, (settled_extends m).
Qed.

Lemma unsettled_mark m pc s :
  (pc < length (Insts p))%nat → ¬ settled m pc s → (unsettled (<[pc := s]> m) s < unsettled m s)%nat.
Proof.
  intros Hpc Hs. apply subset_size. split.
  - intros q. rewrite !elem_of_filter. intros [Hq Hin]. split; [|done]. intros (v & Hv & Hle).
    apply Hq. destruct (decide (q = pc)) as [->|Hne]; [exists s; by rewrite lookup_insert_eq|].
    exists v. by rewrite lookup_insert_ne.
  - intros Hsub. specialize (Hsub pc). rewrite !elem_of_filter in Hsub.
    destruct Hsub as [Hn _]; [split; [done|apply elem_of_set_seq; lia]|].
    apply Hn. exists s. by rewrite lookup_insert_eq.
Qed.

Lemma extends_mark m pc s : ¬ settled m pc s → extends m (<[pc := s]> m).
Proof.
  intros Hs q v Hv. destruct (decide (q = pc)) as [->|Hne].
  - exists s. rewrite lookup_insert_eq. split; [done|]. destruct (decide (v ≤ s)%nat); [|lia].
    destruct Hs. by exists v.
  - exists v. by rewrite lookup_insert_ne.
Qed.

(** What a call adds: states reached from [pc], marked [s], whose empty moves
    are settled too. *)
Record added (m m' : gmap nat nat) (pc s : nat) : Prop := {
  ad_extends : extends m m';
  ad_reached : ∀ q v, m' !! q = Some v → m !! q = Some v ∨ v = s ∧ rtc empty_move pc q;
  ad_moves : ∀ q, m' !! q ≠ m !! q → ∀ r, empty_move q r → settled m' r s;
  ad_start : settled m' pc s }.

(** Following the moves of a marked state one after the other. *)
Lemma added_moves (f : gmap nat nat → nat → option (gmap nat nat)) bound m pc s i l :
  Insts p !! pc = Some i → (∀ q, q ∈ l → q ∈ moves i) →
  (∀ m q, (unsettled m s < bound)%nat → q ∈ moves i → ∃ m', f m q = Some m' ∧ added m m' q s) →
  (unsettled m s < bound)%nat →
  ∃ m', foldl (λ o q, o ≫= λ m, f m q) (Some m) l = Some m' ∧ extends m m' ∧
    (∀ q v, m' !! q = Some v → m !! q = Some v ∨ v = s ∧ rtc empty_move pc q) ∧
    (∀ q, m' !! q ≠ m !! q → ∀ r, empty_move q r → settled m' r s) ∧
    (∀ q, q ∈ l → settled m' q s).
Proof.
  intros Hi Hl Hf. revert m. induction l as [|q l IH]; intros m Hm.
  { exists m. split_and!; [done|done|by left|done|by intros ? ?%not_elem_of_nil]. }
  destruct (Hf m q Hm) as (m1 & Hm1 & [H1 H2 H3 H4]); [apply Hl; left|].
  destruct (IH ltac:(intros x Hx; apply Hl; by right) m1) as (m2 & Hm2 & G1 & G2 & G3 & G4).
  { pose proof (unsettled_extends m m1 s H1). lia. }
  exists m2. cbn [foldl]. change (Some m ≫= λ m, f m q) with (f m q). rewrite Hm1. split; [done|].
  split; [by etrans|]. split_and!.
  - intros r v Hr. destruct (G2 r v Hr) as [Hr1|?]; [|by right].
    destruct (H2 r v Hr1) as [?|[-> Hreach]]; [by left|]. right. split; [done|].
    eapply rtc_l; [|exact Hreach]. exists i. split; [done|]. apply Hl. left.
  - intros r Hr x Hx. destruct (decide (m2 !! r = m1 !! r)) as [Heq|Hne]; [|by eapply G3].
    eapply settled_extends; [exact G1|]. eapply H3; [by rewrite <-Heq|exact Hx].
  - intros r [->|Hr]%elem_of_cons; [by eapply settled_extends|by apply G4].
Qed.

(** A call is the walk over the moves of its instruction. *)
Lemma addClosure_moves fuel m pc s i :
  Insts p !! pc = Some i → ¬ settled m pc s →
  addClosure p (S fuel) m pc s previousRune nextRune resolveEmpty
  = foldl (λ o q, o ≫= λ m, addClosure p fuel m q s previousRune nextRune resolveEmpty)
      (Some (<[pc := s]> m)) (moves i).
Proof.
  intros Hi Hs. cbn [addClosure].
  replace (match m !! pc with Some previous => (previous <=? s)%nat | None => false end) with false.
  2:{ destruct (m !! pc) as [v|] eqn:E; [|done]. symmetry. apply Nat.leb_gt.
      destruct (decide (v ≤ s)%nat); [|lia]. destruct Hs. by exists v. }
  rewrite Hi. cbn [mbind option_bind]. unfold moves.
  destruct (Op i); try reflexivity. by destruct (empty_width_ok _ _ _ _).
Qed.

(** The closure terminates, and what it adds is as described. *)
Lemma addClosure_added fuel m pc s :
  (pc < length (Insts p))%nat → (unsettled m s < fuel)%nat →
  ∃ m', addClosure p fuel m pc s previousRune nextRune resolveEmpty = Some m' ∧ added m m' pc s.
Proof.
  revert m pc. induction fuel as [|fuel IH]; intros m pc Hpc Hfuel; [lia|].
  destruct (decide (settled m pc s)) as [Hs|Hs].
  { exists m. split; [|split; [done|by left|done|done]]. cbn [addClosure].
    destruct Hs as (v & -> & Hle). by rewrite (proj2 (Nat.leb_le v s)). }
  destruct (lookup_lt_is_Some_2 _ _ Hpc) as [i Hi]. rewrite (addClosure_moves fuel m pc s i Hi Hs).
  pose proof (unsettled_mark m pc s Hpc Hs) as Hless.
  destruct (added_moves (λ m q, addClosure p fuel m q s previousRune nextRune resolveEmpty) fuel
    (<[pc := s]> m) pc s i (moves i) Hi) as (m' & Hm' & G1 & G2 & G3 & G4);
    [done|intros m1 q Hm1 Hq; apply IH; [by eapply moves_in_range|done]|lia|].
  exists m'. split; [exact Hm'|]. assert (settled (<[pc := s]> m) pc s) as Hmark.
  { exists s. by rewrite lookup_insert_eq. }
  split.
  - etrans; [by apply extends_mark|done].
  - intros q v Hq. destruct (G2 q v Hq) as [Hq'|?]; [|by right].
    apply lookup_insert_Some in Hq' as [[<- <-]|[_ ?]]; [|by left]. right. split; [done|apply rtc_refl].
  - intros q Hq r Hr. destruct (decide (q = pc)) as [->|Hne].
    + destruct Hr as (j & Hj & Hr). apply G4. congruence.
    + apply (G3 q); [|done]. by rewrite lookup_insert_ne.
  - by eapply settled_extends.
Qed.
Lemma unsettled_bound m s : (unsettled m s < closure_fuel p)%nat.
Proof.
  unfold unsettled, closure_fuel. apply Nat.lt_succ_r.
  etrans; [apply subseteq_size; intros q [_ Hq]%elem_of_filter; exact Hq|]. by rewrite size_set_seq.
Qed.

Lemma rtc_in_range pc q : (pc < length (Insts p))%nat → rtc empty_move pc q → (q < length (Insts p))%nat.
Proof.
  intros Hpc. induction 1 as [|pc r q (i & Hi & Hr) _ IH]; [done|]. apply IH. by eapply moves_in_range.
Qed.

(** Nothing is left to follow. *)
Definition closed (m : gmap nat nat) : Prop :=
  ∀ q v r, m !! q = Some v → empty_move q r → settled m r v.

Lemma closed_reach m pc q v :
  closed m → settled m pc v → rtc empty_move pc q → settled m q v.
Proof.
  intros Hm Hpc Hreach. induction Hreach as [|pc r q Hstep _ IH]; [done|]. apply IH.
  destruct Hpc as (w & Hw & Hle). destruct (Hm pc w r Hw Hstep) as (u & Hu & ?).
  exists u. split; [done|lia].
Qed.

Lemma added_closed m m' pc s : added m m' pc s → closed m → closed m'.
Proof.
  intros [H1 H2 H3 _] Hm q v r Hq Hr. destruct (decide (m' !! q = m !! q)) as [Heq|Hne].
  - eapply settled_extends; [exact H1|]. eapply Hm; [by rewrite <-Heq|done].
  - destruct (H2 q v Hq) as [?|[-> _]]; [congruence|]. by eapply H3.
Qed.

Lemma expand_spec m l :
  closed m → (∀ pc s, (pc, s) ∈ l → (pc < length (Insts p))%nat) →
  ∃ m', expand p m l previousRune nextRune resolveEmpty = Some m' ∧ closed m' ∧ extends m m' ∧
    (∀ q v, m' !! q = Some v → m !! q = Some v ∨ ∃ pc, (pc, v) ∈ l ∧ rtc empty_move pc q) ∧
    (∀ pc s, (pc, s) ∈ l → settled m' pc s).
Proof.
  revert m. induction l as [|[pc s] l IH]; intros m Hm Hl; cbn [expand].
  { exists m. split_and!; [done|done|done|by left|by intros ? ? ?%not_elem_of_nil]. }
  destruct (addClosure_added (closure_fuel p) m pc s) as (m1 & -> & Hadd);
    [apply (Hl pc s); left|apply unsettled_bound|]. cbn [mbind option_bind].
  destruct (IH m1) as (m2 & -> & H1 & H2 & H3 & H4);
    [by eapply added_closed|intros q v Hq; apply (Hl q v); by right|].
  destruct Hadd as [G1 G2 G3 G4]. exists m2. split_and!; [done|done|by etrans| |].
  - intros q v Hq. destruct (H3 q v Hq) as [Hq1|(pc' & Hin & Hr)]; [|right; exists pc'; split; [by right|done]].
    destruct (G2 q v Hq1) as [?|[-> Hr]]; [by left|]. right. exists pc. split; [left|done].
  - intros q v [[= -> ->]|Hq]%elem_of_cons; [by eapply settled_extends|by apply H4].
Qed.

End closure.
(** ** Least starts *)

(** [o] is the least number with the property, if there is one. *)
Definition least (P : nat → Prop) (o : option nat) : Prop :=
  (∀ v, o = Some v → P v) ∧ (∀ v, P v → ∃ w, o = Some w ∧ (w ≤ v)%nat).

Lemma least_iff P Q o : (∀ v, P v ↔ Q v) → least P o → least Q o.
Proof. intros H [H1 H2]. split; [intros v Hv; by apply H, H1|intros v Hv; by apply H2, H]. Qed.

Lemma least_compose (T : nat → nat → Prop) (C : nat → Prop) (m : gmap nat nat) o :
  (∀ pc, least (T pc) (m !! pc)) → least (λ v, ∃ pc, m !! pc = Some v ∧ C pc) o →
  least (λ v, ∃ pc, T pc v ∧ C pc) o.
Proof.
  intros HT [H1 H2]. split.
  - intros v Hv. destruct (H1 v Hv) as (pc & Hpc & HC). exists pc. split; [by apply (HT pc)|done].
  - intros v (pc & Hpc & HC). destruct (proj2 (HT pc) v Hpc) as (w & Hw & ?).
    destruct (H2 w) as (u & Hu & ?); [by exists pc|]. exists u. split; [done|lia].
Qed.

Lemma record_least P m pc start q :
  least P (m !! q) → least (λ v, P v ∨ q = pc ∧ v = start) (recordPatternState m pc start !! q).
Proof.
  intros [H1 H2]. unfold recordPatternState. destruct (decide (q = pc)) as [->|Hne].
  - destruct (m !! pc) as [w|] eqn:E.
    + destruct (Nat.ltb_spec start w); [rewrite lookup_insert_eq|rewrite E]; split.
      * intros v [= <-]. by right.
      * intros v [Hv|[_ ->]]; [|exists start; auto]. destruct (H2 v Hv) as (u & [= <-] & ?).
        exists start. split; [done|lia].
      * intros v [= <-]. left. by apply H1.
      * intros v [Hv|[_ ->]]; [by apply H2|]. by exists w.
    + rewrite lookup_insert_eq. split; [intros v [= <-]; by right|].
      intros v [Hv|[_ ->]]; [|exists start; auto]. by destruct (H2 v Hv) as (u & ? & _).
  - assert (least P (recordPatternState m pc start !! q)) as H.
    { unfold recordPatternState. repeat case_match; rewrite ?lookup_insert_ne by done; by split. }
    unfold recordPatternState in H. eapply least_iff; [|exact H]. naive_solver.
Qed.

Context (order : gmap nat nat → list (nat * nat)).
Hypothesis order_ok : ∀ m, order m ≡ₚ map_to_list m.

Lemma elem_of_order m pc s : (pc, s) ∈ order m ↔ m !! pc = Some s.
Proof. by rewrite order_ok, elem_of_map_to_list. Qed.

(** The states of a map are instructions of the program. *)
Definition in_range (m : gmap nat nat) : Prop := ∀ pc s, m !! pc = Some s → (pc < length (Insts p))%nat.

(** Expanding a map gives each state the least start of a state it is reached from. *)
Lemma expand_least raw previousRune nextRune resolveEmpty :
  in_range raw →
  ∃ m, expand p ∅ (order raw) previousRune nextRune resolveEmpty = Some m ∧ in_range m ∧
    ∀ q, least (λ v, ∃ pc, raw !! pc = Some v ∧ rtc (empty_move previousRune nextRune resolveEmpty) pc q)
           (m !! q).
Proof.
  intros Hraw. destruct (expand_spec previousRune nextRune resolveEmpty ∅ (order raw))
    as (m & Hm & Hclosed & _ & Hfrom & Hset).
  - by intros q v r Hq%lookup_empty_Some.
  - intros pc s Hin%elem_of_order. by eapply Hraw.
  - assert (∀ q v, m !! q = Some v → ∃ pc, raw !! pc = Some v ∧
      rtc (empty_move previousRune nextRune resolveEmpty) pc q) as Hfrom'.
    { intros q v Hq. destruct (Hfrom q v Hq) as [?%lookup_empty_Some|(pc & Hin & Hr)]; [done|].
      exists pc. by rewrite <-elem_of_order. }
    exists m. split; [done|]. split.
    + intros q v Hq. destruct (Hfrom' q v Hq) as (pc & Hpc & Hr). eapply rtc_in_range; [by eapply Hraw|done].
    + intros q. split; [by apply Hfrom'|]. intros v (pc & Hpc & Hr).
      eapply closed_reach; [done| |done]. by apply Hset, elem_of_order.
Qed.

Lemma advance_least r l next (P : nat → nat → Prop) :
  (∀ pc s, (pc, s) ∈ l → (pc < length (Insts p))%nat) → in_range next →
  (∀ q, least (P q) (next !! q)) →
  ∃ m, advance p next l r = Some m ∧ in_range m ∧
    ∀ q, least (λ v, P q v ∨ ∃ pc i, (pc, v) ∈ l ∧ Insts p !! pc = Some i ∧ MatchRune i r = true ∧ Out i = q)
           (m !! q).
Proof.
  revert next P. induction l as [|[pc s] l IH]; intros next P Hl Hnext HP; cbn [advance].
  { exists next. split_and!; [done|done|]. intros q. eapply least_iff; [|apply HP]. intros v.
    split; [by left|intros [?|(? & ? & ?%not_elem_of_nil & _)]; done]. }
  destruct (lookup_lt_is_Some_2 (Insts p) pc) as [i Hi]; [apply (Hl pc s); left|].
  rewrite Hi. cbn [mbind option_bind].
  assert (∀ q v, (q, v) ∈ l → (q < length (Insts p))%nat) as Hl' by (intros q v Hq; apply (Hl q v); by right).
  destruct (MatchRune i r) eqn:Hmatch.
  - destruct (IH (recordPatternState next (Out i) s) (λ q v, P q v ∨ q = Out i ∧ v = s) Hl')
      as (m & Hm & Hrange & Hleast).
    + intros q v Hq. unfold recordPatternState in Hq.
      assert (Out i < length (Insts p))%nat by (by apply (proj2 wf pc i Hi)).
      repeat case_match; try (by eapply Hnext);
        apply lookup_insert_Some in Hq as [[<- _]|[_ Hq]]; try done; by eapply Hnext.
    + intros q. by apply record_least.
    + exists m. split_and!; [done|done|]. intros q. eapply least_iff; [|apply Hleast]. intros v. split.
      * intros [[?|[-> ->]]|(pc' & j & Hin & ?)]; [by left| |].
        -- right. exists pc, i. split_and!; [left|done|done|done].
        -- right. exists pc', j. split; [by right|done].
      * intros [?|(pc' & j & [[= -> ->]|Hin]%elem_of_cons & Hj & Hm' & Hout)]; [by left; left| |].
        -- left. right. split; [congruence|done].
        -- right. by exists pc', j.
  - destruct (IH next P Hl' Hnext HP) as (m & Hm & Hrange & Hleast).
    exists m. split_and!; [done|done|]. intros q. eapply least_iff; [|apply Hleast]. intros v. split.
    + intros [?|(pc' & j & Hin & ?)]; [by left|]. right. exists pc', j. split; [by right|done].
    + intros [?|(pc' & j & [[= -> ->]|Hin]%elem_of_cons & Hj & Hm' & Hout)]; [by left|congruence|].
      right. by exists pc', j.
Qed.

(** ** Threads *)

Definition offset_of (done : list (Z * nat)) : nat := sum_list (snd <$> done).
Definition previous_of (done : list (Z * nat)) : Z := from_option fst (-1) (last done).

(** [thread done start pc]: after the runes [done], a thread that started at
    offset [start] is at instruction [pc]. A new thread starts before every rune. *)
Inductive thread : list (Z * nat) → nat → nat → Prop :=
  | thread_new done r size q i :
      rtc (empty_move (previous_of done) r true) (Start p) q →
      Insts p !! q = Some i → MatchRune i r = true →
      thread (done ++ [(r, size)]) (offset_of done) (Out i)
  | thread_step done r size start pc q i :
      thread done start pc → rtc (empty_move (previous_of done) r true) pc q →
      Insts p !! q = Some i → MatchRune i r = true →
      thread (done ++ [(r, size)]) start (Out i).

(** A thread that waits for more text at the end of [text]. *)
Definition waits (text : list (Z * nat)) (start : nat) : Prop :=
  ∃ pc q i, thread text start pc ∧ rtc (empty_move (previous_of text) (-1) false) pc q ∧
    Insts p !! q = Some i ∧ waiting (Op i) = true.

Lemma thread_snoc done r size start q :
  thread (done ++ [(r, size)]) start q ↔
  ∃ pc' i, (∃ pc, (thread done start pc ∨ pc = Start p ∧ start = offset_of done) ∧
              rtc (empty_move (previous_of done) r true) pc pc') ∧
    Insts p !! pc' = Some i ∧ MatchRune i r = true ∧ Out i = q.
Proof.
  split.
  - inversion 1 as [d r' n pc' i Hr Hi Hm Hd|d r' n start' pc pc' i Ht Hr Hi Hm Hd]; subst;
      apply app_inj_tail in Hd as [-> [= -> ->]]; exists pc', i; (split_and!; [|done..]).
    + exists (Start p). auto.
    + exists pc. auto.
  - intros (pc' & i & (pc & [Ht|[-> ->]] & Hr) & Hi & Hm & <-); [by eapply thread_step|by eapply thread_new].
Qed.

Lemma offset_snoc done r size : offset_of (done ++ [(r, size)]) = (offset_of done + size)%nat.
Proof. unfold offset_of. rewrite fmap_app, sum_list_with_app. cbn. lia. Qed.

Lemma pending_loop_spec text done raw :
  in_range raw → (∀ pc, least (λ v, thread done v pc) (raw !! pc)) →
  ∃ raw', pending_loop p order text (offset_of done) (previous_of done) raw
          = Some (raw', previous_of (done ++ text)) ∧ in_range raw' ∧
    ∀ pc, least (λ v, thread (done ++ text) v pc) (raw' !! pc).
Proof.
  revert done raw. induction text as [|[r size] text IH]; intros done raw Hraw Hleast; cbn [pending_loop].
  { exists raw. by rewrite app_nil_r. }
  pose proof (λ pc, record_least _ raw (Start p) (offset_of done) pc (Hleast pc)) as Hstart.
  assert (in_range (recordPatternState raw (Start p) (offset_of done))) as Hraw'.
  { intros pc v Hv. destruct (proj1 (Hstart pc) v Hv) as [Ht|[-> _]]; [|apply wf].
    destruct (proj2 (Hleast pc) v Ht) as (w & Hw & _). by eapply Hraw. }
  destruct (expand_least _ (previous_of done) r true Hraw') as (m & -> & Hm & Hexp). cbn [mbind option_bind].
  destruct (advance_least r (order m) ∅ (λ _ _, False)) as (next & -> & Hnext & Hadv).
  - intros pc v Hin%elem_of_order. by eapply Hm.
  - by intros pc v Hv%lookup_empty_Some.
  - intros q. split; [by intros v Hv%lookup_empty_Some|done].
  - cbn [mbind option_bind]. rewrite <-offset_snoc with (r := r).
    assert (previous_of (done ++ [(r, size)]) = r) as Hprev by (unfold previous_of; by rewrite last_snoc).
    destruct (IH (done ++ [(r, size)]) next Hnext) as (raw' & Hloop & Hrest).
    + intros q. apply (least_iff (λ v, ∃ pc', (∃ pc, (thread done v pc ∨ pc = Start p ∧ v = offset_of done) ∧
          rtc (empty_move (previous_of done) r true) pc pc') ∧
        ∃ i, Insts p !! pc' = Some i ∧ MatchRune i r = true ∧ Out i = q)).
      { intros v. rewrite thread_snoc. naive_solver. }
      apply (least_compose _ (λ pc', ∃ i, Insts p !! pc' = Some i ∧ MatchRune i r = true ∧ Out i = q) m).
      * intros pc'. by apply (least_compose _ (λ pc, rtc _ pc pc') _ _ Hstart).
      * eapply least_iff; [|apply (Hadv q)]. intros v. setoid_rewrite elem_of_order. naive_solver.
    + assert ((done ++ [(r, size)]) ++ text = done ++ (r, size) :: text) as <- by by rewrite <-app_assoc.
      rewrite Hprev in Hloop. by exists raw'.
Qed.

Lemma longest_waiting_spec l length_of_text pending :
  (∀ pc s, (pc, s) ∈ l → (pc < length (Insts p))%nat) →
  ∃ n, longest_waiting p l length_of_text pending = Some n ∧ (pending ≤ n)%nat ∧
    (∀ pc s i, (pc, s) ∈ l → Insts p !! pc = Some i → waiting (Op i) = true → (length_of_text - s ≤ n)%nat) ∧
    (n = pending ∨ ∃ pc s i, (pc, s) ∈ l ∧ Insts p !! pc = Some i ∧ waiting (Op i) = true ∧
       n = (length_of_text - s)%nat).
Proof.
  revert pending. induction l as [|[pc s] l IH]; intros pending Hl; cbn [longest_waiting].
  { exists pending. split_and!; [done|done|by intros ? ? ? ?%not_elem_of_nil|by left]. }
  destruct (lookup_lt_is_Some_2 (Insts p) pc) as [i Hi]; [apply (Hl pc s); left|].
  rewrite Hi. cbn [mbind option_bind].
  destruct (IH (if waiting (Op i) then Nat.max pending (length_of_text - s) else pending))
    as (n & -> & Hle & Hall & Hex); [intros q v Hq; apply (Hl q v); by right|].
  exists n. split; [done|]. split; [destruct (waiting (Op i)); lia|]. split.
  - intros q v j [[= -> ->]|Hq]%elem_of_cons Hj Hw; [|by eapply Hall].
    assert (i = j) as -> by congruence. rewrite Hw in Hle. lia.
  - destruct Hex as [->|(q & v & j & Hq & ?)]; [|right; exists q, v, j; split; [by right|done]].
    destruct (waiting (Op i)) eqn:Hw; [|by left]. destruct (Nat.max_spec pending (length_of_text - s)) as [[_ ->]|[_ ->]];
      [|by left]. right. exists pc, s, i. split_and!; [left|done..].
Qed.

End program.

(** C40: for every program the regular expression compiler can emit, and every
    order in which maps are iterated, the search for the text to hold back ends
    with a result: the length of the longest suffix on which the program can be
    waiting for more text, 0 when there is none. *)
Theorem pending_bytes (p : Program) (order : gmap nat nat → list (nat * nat)) (text : string) :
  well_formed p → (∀ m, order m ≡ₚ map_to_list m) →
  ∃ n, pendingBytes p order text = Some n ∧
    (∀ start, waits p (runes text) start → (String.length text - start ≤ n)%nat) ∧
    (n = 0%nat ∨ ∃ start, waits p (runes text) start ∧ n = (String.length text - start)%nat).
Proof.
  intros wf Horder. unfold pendingBytes.
  destruct (pending_loop_spec p wf order Horder (runes text) [] ∅) as (raw & Hloop & Hraw & Hthread).
  { by intros pc v Hv%lookup_empty_Some. }
  { intros pc. split; [by intros v Hv%lookup_empty_Some|]. intros v Ht.
    inversion Ht as [d ? ? ? ? ? ? ? Hd|d ? ? ? ? ? ? ? ? ? ? Hd]; by destruct d. }
  change (pending_loop p order (runes text) 0 (-1) ∅)
    with (pending_loop p order (runes text) (offset_of []) (previous_of []) ∅).
  rewrite Hloop. cbn [mbind option_bind fst snd].
  destruct (expand_least p wf order Horder raw (previous_of ([] ++ runes text)) (-1) false Hraw)
    as (m & -> & Hm & Hleast). cbn [mbind option_bind].
  destruct (longest_waiting_spec p (order m) (String.length text) 0) as (n & -> & _ & Hall & Hex).
  { intros pc v Hin%(elem_of_order order Horder). by eapply Hm. }
  exists n. split; [done|].
  assert (∀ q, least (λ v, ∃ pc, thread p (runes text) v pc ∧
    rtc (empty_move p (previous_of (runes text)) (-1) false) pc q) (m !! q)) as Hfinal.
  { intros q. by apply (least_compose _ (λ pc, rtc _ pc q) raw). }
  split.
  - intros start (pc & q & i & Ht & Hr & Hi & Hw).
    destruct (proj2 (Hfinal q) start) as (v & Hv & Hle); [by exists pc|].
    apply (elem_of_order order Horder) in Hv. pose proof (Hall q v i Hv Hi Hw). lia.
  - destruct Hex as [->|(q & v & i & Hin & Hi & Hw & ->)]; [by left|]. right. exists v. split; [|done].
    apply (elem_of_order order Horder) in Hin. destruct (proj1 (Hfinal q) v Hin) as (pc & Ht & Hr).
    by exists pc, q, i.
Qed.

(** The program of [a+b]: after "baa" two bytes are held back. *)
Definition rune_is (n : Z) (r : Z) : bool := Z.eqb n r.
Definition sample_program : Program :=
  mkProgram [mkInst InstRune1 1 0 (rune_is 97); mkInst InstAlt 0 2 (λ _, false);
             mkInst InstRune1 3 0 (rune_is 98); mkInst InstMatch 0 0 (λ _, false)] 0.

Lemma pending_bytes_witness :
  pendingBytes sample_program map_to_list "baa" = Some 2%nat ∧
  ∃ n, pendingBytes sample_program map_to_list "baa" = Some n ∧
    ∀ start, waits sample_program (runes "baa") start → (3 - start ≤ n)%nat.
Proof.
  split; [by vm_compute|].
  destruct (pending_bytes sample_program map_to_list "baa") as (n & Hn & Hall & _).
  - split; [cbn; lia|]. intros pc i Hi. do 4 (destruct pc as [|pc]; [injection Hi as <-; cbn; lia|]). done.
  - done.
  - by exists n.
Defined.

(** ** Chunks *)

Lemma substring_add s x n m :
  String.substring x (n + m) s = String.substring x n s +:+ String.substring (x + n) m s.
Proof.
  revert x n m. induction s as [|c s IH]; intros x n m.
  - by destruct x, n, m.
  - destruct x as [|x]; [|apply (IH x n m)].
    destruct n as [|n]; [done|]. change (String c (String.substring 0 (n + m) s)
      = String c (String.substring 0 n s +:+ String.substring (0 + n) m s)). by rewrite (IH 0%nat n m).
Qed.

Lemma slice_app s x y z : (x ≤ y ≤ z)%nat → slice_of x z s = slice_of x y s +:+ slice_of y z s.
Proof.
  intros [Hxy Hyz]. unfold slice_of. replace (z - x)%nat with ((y - x) + (z - y))%nat by lia.
  rewrite substring_add. by replace (x + (y - x))%nat with y by lia.
Qed.

Lemma slice_empty s x y : (y ≤ x)%nat → slice_of x y s = "".
Proof.
  intros H. unfold slice_of. replace (y - x)%nat with 0%nat by lia. clear H y.
  revert x. induction s as [|c s IH]; intros [|x]; try done. apply (IH x).
Qed.

Lemma concat_cons part rest : String.concat "" (part :: rest) = part +:+ String.concat "" rest.
Proof.
  destruct rest as [|q rest]; [|done]. cbn.
  induction part as [|c part IH]; [done|]. change (String c part = String c (part +:+ "")). by rewrite <-IH.
Qed.

Section chunks.
Context (joined : string).
Implicit Types (matches : list (nat * nat)).

(** Matches of at least one byte, in order, apart, from [c] on. *)
Fixpoint apart (c : nat) matches : Prop :=
  match matches with
  | [] => True
  | (a, b) :: rest => (c ≤ a)%nat ∧ (a < b)%nat ∧ (b ≤ String.length joined)%nat ∧ apart b rest
  end.

(** What a byte becomes: a marker where a match starts, nothing inside one. *)
Fixpoint emit matches (i : nat) : string :=
  match matches with
  | [] => slice_of i (S i) joined
  | (a, b) :: rest =>
      if (i =? a)%nat then replacement
      else if (a <? i)%nat && (i <? b)%nat then "" else emit rest i
  end.

Fixpoint emits matches (i n : nat) : string :=
  match n with O => "" | S n => emit matches i +:+ emits matches (S i) n end.

Definition redacted matches (x y : nat) : string := emits matches x (y - x).

Lemma emits_add matches x n m : emits matches x (n + m) = emits matches x n +:+ emits matches (x + n) m.
Proof.
  revert x. induction n as [|n IH]; intros x; cbn [emits Nat.add]; [by rewrite Nat.add_0_r|].
  rewrite IH, string_app_assoc. by replace (S x + n)%nat with (x + S n)%nat by lia.
Qed.

Lemma redacted_app matches x y z :
  (x ≤ y ≤ z)%nat → redacted matches x z = redacted matches x y +:+ redacted matches y z.
Proof.
  intros [Hxy Hyz]. unfold redacted. replace (z - x)%nat with ((y - x) + (z - y))%nat by lia.
  rewrite emits_add. by replace (x + (y - x))%nat with y by lia.
Qed.

Lemma redacted_empty matches x y : (y ≤ x)%nat → redacted matches x y = "".
Proof. intros H. unfold redacted. by replace (y - x)%nat with 0%nat by lia. Qed.

Lemma emits_ext matches matches' x n :
  (∀ i, (x ≤ i < x + n)%nat → emit matches i = emit matches' i) → emits matches x n = emits matches' x n.
Proof.
  revert x. induction n as [|n IH]; intros x H; cbn [emits]; [done|].
  rewrite (H x) by lia. f_equal. apply IH. intros i Hi. apply H. lia.
Qed.

Lemma redacted_ext matches matches' x y :
  (∀ i, (x ≤ i < y)%nat → emit matches i = emit matches' i) → redacted matches x y = redacted matches' x y.
Proof. intros H. apply emits_ext. intros i Hi. apply H. lia. Qed.

Lemma redacted_none x y : (x ≤ y)%nat → redacted [] x y = slice_of x y joined.
Proof.
  intros H. unfold redacted. remember (y - x)%nat as n eqn:E. revert x H E.
  induction n as [|n IH]; intros x H E; cbn [emits emit].
  { by rewrite slice_empty by lia. }
  rewrite (IH (S x)) by lia. symmetry. apply slice_app. lia.
Qed.

(** Bytes before the first match stay. *)
Lemma emit_before matches c i : apart c matches → (i < c)%nat → emit matches i = emit [] i.
Proof.
  revert c. induction matches as [|[a b] rest IH]; intros c; [done|]. intros (Hc & Hab & _ & Hrest) Hi.
  cbn [emit]. rewrite (proj2 (Nat.eqb_neq i a)) by lia. rewrite (proj2 (Nat.ltb_ge a i)) by lia. cbn [andb].
  apply (IH b); [done|lia].
Qed.

Lemma emits_inside a b rest x n :
  (a < x)%nat → (x + n ≤ b)%nat → emits ((a, b) :: rest) x n = "".
Proof.
  revert x. induction n as [|n IH]; intros x Hx Hb; cbn [emits emit]; [done|].
  rewrite (proj2 (Nat.eqb_neq x a)), (proj2 (Nat.ltb_lt a x)), (proj2 (Nat.ltb_lt x b)) by lia.
  apply (IH (S x)); lia.
Qed.

Lemma redacted_match a b rest stop :
  (a < b)%nat → (a < stop)%nat → redacted ((a, b) :: rest) a (Nat.min b stop) = replacement.
Proof.
  intros Hab Hs. unfold redacted. replace (Nat.min b stop - a)%nat with (S (Nat.min b stop - a - 1))%nat by lia.
  cbn [emits emit]. rewrite Nat.eqb_refl. rewrite emits_inside by lia. done.
Qed.

Lemma redacted_skip a b rest x y :
  (a < b)%nat → (b ≤ x)%nat ∨ (y ≤ a)%nat → redacted ((a, b) :: rest) x y = redacted rest x y.
Proof.
  intros Hab H. apply redacted_ext. intros i Hi. cbn [emit].
  destruct (Nat.eqb_spec i a); [lia|]. destruct (Nat.ltb_spec a i); [|done].
  by destruct (Nat.ltb_spec i b); [lia|].
Qed.

(** The loop for one part writes the part's bytes redacted. *)
Lemma scrub_part_redacted start stop cursor c matches :
  apart c matches → (start ≤ cursor ≤ stop)%nat → (cursor ≤ Nat.max start c)%nat →
  scrub_part joined start stop cursor matches = redacted matches cursor stop.
Proof.
  revert cursor c. induction matches as [|[a b] rest IH]; intros cursor c Hm Hcur Hc; cbn [scrub_part].
  { destruct (Nat.ltb_spec cursor stop); [by rewrite redacted_none by lia|by rewrite redacted_empty by lia]. }
  destruct Hm as (Hca & Hab & Hlen & Hrest).
  destruct (Nat.leb_spec b start) as [Hb|Hb]; cbn [orb].
  { rewrite redacted_skip by lia. apply (IH cursor b); [done|lia|lia]. }
  destruct (Nat.leb_spec stop a) as [Ha|Ha].
  { rewrite redacted_skip by lia. apply (IH cursor b); [done|lia|lia]. }
  rewrite (redacted_app _ cursor (Nat.max a start) stop) by lia.
  rewrite (redacted_app _ (Nat.max a start) (Nat.min b stop) stop) by lia. f_equal; [|f_equal].
  - destruct (Nat.ltb_spec cursor (Nat.max a start)); [|by rewrite redacted_empty by lia].
    rewrite <-redacted_none by lia. apply redacted_ext. intros i Hi. symmetry.
    apply (emit_before _ (Nat.max a start)); [|lia]. cbn [apart]. split_and!; [lia|lia|lia|done].
  - destruct (Nat.leb_spec start a).
    + rewrite Nat.max_l by lia. by rewrite redacted_match by lia.
    + unfold redacted. by rewrite emits_inside by lia.
  - rewrite (IH (Nat.min b stop) b) by (done || lia).
    destruct (decide (b ≤ stop)%nat); [|by rewrite !redacted_empty by lia].
    rewrite Nat.min_l by lia. symmetry. apply redacted_skip; lia.
Qed.

Lemma scrub_parts_redacted matches parts offset :
  apart 0 matches →
  String.concat "" (scrub_parts joined matches offset parts)
  = redacted matches offset (offset + String.length (String.concat "" parts)).
Proof.
  intros Hm. revert offset. induction parts as [|part rest IH]; intros offset.
  { cbn. by rewrite redacted_empty by lia. }
  cbn [scrub_parts]. rewrite !concat_cons, string_length_app.
  rewrite (scrub_part_redacted offset _ offset 0) by (done || lia). rewrite IH.
  rewrite Nat.add_assoc. symmetry. apply redacted_app. lia.
Qed.

Lemma replace_from_redacted cursor matches :
  apart cursor matches → (cursor ≤ String.length joined)%nat →
  replace_from joined cursor matches = redacted matches cursor (String.length joined).
Proof.
  revert cursor. induction matches as [|[a b] rest IH]; intros cursor Hm Hc; cbn [replace_from].
  { by rewrite redacted_none by lia. }
  destruct Hm as (Hca & Hab & Hlen & Hrest). rewrite (IH b) by done.
  rewrite (redacted_app _ cursor a) by lia. rewrite (redacted_app _ a (Nat.min b (String.length joined))) by lia.
  rewrite redacted_match, Nat.min_l by lia. f_equal; [|f_equal].
  - rewrite <-redacted_none by lia. apply redacted_ext. intros i Hi. symmetry.
    apply (emit_before _ a); [|lia]. cbn [apart]. split_and!; [lia|lia|lia|done].
  - symmetry. apply redacted_skip; lia.
Qed.
End chunks.

Lemma length_scrub_parts joined matches offset parts :
  length (scrub_parts joined matches offset parts) = length parts.
Proof. revert offset. induction parts as [|part rest IH]; intros offset; cbn; [done|by rewrite IH]. Qed.

Lemma substring_whole s : String.substring 0 (String.length s) s = s.
Proof. induction s as [|c s IH]; [done|]. cbn. by rewrite IH. Qed.

(** Redacting the parts of a log line is redacting the line: the parts keep their
    number, and put together they are the redaction of the text put together,
    wherever the boundaries fall. The matches are those of an expression that
    matches no empty text. *)
Theorem scrub_parts_whole (find : string → list (nat * nat)) (parts : list string) :
  apart (String.concat "" parts) 0 (find (String.concat "" parts)) →
  length (ScrubParts (Some find) parts) = length parts ∧
  String.concat "" (ScrubParts (Some find) parts) = Scrub (Some find) (String.concat "" parts).
Proof.
  intros Hm. unfold ScrubParts, Scrub. rewrite replace_from_redacted by (done || lia).
  destruct (find (String.concat "" parts)) as [|m ms] eqn:E.
  - split; [done|]. rewrite redacted_none by lia. unfold slice_of. rewrite Nat.sub_0_r.
    symmetry. apply substring_whole.
  - split; [by rewrite length_scrub_parts|]. by apply scrub_parts_redacted.
Qed.
