(* ===== verification/LogBufferTheorems.v ===== *)
(** * LogBufferTheorems: every log event is published once, in order

    Admission splits what was received into a contiguous run and gaps; a buffer
    that is stored is one that the next call accepts; over any history of batches
    the published events are numbered without gap or repetition. *)
From S2P Require Import Prelude Text Base64 Secret Variables VariableTheorems LogScrub LogScrubTheorems LogBuffer.

Implicit Types (events gaps tail : list RemoteLogEvent).

Definition seqs (events : list RemoteLogEvent) : list Z := le_Sequence <$> events.

Lemma seqs_app events events' : seqs (events ++ events') = seqs events ++ seqs events'.
Proof. apply fmap_app. Qed.

(** [q] is the sequence after [p]: a stream starts at 0 or at 1. *)
Definition comes_after (p q : Z) : Prop := q = p + 1 ∨ (p = -1 ∧ q = 1).

Fixpoint chain (p : Z) (l : list Z) : Prop :=
  match l with [] => True | q :: l => comes_after p q ∧ chain q l end.

(** The last sequence of a run that starts after [p]. *)
Definition through (p : Z) (l : list Z) : Z := foldl (λ _ q, q) p l.

Definition increasing (p : Z) (l : list Z) : Prop := StronglySorted Z.lt (p :: l).

Lemma through_app p l k : through p (l ++ k) = through (through p l) k.
Proof. apply foldl_app. Qed.

Lemma through_last p events :
  through p (seqs events) = match last events with Some event => le_Sequence event | None => p end.
Proof.
  induction events as [|x events IH] using rev_ind; [done|]. unfold seqs.
  rewrite fmap_app, through_app, last_snoc. done.
Qed.

Lemma chain_app p l k : chain p (l ++ k) ↔ chain p l ∧ chain (through p l) k.
Proof. revert p. induction l as [|q l IH]; intros p; cbn; [tauto|]. rewrite IH. tauto. Qed.

Lemma comes_after_lt p q : comes_after p q → p < q.
Proof. unfold comes_after. lia. Qed.

Lemma chain_le p l : chain p l → p <= through p l.
Proof.
  revert p. induction l as [|q l IH]; intros p; [done|]. intros [Hq%comes_after_lt Hl].
  change (through p (q :: l)) with (through q l). apply IH in Hl. lia.
Qed.

Lemma chain_increasing p l : chain p l → increasing p l.
Proof.
  revert p. induction l as [|q l IH]; intros p; cbn; [by repeat constructor|].
  intros [Hq%comes_after_lt Hl]. specialize (IH q Hl). constructor; [done|]. constructor; [done|].
  apply StronglySorted_inv in IH as [_ IH]. eapply Forall_impl; [exact IH|]. cbn. lia.
Qed.

Lemma increasing_app p l k :
  increasing p l → increasing (through p l) k → increasing p (l ++ k).
Proof.
  revert p. induction l as [|q l IH]; intros p; [done|]. intros Hl Hk.
  apply StronglySorted_inv in Hl as [Hl Hp]. apply Forall_cons in Hp as [Hpq Hp].
  specialize (IH q Hl Hk). constructor; [done|]. constructor; [done|].
  apply StronglySorted_inv in IH as [_ IH]. eapply Forall_impl; [exact IH|]. cbn. lia.
Qed.

(** ** Admission *)

Lemma contiguous_chain events cursor :
  let n := contiguousEventCount events cursor in
  chain cursor (seqs (take n events)) ∧
  contiguousEventCount (drop n events) (through cursor (seqs (take n events))) = 0%nat.
Proof.
  revert cursor. induction events as [|event events IH]; intros cursor; [done|].
  cbn [contiguousEventCount]. destruct (Z.eqb_spec cursor MaxInt64) as [He|He].
  { split; [done|]. cbn. by rewrite (proj2 (Z.eqb_eq _ _) He). }
  destruct (Z.eqb_spec (le_Sequence event) (expected_sequence cursor (le_Sequence event))) as [Hs|Hs].
  - specialize (IH (le_Sequence event)) as [IH1 IH2]. split; [|exact IH2].
    split; [|exact IH1]. unfold expected_sequence in Hs. unfold comes_after.
    destruct (Z.eqb_spec cursor (-1)), (Z.eqb_spec (le_Sequence event) 0); cbn in Hs; lia.
  - split; [done|]. cbn. rewrite (proj2 (Z.eqb_neq _ _) He). by rewrite (proj2 (Z.eqb_neq _ _) Hs).
Qed.

(** Every entry is stored under its sequence, and was received. *)
Lemma fold_insert_lookup gaps (m : gmap Z RemoteLogEvent) k event :
  foldl (λ m event, <[le_Sequence event := event]> m) m gaps !! k = Some event →
  m !! k = Some event ∨ (event ∈ gaps ∧ le_Sequence event = k).
Proof.
  revert m. induction gaps as [|x gaps IH]; intros m; cbn [foldl]; [auto|].
  intros [Hm|[? ?]]%IH; [|right; split; [by right|done]].
  apply lookup_insert_Some in Hm as [[<- ->]|[_ Hm]]; [right; split; [by left|done]|auto].
Qed.

Lemma fold_admit_lookup received events (m : gmap Z RemoteLogEvent) k event :
  foldl (admit_event received) m events !! k = Some event →
  m !! k = Some event ∨ (event ∈ events ∧ le_Sequence event = k ∧ received < k).
Proof.
  revert m. induction events as [|x events IH]; intros m; cbn [foldl]; [auto|].
  intros [Hm|(? & ? & ?)]%IH; [|right; split; [by right|done]].
  unfold admit_event in Hm. destruct (Z.leb_spec (le_Sequence x) received); [auto|].
  destruct (m !! le_Sequence x); [auto|].
  apply lookup_insert_Some in Hm as [[<- ->]|[_ Hm]]; [right; split; [by left|auto]|auto].
Qed.

Lemma by_sequence_lookup state incoming k event :
  by_sequence state incoming !! k = Some event →
  le_Sequence event = k ∧ (event ∈ lb_Gaps state ∨ (event ∈ incoming ∧ lb_ReceivedThrough state < k)).
Proof.
  intros [Hm|(? & ? & ?)]%fold_admit_lookup; [|auto].
  apply fold_insert_lookup in Hm as [?%lookup_empty_Some|[? ?]]; [done|auto].
Qed.

(** What was received, in the order of the sequences. *)
Definition merged (state : remoteLogBuffer) (incoming : list RemoteLogEvent) : list RemoteLogEvent :=
  snd <$> sort_by event_le (map_to_list (by_sequence state incoming)).

Lemma event_le_total (x y : Z * RemoteLogEvent) : event_le x y = false → event_le y x = true.
Proof. unfold event_le. destruct (Z.leb_spec x.1 y.1), (Z.leb_spec y.1 x.1); done || lia. Qed.
Lemma event_le_trans (x y z : Z * RemoteLogEvent) :
  event_le x y = true → event_le y z = true → event_le x z = true.
Proof. unfold event_le. rewrite !Z.leb_le. lia. Qed.

Lemma elem_of_merged state incoming event :
  event ∈ merged state incoming ↔ by_sequence state incoming !! le_Sequence event = Some event.
Proof.
  unfold merged. rewrite list_elem_of_fmap. split.
  - intros ([k x] & -> & Hin). rewrite elem_of_sort_by, elem_of_map_to_list in Hin.
    pose proof (by_sequence_lookup _ _ _ _ Hin) as [Hk _]. cbn. by rewrite Hk.
  - intros Hl. exists (le_Sequence event, event). split; [done|].
    by rewrite elem_of_sort_by, elem_of_map_to_list.
Qed.

Lemma strict_of_sorted (rows : list (Z * RemoteLogEvent)) :
  StronglySorted (λ a b, event_le a b = true) rows → NoDup rows.*1 →
  (∀ k event, (k, event) ∈ rows → le_Sequence event = k) → StronglySorted Z.lt (seqs (snd <$> rows)).
Proof.
  induction 1 as [|[k x] rows Hs IH Hle]; intros Hnd Hk; cbn; [constructor|].
  apply NoDup_cons in Hnd as [Hn Hnd]. constructor.
  { apply IH; [done|]. intros k' y Hin. apply Hk. by right. }
  apply Forall_fmap, Forall_fmap, Forall_forall. intros [k' y] Hin. cbn.
  rewrite (Hk k x) by left. rewrite (Hk k' y) by (by right).
  rewrite Forall_forall in Hle. specialize (Hle _ Hin). unfold event_le in Hle. cbn in Hle.
  apply Z.leb_le in Hle. enough (k ≠ k') by lia. intros ->. apply Hn.
  apply list_elem_of_fmap. by exists (k', y).
Qed.

Lemma merged_sorted state incoming : StronglySorted Z.lt (seqs (merged state incoming)).
Proof.
  apply strict_of_sorted.
  - apply sort_by_sorted; [apply event_le_total|apply event_le_trans].
  - rewrite sort_by_perm. apply NoDup_fst_map_to_list.
  - intros k event Hin. rewrite elem_of_sort_by, elem_of_map_to_list in Hin.
    by apply by_sequence_lookup in Hin as [? _].
Qed.

Lemma seqs_cons event events :
  StronglySorted Z.lt (seqs (event :: events)) →
  StronglySorted Z.lt (seqs events) ∧ ∀ x, x ∈ events → le_Sequence event < le_Sequence x.
Proof.
  intros [Hs Hf]%StronglySorted_inv. split; [exact Hs|]. intros x Hx.
  rewrite Forall_forall in Hf. apply Hf, list_elem_of_fmap. eauto.
Qed.

(** Two strictly increasing lists with the same events are the same list. *)
Lemma increasing_unique events events' :
  StronglySorted Z.lt (seqs events) → StronglySorted Z.lt (seqs events') →
  (∀ event, event ∈ events ↔ event ∈ events') → events = events'.
Proof.
  revert events'. induction events as [|x events IH]; intros events' H1 H2 Heq.
  { destruct events' as [|y events']; [done|]. exfalso. apply (not_elem_of_nil y), Heq. by left. }
  destruct events' as [|y events'].
  { exfalso. apply (not_elem_of_nil x), Heq. by left. }
  apply seqs_cons in H1 as [H1 F1]. apply seqs_cons in H2 as [H2 F2].
  assert (x = y) as <-.
  { assert (x ∈ y :: events') as [?|Hx]%elem_of_cons by (apply Heq; by left); [done|].
    assert (y ∈ x :: events) as [?|Hy]%elem_of_cons by (apply Heq; by left); [done|].
    specialize (F1 _ Hy). specialize (F2 _ Hx). lia. }
  f_equal. apply IH; [done..|]. intros event. specialize (Heq event). rewrite !elem_of_cons in Heq. split.
  - intros Hin. destruct (proj1 Heq (or_intror Hin)) as [->|?]; [|done]. specialize (F1 _ Hin). lia.
  - intros Hin. destruct (proj2 Heq (or_intror Hin)) as [->|?]; [|done]. specialize (F2 _ Hin). lia.
Qed.

Lemma increasing_iff p events :
  increasing p (seqs events) ↔ StronglySorted Z.lt (seqs events) ∧ ∀ x, x ∈ events → p < le_Sequence x.
Proof.
  unfold increasing. split.
  - intros [Hs Hf]%StronglySorted_inv. split; [done|]. rewrite Forall_forall in Hf. intros x Hx.
    apply Hf, list_elem_of_fmap. eauto.
  - intros [Hs Hf]. constructor; [done|]. apply Forall_forall. intros q (x & -> & Hx)%list_elem_of_fmap. auto.
Qed.

Lemma increasing_drop p events events' :
  increasing p (seqs (events ++ events')) → increasing (through p (seqs events)) (seqs events').
Proof.
  revert p. induction events as [|x events IH]; intros p; [done|]. intros [Hs _]%StronglySorted_inv.
  apply (IH (le_Sequence x)). exact Hs.
Qed.

Lemma fold_insert_in gaps (m : gmap Z RemoteLogEvent) event :
  StronglySorted Z.lt (seqs gaps) → event ∈ gaps →
  foldl (λ m event, <[le_Sequence event := event]> m) m gaps !! le_Sequence event = Some event.
Proof.
  intros Hs. revert m. induction gaps as [|x gaps IH]; intros m; [by intros ?%not_elem_of_nil|].
  intros [->|Hin]%elem_of_cons; cbn [foldl].
  - assert (Hk : ∀ l (m : gmap Z RemoteLogEvent), (∀ y, y ∈ l → le_Sequence x < le_Sequence y) →
      m !! le_Sequence x = Some x →
      foldl (λ m event, <[le_Sequence event := event]> m) m l !! le_Sequence x = Some x).
    { clear. induction l as [|y l IH]; intros m Hl Hm; [done|]. cbn [foldl]. apply IH.
      { intros z Hz. apply Hl. by right. }
      assert (le_Sequence x < le_Sequence y) by (apply Hl; by left). by rewrite lookup_insert_ne by lia. }
    apply Hk; [|apply lookup_insert_eq]. by apply seqs_cons in Hs as [_ ?].
  - apply IH; [|done]. by apply seqs_cons in Hs as [? _].
Qed.

Lemma merged_nothing state : StronglySorted Z.lt (seqs (lb_Gaps state)) → merged state [] = lb_Gaps state.
Proof.
  intros Hs. apply increasing_unique; [apply merged_sorted|done|]. intros event.
  rewrite elem_of_merged. split.
  - by intros [_ [?|[?%not_elem_of_nil _]]]%by_sequence_lookup.
  - apply fold_insert_in, Hs.
Qed.

Section limits.
Context `{LogProtocol}.

(** What admission returns: the run that continues the stream, and the gaps. *)
Lemma admit_ok state incoming contiguous gaps cursor :
  admitRemoteLogEvents state incoming = Ok (contiguous, gaps, cursor) →
  merged state incoming = contiguous ++ gaps ∧
  chain (lb_ReceivedThrough state) (seqs contiguous) ∧
  cursor = through (lb_ReceivedThrough state) (seqs contiguous) ∧
  contiguousEventCount gaps cursor = 0%nat ∧ validateRemoteLogGaps gaps cursor = Ok tt.
Proof.
  unfold admitRemoteLogEvents. destruct (negb _); [done|]. destruct (existsb _ _); [done|]. cbv zeta.
  fold (merged state incoming). set (n := contiguousEventCount _ _). rewrite <-through_last.
  destruct (validateRemoteLogGaps _ _) as [[]|er] eqn:Hv; [|done]. cbn [mbind result_bind].
  intros [= <- <- <-]. destruct (contiguous_chain (merged state incoming) (lb_ReceivedThrough state)) as [H1 H2].
  split_and!; [by rewrite take_drop|exact H1|done|exact H2|exact Hv].
Qed.

Lemma merged_increasing state incoming :
  increasing (lb_ReceivedThrough state) (seqs (lb_Gaps state)) →
  increasing (lb_ReceivedThrough state) (seqs (merged state incoming)).
Proof.
  rewrite !increasing_iff. intros [_ Hg]. split; [apply merged_sorted|]. intros x.
  rewrite elem_of_merged. intros [_ [?|[_ ?]]]%by_sequence_lookup; [by apply Hg|done].
Qed.

(** A buffer that goes on with a stream published up to [published]. *)
Record buffer_ok (published : Z) (state : remoteLogBuffer) : Prop := {
  bo_version : lb_Version state = 2;
  bo_tail : chain published (seqs (lb_Tail state));
  bo_through : through published (seqs (lb_Tail state)) = lb_ReceivedThrough state;
  bo_suppressed : lb_Suppressed state = true → lb_Tail state = [];
  bo_fits : remoteLogEventsFit (lb_Tail state ++ lb_Gaps state) = true;
  bo_gaps : increasing (lb_ReceivedThrough state) (seqs (lb_Gaps state));
  bo_stop : contiguousEventCount (lb_Gaps state) (lb_ReceivedThrough state) = 0%nat;
  bo_window : validateRemoteLogGaps (lb_Gaps state) (lb_ReceivedThrough state) = Ok tt }.

Lemma fits_nothing events : remoteLogEventsFit events = true → MaxLogEvents >= 0.
Proof.
  unfold remoteLogEventsFit. rewrite andb_true_iff, negb_true_iff, Z.ltb_ge. lia.
Qed.

Lemma admit_nothing published state :
  buffer_ok published state →
  admitRemoteLogEvents state [] = Ok ([], lb_Gaps state, lb_ReceivedThrough state).
Proof.
  intros Hok. unfold admitRemoteLogEvents.
  assert (remoteLogEventsFit [] = true) as ->.
  { unfold remoteLogEventsFit. cbn [length lines_fit]. pose proof (fits_nothing _ (bo_fits _ _ Hok)).
    by destruct (Z.ltb_spec MaxLogEvents (Z.of_nat 0)); [lia|]. }
  cbn [negb existsb]. cbv zeta. fold (merged state []). rewrite merged_nothing.
  2: { apply (proj1 (increasing_iff _ _) (bo_gaps _ _ Hok)). }
  rewrite (bo_stop _ _ Hok), take_0, drop_0. cbn [last]. by rewrite (bo_window _ _ Hok).
Qed.

Lemma tail_chain received p tail q :
  tail_through received p tail = Some q → chain p (seqs tail) ∧ q = through p (seqs tail).
Proof.
  revert p. induction tail as [|x tail IH]; intros p; cbn [tail_through]; [by intros [= ->]|].
  destruct (_ || _) eqn:E; [done|]. intros [Hc Hq]%IH. split; [|exact Hq]. split; [|exact Hc].
  rewrite !orb_false_iff, andb_false_iff, orb_false_iff, !negb_false_iff, !Z.eqb_eq in E.
  unfold comes_after. lia.
Qed.

Lemma chain_tail received p tail :
  -1 <= p → chain p (seqs tail) → through p (seqs tail) <= received →
  tail_through received p tail = Some (through p (seqs tail)).
Proof.
  revert p. induction tail as [|x tail IH]; intros p Hp; [done|]. intros [Ha Hc] Hr.
  change (through p (seqs (x :: tail))) with (through (le_Sequence x) (seqs tail)) in *.
  cbn [tail_through]. pose proof (chain_le _ _ Hc) as Hle. change (list_fmap _ _ _ _) with (seqs tail) in Hle.
  pose proof (comes_after_lt _ _ Ha). rewrite (IH (le_Sequence x)) by (done || lia).
  assert (Hx : 0 <= le_Sequence x <= received) by lia. unfold comes_after in Ha.
  destruct (Z.ltb_spec (le_Sequence x) 0), (Z.leb_spec (le_Sequence x) p), (Z.ltb_spec received (le_Sequence x));
    try lia. cbn [orb].
  destruct (Z.eqb_spec (le_Sequence x - p) 1), (Z.eqb_spec p (-1)), (Z.eqb_spec (le_Sequence x) 1); done || lia.
Qed.

Lemma gaps_increase_iff p gaps : -1 <= p → gaps_increase p gaps = true ↔ increasing p (seqs gaps).
Proof.
  revert p. induction gaps as [|x gaps IH]; intros p Hp; cbn [gaps_increase].
  { split; [|done]. by repeat constructor. }
  rewrite andb_true_iff, negb_true_iff, orb_false_iff, Z.ltb_ge, Z.leb_gt. split.
  - intros [[H0 Hlt] Hg]. apply IH in Hg; [|lia]. constructor; [exact Hg|]. constructor; [done|].
    apply StronglySorted_inv in Hg as [_ Hf]. eapply Forall_impl; [exact Hf|]. cbn. lia.
  - intros [Hs Hf]%StronglySorted_inv. apply Forall_cons in Hf as [Hlt _]. split; [lia|].
    apply IH; [lia|exact Hs].
Qed.

(** What the server stores is what it accepts again. *)
Lemma validate_iff published state :
  -1 <= published → validateRemoteLogState state published = Ok tt ↔ buffer_ok published state.
Proof.
  intros Hp. unfold validateRemoteLogState, validRemoteLogTail. split.
  - destruct (_ || negb (gaps_increase _ _)) eqn:E; [done|].
    rewrite !orb_false_iff, !negb_false_iff, andb_false_iff, Z.eqb_eq, !Z.ltb_ge in E.
    destruct E as ((((((Hv & Hlow) & Hpub) & Hsup) & Hfit) & Htail) & Hgaps).
    destruct (tail_through _ _ _) as [q|] eqn:Et; [|done]. apply Z.eqb_eq in Htail as ->.
    apply tail_chain in Et as [Hc Hq]. apply gaps_increase_iff in Hgaps; [|done].
    destruct (admitRemoteLogEvents state []) as [[[[|] gaps] cursor]|] eqn:Ea; try done. intros _.
    apply admit_ok in Ea as (Hm & _ & Hcur & Hstop & Hwin). cbn in Hm, Hcur. subst gaps cursor.
    rewrite merged_nothing in Hstop, Hwin by apply (proj1 (increasing_iff _ _) Hgaps).
    split; try done. destruct Hsup as [->|Hsup]; [done|].
    intros _. apply negb_false_iff, Nat.eqb_eq, length_zero_iff_nil in Hsup. done.
  - intros Hok. pose proof Hok as [Hv Hc Hq Hsup Hfit Hgaps Hstop Hwin].
    rewrite Hv, Hfit. pose proof (chain_le _ _ Hc) as Hle. rewrite Hq in Hle.
    rewrite chain_tail, Hq, !Z.eqb_refl by (done || lia).
    apply (gaps_increase_iff (lb_ReceivedThrough state)) in Hgaps; [|lia].
    rewrite Hgaps, (admit_nothing _ _ Hok).
    destruct (Z.ltb_spec (lb_ReceivedThrough state) (-1)), (Z.ltb_spec (lb_ReceivedThrough state) published); try lia.
    destruct (lb_Suppressed state); [|done]. by rewrite Hsup.
Qed.

Lemma fresh_ok published : MaxLogEvents >= 0 → buffer_ok published (fresh_buffer published).
Proof.
  intros Hm. split; try done.
  - unfold remoteLogEventsFit. cbn [fresh_buffer lb_Tail lb_Gaps app length lines_fit].
    by destruct (Z.ltb_spec MaxLogEvents (Z.of_nat 0)); [lia|].
  - by repeat constructor.
  - unfold validateRemoteLogGaps, remoteLogEventsFit. cbn [fresh_buffer lb_Gaps length lines_fit negb last].
    by destruct (Z.ltb_spec MaxLogEvents (Z.of_nat 0)); [lia|].
Qed.

Lemma window_fits gaps cursor :
  validateRemoteLogGaps gaps cursor = Ok tt → remoteLogEventsFit gaps = true.
Proof. unfold validateRemoteLogGaps. by destruct (remoteLogEventsFit gaps). Qed.

(** ** Publishing *)
Section publish.
Context (order : gmap nat nat → list (nat * nat)) (scrubber : option Scrubber).
Notation prepare := (prepareRemoteLogEvents order scrubber).

(** How events are published: redacted together, or not shown at all. *)
Definition redacted_as (raw out : list RemoteLogEvent) : Prop :=
  out = scrubRemoteLogEvents scrubber raw ∨ out = suppress raw.

Lemma seqs_zip (f : string → string) events (parts : list string) :
  length parts = length events →
  seqs (zip_with (λ event part, with_line event (f part)) events parts) = seqs events.
Proof.
  revert parts. induction events as [|x events IH]; intros [|part parts] Hl; try done.
  injection Hl as Hl. cbn. f_equal. by apply IH.
Qed.

Lemma redacted_seqs raw out : redacted_as raw out → seqs out = seqs raw.
Proof.
  intros [->| ->].
  - unfold scrubRemoteLogEvents. rewrite seqs_zip; [done|]. unfold Scrubber_ScrubParts, ScrubParts.
    destruct scrubber as [[[find|] ? ?]|]; cbn [sc_all]; [|by rewrite length_fmap..].
    destruct (find _); rewrite ?length_scrub_parts; by rewrite length_fmap.
  - unfold suppress, seqs. by rewrite <-list_fmap_compose.
Qed.

(** The events to publish are a prefix of the run, and the rest is stored. *)
Lemma prepare_cases pending incoming lastSequence flush ready out :
  let p := default (fresh_buffer lastSequence) pending in
  prepare pending incoming lastSequence flush = Ok (ready, out) →
  ∃ contiguous gaps cursor raw rest suppressed,
    admitRemoteLogEvents p incoming = Ok (contiguous, gaps, cursor) ∧
    lb_Tail p ++ contiguous ++ (if flush then gaps else []) = raw ++ rest ∧ redacted_as raw ready ∧
    if flush then rest = [] ∧ out = None
    else out = Some (mkBuffer 2 cursor suppressed rest gaps) ∧ remoteLogEventsFit (rest ++ gaps) = true ∧
         (suppressed = true → rest = []).
Proof.
  intros p. unfold prepareRemoteLogEvents. fold p.
  destruct (admitRemoteLogEvents p incoming) as [[[contiguous gaps] cursor]|er] eqn:Ea; [|done].
  cbn [mbind result_bind]. set (merged := lb_Tail p ++ _). set (n := if _ && _ then _ else _).
  set (left := if flush then [] else gaps). set (fits := remoteLogEventsFit _).
  set (suppressed := lb_Suppressed p || negb fits). intros [= <- <-].
  exists contiguous, gaps, cursor, (if fits then take n merged else merged),
    (if fits then drop n merged else []), suppressed.
  split; [done|]. split; [destruct fits; [by rewrite take_drop|by rewrite app_nil_r]|].
  split; [destruct suppressed; [by right|by left]|]. destruct flush.
  - split; [|done]. destruct fits; [|done]. apply drop_ge. done.
  - split; [done|]. split.
    + destruct fits eqn:Ef; [done|]. apply admit_ok in Ea as (_ & _ & _ & _ & Hw). by eapply window_fits.
    + unfold suppressed. destruct fits; [|done]. rewrite orb_false_r. intros Hs. apply drop_ge.
      unfold n. by rewrite Hs.
Qed.

Lemma fits_fresh pending incoming lastSequence flush ready out :
  prepare pending incoming lastSequence flush = Ok (ready, out) → MaxLogEvents >= 0.
Proof.
  unfold prepareRemoteLogEvents, admitRemoteLogEvents.
  destruct (remoteLogEventsFit incoming) eqn:E; [|done]. intros _. by apply (fits_nothing incoming).
Qed.

(** Publishing goes on with the stream, and leaves a buffer that continues it. *)
Lemma prepare_keeps pending incoming lastSequence ready state :
  (∀ p, pending = Some p → buffer_ok lastSequence p) →
  prepare pending incoming lastSequence false = Ok (ready, Some state) →
  chain lastSequence (seqs ready) ∧ buffer_ok (through lastSequence (seqs ready)) state.
Proof.
  intros Hpending E. pose proof (fits_fresh _ _ _ _ _ _ E) as Hmax.
  assert (Hok : buffer_ok lastSequence (default (fresh_buffer lastSequence) pending))
    by (destruct pending; [by apply Hpending|by apply fresh_ok]).
  apply prepare_cases in E as (contiguous & gaps & cursor & raw & rest & suppressed & Ha & Hm & Hr & Hst & Hfit & Hsup).
  injection Hst as ->. rewrite app_nil_r in Hm.
  apply admit_ok in Ha as (Hmerged & Hc & -> & Hstop & Hwin). rewrite (redacted_seqs _ _ Hr).
  assert (Hrun : chain lastSequence (seqs (raw ++ rest))).
  { rewrite <-Hm, seqs_app. apply chain_app.
    split; [apply (bo_tail _ _ Hok)|]. by rewrite (bo_through _ _ Hok). }
  assert (Hend : through lastSequence (seqs (raw ++ rest))
                 = through (lb_ReceivedThrough (default (fresh_buffer lastSequence) pending)) (seqs contiguous)).
  { rewrite <-Hm, seqs_app, through_app. by rewrite (bo_through _ _ Hok). }
  rewrite seqs_app in Hrun, Hend. rewrite through_app in Hend.
  apply chain_app in Hrun as [H1 H2]. split; [done|]. split; cbn; try done.
  pose proof (merged_increasing _ incoming (bo_gaps _ _ Hok)) as Hinc. rewrite Hmerged in Hinc.
  by apply increasing_drop in Hinc.
Qed.

(** A flush publishes everything that is left. *)
Lemma prepare_flush pending lastSequence :
  MaxLogEvents >= 0 → (∀ p, pending = Some p → buffer_ok lastSequence p) →
  ∃ ready, prepare pending [] lastSequence true = Ok (ready, None) ∧
    redacted_as (lb_Tail (default (fresh_buffer lastSequence) pending)
                 ++ lb_Gaps (default (fresh_buffer lastSequence) pending)) ready ∧
    increasing lastSequence (seqs ready).
Proof.
  intros Hmax Hpending.
  assert (Hok : buffer_ok lastSequence (default (fresh_buffer lastSequence) pending))
    by (destruct pending; [by apply Hpending|by apply fresh_ok]).
  destruct (prepare pending [] lastSequence true) as [[ready out]|er] eqn:E.
  2: { unfold prepareRemoteLogEvents in E. by rewrite (admit_nothing _ _ Hok) in E. }
  exists ready. apply prepare_cases in E as (contiguous & gaps & cursor & raw & rest & _ & Ha & Hm & Hr & -> & ->).
  rewrite (admit_nothing _ _ Hok) in Ha. injection Ha as <- <- <-. rewrite app_nil_r in Hm. subst raw.
  split; [done|]. split; [done|]. rewrite (redacted_seqs _ _ Hr), !seqs_app.
  pose proof (bo_gaps _ _ Hok) as Hg. rewrite <-(bo_through _ _ Hok) in Hg.
  apply increasing_app; [apply chain_increasing, (bo_tail _ _ Hok)|exact Hg].
Qed.

(** ** What is held back *)

Lemma total_bytes_cons event events :
  total_bytes (event :: events) = Z.of_nat (String.length (le_Line event)) + total_bytes events.
Proof. unfold total_bytes. cbn. lia. Qed.

Lemma total_bytes_nonneg events : 0 <= total_bytes events.
Proof. unfold total_bytes. lia. Qed.

(** The events within the safe bytes are published, and no event more could be. *)
Lemma ready_within_bounds events consumed safe :
  consumed <= safe →
  let n := ready_within events consumed safe in
  consumed + total_bytes events - total_bytes (drop n events) <= safe ∧
  (drop n events ≠ [] → safe < consumed + total_bytes events - total_bytes (drop (S n) events)).
Proof.
  revert consumed. induction events as [|x events IH]; intros consumed Hc; cbn [ready_within].
  { split; [cbn; lia|done]. }
  rewrite total_bytes_cons.
  destruct (Z.ltb_spec safe (consumed + Z.of_nat (String.length (le_Line x)))) as [Hlt|Hge].
  - rewrite drop_0. cbn [drop]. rewrite ?total_bytes_cons, drop_0. split; [lia|]. intros _. lia.
  - cbn [drop]. destruct (IH _ Hge) as [H1 H2]. split; [lia|]. intros Hne. specialize (H2 Hne).
    destruct events; [by rewrite drop_nil in Hne|]. cbn [drop] in *. lia.
Qed.

(** Held back are at least the bytes of a possible secret, unless nothing is
    published, and without its first event the tail is no longer than that. *)
Lemma ready_count_bounds events hold :
  let n := readyEventCount events hold in
  (take n events = [] ∨ Z.of_nat hold <= total_bytes (drop n events)) ∧
  total_bytes (drop 1 (drop n events)) <= Z.of_nat hold.
Proof.
  unfold readyEventCount. destruct (Z.leb_spec (total_bytes events - Z.of_nat hold) 0) as [Hle|Hgt]; cbv zeta.
  - split; [by left|]. rewrite drop_0. destruct events as [|x events]; [cbn; lia|]. rewrite total_bytes_cons in Hle.
    cbn [drop]. rewrite drop_0. lia.
  - destruct (ready_within_bounds events 0 _ (Z.lt_le_incl _ _ Hgt)) as [H1 H2]. set (n := ready_within _ _ _) in *.
    split; [right; lia|]. destruct (drop n events) as [|y l] eqn:Ed; [change (total_bytes (drop 1 [])) with 0; lia|].
    specialize (H2 ltac:(done)). rewrite <-Ed, drop_drop, Nat.add_1_r. lia.
Qed.

Lemma prepare_held pending incoming lastSequence ready state :
  prepare pending incoming lastSequence false = Ok (ready, Some state) → lb_Suppressed state = false →
  ∃ raw, ready = scrubRemoteLogEvents scrubber raw ∧
    let hold := Z.of_nat (PendingBytes order scrubber (String.concat "" (le_Line <$> raw ++ lb_Tail state))) in
    (raw = [] ∨ hold <= total_bytes (lb_Tail state)) ∧ total_bytes (drop 1 (lb_Tail state)) <= hold.
Proof.
  unfold prepareRemoteLogEvents. set (p := default _ _).
  destruct (admitRemoteLogEvents p incoming) as [[[contiguous gaps] cursor]|er]; [|done].
  cbn [mbind result_bind negb andb]. set (merged := lb_Tail p ++ _).
  intros [= <- <-]. cbn [lb_Suppressed lb_Tail]. rewrite orb_false_iff, negb_false_iff. intros [Hs ->].
  rewrite Hs. cbn [negb orb]. set (n := readyEventCount _ _). exists (take n merged). split; [done|].
  rewrite take_drop. apply ready_count_bounds.
Qed.

(** ** A stream *)

(** The state between two calls for one run: the last published sequence, the
    stored buffer, what has been published, and the events of the batches that
    were not refused. *)
Record stream := mkStream {
  st_last : Z;
  st_buffer : option remoteLogBuffer;
  st_published : list RemoteLogEvent;
  st_accepted : list RemoteLogEvent }.

Definition opened : stream := mkStream (-1) None [] [].

(** A batch that is refused changes nothing. *)
Definition deliver (st : stream) (batch : list RemoteLogEvent) : stream :=
  match prepare (st_buffer st) batch (st_last st) false with
  | Ok (ready, buffer) =>
      mkStream (through (st_last st) (seqs ready)) buffer (st_published st ++ ready) (st_accepted st ++ batch)
  | Err _ => st
  end.

(** The raw events behind what was published, call by call. *)
Inductive published_as : list RemoteLogEvent → list RemoteLogEvent → Prop :=
  | pub_nothing : published_as [] []
  | pub_more raw out raw' out' :
      published_as raw out → redacted_as raw' out' → published_as (raw ++ raw') (out ++ out').

(** The event, or one with its sequence, is among those numbered [l]; a stream
    that started at 1 has no event 0. *)
Definition covered (l : list Z) (event : RemoteLogEvent) : Prop :=
  le_Sequence event ∈ l ∨ (le_Sequence event = 0 ∧ 1 ∈ l).

Definition held (st : stream) : list RemoteLogEvent :=
  lb_Tail (default (fresh_buffer (st_last st)) (st_buffer st))
  ++ lb_Gaps (default (fresh_buffer (st_last st)) (st_buffer st)).

Record stream_ok (st : stream) (raw : list RemoteLogEvent) : Prop := {
  so_chain : chain (-1) (seqs (st_published st));
  so_last : st_last st = through (-1) (seqs (st_published st));
  so_buffer : ∀ p, st_buffer st = Some p → buffer_ok (st_last st) p;
  so_published : published_as raw (st_published st);
  so_received : ∀ event, event ∈ raw ++ held st → event ∈ st_accepted st;
  so_covered : ∀ event, event ∈ st_accepted st → covered (seqs (st_published st ++ held st)) event }.

Lemma chain_covers p l q : -1 <= p → chain p l → p < q <= through p l → q ∈ l ∨ (p = -1 ∧ q = 0 ∧ 1 ∈ l).
Proof.
  revert p. induction l as [|x l IH]; intros p Hp; [cbn; lia|]. intros [Ha Hc] [H1 H2].
  assert (-1 <= x) as Hx by (unfold comes_after in Ha; lia).
  change (through p (x :: l)) with (through x l) in H2.
  destruct (decide (q = x)) as [->|Hne]; [left; by left|]. destruct (decide (x < q)) as [Hlt|Hge].
  - destruct (IH x Hx Hc (conj Hlt H2)) as [?|(-> & -> & ?)]; [left; by right|]. unfold comes_after in Ha. lia.
  - right. unfold comes_after in Ha. assert (p = -1 ∧ x = 1) as [-> ->] by lia.
    split; [done|]. split; [lia|by left].
Qed.

(** Nothing that was waiting, and nothing that arrived late, is lost by admission. *)
Lemma fold_admit_keeps received events (m : gmap Z RemoteLogEvent) k :
  is_Some (m !! k) ∨ (∃ event, event ∈ events ∧ le_Sequence event = k ∧ received < k) →
  is_Some (foldl (admit_event received) m events !! k).
Proof.
  revert m. induction events as [|x events IH]; intros m; cbn [foldl].
  { intros [?|(? & ?%not_elem_of_nil & _)]; done. }
  intros Hk. apply IH. unfold admit_event.
  destruct Hk as [Hk|(event & [->|Hin]%elem_of_cons & <- & Hlt)]; [left|left|right; eauto].
  - destruct (Z.leb _ _); [done|]. destruct (m !! le_Sequence x); [done|]. by apply lookup_insert_is_Some'; right.
  - destruct (Z.leb_spec (le_Sequence x) received); [lia|].
    destruct (m !! le_Sequence x) eqn:Em; [by rewrite Em|]. rewrite lookup_insert_eq. by eexists.
Qed.

Lemma merged_keeps state incoming k :
  StronglySorted Z.lt (seqs (lb_Gaps state)) →
  k ∈ seqs (lb_Gaps state) ∨ (∃ event, event ∈ incoming ∧ le_Sequence event = k ∧ lb_ReceivedThrough state < k) →
  k ∈ seqs (merged state incoming).
Proof.
  intros Hs Hk. assert (is_Some (by_sequence state incoming !! k)) as [x Hx].
  { apply fold_admit_keeps. destruct Hk as [(x & -> & Hx)%list_elem_of_fmap|?]; [left|by right].
    rewrite fold_insert_in by done. by eexists. }
  pose proof (by_sequence_lookup _ _ _ _ Hx) as [<- _]. apply list_elem_of_fmap. exists x.
  split; [done|]. by apply elem_of_merged.
Qed.

Lemma admit_nonneg state incoming r event :
  admitRemoteLogEvents state incoming = Ok r → event ∈ incoming → 0 <= le_Sequence event.
Proof.
  unfold admitRemoteLogEvents. destruct (negb _); [done|]. destruct (existsb _ _) eqn:E; [done|]. intros _ Hin.
  destruct (Z.ltb_spec (le_Sequence event) 0) as [Hlt|]; [|done].
  assert (existsb (λ event, le_Sequence event <? 0) incoming = true); [|congruence].
  apply existsb_exists. exists event. rewrite <-list_elem_of_In. split; [done|]. by apply Z.ltb_lt.
Qed.

Lemma deliver_ok st raw batch :
  stream_ok st raw → ∃ raw', stream_ok (deliver st batch) raw'.
Proof.
  intros [Hc Hl Hb Hp Hr Hcov].
  unfold deliver. destruct (prepare (st_buffer st) batch (st_last st) false) as [[ready out]|er] eqn:E.
  2: { exists raw. by split. }
  pose proof (fits_fresh _ _ _ _ _ _ E) as Hmax.
  assert (Hok0 : buffer_ok (st_last st) (default (fresh_buffer (st_last st)) (st_buffer st)))
    by (destruct (st_buffer st); [by apply Hb|by apply fresh_ok]).
  pose proof E as (contiguous & gaps & cursor & raw' & rest & sup & Ha & Hm & Hred & -> & _)%prepare_cases.
  destruct (prepare_keeps _ _ _ _ _ Hb E) as [Hchain Hok]. rewrite app_nil_r in Hm.
  pose proof (admit_ok _ _ _ _ _ Ha) as (Hmerged & _).
  unfold held in Hr, Hcov. set (p := default _ _) in *.
  exists (raw ++ raw'). split; cbn [st_last st_buffer st_published st_accepted from_option id].
  - rewrite seqs_app. apply chain_app. split; [done|]. by rewrite <-Hl.
  - rewrite seqs_app, through_app. by rewrite <-Hl.
  - intros q [= <-]. done.
  - by constructor.
  - intros event. unfold held. cbn [st_buffer st_last from_option id lb_Tail lb_Gaps].
    rewrite <-app_assoc, (app_assoc raw'), <-Hm. rewrite !elem_of_app.
    assert (Hnew : event ∈ contiguous ∨ event ∈ gaps → event ∈ st_accepted st ∨ event ∈ batch).
    { rewrite <-elem_of_app, <-Hmerged, elem_of_merged.
      intros [_ [Hg|[Hin _]]]%by_sequence_lookup; [left; apply Hr; rewrite !elem_of_app; auto|by right]. }
    intros [Hin|[[Hin|Hin]|Hin]]; auto; left; apply Hr; rewrite !elem_of_app; auto.
  - (* the sequences that are published or held only grow *)
    assert (Hseq : ∀ k, k ∈ seqs (st_published st ++ lb_Tail p) ∨ k ∈ seqs (merged p batch) →
      k ∈ seqs ((st_published st ++ ready) ++ rest ++ gaps)).
    { intros k. rewrite Hmerged, <-app_assoc, !seqs_app, (redacted_seqs _ _ Hred), (app_assoc (seqs raw')).
      rewrite <-(seqs_app raw'), <-Hm, seqs_app. rewrite !elem_of_app. tauto. }
    assert (Hgs : StronglySorted Z.lt (seqs (lb_Gaps p))) by apply (proj1 (increasing_iff _ _) (bo_gaps _ _ Hok0)).
    assert (Hold : ∀ k, k ∈ seqs (st_published st ++ lb_Tail p ++ lb_Gaps p) →
      k ∈ seqs ((st_published st ++ ready) ++ rest ++ gaps)).
    { intros k. rewrite app_assoc, seqs_app, elem_of_app. intros [?|Hk]; apply Hseq; [by left|right].
      apply merged_keeps; [done|by left]. }
    unfold held. cbn [st_buffer st_last from_option id lb_Tail lb_Gaps].
    intros event [Hin|Hin]%elem_of_app.
    + destruct (Hcov event Hin) as [?|[? ?]]; [left|right; split; [done|]]; by apply Hold.
    + pose proof (admit_nonneg _ _ _ _ Ha Hin) as Hnn.
      destruct (Z.lt_ge_cases (lb_ReceivedThrough p) (le_Sequence event)) as [Hlt|Hge].
      { left. apply Hseq. right. apply merged_keeps; [done|]. right. eauto. }
      assert (chain (-1) (seqs (st_published st ++ lb_Tail p))) as Hrun.
      { rewrite seqs_app. apply chain_app. rewrite <-Hl. split; [done|]. apply (bo_tail _ _ Hok0). }
      destruct (chain_covers _ _ (le_Sequence event) (Z.le_refl _) Hrun) as [?|(_ & ? & ?)].
      * rewrite seqs_app, through_app, <-Hl, (bo_through _ _ Hok0). lia.
      * left. apply Hseq. by left.
      * right. split; [done|]. apply Hseq. by left.
Qed.

Lemma stream_invariant batches : ∃ raw, stream_ok (foldl deliver opened batches) raw.
Proof.
  induction batches as [|batch batches [raw IH]] using rev_ind.
  - exists []. split; try done; [constructor|]; by intros event ?%not_elem_of_nil.
  - rewrite foldl_app. by eapply deliver_ok.
Qed.

(** C37: whatever batches an agent sends, repeated and in whatever order, what is
    published is numbered without gap or repetition from 0 or 1 on. The last
    call publishes everything that is left: the events held back and those
    behind a gap, in order. By then every event of every batch that was not
    refused is published under its sequence (but an event 0 that came after the
    stream had started at 1), once, and whatever is published is such an event,
    redacted together with its neighbours or not shown at all. No call holds
    back more than a possible secret: as long as nothing was suppressed, what a
    call publishes is scrubbed and leaves at least the pending bytes, and the tail
    without its first event is no longer than the pending bytes. *)
Theorem log_stream batches :
  MaxLogEvents >= 0 →
  let st := foldl deliver opened batches in
  chain (-1) (seqs (st_published st)) ∧
  (∃ rest raw, prepare (st_buffer st) [] (st_last st) true = Ok (rest, None) ∧
    redacted_as (held st) rest ∧
    increasing (-1) (seqs (st_published st ++ rest)) ∧
    published_as raw (st_published st ++ rest) ∧
    (∀ event, event ∈ raw → event ∈ st_accepted st) ∧
    (∀ event, event ∈ st_accepted st → covered (seqs (st_published st ++ rest)) event)) ∧
  (∀ batch ready p, prepare (st_buffer st) batch (st_last st) false = Ok (ready, Some p) →
    lb_Suppressed p = false →
    ∃ raw, ready = scrubRemoteLogEvents scrubber raw ∧
      let hold := Z.of_nat (PendingBytes order scrubber (String.concat "" (le_Line <$> raw ++ lb_Tail p))) in
      (raw = [] ∨ hold <= total_bytes (lb_Tail p)) ∧ total_bytes (drop 1 (lb_Tail p)) <= hold).
Proof.
  intros Hmax st. destruct (stream_invariant batches) as [raw [Hc Hl Hb Hp Hr Hcov]].
  fold st in Hc, Hl, Hb, Hp, Hr, Hcov.
  split; [done|]. split; [|by intros; eapply prepare_held].
  destruct (prepare_flush (st_buffer st) (st_last st) Hmax Hb) as (rest & Hf & Hred & Hinc).
  exists rest, (raw ++ held st). split; [done|]. split; [done|]. split; [|split; [by constructor|split; [done|]]].
  - rewrite seqs_app. apply increasing_app; [by apply chain_increasing|by rewrite <-Hl].
  - intros event Hin. rewrite seqs_app, (redacted_seqs _ _ Hred), <-seqs_app. by apply Hcov.
Qed.
End publish.
End limits.

(** ** Stored buffers *)

(** What encoding/json documents of a buffer that it wrote, for lines of valid UTF-8. *)
Definition valid_lines (events : list RemoteLogEvent) : Prop :=
  ∀ event, event ∈ events → ValidString (le_Line event) = true.

Class LogCodecLaws `{LogProtocol} : Prop := {
  marshal_text : ∀ state, buffer_marshal state ≠ "";
  marshal_envelope : ∀ state, ∃ events : string,
    envelope_unmarshal (buffer_marshal state) = Some (Some (lb_Version state), events);
  marshal_fields : ∀ state, ∃ fields events : gmap string string, fields_unmarshal (buffer_marshal state) = Some fields ∧
    (∀ name, name ∈ ["version"; "received_through"; "suppressed"; "events"] →
       ∃ raw, fields !! name = Some raw ∧ raw ≠ "" ∧ raw ≠ "null") ∧
    fields_unmarshal (default "" (fields !! "events")) = Some events ∧
    ∀ name, name ∈ ["tail"; "gaps"] → ∃ raw, events !! name = Some raw ∧ raw ≠ "";
  marshal_buffer : ∀ state, valid_lines (lb_Tail state ++ lb_Gaps state) →
    buffer_unmarshal (buffer_marshal state) = Some state }.

Section stored.
Context `{LogCodecLaws}.

Lemma marshalled_fields state :
  ∃ fields, fields_unmarshal (buffer_marshal state) = Some fields ∧ validateRemoteLogFields fields = Ok tt.
Proof.
  destruct (marshal_fields state) as (fields & events & Hf & Hnames & He & Hlists). exists fields.
  split; [done|]. unfold validateRemoteLogFields. destruct (existsb _ _) eqn:Ex.
  - apply existsb_exists in Ex as (name & Hin & Hbad). apply list_elem_of_In in Hin.
    destruct (Hnames name Hin) as (raw & Hraw & Hne & Hnull). unfold field_present in Hbad. rewrite Hraw in Hbad.
    apply String.eqb_neq in Hne, Hnull. cbn in Hbad. by rewrite Hne, Hnull in Hbad.
  - rewrite He. unfold field_present.
    destruct (Hlists "tail") as (a & -> & Ha); [set_solver|]. destruct (Hlists "gaps") as (b & -> & Hb); [set_solver|].
    apply String.eqb_neq in Ha, Hb. cbn. by rewrite Ha, Hb.
Qed.

Lemma decode_marshalled published state :
  -1 <= published → buffer_ok published state → valid_lines (lb_Tail state ++ lb_Gaps state) →
  decode_state (buffer_marshal state) published = Ok state.
Proof.
  intros Hp Hok Hv. unfold decode_state. destruct (marshal_envelope state) as [events ->].
  destruct (marshalled_fields state) as (fields & -> & Hf). rewrite andb_false_r. cbn [is_null].
  rewrite (marshal_buffer state Hv), Hf. cbn [mbind result_bind].
  by rewrite (proj2 (validate_iff published state Hp) Hok).
Qed.

(** What is stored between two calls is read back by the next one: the
    buffer that a call leaves, encrypted, passes every check of the decoder for
    what has been published by then, and is the same buffer. *)
Theorem log_buffer_round_trip `{!Box} `{!BoxLaws} order scrubber configured nonce
    (pending : option remoteLogBuffer) (incoming : list RemoteLogEvent) lastSequence ready state :
  length nonce = NonceSize → Forall is_byte nonce → -1 <= lastSequence →
  (∀ p, pending = Some p → validateRemoteLogState p lastSequence = Ok tt ∧ valid_lines (lb_Tail p ++ lb_Gaps p)) →
  valid_lines incoming →
  prepareRemoteLogEvents order scrubber pending incoming lastSequence false = Ok (ready, Some state) →
  ∃ text, encodeRemoteLogBuffer configured (Some nonce) (Some state) = Ok (Some text) ∧
    decodeRemoteLogBuffer configured (Some text) (through lastSequence (seqs ready)) = Ok (Some state).
Proof.
  intros Hlen Hnonce Hlast Hpending Hincoming E.
  assert (Hb : ∀ p, pending = Some p → buffer_ok lastSequence p)
    by (intros p Hp; apply validate_iff; [done|by apply Hpending]).
  destruct (prepare_keeps _ _ _ _ _ _ _ Hb E) as [Hc Hok].
  pose proof (chain_le _ _ Hc) as Hle.
  assert (Hv : valid_lines (lb_Tail state ++ lb_Gaps state)).
  { apply prepare_cases in E as (contiguous & gaps & cursor & raw & rest & sup & Ha & Hm & _ & [= ->] & _).
    rewrite app_nil_r in Hm. apply admit_ok in Ha as (Hmerged & _). cbn.
    assert (Hold : valid_lines (lb_Tail (default (fresh_buffer lastSequence) pending)
                     ++ lb_Gaps (default (fresh_buffer lastSequence) pending))).
    { destruct pending as [p|]; [by apply Hpending|]. by intros event ?%not_elem_of_nil. }
    assert (Hnew : valid_lines (contiguous ++ gaps)).
    { rewrite <-Hmerged. intros event Hin. apply elem_of_merged, by_sequence_lookup in Hin as [_ [Hg|[Hi _]]].
      - apply Hold, elem_of_app. by right.
      - by apply Hincoming. }
    intros event [Hin|Hin]%elem_of_app; [|apply Hnew, elem_of_app; by right].
    assert (event ∈ raw ++ rest) as Hrun by (apply elem_of_app; by right).
    rewrite <-Hm in Hrun. apply elem_of_app in Hrun as [?|?];
      [apply Hold|apply Hnew]; apply elem_of_app; by left. }
  assert (Hdec := decode_marshalled (through lastSequence (seqs ready)) state (Z.le_trans _ _ _ Hlast Hle) Hok Hv). cbn [encodeRemoteLogBuffer].
  unfold encryptValue, decodeRemoteLogBuffer, decryptValue. pose proof (marshal_text state) as Hne.
  destruct configured.
  - destruct (Decrypt_Encrypt_null nonce (Some (buffer_marshal state)) Hlen Hnonce) as (c & -> & Hd & Hs & He).
    destruct c as [text|]; [|by destruct Hs as [[]]]. exists text. split; [done|].
    destruct (String.eqb_spec text "") as [->|_]; [destruct He as [_ He]; specialize (He eq_refl); congruence|].
    rewrite Hd. cbn [mbind result_bind from_option id]. by rewrite Hdec.
  - exists (buffer_marshal state). split; [done|]. apply String.eqb_neq in Hne as ->.
    cbn [mbind result_bind from_option id]. by rewrite Hdec.
Qed.
End stored.

(** ** A secret that is published in two parts *)

Definition split_text : string := "xx SECRET y Bear".
Definition split_events : list RemoteLogEvent := [mkEvent 1 "xx SEC"; mkEvent 2 "RET y Bear"].

Lemma small_fit `{LogProtocol} events :
  MaxLogEvents >= Z.of_nat (length events) → MaxLogBatchBytes >= total_bytes events →
  remoteLogEventsFit events = true.
Proof.
  intros Hn Hb. unfold remoteLogEventsFit. destruct (Z.ltb_spec MaxLogEvents (Z.of_nat (length events))); [lia|].
  cbn [negb andb]. clear Hn H0. revert Hb. generalize MaxLogBatchBytes as b. unfold total_bytes.
  induction events as [|x events IH]; intros b Hb; cbn [lines_fit]; [done|].
  cbn [sum_list_with] in Hb. destruct (Z.ltb_spec b (Z.of_nat (String.length (le_Line x)))); [lia|].
  apply IH. lia.
Qed.

(** A secret that spans two log events is published in the clear when the
    event in which it ends also ends with the beginning of another credential.
    The whole text is redacted as one, but the first event is published alone,
    because the second one is held back, and neither contains a match. *)
Theorem split_secret_published `{LogProtocol} order (find : string → list (nat * nat)) :
  MaxLogEvents >= 2 → MaxLogBatchBytes >= 16 →
  find split_text = [(3, 9)%nat] → find "xx SEC" = [] → find "RET y Bear" = [] →
  let scrubber := Some (mkScrubber (Some find) ["SECRET"] []) in
  Scrubber_Scrub scrubber split_text = "xx [REDACTED] y Bear" ∧
  ∃ state,
    prepareRemoteLogEvents order scrubber None split_events (-1) false = Ok ([mkEvent 1 "xx SEC"], Some state) ∧
    prepareRemoteLogEvents order scrubber (Some state) [] 1 true = Ok ([mkEvent 2 "RET y Bear"], None).
Proof.
  intros Hn Hb Hwhole Hfirst Hsecond scrubber. split; [cbn; by rewrite Hwhole|].
  assert (Hfits1 : remoteLogEventsFit split_events = true) by (apply small_fit; unfold total_bytes; cbn; lia).
  assert (Hfits2 : remoteLogEventsFit [mkEvent 2 "RET y Bear"] = true) by (apply small_fit; unfold total_bytes; cbn; lia).
  assert (Hfits0 : remoteLogEventsFit [] = true) by (apply small_fit; unfold total_bytes; cbn; lia).
  assert (Hpending : PendingBytes order scrubber split_text = 4%nat).
  { unfold PendingBytes, scrubber. cbn [sc_all sc_literals sc_pendingPatterns]. rewrite Hwhole. vm_compute. reflexivity. }
  assert (Hadmit1 : admitRemoteLogEvents (fresh_buffer (-1)) split_events = Ok (split_events, [], 2)).
  { unfold admitRemoteLogEvents. rewrite Hfits1.
    change (snd <$> sort_by event_le (map_to_list (by_sequence (fresh_buffer (-1)) split_events))) with split_events.
    change (drop (contiguousEventCount split_events _) split_events) with ([] : list RemoteLogEvent).
    unfold validateRemoteLogGaps. rewrite Hfits0. reflexivity. }
  assert (Hadmit2 : admitRemoteLogEvents (mkBuffer 2 2 false [mkEvent 2 "RET y Bear"] []) [] = Ok ([], [], 2)).
  { unfold admitRemoteLogEvents, validateRemoteLogGaps. rewrite Hfits0.
    change (map_to_list (by_sequence (mkBuffer 2 2 false [mkEvent 2 "RET y Bear"] []) [])) with ([] : list (Z * RemoteLogEvent)).
    cbn [sort_by foldr fmap list_fmap contiguousEventCount drop]. rewrite Hfits0. reflexivity. }
  exists (mkBuffer 2 2 false [mkEvent 2 "RET y Bear"] []). split; unfold prepareRemoteLogEvents; cbn [from_option id].
  - rewrite Hadmit1. cbn [mbind result_bind fresh_buffer lb_Tail lb_Suppressed negb andb app orb].
    cbv zeta. rewrite !app_nil_r. change (String.concat "" (le_Line <$> split_events)) with split_text. rewrite Hpending.
    change (readyEventCount split_events 4) with 1%nat. cbn [drop take split_events app]. rewrite Hfits2.
    unfold scrubRemoteLogEvents. cbn. rewrite Hfirst. cbn. rewrite Hfirst. reflexivity.
  - rewrite Hadmit2. cbv zeta. cbn [mbind result_bind lb_Tail lb_Suppressed negb andb app orb].
    cbn [drop length app]. rewrite Hfits0.
    unfold scrubRemoteLogEvents. cbn. rewrite Hsecond. cbn. rewrite Hsecond. reflexivity.
Qed.

(** ** Concrete limits, codec and scrubber *)

#[local] Instance RemoteLogEvent_eq_dec : EqDecision RemoteLogEvent.
Proof. solve_decision. Defined.

#[local] Instance RemoteLogEvent_countable : Countable RemoteLogEvent :=
  inj_countable' (λ event, (le_Sequence event, le_Line event)) (λ t, mkEvent t.1 t.2)
    (λ event, match event with mkEvent _ _ => eq_refl end).

#[local] Instance remoteLogBuffer_eq_dec : EqDecision remoteLogBuffer.
Proof. solve_decision. Defined.

#[local] Instance remoteLogBuffer_countable : Countable remoteLogBuffer :=
  inj_countable' (λ b, (lb_Version b, lb_ReceivedThrough b, lb_Suppressed b, lb_Tail b, lb_Gaps b))
    (λ t, match t with (v, r, s, tail, gaps) => mkBuffer v r s tail gaps end)
    (λ b, match b with mkBuffer _ _ _ _ _ => eq_refl end).

Definition sample_buffer_text (state : remoteLogBuffer) : string := String (Ascii.ascii_of_nat 91) (bits (encode state)).

Definition sample_buffer_of (text : string) : option remoteLogBuffer :=
  match text with EmptyString => None | String _ text => decode (of_bits text) end.

Lemma sample_buffer_of_text state : sample_buffer_of (sample_buffer_text state) = Some state.
Proof. cbn. by rewrite of_bits_bits, decode_encode. Qed.

#[local] Instance sample_log_protocol : LogProtocol := {
  MaxLogEvents := 4;
  MaxLogBatchBytes := 64;
  buffer_marshal := sample_buffer_text;
  buffer_unmarshal := sample_buffer_of;
  envelope_unmarshal := λ text, (λ state, (Some (lb_Version state), "{}")) <$> sample_buffer_of text;
  fields_unmarshal := λ _, Some {[ "version" := "2"; "received_through" := "0"; "suppressed" := "false";
    "events" := "{}"; "tail" := "[]"; "gaps" := "[]" ]};
  events_unmarshal := λ _, None }.

#[local] Instance sample_log_laws : LogCodecLaws.
Proof.
  split.
  - done.
  - intros state. exists "{}". cbn [envelope_unmarshal buffer_marshal sample_log_protocol].
    by rewrite sample_buffer_of_text.
  - intros state. do 2 eexists. split; [done|]. split; [|split; [done|]].
    + intros name Hin. repeat (apply elem_of_cons in Hin as [->|Hin]; [by eexists|]).
      by apply not_elem_of_nil in Hin.
    + intros name Hin. repeat (apply elem_of_cons in Hin as [->|Hin]; [by eexists|]).
      by apply not_elem_of_nil in Hin.
  - intros state _. apply sample_buffer_of_text.
Qed.

Definition no_order : gmap nat nat → list (nat * nat) := λ _, [].

Definition split_find (text : string) : list (nat * nat) :=
  if String.eqb text split_text then [(3, 9)%nat] else [].

Definition split_scrubber : option Scrubber := Some (mkScrubber (Some split_find) ["SECRET"] []).

(** Events 3 and 1, then 2 and again 1: everything but a tail is published. *)
Definition sample_batches : list (list RemoteLogEvent) :=
  [[mkEvent 3 "c"; mkEvent 1 "a"]; [mkEvent 2 "b Bear"; mkEvent 1 "z"]].

Lemma log_stream_witness :
  let st := foldl (deliver no_order split_scrubber) opened sample_batches in
  st_published st = [mkEvent 1 "a"; mkEvent 2 "b Bear"; mkEvent 3 "c"] ∧ chain (-1) (seqs (st_published st)).
Proof.
  split; [vm_compute; reflexivity|]. refine (proj1 (log_stream no_order split_scrubber sample_batches _)). vm_compute. done.
Defined.

Definition held_back : remoteLogBuffer := mkBuffer 2 2 false [mkEvent 2 "RET y Bear"] [].

#[local] Instance log_box : Box := {
  NonceSize := 2; Seal := λ _ p, p; Open := λ _ c, Some c }.
#[local] Instance log_box_laws : BoxLaws.
Proof. split; [cbn; lia|done|done]. Qed.

Lemma log_buffer_round_trip_witness :
  ∃ text, encodeRemoteLogBuffer true (Some [7; 9]) (Some held_back) = Ok (Some text) ∧
    decodeRemoteLogBuffer true (Some text) (through (-1) [1]) = Ok (Some held_back).
Proof.
  apply (log_buffer_round_trip no_order split_scrubber true [7; 9] None split_events (-1)
           [mkEvent 1 "xx SEC"] held_back).
  - done.
  - repeat constructor; unfold is_byte; lia.
  - lia.
  - done.
  - intros event Hin. repeat (apply elem_of_cons in Hin as [->|Hin]; [done|]). by apply not_elem_of_nil in Hin.
  - vm_compute. done.
Defined.

Lemma split_secret_published_witness :
  Scrubber_Scrub split_scrubber split_text = "xx [REDACTED] y Bear" ∧
  ∃ state,
    prepareRemoteLogEvents no_order split_scrubber None split_events (-1) false =
      Ok ([mkEvent 1 "xx SEC"], Some state) ∧
    prepareRemoteLogEvents no_order split_scrubber (Some state) [] 1 true = Ok ([mkEvent 2 "RET y Bear"], None).
Proof. apply (split_secret_published no_order split_find); vm_compute; done. Defined.
