(* ===== verification/StepTheorems.v ===== *)
(** * StepTheorems: correctness of steps that agents execute

    What the calls on runs do on every branch, and how runs end in every run of
    the server, each with an instance on a concrete store. *)
From S2P Require Import Prelude Text Db Tx QueueQueries DeploymentQueue QueueSafety QueueTheorems DispatchQueries RemoteLifecycle RemoteSafety RemoteSpec RemoteRefine Base64 Secret Variables CreationQueries GateQueries ArtifactGate DeploymentCreation StepQueries RemotePayload LogScrub LogBuffer RemoteSteps AgentPoll RemoteLogs StepSpec System CreationSafety StepSafety StepBodies Runs SampleServer RemoteTheorems.

(** ** A concrete store: a step of deployment 5, which runs, for agent-1 *)

Definition step_agent : Agent :=
  mkAgent "agent-1" "builder" "" "active" None (Some "certificate") (Some "print") None None None 0 0 0 "healthy"
    (Some "agent/3").

Definition sample_step (index : Z) : DeploymentStep :=
  mkStep 5 index None "deploy" "echo" 0 0 "agent" 900 "bash" "" "" "none" "" "" "" "host" "script" "".

(** Deployment 5 has run a container of its own. *)
Definition local_deployment : Deployment :=
  mkDeployment 5 1 7 "running" (Some 800) None 30 0 None None "deployment" (Some "deploy-5") None
    (Some "production") None.

Definition sample_run_row (state : string) (token : option string) (beat : option Z) : RemoteStepRun :=
  mkRun 5 0 "agent-1" state token None None beat None None None 900 900 None 0 None.

Definition sample_steps (runs : gmap (Z * Z * string) RemoteStepRun) : DB :=
  set_agents {["agent-1" := step_agent]} (set_pairings {["agent-1" := sample_pairing]}
    (set_agent_interpreters {[("agent-1", "bash")]} (set_agent_execution_modes {[("agent-1", "host")]}
      (set_dispatch (mkStepTables ∅ {[("agent-1", 7)]} ∅)
        (set_steps {[(5, 0) := sample_step 0]} (set_runs runs
          (sample_store [local_deployment; sample_deployment 6 "queued" 40]
             {[(1, 7) := 5]}))))))).

Definition sample_started_run : DB :=
  sample_steps {[(5, 0, "agent-1") := sample_run_row "started" (Some token_a) (Some 900)]}.

#[local] Existing Instance sample_server.

Definition sample_request : PollRequest :=
  mkPollRequest "agent/3" ["bash"] ["host"] ["podman"] ["bash"] false false "".

Definition sample_heartbeat : HeartbeatAgentParams := mkHeartbeat 1000 (Some "3.1") "agent-1" (Some "print").

(** The maintenance of dispatch can break the queue's contract. The agent of
    a step is lost and its deployment fails; then the agent reports that its
    clean-up failed, confirms it with a poll, and the next deployment of the
    environment is admitted and starts. Maintenance now turns the failed
    deployment, which has used containers on the server, into
    'cleanup_unconfirmed': it blocks the environment in which the other one
    runs and holds the slot. *)
Theorem late_cleanup_blocks :
  let s := run [EvMaintainDispatch; EvFinishStep sample_identity "cleanup_unconfirmed";
                EvPoll sample_heartbeat sample_request; EvStartLocal 6] sample_started_run in
  let s' := (Maintain s).2 in
  sys_inv s ∧ stale_cleanup s = true ∧ (Maintain s).1 = Ok tt ∧
  scope_of s' 5 = Some (1, 7) ∧ scope_of s' 6 = Some (1, 7) ∧
  (d_Status <$> db_deployments s' !! 5) = Some "cleanup_unconfirmed" ∧
  (d_Status <$> db_deployments s' !! 6) = Some "running" ∧
  blocking s' 5 = true ∧ blocking s' 6 = true ∧ db_slots s' !! (1, 7) = Some 6.
Proof.
  cbv zeta. split; [|vm_compute; by repeat split].
  apply run_step; [intros _; by vm_compute|]. apply sys_invb_sound. by vm_compute.
Qed.

(** ** Outcomes *)
Section outcomes.
Context `{Server}.

Lemma final_run_edge a b :
  rtc run_edge a b → a ∈ ["succeeded"; "failed"; "cancelled"; "cleanup_unconfirmed"] → b = a.
Proof.
  induction 1 as [|a b c Hab _ IH]; [done|]. intros Ha. exfalso. unfold run_edge, run_edges in Hab.
  rewrite !elem_of_cons, elem_of_nil in Ha. rewrite !elem_of_cons, elem_of_nil in Hab.
  destruct Ha as [->|[->|[->|[->|[]]]]];
    repeat (destruct Hab as [Hab|Hab]; [discriminate Hab|]); done.
Qed.

(** C6: the run of a step is never lost, renamed or handed to another agent,
    whatever the server is asked; its state moves along the edges of the run
    state machine only, and a run that has succeeded, failed, been cancelled or
    ended unclean keeps that outcome. *)
Theorem run_step_outcomes_final events s k r :
  sys_inv s → db_runs s !! k = Some r →
  ∃ r', db_runs (run events s) !! k = Some r' ∧ run_key r' = run_key r ∧
    rtc run_edge (r_State r) (r_State r') ∧
    (r_State r ∈ ["succeeded"; "failed"; "cancelled"; "cleanup_unconfirmed"] → r_State r' = r_State r).
Proof.
  intros Hinv Hr. destruct (run_kept events s (store_weaken _ _ Hinv)) as (_ & _ & _ & Hf).
  destruct (Hf k r Hr) as (r' & Hr' & Hk & Hst). exists r'. split; [done|]. split; [done|]. split; [done|].
  by apply final_run_edge.
Qed.
End outcomes.

Lemma run_step_outcomes_final_witness :
  sys_inv sample_started_run ∧
  ∃ r, db_runs (run [EvMaintainDispatch; EvFinishStep sample_identity "failed"; EvReconcile]
                  sample_started_run) !! (5, 0, "agent-1") = Some r ∧ r_State r = "failed".
Proof.
  assert (Hinv : sys_inv sample_started_run) by (apply sys_invb_sound; vm_compute; reflexivity).
  split; [exact Hinv|].
  destruct (run_step_outcomes_final [EvMaintainDispatch; EvFinishStep sample_identity "failed"; EvReconcile]
    sample_started_run _ _ Hinv (eq_refl : db_runs sample_started_run !! (5, 0, "agent-1") = Some _))
    as (r & Hr & _). exists r. split; [exact Hr|]. revert Hr. vm_compute. intros [= <-]. reflexivity.
Defined.

(** ** The run that a token names *)
Section tokens.
Implicit Types (s : DB) (identity : RemoteLifecycleClaim).

(** The row of a call: its deployment, its agent, its token. *)
Definition names_run s identity (r : RemoteStepRun) : Prop :=
  db_runs s !! run_key r = Some r ∧
  run_of_claim (il_DeploymentID identity) (il_AgentID identity) (il_ClaimTokenHash identity) r = true.

Lemma select_runs_elem s where_ r :
  run_keys s → r ∈ select_runs s where_ ↔ db_runs s !! run_key r = Some r ∧ where_ r = true.
Proof.
  intros [_ Hk]. unfold select_runs. rewrite list_elem_of_filter, list_elem_of_fmap. split.
  - intros (Hw & [k r'] & -> & Hin%elem_of_map_to_list). cbn in *. destruct (Hk k r' Hin) as [-> _]. done.
  - intros [Hr Hw]. split; [done|]. exists (run_key r, r). split; [done|]. by apply elem_of_map_to_list.
Qed.

Lemma select_runs_nodup s where_ : run_keys s → NoDup (select_runs s where_).
Proof.
  intros [_ Hk]. unfold select_runs. apply NoDup_filter, NoDup_fmap_2_strong; [|apply NoDup_map_to_list].
  intros [k1 r1] [k2 r2] H1%elem_of_map_to_list H2%elem_of_map_to_list. cbn. intros ->.
  destruct (Hk k1 r2 H1) as [-> _], (Hk k2 r2 H2) as [-> _]. done.
Qed.

Lemma token_unique s identity r r' : run_keys s → names_run s identity r → names_run s identity r' → r = r'.
Proof.
  intros [Hok _] [Hr Hc] [Hr' Hc']. unfold run_of_claim in Hc, Hc'. rewrite !andb_true_iff in Hc, Hc'.
  destruct Hc as [_ Ht], Hc' as [_ Ht']. unfold runs_ok in Hok. rewrite !andb_true_iff in Hok.
  destruct Hok as [[_ Hu] _]. rewrite unique_on_true in Hu.
  destruct (il_ClaimTokenHash identity) as [h|], (r_ClaimTokenHash r) as [t|] eqn:E,
    (r_ClaimTokenHash r') as [t'|] eqn:E'; try done.
  cbn in Ht, Ht'. apply sql_eq_true in Ht, Ht'. simplify_eq.
  assert (run_key r = run_key r') as Heq by (eapply (Hu _ _ r r' h); done). congruence.
Qed.

(** At most one run has the token: the lock succeeds exactly when one does. *)
Lemma remoteStepRun_cases s identity :
  run_keys s →
  (∃ r, names_run s identity r ∧ remoteStepRun identity s = Ok (r, s)) ∨
  ((∀ r, ¬ names_run s identity r) ∧ remoteStepRun identity s = Err ErrNoRows).
Proof.
  intros Hk.
  set (where_ := run_of_claim (il_DeploymentID identity) (il_AgentID identity) (il_ClaimTokenHash identity)).
  assert (Hin : ∀ r, r ∈ select_runs s where_ ↔ names_run s identity r) by (intros r; by apply select_runs_elem).
  pose proof (select_runs_nodup s where_ Hk) as Hnd.
  assert (Hrun : remoteStepRun identity s = match select_runs s where_ with
    | [r] => Ok (r, s) | _ => Err ErrNoRows end).
  { unfold remoteStepRun, LockRemoteStepRun, GetRemoteStepRunByClaim, mbind, tx_bind, read. fold where_. clear Hin Hnd. clearbody where_.
    destruct (select_runs s where_) as [|r [|r' rest]] eqn:E; cbn [length Z.of_nat]; [done| |].
    - change (guard _ _ s) with (mret (M:=Tx) tt s). cbn. by rewrite E.
    - destruct (Z.eqb_spec (Z.of_nat (S (S (length rest)))) 1); [lia|done]. }
  rewrite Hrun. destruct (select_runs s where_) as [|r [|r' rest]].
  - right. split; [|done]. intros r Hr%Hin. by apply elem_of_nil in Hr.
  - left. exists r. split; [|done]. apply Hin. left.
  - exfalso. apply NoDup_cons in Hnd as [Hne _]. apply Hne.
    rewrite (token_unique s identity r r'); [left|done|apply Hin; left|apply Hin; right; left].
Qed.

Lemma with_run_named {A} s identity (unhandled : A) body r :
  run_keys s → names_run s identity r → with_run identity unhandled body s = body r s.
Proof.
  intros Hk Hr. unfold with_run, attempt, mbind, tx_bind.
  destruct (remoteStepRun_cases s identity Hk) as [(r' & Hr' & ->)|[Hno _]]; [|by destruct (Hno r)].
  by rewrite (token_unique s identity r r').
Qed.

Lemma with_run_none {A} s identity (unhandled : A) body :
  run_keys s → (∀ r, ¬ names_run s identity r) → with_run identity unhandled body s = Ok (unhandled, s).
Proof.
  intros Hk Hno. unfold with_run, attempt, mbind, tx_bind.
  by destruct (remoteStepRun_cases s identity Hk) as [(r' & Hr' & _)|[_ ->]]; [destruct (Hno r')|].
Qed.
End tokens.

(** ** Updates of one run *)
Section updates.
Implicit Types (s : DB) (identity : RemoteLifecycleClaim).

(** A row that keeps its token or loses it, and takes no capacity. *)
Definition admissible (r r' : RemoteStepRun) : Prop :=
  (r_ClaimTokenHash r' = r_ClaimTokenHash r ∨ r_ClaimTokenHash r' = None) ∧ r_AgentID r' = r_AgentID r ∧
  (r_RecoveryCancelled r' = r_RecoveryCancelled r ∨ r_RecoveryCancelled r' = 1) ∧
  (r_State r' ∈? claim_states)%bool = true ∧
  ((r_State r' ∈? capacity_states)%bool = true → (r_State r ∈? capacity_states)%bool = true).

(** A table whose rows are such rows satisfies the schema. *)
Lemma runs_ok_rows t t' :
  runs_ok t = true →
  (∀ k r', t' !! k = Some r' → ∃ r, t !! k = Some r ∧ (r' = r ∨ admissible r r')) → runs_ok t' = true.
Proof.
  intros Hok Hrows. unfold runs_ok in *. rewrite !andb_true_iff in Hok |- *.
  destruct Hok as [[Hr Hu] Hu']. rewrite forall_rows_true in Hr |- *. rewrite unique_on_true in Hu, Hu' |- *.
  rewrite unique_on_true. split; [split|].
  - intros k r' Hk. destruct (Hrows k r' Hk) as (r & Hk0 & [->|(Ht & _ & Hrec & Hst & _)]); [by eapply Hr|].
    specialize (Hr k r Hk0). rewrite !andb_true_iff in Hr |- *. rewrite Hst.
    destruct Hr as [[_ H1] H2]. split; [split; [done|]|].
    + destruct Hrec as [->| ->]; done.
    + destruct Ht as [->| ->]; done.
  - intros k1 k2 r1 r2 b H1 H2 Hb1 Hb2.
    destruct (Hrows k1 r1 H1) as (q1 & Hq1 & C1), (Hrows k2 r2 H2) as (q2 & Hq2 & C2).
    apply (Hu k1 k2 q1 q2 b Hq1 Hq2).
    + destruct C1 as [->|([E|E] & _)]; congruence.
    + destruct C2 as [->|([E|E] & _)]; congruence.
  - assert (Hc : ∀ q r b, r = q ∨ admissible q r → capacity_of (r_State r) (r_AgentID r) = Some b →
      capacity_of (r_State q) (r_AgentID q) = Some b).
    { intros q r b [->|(_ & Ha & _ & _ & Hcap)]; [done|]. unfold capacity_of. rewrite Ha.
      destruct (r_State r ∈? capacity_states)%bool; [|done]. by rewrite Hcap. }
    intros k1 k2 r1 r2 b H1 H2 Hb1 Hb2.
    destruct (Hrows k1 r1 H1) as (q1 & Hq1 & C1), (Hrows k2 r2 H2) as (q2 & Hq2 & C2).
    apply (Hu' k1 k2 q1 q2 b Hq1 Hq2); by eapply Hc.
Qed.

Lemma runs_ok_insert t k r r' :
  runs_ok t = true → t !! k = Some r → admissible r r' → runs_ok (<[k := r']> t) = true.
Proof.
  intros Hok Hr Hadm. apply (runs_ok_rows t); [done|].
  intros k' x [[<- <-]|[_ Hx]]%lookup_insert_Some; eauto.
Qed.

(** The UPDATE of the run that a call is about, on both branches. *)
Lemma update_run_exec s identity r where_ set :
  run_keys s → names_run s identity r → admissible r (set s r) →
  one_row (update_run (r_DeploymentID r) (r_StepIndex r) (r_AgentID r) where_ set) s =
    if where_ s r then Ok (tt, set_runs (<[run_key r := set s r]> (db_runs s)) s)
    else Err ErrRemoteLifecycleConflict.
Proof.
  intros [Hok _] [Hr _] Hadm. unfold one_row, update_run, mbind, tx_bind.
  destruct (update_pk_cases (db_runs s) (r_DeploymentID r, r_StepIndex r, r_AgentID r) (where_ s) (set s))
    as [(r0 & Hr0 & Hw & Hu)|[Hu Hw]]; rewrite Hu; unfold run_key in Hr.
  - assert (r0 = r) as -> by congruence. rewrite Hw. unfold store_runs, checked. cbn [db_runs set_runs].
    by rewrite (runs_ok_insert _ _ r).
  - rewrite (Hw r Hr). unfold store_runs, checked. cbn [db_runs set_runs]. by rewrite Hok.
Qed.

(** A call on a run leaves the runs that its body leaves. *)
Lemma run_commit {A} (fn : Tx A) s id a s1 :
  sys_inv s → is_Some (db_deployments s !! id) → fn (set_pending_audit [] s) = Ok (a, s1) →
  respects sys_step fn →
  ∃ s', WithDeploymentTx id fn s = (Ok a, s') ∧ db_runs s' = db_runs s1.
Proof.
  intros Hinv [d Hd] Hfn Hr. destruct (Hr _ a s1 Hfn (sys_begin s Hinv)) as [Hinv1 _].
  destruct (WithDeploymentTx_ok fn s id d a s1 Hd Hfn (proj1 (si_queue _ Hinv1))) as (s2 & Hs2 & Hst & _).
  exists (committed s2). split; [done|]. by apply (env_steps_runs _ _ _ Hst).
Qed.

Lemma names_begin s identity r : names_run (set_pending_audit [] s) identity r ↔ names_run s identity r.
Proof. done. Qed.

(** What the outcome of a run leaves. *)
Definition finished (state : string) (now : Z) (r : RemoteStepRun) : RemoteStepRun :=
  r_set_State state (r_set_FinishedAt (Some now) (r_set_UpdatedAt now r)).

(** The agent of a run that needs a staged file has uploaded its own. *)
Definition output_staged s (r : RemoteStepRun) : bool :=
  negb (staging_input s (r_DeploymentID r) (r_StepIndex r))
  || bool_decide ((r_DeploymentID r, r_StepIndex r, r_AgentID r) ∈ db_staging s).

(** The outcomes that a run admits. *)
Definition step_finishable s (state : string) (r : RemoteStepRun) : bool :=
  (state ∈? finish_states)
  && ((r_State r ∈? ["started"; "lost"; "cancel_unconfirmed"])
      || (String.eqb (r_State r) "cancel_requested" && String.eqb state "cleanup_unconfirmed"))
  && (negb (String.eqb state "succeeded") || output_staged s r).

Lemma staging_guard s r :
  (stage ← HasStagingInput (r_DeploymentID r) (r_StepIndex r);
   if negb (Z.eqb stage 0) then
     output ← attempt (GetStagingSnapshot (r_DeploymentID r) (r_StepIndex r) (r_AgentID r));
     match output with Ok _ => mret tt | Err _ => fail ErrRemoteLifecycleConflict end
   else mret tt) s =
    if output_staged s r then Ok (tt, s) else Err ErrRemoteLifecycleConflict.
Proof.
  unfold output_staged, HasStagingInput, read, mbind, tx_bind, count, attempt, GetStagingSnapshot.
  destruct (staging_input s _ _); [|done]. cbn. by case_bool_decide.
Qed.

Lemma finish_step_exec s identity state r :
  run_keys s → names_run s identity r →
  finishRemoteStep identity state s =
    if String.eqb (r_State r) state then Ok (true, s)
    else if step_finishable s state r
    then Ok (true, set_runs (<[run_key r := finished state (db_now s) r]> (db_runs s)) s)
    else Err ErrRemoteLifecycleConflict.
Proof.
  intros Hk Hr. unfold finishRemoteStep.
  rewrite (with_run_named _ _ _ _ _ Hk Hr).
  destruct (String.eqb (r_State r) state); [done|].
  unfold step_finishable.
  match goal with |- (?m ≫= _) s = _ => assert (Hfirst : m s =
    if negb (String.eqb state "succeeded") || output_staged s r then Ok (tt, s) else Err ErrRemoteLifecycleConflict) end.
  { destruct (String.eqb state "succeeded"); [|done]. exact (staging_guard s r). }
  unfold mbind at 1, tx_bind at 1.
  rewrite Hfirst. clear Hfirst. destruct (negb _ || output_staged s r); [|by rewrite andb_false_r].
  rewrite andb_true_r. unfold guard.
  destruct (state ∈? finish_states)%bool eqn:Hst; [|done]. cbn [andb].
  unfold mbind at 1, tx_bind at 1, mret at 1, tx_ret at 1.
  rewrite (bind_ok CurrentUnixTime _ s (db_now s) s) by done.
  assert (Hadm : admissible r (finished state (db_now s) r)).
  { apply in_list_true in Hst. unfold finish_states in Hst. rewrite !elem_of_cons, elem_of_nil in Hst.
    unfold admissible. destruct Hst as [->|[->|[->|[]]]]; split_and!; by auto. }
  unfold FinishRemoteStepRun. unfold mbind at 1, tx_bind at 1.
  rewrite (update_run_exec s identity r) by done.
  assert (sql_eq2 (r_ClaimTokenHash r) (il_ClaimTokenHash identity) = true) as ->.
  { destruct Hr as [_ Hc]. unfold run_of_claim in Hc. rewrite !andb_true_iff in Hc. tauto. }
  cbn [andb]. by destruct (_ || _).
Qed.
End updates.

Section finish.
Implicit Types (s : DB) (identity : RemoteLifecycleClaim).

(** C15: the outcome that an agent reports for a step, on every branch. A token
    that names no run is left to the lifecycle of remote deployments; the
    outcome that the run already has is accepted again without a change; an
    outcome that the run admits is recorded in that run and in no other; any
    other one is a conflict and changes nothing. A run that uses staging
    succeeds only when its agent's files are stored, and a cancelled run can
    still report that its clean-up failed. *)
Theorem finish_step s identity state :
  sys_inv s → is_Some (db_deployments s !! il_DeploymentID identity) →
  ((∀ r, ¬ names_run s identity r) →
     ∃ s', FinishRemoteStep identity state s = (Ok false, s') ∧ db_runs s' = db_runs s) ∧
  (∀ r, names_run s identity r →
     if String.eqb (r_State r) state then
       ∃ s', FinishRemoteStep identity state s = (Ok true, s') ∧ db_runs s' = db_runs s
     else if step_finishable s state r then
       ∃ s', FinishRemoteStep identity state s = (Ok true, s') ∧
         db_runs s' = <[run_key r := finished state (db_now s) r]> (db_runs s)
     else FinishRemoteStep identity state s = (Err ErrRemoteLifecycleConflict, s)).
Proof.
  intros Hinv Hd. pose proof (si_runs _ Hinv) as Hk. split.
  - intros Hno.
    assert (Hx : finishRemoteStep identity state (set_pending_audit [] s) = Ok (false, set_pending_audit [] s))
      by (apply with_run_none; [exact Hk|exact Hno]).
    by eapply (run_commit (finishRemoteStep identity state)) in Hx; [|done|done|respects].
  - intros r Hr. pose proof (finish_step_exec (set_pending_audit [] s) identity state r Hk Hr) as Hx.
    change (step_finishable (set_pending_audit [] s) state r) with (step_finishable s state r) in Hx.
    destruct (String.eqb (r_State r) state); [|destruct (step_finishable s state r)].
    + by eapply (run_commit (finishRemoteStep identity state)) in Hx; [|done|done|respects].
    + by eapply (run_commit (finishRemoteStep identity state)) in Hx; [|done|done|respects].
    + destruct Hd as [d Hd]. by eapply WithDeploymentTx_fails.
Qed.
End finish.

Lemma finish_step_witness :
  sys_inv sample_started_run ∧
  ∃ s', FinishRemoteStep sample_identity "succeeded" sample_started_run = (Ok true, s') ∧
    (r_State <$> db_runs s' !! (5, 0, "agent-1")) = Some "succeeded".
Proof.
  assert (Hinv : sys_inv sample_started_run) by (apply sys_invb_sound; vm_compute; reflexivity).
  split; [exact Hinv|].
  destruct (proj2 (finish_step sample_started_run sample_identity "succeeded" Hinv
    (ex_intro _ _ (eq_refl : db_deployments sample_started_run !! 5 = Some _)))
    (sample_run_row "started" (Some token_a) (Some 900)) (conj eq_refl eq_refl)) as (s' & Hs' & Hruns).
  exists s'. split; [exact Hs'|]. rewrite Hruns. vm_compute. reflexivity.
Defined.

#[local] Instance readonly_refl : Reflexive (λ s s' : DB, s' = s).
Proof. by intros s. Qed.
#[local] Instance readonly_trans : Transitive (λ s s' : DB, s' = s).
Proof. intros s1 s2 s3 -> ->. done. Qed.

(** ** Claims of runs *)
Section claims.
Context `{AgentEnvironment} `{PayloadLibraries} `{Box} (configured : bool).
Context (unmarshal : string → option (list ReleaseVariable)) (limits : ExecutionLimits).
Context (prepare : RemotePayloadSnapshot → result RemotePreparedClaim).
Implicit Types (s : DB).

(** The run as it is handed out. *)
Definition handed_out (prepared : RemotePreparedClaim) (now : Z) (r : RemoteStepRun) : RemoteStepRun :=
  r_set_State "claimed" (r_set_ClaimTokenHash (pc_TokenHash prepared)
    (r_set_Ciphertext (Some (pc_Ciphertext prepared)) (r_set_ClaimExpiresAt (Some (now + PreStartClaimTimeout))
      (r_set_LastHeartbeatAt (Some now) (r_set_UpdatedAt now r))))).

Lemma readonly_get_agent id : readonly (GetAgent id).
Proof. intros s a s'. unfold GetAgent. destruct (db_agents s !! id); [by intros [= _ <-]|done]. Qed.
Lemma readonly_get_artifact id : readonly (GetDeploymentArtifact id).
Proof. intros s a s'. unfold GetDeploymentArtifact. destruct (dt_artifacts _ !! id); [by intros [= _ <-]|done]. Qed.
Hint Resolve readonly_get_agent readonly_get_artifact : readonly.

Lemma readonly_payload_snapshot agent id :
  readonly (RemotePayload.remotePayloadSnapshot configured unmarshal limits agent id).
Proof. unfold readonly. respects. Qed.
Lemma readonly_step_snapshot agent id step :
  readonly (remoteStepPayloadSnapshot configured unmarshal limits agent id step).
Proof. pose proof (readonly_payload_snapshot agent id) as Hr. unfold readonly in *. respects. Qed.

Lemma run_le_total p q : run_le p q = false → run_le q p = true.
Proof. unfold run_le. lia. Qed.
Lemma run_le_trans p q r : run_le p q = true → run_le q r = true → run_le p r = true.
Proof. unfold run_le. lia. Qed.

Lemma attempt_inv {A} (m : Tx A) s r s' :
  attempt m s = Ok (r, s') → (∃ a, r = Ok a ∧ m s = Ok (a, s')) ∨ (∃ e, r = Err e ∧ s' = s ∧ m s = Err e).
Proof. unfold attempt. destruct (m s) as [[a s1]|e]; intros [= <- <-]; eauto. Qed.

(** The runs that an agent may take, oldest first. *)
Lemma waiting_run_cases s agent first rest :
  run_keys s →
  (λ r, (r_DeploymentID r, r_StepIndex r)) <$> sort_by run_le (select_runs s (run_claimable s agent)) = first :: rest →
  ∃ r, db_runs s !! run_key r = Some r ∧ run_claimable s agent r = true ∧
    first = (r_DeploymentID r, r_StepIndex r) ∧ r_AgentID r = agent ∧
    ∀ r', db_runs s !! run_key r' = Some r' → run_claimable s agent r' = true → r' = r ∨ run_le r r' = true.
Proof.
  intros Hk Hl. destruct (sort_by run_le _) as [|r l] eqn:Hs; [done|]. injection Hl as <- <-.
  assert (Hin : r ∈ select_runs s (run_claimable s agent)) by (apply (elem_of_sort_by run_le); rewrite Hs; left).
  apply (select_runs_elem s _ r Hk) in Hin as [Hr Hc]. exists r. split_and!; [done..| |].
  - unfold run_claimable in Hc. rewrite !andb_true_iff, String.eqb_eq in Hc. tauto.
  - intros r' Hr' Hc'. assert (Hin : r' ∈ select_runs s (run_claimable s agent)) by by apply select_runs_elem.
    destruct (sort_by_head run_le run_le_total run_le_trans _ r l r' Hs Hin) as [->|?]; auto.
Qed.

(** C11: what an agent that polls for a step is given. A claim is returned only
    for the oldest of the agent's waiting runs whose deployment runs and holds
    its environment, when the agent is active, not draining, able to execute the
    step, without work in hand and without unconfirmed clean-up; the payload is
    the one prepared from the state of that transaction, and this run, and no
    other, becomes 'claimed' with the token that is returned and a deadline. *)
Theorem claim_step_handed s agent c s' :
  sys_inv s →
  ClaimRemoteStepPayload configured unmarshal limits prepare agent s = (Ok (Some c), s') →
  ∃ r snapshot prepared,
    db_runs s !! run_key r = Some r ∧ run_claimable s agent r = true ∧
    (∀ r', db_runs s !! run_key r' = Some r' → run_claimable s agent r' = true → r' = r ∨ run_le r r' = true) ∧
    agent_ready s agent = true ∧ (a_Draining <$> db_agents s !! agent) = Some 0 ∧
    remoteStepPayloadSnapshot configured unmarshal limits agent (r_DeploymentID r) (r_StepIndex r)
      (set_pending_audit [] s) = Ok (snapshot, set_pending_audit [] s) ∧
    prepare snapshot = Ok prepared ∧
    c = mkRemoteClaim (r_DeploymentID r) (pc_Token prepared) (pc_Ciphertext prepared) ∧
    db_runs s' = <[run_key r := handed_out prepared (db_now s) r]> (db_runs s).
Proof.
  intros Hinv Hcl. pose proof (si_runs _ Hinv) as Hk. unfold ClaimRemoteStepPayload in Hcl.
  unfold ListWaitingRemoteStepRuns, read in Hcl.
  destruct (_ <$> _) as [|first rest] eqn:Hl; [done|].
  destruct (waiting_run_cases s agent first rest Hk Hl) as (r & Hr & Hc & -> & Ha & Hold).
  apply WithDeploymentTx_inv in Hcl as (d & s1 & s2 & Hd & E & Hadv & ->).
  pose proof (sys_begin s Hinv) as Hinv0. set (s0 := set_pending_audit [] s) in *.
  destruct (sys_claim_step configured unmarshal limits prepare agent _ s0 _ s1 E Hinv0) as [Hinv1 _].
  assert (Hruns : db_runs (committed s2) = db_runs s1).
  { destruct (advanceEnvironmentQueue_spec s1 (d_EnvironmentID d) (proj1 (si_queue _ Hinv1))) as (s3 & Hs3 & Hst & _).
    assert (s2 = s3) as -> by congruence. by apply (env_steps_runs _ _ _ Hst). }
  unfold claimRemoteStepPayload in E.
  apply bind_inv in E as (locked & ? & [= <- <-] & E).
  destruct (agent_ready s0 agent) eqn:Hready; [|done]. cbn in E.
  apply bind_inv in E as (a & ? & Hag & E). unfold GetAgent in Hag.
  destruct (db_agents s0 !! agent) as [a0|] eqn:Ha0; [|done]. injection Hag as <- <-.
  destruct (Z.eqb_spec (a_Draining a0) 0) as [Hdr|]; [cbn in E|done].
  apply bind_inv in E as (waiting & ? & [= <- <-] & E). destruct (same_candidate _ _); [|done].
  unfold prepare_and_claim_step in E.
  apply bind_inv in E as (snapshot & sx & Hsnap & E). apply attempt_inv in Hsnap as [(p & -> & Hp)|(e & -> & -> & He)].
  2: { destruct e; try done; apply bind_inv in E as (? & ? & _ & E); done. }
  pose proof (readonly_step_snapshot _ _ _ _ _ _ Hp) as ->.
  destruct (prepare p) as [prepared|e] eqn:Hprep.
  2: { destruct e; try done; apply bind_inv in E as (? & ? & _ & E); done. }
  apply bind_inv in E as (now & ? & [= <- <-] & E). apply bind_inv in E as (n & s4 & Hu & E).
  apply update_run_cases in Hu as [[-> _]|(-> & r0 & Hr0 & _ & -> & _)]; [done|]. injection E as <- <-.
  cbn [fst snd rp_DeploymentID rp_StepIndex rp_AgentID] in *.
  assert (r0 = r) as ->.
  { unfold run_key in Hr. rewrite Ha in Hr. change (db_runs s0) with (db_runs s) in Hr0. congruence. }
  exists r, p, prepared. split_and!; try done.
  - by rewrite <-Hdr; change (db_agents s) with (db_agents s0); rewrite Ha0.
  - rewrite Hruns. unfold run_key. by rewrite Ha.
Qed.
End claims.

Definition sample_waiting_run : DB :=
  sample_steps {[(5, 0, "agent-1") := sample_run_row "waiting" None None]}.

Definition sample_prepare : RemotePayloadSnapshot → result RemotePreparedClaim :=
  poll_prepare (mkPollRequest "agent/3" ["bash"] ["host"] [] [] false false "")
    (Some (bytes_of "01234567890123456789012345678901")).

Lemma claim_step_handed_witness :
  sys_inv sample_waiting_run ∧
  ∃ c s', ClaimRemoteStepPayload Configured variables_unmarshal Limits sample_prepare "agent-1"
            sample_waiting_run = (Ok (Some c), s') ∧ rc_Ciphertext c = "5:deploy" ∧
    (r_State <$> db_runs s' !! (5, 0, "agent-1")) = Some "claimed".
Proof.
  assert (Hinv : sys_inv sample_waiting_run) by (apply sys_invb_sound; vm_compute; reflexivity).
  split; [exact Hinv|].
  destruct (ClaimRemoteStepPayload Configured variables_unmarshal Limits sample_prepare "agent-1"
    sample_waiting_run) as [[[c|]|e] s'] eqn:E; [|vm_compute in E; discriminate E..].
  exists c, s'. split; [reflexivity|].
  destruct (claim_step_handed Configured variables_unmarshal Limits sample_prepare _ _ c s' Hinv E)
    as (r & snapshot & prepared & Hr & Hc & _ & _ & _ & _ & _ & _ & Hruns).
  split; [vm_compute in E; injection E as <- _; reflexivity|].
  assert (Hkey : run_key r = (5, 0, "agent-1")).
  { unfold sample_waiting_run, sample_steps in Hr. cbn [db_runs set_runs set_steps set_dispatch
      set_agent_execution_modes set_agent_interpreters set_pairings set_agents] in Hr.
    apply lookup_singleton_Some in Hr as [Hk _]. by rewrite <-Hk. }
  rewrite Hruns, Hkey, lookup_insert_eq. reflexivity.
Defined.

(** ** Fan-out of a step *)
Section fan_out.
Context `{AgentEnvironment}.
Implicit Types (s : DB).

Lemma advanced_eligible s sc s' id step agent :
  advanced s sc s' → eligible_remote_step_agents s' id step agent = eligible_remote_step_agents s id step agent.
Proof.
  destruct 1 as [| | |n d audit _ _ Hd _ _]; [done..|]. unfold eligible_remote_step_agents. cbn.
  destruct (db_steps s !! (id, step)); [|done]. destruct (decide (n = id)) as [<-|Hne].
  - by rewrite lookup_insert_eq, Hd.
  - by rewrite lookup_insert_ne.
Qed.

(** A running deployment that holds its scope keeps it while others advance. *)
Definition holds_scope s (id : Z) (sc : Z * Z) : Prop :=
  scope_of s id = Some sc ∧ db_slots s !! sc = Some id ∧
  deployment_is s id (λ d, String.eqb (d_Status d) "running") = true.

Lemma holds_blocking s id sc : holds_scope s id sc → blocking s id = true.
Proof.
  intros (_ & _ & Hd). unfold deployment_is in Hd. unfold blocking. destruct (db_deployments s !! id) as [d|]; [|done].
  apply String.eqb_eq in Hd. apply is_blocker_on. by rewrite Hd.
Qed.

Lemma advanced_holds s sc' s' id sc :
  queue_wf s → advanced s sc' s' → holds_scope s id sc → holds_scope s' id sc.
Proof.
  intros Hwf Hadv Hh. pose proof (holds_blocking s id sc Hh) as Hb. destruct Hh as (Hsc & Hsl & Hd).
  split; [by rewrite (advanced_scope s s' sc' Hadv)|]. destruct Hadv as [b o| b Hb' Hbl Hnone|audit Hnb Hnq|n d audit Hnb Hn Hdn Hq _].
  - done.
  - split; [|done]. cbn. destruct (decide (sc' = sc)) as [->|]; [congruence|by rewrite lookup_insert_ne].
  - split; [|done]. cbn. destruct (decide (sc' = sc)) as [->|]; [by rewrite (Hnb id Hsc) in Hb|by rewrite lookup_delete_ne].
  - cbn. destruct (decide (sc' = sc)) as [->|]; [by rewrite (Hnb id Hsc) in Hb|].
    split; [by rewrite lookup_insert_ne|]. unfold deployment_is in *. cbn.
    rewrite lookup_insert_ne; [done|]. intros ->. congruence.
Qed.

Lemma steps_kept env s s' id sc :
  rtc (env_step env) s s' → queue_wf s → holds_scope s id sc →
  holds_scope s' id sc ∧ db_steps s' = db_steps s ∧ db_agents s' = db_agents s ∧ db_now s' = db_now s ∧
  ∀ step agent, eligible_remote_step_agents s' id step agent = eligible_remote_step_agents s id step agent.
Proof.
  induction 1 as [|x y z [p Hp] _ IH]; [done|]. intros Hwf Hh.
  destruct IH as (H1 & H2 & H3 & H4 & H5); [by eapply advanced_wf|by eapply advanced_holds|].
  split; [done|]. split_and!; [rewrite H2; by destruct Hp|rewrite H3; by destruct Hp|rewrite H4; by destruct Hp|].
  intros step agent. rewrite H5. by eapply advanced_eligible.
Qed.

(** The agents that a step fans out to. *)
Definition fans_out s (id step : Z) (agent : string) : bool :=
  not_null (db_agents s !! agent) && eligible_remote_step_agents s id step agent
  && is_null (db_runs s !! (id, step, agent)).

Definition script_step s (id step : Z) : bool :=
  match db_steps s !! (id, step) with Some st => String.eqb (s_Kind st) "script" | None => false end.

Definition fan_out_agents s (id step : Z) : list string :=
  filter (λ agent, fans_out s id step agent = true) (fst <$> map_to_list (db_agents s)).

Lemma create_runs_exec s id step sc n s' :
  holds_scope s id sc → script_step s id step = true →
  CreateRemoteStepRuns id step s = Ok (n, s') →
  n = Z.of_nat (length (fan_out_agents s id step)) ∧
  ∀ k, db_runs s' !! k = if bool_decide (k.1 = (id, step)) && fans_out s id step k.2
                         then Some (new_run id step k.2 (db_now s)) else db_runs s !! k.
Proof.
  intros (Hsc & Hsl & Hd) Hst. unfold CreateRemoteStepRuns. unfold script_step in Hst.
  assert (Hslot : slot_of_deployment s id = true).
  { unfold slot_of_deployment. apply exists_row_true. exists sc, id. by rewrite Z.eqb_refl. }
  rewrite Hst, Hd, Hslot. cbn [andb]. set (agents := filter _ _).
  unfold store_runs, checked, mbind, tx_bind, mret, tx_ret. cbn.
  destruct (runs_ok _); [|done]. intros [= <- <-].
  assert (Hin : ∀ agent, agent ∈ agents ↔ fans_out s id step agent = true).
  { intros agent. unfold agents, fans_out. rewrite list_elem_of_filter, !andb_true_iff, not_null_true.
    rewrite list_elem_of_fmap. split.
    - intros [[He Hnone] ([a x] & -> & Ha%elem_of_map_to_list)]. cbn in *. rewrite Hnone. eauto.
    - intros [[[a Ha] He] Hnone]. split; [split; [done|by destruct (db_runs s !! _)]|].
      exists (agent, a). split; [done|]. by apply elem_of_map_to_list. }
  split.
  { f_equal. apply f_equal, filter_ext_in. intros agent Ha. rewrite <-Hin.
    unfold agents. rewrite list_elem_of_filter. tauto. }
  intros [kd agent]. cbn. rewrite lookup_add_runs. cbn [fst snd]. specialize (Hin agent).
  case_bool_decide as H1; case_bool_decide as H2; cbn [andb]; try tauto.
  - destruct H1 as [_ H1%Hin]. by rewrite H1.
  - destruct (fans_out s id step agent) eqn:Hf; [|done]. exfalso. apply H1. split; [done|by apply Hin].
Qed.

(** A script step of a deployment that runs and holds its environment gets
    one waiting run for every registered agent that is eligible for it and has
    none yet, and no run is changed; the count is the number of these agents.
    Eligibility is that of the state before the call: admitting other
    deployments of the environment, which the call does first, changes it
    neither for this deployment nor for its agents. *)
Theorem queue_step_runs s id step sc n s' :
  sys_inv s → holds_scope s id sc → script_step s id step = true →
  QueueRemoteStepRuns id step s = (Ok n, s') →
  n = Z.of_nat (length (fan_out_agents s id step)) ∧
  ∀ k, db_runs s' !! k = if bool_decide (k.1 = (id, step)) && fans_out s id step k.2
                         then Some (new_run id step k.2 (db_now s)) else db_runs s !! k.
Proof.
  intros Hinv Hh Hst E. apply WithDeploymentTx_inv in E as (d & s3 & s4 & Hd & E & Hadv & ->).
  pose proof (sys_begin s Hinv) as Hinv0. set (s0 := set_pending_audit [] s) in *.
  destruct (sys_queue_runs id step s0 n s3 E Hinv0) as [Hinv3 _].
  assert (Hruns : db_runs (committed s4) = db_runs s3).
  { destruct (advanceEnvironmentQueue_spec s3 (d_EnvironmentID d) (proj1 (si_queue _ Hinv3))) as (sx & Hsx & Hstx & _).
    assert (s4 = sx) as -> by congruence. by apply (env_steps_runs _ _ _ Hstx). }
  unfold queueRemoteStepRuns in E. apply bind_inv in E as (d0 & ? & Hg & E).
  unfold GetDeployment in Hg. change (db_deployments s0) with (db_deployments s) in Hg.
  rewrite Hd in Hg. injection Hg as <- <-.
  apply bind_inv in E as (u & s1 & Ha & E).
  destruct (advanceEnvironmentQueue_spec s0 (d_EnvironmentID d) (proj1 (si_queue _ Hinv0))) as (sx & Hsx & Hrtc & _).
  assert (s1 = sx) as -> by congruence.
  destruct (steps_kept _ _ _ id sc Hrtc (proj1 (si_queue _ Hinv0)) Hh) as (Hh1 & Hsteps & Hag & Hnow & Hel).
  apply bind_inv in E as (m & s2 & Hc & E). apply bind_inv in E as (v & s5 & Hv & E). injection E as <- <-.
  assert (s5 = s2) as ->.
  { assert (Hro : readonly (validateQueuedRemotePolicies id step)); [|by apply Hro in Hv].
    unfold readonly, validateQueuedRemotePolicies, check_run_policy. respects. }
  apply (create_runs_exec sx id step sc) in Hc as [Hn Hc]; [|done|unfold script_step; by rewrite Hsteps].
  assert (Hf : ∀ agent, fans_out sx id step agent = fans_out s id step agent).
  { intros agent. unfold fans_out. rewrite Hag, Hel. by rewrite (env_steps_runs _ _ _ Hrtc). }
  rewrite Hruns. split.
  - rewrite Hn. unfold fan_out_agents. rewrite Hag. f_equal. apply f_equal, filter_ext_in.
    intros agent _. by rewrite Hf.
  - intros k. rewrite Hc, Hf, Hnow. by rewrite (env_steps_runs _ _ _ Hrtc).
Qed.
End fan_out.

Definition sample_idle_step : DB := sample_steps ∅.

Lemma queue_step_runs_witness :
  sys_inv sample_idle_step ∧ fan_out_agents sample_idle_step 5 0 = ["agent-1"] ∧
  ∃ s', QueueRemoteStepRuns 5 0 sample_idle_step = (Ok 1, s') ∧
    db_runs s' !! (5, 0, "agent-1") = Some (new_run 5 0 "agent-1" 1000).
Proof.
  assert (Hinv : sys_inv sample_idle_step) by (apply sys_invb_sound; vm_compute; reflexivity).
  split; [exact Hinv|]. split; [vm_compute; reflexivity|].
  destruct (QueueRemoteStepRuns 5 0 sample_idle_step) as [[n|e] s'] eqn:E; [|vm_compute in E; discriminate E].
  assert (Hh : holds_scope sample_idle_step 5 (1, 7)) by (split; [|split]; vm_compute; reflexivity).
  destruct (queue_step_runs sample_idle_step 5 0 (1, 7) n s' Hinv Hh) as [Hn Hruns];
    [vm_compute; reflexivity|exact E|].
  exists s'. split; [rewrite Hn; vm_compute; reflexivity|].
  rewrite Hruns. vm_compute. reflexivity.
Defined.
