(* ===== verification/SweepTheorems.v ===== *)
(** * SweepTheorems: the sweeps over the runs of steps

    The maintenance of dispatch and the recovery at start-up treat every run as
    the clock, or the end of the server's process, demands. *)
From S2P Require Import Prelude Text Db Tx QueueQueries DeploymentQueue QueueSafety QueueTheorems DispatchQueries RemoteLifecycle RemoteSafety RemoteSpec RemoteRefine CreationQueries GateQueries ArtifactGate StepQueries RemoteSteps StepSpec System CreationSafety StepSafety StepBodies Runs SampleServer RemoteTheorems StepTheorems.

(** ** Sweeps *)

(** Components that leave the runs alone. *)
Definition same_runs (s s' : DB) : Prop := db_runs s' = db_runs s.

#[local] Instance same_runs_refl : Reflexive same_runs.
Proof. by intros s. Qed.
#[local] Instance same_runs_trans : Transitive same_runs.
Proof. unfold same_runs. intros ???. congruence. Qed.
#[local] Instance same_runs_relation : StoreRelation same_runs.
Proof. split; [apply _..|]. by intros s s' []. Qed.

Lemma runs_update_deployment id where_ set : respects same_runs (update_deployment id where_ set).
Proof. intros s a s' [[_ ->]|(_ & d & _ & _ & ->)]%update_deployment_cases; done. Qed.

Lemma runs_update_claim id where_ set : respects same_runs (update_claim id where_ set).
Proof. intros s a s' [[_ ->]|(_ & c & _ & _ & -> & _)]%update_claim_cases; done. Qed.

Lemma runs_create_slot env dep : respects same_runs (CreateEnvironmentDeploymentSlot env dep).
Proof. by intros s a s' [->|[t ->]]%create_slot_cases. Qed.

Lemma runs_write f : (∀ s, db_runs (f s) = db_runs s) → respects same_runs (write f).
Proof. intros Hf s a s' [= _ <-]. apply Hf. Qed.

#[local] Hint Resolve runs_update_deployment runs_update_claim runs_create_slot : respects.

#[local] Instance same_runs_queue : QueueRelation same_runs.
Proof.
  split; [apply _|]. intros env.
  unfold advanceEnvironmentQueue, advanceDeploymentQueue, DeleteDeploymentSlot, queueAudit.
  repeat first [apply runs_write; done|respects_step].
Qed.

Lemma maintain_claims_runs `{AgentEnvironment} s : db_runs (MaintainRemoteLifecycle s).2 = db_runs s.
Proof.
  unfold MaintainRemoteLifecycle. destruct (ListRemoteLifecycleClaims s) as [[l s0]|e]; [|done].
  revert s. induction l as [|x l IH]; intros s; [done|]. cbn.
  assert (Hm : respects same_runs (maintain_claim x)) by respects.
  pose proof (WithDeploymentTx_respects same_runs x.1 (maintain_claim x) s Hm) as Hw.
  unfold maintainRemoteClaim. destruct (WithDeploymentTx x.1 (maintain_claim x) s) as [[[]|e] s1]; [|done].
  by rewrite IH.
Qed.

(** ** Updates of many runs *)
Section updates.
Implicit Types (s : DB).

Definition update_rows (where_ : RemoteStepRun → bool) (set : RemoteStepRun → RemoteStepRun)
    (r : RemoteStepRun) : RemoteStepRun := if where_ r then set r else r.

Lemma update_runs_exec s where_ set :
  runs_ok (db_runs s) = true → (∀ r, where_ s r = true → admissible r (set s r)) →
  ∃ n, update_runs where_ set s = Ok (n, set_runs (update_rows (where_ s) (set s) <$> db_runs s) s) ∧
       runs_ok (update_rows (where_ s) (set s) <$> db_runs s) = true.
Proof.
  intros Hok Hadm. assert (Hok' : runs_ok (update_rows (where_ s) (set s) <$> db_runs s) = true).
  { apply (runs_ok_rows (db_runs s)); [done|]. intros k r'. rewrite lookup_fmap.
    intros (r & Hr & ->)%fmap_Some. exists r. split; [done|]. unfold update_rows.
    destruct (where_ s r) eqn:Hw; auto. }
  eexists. split; [|done]. unfold update_runs, update_where, store_runs, checked, mbind, tx_bind.
  cbn [db_runs set_runs]. unfold update_rows in Hok'. by rewrite Hok'.
Qed.

Lemma set_runs_twice t t' s : set_runs t (set_runs t' s) = set_runs t s.
Proof. done. Qed.
End updates.

(** ** The maintenance of dispatch *)
Section maintenance.
Context `{AgentEnvironment}.
Implicit Types (s : DB) (r : RemoteStepRun).

Definition reoffered (now : Z) (r : RemoteStepRun) : RemoteStepRun :=
  r_set_State "waiting" (r_set_ClaimTokenHash None (r_set_Ciphertext None (r_set_ClaimExpiresAt None
    (r_set_LastHeartbeatAt None (r_set_UpdatedAt now r))))).

(** Given up, with its buffered log lines. *)
Definition given_up (state : string) (now : Z) (r : RemoteStepRun) : RemoteStepRun :=
  r_set_State state (r_set_FinishedAt (Some now) (r_set_UpdatedAt now (r_set_LogBuffer None r))).

Definition claim_expired (now : Z) (r : RemoteStepRun) : bool :=
  String.eqb (r_State r) "claimed" && is_null (r_StartedAt r) && sql_le (r_ClaimExpiresAt r) now.
Definition cancellation_expired (now : Z) (r : RemoteStepRun) : bool :=
  String.eqb (r_State r) "cancel_requested" && sql_le (r_CancelRequestedAt r) (now - CancelAcknowledgementTimeout).
Definition execution_stale (now : Z) (r : RemoteStepRun) : bool :=
  String.eqb (r_State r) "started" && sql_le (r_LastHeartbeatAt r) (now - LostThreshold).

(** What the clock demands of a run: an expired claim is offered again without
    its token, a cancellation without an answer is unconfirmed, an execution
    without a heartbeat is lost. *)
Definition maintained_run (now : Z) (r : RemoteStepRun) : RemoteStepRun :=
  if claim_expired now r then reoffered now r
  else if cancellation_expired now r then given_up "cancel_unconfirmed" now r
  else if execution_stale now r then given_up "lost" now r
  else r.

Lemma expire_claims_exec s now :
  runs_ok (db_runs s) = true →
  ∃ n, ExpireRemoteStepClaims now s =
         Ok (n, set_runs (update_rows (claim_expired now) (reoffered now) <$> db_runs s) s) ∧
       runs_ok (update_rows (claim_expired now) (reoffered now) <$> db_runs s) = true.
Proof.
  intros Hok. apply (update_runs_exec s (λ _, claim_expired now) (λ _, reoffered now)); [done|].
  intros r _. unfold admissible. split_and!; by auto.
Qed.

Lemma expire_cancellations_exec s now :
  runs_ok (db_runs s) = true →
  ∃ n, ExpireRemoteStepCancellations now (now - CancelAcknowledgementTimeout) s =
         Ok (n, set_runs (update_rows (cancellation_expired now) (given_up "cancel_unconfirmed" now) <$> db_runs s) s) ∧
       runs_ok (update_rows (cancellation_expired now) (given_up "cancel_unconfirmed" now) <$> db_runs s) = true.
Proof.
  intros Hok. apply (update_runs_exec s (λ _, cancellation_expired now) (λ _, given_up "cancel_unconfirmed" now)); [done|].
  intros r _. unfold admissible. split_and!; by auto.
Qed.

Lemma lose_stale_exec s now :
  runs_ok (db_runs s) = true →
  ∃ n, LoseStaleRemoteStepRuns now (now - LostThreshold) s =
         Ok (n, set_runs (update_rows (execution_stale now) (given_up "lost" now) <$> db_runs s) s) ∧
       runs_ok (update_rows (execution_stale now) (given_up "lost" now) <$> db_runs s) = true.
Proof.
  intros Hok. apply (update_runs_exec s (λ _, execution_stale now) (λ _, given_up "lost" now)); [done|].
  intros r _. unfold admissible. split_and!; by auto.
Qed.

(** The three statements act on different states. *)
Lemma maintained_composed now r :
  update_rows (execution_stale now) (given_up "lost" now)
    (update_rows (cancellation_expired now) (given_up "cancel_unconfirmed" now)
      (update_rows (claim_expired now) (reoffered now) r)) = maintained_run now r.
Proof.
  unfold update_rows, maintained_run. destruct (claim_expired now r) eqn:E1; [done|].
  by destruct (cancellation_expired now r) eqn:E2.
Qed.

(** The deployments afterwards. *)
Definition judged (now : Z) (s : DB) (d : Deployment) : Deployment :=
  let cleaning := run_in s (d_ID d) run_cleaning in
  if (String.eqb (d_Status d) "running" || (String.eqb (d_Status d) "failed" && cleaning))
     && is_null (d_AssignedAgentID d)
     && run_in s (d_ID d) (λ r,
          (r_State r ∈? ["failed"; "lost"; "cancel_unconfirmed"; "cleanup_unconfirmed"])
          || (String.eqb (r_State r) "cancelled" && Z.eqb (r_RecoveryCancelled r) 1))
     && negb (run_in s (d_ID d) (λ r, r_State r ∈? ["waiting"; "claimed"; "started"; "cancel_requested"]))
  then d_set_Status (if cleaning then "cleanup_unconfirmed" else "failed") (d_set_FinishedAt (Some now) d)
  else d.

Lemma maintain_dispatch_exec s :
  runs_ok (db_runs s) = true →
  ∃ s', maintain_dispatch s = Ok (tt, s') ∧ db_runs s' = maintained_run (db_now s) <$> db_runs s ∧
    db_claims s' = db_claims s ∧
    db_deployments s' = judged (db_now s) (set_runs (maintained_run (db_now s) <$> db_runs s) s) <$> db_deployments s.
Proof.
  intros Hok. unfold maintain_dispatch. rewrite (bind_ok CurrentUnixTime _ s (db_now s) s) by done.
  set (now := db_now s). unfold ExpireAgentPairings.
  match goal with |- ∃ s', (write ?f;; ?k) s = _ ∧ _ => set (s0 := f s) end.
  rewrite (bind_ok (write _) _ s tt s0) by done.
  destruct (expire_claims_exec s0 now Hok) as (n1 & H1 & Hok1). rewrite (bind_ok _ _ _ _ _ H1).
  match type of H1 with _ = Ok (_, ?x) => destruct (expire_cancellations_exec x now Hok1) as (n2 & H2 & Hok2) end.
  rewrite (bind_ok _ _ _ _ _ H2).
  match type of H2 with _ = Ok (_, ?x) => destruct (lose_stale_exec x now Hok2) as (n3 & H3 & Hok3) end.
  rewrite (bind_ok _ _ _ _ _ H3). cbn [db_runs set_runs] in *.
  set (t := _ <$> (_ <$> (_ <$> db_runs s0))).
  assert (Ht : t = maintained_run now <$> db_runs s).
  { apply map_eq. intros k. unfold t. rewrite !lookup_fmap. change (db_runs s0) with (db_runs s).
    destruct (db_runs s !! k) as [r|]; [|done]. cbn. by rewrite maintained_composed. }
  eexists. split; [done|]. split; [exact Ht|]. split; [done|].
  change (set_runs t _) with (set_runs t s0). rewrite Ht. done.
Qed.

(** Admission, seen from the work that does not wait in a queue. *)
Definition only_admits (s s' : DB) : Prop :=
  db_runs s' = db_runs s ∧ db_claims s' = db_claims s ∧
  (∀ id d, db_deployments s !! id = Some d → d_Status d ≠ "queued" → db_deployments s' !! id = Some d) ∧
  ∀ id d', db_deployments s' !! id = Some d' → db_deployments s !! id = Some d' ∨ d_Status d' = "pending".

Lemma only_admits_refl s : only_admits s s.
Proof. split_and!; auto. Qed.

Lemma only_admits_trans s1 s2 s3 : only_admits s1 s2 → only_admits s2 s3 → only_admits s1 s3.
Proof.
  intros (R & C & D & B) (R' & C' & D' & B'). split_and!; [congruence..|eauto|].
  intros id d' [Hd|?]%B'; [|by right]. apply B in Hd as [?|?]; auto.
Qed.

Lemma env_steps_only_admit env s s' : rtc (env_step env) s s' → only_admits s s'.
Proof.
  intros Hst. split; [by eapply env_steps_runs|]. split; [by eapply env_steps_claims|]. split.
  - intros id d Hd Hq. destruct (env_steps_row _ _ _ id Hst) as [->|(dq & Hdq & Hqq & _)]; [done|]. congruence.
  - intros id d'. destruct (env_steps_row _ _ _ id Hst) as [->|(dq & Hdq & Hqq & ->)]; [by left|].
    intros [= <-]. by right.
Qed.

Lemma advance_all l s :
  queue_wf s → ∃ s', for_each l advanceEnvironmentQueue s = Ok (tt, s') ∧ only_admits s s'.
Proof.
  revert s. induction l as [|env l IH]; intros s Hwf; [exists s; split; [done|apply only_admits_refl]|].
  destruct (advanceEnvironmentQueue_spec s env Hwf) as (s1 & Hs1 & Hst & _).
  destruct (IH s1) as (s2 & Hs2 & Ha); [by eapply env_steps_wf|].
  exists s2. cbn [for_each]. rewrite (bind_ok _ _ _ _ _ Hs1). split; [done|].
  eapply only_admits_trans; [by eapply env_steps_only_admit|done].
Qed.

(** A transaction of maintenance commits when its function leaves a well-formed
    queue. *)
Lemma queue_maintenance_ok {A} (fn : Tx A) s a s1 :
  fn (set_pending_audit [] s) = Ok (a, s1) → queue_wf s1 →
  ∃ s', WithQueueMaintenanceTx fn s = (Ok a, s') ∧ only_admits s1 s'.
Proof.
  intros Hfn Hwf. unfold WithQueueMaintenanceTx.
  match goal with |- context [withQueueTx (?m ≫= ?k) s] =>
    destruct (m (set_pending_audit [] s)) as [[l s0]|e] eqn:El; [|done] end.
  assert (s0 = set_pending_audit [] s) as -> by by injection El as _ <-.
  destruct (advance_all l s1 Hwf) as (s2 & Hs2 & Ha).
  exists (committed s2). split; [|exact Ha]. apply withQueueTx_ok. rewrite (bind_ok _ _ _ _ _ El).
  rewrite (bind_ok _ _ _ tt (set_pending_audit [] s)).
  - rewrite (bind_ok _ _ _ _ _ Hfn). by rewrite (bind_ok _ _ _ _ _ Hs2).
  - clear. induction l as [|x l IH]; [done|]. exact IH.
Qed.

(** Nothing but claims and the deployments of agents. *)
Lemma maintain_lifecycle_admits s id d :
  sys_inv s → db_claims s !! id = None → db_deployments s !! id = Some d → d_Status d ≠ "queued" →
  ∃ s', MaintainRemoteLifecycle s = (Ok tt, s') ∧ db_deployments s' !! id = Some d.
Proof.
  intros Hinv Hnone Hd Hq. destruct (ListRemoteLifecycleClaims s) as [[l s0]|e] eqn:El; [|done].
  assert (s0 = s) as -> by by injection El as _ <-.
  destruct (listed_claims s l El) as [Hnd Hin].
  destruct (maintain_claims_spec l s Hinv Hnd) as (s' & Hs' & _ & _ & Helse & _).
  { intros x (c & Hc & _)%Hin. eauto. }
  exists s'. unfold MaintainRemoteLifecycle. rewrite El. split; [done|].
  destruct (Helse id) as (_ & _ & Hrow); [|by apply Hrow].
  intros Hl. apply list_elem_of_fmap in Hl as (x & -> & Hx). destruct (Hin x Hx) as (c & Hc & _). congruence.
Qed.

Lemma maintain_lifecycle_succeeds s : sys_inv s → (MaintainRemoteLifecycle s).1 = Ok tt.
Proof.
  intros Hinv. destruct (ListRemoteLifecycleClaims s) as [[l s0]|e] eqn:El; [|done].
  assert (s0 = s) as -> by by injection El as _ <-.
  destruct (listed_claims s l El) as [Hnd Hin].
  destruct (maintain_claims_spec l s Hinv Hnd) as (s' & Hs' & _).
  { intros x (c & Hc & _)%Hin. eauto. }
  unfold MaintainRemoteLifecycle. by rewrite El, Hs'.
Qed.

Lemma judged_status now s d : d_Status d ≠ "queued" → d_Status (judged now s d) ≠ "queued".
Proof. intros Hq. unfold judged. destruct (_ && _); [|done]. cbn. by destruct (run_in _ _ _). Qed.

(** C9: where no late clean-up is recorded the maintenance of dispatch always
    succeeds. Every run is treated as the clock demands and in no other way,
    and a deployment that has no claim of an agent and does not wait in the
    queue is judged by its runs: when one of them has failed for good and none
    is active any more it fails, or ends unclean. *)
Theorem maintain_steps s :
  sys_inv s → stale_cleanup s = false →
  let runs := maintained_run (db_now s) <$> db_runs s in
  ∃ s', Maintain s = (Ok tt, s') ∧ sys_inv s' ∧ db_runs s' = runs ∧
    ∀ id d, db_deployments s !! id = Some d → db_claims s !! id = None → d_Status d ≠ "queued" →
      db_deployments s' !! id = Some (judged (db_now s) (set_runs runs s) d).
Proof.
  intros Hinv Hstale runs. pose proof (sys_begin s Hinv) as Hinv0. set (s0 := set_pending_audit [] s) in *.
  destruct (maintain_dispatch_exec s0 (proj1 (si_runs _ Hinv0))) as (s1 & Hs1 & Hr1 & Hc1 & Hd1).
  destruct (sys_maintain_dispatch s0 tt s1 (λ _, Hstale) Hs1 Hinv0) as [Hinv1 _].
  destruct (queue_maintenance_ok maintain_dispatch s tt s1 Hs1 (proj1 (si_queue _ Hinv1))) as (s2 & Hs2 & Ha).
  assert (Hinv2 : sys_inv s2).
  { destruct (sys_queue_tx maintain_dispatch s (λ a sx, sys_maintain_dispatch (set_pending_audit [] s) a sx (λ _, Hstale)) Hinv) as [Hi _].
    by rewrite Hs2 in Hi. }
  destruct (MaintainRemoteLifecycle s2) as [r s3] eqn:Em.
  pose proof (maintain_lifecycle_succeeds s2 Hinv2) as Hok. rewrite Em in Hok. cbn in Hok. subst r.
  exists s3. unfold Maintain. rewrite Hs2. split; [done|]. split; [|split].
  - destruct (sys_maintain_all s (λ _, Hstale) Hinv) as [Hi _]. unfold Maintain in Hi. by rewrite Hs2, Em in Hi.
  - pose proof (maintain_claims_runs s2) as Hr3. rewrite Em in Hr3. cbn in Hr3. destruct Ha as (Hr2 & _).
    rewrite Hr3, Hr2, Hr1. done.
  - intros id d Hd Hnone Hq. destruct Ha as (_ & Hc2 & Hd2 & _).
    assert (Hrow : db_deployments s1 !! id = Some (judged (db_now s) (set_runs runs s) d)).
    { rewrite Hd1, lookup_fmap. change (db_deployments s0) with (db_deployments s). by rewrite Hd. }
    specialize (Hd2 id _ Hrow (judged_status _ _ _ Hq)).
    assert (Hnone2 : db_claims s2 !! id = None).
    { by rewrite Hc2, Hc1. }
    destruct (maintain_lifecycle_admits s2 id _ Hinv2 Hnone2 Hd2 (judged_status _ _ _ Hq)) as (sx & Hsx & Hdx).
    by rewrite Em in Hsx; injection Hsx as <-.
Qed.
End maintenance.

#[local] Existing Instance sample_server.

Lemma maintain_steps_witness :
  sys_inv sample_started_run ∧ stale_cleanup sample_started_run = false ∧
  ∃ s', Maintain sample_started_run = (Ok tt, s') ∧
    (r_State <$> db_runs s' !! (5, 0, "agent-1")) = Some "lost" ∧
    (d_Status <$> db_deployments s' !! 5) = Some "failed".
Proof.
  assert (Hinv : sys_inv sample_started_run) by (apply sys_invb_sound; vm_compute; reflexivity).
  assert (Hs : stale_cleanup sample_started_run = false) by (vm_compute; reflexivity).
  split; [exact Hinv|]. split; [exact Hs|].
  destruct (maintain_steps sample_started_run Hinv Hs) as (s' & Hs' & _ & Hruns & Hdep).
  exists s'. split; [exact Hs'|]. split; [rewrite Hruns; vm_compute; reflexivity|].
  rewrite (Hdep 5 local_deployment eq_refl eq_refl); [vm_compute; reflexivity|discriminate].
Defined.

(** ** Recovery at start-up *)
Section recovery.
Implicit Types (s : DB) (r : RemoteStepRun).

(** Runs of what the server was running when it stopped are cancelled: those
    that no agent has at once, the others by their agents. *)
Definition orphaned s (r : RemoteStepRun) : bool :=
  (r_State r ∈? ["waiting"; "claimed"; "started"; "cancel_requested"])
  && deployment_is s (r_DeploymentID r) (λ d, String.eqb (d_Status d) "running" && is_null (d_AssignedAgentID d)).

Definition recall (now : Z) (r : RemoteStepRun) : RemoteStepRun :=
  let waiting := String.eqb (r_State r) "waiting" in
  r_set_State (if waiting then "cancelled" else "cancel_requested")
    (r_set_RecoveryCancelled 1
      (r_set_CancelRequestedAt
         (if String.eqb (r_State r) "cancel_requested" then r_CancelRequestedAt r else Some now)
        (r_set_FinishedAt (if waiting then Some now else r_FinishedAt r) (r_set_UpdatedAt now r)))).

Definition recalled_runs s : gmap (Z * Z * string) RemoteStepRun :=
  update_rows (orphaned s) (recall (db_now s)) <$> db_runs s.

(** The deployment has used containers that nobody watches any more. *)
Definition unwatched s (d : Deployment) : bool :=
  local_running d && not_null (d_ContainerNamespace d)
  && (exists_row (db_steps s) (λ st, Z.eqb (s_DeploymentID st) (d_ID d) && String.eqb (s_ExecutionTarget st) "local")
      || exists_row (db_verifications s) (λ v, Z.eqb (v_DeploymentID v) (d_ID d) && String.eqb (v_Type v) "bash"))
  && negb (run_in s (d_ID d) (λ r, r_State r ∈? ["claimed"; "started"; "cancel_requested"])).

Definition recovered s (d : Deployment) : Deployment :=
  if unwatched s d
  then d_set_Status "cleanup_unconfirmed" (d_set_FinishedAt (Some (default (db_now s) (d_FinishedAt d))) d)
  else if local_running d && negb (run_in s (d_ID d) (λ r, String.eqb (r_State r) "cancel_requested"))
  then d_set_Status "failed" (d_set_FinishedAt (Some (db_now s)) d)
  else d.

Lemma recall_exec s :
  runs_ok (db_runs s) = true →
  ∃ n, CancelOrphanedRemoteStepRuns (db_now s) s = Ok (n, set_runs (recalled_runs s) s).
Proof.
  intros Hok. destruct (update_runs_exec s orphaned (λ s, recall (db_now s)) Hok) as (n & Hn & _); [|by exists n].
  intros r Hr. unfold orphaned in Hr. apply andb_true_iff in Hr as [Hst _].
  unfold admissible, recall. cbv zeta. split_and!; [by left|done|by right|..].
  - by destruct (String.eqb (r_State r) "waiting").
  - destruct (String.eqb_spec (r_State r) "waiting") as [|Hne]; [done|]. intros _.
    apply in_list_true in Hst. rewrite !elem_of_cons, elem_of_nil in Hst.
    destruct Hst as [?|[->|[->|[->|[]]]]]; [congruence|done..].
Qed.

Lemma recover_exec s :
  runs_ok (db_runs s) = true →
  ∃ n s', recover_orphans s = Ok (n, s') ∧ db_runs s' = recalled_runs s ∧ db_claims s' = db_claims s ∧
    db_deployments s' = recovered (set_runs (recalled_runs s) s) <$> db_deployments s.
Proof.
  intros Hok. destruct (recall_exec s Hok) as (n & Hn). unfold recover_orphans.
  rewrite (bind_ok CurrentUnixTime _ s (db_now s) s) by done.
  rewrite (bind_ok _ _ _ _ _ Hn). set (s1 := set_runs (recalled_runs s) s).
  unfold MarkUnreconciledLocalDeployments, FailOrphanedDeployments, update_deployments, update_where.
  eexists _, _. split; [reflexivity|]. split; [done|]. split; [done|].
  apply map_eq. intros id. rewrite !lookup_fmap. change (db_deployments s1) with (db_deployments s).
  match goal with |- db_deployments ?x !! id = _ => change (db_deployments x) with
    ((λ d, if local_running d && negb (run_in s1 (d_ID d) (λ r, String.eqb (r_State r) "cancel_requested"))
           then d_set_Status "failed" (d_set_FinishedAt (Some (db_now s)) d) else d) <$>
     ((λ d, if unwatched s1 d
            then d_set_Status "cleanup_unconfirmed" (d_set_FinishedAt (Some (default (db_now s) (d_FinishedAt d))) d)
            else d) <$> db_deployments s)) end.
  rewrite !lookup_fmap. destruct (db_deployments s !! id) as [d|]; [|done]. cbn [fmap option_fmap option_map].
  f_equal. unfold recovered. destruct (unwatched s1 d); done.
Qed.

Lemma reconcile_admits l s :
  queue_inv s → ∃ s', reconcile_environments l s = (Ok tt, s') ∧ only_admits s s'.
Proof.
  revert s. induction l as [|env l IH]; intros s Hinv; [exists s; split; [done|apply only_admits_refl]|].
  destruct (advanceEnvironmentQueue_spec (set_pending_audit [] s) env) as (s1 & Hs1 & Hst & _).
  { apply (queue_wf_ext s); [apply begin_same|apply Hinv]. }
  pose proof (reconcile_environments_respects keeps_queue [env] s Hinv) as Hk. cbn [reconcile_environments] in Hk |- *.
  rewrite (withQueueTx_ok (LockDeploymentEnvironment env;; advanceEnvironmentQueue env) s tt s1 Hs1) in Hk |- *.
  destruct (IH (committed s1)) as (s2 & Hs2 & Ha); [exact Hk|].
  exists s2. split; [done|]. eapply only_admits_trans; [|exact Ha].
  exact (env_steps_only_admit _ _ _ Hst).
Qed.

(** C10: recovery at start-up always succeeds. It cancels the runs of every
    deployment that the server itself was running, at once or by asking their
    agents, and no other run; a deployment that may have left containers behind
    ends unclean, the others fail, and only a deployment that waits for the
    answer of an agent is still running afterwards. *)
Theorem recovery_settles s :
  sys_inv s →
  let s0 := set_runs (recalled_runs s) s in
  ∃ s', recoverPendingDeployments s = (Ok tt, s') ∧ sys_inv s' ∧ db_runs s' = recalled_runs s ∧
    (∀ id d, db_deployments s !! id = Some d → d_Status d ≠ "queued" →
       db_deployments s' !! id = Some (recovered s0 d)) ∧
    ∀ id d', db_deployments s' !! id = Some d' → local_running d' = true →
      ∃ k r, db_runs s' !! k = Some r ∧ r_DeploymentID r = id ∧ r_State r = "cancel_requested".
Proof.
  intros Hinv. pose proof (sys_begin s Hinv) as Hinv0.
  destruct (recover_exec (set_pending_audit [] s) (proj1 (si_runs _ Hinv0))) as (n & s1 & Hs1 & Hr1 & Hc1 & Hd1).
  destruct (sys_recover_orphans _ n s1 Hs1 Hinv0) as [Hinv1 _].
  destruct (queue_maintenance_ok recover_orphans s n s1 Hs1 (proj1 (si_queue _ Hinv1))) as (s2 & Hs2 & Ha2).
  assert (Hinv2 : sys_inv s2).
  { pose proof (WithQueueMaintenanceTx_respects sys_step recover_orphans s sys_recover_orphans Hinv) as [Hi _].
    by rewrite Hs2 in Hi. }
  destruct (ListDeploymentQueueEnvironments s2) as [[l s2']|e] eqn:El; [|done].
  destruct (reconcile_admits l s2) as (s3 & Hs3 & Ha3); [by apply si_queue|].
  assert (Hrun : recoverPendingDeployments s = (Ok tt, s3)) by (unfold recoverPendingDeployments, ReconcileDeploymentQueues; by rewrite Hs2; cbn [snd]; rewrite El).
  destruct (only_admits_trans _ _ _ Ha2 Ha3) as (Hruns & _ & Hfwd & Hback).
  exists s3. split; [done|]. split; [|split; [|split]].
  - pose proof (sys_recover s Hinv) as [Hi _]. by rewrite Hrun in Hi.
  - by rewrite Hruns, Hr1.
  - intros id d Hd Hq. apply Hfwd; [by rewrite Hd1, lookup_fmap; cbn; rewrite Hd|].
    unfold recovered. by repeat case_match.
  - intros id d' Hd' Hl. destruct (Hback id d' Hd') as [H1|Hp].
    2: { unfold local_running in Hl. by rewrite Hp in Hl. }
    rewrite Hd1, lookup_fmap in H1. apply fmap_Some in H1 as (d & Hd & ->). cbn in Hd.
    pose proof (wf_key _ (proj1 (si_queue _ Hinv)) _ _ Hd) as Hid.
    unfold recovered in Hl. destruct (unwatched _ d); [done|].
    destruct (local_running d) eqn:Hld; cbn [andb] in Hl; [|congruence].
    destruct (run_in _ _ _) eqn:Hrunin; [|done]. apply run_in_true in Hrunin as (k & r & Hk & Hdep & Hst).
    exists k, r. rewrite Hruns, Hr1. split; [done|]. split; [congruence|]. by apply String.eqb_eq.
Qed.
End recovery.

Lemma recovery_settles_witness :
  sys_inv sample_started_run ∧
  ∃ s', recoverPendingDeployments sample_started_run = (Ok tt, s') ∧
    (r_State <$> db_runs s' !! (5, 0, "agent-1")) = Some "cancel_requested" ∧
    (d_Status <$> db_deployments s' !! 5) = Some "running".
Proof.
  assert (Hinv : sys_inv sample_started_run) by (apply sys_invb_sound; vm_compute; reflexivity).
  split; [exact Hinv|].
  destruct (recovery_settles sample_started_run Hinv) as (s' & Hs' & _ & Hruns & Hdep & _).
  exists s'. split; [exact Hs'|]. split; [rewrite Hruns; vm_compute; reflexivity|].
  rewrite (Hdep 5 local_deployment eq_refl); [vm_compute; reflexivity|discriminate].
Defined.
