(* ===== verification/PollTheorems.v ===== *)
(** * PollTheorems: what is stored about an agent is what it reported

    A poll that is recorded leaves in the seven capability tables exactly the
    capabilities of the request, so the same poll changes nothing the next
    time; the variables of a payload are those that its steps name. *)
From S2P Require Import Prelude Text Db Tx QueueQueries DeploymentQueue QueueSafety QueueTheorems DispatchQueries RemoteLifecycle RemoteSafety CreationQueries GateQueries StepQueries Base64 Secret Variables Resolution Ansible DeploymentCreation RemotePayload AgentPoll StepSpec System CreationSafety StepSafety StepBodies Runs SampleServer RemoteTheorems StepTheorems SweepTheorems.

(** ** Orders *)

Lemma string_compare_refl p : String.compare p p = Eq.
Proof. pose proof (String.compare_antisym p p) as H. by destruct (String.compare p p). Qed.

(** The order by category and value, from the order on strings. *)
Lemma capability_le_spec p q :
  capability_le p q = true ↔ (p.1 = q.1 ∧ string_le p.2 q.2 = true) ∨ (p.1 ≠ q.1 ∧ string_le p.1 q.1 = true).
Proof.
  unfold capability_le, string_le. destruct (decide (p.1 = q.1)) as [Heq|Hne].
  - rewrite Heq, string_compare_refl. naive_solver.
  - destruct (String.compare p.1 q.1) eqn:E; [by apply String.compare_eq_iff in E|naive_solver..].
Qed.

Lemma capability_le_total p q : capability_le p q = false → capability_le q p = true.
Proof.
  intros H. apply not_true_iff_false in H. rewrite capability_le_spec in H. apply capability_le_spec.
  destruct (decide (p.1 = q.1)) as [Heq|Hne].
  - left. split; [done|]. apply string_le_total, not_true_iff_false. intros Hle. apply H. by left.
  - right. split; [done|]. apply string_le_total, not_true_iff_false. intros Hle. apply H. by right.
Qed.

Lemma capability_le_antisym p q : capability_le p q = true → capability_le q p = true → p = q.
Proof.
  rewrite !capability_le_spec. destruct p as [a b], q as [c d]. cbn.
  intros [[Heq H]|[Hne H]] [[Heq' H']|[Hne' H']]; try congruence.
  - subst. f_equal. by apply string_le_antisym.
  - destruct Hne. by apply string_le_antisym.
Qed.

Lemma capability_le_trans p q r : capability_le p q = true → capability_le q r = true → capability_le p r = true.
Proof.
  rewrite !capability_le_spec. destruct p as [a b], q as [c d], r as [e f]. cbn.
  intros [[Heq H]|[Hne H]] [[Heq' H']|[Hne' H']]; subst.
  - left. split; [done|]. by eapply string_le_trans.
  - by right.
  - by right.
  - right. assert (string_le a e = true) by by eapply string_le_trans. split; [|done].
    intros ->. apply Hne. by apply string_le_antisym.
Qed.

(** ** A capability table *)
Section table.
Context (get : DB → gset (string * string)) (set : gset (string * string) → DB → DB).
Hypothesis get_set : ∀ t s, get (set t s) = t.
Hypothesis set_set : ∀ t t' s, set t (set t' s) = set t s.
Hypothesis set_get : ∀ s, set (get s) s = s.

Lemma add_capabilities_inv values allowed agent s u s' :
  for_each values (add_capability get set allowed agent) s = Ok (u, s') →
  s' = set (list_to_set (pair agent <$> values) ∪ get s) s ∧ NoDup values ∧
  ∀ v, v ∈ values → (agent, v) ∉ get s.
Proof using All.
  revert s. induction values as [|v values IH]; intros s; cbn [for_each].
  - intros [= _ <-]. split; [|split; [constructor|by intros v ?%elem_of_nil]]. cbn.
    by rewrite (left_id_L ∅ (∪)), set_get.
  - intros (u0 & s1 & H1 & H2)%bind_inv. unfold add_capability in H1.
    apply bind_inv in H1 as (sx & s2 & [= <- <-] & H1). apply bind_inv in H1 as (u1 & s2 & Hg & H1).
    injection H1 as _ <-. destruct (_ && _) eqn:Hok; [|done]. injection Hg as _ <-.
    rewrite !andb_true_iff, negb_true_iff, bool_decide_eq_false in Hok. destruct Hok as [[_ Hnew] _].
    destruct (IH _ H2) as (-> & Hnd & Hfree). rewrite get_set in Hfree |- *. rewrite set_set. split; [|split].
    + f_equal. cbn. set_solver.
    + constructor; [|done]. intros Hv. apply (Hfree v Hv). set_solver.
    + intros w [->|Hw]%elem_of_cons; [done|]. specialize (Hfree w Hw). set_solver.
Qed.
End table.

(** What a table holds of an agent after it was cleared and filled. *)
Lemma of_agent_filled agent values t :
  NoDup values →
  of_agent agent (list_to_set (pair agent <$> values) ∪ filter (λ c : string * string, c.1 ≠ agent) t) ≡ₚ values.
Proof.
  intros Hnd. unfold of_agent. rewrite sort_by_perm. apply NoDup_Permutation; [|done|].
  - apply NoDup_fmap_2_strong; [|apply NoDup_filter, NoDup_elements].
    intros [a b] [c d] [Ha _]%list_elem_of_filter [Hc _]%list_elem_of_filter. cbn in *. congruence.
  - intros v. rewrite list_elem_of_fmap. split.
    + intros ([a b] & -> & [Ha Hin]%list_elem_of_filter). cbn in *. subst.
      apply elem_of_elements, elem_of_union in Hin as [Hin|Hin].
      * rewrite elem_of_list_to_set in Hin. apply list_elem_of_fmap in Hin as (x & [= ->] & Hx). done.
      * apply elem_of_filter in Hin as [Hne _]. done.
    + intros Hv. exists (agent, v). split; [done|]. apply list_elem_of_filter. split; [done|].
      apply elem_of_elements, elem_of_union. left. rewrite elem_of_list_to_set.
      apply list_elem_of_fmap. eauto.
Qed.

(** ** What a recorded poll leaves *)
Section record.
Implicit Types (s : DB) (request : PollRequest).

(** The rows that the poll writes, as multisets. *)
Record stored s (agent : string) request : Prop := {
  st_host : of_agent agent (db_agent_interpreters s) ≡ₚ pq_SupportedInterpreters request;
  st_modes : of_agent agent (db_agent_execution_modes s) ≡ₚ pq_ExecutionModes request;
  st_runtimes : of_agent agent (db_agent_container_runtimes s) ≡ₚ pq_ContainerRuntimes request;
  st_container : of_agent agent (db_agent_container_interpreters s) ≡ₚ pq_ContainerInterpreters request;
  st_staging : pq_Staging request = true → agent ∈ db_agent_staging s;
  st_artifact : agent ∈ db_agent_artifact s ↔ pq_Artifact request = true;
  st_policy : default "" (db_agent_policies s !! agent) = pq_ResourcePolicy request ∧
              db_agent_policies s !! agent ≠ Some "";
  st_protocol : (a_AgentProtocol <$> db_agents s !! agent) = Some (Some (pq_Protocol request)) }.

Lemma record_execution_inv request agent s u s' :
  (a_Status <$> db_agents s !! agent) = Some "active" →
  recordExecutionCapabilities request agent s = Ok (u, s') →
  of_agent agent (db_agent_interpreters s') ≡ₚ pq_SupportedInterpreters request ∧
  of_agent agent (db_agent_execution_modes s') ≡ₚ pq_ExecutionModes request ∧
  of_agent agent (db_agent_container_runtimes s') ≡ₚ pq_ContainerRuntimes request ∧
  of_agent agent (db_agent_container_interpreters s') ≡ₚ pq_ContainerInterpreters request ∧
  db_agent_staging s' = db_agent_staging s ∧ db_agent_artifact s' = db_agent_artifact s ∧
  db_agent_policies s' = db_agent_policies s ∧
  (a_AgentProtocol <$> db_agents s' !! agent) = Some (Some (pq_Protocol request)).
Proof.
  intros Hact E. unfold recordExecutionCapabilities in E.
  apply bind_inv in E as (? & s1 & H1 & E). unfold SetAgentProtocol in H1.
  apply bind_inv in H1 as (n & s1' & H1 & [= _ ->]). unfold update_agent in H1.
  destruct (db_agents s !! agent) as [a|] eqn:Ha; [|done]. injection Hact as Hact.
  unfold update_pk in H1. rewrite Ha, Hact in H1. injection H1 as _ <-.
  apply bind_inv in E as (? & s2 & H2 & E).
  unfold clearAgentCapabilities in H2. injection H2 as _ <-.
  apply bind_inv in E as (? & s3 & H3 & E). apply bind_inv in E as (? & s4 & H4 & E).
  apply bind_inv in E as (? & s5 & H5 & E).
  apply (add_capabilities_inv db_agent_interpreters set_agent_interpreters) in H3 as (-> & N3 & _); [|by intros []..].
  apply (add_capabilities_inv db_agent_execution_modes set_agent_execution_modes) in H4 as (-> & N4 & _); [|by intros []..].
  apply (add_capabilities_inv db_agent_container_runtimes set_agent_container_runtimes) in H5 as (-> & N5 & _); [|by intros []..].
  apply (add_capabilities_inv db_agent_container_interpreters set_agent_container_interpreters) in E as (-> & N6 & _); [|by intros []..].
  cbn. split_and!; try done; try (by apply of_agent_filled). by rewrite lookup_insert_eq.
Qed.

Lemma record_transfer_inv request agent s u s' :
  recordTransferCapabilities request agent s = Ok (u, s') →
  db_agents s' = db_agents s ∧
  (pq_Staging request = true → agent ∈ db_agent_staging s') ∧
  (agent ∈ db_agent_artifact s' ↔ pq_Artifact request = true) ∧
  default "" (db_agent_policies s' !! agent) = pq_ResourcePolicy request ∧
  db_agent_policies s' !! agent ≠ Some "".
Proof.
  unfold recordTransferCapabilities. intros E.
  apply bind_inv in E as (? & s1 & H1 & E).
  assert (db_agents s1 = db_agents s ∧ (pq_Staging request = true → agent ∈ db_agent_staging s1)) as [A1 S1].
  { destruct (pq_Staging request); [|by injection H1 as _ <-].
    apply bind_inv in H1 as (? & sa & [= _ <-] & H1). unfold AddAgentStagingCapability in H1.
    apply bind_inv in H1 as (? & ? & [= <- <-] & H1). apply bind_inv in H1 as (? & ? & Hg & [= _ <-]).
    destruct (_ && _); [|done]. injection Hg as _ <-. split; [done|]. intros _. cbn. set_solver. }
  apply bind_inv in E as (? & s2 & [= _ <-] & E). apply bind_inv in E as (? & s3 & H3 & E).
  assert (db_agents s3 = db_agents s1 ∧ db_agent_staging s3 = db_agent_staging s1 ∧
    (agent ∈ db_agent_artifact s3 ↔ pq_Artifact request = true)) as (A3 & S3 & R3).
  { destruct (pq_Artifact request); [|injection H3 as _ <-; cbn; split_and!; [done..|set_solver]].
    unfold AddAgentArtifactCapability in H3.
    apply bind_inv in H3 as (? & ? & [= <- <-] & H3). apply bind_inv in H3 as (? & ? & Hg & [= _ <-]).
    destruct (_ && _); [|done]. injection Hg as _ <-. cbn. split_and!; [done..|set_solver]. }
  apply bind_inv in E as (? & s4 & [= _ <-] & E).
  destruct (String.eqb_spec (pq_ResourcePolicy request) "") as [Hp|Hp]; cbn [negb] in E.
  - injection E as _ <-. cbn. rewrite lookup_delete_eq. split_and!; [congruence|by rewrite S3|done..].
  - unfold AddAgentResourcePolicy in E. apply bind_inv in E as (? & ? & [= <- <-] & E).
    apply bind_inv in E as (? & ? & Hg & [= _ <-]). destruct (_ && _); [|done]. injection Hg as _ <-.
    cbn. rewrite lookup_insert_eq. split_and!; [congruence|by rewrite S3|done..|congruence].
Qed.

Lemma record_inv request agent s u s' :
  (a_Status <$> db_agents s !! agent) = Some "active" →
  (recordTransferCapabilities request agent;; recordExecutionCapabilities request agent) s = Ok (u, s') →
  stored s' agent request.
Proof.
  intros Hact E. apply bind_inv in E as (? & s1 & H1 & E).
  destruct (record_transfer_inv _ _ _ _ _ H1) as (Ha & Hs & Hr & Hp & Hp').
  rewrite <-Ha in Hact.
  destruct (record_execution_inv _ _ _ _ _ Hact E) as (E1 & E2 & E3 & E4 & Es & Er & Ep & Epr).
  split; [done..| | | |done].
  - by rewrite Es.
  - by rewrite Er.
  - by rewrite Ep.
Qed.

(** Stored that way, the listed capabilities are the reported ones, in order. *)
Lemma stored_matches s agent request :
  stored s agent request → matchesStoredCapabilities request agent s = Ok (true, s).
Proof.
  intros [Hh Hm Hru Hc Hst Har [Hp Hp'] Hpr]. unfold matchesStoredCapabilities, ListAgentPollCapabilities, read, mbind, tx_bind, mret, tx_ret.
  cbv beta iota. rewrite bool_decide_eq_true_2; [done|].
  set (lst := _ ++ _). apply sort_by_perm_eq;
    [apply capability_le_total|apply capability_le_trans|apply capability_le_antisym|].
  unfold reported_capabilities.
  assert (Hin : ("staging", "") ∈ sort_by capability_le lst ↔ agent ∈ db_agent_staging s).
  { rewrite elem_of_sort_by. subst lst. rewrite !elem_of_app. unfold capabilities. rewrite !list_elem_of_fmap.
    destruct (db_agents s !! agent), (db_agent_policies s !! agent);
      repeat case_bool_decide; set_solver. }
  rewrite (bool_decide_ext _ _ Hin). subst lst. clear Hin.
  assert (Hs : (if pq_Staging request || bool_decide (agent ∈ db_agent_staging s) then [("staging", "")] else []) =
    if bool_decide (agent ∈ db_agent_staging s) then [("staging", "")] else []).
  { destruct (pq_Staging request); [|done]. by rewrite bool_decide_eq_true_2 by auto. }
  assert (Hpol : match db_agent_policies s !! agent with Some p => [("resource_policy", p)] | None => [] end =
    if negb (String.eqb (pq_ResourcePolicy request) "") then [("resource_policy", pq_ResourcePolicy request)] else []).
  { rewrite <-Hp. destruct (db_agent_policies s !! agent) as [pol|]; [|done]. cbn.
    by destruct (String.eqb_spec pol "") as [->|]. }
  assert (Hart : (if bool_decide (agent ∈ db_agent_artifact s) then [("artifact", "")] else []) =
    if pq_Artifact request then [("artifact", "")] else []).
  { rewrite (bool_decide_ext _ _ Har). by destruct (pq_Artifact request). }
  rewrite Hs, Hpol, Hart. unfold capabilities. rewrite Hh, Hm, Hru, Hc.
  destruct (db_agents s !! agent) as [a|]; [|done]. injection Hpr as ->. cbn [default].
  rewrite !(assoc_L (++)). symmetry. apply Permutation_cons_append.
Qed.

(** The tables that [ListAgentPollCapabilities] reads. *)
Definition capability_tables s :=
  (db_agents s, db_agent_interpreters s, db_agent_execution_modes s, db_agent_container_runtimes s,
   db_agent_container_interpreters s, db_agent_staging s, db_agent_artifact s, db_agent_policies s).

Definition same_capabilities s s' : Prop := capability_tables s' = capability_tables s.

#[local] Instance same_capabilities_refl : Reflexive same_capabilities.
Proof. by intros s. Qed.
#[local] Instance same_capabilities_trans : Transitive same_capabilities.
Proof. unfold same_capabilities. intros ???. congruence. Qed.

Lemma matches_kept s s' request agent b :
  same_capabilities s s' → matchesStoredCapabilities request agent s = Ok (b, s) →
  matchesStoredCapabilities request agent s' = Ok (b, s').
Proof.
  intros [= Ha Hi Hm Hr Hc Hs Har Hp]. unfold matchesStoredCapabilities, ListAgentPollCapabilities, read, mbind, tx_bind, mret, tx_ret.
  cbv beta iota. rewrite Ha, Hi, Hm, Hr, Hc, Hs, Har, Hp. by intros [= <-].
Qed.

Lemma capabilities_update_runs where_ set : respects same_capabilities (update_runs where_ set).
Proof.
  intros s n s'. unfold update_runs, store_runs, checked, mbind, tx_bind. destruct (update_where _ _ _) as [t m].
  destruct (runs_ok _); [|done]. by intros [= _ <-].
Qed.
Lemma capabilities_update_claims where_ set : respects same_capabilities (update_claims where_ set).
Proof.
  intros s n s'. unfold update_claims, store_claims, checked, mbind, tx_bind. destruct (update_where _ _ _) as [t m].
  destruct (claims_ok _); [|done]. by intros [= _ <-].
Qed.
Lemma capabilities_update_deployments where_ set : respects same_capabilities (update_deployments where_ set).
Proof. intros s n s'. unfold update_deployments. destruct (update_where _ _ _). by intros [= _ <-]. Qed.
Lemma capabilities_update_deployment id where_ set : respects same_capabilities (update_deployment id where_ set).
Proof. intros s a s' [[_ ->]|(_ & d & _ & _ & ->)]%update_deployment_cases; done. Qed.
Lemma capabilities_create_slot env dep : respects same_capabilities (CreateEnvironmentDeploymentSlot env dep).
Proof. by intros s a s' [->|[t ->]]%create_slot_cases. Qed.
Lemma capabilities_write f : (∀ s, same_capabilities s (f s)) → respects same_capabilities (write f).
Proof. intros Hf s a s' [= _ <-]. apply Hf. Qed.
Hint Resolve capabilities_update_runs capabilities_update_claims capabilities_update_deployments
  capabilities_update_deployment capabilities_create_slot : respects.

Lemma capabilities_advance env : respects same_capabilities (advanceEnvironmentQueue env).
Proof.
  unfold advanceEnvironmentQueue, advanceDeploymentQueue, DeleteDeploymentSlot, queueAudit.
  repeat first [apply capabilities_write; done|respects_step].
Qed.

Lemma heartbeat_active arg s n s' :
  HeartbeatAgent arg s = Ok (n, s') → n ≠ 0 → (a_Status <$> db_agents s' !! hp_ID arg) = Some "active".
Proof.
  unfold HeartbeatAgent, update_agent. intros E Hn.
  match type of E with (let '(t, n) := update_pk ?m ?k ?w ?f in _) = _ =>
    destruct (update_pk_cases m k w f) as [(a & Ha & Hw & Hu)|[Hu _]] end; rewrite Hu in E; injection E as <- <-; [|done].
  cbn. rewrite lookup_insert_eq. rewrite !andb_true_iff in Hw. destruct Hw as [[[_ Hst%String.eqb_eq] _] _].
  cbn. by rewrite Hst.
Qed.

Section poll.
Context `{AgentEnvironment} `{AgentProtocol} `{PayloadLibraries}.

(** After a poll that is recorded the stored capabilities are those that
    the agent reported, as far as its protocol can report them: recording the
    same request once more would find nothing to change. *)
Theorem poll_recorded heartbeat request s n s' :
  RecordAgentPollCapabilities heartbeat request s = (Ok n, s') → n ≠ 0 →
  matchesStoredCapabilities (normalized request) (hp_ID heartbeat) s' = Ok (true, s') ∧
  record_capabilities (normalized request) (hp_ID heartbeat) s' = Ok (tt, s').
Proof.
  intros E Hn. enough (Hm : matchesStoredCapabilities (normalized request) (hp_ID heartbeat) s' = Ok (true, s')).
  { split; [done|]. unfold record_capabilities. by rewrite (bind_ok _ _ _ _ _ Hm). }
  unfold RecordAgentPollCapabilities in E. destruct (CheckCompatibility _); [done|].
  apply withQueueTx_inv in E as (s1 & E & ->). set (r := normalized request) in *.
  apply bind_inv in E as (l & s0 & [= _ <-] & E). apply bind_inv in E as (u & s2 & Hl & E).
  assert (s2 = set_pending_audit [] s) as ->.
  { revert Hl. clear. induction l as [|x l IH]; [by intros [= _ <-]|exact IH]. }
  apply bind_inv in E as (m & s3 & Hp & E).
  assert (m = n ∧ same_capabilities s3 s1) as [-> Hcap].
  { apply bind_inv in E as (v & s4 & Ha & [= -> ->]). split; [done|].
    assert (Hr : respects same_capabilities (for_each l advanceEnvironmentQueue)) by
      (apply respects_for_each; [apply _..|apply capabilities_advance]). by eapply Hr. }
  apply (matches_kept s3); [etrans; [exact Hcap|done]|].
  unfold record_poll in Hp. apply bind_inv in Hp as (c & s4 & Hh & Hp).
  destruct (Z.eqb_spec c 0) as [->|Hc]; [by injection Hp as <- _|].
  pose proof (heartbeat_active _ _ _ _ Hh Hc) as Hact.
  apply bind_inv in Hp as (v & s5 & Hr & Hp).
  apply (matches_kept s5); [|].
  { match type of Hp with ?k s5 = _ => assert (Hk : respects same_capabilities k); [|by eapply Hk] end.
    unfold confirm_cleanup. respects. }
  unfold record_capabilities in Hr. apply bind_inv in Hr as (unchanged & s6 & Hm & Hr).
  assert (s6 = s4) as -> by (unfold matchesStoredCapabilities in Hm; by injection Hm as _ <-).
  destruct unchanged; [by injection Hr as _ <-|].
  apply stored_matches. by eapply record_inv.
Qed.
End poll.
End record.

#[local] Existing Instance sample_server.

Lemma poll_recorded_witness :
  ∃ s', RecordAgentPollCapabilities sample_heartbeat sample_request sample_started_run = (Ok 1, s') ∧
    matchesStoredCapabilities (normalized sample_request) "agent-1" s' = Ok (true, s').
Proof.
  destruct (RecordAgentPollCapabilities sample_heartbeat sample_request sample_started_run)
    as [[n|e] s'] eqn:E; [|vm_compute in E; discriminate E].
  assert (Hn : n = 1) by (vm_compute in E; injection E as <- _; reflexivity).
  destruct (poll_recorded sample_heartbeat sample_request sample_started_run n s' E) as [Hm _];
    [rewrite Hn; discriminate|].
  exists s'. split; [rewrite Hn; reflexivity|exact Hm].
Defined.

(** ** The variables of a payload *)
Section payload.
Context `{PayloadLibraries}.

(** What a step names; [None]: every variable. *)
Definition named (step : DeploymentStep) : option (list string) :=
  if String.eqb (s_VariableNames step) "" then None
  else match names_unmarshal (s_VariableNames step) with
       | Some (name :: names) => Some (name :: names) | _ => None end.

Definition secret_snapshot (v : ResolvedVariable) : VariableSnapshot :=
  mkVariableSnapshot (r_Name v) (r_Value v) (r_Secret v).

Lemma selected_names_spec steps selected names :
  selected_names steps selected = Ok (Some names) →
  (∀ step, step ∈ steps → is_Some (named step)) ∧
  ∀ name, name ∈ names ↔ name ∈ selected ∨ ∃ step l, step ∈ steps ∧ named step = Some l ∧ name ∈ l.
Proof.
  revert selected. induction steps as [|step steps IH]; intros selected; cbn.
  - intros [= ->]. split; [by intros step ?%elem_of_nil|]. intros name. split; [by left|].
    intros [?|(step & l & ?%elem_of_nil & _)]; done.
  - destruct (String.eqb (s_VariableNames step) "") eqn:E0; [done|].
    destruct (names_unmarshal (s_VariableNames step)) as [[|n l]|] eqn:E1; [done| |done].
    assert (Hn : named step = Some (n :: l)) by (unfold named; by rewrite E0, E1).
    intros Hs. destruct (IH _ Hs) as [Hall Hin]. split.
    + intros x [->|Hx]%elem_of_cons; [by eexists|auto].
    + intros name. rewrite Hin, elem_of_union, elem_of_list_to_set. split.
      * intros [[Hl|?]|(x & k & Hx & Hk)]; [right; exists step, (n :: l); by repeat (split || left)|by left|].
        right. exists x, k. split; [by right|done].
      * intros [?|(x & k & [->|Hx]%elem_of_cons & Hk & Hnk)]; [by left; right| |right; by exists x, k].
        left. left. congruence.
Qed.

Lemma selected_names_all steps selected :
  selected_names steps selected = Ok None → ∃ step, step ∈ steps ∧ named step = None.
Proof.
  revert selected. induction steps as [|step steps IH]; intros selected; cbn; [done|].
  destruct (String.eqb (s_VariableNames step) "") eqn:E0.
  { intros _. exists step. split; [left|]. unfold named. by rewrite E0. }
  destruct (names_unmarshal (s_VariableNames step)) as [[|n l]|] eqn:E1; [| |done].
  - intros _. exists step. split; [left|]. unfold named. by rewrite E0, E1.
  - intros (x & Hx & ?)%IH. exists x. split; [by right|done].
Qed.

Lemma select_variables_spec variables selected kept missing :
  select_variables variables selected = (kept, missing) →
  kept `sublist_of` variables ∧
  (∀ v, v ∈ kept → r_Name v ∈ selected ∨ IsEnvironmentIdentity (r_Name v) = true) ∧
  ∀ name, name ∈ selected → name ∈ missing ∨ ∃ v, v ∈ kept ∧ r_Name v = name.
Proof.
  revert selected kept missing. induction variables as [|v variables IH]; intros selected kept missing; cbn.
  - intros [= <- <-]. split; [constructor|]. split; [by intros v ?%elem_of_nil|]. by left.
  - destruct (bool_decide (r_Name v ∈ selected) || IsEnvironmentIdentity (r_Name v)) eqn:E.
    + destruct (select_variables variables _) as [kept0 missing0] eqn:E0. intros [= <- <-].
      destruct (IH _ _ _ E0) as (Hsub & Hin & Hmiss). split; [by constructor|]. split.
      * intros x [->|Hx]%elem_of_cons.
        -- apply orb_true_iff in E as [E%bool_decide_eq_true|E]; auto.
        -- destruct (Hin x Hx) as [?|?]; [left; set_solver|by right].
      * intros name Hname. destruct (decide (name = r_Name v)) as [->|Hne].
        -- right. exists v. split; [left|done].
        -- destruct (Hmiss name) as [?|(x & Hx & ?)]; [set_solver|by left|right; exists x; split; [by right|done]].
    + intros Hs. destruct (IH _ _ _ Hs) as (Hsub & Hin & Hmiss). by split; [constructor|].
Qed.

Lemma with_identity_in names resolved name :
  name ∈ with_identity names resolved → name ∈ names ∨ IsEnvironmentIdentity name = true.
Proof.
  unfold with_identity. revert names. induction resolved as [|v resolved IH]; intros names; cbn [foldl]; [by left|].
  intros [Hn|?]%IH; [|by right]. destruct (_ && _) eqn:E; [|by left].
  apply andb_true_iff in E as [E _]. apply elem_of_app in Hn as [?|Hn]; [by left|].
  apply list_elem_of_singleton in Hn as ->. by right.
Qed.

Lemma with_identity_keeps names resolved name : name ∈ names → name ∈ with_identity names resolved.
Proof.
  unfold with_identity. revert names. induction resolved as [|v resolved IH]; intros names Hn; cbn [foldl]; [done|].
  apply IH. destruct (_ && _); [|done]. apply elem_of_app. by left.
Qed.

(** A step that a legacy agent executes sees the whole payload. *)
Lemma claim_names_spec step resolved protocol names :
  remoteClaimVariableNames step resolved protocol = Ok names →
  (protocol ≠ AgentV3 → names = [] ∧
     (named step = None ∨ selectRemoteVariables [step] resolved = Ok resolved)) ∧
  (∀ name, name ∈ names → (∃ l, named step = Some l ∧ name ∈ l) ∨ IsEnvironmentIdentity name = true).
Proof.
  unfold remoteClaimVariableNames, named.
  destruct (String.eqb (s_VariableNames step) "").
  { cbn. rewrite andb_false_r. intros [= <-]. split; [by auto|by intros name ?%elem_of_nil]. }
  destruct (names_unmarshal (s_VariableNames step)) as [[|n l]|]; [|cbn [mbind result_bind]|done].
  { cbn. rewrite andb_false_r. intros [= <-]. split; [by auto|by intros name ?%elem_of_nil]. }
  set (full := with_identity (n :: l) resolved).
  assert (Hin : ∀ name, name ∈ full → (∃ k, Some (n :: l) = Some k ∧ name ∈ k) ∨ IsEnvironmentIdentity name = true)
    by (intros name [?|?]%with_identity_in; eauto).
  destruct (String.eqb_spec protocol AgentV3) as [Hp|Hp]; cbn [negb andb].
  { intros [= <-]. by split. }
  destruct (length full =? 0)%nat eqn:Hlen; cbn [negb].
  - intros [= <-]. exfalso. apply Nat.eqb_eq, nil_length_inv in Hlen.
    assert (n ∈ full) as Hf by (apply with_identity_keeps; left). rewrite Hlen in Hf. by apply elem_of_nil in Hf.
  - destruct (selectRemoteVariables [step] resolved) as [selected|]; [|done]. cbn.
    case_bool_decide as Heq; [|done]. intros [= <-]. subst selected.
    split; [by auto|by intros name ?%elem_of_nil].
Qed.

Lemma executor_steps_spec steps index resolved protocol xs :
  executor_steps index steps resolved protocol = Ok xs →
  Forall2 (λ step x, xs_Name x = s_Name step ∧ xs_ScriptBody x = s_ScriptBody step ∧
      remoteClaimVariableNames step resolved protocol = Ok (xs_VariableNames x)) steps xs.
Proof.
  revert index xs. induction steps as [|step steps IH]; intros index xs; cbn [executor_steps].
  - intros [= <-]. constructor.
  - destruct (remoteClaimVariableNames step resolved protocol) as [names|] eqn:E; [|done].
    cbn [mbind result_bind]. destruct (executor_steps (index + 1) steps resolved protocol) as [rest|] eqn:E2; [|done].
    cbn. intros [= <-]. constructor; [done|by eapply IH].
Qed.

(** C31: what a payload reveals. Its variables are, in order, resolved variables
    of the deployment; unless some step names no variables at all, each of them
    is named by a step of the payload or identifies the environment, and every
    named variable is among them. A step's own list never holds another name,
    and an agent that cannot restrict a step is sent no list: the payload is then
    exactly what that step may see. *)
Theorem payload_variables snapshot payload protocol :
  remote_payload snapshot = Ok (payload, protocol) →
  ∃ resolved kept, ResolveDeploymentVariables (ps_Variables snapshot) (ps_Deployment snapshot) = Ok resolved ∧
    kept `sublist_of` resolved ∧ py_Variables payload = secret_snapshot <$> kept ∧
    ((∀ step, step ∈ ps_Steps snapshot → is_Some (named step)) →
       (∀ v, v ∈ kept → (∃ step l, step ∈ ps_Steps snapshot ∧ named step = Some l ∧ r_Name v ∈ l)
                        ∨ IsEnvironmentIdentity (r_Name v) = true) ∧
       ∀ step l name, step ∈ ps_Steps snapshot → named step = Some l → name ∈ l →
         ∃ v, v ∈ kept ∧ r_Name v = name) ∧
    Forall2 (λ step x, xs_Name x = s_Name step ∧
        (∀ name, name ∈ xs_VariableNames x →
           (∃ l, named step = Some l ∧ name ∈ l) ∨ IsEnvironmentIdentity name = true) ∧
        (protocol ≠ AgentV3 → xs_VariableNames x = [] ∧
           (named step = None ∨ selectRemoteVariables [step] kept = Ok kept)))
      (ps_Steps snapshot) (rs_Steps (py_Release payload)).
Proof.
  unfold remote_payload. destruct (_ && _); [done|].
  destruct (ResolveDeploymentVariables _ _) as [resolved|] eqn:Er; [|done]. cbn [mbind result_bind].
  destruct (selectRemoteVariables _ resolved) as [kept|] eqn:Ek; [|done].
  cbn [mbind result_bind].
  match goal with |- context [map_result ?f kept] => destruct (map_result f kept) as [vs|]; [|done] end.
  cbn [mbind result_bind].
  match goal with |- context [match a_AgentProtocol ?a with _ => _ end] =>
    destruct (match a_AgentProtocol a with Some p => ParseProtocolVersion p | None => Ok AgentV1 end) as [pr|]; [|done] end.
  cbn [mbind result_bind].
  destruct (executor_steps 0 _ kept pr) as [xs|] eqn:Ex; [|done]. cbn. intros [= <- <-].
  exists resolved, kept. split; [done|]. cbn [py_Variables py_Release rs_Steps].
  unfold selectRemoteVariables in Ek. destruct (selected_names (ps_Steps snapshot) ∅) as [[names|]|] eqn:En; [| |done].
  - cbn [mbind result_bind] in Ek. destruct (select_variables resolved names) as [k missing] eqn:Es.
    case_bool_decide as Hm; [|done]. injection Ek as ->. subst missing.
    destruct (select_variables_spec _ _ _ _ Es) as (Hsub & Hin & Hmiss).
    destruct (selected_names_spec _ _ _ En) as [Hall Hnames].
    split; [done|]. split; [done|]. split.
    + intros _. split.
      * intros v [Hv|?]%Hin; [|by right]. left. by apply Hnames in Hv as [?%not_elem_of_empty|?].
      * intros step l name Hs Hl Hn. destruct (Hmiss name) as [?%not_elem_of_empty|?]; [|done..].
        apply Hnames. right. eauto.
    + eapply Forall2_impl; [by eapply executor_steps_spec|]. cbn. intros step x (? & _ & Hc).
      destruct (claim_names_spec _ _ _ _ Hc) as [H1 H2]. by split_and!.
  - cbn in Ek. injection Ek as ->. split; [done|]. split; [done|]. split.
    + intros Hall. exfalso. destruct (selected_names_all _ _ En) as (step & Hs & Hn).
      destruct (Hall step Hs). congruence.
    + eapply Forall2_impl; [by eapply executor_steps_spec|]. cbn. intros step x (? & _ & Hc).
      destruct (claim_names_spec _ _ _ _ Hc) as [H1 H2]. by split_and!.
Qed.
End payload.

(** A step that names one of two variables, for an agent that can restrict it. *)
Definition sample_snapshot : RemotePayloadSnapshot :=
  mkPayloadSnapshot None false step_agent local_deployment (mkRelease 1 1 "1.0.0" "[]" 0 "release")
    (mkEnvironment "production" 0 "" "" 30)
    [mkStep 5 0 None "deploy" "echo" 0 0 "agent" 900 "bash" "" "TOKEN" "none" "" "" "" "host" "script" ""]
    [mkReleaseVariable 1 1 "APP" (Some "shop") None 0 0; mkReleaseVariable 2 1 "TOKEN" (Some "hunter2") None 0 1]
    ["bash"] ["host"] [] [] "".

Lemma payload_variables_witness :
  ∃ payload, remote_payload sample_snapshot = Ok (payload, "agent/3") ∧
    (vs_Name <$> py_Variables payload) = ["TOKEN"; "DURPDEPLOY_ENVIRONMENT_NAME"; "DURPDEPLOY_ENVIRONMENT_ID"] ∧
    ∃ resolved kept : list ResolvedVariable, kept `sublist_of` resolved ∧
      py_Variables payload = secret_snapshot <$> kept.
Proof.
  destruct (remote_payload sample_snapshot) as [[payload protocol]|e] eqn:E; [|vm_compute in E; discriminate E].
  destruct (payload_variables sample_snapshot payload protocol E) as (resolved & kept & _ & Hsub & Hvars & _).
  exists payload. split; [vm_compute in E; injection E as _ <-; reflexivity|].
  split; [vm_compute in E; injection E as <- _; reflexivity|].
  exists resolved, kept. split; [exact Hsub|exact Hvars].
Defined.
