(* ===== verification/StagingTransfers.v ===== *)
(** * StagingTransfers: admission and timing of staging transfers (staging_transfer.go)

    Uploads and downloads of staged files are admitted within a global budget
    and a budget per agent, and the time during which at least one transfer of a
    run is under way is not charged to the run's timeout. The mutex makes each of
    the functions below one step; a transfer is admitted, begins, finishes and is
    released in four steps, between which those of other requests may come, and
    [ClearStagingTransfers] may drop a run's entry while requests still hold it:
    entries are references. *)
From S2P Require Import Prelude.

(** The primary key of a staging snapshot: deployment, step, producer. *)
Definition transfer_key : Type := Z * Z * string.

Record stagingTransfer := mkTransfer {
  tr_active : Z;
  tr_started : Z;
  tr_elapsed : Z }.

(** [runs]: a map to pointers; [objects]: what they point to. *)
Record stagingTransferState := mkTransferState {
  ts_runs : gmap transfer_key nat;
  ts_objects : gmap nat stagingTransfer;
  ts_admitted : gmap string Z;
  ts_active : Z }.

Definition no_transfers : stagingTransferState := mkTransferState ∅ ∅ ∅ 0.

Record TransferLimits := mkTransferLimits {
  tl_PerAgent : Z;
  tl_Global : Z }.

(** A Go map's zero value. *)
Definition admitted_of (st : stagingTransferState) (producer : string) : Z :=
  default 0 (ts_admitted st !! producer).

Section transfers.
Implicit Types (st : stagingTransferState) (key : transfer_key) (now : Z).

(** The first critical section of TryBeginStagingTransfer. *)
Definition reserve (limits : TransferLimits) key st : option stagingTransferState :=
  if (tl_PerAgent limits <=? admitted_of st key.2) || (tl_Global limits <=? ts_active st) then None
  else Some (mkTransferState (ts_runs st) (ts_objects st)
    (<[key.2 := admitted_of st key.2 + 1]> (ts_admitted st)) (ts_active st + 1)).

(** [&stagingTransfer{}] *)
Definition fresh_transfer st : nat := fresh (dom (ts_objects st)).

(** The entry of a run, created when it is missing. *)
Definition transfer_of key st : nat * stagingTransferState :=
  match ts_runs st !! key with
  | Some ref => (ref, st)
  | None =>
      let ref := fresh_transfer st in
      (ref, mkTransferState (<[key := ref]> (ts_runs st)) (<[ref := mkTransfer 0 0 0]> (ts_objects st))
              (ts_admitted st) (ts_active st))
  end.

Definition update_transfer (ref : nat) (f : stagingTransfer → stagingTransfer) st : stagingTransferState :=
  mkTransferState (ts_runs st) (alter f ref (ts_objects st)) (ts_admitted st) (ts_active st).

Definition start_transfer now (tr : stagingTransfer) : stagingTransfer :=
  mkTransfer (tr_active tr + 1) (if Z.eqb (tr_active tr) 0 then now else tr_started tr) (tr_elapsed tr).

Definition finish_transfer now (tr : stagingTransfer) : stagingTransfer :=
  mkTransfer (tr_active tr - 1) (tr_started tr)
    (if Z.eqb (tr_active tr - 1) 0 then tr_elapsed tr + (now - tr_started tr) else tr_elapsed tr).

(** The function it returns is [finish_staging_transfer] of the reference. *)
Definition BeginStagingTransfer key now st : nat * stagingTransferState :=
  let '(ref, st) := transfer_of key st in (ref, update_transfer ref (start_transfer now) st).

Definition finish_staging_transfer (ref : nat) now st : stagingTransferState :=
  update_transfer ref (finish_transfer now) st.

(** The critical section at the end of an admitted transfer. *)
Definition release_admission key st : stagingTransferState :=
  let left := admitted_of st key.2 - 1 in
  mkTransferState (ts_runs st) (ts_objects st)
    (if Z.eqb left 0 then delete key.2 (ts_admitted st) else <[key.2 := left]> (ts_admitted st))
    (ts_active st - 1).

(** Without interruption. *)
Definition TryBeginStagingTransfer (limits : TransferLimits) key now st : option nat * stagingTransferState :=
  match reserve limits key st with
  | None => (None, st)
  | Some st => let '(ref, st) := BeginStagingTransfer key now st in (Some ref, st)
  end.

Definition StagingTransferDuration key now st : Z :=
  match ts_runs st !! key with
  | None => 0
  | Some ref =>
      match ts_objects st !! ref with
      | None => 0
      | Some tr => tr_elapsed tr + (if 0 <? tr_active tr then Z.max 0 (now - tr_started tr) else 0)
      end
  end.

Definition ClearStagingTransfers (deployment step : Z) st : stagingTransferState :=
  mkTransferState (filter (λ kr : transfer_key * nat, kr.1.1 ≠ (deployment, step)) (ts_runs st))
    (ts_objects st) (ts_admitted st) (ts_active st).
End transfers.

(** ** Interleavings of requests

    Every request is in one of three phases; [sync.Once] makes the completion of
    a request happen once. *)
Inductive phase :=
  | Reserved (key : transfer_key)
  | Transferring (key : transfer_key) (ref : nat)
  | Finished (key : transfer_key).

Definition phase_key (p : phase) : transfer_key :=
  match p with Reserved k | Transferring k _ | Finished k => k end.

Record transfer_system := mkSystem {
  sy_state : stagingTransferState;
  sy_requests : gmap nat phase }.

Section steps.
Context (limits : TransferLimits).

Inductive transfer_step (now : Z) : transfer_system → transfer_system → Prop :=
  | tr_admit st st' requests i key :
      requests !! i = None → reserve limits key st = Some st' →
      transfer_step now (mkSystem st requests) (mkSystem st' (<[i := Reserved key]> requests))
  | tr_begin st requests i key ref st' :
      requests !! i = Some (Reserved key) → BeginStagingTransfer key now st = (ref, st') →
      transfer_step now (mkSystem st requests) (mkSystem st' (<[i := Transferring key ref]> requests))
  | tr_finish st requests i key ref :
      requests !! i = Some (Transferring key ref) →
      transfer_step now (mkSystem st requests)
        (mkSystem (finish_staging_transfer ref now st) (<[i := Finished key]> requests))
  | tr_release st requests i key :
      requests !! i = Some (Finished key) →
      transfer_step now (mkSystem st requests) (mkSystem (release_admission key st) (delete i requests))
  | tr_clear st requests deployment step :
      transfer_step now (mkSystem st requests)
        (mkSystem (ClearStagingTransfers deployment step st) requests).
End steps.

(** ** Counting requests *)
Section counting.
Implicit Types (requests : gmap nat phase) (f : phase → bool).

Definition requests_of f requests : Z := Z.of_nat (size (filter (λ ip : nat * phase, f ip.2 = true) requests)).

Lemma requests_of_new f requests i p :
  requests !! i = None →
  requests_of f (<[i := p]> requests) = requests_of f requests + (if f p then 1 else 0).
Proof.
  intros Hi. unfold requests_of. destruct (f p) eqn:Hp.
  - rewrite map_filter_insert_True by done. rewrite map_size_insert_None; [lia|].
    apply map_lookup_filter_None. by left.
  - rewrite map_filter_insert_not' by (cbn; congruence). lia.
Qed.

Lemma requests_of_delete f requests i p :
  requests !! i = Some p →
  requests_of f (delete i requests) = requests_of f requests - (if f p then 1 else 0).
Proof.
  intros Hi. rewrite <-(insert_delete_id requests i p Hi) at 2.
  rewrite requests_of_new; [lia|apply lookup_delete_eq].
Qed.

Lemma requests_of_change f requests i p q :
  requests !! i = Some p →
  requests_of f (<[i := q]> requests) =
    requests_of f requests - (if f p then 1 else 0) + (if f q then 1 else 0).
Proof.
  intros Hi. rewrite <-insert_delete_eq. rewrite requests_of_new by apply lookup_delete_eq.
  by rewrite (requests_of_delete f requests i p).
Qed.

Lemma requests_of_pos f requests i p : requests !! i = Some p → f p = true → 0 < requests_of f requests.
Proof.
  intros Hi Hp. pose proof (requests_of_delete f requests i p Hi) as Hd. rewrite Hp in Hd.
  unfold requests_of in *. lia.
Qed.
End counting.

Definition by_producer (producer : string) (p : phase) : bool := String.eqb (phase_key p).2 producer.
Definition on_entry (ref : nat) (p : phase) : bool :=
  match p with Transferring _ r => Nat.eqb r ref | _ => false end.

(** ** The budgets *)
Section budgets.
Context (limits : TransferLimits).

Record within_budget (sys : transfer_system) : Prop := {
  wb_active : ts_active (sy_state sys) = requests_of (λ _, true) (sy_requests sys);
  wb_admitted : ∀ producer, admitted_of (sy_state sys) producer = requests_of (by_producer producer) (sy_requests sys);
  wb_entries : ∀ producer n, ts_admitted (sy_state sys) !! producer = Some n → 0 < n;
  wb_global : ts_active (sy_state sys) ≤ Z.max 0 (tl_Global limits);
  wb_agent : ∀ producer, admitted_of (sy_state sys) producer ≤ Z.max 0 (tl_PerAgent limits) }.

Lemma transfer_step_budget now sys sys' :
  transfer_step limits now sys sys' → within_budget sys → within_budget sys'.
Proof.
  destruct 1 as [st st' requests i key Hi Hadm|st requests i key ref st' Hi Hb|st requests i key ref Hi
    |st requests i key Hi|st requests d step]; intros [Ha Hp He Hg Hl]; cbn in *.
  - unfold reserve in Hadm. destruct (_ || _) eqn:Hfull; [done|]. injection Hadm as <-.
    apply orb_false_iff in Hfull as [F1%Z.leb_gt F2%Z.leb_gt].
    assert (Hcount : ∀ producer, admitted_of (mkTransferState (ts_runs st) (ts_objects st)
      (<[key.2:=admitted_of st key.2 + 1]> (ts_admitted st)) (ts_active st + 1)) producer =
      admitted_of st producer + (if String.eqb key.2 producer then 1 else 0)).
    { intros producer. unfold admitted_of. cbn. destruct (String.eqb_spec key.2 producer) as [<-|Hne].
      - by rewrite lookup_insert_eq.
      - rewrite lookup_insert_ne by done. lia. }
    split; cbn [sy_state sy_requests ts_active].
    + rewrite requests_of_new by done. lia.
    + intros producer. rewrite Hcount, requests_of_new, Hp by done. done.
    + intros producer n. cbn. intros [[<- <-]|[_ Hn]]%lookup_insert_Some; [|by eapply He].
      rewrite Hp. unfold requests_of. lia.
    + lia.
    + intros producer. rewrite Hcount. specialize (Hl producer).
      destruct (String.eqb_spec key.2 producer) as [<-|]; lia.
  - unfold BeginStagingTransfer, transfer_of in Hb.
    destruct (ts_runs st !! key); injection Hb as <- <-; split; cbn; try done;
      try (rewrite (requests_of_change _ _ _ (Reserved key)) by done; lia);
      intros producer; rewrite (requests_of_change _ _ _ (Reserved key)) by done;
      unfold by_producer at 2 3; cbn [phase_key]; specialize (Hp producer); unfold admitted_of in *; cbn; lia.
  - split; cbn; try done; try (rewrite (requests_of_change _ _ _ (Transferring key ref)) by done; lia).
    intros producer; rewrite (requests_of_change _ _ _ (Transferring key ref)) by done.
    unfold by_producer at 2 3; cbn [phase_key]; specialize (Hp producer); unfold admitted_of in *; cbn; lia.
  - assert (Hcount : ∀ producer, admitted_of (release_admission key st) producer =
      admitted_of st producer - (if String.eqb key.2 producer then 1 else 0)).
    { intros producer. unfold release_admission, admitted_of. cbn.
      destruct (Z.eqb_spec (default 0 (ts_admitted st !! key.2) - 1) 0) as [Hz|Hz];
        destruct (String.eqb_spec key.2 producer) as [<-|Hne].
      - rewrite lookup_delete_eq. cbn. lia.
      - rewrite lookup_delete_ne by done. lia.
      - by rewrite lookup_insert_eq.
      - rewrite lookup_insert_ne by done. lia. }
    assert (Hpos : 0 < admitted_of st key.2).
    { rewrite Hp. eapply requests_of_pos; [exact Hi|]. unfold by_producer. cbn. apply String.eqb_refl. }
    split; cbn [sy_state sy_requests].
    + cbn. rewrite (requests_of_delete _ _ _ _ Hi). lia.
    + intros producer. rewrite Hcount, (requests_of_delete _ _ _ _ Hi), Hp. done.
    + intros producer n. unfold release_admission. cbn.
      destruct (Z.eqb_spec (admitted_of st key.2 - 1) 0) as [Hz|Hz].
      * intros [_ Hn]%lookup_delete_Some. by eapply He.
      * intros [[<- <-]|[_ Hn]]%lookup_insert_Some; [lia|by eapply He].
    + cbn. lia.
    + intros producer. rewrite Hcount. specialize (Hl producer). destruct (String.eqb _ _); lia.
  - by split.
Qed.
End budgets.

(** ** Time

    A history of steps at times that do not go back, with the time during which
    each entry had a transfer under way. *)
Section time.
Context (limits : TransferLimits).

Definition busy (sys : transfer_system) (ref : nat) : bool := 0 <? requests_of (on_entry ref) (sy_requests sys).

Inductive transfer_history : Z → transfer_system → (nat → Z) → Prop :=
  | th_start now : transfer_history now (mkSystem no_transfers ∅) (λ _, 0)
  | th_wait now later sys spent :
      transfer_history now sys spent → now ≤ later →
      transfer_history later sys (λ ref, spent ref + (if busy sys ref then later - now else 0))
  | th_step now sys sys' spent :
      transfer_history now sys spent → transfer_step limits now sys sys' → transfer_history now sys' spent.

Record timed (now : Z) (sys : transfer_system) (spent : nat → Z) : Prop := {
  tm_entries : ∀ key ref, ts_runs (sy_state sys) !! key = Some ref → is_Some (ts_objects (sy_state sys) !! ref);
  tm_requests : ∀ i key ref, sy_requests sys !! i = Some (Transferring key ref) →
    is_Some (ts_objects (sy_state sys) !! ref);
  tm_new : ∀ ref, ts_objects (sy_state sys) !! ref = None → spent ref = 0;
  tm_object : ∀ ref tr, ts_objects (sy_state sys) !! ref = Some tr →
    tr_active tr = requests_of (on_entry ref) (sy_requests sys) ∧
    (0 < tr_active tr → tr_started tr ≤ now) ∧
    tr_elapsed tr + (if 0 <? tr_active tr then now - tr_started tr else 0) = spent ref }.

Lemma idle_requests sys spent now ref :
  timed now sys spent → ts_objects (sy_state sys) !! ref = None → requests_of (on_entry ref) (sy_requests sys) = 0.
Proof.
  intros [_ Hr _ _] Hnone. unfold requests_of.
  rewrite map_empty_filter_2; [by rewrite map_size_empty|].
  intros i p Hi. cbn. destruct p as [k|k r|k]; [done| |done]. cbn. intros ->%Nat.eqb_eq.
  destruct (Hr i k ref Hi). congruence.
Qed.

Lemma timed_wait now later sys spent :
  timed now sys spent → now ≤ later →
  timed later sys (λ ref, spent ref + (if busy sys ref then later - now else 0)).
Proof.
  intros Ht Hle. pose proof (idle_requests sys spent now) as Hidle. destruct Ht as [He Hr Hn Ho].
  split; [done..| |].
  - intros ref Hnone. rewrite Hn by done. unfold busy. rewrite Hidle by done. done.
  - intros ref tr Htr. destruct (Ho ref tr Htr) as (Ha & Hs & Hsum). unfold busy. rewrite <-Ha.
    split; [done|]. destruct (Z.ltb_spec 0 (tr_active tr)) as [Hpos|Hz]; [specialize (Hs Hpos)|]; split; lia.
Qed.

Lemma timed_begin now st requests i key spent ref st' :
  timed now (mkSystem st requests) spent → requests !! i = Some (Reserved key) →
  BeginStagingTransfer key now st = (ref, st') →
  timed now (mkSystem st' (<[i := Transferring key ref]> requests)) spent.
Proof.
  intros Ht Hi Hb. unfold BeginStagingTransfer in Hb. destruct (transfer_of key st) as [ref0 st0] eqn:Et.
  injection Hb as <- <-.
  assert (Ht0 : timed now (mkSystem st0 requests) spent ∧ is_Some (ts_objects st0 !! ref0)).
  { unfold transfer_of in Et. destruct (ts_runs st !! key) as [r|] eqn:Hk.
    { injection Et as <- <-. split; [done|]. by apply (tm_entries _ _ _ Ht key). }
    injection Et as <- <-. assert (Hfresh : ts_objects st !! fresh_transfer st = None).
    { apply not_elem_of_dom. unfold fresh_transfer. apply is_fresh. }
    pose proof (idle_requests _ _ _ _ Ht Hfresh) as Hidle. cbn in Hidle.
    destruct Ht as [He Hr Hn Ho]. split; [|cbn; rewrite lookup_insert_eq; by eexists].
    split; cbn in *.
    - intros k r [[<- <-]|[_ Hr']]%lookup_insert_Some; [rewrite lookup_insert_eq; by eexists|].
      destruct (decide (fresh_transfer st = r)) as [<-|]; [rewrite lookup_insert_eq; by eexists|].
      rewrite lookup_insert_ne by done. eauto.
    - intros j k r Hj. destruct (decide (fresh_transfer st = r)) as [<-|]; [rewrite lookup_insert_eq; by eexists|].
      rewrite lookup_insert_ne by done. eauto.
    - intros r [? ?]%lookup_insert_None. auto.
    - intros r tr [[<- <-]|[_ Hr']]%lookup_insert_Some; [|eauto]. cbn. rewrite Hidle, Hn by done. done. }
  destruct Ht0 as [[He Hr Hn Ho] [tr0 Htr0]]. cbn in *. split; cbn.
  - intros k r Hk. rewrite lookup_alter_is_Some. eauto.
  - intros j k r. rewrite lookup_alter_is_Some. intros [[_ [= <- <-]]|[_ Hj]]%lookup_insert_Some; [by eexists|eauto].
  - intros r Hnone. apply Hn. destruct (decide (ref0 = r)) as [<-|]; [|by rewrite lookup_alter_ne in Hnone].
    by rewrite lookup_alter_eq, Htr0 in Hnone.
  - intros r tr. rewrite (requests_of_change _ _ _ (Reserved key)) by done. cbn [on_entry].
    destruct (decide (ref0 = r)) as [<-|Hne].
    + rewrite lookup_alter_eq, Htr0. intros [= <-]. rewrite Nat.eqb_refl. cbn.
      destruct (Ho ref0 tr0 Htr0) as (Ha & Hs & Hsum).
      assert (0 ≤ tr_active tr0) by (rewrite Ha; unfold requests_of; lia).
      split; [lia|]. destruct (Z.eqb_spec (tr_active tr0) 0) as [Hz|Hz].
      * destruct (Z.ltb_spec 0 (tr_active tr0)), (Z.ltb_spec 0 (tr_active tr0 + 1)); try lia.
      * destruct (Z.ltb_spec 0 (tr_active tr0)), (Z.ltb_spec 0 (tr_active tr0 + 1)); try lia.
    + rewrite lookup_alter_ne by done. intros Htr. destruct (Ho r tr Htr) as (Ha & Hs & Hsum).
      destruct (Nat.eqb_spec ref0 r); [done|]. split; [lia|done].
Qed.

Lemma timed_finish now st requests i key spent ref :
  timed now (mkSystem st requests) spent → requests !! i = Some (Transferring key ref) →
  timed now (mkSystem (finish_staging_transfer ref now st) (<[i := Finished key]> requests)) spent.
Proof.
  intros [He Hr Hn Ho] Hi. cbn in *. destruct (Hr i key ref Hi) as [tr0 Htr0]. split; cbn.
  - intros k r Hk. rewrite lookup_alter_is_Some. eauto.
  - intros j k r. rewrite lookup_alter_is_Some. intros [[_ [=]]|[_ Hj]]%lookup_insert_Some. eauto.
  - intros r Hnone. apply Hn. destruct (decide (ref = r)) as [<-|]; [|by rewrite lookup_alter_ne in Hnone].
    by rewrite lookup_alter_eq, Htr0 in Hnone.
  - intros r tr. rewrite (requests_of_change _ _ _ (Transferring key ref)) by done. cbn [on_entry].
    destruct (decide (ref = r)) as [<-|Hne].
    + rewrite lookup_alter_eq, Htr0. intros [= <-]. rewrite Nat.eqb_refl. cbn.
      destruct (Ho ref tr0 Htr0) as (Ha & Hs & Hsum).
      assert (Hpos : 0 < tr_active tr0).
      { rewrite Ha. eapply requests_of_pos; [exact Hi|]. cbn. apply Nat.eqb_refl. }
      split; [lia|]. specialize (Hs Hpos). destruct (Z.ltb_spec 0 (tr_active tr0)); [|lia].
      destruct (Z.eqb_spec (tr_active tr0 - 1) 0), (Z.ltb_spec 0 (tr_active tr0 - 1)); try lia; split; lia.
    + rewrite lookup_alter_ne by done. intros Htr. destruct (Ho r tr Htr) as (Ha & Hs & Hsum).
      destruct (Nat.eqb_spec ref r); [done|]. split; [lia|done].
Qed.

Lemma timed_step now sys sys' spent :
  transfer_step limits now sys sys' → timed now sys spent → timed now sys' spent.
Proof.
  destruct 1 as [st st' requests i key Hi Hadm|st requests i key ref st' Hi Hb|st requests i key ref Hi
    |st requests i key Hi|st requests d step]; intros Ht.
  - unfold reserve in Hadm. destruct (_ || _); [done|]. injection Hadm as <-.
    destruct Ht as [He Hr Hn Ho]. split; cbn in *; [done| |done|].
    + intros j k r [[_ [=]]|[_ Hj]]%lookup_insert_Some. eauto.
    + intros r tr Htr. rewrite requests_of_new by done. cbn. rewrite Z.add_0_r. auto.
  - by eapply timed_begin.
  - by eapply timed_finish.
  - destruct Ht as [He Hr Hn Ho]. split; cbn in *; [done| |done|].
    + intros j k r [_ Hj]%lookup_delete_Some. eauto.
    + intros r tr Htr. rewrite (requests_of_delete _ _ _ _ Hi). cbn. rewrite Z.sub_0_r. auto.
  - destruct Ht as [He Hr Hn Ho]. split; cbn in *; [|done..].
    intros k r [Hk _]%map_lookup_filter_Some. eauto.
Qed.

Lemma history_timed now sys spent : transfer_history now sys spent → timed now sys spent.
Proof.
  induction 1 as [now|now later sys spent _ IH Hle|now sys sys' spent _ IH Hstep].
  - split; cbn; [by intros ??|by intros ???|done|by intros ??].
  - by apply timed_wait.
  - by eapply timed_step.
Qed.

Lemma history_budget now sys spent : transfer_history now sys spent → within_budget limits sys.
Proof.
  induction 1 as [now|now later sys spent _ IH _|now sys sys' spent _ IH Hstep]; [|done|by eapply transfer_step_budget].
  split; cbn; [done| |by intros ??|lia|]; intros producer; unfold admitted_of; cbn; rewrite lookup_empty; cbn; [done|lia].
Qed.
End time.

(** ** What admission and timing promise *)
Section promises.
Context (limits : TransferLimits).

(** C39: however requests interleave, and whatever entries are cleared while they
    run, the transfers in progress never exceed the global budget or an agent's
    budget, every one of them is counted exactly once until it is released, and
    an agent without transfers has no entry. The time that the runner takes off
    a run's timeout is the time during which at least one transfer of the run's
    entry was under way: concurrent requests are not counted twice. *)
Theorem transfers_bounded_and_timed now sys spent :
  transfer_history limits now sys spent →
  ts_active (sy_state sys) = Z.of_nat (size (sy_requests sys)) ∧
  ts_active (sy_state sys) ≤ Z.max 0 (tl_Global limits) ∧
  (∀ producer, admitted_of (sy_state sys) producer = requests_of (by_producer producer) (sy_requests sys) ∧
     admitted_of (sy_state sys) producer ≤ Z.max 0 (tl_PerAgent limits) ∧
     (ts_admitted (sy_state sys) !! producer = None ↔ requests_of (by_producer producer) (sy_requests sys) = 0)) ∧
  ∀ key ref, ts_runs (sy_state sys) !! key = Some ref →
    StagingTransferDuration key now (sy_state sys) = spent ref.
Proof.
  intros Hh. destruct (history_budget _ _ _ _ Hh) as [Ha Hp He Hg Hl].
  destruct (history_timed _ _ _ _ Hh) as [Hent _ _ Ho]. split; [|split; [done|split]].
  - rewrite Ha. unfold requests_of. by rewrite map_filter_id.
  - intros producer. split; [done|]. split; [done|]. rewrite <-Hp. unfold admitted_of. split; [by intros ->|].
    destruct (ts_admitted (sy_state sys) !! producer) as [n|] eqn:E; [|done]. cbn.
    specialize (He producer n E). lia.
  - intros key ref Hk. unfold StagingTransferDuration. rewrite Hk.
    destruct (Hent key ref Hk) as [tr Htr]. rewrite Htr. destruct (Ho ref tr Htr) as (_ & Hs & <-).
    destruct (Z.ltb_spec 0 (tr_active tr)) as [Hpos|]; [|lia]. specialize (Hs Hpos). lia.
Qed.
End promises.

(** Two overlapping uploads for one run: from 0 to 15, and from 10 on. *)
Definition upload_key : transfer_key := (5, 0, "agent-1").

Lemma transfers_bounded_and_timed_witness :
  ∃ sys spent, transfer_history (mkTransferLimits 2 3) 20 sys spent ∧
    ts_active (sy_state sys) = 2 ∧ StagingTransferDuration upload_key 20 (sy_state sys) = 20.
Proof.
  pose (l := mkTransferLimits 2 3).
  assert (H0 : ∃ sys spent, transfer_history l 20 sys spent ∧ ts_runs (sy_state sys) !! upload_key = Some 0%nat ∧
    size (sy_requests sys) = 2%nat ∧ spent 0%nat = 20).
  { pose proof (th_start l 0) as Hh.
    eapply (th_step l 0) in Hh; [|eapply (tr_admit l 0 _ _ _ 1%nat upload_key); [reflexivity|reflexivity]].
    eapply (th_step l 0) in Hh; [|eapply (tr_begin l 0 _ _ 1%nat upload_key); [reflexivity|reflexivity]].
    apply (th_wait l 0 10) in Hh; [|lia].
    eapply (th_step l 10) in Hh; [|eapply (tr_admit l 10 _ _ _ 2%nat upload_key); [reflexivity|reflexivity]].
    eapply (th_step l 10) in Hh; [|eapply (tr_begin l 10 _ _ 2%nat upload_key); [reflexivity|reflexivity]].
    apply (th_wait l 10 15) in Hh; [|lia].
    eapply (th_step l 15) in Hh; [|eapply (tr_finish l 15 _ _ 1%nat upload_key); reflexivity].
    apply (th_wait l 15 20) in Hh; [|lia].
    eexists _, _. split; [exact Hh|]. split; [reflexivity|]. split; [reflexivity|]. vm_compute. reflexivity. }
  destruct H0 as (sys & spent & Hh & Hk & Hsize & Hs). exists sys, spent. split; [exact Hh|].
  destruct (transfers_bounded_and_timed l 20 sys spent Hh) as (Ha & _ & _ & Hd).
  split; [rewrite Ha, Hsize; reflexivity|]. rewrite (Hd upload_key 0%nat Hk). exact Hs.
Defined.
