(* ===== verification/LogWriter.v ===== *)
(** * LogWriter: the output of a step as log lines (internal/runner/log_writer.go)

    Output is buffered, and what no secret can still be waiting in is redacted
    and stored line by line. Broadcasting a stored line to subscribers and the
    cancellation of the attempt on overflow are not modelled. *)
From S2P Require Import Prelude Text Db Tx QueueQueries QueueSafety LogScrub RemoteSteps RemoteLogs.

Definition newline : Ascii.ascii := Ascii.ascii_of_nat 10.
Definition newline_text : string := String newline EmptyString.

(** [bytes.LastIndexByte] *)
Fixpoint last_index (b : Ascii.ascii) (text : string) : option nat :=
  match text with
  | EmptyString => None
  | String c rest =>
      match last_index b rest with
      | Some i => Some (S i)
      | None => if Ascii.eqb c b then Some 0%nat else None
      end
  end.

(** The mutable fields. *)
Record broadcastWriter := mkWriter {
  w_buf : string;
  w_outputFailed : bool }.

Definition errPendingLogLimit : string := "pending log output exceeded safety limit".

Section writer.
Context (order : gmap nat nat → list (nat * nat)).
Context (deploymentID : Z) (stepName : string) (stepIndex : option Z) (scrubber : option Scrubber).
(** ResourceLimits().Logs.PendingBytes *)
Context (limit : Z).

Definition writeLine (line state : string) (s : DB) : result unit * DB :=
  match Repository_CreateStepDeploymentLog deploymentID (Some stepName) line stepIndex
          (if String.eqb state "" then None else Some state) s with
  | (Ok _, s') => (Ok tt, s')
  | (Err e, s') => (Err e, s')
  end.

Definition state (state : string) : DB → result unit * DB :=
  writeLine ("Step " +:+ state +:+ ".") state.

(** The loop over the lines; an error drops those that are left. *)
Fixpoint write_lines (lines : list string) (s : DB) : result unit * DB :=
  match lines with
  | [] => (Ok tt, s)
  | line :: lines =>
      match writeLine line "" s with
      | (Ok _, s') => write_lines lines s'
      | (Err e, s') => (Err e, s')
      end
  end.

(** The loop over newlines, from the last safe one backwards. *)
Fixpoint release_point (fuel : nat) (data : string) (lastNL : nat) : option nat :=
  match fuel with
  | 0%nat => None
  | S fuel =>
      let released := prefix_of (S lastNL) data in
      match PendingBytes order scrubber released with
      | 0%nat => Some lastNL
      | pending =>
          match last_index newline (prefix_of (S lastNL - pending) data) with
          | None => None
          | Some lastNL => release_point fuel data lastNL
          end
      end
  end.

Definition released_lines (chunk : string) : list string :=
  split_on newline (TrimSuffix (Scrubber_Scrub scrubber chunk) newline_text).

(** The bytes accepted, the error, the writer, the store. *)
Definition Write (p : string) (w : broadcastWriter) (s : DB)
    : (Z * option error) * broadcastWriter * DB :=
  if w_outputFailed w then ((0, Some (ErrOther errPendingLogLimit)), w, s)
  else if limit - Z.of_nat (String.length (w_buf w)) <? Z.of_nat (String.length p) then
    let w := mkWriter EmptyString true in
    let '(_, s) := writeLine errPendingLogLimit "" s in
    ((0, Some (ErrOther errPendingLogLimit)), w, s)
  else
    let data := w_buf w +:+ p in
    let accepted := Z.of_nat (String.length p) in
    let safeEnd := (String.length data - PendingBytes order scrubber data)%nat in
    match last_index newline (prefix_of safeEnd data) with
    | None => ((accepted, None), mkWriter data false, s)
    | Some lastNL =>
        match release_point (S (String.length data)) data lastNL with
        | None => ((accepted, None), mkWriter data false, s)
        | Some lastNL =>
            let w := mkWriter (suffix_from (S lastNL) data) false in
            let '(r, s) := write_lines (released_lines (prefix_of (S lastNL) data)) s in
            ((accepted, match r with Ok _ => None | Err e => Some e end), w, s)
        end
    end.

(** An error is logged only. *)
Definition Flush (w : broadcastWriter) (s : DB) : broadcastWriter * DB :=
  if w_outputFailed w then (w, s)
  else if String.eqb (w_buf w) "" then (w, s)
  else
    let '(_, s) := writeLine (Scrubber_Scrub scrubber (w_buf w)) "" s in
    (mkWriter EmptyString false, s).

(** The state that a step's outcome is logged as. *)
Definition finish_state (cleanup : bool) (failed cancelled : bool) : string :=
  if cleanup then "failed" else if cancelled then "cancelled" else if failed then "failed" else "succeeded".

Definition finishState (cleanup failed cancelled : bool) (s : DB) : DB :=
  (state (finish_state cleanup failed cancelled) s).2.

(** Several calls of Write, as a process makes them. *)
Fixpoint write_all (outputs : list string) (w : broadcastWriter) (s : DB) : broadcastWriter * DB :=
  match outputs with
  | [] => (w, s)
  | p :: outputs => let '(_, w, s) := Write p w s in write_all outputs w s
  end.

(** ** Lines are stored one after the other *)

Definition stored_lines (s : DB) : list string := l_Line <$> db_logs s.

Lemma writeLine_stored line st s :
  not_null (db_step_sources s !! deploymentID) = true →
  ∃ s', writeLine line st s = (Ok tt, s') ∧ stored_lines s' = stored_lines s ++ [line] ∧
    db_step_sources s' = db_step_sources s.
Proof.
  intros Hd. unfold writeLine, Repository_CreateStepDeploymentLog, withDeploymentLogTx, WithTx,
    LockDeploymentLogStream, mbind, tx_bind, read. rewrite Hd. cbn.
  eexists. split; [done|]. split; [|done]. unfold stored_lines. cbn. by rewrite fmap_app.
Qed.

Lemma write_lines_stored lines s :
  not_null (db_step_sources s !! deploymentID) = true →
  ∃ s', write_lines lines s = (Ok tt, s') ∧ stored_lines s' = stored_lines s ++ lines ∧
    db_step_sources s' = db_step_sources s.
Proof.
  revert s. induction lines as [|line lines IH]; intros s Hd; [exists s; by rewrite app_nil_r|].
  destruct (writeLine_stored line "" s Hd) as (s1 & E & Hl & Hs). cbn. rewrite E.
  destruct (IH s1) as (s2 & E2 & Hl2 & Hs2); [by rewrite Hs|].
  exists s2. split; [done|]. split; [|congruence]. by rewrite Hl2, Hl, <-(assoc_L (++)).
Qed.
End writer.
