(* ===== verification/LogWriterTheorems.v ===== *)
(** * LogWriterTheorems: output reaches the log, and no chunk is cut in a secret *)
From S2P Require Import Prelude Text Db Tx QueueQueries LogScrub RemoteSteps RemoteLogs LogWriter QueueTheorems LogScrubTheorems.

(** ** Prefixes that end in a newline *)

Lemma string_app_empty p : p +:+ "" = p.
Proof. induction p as [|c p IH]; [done|]. change (String c (p +:+ "") = String c p). by rewrite IH. Qed.

Definition ends_line (p : string) : Prop := ∃ q, p = q +:+ newline_text.

Lemma prefix_S c n rest : prefix_of (S n) (String c rest) = String c (prefix_of n rest).
Proof. unfold prefix_of, slice_of. by rewrite !Nat.sub_0_r. Qed.

Lemma prefix_0 p : prefix_of 0 p = "".
Proof. by destruct p. Qed.

Lemma prefix_length n p : (String.length (prefix_of n p) ≤ n)%nat.
Proof.
  revert p. induction n as [|n IH]; intros p; [by rewrite prefix_0|].
  destruct p as [|c p]; [cbn; lia|]. rewrite prefix_S. cbn. specialize (IH p). lia.
Qed.

Lemma prefix_prefix n m p : (n ≤ m)%nat → prefix_of n (prefix_of m p) = prefix_of n p.
Proof.
  revert n p. induction m as [|m IH]; intros n p Hle.
  - assert (n = 0%nat) as -> by lia. by rewrite !prefix_0.
  - destruct n as [|n]; [by rewrite !prefix_0|]. destruct p as [|c p]; [done|].
    rewrite !prefix_S, IH by lia. done.
Qed.

Lemma prefix_suffix n p : prefix_of n p +:+ suffix_from n p = p.
Proof.
  revert p. induction n as [|n IH]; intros p.
  - rewrite prefix_0. unfold suffix_from, slice_of. rewrite Nat.sub_0_r. apply substring_whole.
  - destruct p as [|c p]; [done|]. rewrite prefix_S.
    change (String c (prefix_of n p +:+ suffix_from n p) = String c p). by rewrite IH.
Qed.

Lemma last_index_spec b p i :
  last_index b p = Some i → (i < String.length p)%nat ∧ prefix_of (S i) p = prefix_of i p +:+ String b "".
Proof.
  revert i. induction p as [|c p IH]; intros i; cbn [last_index String.length]; [done|].
  destruct (last_index b p) as [j|] eqn:E.
  - intros [= <-]. destruct (IH j eq_refl) as [Hlt Hp]. split; [lia|]. by rewrite !prefix_S, Hp.
  - destruct (Ascii.eqb_spec c b) as [->|]; [|done]. intros [= <-]. split; [lia|].
    rewrite prefix_S, !prefix_0. done.
Qed.

Lemma last_newline_ends n p i :
  last_index newline (prefix_of n p) = Some i → (i < n)%nat ∧ (i < String.length p)%nat ∧ ends_line (prefix_of (S i) p).
Proof.
  intros Hi. destruct (last_index_spec _ _ _ Hi) as [Hlt Hp].
  pose proof (prefix_length n p) as Hl. split; [lia|]. rewrite prefix_prefix in Hp by lia. split.
  - pose proof (f_equal String.length (prefix_suffix n p)) as Hlen. rewrite string_length_app in Hlen. lia.
  - rewrite Hp. by eexists.
Qed.

Section output.
Context (order : gmap nat nat → list (nat * nat)).
Context (deploymentID : Z) (stepName : string) (stepIndex : option Z) (scrubber : option Scrubber) (limit : Z).
Implicit Types (s : DB) (w : broadcastWriter).

(** A text that ends a line, with no secret that may go on behind it. *)
Definition releasable (chunk : string) : Prop := ends_line chunk ∧ PendingBytes order scrubber chunk = 0%nat.

Lemma release_point_spec fuel data i j :
  ends_line (prefix_of (S i) data) → release_point order scrubber fuel data i = Some j →
  releasable (prefix_of (S j) data).
Proof.
  revert i. induction fuel as [|fuel IH]; intros i Hi; cbn [release_point]; [done|].
  destruct (PendingBytes order scrubber (prefix_of (S i) data)) as [|n] eqn:E; [by intros [= <-]|].
  destruct (last_index newline _) as [k|] eqn:Ek; [|done]. apply IH. by apply (last_newline_ends _ _ _ Ek).
Qed.

(** The search moves back: the fuel is enough. *)
Lemma release_point_total fuel data i :
  (i < fuel)%nat → release_point order scrubber fuel data i = release_point order scrubber (S i) data i.
Proof.
  revert i. induction fuel as [fuel IH] using lt_wf_ind; intros i Hi. destruct fuel as [|fuel]; [lia|].
  cbn [release_point]. destruct (PendingBytes order scrubber (prefix_of (S i) data)) as [|n]; [done|].
  destruct (last_index newline _) as [k|] eqn:Ek; [|done]. apply last_newline_ends in Ek as (Hk & _ & _).
  rewrite (IH fuel), (IH i) by lia. done.
Qed.

(** What a sequence of writes has stored and what it still holds. *)
Record written (outputs : string) (lines0 lines : list string) (w : broadcastWriter) (chunks : list string) : Prop := {
  wr_lines : lines = lines0 ++ concat (released_lines scrubber <$> chunks)
                     ++ (if w_outputFailed w then [errPendingLogLimit] else []);
  wr_text : if w_outputFailed w then w_buf w = "" ∧ ∃ rest, outputs = String.concat "" chunks +:+ rest
            else outputs = String.concat "" chunks +:+ w_buf w;
  wr_chunks : Forall releasable chunks;
  wr_bound : Z.of_nat (String.length (w_buf w)) ≤ Z.max 0 limit }.

Lemma concat_snoc chunks chunk : String.concat "" (chunks ++ [chunk]) = String.concat "" chunks +:+ chunk.
Proof.
  induction chunks as [|c chunks IH]; [done|]. change ((c :: chunks) ++ [chunk]) with (c :: (chunks ++ [chunk])).
  by rewrite !concat_cons, IH, <-string_app_assoc.
Qed.

Lemma suffix_length n p : (String.length (suffix_from n p) ≤ String.length p)%nat.
Proof. pose proof (f_equal String.length (prefix_suffix n p)) as H. rewrite string_length_app in H. lia. Qed.

(** One write. *)
Lemma write_written p outputs lines0 w s chunks r w' s' :
  not_null (db_step_sources s !! deploymentID) = true →
  written outputs lines0 (stored_lines s) w chunks →
  Write order deploymentID stepName stepIndex scrubber limit p w s = (r, w', s') →
  db_step_sources s' = db_step_sources s ∧ ∃ chunks', written (outputs +:+ p) lines0 (stored_lines s') w' chunks'.
Proof.
  intros Hd [Hl Ht Hc Hb] E. unfold Write in E. destruct (w_outputFailed w) eqn:Hf.
  { injection E as <- <- <-. split; [done|]. exists chunks. split; rewrite ?Hf; [done| |done..].
    destruct Ht as [? (rest & ->)]. split; [done|]. exists (rest +:+ p). by rewrite <-string_app_assoc. }
  destruct (Z.ltb_spec (limit - Z.of_nat (String.length (w_buf w))) (Z.of_nat (String.length p))) as [Hbig|Hfit].
  { destruct (writeLine_stored deploymentID stepName stepIndex errPendingLogLimit "" s Hd) as (s1 & E1 & Hl1 & Hs1).
    rewrite E1 in E. injection E as <- <- <-. split; [done|]. exists chunks. split; cbn; [|split; [done|]|done|lia].
    - by rewrite Hl1, Hl, app_nil_r, <-(assoc_L (++)).
    - exists (w_buf w +:+ p). rewrite Ht. by rewrite <-string_app_assoc. }
  rewrite app_nil_r in Hl.
  assert (Hkeep : ∀ s0, s0 = s → written (outputs +:+ p) lines0 (stored_lines s0) (mkWriter (w_buf w +:+ p) false) chunks).
  { intros s0 ->. split; cbn; [by rewrite app_nil_r| |done|rewrite string_length_app; lia]. by rewrite Ht, <-string_app_assoc. }
  destruct (last_index newline _) as [i|] eqn:Ei; [|injection E as <- <- <-; split; [done|eauto]].
  destruct (release_point order scrubber _ _ i) as [j|] eqn:Ej; [|injection E as <- <- <-; split; [done|eauto]].
  set (data := w_buf w +:+ p) in *. apply last_newline_ends in Ei as (_ & _ & Hend).
  destruct (write_lines_stored deploymentID stepName stepIndex
    (released_lines scrubber (prefix_of (S j) data)) s Hd) as (s1 & E1 & Hl1 & Hs1).
  rewrite E1 in E. injection E as <- <- <-. split; [done|].
  exists (chunks ++ [prefix_of (S j) data]). split; cbn.
  - rewrite Hl1, Hl, fmap_app, concat_app. cbn. by rewrite !app_nil_r, <-(assoc_L (++)).
  - rewrite concat_snoc, string_app_assoc, prefix_suffix. unfold data. by rewrite Ht, <-string_app_assoc.
  - apply Forall_app. split; [done|]. constructor; [|done]. by eapply release_point_spec.
  - pose proof (suffix_length (S j) data) as Hsl. unfold data in Hsl at 2. rewrite string_length_app in Hsl. lia.
Qed.

(** C38: whatever pieces the output of a step comes in, the text that has been
    released so far, followed by the text that is still held back, is the output:
    nothing is lost, repeated or reordered. Every released chunk ends a line and
    has no suffix in which a secret can still be waiting, its lines are the lines
    of its redaction, and what is held back never exceeds the limit. Output that
    would exceed it ends the log with one line that says so. *)
Theorem output_conserved outputs s w' s' :
  not_null (db_step_sources s !! deploymentID) = true →
  write_all order deploymentID stepName stepIndex scrubber limit outputs (mkWriter "" false) s = (w', s') →
  ∃ chunks, written (String.concat "" outputs) (stored_lines s) (stored_lines s') w' chunks.
Proof.
  intros Hd. enough (Hgen : ∀ outputs seen lines0 w s w' s' chunks,
    not_null (db_step_sources s !! deploymentID) = true → written seen lines0 (stored_lines s) w chunks →
    write_all order deploymentID stepName stepIndex scrubber limit outputs w s = (w', s') →
    ∃ chunks', written (seen +:+ String.concat "" outputs) lines0 (stored_lines s') w' chunks').
  { intros E. eapply (Hgen outputs "" _ _ s w' s' []); [done| |done].
    split; cbn; [by rewrite app_nil_r|done|done|lia]. }
  clear. induction outputs as [|p outputs IH]; intros seen lines0 w s w' s' chunks Hd Hw E; cbn [write_all] in E.
  - injection E as <- <-. exists chunks. cbn. by rewrite string_app_empty.
  - destruct (Write _ _ _ _ _ _ p w s) as [[r w1] s1] eqn:E1.
    destruct (write_written p seen lines0 w s chunks r w1 s1 Hd Hw E1) as [Hs (chunks1 & Hw1)].
    rewrite concat_cons, <-string_app_assoc. eapply IH; [by rewrite Hs|exact Hw1|exact E].
Qed.
End output.

Definition sample_outputs : list string := ["compil"; "ing" +:+ newline_text +:+ "do"; "ne" +:+ newline_text; "bye"].

Lemma output_conserved_witness :
  ∃ w' s', write_all (λ _, []) 5 "build" (Some 0) None 64 sample_outputs (mkWriter "" false) sample_queue = (w', s') ∧
    stored_lines s' = ["compiling"; "done"] ∧ w_buf w' = "bye" ∧
    ∃ chunks, String.concat "" sample_outputs = String.concat "" chunks +:+ "bye".
Proof.
  destruct (write_all (λ _, []) 5 "build" (Some 0) None 64 sample_outputs (mkWriter "" false) sample_queue)
    as [w' s'] eqn:E.
  destruct (output_conserved (λ _, []) 5 "build" (Some 0) None 64 sample_outputs sample_queue w' s' eq_refl E)
    as (chunks & [_ Ht _ _]).
  exists w', s'. split; [reflexivity|]. assert (Hw : w' = mkWriter "bye" false) by (vm_compute in E; injection E as <- _; reflexivity).
  split; [vm_compute in E; injection E as _ <-; reflexivity|]. rewrite Hw in Ht |- *.
  split; [reflexivity|]. exists chunks. exact Ht.
Defined.
