(* ===== verification/StepRunner.v ===== *)
(** * StepRunner: waiting for the agents that execute a step (internal/runner/remote_step.go)

    [runRemoteStep] queues one run per agent and then looks at the runs every
    quarter of a second until none of them is active: it charges the time that
    passes to each agent's budget, asks for cancellation when a run has failed,
    a budget is spent or the operator has cancelled, and decides the outcome.
    Durations are numbers of nanoseconds. The clock, the time that transfers
    took, and which channel wakes the loop come with each round. *)
From stdpp Require Import pretty.
From S2P Require Import Prelude Text Db Tx QueueQueries DeploymentQueue DispatchQueries RemoteLifecycle CreationQueries GateQueries ArtifactGate Base64 Secret Variables Resolution Ansible DeploymentCreation StepQueries RemotePayload LogScrub RemoteSteps RemoteLogs LogWriter.

(** What [runRemoteStep] returns. *)
Inductive StepResult :=
  | StepSucceeded
  | StepContainerCleanup
  | StepCancelled
  | StepUnconfirmed (agent : string)
  | StepTimedOut
  | StepFailed (agent : string)
  | StepStopped
  | StepError (e : error).

(** The local variables of the loop; [cancelSignal] is nil once the operator has
    cancelled. *)
Record LoopState := mkLoop {
  lp_remaining : gmap string Z;
  lp_transferred : gmap string Z;
  lp_timedOut : bool;
  lp_operatorCancelled : bool;
  lp_cancellationNeeded : bool;
  lp_cancellationRequested : bool;
  lp_failureAgent : string;
  lp_started : bool }.

#[export] Instance LoopState_eta : Eta LoopState := λ l,
  mkLoop (lp_remaining l) (lp_transferred l) (lp_timedOut l) (lp_operatorCancelled l)
    (lp_cancellationNeeded l) (lp_cancellationRequested l) (lp_failureAgent l) (lp_started l).

Definition lp_set_remaining : gmap string Z → LoopState → LoopState := ltac:(set_field lp_remaining).
Definition lp_set_transferred : gmap string Z → LoopState → LoopState := ltac:(set_field lp_transferred).
Definition lp_set_timedOut : bool → LoopState → LoopState := ltac:(set_field lp_timedOut).
Definition lp_set_operatorCancelled : bool → LoopState → LoopState := ltac:(set_field lp_operatorCancelled).
Definition lp_set_cancellationNeeded : bool → LoopState → LoopState := ltac:(set_field lp_cancellationNeeded).
Definition lp_set_cancellationRequested : bool → LoopState → LoopState := ltac:(set_field lp_cancellationRequested).
Definition lp_set_failureAgent : string → LoopState → LoopState := ltac:(set_field lp_failureAgent).
Definition lp_set_started : bool → LoopState → LoopState := ltac:(set_field lp_started).

Definition loop_start : LoopState := mkLoop ∅ ∅ false false false false "" false.

(** What one round has seen. *)
Record Round := mkRound {
  rd_allSucceeded : bool;
  rd_hasActive : bool;
  rd_hasFailure : bool;
  rd_cleanupUnconfirmed : bool;
  rd_expired : bool }.

(** What wakes the loop at the end of a round. *)
Inductive wake := WakeStopped | WakeCancelled | WakeTick.

Record tick := mkTick {
  tk_now : Z;
  tk_elapsed : Z;
  tk_transfer : string → Z;
  tk_wake : wake }.

Section step.
Context `{AgentEnvironment}.
(** What the step's writer redacts with, and the bytes it may hold back. *)
Context (order : gmap nat nat → list (nat * nat)) (scrubber : option Scrubber) (limit : Z).
Context (deploymentID stepIndex : Z) (stepName : string) (timeout : Z).
Implicit Types (st : LoopState) (rd : Round) (s : DB).

(** ** One run *)

Definition lost_states : list string := ["failed"; "lost"; "cancel_unconfirmed"; "cleanup_unconfirmed"].

(** The budget of an active run; maintenance pauses waiting targets only. *)
Definition charge (tk : tick) (run : ListRemoteStepRunsForRunnerRow) st : LoopState * Z :=
  let budget := default timeout (lp_remaining st !! rr_AgentID run) in
  if negb (String.eqb (rr_State run) "waiting") || Z.eqb (rr_Draining run) 0 then
    let transferTime := tk_transfer tk (rr_AgentID run) in
    let budget := budget - Z.max 0 (tk_elapsed tk
                    - (transferTime - default 0 (lp_transferred st !! rr_AgentID run))) in
    (lp_set_transferred (<[rr_AgentID run := transferTime]> (lp_transferred st))
       (lp_set_remaining (<[rr_AgentID run := budget]> (lp_remaining st)) st), budget)
  else (lp_set_remaining (<[rr_AgentID run := budget]> (lp_remaining st)) st, budget).

(** The switch on the run's state. *)
Definition observe_run (tk : tick) (run : ListRemoteStepRunsForRunnerRow) st rd : LoopState * Round :=
  if String.eqb (rr_State run) "succeeded" then (st, rd)
  else if String.eqb (rr_State run) "cancelled" then
    (st, mkRound false (rd_hasActive rd) (rd_hasFailure rd || negb (lp_operatorCancelled st))
           (rd_cleanupUnconfirmed rd) (rd_expired rd))
  else if rr_State run ∈? lost_states then
    (lp_set_failureAgent (if String.eqb (lp_failureAgent st) "" then rr_AgentID run else lp_failureAgent st) st,
     mkRound false (rd_hasActive rd) true
       (rd_cleanupUnconfirmed rd || String.eqb (rr_State run) "cleanup_unconfirmed") (rd_expired rd))
  else
    let '(st, budget) := charge tk run st in
    (st, mkRound false true (rd_hasFailure rd) (rd_cleanupUnconfirmed rd) (rd_expired rd || (budget <=? 0))).

(** The loop over the runs; the first start of one is logged. *)
Fixpoint observe_runs (tk : tick) (runs : list ListRemoteStepRunsForRunnerRow) st rd s
    : result (LoopState * Round) * DB :=
  match runs with
  | [] => (Ok (st, rd), s)
  | run :: runs =>
      if negb (lp_started st) && not_null (rr_StartedAt run) then
        match LogWriter.state deploymentID stepName (Some stepIndex) "running" s with
        | (Err e, s) => (Err e, s)
        | (Ok _, s) =>
            let '(st, rd) := observe_run tk run (lp_set_started true st) rd in
            observe_runs tk runs st rd s
        end
      else
        let '(st, rd) := observe_run tk run st rd in
        observe_runs tk runs st rd s
  end.

(** ** The decision at the end of a round *)

Definition spend st rd : LoopState :=
  if rd_expired rd then
    lp_set_cancellationNeeded true
      (if String.eqb (lp_failureAgent st) "" then lp_set_timedOut true st else st)
  else st.

(** An outcome, or the state with which the loop goes on. *)
Definition judge st rd : StepResult + LoopState :=
  let st := spend st rd in
  if rd_cleanupUnconfirmed rd && negb (rd_hasActive rd) then inl StepContainerCleanup
  else if lp_operatorCancelled st && negb (rd_hasActive rd) then
    inl (if rd_hasFailure rd then StepUnconfirmed (lp_failureAgent st) else StepCancelled)
  else if rd_hasFailure rd && rd_hasActive rd then inr (lp_set_cancellationNeeded true st)
  else if rd_hasFailure rd then
    inl (if lp_timedOut st then StepTimedOut else StepFailed (lp_failureAgent st))
  else if rd_allSucceeded rd then inl StepSucceeded
  else inr st.

Definition wake_up (w : wake) st : StepResult + LoopState :=
  match w with
  | WakeStopped => inl StepStopped
  | WakeCancelled =>
      inr (if lp_operatorCancelled st then st
           else lp_set_operatorCancelled true (lp_set_cancellationNeeded true st))
  | WakeTick => inr st
  end.

(** ** One round *)

Definition look (tk : tick) st s : (StepResult + LoopState) * DB :=
  match ListRemoteStepRunsForRunner deploymentID stepIndex s with
  | Err e => (inl (StepError e), s)
  | Ok (runs, _) =>
      match observe_runs tk runs st (mkRound (negb (length runs =? 0)%nat) false false false false) s with
      | (Err e, s) => (inl (StepError e), s)
      | (Ok (st, rd), s) =>
          (match judge st rd with inl outcome => inl outcome | inr st => wake_up (tk_wake tk) st end, s)
      end
  end.

(** A cancellation that cannot be stored is tried again in the next round. *)
Definition iterate (tk : tick) st s : (StepResult + LoopState) * DB :=
  if lp_cancellationNeeded st && negb (lp_cancellationRequested st) then
    match RequestRemoteStepCancellation (tk_now tk) deploymentID s with
    | Ok (_, s) => look tk (lp_set_cancellationRequested true st) s
    | Err _ => (match tk_wake tk with WakeStopped => inl StepStopped | _ => inr st end, s)
    end
  else look tk st s.

(** ** Before the loop *)

Definition step_unavailable (interpreter : string) (artifact : bool) : string :=
  "step " +:+ quote stepName +:+ ": no compatible agents support interpreter "
  +:+ quote (if String.eqb interpreter "" then "bash" else interpreter)
  +:+ " and match the environment, labels, and staging/1" +:+ (if artifact then " and artifact/1" else "")
  +:+ " capabilities; upgrade participating agents".

(** A line of the step's fresh writer, and its flush. *)
Definition print_line (text : string) s : DB :=
  let '(_, w, s) := Write order deploymentID stepName (Some stepIndex) scrubber limit (text +:+ newline_text)
                      (mkWriter "" false) s in
  (Flush deploymentID stepName (Some stepIndex) scrubber w s).2.

Definition step_prefix : string := "step " +:+ quote stepName +:+ ": ".

(** From [QueueRemoteStepRuns] to the loop. The error of writing a line is not
    told apart from the error that it reports. *)
Definition enqueue (interpreter : string) (s : DB) : option StepResult * DB :=
  match QueueRemoteStepRuns deploymentID stepIndex s with
  | (Err (ErrLimits message), s) => (Some (StepError (ErrLimits message)), print_line (step_prefix +:+ message) s)
  | (Err e, s) => (Some (StepError e), s)
  | (Ok created, s) =>
      if Z.eqb created 0 then
        match GetDeploymentArtifact deploymentID s with
        | Ok _ =>
            let message := step_unavailable interpreter true in
            (Some (StepError (ErrOther message)), print_line message s)
        | Err ErrNoRows =>
            let message := step_unavailable interpreter false in
            (Some (StepError (ErrOther message)), print_line message s)
        | Err e => (Some (StepError e), s)
        end
      else (None, print_line (step_prefix +:+ "queued for " +:+ pretty created +:+ " matching agent(s)") s)
  end.

(** The rounds of the loop, and what the rest of the server does to the store
    before each of them; [inr] when the rounds end before the loop does. *)
Fixpoint watch (rounds : list ((DB → DB) * tick)) st s : (StepResult + LoopState) * DB :=
  match rounds with
  | [] => (inr st, s)
  | (world, tk) :: rounds =>
      match iterate tk st (world s) with
      | (inl outcome, s) => (inl outcome, s)
      | (inr st, s) => watch rounds st s
      end
  end.

(** The deferred call: an error ends the log of the step. *)
Definition finish_step_log (outcome : StepResult) s : DB :=
  match outcome with
  | StepSucceeded => s
  | _ => finishState deploymentID stepName (Some stepIndex)
           (match outcome with StepContainerCleanup => true | _ => false end) true
           (match outcome with StepCancelled => true | _ => false end) s
  end.

(** [cancelled]: the operator has cancelled before the step. [None] when the
    rounds end before the loop does. *)
Definition runRemoteStep (limits : ExecutionLimits) (step : Definition_) (cancelled : bool)
    (rounds : list ((DB → DB) * tick)) (s : DB) : option StepResult * DB :=
  if String.eqb (sd_Kind step) "ansible"
  then (Some (StepError (ErrOther "native Ansible execution is unsupported on remote agents")), s)
  else match ValidateLimitsWithPolicy (sd_TimeoutSeconds step) (sd_MaxRetries step) limits with
  | Err e => (Some (StepError e), s)
  | Ok _ =>
      if cancelled then (Some StepCancelled, s)
      else match LogWriter.state deploymentID stepName (Some stepIndex) "waiting" s with
      | (Err e, s) => (Some (StepError e), s)
      | (Ok _, s) =>
          match enqueue (sd_Interpreter step) s with
          | (Some outcome, s) => (Some outcome, finish_step_log outcome s)
          | (None, s) =>
              match watch rounds loop_start s with
              | (inl outcome, s) => (Some outcome, finish_step_log outcome s)
              | (inr _, s) => (None, s)
              end
          end
      end
  end.
End step.

(** The time a step may take, in nanoseconds. *)
Definition step_timeout (default_seconds : Z) (step : Definition_) : Z :=
  (if 0 <? sd_TimeoutSeconds step then sd_TimeoutSeconds step else default_seconds) * 1000000000.
