(* ===== verification/StepRunnerTheorems.v ===== *)
(** * StepRunnerTheorems: correctness of waiting for the agents of a step

    What one look at the runs concludes, that a step whose time is used up is
    cancelled, and that success is reported only for runs that have succeeded
    for good. *)
From S2P Require Import Prelude Text Db Tx QueueQueries DeploymentQueue QueueSafety QueueTheorems DispatchQueries RemoteLifecycle RemoteSafety RemoteSpec RemoteRefine Base64 Secret Variables Ansible CreationQueries GateQueries ArtifactGate DeploymentCreation StepQueries RemotePayload LogScrub LogBuffer RemoteSteps AgentPoll RemoteLogs StepSpec System CreationSafety StepSafety StepBodies Runs SampleServer RemoteTheorems StepTheorems SweepTheorems LogWriter StepRunner.

Section observation.
Context (deploymentID stepIndex : Z) (stepName : string) (timeout : Z).
Implicit Types (st : LoopState) (rd : Round) (s : DB) (row : ListRemoteStepRunsForRunnerRow).

Lemma existsb_ext_in {A} (f g : A → bool) (l : list A) :
  (∀ x, x ∈ l → f x = g x) → existsb f l = existsb g l.
Proof.
  induction l as [|x l IH]; intros Hfg; [done|]. cbn. rewrite Hfg by (by left).
  rewrite IH; [done|]. intros y Hy. apply Hfg. by right.
Qed.

(** ** What the rows say *)

Definition succeeded_row row : bool := String.eqb (rr_State row) "succeeded".
Definition cancelled_row row : bool := String.eqb (rr_State row) "cancelled".
Definition lost_row row : bool := rr_State row ∈? lost_states.
Definition unclean_row row : bool := String.eqb (rr_State row) "cleanup_unconfirmed".

(** Any other state is one in which the agent may still act. *)
Definition active_row row : bool := negb (succeeded_row row || cancelled_row row || lost_row row).

(** A run that nobody asked to cancel has failed when it is cancelled. *)
Definition failing_row st row : bool := lost_row row || (cancelled_row row && negb (lp_operatorCancelled st)).

(** Time counts but for an offer to an agent that is being drained. *)
Definition counting row : bool := negb (String.eqb (rr_State row) "waiting") || Z.eqb (rr_Draining row) 0.

Definition used tk st row : Z :=
  Z.max 0 (tk_elapsed tk - (tk_transfer tk (rr_AgentID row) - default 0 (lp_transferred st !! rr_AgentID row))).

Definition budget_left tk st row : Z :=
  default timeout (lp_remaining st !! rr_AgentID row) - (if counting row then used tk st row else 0).

Definition spent_row tk st row : bool := active_row row && (budget_left tk st row <=? 0).

(** The first lost agent that has a name. *)
Definition first_lost (agent : string) rows : string :=
  if String.eqb agent "" then default "" (head (filter (λ a, a ≠ "") (rr_AgentID <$> filter (λ row, lost_row row = true) rows)))
  else agent.

(** An agent has one run of a step. *)
Definition rows_ok rows : Prop := NoDup (rr_AgentID <$> rows).

(** What a look changes in the state of the loop. *)
Record observed tk st st' rows : Prop := {
  ob_cancelled : lp_operatorCancelled st' = lp_operatorCancelled st;
  ob_timedOut : lp_timedOut st' = lp_timedOut st;
  ob_needed : lp_cancellationNeeded st' = lp_cancellationNeeded st;
  ob_requested : lp_cancellationRequested st' = lp_cancellationRequested st;
  ob_failure : lp_failureAgent st' = first_lost (lp_failureAgent st) rows;
  ob_remaining : ∀ row, row ∈ rows → active_row row = true →
    lp_remaining st' !! rr_AgentID row = Some (budget_left tk st row);
  ob_transferred : ∀ row, row ∈ rows → active_row row = true → counting row = true →
    lp_transferred st' !! rr_AgentID row = Some (tk_transfer tk (rr_AgentID row));
  ob_others : ∀ agent, agent ∉ rr_AgentID <$> rows →
    lp_remaining st' !! agent = lp_remaining st !! agent ∧
    lp_transferred st' !! agent = lp_transferred st !! agent }.

Definition seen tk st rows rd : Round :=
  mkRound (rd_allSucceeded rd && forallb succeeded_row rows)
    (rd_hasActive rd || existsb active_row rows)
    (rd_hasFailure rd || existsb (failing_row st) rows)
    (rd_cleanupUnconfirmed rd || existsb unclean_row rows)
    (rd_expired rd || existsb (spent_row tk st) rows).

Lemma row_classes row :
  (succeeded_row row = true ∧ cancelled_row row = false ∧ lost_row row = false ∧ unclean_row row = false) ∨
  (succeeded_row row = false ∧ cancelled_row row = true ∧ lost_row row = false ∧ unclean_row row = false) ∨
  (succeeded_row row = false ∧ cancelled_row row = false ∧ lost_row row = true) ∨
  (succeeded_row row = false ∧ cancelled_row row = false ∧ lost_row row = false ∧ unclean_row row = false).
Proof.
  unfold succeeded_row, cancelled_row, lost_row, unclean_row.
  destruct (String.eqb_spec (rr_State row) "succeeded") as [->|]; [by left|].
  destruct (String.eqb_spec (rr_State row) "cancelled") as [->|]; [by right; left|].
  destruct (rr_State row ∈? lost_states) eqn:El; [by right; right; left|].
  right; right; right. split_and!; [done..|]. destruct (String.eqb_spec (rr_State row) "cleanup_unconfirmed") as [E|]; [|done].
  by rewrite E in El.
Qed.

Lemma first_lost_keep agent row : lost_row row = false → first_lost agent [row] = agent.
Proof.
  intros Hl. unfold first_lost. destruct (String.eqb_spec agent "") as [->|]; [|done].
  rewrite filter_cons_False by congruence. done.
Qed.

Lemma observed_refl tk st row :
  active_row row = false → lost_row row = false → observed tk st st [row].
Proof.
  intros Ha Hl. split; try done; [by rewrite first_lost_keep|..];
    intros row' Hin%list_elem_of_singleton; subst; congruence.
Qed.

Lemma observe_run_spec tk row st rd :
  observed tk st (observe_run timeout tk row st rd).1 [row] ∧
  (observe_run timeout tk row st rd).2 = seen tk st [row] rd.
Proof.
  unfold observe_run, seen, spent_row, active_row, failing_row. cbn [forallb existsb].
  rewrite !orb_false_r, andb_true_r. fold (succeeded_row row) (cancelled_row row) (lost_row row) (unclean_row row).
  destruct (row_classes row) as [(Es & Ec & El & Eu)|[(Es & Ec & El & Eu)|[(Es & Ec & El)|(Es & Ec & El & Eu)]]];
    rewrite ?Es, ?Ec, ?El, ?Eu; cbn [orb andb negb fst snd];
    rewrite ?orb_false_r, ?andb_true_r, ?andb_false_r, ?orb_true_r.
  - split; [|by destruct rd]. apply observed_refl; [|done]. unfold active_row. by rewrite Es.
  - split; [|done]. apply observed_refl; [|done]. unfold active_row. by rewrite Ec, Es.
  - split; [|done]. split; try done.
    + cbn. unfold first_lost. rewrite filter_cons_True by done. cbn [fmap list_fmap].
      destruct (String.eqb_spec (lp_failureAgent st) ""); [|done].
      destruct (decide (rr_AgentID row = "")) as [->|Hn]; [done|]. by rewrite filter_cons_True.
    + intros row' Hin%list_elem_of_singleton. subst. unfold active_row. by rewrite El, orb_true_r.
    + intros row' Hin%list_elem_of_singleton. subst. unfold active_row. by rewrite El, orb_true_r.
  - unfold charge, budget_left, used, counting. cbv zeta.
    destruct (negb (String.eqb (rr_State row) "waiting") || Z.eqb (rr_Draining row) 0) eqn:Ecnt;
      (split; [|cbn; by rewrite ?Z.sub_0_r, ?orb_true_r]); (split; [done..|cbn; by rewrite first_lost_keep| | |]);
      cbn [lp_remaining lp_transferred lp_set_remaining lp_set_transferred fst].
    all: try (intros row' Hin%list_elem_of_singleton; subst row'; intros;
              rewrite ?lookup_insert_eq; unfold budget_left, used, counting in *; rewrite ?Ecnt, ?Z.sub_0_r;
              (done || congruence)).
    all: intros agent Hag; rewrite list_fmap_singleton, list_elem_of_singleton in Hag;
         split; rewrite ?lookup_insert_ne by congruence; done.
Qed.

Lemma seen_cons tk st st1 row rows rd :
  lp_operatorCancelled st1 = lp_operatorCancelled st →
  (∀ row', row' ∈ rows → budget_left tk st1 row' = budget_left tk st row') →
  seen tk st1 rows (seen tk st [row] rd) = seen tk st (row :: rows) rd.
Proof.
  intros Hc Hb. unfold seen. cbn [rd_allSucceeded rd_hasActive rd_hasFailure rd_cleanupUnconfirmed rd_expired].
  assert (existsb (failing_row st1) rows = existsb (failing_row st) rows) as ->.
  { apply existsb_ext_in. intros row' _. unfold failing_row. by rewrite Hc. }
  assert (existsb (spent_row tk st1) rows = existsb (spent_row tk st) rows) as ->.
  { apply existsb_ext_in. intros row' Hin. unfold spent_row. by rewrite Hb. }
  cbn [forallb existsb]. by rewrite !orb_false_r, !andb_true_r, !orb_assoc, andb_assoc.
Qed.

Lemma first_lost_cons agent row rows : first_lost (first_lost agent [row]) rows = first_lost agent (row :: rows).
Proof.
  unfold first_lost. destruct (String.eqb_spec agent "") as [->|Ha]; [|by destruct (String.eqb_spec agent "")].
  destruct (lost_row row) eqn:El; [|by rewrite !filter_cons_False by congruence].
  rewrite !(filter_cons_True (λ row, lost_row row = true)) by done. cbn [fmap list_fmap].
  destruct (decide (rr_AgentID row = "")) as [Hr|Hr].
  - by rewrite !(filter_cons_False (λ a : string, a ≠ "")) by naive_solver.
  - rewrite !(filter_cons_True (λ a : string, a ≠ "")) by done. cbn.
    by destruct (String.eqb_spec (rr_AgentID row) "").
Qed.

(** Agents are charged one by one. *)
Lemma observed_cons tk st st1 st2 row rows :
  rows_ok (row :: rows) → observed tk st st1 [row] → observed tk st1 st2 rows → observed tk st st2 (row :: rows).
Proof.
  intros Hnd H1 H2. unfold rows_ok in Hnd. cbn [fmap list_fmap] in Hnd. apply NoDup_cons in Hnd as [Hni _].
  assert (Hother : ∀ r, r ∈ rows → rr_AgentID r ∉ rr_AgentID <$> [row]).
  { intros r Hr. rewrite list_fmap_singleton, list_elem_of_singleton. intros Heq. apply Hni.
    rewrite <-Heq. by apply list_elem_of_fmap_2. }
  split.
  - by rewrite (ob_cancelled _ _ _ _ H2), (ob_cancelled _ _ _ _ H1).
  - by rewrite (ob_timedOut _ _ _ _ H2), (ob_timedOut _ _ _ _ H1).
  - by rewrite (ob_needed _ _ _ _ H2), (ob_needed _ _ _ _ H1).
  - by rewrite (ob_requested _ _ _ _ H2), (ob_requested _ _ _ _ H1).
  - by rewrite (ob_failure _ _ _ _ H2), (ob_failure _ _ _ _ H1), first_lost_cons.
  - intros r [->|Hr]%elem_of_cons Ha.
    + destruct (ob_others _ _ _ _ H2 (rr_AgentID row) Hni) as [-> _].
      by apply (ob_remaining _ _ _ _ H1); [left|].
    + rewrite (ob_remaining _ _ _ _ H2 r Hr Ha).
      destruct (ob_others _ _ _ _ H1 _ (Hother r Hr)) as [E1 E2]. unfold budget_left, used. by rewrite E1, E2.
  - intros r [->|Hr]%elem_of_cons Ha Hc.
    + destruct (ob_others _ _ _ _ H2 (rr_AgentID row) Hni) as [_ ->].
      by apply (ob_transferred _ _ _ _ H1); [left|..].
    + by apply (ob_transferred _ _ _ _ H2).
  - intros agent Hag. cbn [fmap list_fmap] in Hag. apply not_elem_of_cons in Hag as [Hne Hag].
    destruct (ob_others _ _ _ _ H2 agent Hag) as [-> ->]. apply (ob_others _ _ _ _ H1).
    by rewrite list_fmap_singleton, list_elem_of_singleton.
Qed.

(** ** The log line of the first start *)

Definition has_log s : bool := not_null (db_step_sources s !! deploymentID).

Definition logged (s s' : DB) : Prop :=
  same_queue_tables s s' ∧ db_step_sources s' = db_step_sources s ∧ db_agents s' = db_agents s.

#[export] Instance logged_refl : Reflexive logged.
Proof. by split. Qed.
#[export] Instance logged_trans : Transitive logged.
Proof. intros s1 s2 s3 (? & ? & ?) (? & ? & ?). split; [by etrans|split; congruence]. Qed.

Lemma state_logs word s :
  if has_log s
  then ∃ s', LogWriter.state deploymentID stepName (Some stepIndex) word s = (Ok tt, s') ∧ logged s s'
  else LogWriter.state deploymentID stepName (Some stepIndex) word s = (Err ErrNoRows, s).
Proof.
  unfold has_log, LogWriter.state, writeLine, Repository_CreateStepDeploymentLog,
    withDeploymentLogTx, WithTx, LockDeploymentLogStream, mbind, tx_bind, read.
  destruct (not_null (db_step_sources s !! deploymentID)); cbn; [|done].
  eexists. split; [reflexivity|]. split; [|done]. by split.
Qed.

Lemma observe_runs_spec tk rows st rd s :
  rows_ok rows →
  (∃ st' s', observe_runs deploymentID stepIndex stepName timeout tk rows st rd s =
               (Ok (st', seen tk st rows rd), s') ∧ logged s s' ∧ observed tk st st' rows) ∨
  (has_log s = false ∧
   ∃ e, observe_runs deploymentID stepIndex stepName timeout tk rows st rd s = (Err e, s)).
Proof.
  revert st rd s. induction rows as [|row rows IH]; intros st rd s Hok.
  { left. exists st, s. unfold seen. cbn. rewrite andb_true_r, !orb_false_r. split; [by destruct rd|].
    split; [done|]. split; try done; [|by intros ? ?%elem_of_nil..].
    unfold first_lost. by destruct (String.eqb_spec (lp_failureAgent st) ""). }
  pose proof Hok as Hnd. unfold rows_ok in Hnd. cbn [fmap list_fmap] in Hnd. apply NoDup_cons in Hnd as [Hni Hrows].
  assert (Hgo : ∀ st0 s1, logged s s1 → (has_log s = false → s1 = s) →
    (∀ st1, observed tk st0 st1 [row] → observed tk st st1 [row]) → seen tk st0 [row] rd = seen tk st [row] rd →
    let result := (let '(st1, rd1) := observe_run timeout tk row st0 rd in
       observe_runs deploymentID stepIndex stepName timeout tk rows st1 rd1 s1) in
    (∃ st' s', result = (Ok (st', seen tk st (row :: rows) rd), s') ∧ logged s s' ∧ observed tk st st' (row :: rows)) ∨
    (has_log s = false ∧ ∃ e, result = (Err e, s))).
  { intros st0 s1 Hs1 Hsame Hob Hseen. destruct (observe_run_spec tk row st0 rd) as [Ho Hs].
    destruct (observe_run timeout tk row st0 rd) as [st1 rd1]. cbn [fst snd] in Ho, Hs. subst rd1.
    apply Hob in Ho.
    destruct (IH st1 (seen tk st0 [row] rd) s1 Hrows) as [(st' & s' & E & Hs' & Ho')|(Hl & e & E)].
    - left. exists st', s'. rewrite E, Hseen. split; [|split; [by etrans|by apply (observed_cons _ _ st1)]].
      rewrite seen_cons; [done|by rewrite (ob_cancelled _ _ _ _ Ho)|]. intros r Hr.
      destruct (ob_others _ _ _ _ Ho (rr_AgentID r)) as [E1 E2]; [|unfold budget_left, used; by rewrite E1, E2].
      rewrite list_fmap_singleton, list_elem_of_singleton. intros Heq. apply Hni. rewrite <-Heq.
      by apply list_elem_of_fmap_2.
    - right. assert (has_log s = false) as Hl0 by (revert Hl; unfold has_log; by rewrite (proj1 (proj2 Hs1))).
      split; [done|]. exists e. by rewrite E, (Hsame Hl0). }
  cbn [observe_runs]. destruct (negb (lp_started st) && not_null (rr_StartedAt row)) eqn:Est; [|by apply Hgo].
  pose proof (state_logs "running" s) as Hst. destruct (has_log s) eqn:Hl.
  - destruct Hst as (s1 & E & Hs1). rewrite E. apply Hgo; [done..| |done]. intros st1 []. by split.
  - right. split; [done|]. exists ErrNoRows. by rewrite Hst.
Qed.

(** ** One look *)

Definition step_rows s : list ListRemoteStepRunsForRunnerRow :=
  match ListRemoteStepRunsForRunner deploymentID stepIndex s with Ok (rows, _) => rows | Err _ => [] end.

Definition of_step (r : RemoteStepRun) : bool := Z.eqb (r_DeploymentID r) deploymentID && Z.eqb (r_StepIndex r) stepIndex.

Lemma step_rows_elem s row :
  run_keys s →
  row ∈ step_rows s ↔
  ∃ r a, db_runs s !! run_key r = Some r ∧ of_step r = true ∧ db_agents s !! r_AgentID r = Some a ∧
    row = mkRunnerRow (r_AgentID r) (r_State r) (r_StartedAt r) (a_Draining a).
Proof.
  intros Hk. unfold step_rows. cbn [ListRemoteStepRunsForRunner read]. rewrite list_elem_of_omap. split.
  - intros (r & Hin & Ha). rewrite elem_of_sort_by, select_runs_elem in Hin by done.
    destruct Hin as [Hr Hs]. exists r. destruct (db_agents s !! r_AgentID r) as [a|]; [|done]. cbn in Ha. exists a. by injection Ha as <-.
  - intros (r & a & Hr & Hs & Ha & ->). exists r. rewrite elem_of_sort_by, select_runs_elem by done.
    by rewrite Ha.
Qed.

Lemma omap_agents s (l : list RemoteStepRun) :
  rr_AgentID <$> omap (λ r, a ← db_agents s !! r_AgentID r;
    Some (mkRunnerRow (r_AgentID r) (r_State r) (r_StartedAt r) (a_Draining a))) l `sublist_of` r_AgentID <$> l.
Proof.
  induction l as [|r l IH]; [done|]. cbn [omap list_omap]. destruct (db_agents s !! r_AgentID r); cbn.
  - by apply sublist_skip.
  - by apply sublist_cons.
Qed.

Lemma step_rows_ok s : run_keys s → rows_ok (step_rows s).
Proof.
  intros Hk. unfold rows_ok, step_rows. cbn [ListRemoteStepRunsForRunner read].
  eapply sublist_NoDup; [|apply omap_agents]. apply NoDup_fmap_2_strong.
  - intros r1 r2 H1 H2 Heq. rewrite elem_of_sort_by, select_runs_elem in H1, H2 by done.
    destruct H1 as [H1 E1], H2 as [H2 E2].
    rewrite !andb_true_iff, !Z.eqb_eq in E1, E2. destruct E1, E2.
    assert (run_key r1 = run_key r2) as Hkey by (unfold run_key; congruence). congruence.
  - rewrite sort_by_perm. by apply select_runs_nodup.
Qed.

(** The outcome that the rows allow; none while an agent may still act, and none
    without a run. *)
Definition verdict st rows : option StepResult :=
  if existsb active_row rows then None
  else if existsb unclean_row rows then Some StepContainerCleanup
  else if existsb (failing_row st) rows then
    Some (if lp_operatorCancelled st then StepUnconfirmed (first_lost (lp_failureAgent st) rows)
          else if lp_timedOut st then StepTimedOut
          else StepFailed (first_lost (lp_failureAgent st) rows))
  else if lp_operatorCancelled st then Some StepCancelled
  else match rows with [] => None | _ => Some StepSucceeded end.

(** When the loop goes on it knows whether the runs have to be cancelled. *)
Record looked tk st st' rows : Prop := {
  lk_cancelled : lp_operatorCancelled st' = lp_operatorCancelled st ||
    match tk_wake tk with WakeCancelled => true | _ => false end;
  lk_needed : lp_cancellationNeeded st' = lp_cancellationNeeded st || existsb (spent_row tk st) rows
    || (existsb (failing_row st) rows && existsb active_row rows)
    || (match tk_wake tk with WakeCancelled => negb (lp_operatorCancelled st) | _ => false end);
  lk_timedOut : lp_timedOut st' = lp_timedOut st
    || (existsb (spent_row tk st) rows && String.eqb (first_lost (lp_failureAgent st) rows) "");
  lk_requested : lp_cancellationRequested st' = lp_cancellationRequested st;
  lk_remaining : ∀ row, row ∈ rows → active_row row = true →
    lp_remaining st' !! rr_AgentID row = Some (budget_left tk st row);
  lk_transferred : ∀ row, row ∈ rows → active_row row = true → counting row = true →
    lp_transferred st' !! rr_AgentID row = Some (tk_transfer tk (rr_AgentID row)) }.

Lemma not_active_not_spent tk st rows : existsb active_row rows = false → existsb (spent_row tk st) rows = false.
Proof.
  induction rows as [|row rows IH]; [done|]. cbn. intros [Ha Hr]%orb_false_iff.
  unfold spent_row at 1. by rewrite Ha, IH.
Qed.

Lemma quiet_rows st rows :
  existsb active_row rows = false → existsb (failing_row st) rows = false → lp_operatorCancelled st = false →
  forallb succeeded_row rows = true.
Proof.
  intros Ha Hf Hop. apply forallb_forall. intros row Hin. destruct (succeeded_row row) eqn:Es; [done|].
  assert (active_row row = false) as Har.
  { destruct (active_row row) eqn:E; [|done]. rewrite <-Ha. symmetry. apply existsb_exists. eauto. }
  assert (failing_row st row = false) as Hfr.
  { destruct (failing_row st row) eqn:E; [|done]. rewrite <-Hf. symmetry. apply existsb_exists. eauto. }
  unfold active_row, failing_row in *. rewrite Es, Hop in *. by destruct (cancelled_row row), (lost_row row).
Qed.

Lemma active_not_all rows : existsb active_row rows = true → forallb succeeded_row rows = false.
Proof.
  intros (row & Hin & Ha)%existsb_exists. destruct (forallb succeeded_row rows) eqn:E; [|done].
  rewrite forallb_forall in E. unfold active_row in Ha. by rewrite (E row Hin) in Ha.
Qed.

Definition first_round (rows : list ListRemoteStepRunsForRunnerRow) : Round := mkRound (negb (length rows =? 0)%nat) false false false false.

Lemma judge_ends tk st st1 rows :
  observed tk st st1 rows → existsb active_row rows = false →
  judge st1 (seen tk st rows (first_round rows)) =
    match verdict st rows with Some outcome => inl outcome | None => inr st1 end.
Proof.
  intros [Ec Et En Eq Ef _ _ _] Ha. unfold judge, spend, seen, verdict, first_round.
  cbn [rd_allSucceeded rd_hasActive rd_hasFailure rd_cleanupUnconfirmed rd_expired orb].
  rewrite Ha, (not_active_not_spent _ _ _ Ha). cbn [negb andb]. rewrite !andb_true_r, andb_false_r, Ec, Et, Ef.
  destruct (existsb unclean_row rows); [done|].
  destruct (lp_operatorCancelled st) eqn:Eop; [by destruct (existsb (failing_row st) rows)|].
  destruct (existsb (failing_row st) rows) eqn:Efl; [by destruct (lp_timedOut st)|].
  rewrite (quiet_rows st) by done. by destruct rows.
Qed.

Lemma judge_continues tk st st1 rows :
  observed tk st st1 rows → existsb active_row rows = true →
  verdict st rows = None ∧
  ∃ st2, judge st1 (seen tk st rows (first_round rows)) = inr st2 ∧
    lp_operatorCancelled st2 = lp_operatorCancelled st1 ∧
    lp_cancellationNeeded st2 = lp_cancellationNeeded st || existsb (spent_row tk st) rows || existsb (failing_row st) rows ∧
    lp_timedOut st2 = lp_timedOut st || (existsb (spent_row tk st) rows && String.eqb (first_lost (lp_failureAgent st) rows) "") ∧
    lp_cancellationRequested st2 = lp_cancellationRequested st ∧
    lp_remaining st2 = lp_remaining st1 ∧ lp_transferred st2 = lp_transferred st1.
Proof.
  intros [Ec Et En Eq Ef _ _ _] Ha. unfold judge, spend, seen, verdict, first_round.
  cbn [rd_allSucceeded rd_hasActive rd_hasFailure rd_cleanupUnconfirmed rd_expired orb].
  rewrite Ha, (active_not_all _ Ha). cbn [negb andb]. rewrite !andb_false_r, !andb_true_r, Ef. split; [done|].
  destruct (existsb (spent_row tk st) rows); [destruct (String.eqb _ "")|];
    destruct (existsb (failing_row st) rows); (eexists; split; [reflexivity|]);
    cbn; rewrite ?En, ?Et, ?Eq, ?orb_true_r, ?orb_false_r; by split_and!.
Qed.

Lemma all_succeeded st rows :
  forallb succeeded_row rows = true →
  existsb active_row rows = false ∧ existsb unclean_row rows = false ∧ existsb (failing_row st) rows = false.
Proof.
  induction rows as [|row rows IH]; [done|]. cbn. intros [Hs Hr]%andb_true_iff.
  destruct (IH Hr) as (-> & -> & ->). unfold active_row, failing_row. rewrite Hs.
  destruct (row_classes row) as [(_ & -> & -> & ->)|[(E & _)|[(E & _)|(E & _)]]]; [done|congruence..].
Qed.

Lemma verdict_succeeded st rows :
  verdict st rows = Some StepSucceeded ↔
  rows ≠ [] ∧ forallb succeeded_row rows = true ∧ lp_operatorCancelled st = false.
Proof.
  split.
  - unfold verdict. destruct (existsb active_row rows) eqn:Ha; [done|]. destruct (existsb unclean_row rows); [done|].
    destruct (existsb (failing_row st) rows) eqn:Hf; [by destruct (lp_operatorCancelled st), (lp_timedOut st)|].
    destruct (lp_operatorCancelled st) eqn:Hop; [done|]. destruct rows; [done|]. intros _.
    split; [done|]. split; [by apply (quiet_rows st)|done].
  - intros (Hne & Hall & Hop). destruct (all_succeeded st rows Hall) as (Ha & Hu & Hf).
    unfold verdict. rewrite Ha, Hu, Hf, Hop. by destruct rows.
Qed.

(** What a look can answer. *)
Inductive look_answer tk st (rows : list ListRemoteStepRunsForRunnerRow) : StepResult + LoopState → Prop :=
  | look_ends outcome : verdict st rows = Some outcome → look_answer tk st rows (inl outcome)
  | look_stops : verdict st rows = None → tk_wake tk = WakeStopped → look_answer tk st rows (inl StepStopped)
  | look_continues st' :
      verdict st rows = None → tk_wake tk ≠ WakeStopped → looked tk st st' rows →
      look_answer tk st rows (inr st').

Lemma wake_answer tk st st2 rows :
  verdict st rows = None →
  lp_operatorCancelled st2 = lp_operatorCancelled st →
  lp_cancellationNeeded st2 = lp_cancellationNeeded st || existsb (spent_row tk st) rows
    || (existsb (failing_row st) rows && existsb active_row rows) →
  lp_timedOut st2 = lp_timedOut st || (existsb (spent_row tk st) rows && String.eqb (first_lost (lp_failureAgent st) rows) "") →
  lp_cancellationRequested st2 = lp_cancellationRequested st →
  (∀ row, row ∈ rows → active_row row = true → lp_remaining st2 !! rr_AgentID row = Some (budget_left tk st row)) →
  (∀ row, row ∈ rows → active_row row = true → counting row = true →
     lp_transferred st2 !! rr_AgentID row = Some (tk_transfer tk (rr_AgentID row))) →
  look_answer tk st rows (wake_up (tk_wake tk) st2).
Proof.
  intros Hv Ec En Et Eq Hr Ht. unfold wake_up. destruct (tk_wake tk) eqn:Ew.
  - by apply look_stops.
  - apply look_continues; [done|congruence|]. rewrite Ec. destruct (lp_operatorCancelled st) eqn:Eop;
      split; rewrite ?Ew; cbn; rewrite ?Eop, ?orb_false_r, ?orb_true_r; done.
  - apply look_continues; [done|congruence|]. split; rewrite ?Ew, ?orb_false_r; done.
Qed.

Lemma look_cases tk st s :
  run_keys s →
  ∃ answer s', look deploymentID stepIndex stepName timeout tk st s = (answer, s') ∧ logged s s' ∧
    (look_answer tk st (step_rows s) answer ∨
     (has_log s = false ∧ s' = s ∧ ∃ e, answer = inl (StepError e))).
Proof.
  intros Hk. pose proof (step_rows_ok s Hk) as Hrows. unfold look.
  destruct (ListRemoteStepRunsForRunner deploymentID stepIndex s) as [[rows s0]|e] eqn:El; [|done].
  assert (rows = step_rows s) as -> by (unfold step_rows; by rewrite El).
  set (rows := step_rows s) in *. fold (first_round rows).
  destruct (observe_runs_spec tk rows st (first_round rows) s Hrows) as [(st1 & s' & E & Hs' & Hob)|(Hl & e & E)].
  2: { exists (inl (StepError e)), s. rewrite E. split; [done|]. split; [done|]. right. eauto. }
  rewrite E. eexists _, s'. split; [reflexivity|]. split; [done|]. left.
  destruct (existsb active_row rows) eqn:Ha.
  - destruct (judge_continues tk st st1 rows Hob Ha) as (Hv & st2 & Ej & Ec & En & Et & Eq & Er & Etr). rewrite Ej.
    apply wake_answer; [done|by rewrite Ec; apply Hob|by rewrite En, Ha, andb_true_r|done..| |].
    + rewrite Er. apply Hob.
    + rewrite Etr. apply Hob.
  - rewrite (judge_ends tk st st1 rows Hob Ha). destruct (verdict st rows) eqn:Hv; [by apply look_ends|].
    destruct Hob as [Ec Et En Eq Ef Hr Ht _].
    apply wake_answer; rewrite ?(not_active_not_spent _ _ _ Ha), ?Ha, ?andb_false_r, ?orb_false_r; done.
Qed.

(** One look at the runs of a step concludes exactly this: while the agent
    of any listed run may still act there is no outcome; otherwise a clean-up
    that is not confirmed comes first, then a failure (reported as unconfirmed
    when the operator has cancelled, as a timeout when the time was used up),
    then the operator's cancellation, then success. Success is reported exactly
    when there is a run, every listed run has succeeded and the operator has not
    cancelled. Without an outcome the loop goes on and knows whether the runs
    have to be cancelled. *)
Theorem step_verdict tk st s :
  run_keys s → has_log s = true →
  let rows := step_rows s in
  ∃ answer s', look deploymentID stepIndex stepName timeout tk st s = (answer, s') ∧ same_queue_tables s s' ∧
    look_answer tk st rows answer ∧
    (answer = inl StepSucceeded ↔
       rows ≠ [] ∧ (∀ row, row ∈ rows → rr_State row = "succeeded") ∧ lp_operatorCancelled st = false).
Proof.
  intros Hk Hlog rows. destruct (look_cases tk st s Hk) as (answer & s' & E & [Hs' _] & [Ha|[Hl _]]); [|congruence].
  exists answer, s'. split; [done|]. split; [done|]. split; [done|].
  assert (Hall : (∀ row, row ∈ rows → rr_State row = "succeeded") ↔ forallb succeeded_row rows = true).
  { rewrite forallb_forall. apply forall_proper. intros row. rewrite <-list_elem_of_In. unfold succeeded_row.
    by rewrite String.eqb_eq. }
  rewrite Hall. split.
  - intros ->. inversion Ha as [o Hv Ho| |]; subst. apply verdict_succeeded in Hv. exact Hv.
  - intros Hv. apply verdict_succeeded in Hv. fold rows in Ha.
    inversion Ha; subst; congruence.
Qed.
End observation.

(** ** Rounds *)
Section rounds.
Context `{Server}.
Context (order : gmap nat nat → list (nat * nat)) (scrubber : option Scrubber) (limit : Z).
Context (deploymentID stepIndex : Z) (stepName : string) (timeout : Z).
Implicit Types (st : LoopState) (s : DB) (rounds : list (list event * tick)).

(** The server's calls between two rounds. *)
Definition played rounds : list ((DB → DB) * tick) := (λ p, (run p.1, p.2)) <$> rounds.

Notation look' := (look deploymentID stepIndex stepName timeout).
Notation iterate' := (iterate deploymentID stepIndex stepName timeout).
Notation watch' := (watch deploymentID stepIndex stepName timeout).
Notation rows_of := (step_rows deploymentID stepIndex).

(** What the loop reads, once the cancellation is stored. *)
Definition cancellable (r : RemoteStepRun) : bool :=
  Z.eqb (r_DeploymentID r) deploymentID && (r_State r ∈? ["waiting"; "claimed"; "started"]).

Definition called_off (now : Z) (r : RemoteStepRun) : RemoteStepRun :=
  let waiting := String.eqb (r_State r) "waiting" in
  r_set_State (if waiting then "cancelled" else "cancel_requested")
    (r_set_CancelRequestedAt (Some now)
      (r_set_FinishedAt (if waiting then Some now else r_FinishedAt r) (r_set_UpdatedAt now r))).

Lemma cancel_runs_exec now s :
  runs_ok (db_runs s) = true →
  ∃ n, RequestRemoteStepCancellation now deploymentID s =
    Ok (n, set_runs (update_rows cancellable (called_off now) <$> db_runs s) s).
Proof.
  intros Hok. destruct (update_runs_exec s (λ _, cancellable) (λ _, called_off now) Hok) as (n & Hn & _); [|by exists n].
  intros r Hr. unfold cancellable in Hr. apply andb_true_iff in Hr as [_ Hst]. apply in_list_true in Hst.
  unfold admissible, called_off. cbv zeta. split_and!; [by left|done|by left|..].
  - by destruct (String.eqb (r_State r) "waiting").
  - destruct (String.eqb_spec (r_State r) "waiting") as [|Hne]; [done|]. intros _.
    rewrite !elem_of_cons, elem_of_nil in Hst. destruct Hst as [?|[->|[->|[]]]]; done.
Qed.

Lemma logged_sys s s' : logged s s' → store_step false s s'.
Proof. intros [Hs _]. by apply sys_same. Qed.

(** A round whose cancellation is due stores it first. *)
Lemma iterate_cancels tk st s :
  store_inv false s → lp_cancellationNeeded st = true → lp_cancellationRequested st = false →
  ∃ answer s', iterate' tk st s = (answer, s') ∧ store_step false s s' ∧
    db_runs s' = update_rows cancellable (called_off (tk_now tk)) <$> db_runs s.
Proof.
  intros Hinv Hn Hq. destruct (cancel_runs_exec (tk_now tk) s (proj1 (si_runs _ Hinv))) as (n & E).
  pose proof (sys_cancel_runs (full := false) (tk_now tk) deploymentID s n _ E) as Hstep.
  unfold iterate. rewrite Hn, Hq, E. cbn [negb andb].
  destruct (look_cases deploymentID stepIndex stepName timeout tk (lp_set_cancellationRequested true st) _
    (si_runs _ (proj1 (Hstep Hinv)))) as (answer & s' & El & Hs' & _).
  exists answer, s'. split; [done|]. split; [by etrans; [exact Hstep|apply logged_sys]|].
  destruct Hs' as [Hs' _]. by rewrite (sq_runs _ _ Hs').
Qed.

(** Any other round only looks. *)
Lemma iterate_looks tk st s :
  lp_cancellationNeeded st && negb (lp_cancellationRequested st) = false → iterate' tk st s = look' tk st s.
Proof. intros Hn. unfold iterate. by rewrite Hn. Qed.

Lemma iterate_step tk st s answer s' :
  store_inv false s → iterate' tk st s = (answer, s') → store_step false s s'.
Proof.
  intros Hinv E. destruct (lp_cancellationNeeded st && negb (lp_cancellationRequested st)) eqn:Hn.
  - apply andb_true_iff in Hn as [Hn Hq%negb_true_iff].
    destruct (iterate_cancels tk st s Hinv Hn Hq) as (a & s1 & E' & Hs & _). rewrite E in E'.
    by injection E' as _ ->.
  - rewrite iterate_looks in E by done.
    destruct (look_cases deploymentID stepIndex stepName timeout tk st s (si_runs _ Hinv)) as (a & s1 & E' & Hs & _).
    rewrite E in E'. injection E' as _ ->. by apply logged_sys.
Qed.

Lemma watch_step rounds st s answer s' :
  store_inv false s → watch' (played rounds) st s = (answer, s') → store_step false s s'.
Proof.
  revert st s. induction rounds as [|[events tk] rounds IH]; intros st s Hinv E; [by injection E as _ <-|].
  cbn [played fmap list_fmap watch fst snd] in E. pose proof (run_kept events s) as Hev.
  destruct (iterate' tk st (run events s)) as [[o|st1] s1] eqn:Ei;
    pose proof (iterate_step _ _ _ _ _ (proj1 (Hev Hinv)) Ei) as Hi.
  - injection E as _ <-. by etrans.
  - etrans; [exact Hev|]. etrans; [exact Hi|]. apply (IH st1 s1); [|done]. apply Hi, Hev, Hinv.
Qed.

(** A verdict is given on the rows that the store still has. *)
Lemma iterate_verdict tk st s outcome s' :
  store_inv false s → iterate' tk st s = (inl outcome, s') → outcome ≠ StepStopped → (∀ e, outcome ≠ StepError e) →
  ∃ st0, verdict st0 (rows_of s') = Some outcome.
Proof.
  intros Hinv E Hns Hne.
  assert (Hlook : ∀ st s, run_keys s → look' tk st s = (inl outcome, s') → ∃ st0, verdict st0 (rows_of s') = Some outcome).
  { clear E s Hinv. intros st0 s Hk E.
    destruct (look_cases deploymentID stepIndex stepName timeout tk st0 s Hk) as (a & s1 & E' & Hs & Ha).
    rewrite E in E'. injection E' as <- <-. destruct Ha as [Ha|(_ & _ & e & [= ->])]; [|by destruct (Hne e)].
    exists st0. replace (rows_of s') with (rows_of s); [by inversion Ha; subst|].
    destruct Hs as ([_ _ _ _ _ Hr] & _ & Hag). unfold step_rows. cbn [ListRemoteStepRunsForRunner read].
    unfold select_runs. by rewrite Hr, Hag. }
  destruct (lp_cancellationNeeded st && negb (lp_cancellationRequested st)) eqn:Hn.
  - unfold iterate in E. rewrite Hn in E.
    destruct (cancel_runs_exec (tk_now tk) s (proj1 (si_runs _ Hinv))) as (n & Ec). rewrite Ec in E.
    eapply Hlook; [|exact E]. exact (si_runs _ (proj1 (sys_cancel_runs (full := false) _ _ _ _ _ Ec Hinv))).
  - rewrite iterate_looks in E by done. eapply Hlook; [|exact E]. apply (si_runs _ Hinv).
Qed.

Lemma line_logged line word s : logged s (writeLine deploymentID stepName (Some stepIndex) line word s).2.
Proof.
  unfold writeLine, Repository_CreateStepDeploymentLog, withDeploymentLogTx, WithTx, LockDeploymentLogStream, mbind,
    tx_bind, read.
  destruct (not_null (db_step_sources s !! deploymentID)); cbn; [|done]. split; [|done]. by split.
Qed.

Lemma state_logged word s : logged s (LogWriter.state deploymentID stepName (Some stepIndex) word s).2.
Proof.
  pose proof (state_logs deploymentID stepIndex stepName word s) as Hst.
  destruct (has_log deploymentID s); [destruct Hst as (s' & -> & ?)|rewrite Hst]; done.
Qed.

Lemma write_lines_logged lines s : logged s (write_lines deploymentID stepName (Some stepIndex) lines s).2.
Proof.
  revert s. induction lines as [|line lines IH]; intros s; [done|]. cbn.
  pose proof (line_logged line "" s) as Hl. destruct (writeLine _ _ _ line "" s) as [[u|e] s1]; cbn in Hl |- *; [|done].
  by etrans.
Qed.

Lemma print_logged text s : logged s (print_line order scrubber limit deploymentID stepIndex stepName text s).
Proof.
  unfold print_line, Write, Flush. cbn [w_outputFailed w_buf].
  destruct (_ <? _).
  { pose proof (line_logged errPendingLogLimit "" s) as Hl.
    by destruct (writeLine _ _ _ errPendingLogLimit "" s) as [r s1]. }
  destruct (last_index _ _) as [n|]; [destruct (release_point _ _ _ _ _) as [m|]|].
  - match goal with |- context [write_lines _ _ _ ?l s] =>
      pose proof (write_lines_logged l s) as Hl; destruct (write_lines _ _ _ l s) as [r s1] end.
    cbn [w_outputFailed w_buf snd] in *. destruct (String.eqb _ _); [done|]. etrans; [exact Hl|].
    match goal with |- context [writeLine _ _ _ ?l "" s1] =>
      pose proof (line_logged l "" s1) as Hl1; by destruct (writeLine _ _ _ l "" s1) as [r1 s2] end.
  - cbn [w_outputFailed w_buf]. destruct (String.eqb _ _); [done|].
    match goal with |- context [writeLine _ _ _ ?l "" s] =>
      pose proof (line_logged l "" s) as Hl1; by destruct (writeLine _ _ _ l "" s) as [r1 s2] end.
  - cbn [w_outputFailed w_buf]. destruct (String.eqb _ _); [done|].
    match goal with |- context [writeLine _ _ _ ?l "" s] =>
      pose proof (line_logged l "" s) as Hl1; by destruct (writeLine _ _ _ l "" s) as [r1 s2] end.
Qed.

Notation enqueue' := (enqueue order scrubber limit deploymentID stepIndex stepName).

Lemma enqueue_cases interpreter s :
  store_step false s (enqueue' interpreter s).2 ∧
  ∀ outcome, (enqueue' interpreter s).1 = Some outcome → ∃ e, outcome = StepError e.
Proof.
  pose proof (perform_step (full := false) (EvQueueSteps deploymentID stepIndex) s ltac:(done)) as Hq. cbn [perform] in Hq. unfold enqueue.
  assert (Hp : ∀ text s1, store_step false s s1 → store_step false s (print_line order scrubber limit deploymentID stepIndex stepName text s1)).
  { intros text s1 Hs. etrans; [exact Hs|]. apply logged_sys, print_logged. }
  destruct (QueueRemoteStepRuns deploymentID stepIndex s) as [[n|e] s1]; cbn [snd] in Hq.
  - destruct (Z.eqb n 0); [|by split; [apply Hp|]].
    destruct (GetDeploymentArtifact deploymentID s1) as [[x s2]|[]];
      (split; [by try apply Hp|intros o [= <-]; eauto]).
  - destruct e; (split; [by try apply Hp|intros o [= <-]; eauto]).
Qed.

Lemma finish_log_logged outcome s : logged s (finish_step_log deploymentID stepIndex stepName outcome s).
Proof. destruct outcome; try apply state_logged. done. Qed.

Lemma rows_logged s s' : logged s s' → rows_of s' = rows_of s.
Proof.
  intros ([_ _ _ _ _ Hr] & _ & Hag). unfold step_rows. cbn [ListRemoteStepRunsForRunner read].
  unfold select_runs. by rewrite Hr, Hag.
Qed.

Lemma watch_verdict rounds st s outcome s' :
  store_inv false s → watch' (played rounds) st s = (inl outcome, s') →
  outcome ≠ StepStopped → (∀ e, outcome ≠ StepError e) → ∃ st0, verdict st0 (rows_of s') = Some outcome.
Proof.
  revert st s. induction rounds as [|[events tk] rounds IH]; intros st s Hinv E Hns Hne; [done|].
  cbn [played fmap list_fmap watch fst snd] in E. pose proof (proj1 (run_kept events s Hinv)) as Hev.
  destruct (iterate' tk st (run events s)) as [[o|st1] s1] eqn:Ei.
  - injection E as -> ->. by eapply iterate_verdict.
  - apply (IH st1 s1); try done. exact (proj1 (iterate_step _ _ _ _ _ Hev Ei Hev)).
Qed.

Lemma run_remote_cases limits step rounds s outcome s' :
  store_inv false s →
  runRemoteStep order scrubber limit deploymentID stepIndex stepName timeout limits step false (played rounds) s = (Some outcome, s') →
  store_inv false s' ∧
  (outcome = StepStopped ∨ (∃ e, outcome = StepError e) ∨ ∃ st0, verdict st0 (rows_of s') = Some outcome).
Proof.
  intros Hinv. unfold runRemoteStep. destruct (String.eqb _ _); [intros [= <- <-]; eauto|].
  destruct (ValidateLimitsWithPolicy _ _ _); [|intros [= <- <-]; eauto].
  pose proof (state_logged "waiting" s) as Hw.
  destruct (LogWriter.state _ _ _ _ s) as [[u|e] s1]; cbn [snd] in Hw;
    pose proof (proj1 (logged_sys _ _ Hw Hinv)) as Hinv1; [|intros [= <- <-]; eauto].
  destruct (enqueue_cases (sd_Interpreter step) s1) as [Hq Hqo].
  destruct (enqueue' (sd_Interpreter step) s1) as [[o|] s2]; cbn [fst snd] in Hq, Hqo.
  - intros [= <- <-]. split; [exact (proj1 (logged_sys _ _ (finish_log_logged _ _) (proj1 (Hq Hinv1))))|].
    right; left. by apply Hqo.
  - destruct (watch' (played rounds) loop_start s2) as [[o|] s3] eqn:Ew; [|done].
    pose proof (proj1 (watch_step _ _ _ _ _ (proj1 (Hq Hinv1)) Ew (proj1 (Hq Hinv1)))) as Hinv3.
    intros [= <- <-]. pose proof (finish_log_logged o s3) as Hf. rewrite (rows_logged _ _ Hf).
    split; [exact (proj1 (logged_sys _ _ Hf Hinv3))|].
    destruct o; try (right; right; eapply watch_verdict; [exact (proj1 (Hq Hinv1))|exact Ew|done..]); eauto.
Qed.

(** C7: whatever else the server does between the rounds of the loop, when a
    step of agents ends no agent may still act on a listed run, unless the step
    ends for an error or because the server stops; and when it is reported as
    succeeded then every listed run has succeeded, there is one, and each keeps
    this outcome in every later run of the server. *)
Theorem step_outcome_sound limits step rounds s outcome s' :
  store_inv false s →
  runRemoteStep order scrubber limit deploymentID stepIndex stepName timeout limits step false (played rounds) s = (Some outcome, s') →
  store_inv false s' ∧
  (outcome = StepStopped ∨ (∃ e, outcome = StepError e) ∨ ∀ row, row ∈ rows_of s' → active_row row = false) ∧
  (outcome = StepSucceeded →
     rows_of s' ≠ [] ∧ ∀ row, row ∈ rows_of s' → rr_State row = "succeeded" ∧
       ∀ events, ∃ r, db_runs (run events s') !! (deploymentID, stepIndex, rr_AgentID row) = Some r ∧
         r_State r = "succeeded").
Proof.
  intros Hinv E. destruct (run_remote_cases _ _ _ _ _ _ Hinv E) as [Hinv' Ho]. split; [done|]. split.
  - destruct Ho as [?|[?|(st0 & Hv)]]; [by left|by right; left|]. right; right. unfold verdict in Hv.
    destruct (existsb active_row (rows_of s')) eqn:Ha; [done|]. intros row Hin.
    destruct (active_row row) eqn:Hr; [|done]. rewrite <-Ha. symmetry. apply existsb_exists.
    exists row. by rewrite <-list_elem_of_In.
  - intros ->. destruct Ho as [?|[[e ?]|(st0 & Hv)]]; [done..|].
    apply verdict_succeeded in Hv as (Hne & Hall & _). split; [done|]. intros row Hin.
    rewrite forallb_forall in Hall. specialize (Hall row). rewrite <-list_elem_of_In in Hall.
    specialize (Hall Hin). apply String.eqb_eq in Hall. split; [done|]. intros events.
    apply step_rows_elem in Hin as (r & a & Hr & Hof & _ & ->); [|apply Hinv']. cbn in *.
    unfold of_step in Hof. rewrite andb_true_iff, !Z.eqb_eq in Hof. destruct Hof as [Hd Hs].
    destruct (run_kept events s' Hinv') as (_ & _ & _ & Hf). destruct (Hf _ _ Hr) as (r' & Hr' & _ & Hst).
    exists r'. unfold run_key in Hr'. rewrite Hd, Hs in Hr'. split; [done|]. rewrite Hall in Hst.
    apply (final_run_edge _ _ Hst). by left.
Qed.

(** ** Time *)

(** In every round the agent has a run whose time counts. *)
Fixpoint occupied (agent : string) rounds st s : bool :=
  match rounds with
  | [] => true
  | (events, tk) :: rounds =>
      let s := run events s in
      existsb (λ row, String.eqb (rr_AgentID row) agent && active_row row && counting row) (rows_of s)
      && match iterate' tk st s with (inr st, s) => occupied agent rounds st s | _ => true end
  end.

Definition elapsed rounds : Z := foldr (λ p n, tk_elapsed p.2 + n) 0 rounds.

(** The budget without what transfers have taken so far. *)
Definition own_time (agent : string) st : Z :=
  default timeout (lp_remaining st !! agent) - default 0 (lp_transferred st !! agent).

Lemma iterate_continues tk st s st1 s1 :
  store_inv false s → iterate' tk st s = (inr st1, s1) →
  (lp_cancellationNeeded st = true ∧ lp_cancellationNeeded st1 = true) ∨
  (lp_cancellationNeeded st = false ∧ looked timeout tk st st1 (rows_of s)).
Proof.
  intros Hinv E.
  assert (Hlook : ∀ st s, run_keys s → look' tk st s = (inr st1, s1) → looked timeout tk st st1 (rows_of s)).
  { clear E s Hinv. intros st0 s Hk E.
    destruct (look_cases deploymentID stepIndex stepName timeout tk st0 s Hk) as (a & s2 & E' & _ & Ha).
    rewrite E in E'. injection E' as <- <-. destruct Ha as [Ha|(_ & _ & e & ?)]; [by inversion Ha|done]. }
  destruct (lp_cancellationNeeded st) eqn:Hn; [left|right]; (split; [done|]).
  - destruct (lp_cancellationRequested st) eqn:Hq.
    + rewrite iterate_looks in E by (by rewrite Hn, Hq).
      by rewrite (lk_needed _ _ _ _ _ (Hlook _ _ (si_runs _ Hinv) E)), Hn.
    + unfold iterate in E. rewrite Hn, Hq in E.
      destruct (cancel_runs_exec (tk_now tk) s (proj1 (si_runs _ Hinv))) as (n & Ec). rewrite Ec in E. cbn [negb andb] in E.
      pose proof (proj1 (sys_cancel_runs (full := false) _ _ _ _ _ Ec Hinv)) as Hinv1.
      rewrite (lk_needed _ _ _ _ _ (Hlook _ _ (si_runs _ Hinv1) E)). cbn. by rewrite Hn.
  - rewrite iterate_looks in E by (by rewrite Hn). apply Hlook; [apply Hinv|done].
Qed.

(** One round charges the agent for what it took. *)
Lemma round_charges agent tk st s st1 s1 :
  store_inv false s → iterate' tk st s = (inr st1, s1) →
  existsb (λ row, String.eqb (rr_AgentID row) agent && active_row row && counting row) (rows_of s) = true →
  lp_cancellationNeeded st1 = true ∨
  (own_time agent st1 ≤ own_time agent st - tk_elapsed tk ∧
   0 < own_time agent st1 + tk_transfer tk agent).
Proof.
  intros Hinv E Hocc. destruct (iterate_continues tk st s st1 s1 Hinv E) as [[_ ?]|[_ Hl]]; [by left|].
  apply existsb_exists in Hocc as (row & Hin & Hrow). rewrite <-list_elem_of_In in Hin.
  rewrite !andb_true_iff in Hrow. destruct Hrow as [[<-%String.eqb_eq Ha] Hc].
  pose proof (lk_remaining _ _ _ _ _ Hl row Hin Ha) as Hr. pose proof (lk_transferred _ _ _ _ _ Hl row Hin Ha Hc) as Ht.
  destruct (Z.leb_spec (budget_left timeout tk st row) 0) as [Hle|Hlt].
  - left. rewrite (lk_needed _ _ _ _ _ Hl). replace (existsb (spent_row timeout tk st) (rows_of s)) with true;
      [by rewrite orb_true_r|]. symmetry. apply existsb_exists. exists row. rewrite <-list_elem_of_In.
    split; [done|]. unfold spent_row. rewrite Ha. by apply Z.leb_le.
  - right. unfold own_time. rewrite Hr, Ht. unfold budget_left, used in *. rewrite Hc in *.
    cbn [default from_option] in Hlt |- *. unfold id in *. lia.
Qed.

Lemma watch_charges agent rounds st s st' s' :
  store_inv false s → watch' (played rounds) st s = (inr st', s') → occupied agent rounds st s = true →
  lp_cancellationNeeded st' = true ∨
  (own_time agent st' ≤ own_time agent st - elapsed rounds ∧
   ∀ p, last rounds = Some p → 0 < own_time agent st' + tk_transfer p.2 agent).
Proof.
  revert st s. induction rounds as [|[events tk] rounds IH]; intros st s Hinv E Hocc.
  { right. injection E as -> ->. cbn. split; [lia|done]. }
  cbn [played fmap list_fmap watch fst snd] in E. cbn [occupied] in Hocc.
  pose proof (proj1 (run_kept events s Hinv)) as Hev.
  destruct (iterate' tk st (run events s)) as [[o|st1] s1] eqn:Ei; [done|].
  apply andb_true_iff in Hocc as [Hrow Hocc].
  pose proof (proj1 (iterate_step _ _ _ _ _ Hev Ei Hev)) as Hinv1.
  assert (Hmono : lp_cancellationNeeded st1 = true → lp_cancellationNeeded st' = true).
  { clear -E Hinv1. revert st1 s1 Hinv1 E. induction rounds as [|[ev t] rounds IH]; intros st1 s1 Hinv1 E Hn.
    { by injection E as -> ->. }
    cbn [played fmap list_fmap watch fst snd] in E. pose proof (proj1 (run_kept ev s1 Hinv1)) as Hev.
    destruct (iterate' t st1 (run ev s1)) as [[o|st2] s2] eqn:Ei; [done|].
    apply (IH st2 s2); [exact (proj1 (iterate_step _ _ _ _ _ Hev Ei Hev))|done|].
    by destruct (iterate_continues _ _ _ _ _ Hev Ei) as [[_ ?]|[? _]]; [|congruence]. }
  destruct (round_charges agent tk st _ st1 s1 Hev Ei Hrow) as [Hn|[Hle Hpos]]; [left; by apply Hmono|].
  destruct (IH st1 s1 Hinv1 E Hocc) as [?|[Hle' Hlast]]; [by left|]. right.
  change (elapsed ((events, tk) :: rounds)) with (tk_elapsed tk + elapsed rounds). split; [lia|].
  intros p. destruct rounds as [|q rounds]; [|by rewrite last_cons_cons; apply Hlast].
  intros [= <-]. injection E as -> ->. exact Hpos.
Qed.

(** C16: the time of a step is bounded. When an agent has been busy with its run
    in every round of the loop and these rounds took the time of the step, not
    counting its transfers of staged files, then the loop has decided to cancel,
    and unless it has already asked for that, the next round leaves no run of
    the deployment that waits, is handed out or is executed. *)
Theorem step_time_bounded agent rounds events tk s st' s' :
  store_inv false s →
  watch' (played (rounds ++ [(events, tk)])) loop_start s = (inr st', s') →
  occupied agent (rounds ++ [(events, tk)]) loop_start s = true →
  timeout + tk_transfer tk agent ≤ elapsed (rounds ++ [(events, tk)]) →
  lp_cancellationNeeded st' = true ∧
  (lp_cancellationRequested st' = false →
   ∀ events' tk', ∃ answer s2, iterate' tk' st' (run events' s') = (answer, s2) ∧
     ∀ k r, db_runs s2 !! k = Some r → r_DeploymentID r = deploymentID →
       r_State r ∉ ["waiting"; "claimed"; "started"]).
Proof.
  intros Hinv E Hocc Htime.
  assert (Hn : lp_cancellationNeeded st' = true).
  { destruct (watch_charges agent _ _ _ _ _ Hinv E Hocc) as [?|[Hle Hlast]]; [done|].
    specialize (Hlast (events, tk) (last_snoc _ _)). change (own_time agent loop_start) with (timeout - 0) in Hle. cbn [snd] in Hlast. lia. }
  split; [done|]. intros Hq events' tk'.
  pose proof (proj1 (watch_step _ _ _ _ _ Hinv E Hinv)) as Hinv1.
  destruct (iterate_cancels tk' st' _ (proj1 (run_kept events' s' Hinv1)) Hn Hq) as (answer & s2 & Ei & _ & Hr).
  exists answer, s2. split; [done|]. intros k r. rewrite Hr, lookup_fmap. intros (q & Hk & ->)%fmap_Some Hd Hin.
  unfold update_rows in Hd, Hin. destruct (cancellable q) eqn:Hc.
  - unfold called_off in Hin. cbn in Hin. by destruct (String.eqb (r_State q) "waiting");
      rewrite !elem_of_cons, elem_of_nil in Hin; destruct Hin as [?|[?|[?|[]]]].
  - unfold cancellable in Hc. rewrite Hd, Z.eqb_refl in Hc. apply in_list_true in Hin. by rewrite Hin in Hc.
Qed.
End rounds.

(** ** A step for one agent *)

#[local] Existing Instance sample_server.

Definition script_definition : Definition_ :=
  mkDefinition "script" None "deploy" "echo" "" 0 0 0 "agent" "host" [] "" "none" "" "" "" [].

(** Deployment 5, whose log has been opened. *)
Definition watched_store (runs : gmap (Z * Z * string) RemoteStepRun) : DB :=
  set_step_sources {[5 := "one"]} (sample_steps runs).

Definition second : Z := 1000000000.
Definition quiet_tick (seconds : Z) : tick := mkTick 1000 (seconds * second) (λ _, 0) WakeTick.

Definition sample_token : bytes := bytes_of "01234567890123456789012345678901".
Definition token_identity : RemoteLifecycleClaim := mkIdentity 5 "agent-1" (Some "01234567890123456789012345678901").
Definition narrow_request : PollRequest := mkPollRequest "agent/3" ["bash"] ["host"] [] [] false false "".

(** The agent takes the run, starts it and reports its outcome. *)
Definition sample_rounds : list (list event * tick) :=
  [([EvClaim "agent-1" narrow_request (Some sample_token)], quiet_tick 1);
   ([EvStartStep token_identity None], quiet_tick 1);
   ([EvFinishStep token_identity "succeeded"], quiet_tick 1)].

Lemma step_verdict_witness :
  let s := watched_store {[(5, 0, "agent-1") := sample_run_row "succeeded" (Some token_a) (Some 900)]} in
  run_keys s ∧ has_log 5 s = true ∧
  ∃ s', look 5 0 "deploy" (10 * second) (quiet_tick 1) loop_start s = (inl StepSucceeded, s').
Proof.
  intros s. assert (Hk : run_keys s) by (apply (si_runs (full := true)), sys_invb_sound; vm_compute; reflexivity).
  assert (Hl : has_log 5 s = true) by (vm_compute; reflexivity). split; [exact Hk|]. split; [exact Hl|].
  destruct (step_verdict 5 0 "deploy" (10 * second) (quiet_tick 1) loop_start s Hk Hl)
    as (answer & s' & E & _ & _ & Hiff).
  exists s'. rewrite E. f_equal. apply Hiff. split; [|split; [|reflexivity]].
  - vm_compute. discriminate.
  - intros row Hrow. assert (Hrows : step_rows 5 0 s = [mkRunnerRow "agent-1" "succeeded" None 0]) by (vm_compute; reflexivity).
    rewrite Hrows in Hrow. apply list_elem_of_singleton in Hrow. rewrite Hrow. reflexivity.
Defined.

Lemma step_outcome_sound_witness :
  sys_inv (watched_store ∅) ∧
  ∃ s', runRemoteStep (λ _, []) None 4096 5 0 "deploy" (10 * second) (mkLimits 10 3600) script_definition false
          (played sample_rounds) (watched_store ∅) = (Some StepSucceeded, s') ∧
    ∃ row, row ∈ step_rows 5 0 s' ∧ rr_State row = "succeeded".
Proof.
  assert (Hinv : sys_inv (watched_store ∅)) by (apply sys_invb_sound; vm_compute; reflexivity).
  split; [exact Hinv|].
  destruct (runRemoteStep (λ _, []) None 4096 5 0 "deploy" (10 * second) (mkLimits 10 3600) script_definition false
          (played sample_rounds) (watched_store ∅)) as [o s'] eqn:E.
  assert (Ho : o = Some StepSucceeded) by (vm_compute in E; injection E as <- _; reflexivity). subst o.
  exists s'. split; [reflexivity|].
  destruct (step_outcome_sound (λ _, []) None 4096 5 0 "deploy" (10 * second) (mkLimits 10 3600) script_definition sample_rounds
    (watched_store ∅) StepSucceeded s' (store_weaken _ _ Hinv) E) as (_ & _ & Hs).
  destruct (Hs eq_refl) as [Hne Hall]. destruct (step_rows 5 0 s') as [|row rows]; [destruct (Hne eq_refl)|].
  exists row. split; [left|]. apply Hall. left.
Defined.

(** Nobody takes the run for two rounds of six seconds. *)
Lemma step_time_bounded_witness :
  let s := watched_store {[(5, 0, "agent-1") := sample_run_row "waiting" None None]} in
  sys_inv s ∧
  ∃ st' s', watch 5 0 "deploy" (10 * second) (played [([], quiet_tick 6); ([], quiet_tick 6)]) loop_start s = (inr st', s') ∧
    lp_cancellationNeeded st' = true.
Proof.
  intros s. assert (Hinv : sys_inv s) by (apply sys_invb_sound; vm_compute; reflexivity). split; [exact Hinv|].
  destruct (watch 5 0 "deploy" (10 * second) (played [([], quiet_tick 6); ([], quiet_tick 6)]) loop_start s)
    as [[o|st'] s'] eqn:E; [vm_compute in E; discriminate E|].
  exists st', s'. split; [reflexivity|].
  apply (step_time_bounded 5 0 "deploy" (10 * second) "agent-1" [([], quiet_tick 6)] [] (quiet_tick 6) s st' s' (store_weaken _ _ Hinv) E).
  - vm_compute. reflexivity.
  - vm_compute. discriminate.
Defined.
