(* ===== verification/Container.v ===== *)
(** * Container: what the container client is asked to run

    internal/runner/local_step.go (localContainerArgs), local_environment.go,
    local_image.go, the arguments in artifact_staging.go, deployment_staging.go
    and ansible.go, and internal/interpreter. Everything here is a pure function
    of the attempt: the arguments of the client are a list of strings, the
    environment handed to the client a list of [name=value]. *)
From stdpp Require Import pretty.
From S2P Require Import Prelude Text Db Tx QueueQueries DispatchQueries RemoteLifecycle CreationQueries GateQueries ArtifactGate Base64 Secret Variables Resolution Ansible DeploymentCreation RemotePayload LogWriter.

(** ** Configuration *)

(** The fields of config.Limits that the runner reads, besides the execution
    limits that creation reads too ([ExecutionLimits]); the number of helper
    CPUs as strconv.FormatFloat prints it. *)
Record Limits_ := mkAllLimits {
  lm_DefaultTimeoutSeconds : Z;
  lm_DownloadBytes : Z;
  lm_ExtractedBytes : Z;
  lm_StagingNodes : Z;
  lm_PayloadBytes : Z;
  lm_Entries : Z;
  lm_AgentOutputs : Z;
  lm_MergeArchiveBytes : Z;
  lm_PIDs : Z;
  lm_TmpfsBytes : Z;
  lm_HelperPIDs : Z;
  lm_HelperCPUs : string;
  lm_HelperMemoryOverheadBytes : Z;
  lm_PendingBytes : Z }.

Record containerEndpoint := mkEndpoint {
  ep_kind : string;
  ep_binary : string;
  ep_url : string;
  ep_namespace : string }.

Definition podman (p : containerEndpoint) : bool := String.eqb (ep_kind p) "podman".
Definition docker (p : containerEndpoint) : bool := String.eqb (ep_kind p) "docker".

Definition scope (p : containerEndpoint) : string := ep_kind p +:+ ":" +:+ ep_namespace p.

Definition removeArgs (p : containerEndpoint) (name : string) : list string :=
  if docker p then ["rm"; "--force"; "--volumes"; name]
  else ["rm"; "--force"; "--time=0"; "--ignore"; name].

(** [true]: the container may still exist. *)
Definition removalError (p : containerEndpoint) (output : string) (failed : bool) : bool :=
  failed && negb (docker p && contains "No such container" output).

Definition artifactMount : string := "/artifacts".
Definition deploymentStageMount : string := "/stage".
Definition approvedMount : string := "/approved".
Definition ansibleMount : string := "/ansible".
Definition ansibleStagingBytes : Z := 8 * 2 ^ 20.

Definition artifactHelperImage : string :=
  "harbor.durp.info/dockerhub/library/alpine@sha256:ce64758a109eb420d874a118f87920e625e12d3634e03b4a5573fd9f6e5d3507".

Record artifactStage := mkArtifactStage {
  sg_volume : string;
  sg_keeper : string;
  sg_creationUnconfirmed : bool }.

(** Go's zero value: no volume. *)
Definition no_stage : artifactStage := mkArtifactStage "" "" false.

Definition present (stage : artifactStage) : bool := negb (String.eqb (sg_volume stage) "").

Record ansibleAttempt := mkAnsibleAttempt {
  aa_stage : artifactStage;
  aa_args : list string }.

Record localStepAttempt := mkAttempt {
  la_deploymentID : Z;
  la_step : Definition_;
  la_environment : gmap string string;
  la_attempt : Z;
  la_artifact : artifactStage;
  la_verification : bool;
  la_handoff : artifactStage;
  la_approved : artifactStage;
  la_ansible : ansibleAttempt }.

#[export] Instance localStepAttempt_eta : Eta localStepAttempt := λ a,
  mkAttempt (la_deploymentID a) (la_step a) (la_environment a) (la_attempt a) (la_artifact a)
    (la_verification a) (la_handoff a) (la_approved a) (la_ansible a).

Definition la_set_environment : gmap string string → localStepAttempt → localStepAttempt :=
  ltac:(set_field la_environment).
Definition la_set_ansible : ansibleAttempt → localStepAttempt → localStepAttempt := ltac:(set_field la_ansible).

(** ** The interpreter (internal/interpreter/interpreter.go) *)

Definition interpreter_Validate (value : string) : result string :=
  if String.eqb value "" then Ok "bash"
  else if String.eqb value "powershell" then Ok "pwsh"
  else if value ∈? ["bash"; "pwsh"; "python3"] then Ok value
  else Err (ErrOther "interpreter must be bash, pwsh (or powershell), or python3").

(** ** The image *)
Section image.
Context `{GoFormat}.

(** strings.ContainsAny with the five bytes. *)
Definition image_separator (c : Ascii.ascii) : bool :=
  existsb (Ascii.eqb c) (Ascii.ascii_of_nat <$> [32; 9; 13; 10; 0]%nat).

Definition validateLocalContainerImage (step : Definition_) : result unit :=
  let image := sd_ContainerImage step in
  if String.eqb image "" then
    Err (ErrOther ("step " +:+ quote (sd_Name step)
                   +:+ " has no container image (legacy local steps cannot run on the host)"))
  else if String.prefix "-" image || existsb image_separator (String.list_ascii_of_string image) then
    Err (ErrOther ("step " +:+ quote (sd_Name step) +:+ " has an invalid container image"))
  else Ok tt.
End image.

(** ** The environment of a script *)

(** [containerenv.ValidateSelection] *)
Definition ValidateSelection (name : string) (local : bool) : option error :=
  if IsEnvironmentIdentity name then None else ValidateName name local.

Definition shell_variables : list string :=
  ["BASH_ENV"; "ENV"; "SHELLOPTS"; "BASHOPTS"; "CDPATH"; "GLOBIGNORE"; "PS4"; "GCONV_PATH"; "GLIBC_TUNABLES"].

Section environment.
Context `{GoFormat}.
Implicit Types (request : localStepAttempt).

Definition validExecutionVariable request (name : string) : bool :=
  if la_verification request && (String.prefix "LD_" name || (name ∈? shell_variables)) then false
  else if String.eqb name "ARTIFACT_PATH" && negb (present (la_artifact request)) then true
  else is_null (ValidateSelection name true).

(** The names of a Go map come in any order; an error does not depend on it,
    and the result is sorted. *)
Definition executionVariableNames request : result (list string) :=
  match sd_VariableNames (la_step request) with
  | [] =>
      let names := dom (la_environment request) in
      if bool_decide (set_Forall (λ name, ValidateIdentifier name = None) names)
      then Ok (sorted (filter (λ name, validExecutionVariable request name = true) names))
      else Err (ErrEnvironment "invalid execution environment: variable name is not an identifier")
  | names =>
      Ok (foldl (λ names name,
            if not_null (la_environment request !! name) && bool_decide (name ∉ names)
            then names ++ [name] else names)
          names [EnvironmentNameVariable; EnvironmentIDVariable])
  end.

(** The loop over the names: the entries of the client's environment. *)
Fixpoint select_environment request (names : list string) : result (list string) :=
  match names with
  | [] => Ok []
  | name :: names =>
      let value := default "" (la_environment request !! name) in
      ValidateEntry name value;;
      if negb (validExecutionVariable request name) || is_null (la_environment request !! name)
      then Err (ErrOther ("invalid or unavailable selected variable " +:+ quote name))
      else
        rest ← select_environment request names;
        Ok ((name +:+ "=" +:+ value) :: rest)
  end.

(** The variables that name the mounts. *)
Definition mount_variables request : list (string * string) :=
  (if present (la_artifact request) then [("ARTIFACT_PATH", artifactMount)] else [])
  ++ (if present (la_handoff request) then [(StageVariable, deploymentStageMount)] else [])
  ++ (if present (la_approved request) then [("DURPDEPLOY_APPROVED_DIR", approvedMount)] else []).

Definition env_args (names : list string) : list string := names ≫= λ name, ["--env"; name].

Definition ansibleSSHArgs : string :=
  "-F /dev/null -o BatchMode=yes -o StrictHostKeyChecking=yes -o UserKnownHostsFile=/ansible/known_hosts -o GlobalKnownHostsFile=/dev/null -o IdentitiesOnly=yes -o IdentityAgent=none -o ForwardAgent=no -o ProxyCommand=none -o ProxyJump=none -o ControlMaster=no".

Definition ansibleEnvironmentArgs (a : option Ansible) : list string :=
  ["--env=ANSIBLE_CONFIG=/ansible/ansible.cfg"; "--env=ANSIBLE_NOCOLOR=1"; "--env=ANSIBLE_LOG_PATH=";
   "--env=SSH_AUTH_SOCK="; "--env=SSH_AGENT_PID="; "--env=HTTP_PROXY="; "--env=HTTPS_PROXY=";
   "--env=ALL_PROXY="; "--env=http_proxy="; "--env=https_proxy="; "--env=all_proxy="]
  ++ (if match a with Some a => negb (String.eqb (an_Connection a) "local") | None => true end
      then ["--env=ANSIBLE_HOST_KEY_CHECKING=True"; "--env=ANSIBLE_PRIVATE_KEY_FILE=/ansible/id_key";
            "--env=ANSIBLE_SSH_ARGS=" +:+ ansibleSSHArgs; "--env=ANSIBLE_SSH_COMMON_ARGS=";
            "--env=ANSIBLE_SSH_EXTRA_ARGS="]
      else []).

(** The entries added to the client's environment, and its arguments. *)
Definition containerEnvironment request : result (list string * list string) :=
  if String.eqb (sd_Kind (la_step request)) "ansible"
  then Ok ([], ansibleEnvironmentArgs (sd_Ansible (la_step request)))
  else
    names ← executionVariableNames request;
    selected ← select_environment request names;
    Ok (selected ++ ((λ v, v.1 +:+ "=" +:+ v.2) <$> mount_variables request),
        env_args names ++ env_args (mount_variables request).*1).
End environment.

(** ** The arguments of the attempt's container *)
Section arguments.
Context (p : containerEndpoint) (limits : Limits_).

Definition artifactMountArgs (stage : artifactStage) : list string :=
  if present stage then
    ["--volume=" +:+ sg_volume stage +:+ ":" +:+ artifactMount
     +:+ (if podman p then ":ro,noexec,nosuid,nodev,nocopy" else ":ro,nocopy")]
  else [].

Definition deploymentMountArgs (stage : artifactStage) : list string :=
  if present stage then
    ["--volume=" +:+ sg_volume stage +:+ ":" +:+ deploymentStageMount
     +:+ (":rw,nocopy" +:+ (if podman p then ",noexec,nosuid,nodev,z" else ""))]
  else [].

Definition readonlyMountArgs (stage : artifactStage) (mount : string) : list string :=
  if present stage then ["--volume=" +:+ sg_volume stage +:+ ":" +:+ mount +:+ ":ro,nocopy"] else [].

Definition tmpfs_option (request : localStepAttempt) : string :=
  if negb (String.eqb (sd_ApprovalArtifactPath (la_step request)) "") || present (la_approved request)
  then "--tmpfs=/tmp:rw,exec,nosuid,nodev,size=" +:+ pretty (lm_DownloadBytes limits + lm_TmpfsBytes limits)
  else "--tmpfs=/tmp:rw,nosuid,size=" +:+ pretty (lm_TmpfsBytes limits).

Definition network_of (step : Definition_) : string :=
  if String.eqb (sd_NetworkMode step) "" then "none" else sd_NetworkMode step.

(** What is run in the container, after the image. *)
Definition container_command (request : localStepAttempt) (selected : string) : list string :=
  if String.eqb (sd_Kind (la_step request)) "ansible" then aa_args (la_ansible request)
  else if String.eqb selected "bash" then (if la_verification request then ["-p"] else []) ++ ["-s"]
  else if String.eqb selected "pwsh" then ["-NoLogo"; "-NoProfile"; "-NonInteractive"; "-Command"; "-"]
  else if String.eqb selected "python3" then ["-"] else [].

(** The options of the [run] command: before the environment and after it.
    [timeout] is in nanoseconds. *)
Definition base_options (request : localStepAttempt) (name : string) (timeout : Z) : list string :=
  (if podman p then ["--rm"] else [])
  ++ ["--interactive"; "--pull=missing";
      (if podman p then "--timeout=" else "--stop-timeout=") +:+ pretty (timeout `quot` 1000000000);
      "--log-driver=none";
      "--name=" +:+ name; "--label=io.durpdeploy.attempt=" +:+ name;
      "--label=io.durpdeploy.namespace=" +:+ scope p;
      "--network=" +:+ network_of (la_step request); "--read-only"; "--cap-drop=ALL";
      "--security-opt=no-new-privileges"; "--user=65534:65534";
      tmpfs_option request;
      "--env=HOME=/tmp"; "--env=TERM=dumb";
      "--pids-limit=" +:+ pretty (lm_PIDs limits)]
  ++ (if podman p then ["--image-volume=ignore"; "--http-proxy=false"] else []).

Definition mount_options (request : localStepAttempt) : list string :=
  artifactMountArgs (la_artifact request)
  ++ deploymentMountArgs (la_handoff request)
  ++ readonlyMountArgs (la_approved request) approvedMount
  ++ readonlyMountArgs (aa_stage (la_ansible request)) ansibleMount.

Definition localContainerArgs (request : localStepAttempt) (name selected : string) (timeout : Z)
    (envArgs : list string) : list string :=
  ["run"] ++ base_options request name timeout ++ envArgs ++ mount_options request
  ++ ["--entrypoint=" +:+ selected; sd_ContainerImage (la_step request)]
  ++ container_command request selected.

(** ** Staging volumes (createStagingVolume) *)

(** [pagesize]: os.Getpagesize. *)
Context (pagesize : Z).

Definition artifactStagingCapacity : Z := lm_ExtractedBytes limits + lm_StagingNodes limits * pagesize.

Definition staging_capacity (mount : string) : Z * Z :=
  if String.eqb mount ansibleMount then (ansibleStagingBytes, 16)
  else if String.eqb mount deploymentStageMount
       then (lm_PayloadBytes limits + lm_Entries limits * pagesize, lm_Entries limits)
  else (artifactStagingCapacity, lm_StagingNodes limits).

Definition volumeArgs (volume mount : string) : list string :=
  let '(capacity, nodes) := staging_capacity mount in
  ["volume"; "create"; "--label=io.durpdeploy.artifact=true"; "--label=io.durpdeploy.namespace=" +:+ scope p]
  ++ (if docker p || String.eqb mount deploymentStageMount || String.eqb mount ansibleMount
      then ["--driver=local"; "--opt=type=tmpfs"; "--opt=device=tmpfs";
            "--opt=o=noexec,nosuid,nodev,size=" +:+ pretty capacity +:+ ",nr_inodes="
            +:+ pretty (2 * (nodes + 1)) +:+ ",uid=65534,gid=65534,mode=0755"]
      else [])
  ++ [volume].

Definition keeperArgs (stage : artifactStage) (mount : string) : list string :=
  let '(capacity, _) := staging_capacity mount in
  let keeperMount := sg_volume stage +:+ ":" +:+ mount +:+ ":rw,nocopy"
    +:+ (if podman p then ",noexec,nosuid,nodev"
           +:+ (if String.eqb mount deploymentStageMount || String.eqb mount ansibleMount then ",z" else ",U")
         else "") in
  ["run"; "--detach"; "--pull=missing"; "--name=" +:+ sg_keeper stage;
   "--label=io.durpdeploy.namespace=" +:+ scope p;
   "--network=none"; "--read-only"; "--cap-drop=ALL";
   "--security-opt=no-new-privileges"; "--user=65534:65534";
   "--pids-limit=" +:+ pretty (lm_HelperPIDs limits);
   "--memory=" +:+ pretty (capacity + lm_HelperMemoryOverheadBytes limits);
   "--cpus=" +:+ lm_HelperCPUs limits;
   "--volume=" +:+ keeperMount;
   "--entrypoint=/usr/bin/tail"; artifactHelperImage; "-f"; "/dev/null"].
End arguments.
