(* ===== verification/ContainerTheorems.v ===== *)
(** * ContainerTheorems: a step's container is confined

    What the client reads from the arguments of an attempt, and that they do not
    depend on the values of the variables. *)
From stdpp Require Import pretty.
From S2P Require Import Prelude Text Db Tx QueueQueries DispatchQueries RemoteLifecycle CreationQueries GateQueries ArtifactGate Base64 Secret Variables Resolution Ansible DeploymentCreation RemotePayload LogWriter Container.

(** ** The usage [run OPTIONS IMAGE COMMAND]

    An argument that begins with two dashes is an option, with its value after
    the first equals sign; [--env] alone takes the next argument. *)
Definition option_of (arg : string) : string * string :=
  match cut (Ascii.ascii_of_nat 61) arg with Some kv => kv | None => (arg, "") end.

Fixpoint read_options (args : list string) : list (string * string) * list string :=
  match args with
  | [] => ([], [])
  | arg :: rest =>
      if String.eqb arg "--env" then
        match rest with
        | name :: rest => let '(options, rest) := read_options rest in (("--env", name) :: options, rest)
        | [] => ([], args)
        end
      else if String.prefix "--" arg then
        let '(options, rest) := read_options rest in (option_of arg :: options, rest)
      else ([], args)
  end.

(** Arguments that are read as options whatever follows them. *)
Definition reads_as (args : list string) (options : list (string * string)) : Prop :=
  ∀ rest, read_options (args ++ rest) = ((options ++ (read_options rest).1), (read_options rest).2).

Lemma reads_nil : reads_as [] [].
Proof. intros rest. cbn. by destruct (read_options rest). Qed.

Lemma reads_app a b oa ob : reads_as a oa → reads_as b ob → reads_as (a ++ b) (oa ++ ob).
Proof. intros Ha Hb rest. by rewrite <-(assoc_L (++)), Ha, Hb, <-(assoc_L (++)). Qed.

Lemma reads_option arg :
  String.eqb arg "--env" = false → String.prefix "--" arg = true → reads_as [arg] [option_of arg].
Proof. intros He Hp rest. cbn [read_options app]. rewrite He, Hp. by destruct (read_options rest). Qed.

Lemma reads_cons arg l ol :
  String.eqb arg "--env" = false → String.prefix "--" arg = true → reads_as l ol →
  reads_as (arg :: l) (option_of arg :: ol).
Proof. intros He Hp Hl. exact (reads_app [arg] l _ ol (reads_option _ He Hp) Hl). Qed.

Lemma reads_env names : reads_as (env_args names) ((λ name, ("--env", name)) <$> names).
Proof.
  induction names as [|name names IH]; [exact reads_nil|].
  intros rest. unfold env_args in *. cbn. rewrite IH. by destruct (read_options rest).
Qed.

Lemma reads_image image command :
  String.prefix "-" image = false → read_options (image :: command) = ([], image :: command).
Proof.
  intros Hp. destruct image as [|c image]; [done|].
  assert (Hc : c ≠ Ascii.ascii_of_nat 45).
  { intros ->. cbn in Hp. by destruct image. }
  cbn [read_options]. destruct (String.eqb_spec (String c image) "--env") as [[= -> _]|_]; [done|].
  assert (E : String.prefix "--" (String c image) = false).
  { cbn [String.prefix]. by destruct (Ascii.ascii_dec _ c) as [<-|_]. }
  by rewrite E.
Qed.

(** Options of one argument. *)
Lemma reads_plain args :
  forallb (λ arg, negb (String.eqb arg "--env") && String.prefix "--" arg) args = true →
  reads_as args (option_of <$> args).
Proof.
  induction args as [|arg args IH]; [intros _; exact reads_nil|]. cbn [forallb].
  rewrite !andb_true_iff, negb_true_iff. intros [[He Hp] Hall]. apply reads_cons; auto.
Qed.

Ltac reads :=
  repeat first
    [ apply reads_nil | apply reads_env | apply reads_app
    | apply reads_cons; [reflexivity|reflexivity|]
    | match goal with |- reads_as (if ?b then _ else _) _ => destruct b end ].

(** ** Allowed options *)
Section confined.
Context `{GoFormat} (p : containerEndpoint) (limits : Limits_).
Implicit Types (request : localStepAttempt).

Definition allowed_keys : list string :=
  ["--rm"; "--interactive"; "--pull"; "--timeout"; "--stop-timeout"; "--log-driver"; "--name"; "--label";
   "--network"; "--read-only"; "--cap-drop"; "--security-opt"; "--user"; "--tmpfs"; "--env"; "--pids-limit";
   "--image-volume"; "--http-proxy"; "--volume"; "--entrypoint"].

(** The options that may be given several times. *)
Definition repeated_keys : list string := ["--label"; "--env"; "--volume"].

Definition isolation : list (string * string) :=
  [("--read-only", ""); ("--cap-drop", "ALL"); ("--security-opt", "no-new-privileges");
   ("--user", "65534:65534"); ("--log-driver", "none")].

(** A variable of the snapshot that a script may be given. *)
Definition passed_variable request (name : string) : Prop :=
  ValidateIdentifier name = None ∧ is_Some (la_environment request !! name) ∧
  validExecutionVariable request name = true.

Definition volume_options request : list string :=
  [sg_volume (la_artifact request) +:+ ":" +:+ artifactMount
     +:+ (if podman p then ":ro,noexec,nosuid,nodev,nocopy" else ":ro,nocopy");
   sg_volume (la_handoff request) +:+ ":" +:+ deploymentStageMount
     +:+ (":rw,nocopy" +:+ (if podman p then ",noexec,nosuid,nodev,z" else ""));
   sg_volume (la_approved request) +:+ ":" +:+ approvedMount +:+ ":ro,nocopy";
   sg_volume (aa_stage (la_ansible request)) +:+ ":" +:+ ansibleMount +:+ ":ro,nocopy"].

Definition runner_variables : list string :=
  ["HOME=/tmp"; "TERM=dumb"; "ARTIFACT_PATH"; StageVariable; "DURPDEPLOY_APPROVED_DIR"].

Definition env_allowed request (value : string) : Prop :=
  value ∈ runner_variables ∨
  if String.eqb (sd_Kind (la_step request)) "ansible"
  then "--env=" +:+ value ∈ ansibleEnvironmentArgs (sd_Ansible (la_step request))
  else passed_variable request value.

Record option_allowed request (o : string * string) : Prop := {
  oa_key : o.1 ∈ allowed_keys;
  oa_network : o.1 = "--network" → o.2 = network_of (la_step request);
  oa_volume : o.1 = "--volume" → o.2 ∈ volume_options request;
  oa_env : o.1 = "--env" → env_allowed request o.2 }.

Lemma option_plain request key value :
  ((key ∈? allowed_keys) && negb (key ∈? ["--network"; "--volume"; "--env"]))%bool = true →
  option_allowed request (key, value).
Proof.
  intros [Hk Hn]%andb_true_iff. apply in_list_true in Hk. split; cbn; [done|..];
    by intros ->.
Qed.

Lemma option_env request value : env_allowed request value → option_allowed request ("--env", value).
Proof. intros Hv. split; cbn; [by apply (bool_decide_unpack _)|done..]. Qed.

Lemma option_network request : option_allowed request ("--network", network_of (la_step request)).
Proof. split; cbn; [by apply (bool_decide_unpack _)|done..]. Qed.

Lemma option_volume request value : value ∈ volume_options request → option_allowed request ("--volume", value).
Proof. intros Hv. split; cbn; [by apply (bool_decide_unpack _)|done..]. Qed.

(** ** The environment *)

Lemma select_environment_passed request names entries :
  select_environment request names = Ok entries →
  Forall (passed_variable request) names ∧
  entries = (λ name, name +:+ "=" +:+ default "" (la_environment request !! name)) <$> names.
Proof.
  revert entries. induction names as [|name names IH]; intros entries; cbn [select_environment].
  - intros [= <-]. done.
  - intros (u & Hv & E)%result_bind_ok. case_match eqn:Hb; [done|].
    apply orb_false_iff in Hb as [Hvalid Hnull]. apply negb_false_iff in Hvalid.
    apply result_bind_ok in E as (rest & E & [= <-]). destruct (IH _ E) as [Hall ->].
    split; [|done]. constructor; [|done]. split; [|split]; [|..|done].
    + unfold ValidateEntry in Hv. by destruct (ValidateIdentifier name).
    + unfold is_null, not_null in Hnull. destruct (la_environment request !! name); [eauto|done].
Qed.

Lemma container_environment_reads request selectedEnv envArgs :
  containerEnvironment request = Ok (selectedEnv, envArgs) →
  ∃ values, reads_as envArgs ((λ v, ("--env", v)) <$> values) ∧ Forall (env_allowed request) values.
Proof.
  unfold containerEnvironment, env_allowed. destruct (String.eqb (sd_Kind _) "ansible").
  - intros [= <- <-]. exists ((λ a, (option_of a).2) <$> ansibleEnvironmentArgs (sd_Ansible (la_step request))).
    split; [unfold ansibleEnvironmentArgs; case_match; cbn [fmap list_fmap app]; reads|].
    apply Forall_forall. intros v (a & -> & Ha)%list_elem_of_fmap. right.
    assert (E : "--env=" +:+ (option_of a).2 = a); [|by rewrite E]. unfold ansibleEnvironmentArgs in Ha.
    apply elem_of_app in Ha as [Ha|Ha]; [|case_match; [|by apply elem_of_nil in Ha]];
      repeat (apply elem_of_cons in Ha as [->|Ha]; [reflexivity|]); by apply elem_of_nil in Ha.
  - intros (names & _ & E)%result_bind_ok. apply result_bind_ok in E as (sel & E & [= <- <-]).
    exists (names ++ (mount_variables request).*1). rewrite fmap_app. split; [reads|].
    apply Forall_app. split.
    + apply select_environment_passed in E as [Hall _]. eapply Forall_impl; [exact Hall|]. auto.
    + apply Forall_forall. intros v (kv & -> & Hkv)%list_elem_of_fmap. left. unfold mount_variables in Hkv.
      repeat (apply elem_of_app in Hkv as [Hkv|Hkv] || (case_match; [apply list_elem_of_singleton in Hkv|by apply elem_of_nil in Hkv]));
        subst; by apply (bool_decide_unpack _).
Qed.

(** ** The arguments as a whole *)

Definition read_run (args : list string) : list (string * string) * list string := read_options (tail args).

Definition base_keys : list string :=
  (if podman p then ["--rm"] else [])
  ++ ["--interactive"; "--pull"; if podman p then "--timeout" else "--stop-timeout"; "--log-driver"; "--name";
      "--label"; "--label"; "--network"; "--read-only"; "--cap-drop"; "--security-opt"; "--user"; "--tmpfs";
      "--env"; "--env"; "--pids-limit"]
  ++ (if podman p then ["--image-volume"; "--http-proxy"] else []).

Lemma base_keys_eq request name timeout :
  (option_of <$> base_options p limits request name timeout).*1 = base_keys.
Proof. unfold base_options, base_keys, tmpfs_option. destruct (podman p), (_ || _); reflexivity. Qed.

Lemma base_options_read request name timeout :
  reads_as (base_options p limits request name timeout) (option_of <$> base_options p limits request name timeout) ∧
  Forall (option_allowed request) (option_of <$> base_options p limits request name timeout) ∧
  isolation ⊆ option_of <$> base_options p limits request name timeout ∧
  NoDup (filter (λ k, k ∉ repeated_keys) (option_of <$> base_options p limits request name timeout).*1) ∧
  "--entrypoint" ∉ (option_of <$> base_options p limits request name timeout).*1.
Proof.
  split; [|split; [|split; [|split]]].
  - unfold base_options, tmpfs_option. apply reads_plain. destruct (podman p), (_ || _); reflexivity.
  - unfold base_options, tmpfs_option. destruct (podman p), (_ || _); cbn [app fmap list_fmap]; repeat (apply Forall_cons; split);
      first [exact I | apply Forall_nil; exact I | apply option_plain; reflexivity
            | apply option_env; left; by apply (bool_decide_unpack _) | apply option_network].
  - unfold base_options. intros o Ho. rewrite !fmap_app. apply elem_of_app. right. apply elem_of_app. left.
    unfold isolation in Ho. rewrite !elem_of_cons, elem_of_nil in Ho.
    destruct Ho as [->|[->|[->|[->|[->|[]]]]]];
      [apply (list_elem_of_lookup_2 _ 8)|apply (list_elem_of_lookup_2 _ 9)|apply (list_elem_of_lookup_2 _ 10)
      |apply (list_elem_of_lookup_2 _ 11)|apply (list_elem_of_lookup_2 _ 3)]; reflexivity.
  - rewrite base_keys_eq. unfold base_keys. destruct (podman p); by apply (bool_decide_unpack _).
  - rewrite base_keys_eq. unfold base_keys. destruct (podman p); by apply (bool_decide_unpack _).
Qed.

Lemma mount_options_read request :
  ∃ values, reads_as (mount_options p request) ((λ v, ("--volume", v)) <$> values) ∧
    Forall (λ v, v ∈ volume_options request) values.
Proof.
  assert (Hif : ∀ (b : bool) v, v ∈ volume_options request →
    ∃ values, reads_as (if b then ["--volume=" +:+ v] else []) ((λ v, ("--volume", v)) <$> values) ∧
      Forall (λ v, v ∈ volume_options request) values).
  { intros [] v Hv; [exists [v]|exists []]; split;
      [by apply reads_plain|by apply Forall_singleton|exact reads_nil|constructor]. }
  unfold mount_options, artifactMountArgs, deploymentMountArgs, readonlyMountArgs.
  destruct (Hif (present (la_artifact request)) (sg_volume (la_artifact request) +:+ ":" +:+ artifactMount
     +:+ (if podman p then ":ro,noexec,nosuid,nodev,nocopy" else ":ro,nocopy"))) as (v1 & H1 & A1); [by left|].
  destruct (Hif (present (la_handoff request)) (sg_volume (la_handoff request) +:+ ":" +:+ deploymentStageMount
     +:+ (":rw,nocopy" +:+ (if podman p then ",noexec,nosuid,nodev,z" else "")))) as (v2 & H2 & A2); [by right; left|].
  destruct (Hif (present (la_approved request)) (sg_volume (la_approved request) +:+ ":" +:+ approvedMount
     +:+ ":ro,nocopy")) as (v3 & H3 & A3); [by right; right; left|].
  destruct (Hif (present (aa_stage (la_ansible request))) (sg_volume (aa_stage (la_ansible request)) +:+ ":"
     +:+ ansibleMount +:+ ":ro,nocopy")) as (v4 & H4 & A4); [by right; right; right; left|].
  exists (v1 ++ v2 ++ v3 ++ v4). rewrite !fmap_app. split; [by repeat apply reads_app|by rewrite !Forall_app].
Qed.

(** Keys that repeat do not count. *)
Lemma filter_repeated (key : string) (values : list string) :
  key ∈ repeated_keys → filter (λ k, k ∉ repeated_keys) ((λ v, (key, v)) <$> values).*1 = [].
Proof.
  intros Hk. induction values as [|v values IH]; [done|]. cbn [fmap list_fmap fst].
  rewrite filter_cons_False; [done|]. by intros Hn.
Qed.

(** C13: whatever the step and the variables of the deployment are, the client
    reads from the arguments the image of the step, the command that the runner
    chose, and options that isolate the container: a read-only root, no
    capabilities, no privileges, an unprivileged user, the network that the step
    names or none, the staging volumes (of which only the hand-over may be
    written), the variables that the step selects from the snapshot. No other
    kind of option is given, and none of those that count once is given twice. *)
Theorem container_confined request name selected timeout selectedEnv envArgs :
  validateLocalContainerImage (la_step request) = Ok tt →
  containerEnvironment request = Ok (selectedEnv, envArgs) →
  let '(options, rest) := read_run (localContainerArgs p limits request name selected timeout envArgs) in
  rest = sd_ContainerImage (la_step request) :: container_command request selected ∧
  Forall (option_allowed request) options ∧
  isolation ⊆ options ∧
  ("--entrypoint", selected) ∈ options ∧
  NoDup (filter (λ k, k ∉ repeated_keys) options.*1).
Proof.
  intros Himage Henv. destruct (container_environment_reads _ _ _ Henv) as (values & Hv & Hall).
  destruct (base_options_read request name timeout) as (Hb & Hba & Hiso & Hnd & Hent).
  destruct (mount_options_read request) as (mounts & Hm & Hma).
  unfold read_run, localContainerArgs. cbn [app tail].
  assert (He : reads_as ["--entrypoint=" +:+ selected] [("--entrypoint", selected)]) by by apply reads_plain.
  pose proof (reads_app _ _ _ _ Hb (reads_app _ _ _ _ Hv (reads_app _ _ _ _ Hm He))) as Hr.
  specialize (Hr (sd_ContainerImage (la_step request) :: container_command request selected)).
  rewrite reads_image in Hr.
  2: { unfold validateLocalContainerImage in Himage. case_match; [done|]. case_match eqn:E; [done|].
       by apply orb_false_iff in E as [? _]. }
  cbn [fst snd] in Hr. rewrite app_nil_r, <-!(assoc_L (++)) in Hr. cbn [app] in Hr. rewrite Hr.
  split; [done|]. split; [|split; [|split]].
  - rewrite !Forall_app. split; [done|]. split; [|split].
    + apply Forall_fmap. eapply Forall_impl; [exact Hall|]. intros v ?. by apply option_env.
    + apply Forall_fmap. eapply Forall_impl; [exact Hma|]. intros v ?. by apply option_volume.
    + apply Forall_singleton. by apply option_plain.
  - intros o Ho. apply elem_of_app. left. by apply Hiso.
  - rewrite !elem_of_app. do 3 right. by left.
  - rewrite !fmap_app, !filter_app, !filter_repeated, app_nil_l, app_nil_l by by apply (bool_decide_unpack _).
    apply NoDup_app. split; [done|]. split; [|by apply (bool_decide_unpack _)].
    intros k Hk ->%list_elem_of_singleton. apply list_elem_of_filter in Hk as [_ Hk]. done.
Qed.

(** ** Values stay out of the arguments *)

(** C14: the arguments of a step's container do not depend on the values of the
    variables, so a secret never appears in the process list of the server: two
    snapshots that define the same names give the same arguments. The entries of
    the client's environment carry the values. *)
Theorem container_arguments_secret request environment name selected timeout sel1 args1 sel2 args2 :
  dom environment = dom (la_environment request) →
  containerEnvironment request = Ok (sel1, args1) →
  containerEnvironment (la_set_environment environment request) = Ok (sel2, args2) →
  localContainerArgs p limits request name selected timeout args1 =
    localContainerArgs p limits (la_set_environment environment request) name selected timeout args2.
Proof.
  intros Hdom E1 E2. assert (args1 = args2) as ->; [|reflexivity].
  assert (Hnull : ∀ k, not_null (environment !! k) = not_null (la_environment request !! k)).
  { intros k. unfold not_null. apply bool_decide_ext.
    assert (Hk : k ∈ dom environment ↔ k ∈ dom (la_environment request)) by by rewrite Hdom.
    rewrite !elem_of_dom, <-!not_eq_None_Some in Hk. done. }
  assert (Hnames : executionVariableNames (la_set_environment environment request) = executionVariableNames request).
  { unfold executionVariableNames. cbn. destruct (sd_VariableNames (la_step request)); [by rewrite Hdom|].
    cbn [foldl]. by rewrite !Hnull. }
  unfold containerEnvironment in E1, E2. rewrite Hnames in E2. cbn in E2.
  destruct (String.eqb _ _); [by injection E1 as _ <-; injection E2 as _ <-|].
  apply result_bind_ok in E1 as (names & En & E1). apply result_bind_ok in E2 as (names' & En' & E2).
  rewrite En in En'. injection En' as <-.
  apply result_bind_ok in E1 as (? & _ & [= _ <-]). by apply result_bind_ok in E2 as (? & _ & [= _ <-]).
Qed.
End confined.

(** ** Witnesses *)

#[local] Instance sample_go : GoFormat := { quote := λ x, x; error_text := λ _, "error" }.

(** A script with one variable of the snapshot, the identity of its environment
    and a hand-over volume. *)
Definition sample_attempt (value : string) : localStepAttempt :=
  mkAttempt 5 (mkDefinition "" None "build" "echo" "bash" 1 60 0 "local" "" [] "image" "none" "" "" "" [])
    {["TOKEN" := value; "DURPDEPLOY_ENVIRONMENT_ID" := "7"; "DURPDEPLOY_ENVIRONMENT_NAME" := "prod"]} 1 no_stage false
    (mkArtifactStage "handoff" "keeper" false) no_stage (mkAnsibleAttempt no_stage []).

Definition sample_arguments (value : string) : list string :=
  match containerEnvironment (sample_attempt value) with Ok (_, args) => args | Err _ => [] end.

Definition sample_entries (value : string) : list string :=
  match containerEnvironment (sample_attempt value) with Ok (entries, _) => entries | Err _ => [] end.

Lemma container_confined_witness :
  "TOKEN=one" ∈ sample_entries "one" ∧
  let p := mkEndpoint "podman" "podman" "" "default" in
  let limits := mkAllLimits 60 1000 1000 10 1000 10 10 10000 64 1000 16 "1" 1000 4096 in
  let '(options, rest) := read_run (localContainerArgs p limits (sample_attempt "one") "box" "bash" 60 (sample_arguments "one")) in
  rest = ["image"; "-s"] ∧ ("--volume", "handoff:/stage:rw,nocopy,noexec,nosuid,nodev,z") ∈ options ∧
  isolation ⊆ options.
Proof.
  split; [by apply (bool_decide_unpack _); vm_compute|]. intros p limits.
  pose proof (container_confined p limits (sample_attempt "one") "box" "bash" 60 (sample_entries "one")
    (sample_arguments "one") eq_refl eq_refl) as Hc.
  destruct (read_run _) as [options rest] eqn:E. destruct Hc as (Hr & _ & Hi & _).
  split; [exact Hr|]. split; [|exact Hi]. vm_compute in E. injection E as <- _. by apply (bool_decide_unpack _); vm_compute.
Defined.

Lemma container_arguments_secret_witness :
  sample_entries "one" ≠ sample_entries "two" ∧
  let p := mkEndpoint "podman" "podman" "" "default" in
  let limits := mkAllLimits 60 1000 1000 10 1000 10 10 10000 64 1000 16 "1" 1000 4096 in
  localContainerArgs p limits (sample_attempt "one") "box" "bash" 60 (sample_arguments "one") =
    localContainerArgs p limits (sample_attempt "two") "box" "bash" 60 (sample_arguments "two").
Proof.
  split; [by vm_compute|]. intros p limits.
  apply (container_arguments_secret p limits (sample_attempt "one") (la_environment (sample_attempt "two")) "box" "bash" 60
    (sample_entries "one") (sample_arguments "one") (sample_entries "two") (sample_arguments "two")); [|reflexivity..].
  by apply (bool_decide_unpack _); vm_compute.
Defined.
