(* ===== verification/Runtime.v ===== *)
(** * Runtime: what the local runner does to the world, and what it is answered

    The local runner (internal/runner) is sequential code that calls the store,
    the container client, the clock and the random source, and that looks at
    the cancellation of its context; everything else happens concurrently. A
    computation takes the state of the run to a new one and either an answer or
    a value with which the function was left early. Every question to the
    outside is answered by [Outside], which is given the number of the question:
    nothing is assumed about the answers. In particular the rest of the server
    may change the store before every statement, and any statement may fail. *)
From S2P Require Import Prelude Text Db Tx QueueQueries DeploymentQueue DispatchQueries CreationQueries LogScrub RemoteSteps LogWriter RemoteLogs Base64 Container StepRunner Runs.

(** ** The statements that only the local runner executes *)

(** *** deployments.sql.go *)

(** [container_namespace IS NULL OR container_namespace = ?1] *)
Definition namespace_free (namespace : string) (d : Deployment) : bool :=
  is_null (d_ContainerNamespace d) || sql_eq (d_ContainerNamespace d) namespace.

Definition RecordContainerNamespace (namespace : string) (id : Z) : Tx Z :=
  update_deployment id (λ _ d, String.eqb (d_Status d) "running" && namespace_free namespace d)
    (λ _, d_set_ContainerNamespace (Some namespace)).

(** A started container of the namespace is known to be gone. *)
Definition ConfirmContainerCleanup (now : Z) (namespace : string) : Tx Z := λ s,
  let '(t, n) := update_where (db_deployments s)
    (λ d, (d_Status d ∈? ["running"; "publishing_artifact"; "cleanup_unconfirmed"])
          && sql_eq (d_ContainerNamespace d) namespace)
    (λ d,
      let status :=
        if exists_row (db_runs s) (λ r, Z.eqb (r_DeploymentID r) (d_ID d)
             && String.eqb (r_State r) "cleanup_unconfirmed")
        then d_Status d else "failed" in
      d_set_Status status (d_set_ContainerNamespace None
        (d_set_FinishedAt (Some (default now (d_FinishedAt d))) d))) in
  Ok (n, set_deployments t s).

Definition created_le (a b : Deployment) : bool := Z.leb (d_CreatedAt a) (d_CreatedAt b).

(** The joined rows exist for every deployment; the names are not read. *)
Definition ListPendingDeployments : Tx (list Deployment) := read (λ s,
  sort_by created_le (filter (λ d, String.eqb (d_Status d) "pending"
      && not_null (db_releases s !! d_ReleaseID d ≫= λ r, db_projects s !! rel_ProjectID r)
      && not_null (db_environments s !! d_EnvironmentID d) = true)
    (snd <$> map_to_list (db_deployments s)))).

(** *** verification.sql.go *)

Definition GetDeploymentVerification (id : Z) : Tx DeploymentVerification := λ s,
  match db_verifications s !! id with Some v => Ok (v, s) | None => Err ErrNoRows end.

Definition StartDeploymentVerification (id : Z) : Tx Z := λ s,
  let '(t, n) := update_pk (db_verifications s) id
    (λ v, String.eqb (v_Status v) "pending")
    (λ v, mkVerification (v_DeploymentID v) (v_Type v) (v_Target v) (v_TimeoutSeconds v) (v_StepIndex v)
            "running" (Some (db_now s)) (v_FinishedAt v)) in
  Ok (n, set_verifications t s).

(** *** artifact_gates.sql.go *)

Definition GetArtifactGateImage (id step : Z) : Tx string := λ s,
  match dt_gate_images (db_creation s) !! (id, step) with Some image => Ok (image, s) | None => Err ErrNoRows end.

Definition CreateArtifactGateImage (id step : Z) (image : string) : Tx unit := λ s,
  insert_row (λ s, dt_gate_images (db_creation s)) (λ t, update_creation (dt_set_gate_images t))
    (id, step) image (has_deployment s id) s.

(** *** deployment_staging.sql.go

    The rows without their checksums, sizes and chunks. *)

Definition CreateStagingSnapshot (deployment step : Z) (producer : string) : Tx unit := λ s,
  if bool_decide ((deployment, step, producer) ∈ db_staging s) || negb (has_deployment s deployment)
  then Err ErrConstraint
  else Ok (tt, set_staging ({[(deployment, step, producer)]} ∪ db_staging s) s).

Definition DeleteStepStaging (deployment step : Z) : Tx unit := write (λ s,
  set_staging (filter (λ k : Z * Z * string, (k.1.1, k.1.2) ≠ (deployment, step)) (db_staging s)) s).

(** *** audit *)

(** [audit.Record] for an entry about a deployment; an error is logged only. *)
Definition RecordAudit (action : string) (id : Z) : Tx unit :=
  write (λ s, set_audit (db_audit s ++ [(action, id)]) s).

(** ** Errors of the runner

    The text, and the values that errors.Is finds in it. *)
Inductive sentinel :=
  | IsNoRows
  | IsContainerCleanup       (* errContainerCleanup *)
  | IsDeploymentCancelled    (* errDeploymentCancelled *)
  | IsCanceled               (* context.Canceled *)
  | IsDeadlineExceeded       (* context.DeadlineExceeded *)
  | IsArtifactGate           (* repository.ErrArtifactGate *)
  | IsEnvironment            (* containerenv.ErrEnvironment *)
  | IsStagingInvalid         (* staging.ErrInvalid *)
  | IsArtifactInvalid.       (* artifact.ErrInvalid *)

#[global] Instance sentinel_eq_dec : EqDecision sentinel.
Proof. solve_decision. Defined.

Record failure := mkFailure {
  f_text : string;
  f_is : list sentinel }.

Definition errors_Is (e : failure) (k : sentinel) : bool := bool_decide (k ∈ f_is e).
Definition errors_New (text : string) : failure := mkFailure text [].

(** [fmt.Errorf(prefix + "%w", e)] *)
Definition wrapf (prefix : string) (e : failure) : failure := mkFailure (prefix +:+ f_text e) (f_is e).

Definition join (a b : failure) : failure := mkFailure (f_text a +:+ newline_text +:+ f_text b) (f_is a ++ f_is b).

(** [errors.Join] of two errors, either of which may be nil. *)
Definition Join (a b : option failure) : option failure :=
  match a, b with Some a, Some b => Some (join a b) | Some a, None => Some a | None, b => b end.

Definition errContainerCleanup : failure := mkFailure "container cleanup unconfirmed" [IsContainerCleanup].
Definition errDeploymentCancelled : failure := mkFailure "deployment cancelled" [IsDeploymentCancelled].
Definition context_Canceled : failure := mkFailure "context canceled" [IsCanceled].
Definition errArtifactGate `{GoFormat} : failure := mkFailure (error_text ErrArtifactGate) [IsArtifactGate].

Definition of_error `{GoFormat} (e : error) : failure :=
  mkFailure (error_text e)
    match e with
    | ErrNoRows => [IsNoRows]
    | ErrArtifactGate => [IsArtifactGate]
    | ErrArtifactGateSize => [IsArtifactGate; IsStagingInvalid]
    | ErrEnvironment _ => [IsEnvironment]
    | ErrStagingInvalid => [IsStagingInvalid]
    | _ => []
    end.

(** ** The state of a run *)

(** What a call of the container client returned: what it wrote, chunk by
    chunk, and its error. *)
Record ClientResult := mkClientResult {
  cl_output : list string;
  cl_error : option failure }.

Inductive EventType := DeploymentStarted | DeploymentSucceeded | DeploymentFailed | ArtifactAwaitingApproval.

#[global] Instance EventType_eq_dec : EqDecision EventType.
Proof. solve_decision. Defined.

(** What the run has done, in order: [ActCommand] is a process that was
    started, [ActPublish] an event handed to the bus, [ActSource] the text of the
    steps that was read, [ActRetry] the goroutine that stores a status later,
    [ActGiveUp] the log entry with which failUnlessCancelled leaves a deployment
    that it cannot read, [ActWaiting] a step whose agents go on when the answers
    end; the others are calls of the runner's methods with their results. *)
Inductive Act :=
  | ActCommand (args entries : list string) (stdin : option string) (answer : ClientResult)
  | ActStart (next : Z)
  | ActSource (source : string)
  | ActWaiting (step : Z)
  | ActGiveUp
  | ActRestore (step : Z) (result : option failure)
  | ActAttempt (step attempt : Z) (result : option failure)
  | ActRemote (step : Z) (result : option failure)
  | ActVerify (result : option failure)
  | ActComplete (status : string) (outcome : failure + string)
  | ActRetry (status : string)
  | ActPause (next : Z) (outcome : option failure)
  | ActLoad (outcome : failure + Deployment)
  | ActPublish (type : EventType) (message : string).

(** The entries of the runner's maps under the deployment ([r.staging],
    [r.transfers], [r.cancels], [r.attempts], [r.completionCancels]), the log
    writer of the step, the counter of [r.localWork], the store, the calls so
    far, and the two variables of Run that its deferred functions read. *)
Record RunState := mkRunState {
  rs_clock : nat;
  rs_db : DB;
  rs_trace : list Act;
  rs_writer : broadcastWriter;
  rs_staging : option (list artifactStage);
  rs_transfer : option string;
  rs_cancels : bool;
  rs_attempt : option string;
  rs_retrying : bool;
  rs_localWork : Z;
  rs_artifactWork : bool;
  rs_cleanupDone : bool }.

#[export] Instance RunState_eta : Eta RunState := λ r,
  mkRunState (rs_clock r) (rs_db r) (rs_trace r) (rs_writer r) (rs_staging r) (rs_transfer r)
    (rs_cancels r) (rs_attempt r) (rs_retrying r) (rs_localWork r) (rs_artifactWork r) (rs_cleanupDone r).

Definition rs_set_clock : nat → RunState → RunState := ltac:(set_field rs_clock).
Definition rs_set_db : DB → RunState → RunState := ltac:(set_field rs_db).
Definition rs_set_trace : list Act → RunState → RunState := ltac:(set_field rs_trace).
Definition rs_set_writer : broadcastWriter → RunState → RunState := ltac:(set_field rs_writer).
Definition rs_set_staging : option (list artifactStage) → RunState → RunState := ltac:(set_field rs_staging).
Definition rs_set_transfer : option string → RunState → RunState := ltac:(set_field rs_transfer).
Definition rs_set_cancels : bool → RunState → RunState := ltac:(set_field rs_cancels).
Definition rs_set_attempt : option string → RunState → RunState := ltac:(set_field rs_attempt).
Definition rs_set_retrying : bool → RunState → RunState := ltac:(set_field rs_retrying).
Definition rs_set_artifactWork : bool → RunState → RunState := ltac:(set_field rs_artifactWork).
Definition rs_set_cleanupDone : bool → RunState → RunState := ltac:(set_field rs_cleanupDone).
Definition rs_set_localWork : Z → RunState → RunState := ltac:(set_field rs_localWork).

(** ** The outside

    Each answer is a function of the number of the question. *)
Class Outside := {
  (** what the rest of the server has done to the store *)
  world : nat → DB → DB;
  (** the error of a statement or transaction that could not be executed *)
  store_fault : nat → option error;
  (** runCtx.Err() != nil; the error of the context of one attempt *)
  run_cancelled : nat → bool;
  (** ... of the context that the run was started with *)
  root_cancelled : nat → bool;
  step_expired : nat → option failure;
  (** the thirty seconds of createStagingVolume have passed *)
  setup_expired : nat → bool;
  (** r.stopping *)
  stopping : nat → bool;
  (** time.Now().Unix() *)
  unix_time : nat → Z;
  (** twelve random bytes in hex, unless the source fails *)
  random : nat → option string;
  (** the client run with arguments, added environment entries and input *)
  client : nat → list string → list string → option string → ClientResult;
  (** Close of a temporary file *)
  close_file : nat → option failure;
  (** os.CreateTemp and Seek; os.Remove *)
  open_file : nat → option failure;
  remove_file : nat → option failure;
  (** DownloadDeploymentArtifact; the extracted package as the text of a tar archive *)
  download_artifact : nat → option failure;
  package_archive : nat → failure + string;
  (** what SaveStaging does with an archive before its transaction, and whether
      the snapshot that is already stored has its checksum and size *)
  save_staging : nat → string → option failure;
  same_snapshot : nat → string → bool;
  (** the size of the stored snapshot of a producer; the archive that merging
      the stored snapshots gives *)
  snapshot_size : nat → string → Z;
  merge_snapshots : nat → failure + string;
  (** the nonces of the chunks of a bundle *)
  chunk_nonces : nat → Z → option bytes;
  (** verification.CheckHTTP, and what it writes; the error of its context *)
  check_http : nat → string → ClientResult;
  check_expired : nat → option failure;
  (** what the rest of the server did while a step waited for its agents *)
  agent_rounds : nat → list ((DB → DB) * tick);
  (** the iteration order of a Go map, in the log scrubber *)
  map_order : gmap nat nat → list (nat * nat);
  (** NewScrubber, which compiles expressions with the regexp package, and
      verificationHTTPScrubberWith: the scrubber for a target and the secrets *)
  NewScrubber : list string → option Scrubber;
  http_scrubber : string → list string → option Scrubber }.

(** ** Computations *)

Definition M (X A : Type) : Type := RunState → (X + A) * RunState.

#[global] Instance m_ret X : MRet (M X) := λ A a st, (inr a, st).
#[global] Instance m_bind X : MBind (M X) := λ A B k m st,
  match m st with (inr a, st') => k a st' | (inl x, st') => (inl x, st') end.

(** Leave the function. *)
Definition stop {X A} (x : X) : M X A := λ st, (inl x, st).

(** Call a function and look at how it was left. *)
Definition call {X Y A} (m : M Y A) : M X (Y + A) := λ st, let '(r, st') := m st in (inr r, st').

(** [err := f()] *)
Definition error_of {X} (m : M failure unit) : M X (option failure) :=
  r ← call m; mret (match r with inl e => Some e | inr _ => None end).

(** A function without an early exit. *)
Definition plain {X A} (m : M Empty_set A) : M X A :=
  λ st, match m st with (inl e, _) => match e with end | (inr a, st') => (inr a, st') end.

(** A deferred call. *)
Definition defer {X A} (m : M X A) (d : M Empty_set unit) : M X A := λ st,
  let '(r, st') := m st in (r, (d st').2).

(** A deferred call that joins its error to the result. *)
Definition defer_join (m : M failure unit) (d : M Empty_set (option failure)) : M failure unit :=
  e ← error_of m; e' ← plain d;
  match Join e e' with Some e => stop e | None => mret tt end.

Definition modify {X} (f : RunState → RunState) : M X unit := λ st, (inr tt, f st).
Definition look_at {X A} (f : RunState → A) : M X A := λ st, (inr (f st), st).

Definition when {X} (b : bool) (m : M X unit) : M X unit := if b then m else mret tt.

(** [if err != nil { return err }] *)
Definition check (e : option failure) : M failure unit :=
  match e with Some e => stop e | None => mret tt end.

Definition check_result `{GoFormat} {A} (r : result A) : M failure A :=
  match r with Ok a => mret a | Err e => stop (of_error e) end.

(** [return fmt.Errorf(prefix + "%w", err)] *)
Definition wrapped {A} (prefix : string) (m : M failure A) : M failure A :=
  r ← call m; match r with inl e => stop (wrapf prefix e) | inr a => mret a end.

(** [for _, x := range l { if err := f(x); err != nil { return err } }] *)
Fixpoint each_m {X A} (l : list A) (f : A → M X unit) : M X unit :=
  match l with [] => mret tt | x :: l => f x;; each_m l f end.

Definition record_act {X} (a : Act) : M X unit := modify (λ st, rs_set_trace (rs_trace st ++ [a]) st).

(** ** Questions *)

(** An answer of the outside. *)
Definition ask {X A} (f : nat → A) : M X A := λ st,
  (inr (f (rs_clock st)), rs_set_clock (S (rs_clock st)) st).

Section questions.
Context `{Server} `{Outside}.

(** A transaction or a statement of its own. *)
Definition store {A} (f : DB → result A * DB) : M failure A := λ st,
  let t := rs_clock st in
  let s := world t (rs_db st) in
  let '(r, s) := match store_fault t with Some e => (Err e, s) | None => f s end in
  (match r with Ok a => inr a | Err e => inl (of_error e) end,
   rs_set_clock (S t) (rs_set_db s st)).

(** A function that executes statements of its own, whose errors are its own. *)
Definition transact {X A} (f : DB → A * DB) : M X A := λ st,
  let t := rs_clock st in
  let '(a, s) := f (world t (rs_db st)) in
  (inr a, rs_set_clock (S t) (rs_set_db s st)).

Definition query {A} (m : Tx A) : M failure A := store (WithTx m).

(** A call of the client; [cl_output] is what the process wrote. *)
Definition command {X} (args entries : list string) (stdin : option string) : M X ClientResult :=
  answer ← ask (λ t, client t args entries stdin);
  record_act (ActCommand args entries stdin answer);;
  mret answer.

Definition output_of (answer : ClientResult) : string := String.concat "" (cl_output answer).

(** A command whose error is returned. *)
Definition command_ok (args : list string) (stdin : option string) : M failure string :=
  answer ← command args [] stdin;
  check (cl_error answer);;
  mret (output_of answer).

Definition publish {X} (type : EventType) (message : string) : M X unit :=
  record_act (ActPublish type message).

Definition beginLocalWork {X} : M X bool :=
  halted ← ask stopping;
  if halted : bool then mret false
  else modify (λ st, rs_set_localWork (rs_localWork st + 1) st);; mret true.

Definition localWork_Done {X} : M X unit := modify (λ st, rs_set_localWork (rs_localWork st - 1) st).

(** ** Log lines

    A line that cannot be stored is lost; the writer has taken it nevertheless. *)
Context (limits : Limits_) (deploymentID : Z).

Record LogTarget := mkTarget {
  lt_stepName : string;
  lt_stepIndex : option Z;
  lt_scrubber : option Scrubber }.

Definition log_store {X A} (f : DB → A * DB) : M X (option failure * A) := λ st,
  let t := rs_clock st in
  let s := world t (rs_db st) in
  let '(a, s') := f s in
  (inr (of_error <$> store_fault t, a),
   rs_set_clock (S t) (rs_set_db (match store_fault t with Some _ => s | None => s' end) st)).

(** [w.Write] on the step's writer; the error. *)
Definition write_log {X} (log : LogTarget) (text : string) : M X (option failure) :=
  w ← look_at rs_writer;
  r ← log_store (λ s, let '(r, w, s) := Write map_order deploymentID (lt_stepName log) (lt_stepIndex log)
                         (lt_scrubber log) (lm_PendingBytes limits) text w s in ((r, w), s));
  let '(fault, ((_, e), w)) := r in
  modify (rs_set_writer w);;
  mret (match fault with Some e => Some e | None => of_error <$> e end).

Definition flush_log {X} (log : LogTarget) : M X unit :=
  w ← look_at rs_writer;
  r ← log_store (Flush deploymentID (lt_stepName log) (lt_stepIndex log) (lt_scrubber log) w);
  modify (rs_set_writer r.2).

(** The output of a process. *)
Fixpoint write_output {X} (log : LogTarget) (chunks : list string) : M X unit :=
  match chunks with
  | [] => mret tt
  | chunk :: chunks => write_log log chunk;; write_output log chunks
  end.

(** A line of a writer of its own, and its flush. *)
Definition print_log {X} (log : LogTarget) (text : string) : M X unit :=
  w ← look_at rs_writer;
  modify (rs_set_writer (mkWriter "" false));;
  write_log log text;;
  flush_log log;;
  modify (rs_set_writer w).

Definition write_line {X} (log : LogTarget) (line state : string) : M X (option failure) :=
  r ← log_store (writeLine deploymentID (lt_stepName log) (lt_stepIndex log) line state);
  mret (match r with
        | (Some e, _) => Some e
        | (None, Ok _) => None
        | (None, Err e) => Some (of_error e)
        end).

Definition log_state {X} (log : LogTarget) (state : string) : M X (option failure) :=
  write_line log ("Step " +:+ state +:+ ".") state.

(** [finishState] of log_writer.go. *)
Definition finish_log {X} (log : LogTarget) (result : option failure) (cancelled : bool) : M X unit :=
  log_state log (finish_state (match result with Some e => errors_Is e IsContainerCleanup | None => false end)
                   (not_null result) cancelled);;
  mret tt.
End questions.
