(* ===== verification/LocalStaging.v ===== *)
(** * LocalStaging: volumes, images and files of a local run

    internal/runner/artifact_staging.go, deployment_staging.go,
    staging_transfer.go, artifact_gate.go, artifact_gate_export.go,
    artifact_gate_images.go, local_image.go and execution_location.go. A staging
    volume is kept mounted by a container, its keeper; [r.staging] lists the
    volumes that must be removed when the deployment ends. *)
From stdpp Require Import pretty.
From S2P Require Import Prelude Text Db Tx QueueQueries DeploymentQueue DispatchQueries GateQueries ArtifactGate Secret Variables Ansible DeploymentCreation StepQueries RemotePayload LogScrub LogWriter Container StepRunner Runs Runtime.

(** encoding/json, archive/tar and the parsers of the staging and artifact
    packages, on the text of a file. *)
Class RunnerLibraries := {
  (** json.Unmarshal into a map: whether it has entries *)
  volumes_unmarshal : string → failure + bool;
  (** the names of [info --format {{json .}}]: Name, and Host.Hostname *)
  info_unmarshal : string → option (string * string);
  (** CopyGateBundleWithLimits: the bytes copied, the checksum, the review as JSON *)
  copy_bundle : string → string → string → string → failure + (string * string * string);
  (** ValidateGateBundleNodes and staging.ReadWithLimits *)
  validate_nodes : string → option failure;
  read_archive : string → option failure;
  (** an archive without entries, and of files by name *)
  empty_archive : string;
  write_archive : list (string * string) → failure + string;
  (** the bytes written for the files so far *)
  archive_length : list (string * string) → Z;
  (** json.Marshal of a map of strings *)
  strings_marshal : gmap string string → string;
  (** ssh.ParsePrivateKey succeeds *)
  private_key : string → bool;
  (** [%s] of a time.Duration *)
  duration_string : Z → string }.

Inductive context_ := RootContext | RunContext | StepContext.

Section staging.
Context `{Server} `{Outside} `{RunnerLibraries}.
Context (p : containerEndpoint) (limits : Limits_) (pagesize : Z) (localErr : option failure) (deploymentID : Z).

(** [ctx.Err()] *)
Definition ctx_Err {X} (c : context_) : M X (option failure) :=
  match c with
  | RootContext => cancelled ← ask root_cancelled; mret (if cancelled : bool then Some context_Canceled else None)
  | RunContext => cancelled ← ask run_cancelled; mret (if cancelled : bool then Some context_Canceled else None)
  | StepContext => ask step_expired
  end.

Definition recordContainerNamespace : M failure Z := query (RecordContainerNamespace (scope p) deploymentID).

(** [r.repo.ListDeploymentVariables]: every statement sees a store of its own. *)
Definition list_variables : M failure (list ReleaseVariable) :=
  let look := store (λ s, (Ok s, s)) in
  first ← look; second ← look; third ← look; last ← look;
  check_result (ListDeploymentVariables Configured variables_unmarshal first second third last deploymentID).

(** ** Transfers *)

Definition replaceTransfer {X} (next : option string) : M X (option failure) :=
  prior ← look_at rs_transfer;
  modify (rs_set_transfer next);;
  match prior with Some _ => ask close_file | None => mret None end.

(** [artifact.SpoolCleanupError] *)
Definition SpoolCleanupError (result closeErr : option failure) : option failure :=
  match result with None => None | Some e => Join (Some e) closeErr end.

(** A function on a spool file that is closed when it returns. *)
Definition with_spool {A} (m : M failure A) : M failure A :=
  e ← ask open_file;
  check e;;
  r ← call m;
  e ← ask close_file;
  match r with
  | inr a => mret a
  | inl e' => match Join (Some e') e with Some e => stop e | None => stop e' end
  end.

Definition export_command (keeper : string) : list string :=
  ["exec"; keeper; "tar"; "-cf"; "-"; "-C"; deploymentStageMount; "."].

(** The transaction of [SaveStaging] for the server's own snapshot. *)
Definition publishStaging (stepIndex : Z) (same : bool) : Tx unit :=
  deployment ← GetDeployment deploymentID;
  guard (String.eqb (d_Status deployment) "running") ErrRemoteLifecycleConflict;;
  prior ← attempt (GetStagingSnapshot deploymentID stepIndex "");
  match prior with
  | Ok _ => guard same ErrRemoteLifecycleConflict
  | Err ErrNoRows => CreateStagingSnapshot deploymentID stepIndex ""
  | Err e => fail e
  end.

Definition SaveStaging (stepIndex : Z) (file : string) : M failure unit :=
  (if Configured then mret tt else stop (of_error ErrStagingInvalid));;
  e ← ask (λ t, save_staging t file); check e;;
  same ← ask (λ t, same_snapshot t file);
  store (WithDeploymentTx deploymentID (publishStaging stepIndex same)).

(** The files of the hand-over, up to the limit of an archive. *)
Definition export_handoff (keeper : string) : M failure string :=
  answer ← command (export_command keeper) [] None;
  let file := output_of answer in
  let copyErr := if ArchiveBytes <? Z.of_nat (String.length file) then Some (of_error ErrStagingInvalid) else None in
  check (Join copyErr (cl_error answer));;
  mret file.

(** [current]: the file that the last step of agents left. *)
Definition prepareRemoteStaging (stepIndex : Z) (volume : artifactStage) (current : option string) : M failure unit :=
  match current with
  | Some file => SaveStaging stepIndex file
  | None =>
      with_spool (
        file ← (if present volume then export_handoff (sg_keeper volume) else mret empty_archive);
        SaveStaging stepIndex file)
  end.

(** The sizes of the stored snapshots, before any of them is read. *)
Fixpoint check_sizes (stepIndex : Z) (producers : list string) (total : Z) : M failure unit :=
  match producers with
  | [] => mret tt
  | producer :: producers =>
      query (GetStagingSnapshot deploymentID stepIndex producer);;
      size ← ask (λ t, snapshot_size t producer);
      (if (size <? 1024) || (ArchiveBytes <? size) then stop (of_error ErrStagingInvalid) else mret tt);;
      (if lm_MergeArchiveBytes limits - total <? size then stop (of_error ErrMergeBudget) else mret tt);;
      check_sizes stepIndex producers (total + size)
  end.

Definition stagingMergeInputs (stepIndex : Z) : M failure unit :=
  runs ← query (ListRemoteStepRuns deploymentID stepIndex);
  (if lm_AgentOutputs limits <? Z.of_nat (length runs) then stop (of_error ErrMergeBudget) else mret tt);;
  (if forallb (λ r, String.eqb (r_State r) "succeeded") runs then mret tt
   else stop (of_error ErrRemoteLifecycleConflict));;
  check_sizes stepIndex ("" :: (r_AgentID <$> runs)) 0.

(** The inputs are deleted once they are merged. *)
Definition mergeRemoteStaging (stepIndex : Z) : M failure string :=
  stagingMergeInputs stepIndex;;
  r ← ask merge_snapshots;
  file ← match r with inl e => stop e | inr file => mret file end;
  query (DeleteStepStaging deploymentID stepIndex);;
  mret file.

Definition import_script : string :=
  "find /stage -mindepth 1 -maxdepth 1 -exec rm -rf -- {} + && tar -xf - -C /stage".

Definition importRemoteStaging (volume : artifactStage) (file : string) : M failure unit :=
  e ← ask open_file; check e;;
  wrapped "import staging snapshot: "
    (command_ok ["exec"; "--interactive"; sg_keeper volume; "sh"; "-c"; import_script] (Some file));;
  mret tt.

(** ** Volumes *)

(** Mark the stage at an index. *)
Definition mark_unconfirmed (i : nat) (stages : list artifactStage) : list artifactStage :=
  alter (λ g, mkArtifactStage (sg_volume g) (sg_keeper g) true) i stages.

Definition create_volume (c : context_) (mount : string) (stage : artifactStage)
    : M failure unit :=
  wrapped "create staging volume: " (command_ok (volumeArgs p limits pagesize (sg_volume stage) mount) None);;
  e ← ctx_Err c; check e;;
  wrapped "start staging keeper: " (command_ok (keeperArgs p limits pagesize stage mount) None);;
  e ← ctx_Err c; check e.

(** The stage comes with an error too. *)
Definition createStagingVolume {X} (c : context_) (mount : string) : M X (artifactStage * option failure) :=
  e ← ctx_Err c;
  match e with
  | Some e => mret (no_stage, Some e)
  | None =>
      nonce ← ask random;
      match nonce with
      | None => mret (no_stage, Some (errors_New "name staging volume"))
      | Some nonce =>
          let name := "durpdeploy-artifact-" +:+ pretty deploymentID +:+ "-" +:+ nonce in
          let stage := mkArtifactStage name (name +:+ "-keeper") false in
          stages ← look_at (λ st, default [] (rs_staging st));
          modify (rs_set_staging (Some (stages ++ [stage])));;
          e ← error_of (create_volume c mount stage);
          expired ← ask setup_expired;
          when expired (modify (λ st, rs_set_staging (mark_unconfirmed (length stages) <$> rs_staging st) st));;
          mret (stage, e)
      end
  end.

Definition stageDeployment {X} (environment : gmap string string) : M X (artifactStage * option failure) :=
  if not_null (environment !! StageVariable)
  then mret (no_stage, Some (errors_New (StageVariable +:+ " conflicts with a snapshotted variable")))
  else match localErr with
  | Some e => mret (no_stage, Some e)
  | None =>
      r ← call recordContainerNamespace;
      match r with
      | inl e => mret (no_stage, Some (wrapf "record staging namespace: " e))
      | inr recorded =>
          if Z.eqb recorded 1 then createStagingVolume RunContext deploymentStageMount
          else mret (no_stage, Some errContainerCleanup)
      end
  end.

(** ** The package of the deployment *)

Definition extract_command (keeper mount : string) : list string :=
  ["exec"; "--interactive"; keeper; "tar"; "-xf"; "-"; "-C"; mount].

(** The files that the function leaves behind are removed when it returns. *)
Definition stageArtifact {X} : M X (artifactStage * option failure) :=
  r ← call (query (GetDeploymentArtifact deploymentID));
  match r with
  | inl e => mret (no_stage, if errors_Is e IsNoRows then None else Some e)
  | inr _ =>
  r ← call (wrapped "load frozen package steps: " (query (ListDeploymentSteps deploymentID)));
  match r with
  | inl e => mret (no_stage, Some e)
  | inr steps =>
  let local := existsb (λ step, negb (String.eqb (s_ExecutionTarget step) "agent")) steps in
  r ← call (
    (if local : bool then
       check localErr;;
       recorded ← recordContainerNamespace;
       if Z.eqb recorded 1 then mret tt else stop errContainerCleanup
     else mret tt);;
    e ← ask download_artifact; check e);
  match r with
  | inl e => mret (no_stage, Some e)
  | inr _ =>
  staged ←
    (if local : bool then
       r ← ask package_archive;
       match r with
       | inl e => mret (no_stage, Some e)
       | inr archive =>
           r ← createStagingVolume RunContext artifactMount;
           match r with
           | (stage, Some e) => mret (stage, Some e)
           | (stage, None) =>
               e ← error_of (wrapped "stage artifact files: "
                     (command_ok (extract_command (sg_keeper stage) artifactMount) (Some archive);; mret tt));
               mret (stage, e)
           end
       end
     else mret (no_stage, None));
  e ← ask remove_file;
  mret (staged.1, Join staged.2 e)
  end end end.

(** ** Removal *)

(** The diagnostic is written without the variables' secrets, or not at all. *)
Definition recordCleanupFailure {X} (cleanupErr : failure) : M X unit :=
  r ← call list_variables;
  let '(secrets, message) :=
    match r with
    | inl _ => ([], "Staging cleanup unconfirmed: runtime detail omitted because secret redaction policy is unavailable")
    | inr variables =>
        ((λ v, default "" (rv_Value v)) <$> filter (λ v, negb (Z.eqb (rv_Secret v) 0) = true) variables,
         "Staging cleanup unconfirmed: " +:+ f_text cleanupErr)
    end in
  let scrubber := NewScrubber secrets in
  write_line deploymentID (mkTarget "" None scrubber) (Scrubber_Scrub scrubber message) "";;
  mret tt.

Definition no_such_volume (output : string) : bool := contains "no such volume" (ascii_lower output).

(** One round of the loop of [cleanupArtifact]: the error so far. *)
Definition cleanup_stage {X} (stage : artifactStage) (cleanupErr : option failure) : M X (option failure) :=
  let cleanupErr := if sg_creationUnconfirmed stage then Join cleanupErr (Some errContainerCleanup) else cleanupErr in
  answer ← command (removeArgs p (sg_keeper stage)) [] None;
  if removalError p (output_of answer) (not_null (cl_error answer)) then
    recordCleanupFailure (mkFailure ("remove staging keeper " +:+ quote (sg_keeper stage) +:+ ": "
      +:+ from_option f_text "" (cl_error answer) +:+ ": " +:+ TrimSpace (output_of answer)) []);;
    mret (Join (Join cleanupErr (Some errContainerCleanup)) (cl_error answer))
  else
    answer ← command ["volume"; "rm"; sg_volume stage] [] None;
    if not_null (cl_error answer) && negb (no_such_volume (output_of answer)) then
      recordCleanupFailure (mkFailure ("remove staging volume " +:+ quote (sg_volume stage) +:+ ": "
        +:+ from_option f_text "" (cl_error answer) +:+ ": " +:+ TrimSpace (output_of answer)) []);;
      mret (Join (Join cleanupErr (Some errContainerCleanup)) (cl_error answer))
    else mret cleanupErr.

Fixpoint cleanup_stages {X} (stages : list artifactStage) (cleanupErr : option failure) : M X (option failure) :=
  match stages with
  | [] => mret cleanupErr
  | stage :: stages => cleanupErr ← cleanup_stage stage cleanupErr; cleanup_stages stages cleanupErr
  end.

(** The entry is deleted only when everything is known to be gone. *)
Definition cleanupArtifact {X} : M X (option failure) :=
  transferErr ← replaceTransfer None;
  staged ← look_at rs_staging;
  match staged with
  | None => mret transferErr
  | Some stages =>
      cleanupErr ← cleanup_stages stages transferErr;
      match cleanupErr with
      | Some e => mret (Some e)
      | None => modify (rs_set_staging None);; mret None
      end
  end.

(** ** Images *)

Definition inspect_volumes (image : string) : list string :=
  ["image"; "inspect"; "--format={{json .Config.Volumes}}"; image].

(** The error of a command with its output. *)
Definition with_output (prefix : string) (answer : ClientResult) : failure :=
  match cl_error answer with
  | Some e => mkFailure (prefix +:+ f_text e +:+ ": " +:+ TrimSpace (output_of answer)) (f_is e)
  | None => errors_New prefix
  end.

Definition command_reported (prefix : string) (args : list string) : M failure string :=
  answer ← command args [] None;
  match cl_error answer with
  | Some _ => stop (with_output prefix answer)
  | None => mret (output_of answer)
  end.

Definition rejectDockerImageVolumes (image : string) : M failure unit :=
  answer ← command (inspect_volumes image) [] None;
  output ← match cl_error answer with
           | None => mret (output_of answer)
           | Some _ =>
               command_reported "pull container image: " ["pull"; "--quiet"; image];;
               command_reported "inspect container image: " (inspect_volumes image)
           end;
  match volumes_unmarshal output with
  | inl e => stop (wrapf "inspect container image volume metadata: " e)
  | inr true => stop (errors_New "container image declares writable volumes, which Docker cannot disable")
  | inr false => mret tt
  end.

Definition hostname {X} : M X string :=
  answer ← command ["info"; "--format"; "{{json .}}"] [] None;
  mret (match cl_error answer, info_unmarshal (output_of answer) with
        | None, Some (name, host) =>
            let host := if podman p then host else name in
            if String.eqb (TrimSpace host) "" then "unknown" else host
        | _, _ => "unknown"
        end).

Definition artifactGateImageID (image : string) : M failure string :=
  let inspect := ["image"; "inspect"; "--format={{.Id}}"; image] in
  answer ← command inspect [] None;
  output ← match cl_error answer with
           | None => mret (output_of answer)
           | Some _ =>
               answer ← command ["pull"; "--quiet"; image] [] None;
               (if not_null (cl_error answer) then stop errArtifactGate else mret tt);;
               answer ← command inspect [] None;
               (if not_null (cl_error answer) then stop errArtifactGate else mret tt);;
               mret (output_of answer)
           end;
  let id := TrimSpace output in
  if String.eqb id "" then stop errArtifactGate else mret id.

Definition gate_image_name (stepIndex : Z) : string :=
  ep_kind p +:+ "-" +:+ ep_namespace p +:+ "-gate-image-" +:+ pretty deploymentID +:+ "-" +:+ pretty stepIndex.

Definition retainArtifactGateImage (stepIndex : Z) (imageID : string) : M failure unit :=
  let name := gate_image_name stepIndex in
  answer ← command ["inspect"; "--format={{.Image}}"; name] [] None;
  match cl_error answer with
  | None => if String.eqb (TrimSpace (output_of answer)) imageID then mret tt else stop errArtifactGate
  | Some _ =>
      command_ok (["create"; "--pull=never"; "--network=none"; "--entrypoint=/bin/true"; "--name=" +:+ name;
                   "--label=io.durpdeploy.namespace=" +:+ scope p +:+ ":gate-images";
                   "--label=io.durpdeploy.gate-image=" +:+ pretty deploymentID]
                  ++ (if podman p then ["--image-volume=ignore"] else []) ++ [imageID]) None;;
      mret tt
  end.

Definition saveArtifactGateImage (stepIndex : Z) (imageID : string) : M failure unit :=
  retainArtifactGateImage stepIndex imageID;;
  query (CreateArtifactGateImage deploymentID stepIndex imageID).

Definition pin_step (index : Z) (step : Definition_) : M failure unit :=
  if String.eqb (sd_ExecutionTarget step) "agent" then mret tt
  else
    r ← call (query (GetArtifactGateImage deploymentID index));
    match r with
    | inr id => retainArtifactGateImage index id
    | inl e =>
        if errors_Is e IsNoRows then
          id ← artifactGateImageID (sd_ContainerImage step);
          saveArtifactGateImage index id
        else stop e
    end.

Definition pinArtifactGateImages (steps : list Definition_) : M failure unit :=
  each_m (imap (λ i step, (Z.of_nat i, step)) steps) (λ x, pin_step x.1 x.2).

(** ** Bundles of artifact gates *)

Definition validateArtifactGateExport (keeper : string) : M failure unit :=
  answer ← command ["exec"; keeper; "sh"; "-c"; newline_text +:+ "set -euo pipefail" +:+ newline_text
    +:+ "find /stage -type f -exec stat -c '%s %b' {} + |" +:+ newline_text
    +:+ "  awk '$1 > $2 * 512 { exit 1 }'" +:+ newline_text] [] None;
  match cl_error answer with
  | None => mret tt
  | Some e => stop (join errArtifactGate (join
      (errors_New "approval context contains sparse files or cannot be inspected") e))
  end.

Definition policy_error (e : failure) : failure :=
  wrapf "approval context does not satisfy the current staging policy: " e.

Definition captureArtifactGate (stepIndex : Z) (step : Definition_) (stage : artifactStage) : M failure unit :=
  validateArtifactGateExport (sg_keeper stage);;
  with_spool (
    answer ← command (export_command (sg_keeper stage)) [] None;
    bundle ←
      match copy_bundle (output_of answer) (sd_ApprovalArtifactPath step) (sd_ApprovalReviewPath step)
              (sd_ApprovalReviewFormat step), cl_error answer with
      | inr bundle, None => mret bundle
      | inl e, waitErr => match Join (Some e) waitErr with Some e => stop (join errArtifactGate e) | None => stop e end
      | inr _, Some e => stop (join errArtifactGate e)
      end;
    let '(file, checksum, review) := bundle in
    match read_archive file with
    | Some e => stop (join errArtifactGate (policy_error e))
    | None => mret tt
    end;;
    e ← ask open_file; check e;;
    now ← query CurrentUnixTime;
    nonces ← ask chunk_nonces;
    store (SaveArtifactGate Configured sha256_hex ArchiveBytes nonces
      (mkGateParams deploymentID stepIndex (sd_ApprovalArtifactPath step) checksum (sha256_hex file)
         (Z.of_nat (String.length file)) review now (now + 24 * 60 * 60)) file)).

(** A line without a step. *)
Definition create_log (line : string) : M failure unit :=
  query (CreateDeploymentLog deploymentID None line;; mret tt).

Definition stagingRestoreError (e : failure) : M failure unit :=
  if errors_Is e IsStagingInvalid then
    logErr ← error_of (create_log "Saved approval context does not satisfy the current staging policy");
    match Join logErr (Some (policy_error e)) with
    | Some e => stop (join errArtifactGate e)
    | None => stop errArtifactGate
    end
  else stop (join errArtifactGate e).

Definition nodes_error (e : failure) : M failure unit :=
  logErr ← (if errors_Is e IsArtifactInvalid
            then error_of (create_log "Saved approval context does not satisfy the current staging-node limit")
            else mret None);
  match Join (Some e) logErr with Some e => stop (join errArtifactGate e) | None => stop errArtifactGate end.

(** The gate that a bundle may be restored from. *)
Definition restorable (now : Z) (gate : ArtifactGate) : bool :=
  negb (negb (String.eqb (ag_Status gate) "approved") || (ag_ExpiresAt gate <=? now) || is_null (ag_ApprovedBy gate)).

Definition restoreArtifactGate (stepIndex : Z) : M failure artifactStage :=
  r ← call (query (GetArtifactGate deploymentID stepIndex));
  gate ← match r with inl _ => stop errArtifactGate | inr gate => mret gate end;
  now ← query CurrentUnixTime;
  (if restorable now gate then mret tt else stop errArtifactGate);;
  with_spool (
    r ← call (query (WriteArtifactGateBundle Configured sha256_hex ArchiveBytes gate));
    file ← match r with inl e => stagingRestoreError e;; stop e | inr file => mret file end;
    e ← ask open_file; check e;;
    match validate_nodes file with Some e => nodes_error e | None => mret tt end;;
    match read_archive file with Some e => stagingRestoreError e | None => mret tt end;;
    e ← ask open_file; check e;;
    r ← stageDeployment ∅;
    let '(stage, e) := r in
    check e;;
    answer ← command (extract_command (sg_keeper stage) deploymentStageMount) [] (Some file);
    if not_null (cl_error answer) then stop errArtifactGate else mret stage).
End staging.
