(* ===== verification/LocalStep.v ===== *)
(** * LocalStep: one attempt of a step in a container on the server

    internal/runner/local_step.go and ansible.go: the checks before the
    container is started, its output, and the removal of the container and of
    the private inputs after it. *)
From stdpp Require Import pretty.
From S2P Require Import Prelude Text Db Tx QueueQueries DeploymentQueue DispatchQueries Secret Variables Resolution Ansible DeploymentCreation RemotePayload LogScrub LogWriter Container StepRunner Runs Runtime LocalStaging.

Section attempt.
Context `{Server} `{Outside} `{RunnerLibraries}.
Context (p : containerEndpoint) (limits : Limits_) (pagesize : Z) (localErr : option failure) (deploymentID : Z).

(** ** Ansible *)

Definition ansibleConfig : string :=
  String.concat newline_text
    ["[defaults]"; "inventory = /ansible/inventory.yml"; "private_key_file = /ansible/id_key";
     "host_key_checking = True"; "retry_files_enabled = False"; "local_tmp = /tmp/ansible-local";
     "remote_tmp = ~/.ansible/tmp"; "interpreter_python = auto_silent"; "nocows = True"; "force_color = False";
     "display_args_to_stdout = False"; "[inventory]"; "unparsed_is_failed = True"; "[ssh_connection]";
     "ssh_args = " +:+ ansibleSSHArgs; ""].

Definition ansibleLocalConfig : string :=
  String.concat newline_text
    ["[defaults]"; "inventory = /ansible/inventory.yml"; "retry_files_enabled = False";
     "local_tmp = /tmp/ansible-local"; "remote_tmp = /tmp/ansible-remote"; "interpreter_python = auto_silent";
     "nocows = True"; "force_color = False"; "display_args_to_stdout = False"; "[inventory]";
     "unparsed_is_failed = True"; ""].

Definition ansibleVariable (request : localStepAttempt) (source : string) : option string :=
  if String.eqb source "ARTIFACT_PATH" && present (la_artifact request) then Some artifactMount
  else if String.eqb source StageVariable && present (la_handoff request) then Some deploymentStageMount
  else if String.eqb source ApprovedVariable && present (la_approved request) then Some approvedMount
  else la_environment request !! source.

(** The first missing source in the order of the map is reported. *)
Definition ansibleExtraVariables (request : localStepAttempt) (a : Ansible) : result string :=
  variables ← foldr (λ kv (acc : result (gmap string string)),
      variables ← acc;
      match ansibleVariable request kv.2 with
      | Some value => Ok (<[kv.1 := value]> variables)
      | None => Err (ErrOther ("mapped variable " +:+ quote kv.2 +:+ " is unavailable"))
      end) (Ok ∅) (map_to_list (an_ExtraVars a));
  Ok (strings_marshal variables).

Definition ansibleSSHKey (request : localStepAttempt) (a : Ansible) : M failure string :=
  variables ← list_variables deploymentID;
  deployment ← query (GetDeployment deploymentID);
  resolved ← check_result (ResolveDeploymentVariables variables deployment);
  let secret := foldl (λ secret v,
    if String.eqb (r_Name v) (an_SSHKeyVariable a) then r_Secret v else secret) false resolved in
  (if secret : bool then mret tt
   else stop (errors_New "SSH credential must be secret in the accepted variable snapshot"));;
  match la_environment request !! an_SSHKeyVariable a with
  | None => stop (errors_New "SSH credential is unavailable in the accepted variable snapshot")
  | Some key =>
      if private_key key then mret (TrimSpace key +:+ newline_text)
      else stop (errors_New "SSH credential must contain a valid unencrypted private key")
  end.

Definition file_le (a b : string * string) : bool := string_le a.1 b.1.

(** The loop over the files in the order of their names. *)
Fixpoint fits (written files : list (string * string)) : bool :=
  match files with
  | [] => true
  | file :: files =>
      (Z.of_nat (String.length file.2) <=? ansibleStagingBytes - archive_length written - 2048)
      && fits (written ++ [file]) files
  end.

Definition ansibleArchive (files : list (string * string)) : M failure string :=
  let files := sort_by file_le files in
  if fits [] files then
    match write_archive files with inl e => stop e | inr archive => mret archive end
  else stop (errors_New "ansible inputs exceed private staging capacity").

Definition ansible_files (request : localStepAttempt) (a : Ansible) : M failure (list (string * string)) :=
  encoded ← check_result (ansibleExtraVariables request a);
  let files := [("playbook.yml", an_Playbook a); ("inventory.yml", an_Inventory a); ("vars.json", encoded)] in
  if String.eqb (an_Connection a) "local" then mret (files ++ [("ansible.cfg", ansibleLocalConfig)])
  else
    key ← ansibleSSHKey request a;
    mret (files ++ [("ansible.cfg", ansibleConfig); ("id_key", key); ("known_hosts", an_KnownHosts a)]).

Definition ansible_arguments (a : Ansible) (targets : list string) : list string :=
  ["/ansible/playbook.yml"; "--inventory"; "/ansible/inventory.yml"; "--extra-vars"; "@/ansible/vars.json";
   "--limit"; String.concat "," targets]
  ++ (if String.eqb (an_Connection a) "local" then ["--connection"; "local"] else [])
  ++ (match an_Tags a with [] => [] | tags => ["--tags"; String.concat "," tags] end)
  ++ (match an_Check a with Some true => ["--check"] | _ => [] end).

(** The stage comes with an error too: its caller removes it. *)
Definition prepareAnsibleAttempt {X} (request : localStepAttempt) : M X (ansibleAttempt * option failure) :=
  let nothing := mkAnsibleAttempt no_stage [] in
  r ← call (
    check_result (ValidateKind (la_step request));;
    match sd_Ansible (la_step request) with
    | None => stop (errors_New "Ansible configuration is required")
    | Some a =>
        files ← ansible_files request a;
        archive ← ansibleArchive files;
        mret (a, archive)
    end);
  match r with
  | inl e => mret (nothing, Some e)
  | inr (a, archive) =>
      r ← createStagingVolume p limits pagesize deploymentID StepContext ansibleMount;
      match r with
      | (stage, Some e) => mret (mkAnsibleAttempt stage [], Some e)
      | (stage, None) =>
          answer ← command (extract_command (sg_keeper stage) ansibleMount) [] (Some archive);
          if not_null (cl_error answer)
          then mret (mkAnsibleAttempt stage [], Some (errors_New "stage Ansible inputs failed"))
          else match Targets a with
          | Err e => mret (mkAnsibleAttempt stage [], Some (of_error e))
          | Ok targets => mret (mkAnsibleAttempt stage (ansible_arguments a targets), None)
          end
      end
  end.

(** The registry tells whether the volume was created for certain. *)
Definition owned_unconfirmed (stage : artifactStage) (stages : list artifactStage) : bool :=
  existsb (λ owned, String.eqb (sg_volume owned) (sg_volume stage) && sg_creationUnconfirmed owned) stages.

Definition cleanupAnsibleAttempt {X} (stage : artifactStage) : M X (option failure) :=
  if negb (present stage) then mret None
  else
    stages ← look_at (λ st, default [] (rs_staging st));
    if sg_creationUnconfirmed stage || owned_unconfirmed stage stages then mret (Some errContainerCleanup)
    else
      answer ← command (removeArgs p (sg_keeper stage)) [] None;
      if removalError p (output_of answer) (not_null (cl_error answer)) then mret (Some errContainerCleanup)
      else
        answer ← command ["volume"; "rm"; sg_volume stage] [] None;
        mret (if not_null (cl_error answer) && negb (no_such_volume (output_of answer))
              then Some errContainerCleanup else None).

(** ** The container *)
Context (log : LogTarget).

Notation say := (write_log limits deploymentID log).
Notation flush := (flush_log deploymentID log).

Definition errPending : failure := errors_New errPendingLogLimit.

Definition step_prefix_of (request : localStepAttempt) : string :=
  "step " +:+ quote (sd_Name (la_step request)) +:+ ": ".

(** A line about an error before the container is started. *)
Definition failed_before (request : localStepAttempt) (text : string) (e : failure) : M failure unit :=
  logErr ← say (step_prefix_of request +:+ text +:+ f_text e +:+ newline_text);
  flush;;
  match Join (Some e) logErr with Some e => stop e | None => stop e end.

(** ... whose own error is dropped. *)
Definition failed_attempt (request : localStepAttempt) (e : failure) : M failure unit :=
  say (step_prefix_of request +:+ "attempt " +:+ pretty (la_attempt request) +:+ " failed before execution: "
       +:+ f_text e +:+ newline_text);;
  flush;;
  stop e.

(** The writes of the process; the first error ends the copying. *)
Fixpoint copy_output {X} (chunks : list string) : M X (option failure) :=
  match chunks with
  | [] => mret None
  | chunk :: chunks =>
      e ← say chunk;
      match e with Some e => mret (Some e) | None => copy_output chunks end
  end.

(** The deferred removal of the container: its error. *)
Definition remove_container {X} (request : localStepAttempt) (name : string) : M X (option failure) :=
  answer ← command (removeArgs p name) [] None;
  flush;;
  if removalError p (output_of answer) (not_null (cl_error answer)) then
    let text := from_option f_text "" (cl_error answer) +:+ ": " +:+ TrimSpace (output_of answer) in
    persistErr ← write_line deploymentID log
      (Scrubber_Scrub (lt_scrubber log) (step_prefix_of request +:+ "container cleanup unconfirmed: " +:+ text)) "";
    mret (Join (Some (mkFailure (f_text errContainerCleanup +:+ ": remove container " +:+ name +:+ ": " +:+ text)
                        [IsContainerCleanup]))
            (wrapf "persist container cleanup diagnostic: " <$> persistErr))
  else mret None.

(** What is logged about an error of the process. *)
Definition report_failure {X} (request : localStepAttempt) (timeout : Z) (e : failure) : M X unit :=
  expired ← ask step_expired;
  if bool_decide (f_is <$> expired = Some [IsDeadlineExceeded]) then
    say (step_prefix_of request +:+ "attempt " +:+ pretty (la_attempt request) +:+ " timed out after "
         +:+ duration_string timeout +:+ newline_text);; mret tt
  else
    cancelled ← ask run_cancelled;
    if cancelled : bool then mret tt
    else say (step_prefix_of request +:+ "attempt " +:+ pretty (la_attempt request) +:+ " failed: "
              +:+ f_text e +:+ newline_text);; mret tt.

(** From [cmd.Run] on. *)
Definition run_process (request : localStepAttempt) (args entries : list string) (timeout : Z) : M failure unit :=
  answer ← command args entries
    (if String.eqb (sd_Kind (la_step request)) "ansible" then None else Some (sd_ScriptBody (la_step request)));
  copyErr ← copy_output (cl_output answer);
  let err := match cl_error answer with Some e => Some e | None => copyErr end in
  failed ← look_at (λ st, w_outputFailed (rs_writer st));
  if failed : bool then match Join (Some errPending) err with Some e => stop e | None => stop errPending end
  else match err with
  | None => mret tt
  | Some e => report_failure request timeout e;; stop e
  end.

Definition container_name (request : localStepAttempt) (nonce : string) : string :=
  "durpdeploy-" +:+ pretty deploymentID +:+ "-" +:+ pretty (la_attempt request) +:+ "-" +:+ nonce.

Definition location_line (request : localStepAttempt) (host name selected : string) : string :=
  "Execution location: target=server host=" +:+ quote (Scrubber_Scrub (lt_scrubber log) host)
  +:+ " mode=container runtime=" +:+ quote (ep_kind p) +:+ " container=" +:+ quote name
  +:+ " image=" +:+ quote (sd_ContainerImage (la_step request)) +:+ " interpreter=" +:+ quote selected
  +:+ " attempt=" +:+ pretty (la_attempt request) +:+ newline_text.

Definition run_container (request : localStepAttempt) (host selected : string) (timeout : Z) : M failure unit :=
  match containerEnvironment request with
  | Err e => failed_before request "failed before execution: " (of_error e)
  | Ok (selectedEnv, envArgs) =>
      nonce ← ask random;
      match nonce with
      | None => stop (errors_New "read random bytes")
      | Some nonce =>
          let name := container_name request nonce in
          let args := localContainerArgs p limits request name selected timeout envArgs in
          e ← say (location_line request host name selected);
          match e with Some e => stop (wrapf "record execution location: " e) | None => mret tt end;;
          modify (rs_set_attempt (Some name));;
          defer (defer_join (run_process request args selectedEnv timeout) (remove_container request name))
            (modify (rs_set_attempt None))
      end
  end.

(** The staging containers that the attempt mounts must run. *)
Definition check_stage (stage : artifactStage) : M failure unit :=
  if negb (present stage) then mret tt
  else
    answer ← command ["inspect"; "--format={{.State.Running}}"; sg_keeper stage] [] None;
    if not_null (cl_error answer) || negb (String.eqb (TrimSpace (output_of answer)) "true")
    then stop (errors_New "staging container is unavailable") else mret tt.

Definition attempt_timeout (step : Definition_) : Z :=
  step_timeout (lm_DefaultTimeoutSeconds limits) step.

Definition prepared_container (request : localStepAttempt) (host selected : string) (timeout : Z) : M failure unit :=
  if String.eqb (sd_Kind (la_step request)) "ansible" then
    r ← prepareAnsibleAttempt request;
    let '(prepared, e) := r in
    let request := la_set_ansible prepared request in
    defer_join
      (match e with
       | Some e => failed_before request "Ansible preparation failed: " e
       | None => run_container request host selected timeout
       end)
      (cleanupAnsibleAttempt (aa_stage prepared))
  else run_container request host selected timeout.

(** The checks between the state of the step and its context. *)
Definition attempt_body (request : localStepAttempt) : M failure unit :=
  check_result (validateLocalContainerImage (la_step request));;
  match localErr with
  | Some e => failed_attempt request (wrapf "initialize container execution: " e)
  | None => mret tt
  end;;
  (if not_null (la_environment request !! StageVariable)
   then stop (errors_New (StageVariable +:+ " conflicts with a snapshotted variable")) else mret tt);;
  each_m [la_artifact request; la_handoff request; la_approved request] check_stage;;
  check_result (ValidateKind (la_step request));;
  selected ← (if String.eqb (sd_Kind (la_step request)) "ansible" then mret "ansible-playbook"
              else check_result (interpreter_Validate (sd_Interpreter (la_step request))));
  host ← hostname p;
  let timeout := attempt_timeout (la_step request) in
  (if docker p then
     r ← call (rejectDockerImageVolumes (sd_ContainerImage (la_step request)));
     match r with inl e => failed_attempt request e | inr _ => mret tt end
   else mret tt);;
  prepared_container request host selected timeout.

(** The deferred [finishState]. *)
Definition finishing (m : M failure unit) : M failure unit :=
  e ← error_of m;
  cancelled ← ask run_cancelled;
  finish_log deploymentID log e cancelled;;
  check e.

Definition runStepAttempt (request : localStepAttempt) : M failure unit :=
  check_result (ValidateLimitsWithPolicy (sd_TimeoutSeconds (la_step request)) (sd_MaxRetries (la_step request)) Limits);;
  began ← beginLocalWork;
  if negb began then stop context_Canceled
  else
    defer (
      failed ← look_at (λ st, w_outputFailed (rs_writer st));
      (if failed : bool then stop errPending else mret tt);;
      e ← log_state deploymentID log "running"; check e;;
      finishing (attempt_body request))
    localWork_Done.
End attempt.
