(* ===== verification/LocalRun.v ===== *)
(** * LocalRun: a deployment executed by the server

    internal/runner/runner.go ([Run]), deployment_result.go, verification.go,
    deployment_queue.go and the cancellation of runner_control.go. *)
From stdpp Require Import pretty.
From S2P Require Import Prelude Text Db Tx QueueQueries DeploymentQueue DispatchQueries CreationQueries GateQueries ArtifactGate Secret Variables Resolution Ansible DeploymentCreation RemotePayload LogScrub LogWriter Container StepRunner Runs Runtime LocalStaging LocalStep.

Section run.
Context `{Server} `{Outside} `{RunnerLibraries}.
Context (p : containerEndpoint) (limits : Limits_) (pagesize : Z) (localErr : option failure) (deploymentID : Z).

Notation cleanup := (cleanupArtifact p deploymentID).
Notation say := (write_log limits deploymentID).
Notation flush := (flush_log deploymentID).

(** ** The end of a run (deployment_result.go) *)

Definition cancelled_in {X} (c : context_) : M X bool := e ← ctx_Err c; mret (not_null e).

Definition completeDeployment_ {X} (c : context_) (status : string) (cancellationWins localCleanupConfirmed : bool)
    : M X (failure + string) :=
  cancelled ← (if cancellationWins then cancelled_in c else mret false);
  now ← ask unix_time;
  r ← call (store (completeDeployment now deploymentID status cancelled localCleanupConfirmed));
  record_act (ActComplete (if cancelled : bool then "cancelled" else status) r);;
  match r with inr _ => modify (rs_set_cancels false) | inl _ => mret tt end;;
  mret r.

(** Thirty seconds of attempts, one every second, unless the server stops
    earlier: the goroutine that [persistCompletion] starts. *)
Fixpoint retryCompletion {X} (ticks : nat) (c : context_) (status : string)
    (cancellationWins localCleanupConfirmed : bool) : M X unit :=
  match ticks with
  | 0%nat => modify (rs_set_retrying false)
  | S ticks =>
      r ← completeDeployment_ c status cancellationWins localCleanupConfirmed;
      match r with
      | inr _ => modify (rs_set_retrying false)
      | inl _ => retryCompletion ticks c status cancellationWins localCleanupConfirmed
      end
  end.

(** The status that stands, unless it could not be stored; then a goroutine
    tries again ([ActRetry]), except while the server stops. *)
Definition persistCompletion {X} (c : context_) (status : string) (cancellationWins : bool) : M X (option string) :=
  e ← cleanup;
  let localCleanupConfirmed := is_null e in
  let status := if localCleanupConfirmed then status else "cleanup_unconfirmed" in
  let cancellationWins := localCleanupConfirmed && cancellationWins in
  r ← completeDeployment_ c status cancellationWins localCleanupConfirmed;
  match r with
  | inr final => mret (Some final)
  | inl _ =>
      modify (rs_set_cancels false);;
      halted ← ask stopping;
      retrying ← look_at rs_retrying;
      when (negb halted && negb retrying) (modify (rs_set_retrying true);; record_act (ActRetry status));;
      mret None
  end.

Definition failStep {X} (c : context_) (message : string) (cancellationWins : bool) : M X unit :=
  final ← persistCompletion c "failed" cancellationWins;
  when (bool_decide (final = Some "failed")) (publish DeploymentFailed message).

Definition finalizeCancellation {X} : M X unit := persistCompletion RootContext "cancelled" false;; mret tt.

Definition load_deployment {X} : M X (failure + Deployment) :=
  r ← call (query (GetDeployment deploymentID));
  record_act (ActLoad r);;
  mret r.

Definition failUnlessCancelled {X} (c : context_) : M X unit :=
  cancelled ← cancelled_in c;
  if cancelled : bool then finalizeCancellation
  else
    r ← load_deployment;
    match r with
    | inl _ => record_act ActGiveUp
    | inr deployment =>
        if String.eqb (d_Status deployment) "cancelled" then mret tt
        else
          r ← call (query (GetRelease (d_ReleaseID deployment)));
          match r with
          | inl _ => persistCompletion c "failed" true;; mret tt
          | inr _ => failStep c "Deployment failed" true
          end
    end.

(** [r.failUnlessCancelled(ctx, runCtx, deploymentID); return] *)
Definition fail_run {A} : M unit A := failUnlessCancelled RunContext;; stop tt.

(** [r.finalizeCancellation(ctx, deploymentID); return] *)
Definition cancel_run {A} : M unit A := finalizeCancellation;; stop tt.

(** [r.persistCompletion(ctx, runCtx, deploymentID, "cleanup_unconfirmed", false); return] *)
Definition unconfirmed_run {A} : M unit A :=
  persistCompletion RunContext "cleanup_unconfirmed" false;; stop tt.

(** [r.failStep(ctx, runCtx, ..., wins); return] *)
Definition fail_step {A} (message : string) (wins : bool) : M unit A := failStep RunContext message wins;; stop tt.

(** ** Verification (verification.go) *)

Definition DecryptVerificationTarget (value : string) : result string :=
  plain ← decryptValue Configured (Some value); Ok (default "" plain).

Definition VerificationStepScript (step : DeploymentStep) : M failure string :=
  r ← call (query (GetDeploymentVerification (s_DeploymentID step)));
  match r with
  | inl e => if errors_Is e IsNoRows then mret (s_ScriptBody step) else stop e
  | inr verification =>
      if negb (String.eqb (v_Type verification) "bash") || negb (Z.eqb (v_StepIndex verification) (s_StepIndex step))
      then mret (s_ScriptBody step)
      else check_result (DecryptVerificationTarget (v_Target verification))
  end.

(** The attempt that checks a deployment with a script. *)
Definition verification_step (frozen : DeploymentStep) (script : string) (names : list string) : Definition_ :=
  mkDefinition "" None (s_Name frozen) script "bash" 0 (s_TimeoutSeconds frozen) 0 "local" "" [] BashImage ""
    "" "" "" names.

Definition verifyBash (index : Z) (log : LogTarget) (environment : gmap string string) (stage : artifactStage)
    : M failure unit :=
  steps ← wrapped "load verification step: " (query (ListDeploymentSteps deploymentID));
  frozen ← (if (index <? 0) || (Z.of_nat (length steps) <=? index) then stop (errors_New "verification step is missing")
            else match steps !! Z.to_nat index with
                 | Some frozen => mret frozen
                 | None => stop (errors_New "verification step is missing")
                 end);
  script ← wrapped "decrypt verification step: " (VerificationStepScript frozen);
  names ← (match names_unmarshal (s_VariableNames frozen) with
           | Some names => mret names
           | None => stop (errors_New "load verification variables")
           end);
  recorded ← wrapped "record verification container namespace: " (recordContainerNamespace p deploymentID);
  (if Z.eqb recorded 1 then mret tt else stop errContainerCleanup);;
  e ← error_of (runStepAttempt p limits pagesize localErr deploymentID log
        (mkAttempt deploymentID (verification_step frozen script names) environment 1 stage true no_stage no_stage
           (mkAnsibleAttempt no_stage [])));
  cancelled ← cancelled_in RunContext;
  if cancelled && negb (match e with Some e => errors_Is e IsContainerCleanup | None => false end)
  then stop context_Canceled else check e.

Definition verification_status (e : option failure) (cancelled : bool) : string :=
  match e with
  | None => "succeeded"
  | Some e => if errors_Is e IsDeploymentCancelled || (errors_Is e IsCanceled && cancelled) then "cancelled" else "failed"
  end.

Definition finishVerification (log : LogTarget) (e : option failure) : M failure unit :=
  e ← (match e with
       | None => mret None
       | Some e =>
           writeErr ← say log ((if errors_Is e IsDeadlineExceeded then "Verification timed out" else "Verification failed")
                        +:+ newline_text);
           mret (Join (Some e) writeErr)
       end);
  cancelled ← cancelled_in RunContext;
  let status := verification_status e cancelled in
  writeErr ← say log ("Verification " +:+ status +:+ newline_text);
  let e := Join e writeErr in
  finishErr ← error_of (query (FinishDeploymentVerification deploymentID status));
  match finishErr with
  | Some finishErr => check (Join e (Some (wrapf "finish verification: " finishErr)))
  | None =>
      call (query (RecordAudit ("verification_" +:+ status) deploymentID));;
      check e
  end.

(** The check itself, and the target that its lines are then written to. *)
Definition check_verification {X} (verification : DeploymentVerification) (log : LogTarget)
    (environment : gmap string string) (secretValues : list string) (stage : artifactStage)
    : M X (LogTarget * option failure) :=
  if String.eqb (v_Type verification) "http" then
    match DecryptVerificationTarget (v_Target verification) with
    | Err e => mret (log, Some (of_error e))
    | Ok target =>
        let log := mkTarget (lt_stepName log) (lt_stepIndex log) (http_scrubber target secretValues) in
        answer ← ask (λ t, check_http t target);
        write_output limits deploymentID log (cl_output answer);;
        mret (log, cl_error answer)
    end
  else if String.eqb (v_Type verification) "bash" then
    e ← error_of (verifyBash (v_StepIndex verification) log environment stage);
    mret (log, e)
  else mret (log, Some (errors_New "unknown verification type")).

Definition run_verification (verification : DeploymentVerification) (environment : gmap string string)
    (secretValues : list string) (stage : artifactStage) : M failure unit :=
  started ← wrapped "start verification: " (query (StartDeploymentVerification deploymentID));
  (if Z.eqb started 1 then mret tt else stop (errors_New "verification has already started"));;
  modify (rs_set_writer (mkWriter "" false));;
  let log := mkTarget "Post-deployment verification" None (NewScrubber secretValues) in
  e ← say log ("Verification started" +:+ newline_text);
  match e with
  | Some e => flush log;; stop e
  | None =>
      r ← check_verification verification log environment secretValues stage;
      let '(log, e) := r in
      expired ← (if String.eqb (v_Type verification) "http" then ask check_expired else mret None);
      defer (finishVerification log (match expired with Some e => Some e | None => e end)) (flush log)
  end.

Definition verifyDeployment (environment : gmap string string) (secretValues : list string) (stage : artifactStage)
    : M failure unit :=
  r ← call (query (GetDeploymentVerification deploymentID));
  match r with
  | inl e => if errors_Is e IsNoRows then mret tt else stop (wrapf "load verification: " e)
  | inr verification =>
      if String.eqb (v_Type verification) "http" then
        began ← beginLocalWork;
        if negb began then stop context_Canceled
        else defer (run_verification verification environment secretValues stage) localWork_Done
      else run_verification verification environment secretValues stage
  end.
End run.
