(* ===== verification/LocalRunner.v ===== *)
(** * LocalRunner: the run of a deployment on the server (internal/runner/runner.go)

    [Run] and what starts and cancels it. The function is long: it is cut where
    it defers a call and at the body of its loop over the steps. *)
From stdpp Require Import pretty.
From S2P Require Import Prelude Text Db Tx QueueQueries DeploymentQueue DispatchQueries CreationQueries GateQueries ArtifactGate Secret Variables Resolution Ansible DeploymentCreation RemotePayload LogScrub LogWriter Container StepRunner Runs Runtime LocalStaging LocalStep LocalRun.

Section run.
Context `{Server} `{Outside} `{RunnerLibraries}.
Context (p : containerEndpoint) (limits : Limits_) (pagesize : Z) (localErr : option failure) (deploymentID : Z).

Notation cleanup := (cleanupArtifact p deploymentID).
Notation say := (write_log limits deploymentID).
Notation flush := (flush_log deploymentID).
Notation fail_run := (fail_run p deploymentID).
Notation cancel_run := (cancel_run p deploymentID).
Notation unconfirmed_run := (unconfirmed_run p deploymentID).
Notation fail_step := (fail_step p deploymentID).

(** ** The start *)

(** The first step to execute. *)
Definition next_step (gateRun : option ArtifactGateRun) : Z := from_option gr_NextStep 0 gateRun.

(** The gate of the deployment, when it has one. The runner's lock is held. *)
Definition begin_run : M unit (option ArtifactGateRun) :=
  halted ← ask stopping;
  when halted (stop tt);;
  halted ← ask stopping;
  when halted (stop tt);;
  running ← look_at rs_cancels;
  when running (stop tt);;
  r ← call (store (BeginArtifactGateRun deploymentID));
  gateRun ←
    match r with
    | inl e =>
        when (negb (errors_Is e IsArtifactGate)) (failUnlessCancelled p deploymentID RootContext);;
        stop tt
    | inr gateRun => mret gateRun
    end;
  match gateRun with
  | Some _ => mret tt
  | None =>
      r ← call (store (StartLocalDeployment deploymentID));
      match r with inr true => mret tt | _ => stop tt end
  end;;
  record_act (ActStart (next_step gateRun));;
  modify (rs_set_cancels true);;
  mret gateRun.

(** ** What is executed *)

Record RunInput := mkInput {
  ri_gateRun : option ArtifactGateRun;
  ri_environmentName : string;
  ri_steps : list Definition_;
  ri_environment : gmap string string;
  ri_secrets : list string }.

(** The mode of a check run, in every Ansible step. *)
Definition with_check_mode (mode : option Z) (step : Definition_) : Definition_ :=
  match mode, sd_Ansible step with
  | Some mode, Some a =>
      mkDefinition (sd_Kind step)
        (Some (mkAnsible (an_Connection a) (an_Playbook a) (an_Inventory a) (an_ExtraVars a) (an_SSHKeyVariable a)
                 (an_KnownHosts a) (an_Tags a) (an_Limit a) (Some (Z.eqb mode 1))))
        (sd_Name step) (sd_ScriptBody step) (sd_Interpreter step) (sd_SortOrder step) (sd_TimeoutSeconds step)
        (sd_MaxRetries step) (sd_ExecutionTarget step) (sd_AgentExecutionMode step) (sd_AgentSelectors step)
        (sd_ContainerImage step) (sd_NetworkMode step) (sd_ApprovalArtifactPath step) (sd_ApprovalReviewPath step)
        (sd_ApprovalReviewFormat step) (sd_VariableNames step)
  | _, _ => step
  end.

(** The image of a step with a gate is the one pinned before the first run. *)
Definition with_image (image : string) (step : Definition_) : Definition_ :=
  mkDefinition (sd_Kind step) (sd_Ansible step) (sd_Name step) (sd_ScriptBody step) (sd_Interpreter step)
    (sd_SortOrder step) (sd_TimeoutSeconds step) (sd_MaxRetries step) (sd_ExecutionTarget step)
    (sd_AgentExecutionMode step) (sd_AgentSelectors step) image (sd_NetworkMode step)
    (sd_ApprovalArtifactPath step) (sd_ApprovalReviewPath step) (sd_ApprovalReviewFormat step)
    (sd_VariableNames step).

(** [if err != nil { r.failUnlessCancelled(ctx, runCtx, deploymentID); return }] *)
Definition or_fail {A} (m : M failure A) : M unit A :=
  r ← call m; match r with inl _ => fail_run | inr a => mret a end.

Definition environment_of (resolved : list ResolvedVariable) : gmap string string :=
  foldl (λ m v, <[r_Name v := r_Value v]> m) ∅ resolved.

Definition secrets_of (resolved : list ResolvedVariable) : list string :=
  r_Value <$> filter (λ v, r_Secret v && negb (String.eqb (r_Value v) "") = true) resolved.

Definition limits_ok (step : Definition_) : result unit :=
  ValidateLimitsWithPolicy (sd_TimeoutSeconds step) (sd_MaxRetries step) Limits.

Definition load_input (gateRun : option ArtifactGateRun) (releaseID environmentID : Z) : M unit RunInput :=
  deployment ← or_fail (query (GetDeployment deploymentID));
  when (negb (Z.eqb (d_ReleaseID deployment) releaseID) || negb (Z.eqb (d_EnvironmentID deployment) environmentID))
    fail_run;;
  or_fail (query (GetRelease releaseID));;
  let name := default "" (d_EnvironmentNameSnapshot deployment) in
  when (Z.eqb (next_step gateRun) 0)
    (publish DeploymentStarted ("Deployment #" +:+ pretty deploymentID +:+ " started on " +:+ name));;
  source ← or_fail (query (GetDeploymentStepSource deploymentID));
  record_act (ActSource source);;
  steps ← match steps_unmarshal source with None => fail_run | Some steps => mret steps end;
  let steps := with_check_mode (d_AnsibleCheckMode deployment) <$> steps in
  or_fail (each_m steps (λ step, check_result (limits_ok step)));;
  variables ← or_fail (list_variables deploymentID);
  match ResolveDeploymentVariables variables deployment with
  | Err e =>
      let e := of_error e in
      when (errors_Is e IsEnvironment)
        (print_log limits deploymentID (mkTarget "" None (NewScrubber [])) (f_text e +:+ newline_text));;
      fail_run
  | Ok resolved =>
      mret (mkInput gateRun name steps (environment_of resolved) (secrets_of resolved))
  end.

(** ** Local work *)

Definition release_work {X} : M X unit :=
  held ← look_at rs_artifactWork;
  when held localWork_Done.

Definition drop_work {X} : M X unit := localWork_Done;; modify (rs_set_artifactWork false).

(** [if !artifactWork { if !r.beginLocalWork() { ... return }; artifactWork = true }] *)
Definition ensure_work : M unit unit :=
  held ← look_at rs_artifactWork;
  if held : bool then mret tt
  else
    began ← beginLocalWork;
    if began : bool then modify (rs_set_artifactWork true) else cancel_run.

(** ** The steps *)
Section steps.
Context (input : RunInput).

(** The variables that the loop carries. *)
Record Carried := mkCarried {
  lv_handoff : artifactStage;
  lv_transferred : option string }.

Definition gated : bool := not_null (ri_gateRun input).
Definition first_step : Z := next_step (ri_gateRun input).

Definition scrubber_of_run : option Scrubber := NewScrubber (ri_secrets input).

Definition log_of (index : Z) (step : Definition_) : LogTarget :=
  mkTarget (sd_Name step) (Some index) scrubber_of_run.

Definition failed_on (text : string) : string :=
  "Deployment #" +:+ pretty deploymentID +:+ " failed on " +:+ ri_environmentName input +:+ ": " +:+ text.

Definition failed_before_container (text : string) : string :=
  "Deployment #" +:+ pretty deploymentID +:+ " failed before container execution: " +:+ text.

(** What [runRemoteStep] returns, as an error. *)
Definition remote_error (step : Definition_) (outcome : StepResult) : option failure :=
  let named text := errors_New ("step " +:+ quote (sd_Name step) +:+ text) in
  match outcome with
  | StepSucceeded => None
  | StepContainerCleanup => Some errContainerCleanup
  | StepCancelled => Some errDeploymentCancelled
  | StepUnconfirmed agent => Some (named (" cancellation was not confirmed by agent " +:+ agent))
  | StepTimedOut => Some (named (" timed out after " +:+ duration_string (attempt_timeout limits step)))
  | StepFailed agent => Some (named (" failed on agent " +:+ agent))
  | StepStopped => Some context_Canceled
  | StepError e => Some (of_error e)
  end.

(** A step of agents. When the answers end before the agents do, the run is
    still waiting: it is left without another call. *)
Definition wait_for_agents {X} (index : Z) (step : Definition_) : M X (option (option failure)) :=
  cancelled ← cancelled_in RunContext;
  rounds ← ask agent_rounds;
  outcome ← transact (λ s,
    runRemoteStep map_order scrubber_of_run (lm_PendingBytes limits) deploymentID index (sd_Name step)
      (attempt_timeout limits step) Limits step cancelled rounds s);
  mret (remote_error step <$> outcome).

(** A failed staging of an agent's step is logged as the end of the step. *)
Definition log_staging_failure {X} (log : LogTarget) (step : Definition_) (e : failure) : M X unit :=
  say log ("step " +:+ quote (sd_Name step) +:+ ": " +:+ f_text e +:+ newline_text);;
  flush log;;
  cancelled ← cancelled_in RunContext;
  finish_log deploymentID log (Some e) cancelled.

(** The end of a step of agents that has failed. *)
Definition remote_failed {A} (log : LogTarget) (step : Definition_) (e : failure) (stagingFailed : bool) : M unit A :=
  when stagingFailed (log_staging_failure log step e);;
  if errors_Is e IsContainerCleanup then unconfirmed_run
  else
    cancelled ← (if stagingFailed then cancelled_in RunContext else mret false);
    if errors_Is e IsDeploymentCancelled || cancelled then cancel_run
    else fail_step (Scrubber_Scrub scrubber_of_run (failed_on (f_text e))) false.

(** [case "agent"] *)
Definition agent_step (index : Z) (step : Definition_) (carried : Carried) : M unit Carried :=
  let log := log_of index step in
  stageErr ← error_of (prepareRemoteStaging deploymentID index (lv_handoff carried) (lv_transferred carried));
  held ← look_at rs_artifactWork;
  when held drop_work;;
  match stageErr with
  | Some e => remote_failed log step e true
  | None =>
      outcome ← wait_for_agents index step;
      match outcome with
      | None => record_act (ActWaiting index);; stop tt
      | Some result =>
          record_act (ActRemote index result);;
          match result with
          | Some e => remote_failed log step e false
          | None =>
              r ← call (mergeRemoteStaging limits deploymentID index);
              let next := match r with inr file => Some file | inl _ => None end in
              closeErr ← replaceTransfer next;
              match Join (match r with inl e => Some e | inr _ => None end) closeErr with
              | Some e => remote_failed log step e true
              | None =>
                  finish_log deploymentID log None false;;
                  mret (mkCarried (lv_handoff carried) next)
              end
          end
      end
  end.

(** The attempts of a local step: the error of the last one. [attempt] is the
    number of the next attempt and [n] of those that are left. *)
Fixpoint attempts (log : LogTarget) (request : Z → localStepAttempt) (index maxAttempts : Z) (n : nat) (attempt : Z)
    (last : option failure) : M unit (option failure) :=
  match n with
  | 0%nat => mret last
  | S n =>
      e ← error_of (runStepAttempt p limits pagesize localErr deploymentID log (request attempt));
      record_act (ActAttempt index attempt e);;
      match e with
      | None => mret None
      | Some e =>
          if errors_Is e IsContainerCleanup then mret (Some e)
          else
            cancelled ← cancelled_in RunContext;
            if cancelled : bool then cancel_run
            else
              r ← load_deployment deploymentID;
              when (match r with inr d => String.eqb (d_Status d) "cancelled" | inl _ => false end) (stop tt);;
              when (attempt <? maxAttempts)
                (say log ("step " +:+ quote (sd_Name (la_step (request attempt))) +:+ ": retrying (attempt "
                          +:+ pretty (attempt + 1) +:+ " of " +:+ pretty maxAttempts +:+ ")" +:+ newline_text);;
                 flush log);;
              attempts log request index maxAttempts n (attempt + 1) (Some e)
      end
  end.

(** The container namespace of the deployment is this server's. *)
Definition claim_namespace : M unit unit :=
  r ← call (recordContainerNamespace p deploymentID);
  match r with
  | inl e => fail_step (failed_before_container (f_text e)) true
  | inr recorded =>
      if Z.eqb recorded 1 then mret tt
      else
        r ← load_deployment deploymentID;
        match r with
        | inr d =>
            if not_null (d_ContainerNamespace d) then unconfirmed_run
            else if String.eqb (d_Status d) "cancelled" then stop tt
            else fail_step (failed_before_container "container namespace was not recorded") true
        | inl _ => fail_step (failed_before_container "container namespace was not recorded") true
        end
  end.

(** [failStaging] of log_writer.go: the error of writing the line. *)
Definition failStaging {X} (log : LogTarget) (e : failure) : M X (option failure) :=
  cancelled ← cancelled_in RunContext;
  logErr ← say log ("step " +:+ quote (lt_stepName log) +:+ ": staging failed before execution: " +:+ f_text e
                    +:+ newline_text);
  flush log;;
  finish_log deploymentID log (Some e) cancelled;;
  mret logErr.

(** The volume that the steps hand over, created for the first local step. *)
Definition ensure_handoff (log : LogTarget) (environment : gmap string string) (handoff : artifactStage)
    : M unit artifactStage :=
  if present handoff then mret handoff
  else
    r ← stageDeployment p limits pagesize localErr deploymentID environment;
    match r with
    | (stage, None) => mret stage
    | (_, Some e) =>
        writeErr ← failStaging log e;
        fail_step (Scrubber_Scrub scrubber_of_run ("Deployment staging failed: "
          +:+ f_text (match writeErr with Some w => join e w | None => e end))) true
    end.

(** The files of the agents before this step are imported once. *)
Definition import_transfer (log : LogTarget) (handoff : artifactStage) (transferred : option string) : M unit unit :=
  match transferred with
  | None => mret tt
  | Some file =>
      r ← call (importRemoteStaging handoff file);
      match r with
      | inl e => failStaging log e;; fail_run
      | inr _ =>
          e ← replaceTransfer None;
          match e with Some _ => fail_run | None => mret tt end
      end
  end.

(** The pause at the gate of a step, under the runner's lock. *)
Definition pause (index : Z) : M failure unit :=
  cancelled ← cancelled_in RunContext;
  if cancelled : bool then stop context_Canceled
  else
    e ← error_of (store (PauseArtifactGate deploymentID (index + 1)));
    record_act (ActPause (index + 1) e);;
    check e;;
    modify (rs_set_cancels false).

(** The run ends here in any case. *)
Definition gate_step {A} (log : LogTarget) (index : Z) (step : Definition_) (handoff : artifactStage) : M unit A :=
  e ← error_of (
    captureArtifactGate deploymentID index step handoff;;
    e ← cleanup; check e;;
    modify (rs_set_cleanupDone true);;
    pause index);
  match e with
  | Some e =>
      say log ("Artifact approval failed: " +:+ f_text e +:+ newline_text);;
      flush log;;
      cancelled ← cancelled_in RunContext;
      finish_log deploymentID log (Some e) cancelled;;
      fail_run
  | None =>
      publish ArtifactAwaitingApproval "Deployment artifact is ready for approval";;
      stop tt
  end.

(** [case "", "local"] *)
Definition local_step (index : Z) (step : Definition_) (environment : gmap string string)
    (stage approved : artifactStage) (carried : Carried) : M unit Carried :=
  let log := log_of index step in
  ensure_work;;
  claim_namespace;;
  handoff ← ensure_handoff log environment (lv_handoff carried);
  import_transfer log handoff (lv_transferred carried);;
  let maxAttempts := sd_MaxRetries step + 1 in
  let request attempt := mkAttempt deploymentID step environment attempt stage false handoff approved
                           (mkAnsibleAttempt no_stage []) in
  last ← attempts log request index maxAttempts (Z.to_nat maxAttempts) 1 None;
  match last with
  | Some e =>
      if errors_Is e IsContainerCleanup then unconfirmed_run else fail_step (failed_on (f_text e)) true
  | None =>
      when (negb (String.eqb (sd_ApprovalArtifactPath step) "")) (gate_step log index step handoff);;
      mret (mkCarried handoff None)
  end.

Definition unknown_target (target : string) : string :=
  "Deployment #" +:+ pretty deploymentID +:+ " failed: unknown execution target " +:+ quote target.

(** The body of the loop. *)
Definition run_step (index : Z) (step : Definition_) (environment : gmap string string)
    (stage approved : artifactStage) (carried : Carried) : M unit Carried :=
  if gated && (index <? first_step) then mret carried
  else
    step ← (if gated && negb (String.eqb (sd_ExecutionTarget step) "agent") then
              image ← or_fail (query (GetArtifactGateImage deploymentID index));
              mret (with_image image step)
            else mret step);
    cancelled ← cancelled_in RunContext;
    when cancelled cancel_run;;
    modify (rs_set_writer (mkWriter "" false));;
    if String.eqb (sd_ExecutionTarget step) "agent" then agent_step index step carried
    else if sd_ExecutionTarget step ∈? [""; "local"] then local_step index step environment stage approved carried
    else fail_step (unknown_target (sd_ExecutionTarget step)) true.

Fixpoint run_steps_from (index : Z) (steps : list Definition_) (environment : gmap string string)
    (stage approved : artifactStage) (carried : Carried) : M unit Carried :=
  match steps with
  | [] => mret carried
  | step :: steps =>
      carried ← run_step index step environment stage approved carried;
      run_steps_from (index + 1) steps environment stage approved carried
  end.

(** ** After the steps *)

Definition finish_run (environment : gmap string string) (stage : artifactStage) : M unit unit :=
  cancelled ← cancelled_in RunContext;
  when cancelled cancel_run;;
  e ← error_of (verifyDeployment p limits pagesize localErr deploymentID environment (ri_secrets input) stage);
  record_act (ActVerify e);;
  match e with
  | None => mret tt
  | Some e =>
      when (errors_Is e IsContainerCleanup) unconfirmed_run;;
      cancelled ← cancelled_in RunContext;
      when (errors_Is e IsDeploymentCancelled || (errors_Is e IsCanceled && cancelled)) cancel_run;;
      cancelled ← cancelled_in RunContext;
      fail_step (failed_on "verification failed") (negb cancelled)
  end;;
  final ← persistCompletion p deploymentID RunContext "succeeded" true;
  when (bool_decide (final = Some "succeeded"))
    (publish DeploymentSucceeded ("Deployment #" +:+ pretty deploymentID +:+ " succeeded on "
                                  +:+ ri_environmentName input)).

(** The approved context, when the run resumes after a gate. *)
Definition restore_approved : M unit artifactStage :=
  if gated && (0 <? first_step) then
    ensure_work;;
    r ← call (restoreArtifactGate p limits pagesize localErr deploymentID (first_step - 1));
    record_act (ActRestore (first_step - 1) (match r with inl e => Some e | inr _ => None end));;
    match r with inl _ => fail_run | inr stage => mret stage end
  else mret no_stage.

(** The second deferred function. *)
Definition deferred_cleanup : M Empty_set unit :=
  done_ ← look_at rs_cleanupDone;
  if done_ : bool then mret tt
  else
    e ← cleanup;
    when (not_null e) (persistCompletion p deploymentID RunContext "cleanup_unconfirmed" false;; mret tt).

Definition run_staged (environment : gmap string string) (stage : artifactStage) : M unit unit :=
  approved ← restore_approved;
  run_steps_from 0 (ri_steps input) environment stage approved (mkCarried no_stage None);;
  finish_run environment stage.

(** From the first deferred function to the second. *)
Definition run_work : M unit unit :=
  when gated (or_fail (pinArtifactGateImages p deploymentID (ri_steps input)));;
  r ← stageArtifact p limits pagesize localErr deploymentID;
  let '(stage, e) := r in
  match e with
  | Some e =>
      let message := "Artifact staging failed: " +:+ f_text e in
      print_log limits deploymentID (mkTarget "" None scrubber_of_run) (message +:+ newline_text);;
      fail_step (Scrubber_Scrub scrubber_of_run message) true
  | None => mret tt
  end;;
  environment ←
    (if present stage then
       if not_null (ri_environment input !! "ARTIFACT_PATH")
       then fail_step "ARTIFACT_PATH conflicts with a snapshotted variable" true
       else mret (<["ARTIFACT_PATH" := artifactMount]> (ri_environment input))
     else drop_work;; mret (ri_environment input));
  modify (rs_set_cleanupDone false);;
  defer (run_staged environment stage) deferred_cleanup.
End steps.

Definition Run (releaseID environmentID : Z) : M unit unit :=
  gateRun ← begin_run;
  input ← load_input gateRun releaseID environmentID;
  began ← beginLocalWork;
  when (negb began) cancel_run;;
  modify (rs_set_artifactWork true);;
  defer (run_work input) release_work.

(** ** Starting and cancelling (deployment_queue.go, runner_control.go) *)

(** One tick of [ServeQueue]: the deployments for which a run is started. *)
Definition serve_queue {X} : M X (list Deployment) :=
  r ← call (store ReconcileDeploymentQueues);
  match r with
  | inl _ => mret []
  | inr _ =>
      r ← call (query ListPendingDeployments);
      mret (match r with
            | inl _ => []
            | inr pending => filter (λ d, is_null (d_AssignedAgentID d) = true) pending
            end)
  end.

(** [true]: the run's context is cancelled. *)
Definition Cancel {X} : M X (bool * option failure) :=
  running ← look_at rs_cancels;
  if running : bool then mret (true, None)
  else
    e ← error_of (store (RejectArtifact deploymentID "cancelled"));
    let not_running := errors_New ("deployment " +:+ pretty deploymentID +:+ " is not running") in
    mret (false,
      match e with
      | None => None
      | Some e => if errors_Is e IsArtifactGate || errors_Is e IsNoRows then Some not_running else Some e
      end).

Definition CancelPrestart {X} : M X (string * (bool * option failure)) :=
  r ← call (store (λ s, match CancelQueuedDeployment deploymentID s with
                        | (Err ErrDeploymentQueueConflict, s) => (Ok true, s)
                        | (Err e, s) => (Err e, s)
                        | (Ok _, s) => (Ok false, s)
                        end));
  match r with
  | inr true => c ← Cancel; mret ("cancellation_requested", c)
  | inr false => mret ("cancelled", (false, None))
  | inl e => mret ("cancelled", (false, Some e))
  end.
End run.
