(* ===== verification/RunCalculus.v ===== *)
(** * RunCalculus: reasoning about computations of the local runner

    Two calculi for [Runtime.M]. [effects R m]: whatever is answered and however
    the function is left, [R] relates the states before and after; a reflexive
    and transitive [R] composes along a body as [respects] does for
    transactions. [wpm m Q E]: a function that is left normally ends in [Q], one
    that is left early in [E]. *)
From S2P Require Import Prelude Text Db Tx QueueQueries DeploymentQueue DispatchQueries CreationQueries GateQueries ArtifactGate Secret Variables Resolution Ansible DeploymentCreation RemotePayload LogScrub LogWriter Container StepRunner Runs Runtime LocalStaging LocalStep LocalRun LocalRunner.

(** ** Relations *)

Definition effects {X A} (R : RunState → RunState → Prop) (m : M X A) : Prop := ∀ st, R st (m st).2.

Create HintDb effects discriminated.

(** What a relation must allow: everything but the fields that relations are
    about. *)
Definition unrelated (st st' : RunState) : Prop :=
  rs_trace st' = rs_trace st ∧ rs_localWork st' = rs_localWork st ∧ rs_artifactWork st' = rs_artifactWork st.

Class RunRelation (R : RunState → RunState → Prop) := {
  run_refl :: Reflexive R;
  run_trans :: Transitive R;
  run_unrelated : ∀ st st', unrelated st st' → R st st' }.

(** Relations that allow calls of the container client. *)
Class CommandRelation (R : RunState → RunState → Prop) := {
  command_relation :: RunRelation R;
  run_command : ∀ st args entries stdin answer,
    R st (rs_set_trace (rs_trace st ++ [ActCommand args entries stdin answer]) st) }.

Section effects.
Context (R : RunState → RunState → Prop) `{!RunRelation R}.

Lemma effects_ret {X A} (a : A) : effects R (mret a : M X A).
Proof. intros st. reflexivity. Qed.
Lemma effects_stop {X A} (x : X) : effects R (stop x : M X A).
Proof. intros st. reflexivity. Qed.
Lemma effects_bind {X A B} (m : M X A) (k : A → M X B) :
  effects R m → (∀ a, effects R (k a)) → effects R (m ≫= k).
Proof.
  intros Hm Hk st. specialize (Hm st). unfold mbind, m_bind. destruct (m st) as [[x|a] st']; [done|].
  etrans; [exact Hm|apply Hk].
Qed.
Lemma effects_call {X Y A} (m : M Y A) : effects R m → effects R (call m : M X (Y + A)).
Proof. intros Hm st. specialize (Hm st). unfold call. by destruct (m st). Qed.
Lemma effects_plain {X A} (m : M Empty_set A) : effects R m → effects R (plain m : M X A).
Proof. intros Hm st. specialize (Hm st). unfold plain. by destruct (m st) as [[[]|a] st']. Qed.
Lemma effects_error_of {X} (m : M failure unit) : effects R m → effects R (error_of m : M X (option failure)).
Proof. intros Hm. apply effects_bind; [by apply effects_call|intros r; apply effects_ret]. Qed.
Lemma effects_defer {X A} (m : M X A) (d : M Empty_set unit) : effects R m → effects R d → effects R (defer m d).
Proof.
  intros Hm Hd st. specialize (Hm st). unfold defer. destruct (m st) as [r st']. cbn in *. etrans; [exact Hm|apply Hd].
Qed.
Lemma effects_look {X A} (f : RunState → A) : effects R (look_at f : M X A).
Proof. intros st. reflexivity. Qed.
Lemma effects_modify {X} (f : RunState → RunState) : (∀ st, unrelated st (f st)) → effects R (modify f : M X unit).
Proof. intros Hf st. by apply run_unrelated, Hf. Qed.
Lemma effects_ask {X A} (f : nat → A) : effects R (ask f : M X A).
Proof. intros st. by apply run_unrelated. Qed.
Lemma effects_when {X} (b : bool) (m : M X unit) : effects R m → effects R (when b m).
Proof. destruct b; [done|intros _; apply effects_ret]. Qed.
Lemma effects_check e : effects R (check e).
Proof. destruct e; [apply effects_stop|apply effects_ret]. Qed.
Lemma effects_check_result `{GoFormat} {A} (r : result A) : effects R (check_result r).
Proof. destruct r; [apply effects_ret|apply effects_stop]. Qed.
Lemma effects_wrapped {A} prefix (m : M failure A) : effects R m → effects R (wrapped prefix m).
Proof.
  intros Hm. apply effects_bind; [by apply effects_call|]. intros []; [apply effects_stop|apply effects_ret].
Qed.
Lemma effects_defer_join m d : effects R m → effects R d → effects R (defer_join m d).
Proof.
  intros Hm Hd. apply effects_bind; [by apply effects_error_of|]. intros e.
  apply effects_bind; [by apply effects_plain|]. intros e'.
  destruct (Join e e'); [apply effects_stop|apply effects_ret].
Qed.
Lemma effects_each {X A} (l : list A) (f : A → M X unit) : (∀ x, effects R (f x)) → effects R (each_m l f).
Proof. intros Hf. induction l as [|x l IH]; [apply effects_ret|]. apply effects_bind; auto. Qed.

Context `{Server} `{Outside}.

Lemma effects_store {A} (f : DB → result A * DB) : effects R (store f).
Proof. intros st. apply run_unrelated. unfold store. by destruct (match store_fault _ with Some _ => _ | None => _ end). Qed.
Lemma effects_transact {X A} (f : DB → A * DB) : effects R (transact f : M X A).
Proof. intros st. apply run_unrelated. unfold transact. by destruct (f _). Qed.
Lemma effects_query {A} (m : Tx A) : effects R (query m).
Proof. apply effects_store. Qed.
Lemma effects_log_store {X A} (f : DB → A * DB) : effects R (log_store f : M X _).
Proof. intros st. apply run_unrelated. unfold log_store. by destruct (f _). Qed.
End effects.

#[export] Hint Extern 1 (effects _ (mret _)) => apply effects_ret; typeclasses eauto : effects.
#[export] Hint Extern 1 (effects _ (stop _)) => apply effects_stop; typeclasses eauto : effects.
#[export] Hint Extern 1 (effects _ (look_at _)) => apply effects_look; typeclasses eauto : effects.
#[export] Hint Extern 1 (effects _ (ask _)) => apply effects_ask; typeclasses eauto : effects.
#[export] Hint Extern 1 (effects _ (check _)) => apply effects_check; typeclasses eauto : effects.
#[export] Hint Extern 1 (effects _ (check_result _)) => apply effects_check_result; typeclasses eauto : effects.
#[export] Hint Extern 1 (effects _ (store _)) => apply effects_store; typeclasses eauto : effects.
#[export] Hint Extern 1 (effects _ (query _)) => apply effects_query; typeclasses eauto : effects.
#[export] Hint Extern 1 (effects _ (transact _)) => apply effects_transact; typeclasses eauto : effects.
#[export] Hint Extern 1 (effects _ (log_store _)) => apply effects_log_store; typeclasses eauto : effects.
#[export] Hint Extern 2 (effects _ (modify _)) => (apply effects_modify; [typeclasses eauto|done]) : effects.

Lemma effects_command R `{!CommandRelation R} `{Server} `{Outside} {X} args entries stdin :
  effects R (command args entries stdin : M X _).
Proof.
  apply effects_bind; [typeclasses eauto|apply effects_ask; typeclasses eauto|]. intros answer.
  apply effects_bind; [typeclasses eauto| |intros; apply effects_ret; typeclasses eauto].
  intros st. apply run_command.
Qed.
#[export] Hint Extern 1 (effects _ (command _ _ _)) => apply effects_command; typeclasses eauto : effects.

(** Walk through a body, leaving the calls to the hint database. *)
Ltac effects_step :=
  match goal with
  | |- ∀ _, _ => intro
  | |- effects _ _ => solve [eauto with effects nocore]
  | |- effects _ (_ ≫= _) => apply effects_bind; [typeclasses eauto|..]
  | |- effects _ (call _) => apply effects_call; [typeclasses eauto..|]
  | |- effects _ (plain _) => apply effects_plain; [typeclasses eauto..|]
  | |- effects _ (error_of _) => apply effects_error_of; [typeclasses eauto..|]
  | |- effects _ (wrapped _ _) => apply effects_wrapped; [typeclasses eauto..|]
  | |- effects _ (defer _ _) => apply effects_defer; [typeclasses eauto|..]
  | |- effects _ (defer_join _ _) => apply effects_defer_join; [typeclasses eauto|..]
  | |- effects _ (each_m _ _) => apply effects_each; [typeclasses eauto..|]
  | |- effects _ (when _ _) => apply effects_when; [typeclasses eauto..|]
  | |- effects _ (match ?x with _ => _ end) => destruct x
  | |- effects _ ?m => unfold_head m; cbn beta iota
  end.
Ltac effects := repeat effects_step.

(** ** Functions that are never left early *)

Definition total {X A} (m : M X A) : Prop := ∀ st, ∃ a, (m st).1 = inr a.

Create HintDb total discriminated.

Section total.
Context {X : Type}.

Lemma total_ret {A} (a : A) : total (mret a : M X A).
Proof. by eexists. Qed.
Lemma total_bind {A B} (m : M X A) (k : A → M X B) : total m → (∀ a, total (k a)) → total (m ≫= k).
Proof.
  intros Hm Hk st. destruct (Hm st) as (a & Ha). unfold mbind, m_bind. destruct (m st) as [[x|b] st']; [done|]. apply Hk.
Qed.
Lemma total_call {Y A} (m : M Y A) : total (call m : M X (Y + A)).
Proof. intros st. unfold call. destruct (m st). by eexists. Qed.
Lemma total_error_of (m : M failure unit) : total (error_of m : M X (option failure)).
Proof. apply total_bind; [apply total_call|]. intros []; apply total_ret. Qed.
Lemma total_plain {A} (m : M Empty_set A) : total (plain m : M X A).
Proof. intros st. unfold plain. destruct (m st) as [[[]|a] st']. by eexists. Qed.
Lemma total_defer {A} (m : M X A) d : total m → total (defer m d).
Proof. intros Hm st. destruct (Hm st) as (a & Ha). unfold defer. destruct (m st). by exists a. Qed.
Lemma total_when (b : bool) (m : M X unit) : total m → total (when b m).
Proof. destruct b; [done|intros _; apply total_ret]. Qed.
Lemma total_look {A} (f : RunState → A) : total (look_at f : M X A).
Proof. by eexists. Qed.
Lemma total_modify f : total (modify f : M X unit).
Proof. by eexists. Qed.
Lemma total_ask {A} (f : nat → A) : total (ask f : M X A).
Proof. by eexists. Qed.

Context `{Server} `{Outside}.

Lemma total_log_store {A} (f : DB → A * DB) : total (log_store f : M X _).
Proof. intros st. unfold log_store. destruct (f _). by eexists. Qed.
Lemma total_transact {A} (f : DB → A * DB) : total (transact f : M X A).
Proof. intros st. unfold transact. destruct (f _). by eexists. Qed.
End total.

#[export] Hint Resolve total_ret total_call total_error_of total_plain total_look total_modify total_ask
  total_log_store total_transact : total.

Ltac total_step :=
  match goal with
  | |- ∀ _, _ => intro
  | |- total _ => solve [eauto with total nocore]
  | |- total (_ ≫= _) => apply total_bind
  | |- total (defer _ _) => apply total_defer
  | |- total (when _ _) => apply total_when
  | |- total (match ?x with _ => _ end) => destruct x
  | |- total ?m => unfold_head m; cbn beta iota
  end.
Ltac total := repeat total_step.

(** ** Weakest preconditions *)

Definition wpm {X A} (m : M X A) (Q : A → RunState → Prop) (E : X → RunState → Prop) (st : RunState) : Prop :=
  match m st with (inr a, st') => Q a st' | (inl x, st') => E x st' end.

Section wpm.
Implicit Types (st : RunState).

Lemma wpm_ret {X A} (a : A) Q (E : X → _) st : Q a st → wpm (mret a) Q E st.
Proof. done. Qed.
Lemma wpm_stop {X A} (x : X) (Q : A → _) (E : X → _) st : E x st → wpm (stop x) Q E st.
Proof. done. Qed.
Lemma wpm_bind {X A B} (m : M X A) (k : A → M X B) Q E st :
  wpm m (λ a, wpm (k a) Q E) E st → wpm (m ≫= k) Q E st.
Proof. unfold wpm, mbind, m_bind. by destruct (m st) as [[x|a] st']. Qed.
Lemma wpm_mono {X A} (m : M X A) (Q Q' : A → RunState → Prop) (E E' : X → RunState → Prop) st :
  wpm m Q E st → (∀ a st', Q a st' → Q' a st') → (∀ x st', E x st' → E' x st') → wpm m Q' E' st.
Proof. unfold wpm. destruct (m st) as [[x|a] st']; auto. Qed.
Lemma wpm_call {X Y A} (m : M Y A) Q (E : X → _) st :
  wpm m (λ a, Q (inr a)) (λ x, Q (inl x)) st → wpm (call m) Q E st.
Proof. unfold wpm, call. by destruct (m st) as [[x|a] st']. Qed.
Lemma wpm_error_of {X} (m : M failure unit) Q (E : X → _) st :
  wpm m (λ _, Q None) (λ e, Q (Some e)) st → wpm (error_of m) Q E st.
Proof. unfold wpm, error_of, call, mbind, m_bind. by destruct (m st) as [[x|a] st']. Qed.
Lemma wpm_plain {X A} (m : M Empty_set A) Q (E : X → _) st :
  wpm m Q (λ _ _, True) st → wpm (plain m) Q E st.
Proof. unfold wpm, plain. by destruct (m st) as [[[]|a] st']. Qed.
Lemma wpm_defer {X A} (m : M X A) (d : M Empty_set unit) Q E st :
  wpm m (λ a, wpm d (λ _, Q a) (λ _ _, True)) (λ x, wpm d (λ _, E x) (λ _ _, True)) st →
  wpm (defer m d) Q E st.
Proof.
  unfold wpm, defer. destruct (m st) as [[x|a] st']; by destruct (d st') as [[[]|[]] st''].
Qed.
Lemma wpm_when {X} (b : bool) (m : M X unit) Q E st :
  (b = true → wpm m Q E st) → (b = false → Q tt st) → wpm (when b m) Q E st.
Proof. destruct b; cbn; auto. Qed.

Lemma wpm_modify {X} f Q (E : X → _) st : Q tt (f st) → wpm (modify f) Q E st.
Proof. done. Qed.
Lemma wpm_look {X A} (f : RunState → A) Q (E : X → _) st : Q (f st) st → wpm (look_at f) Q E st.
Proof. done. Qed.

(** From what a function does to what it ensures. *)
Lemma wpm_effects {X A} (R : RunState → RunState → Prop) (m : M X A) st :
  effects R m → wpm m (λ _, R st) (λ _, R st) st.
Proof. intros Hm. specialize (Hm st). unfold wpm. by destruct (m st) as [[x|a] st']. Qed.

Lemma wpm_total {X A} (R : RunState → RunState → Prop) (m : M X A) Q (E : X → _) st :
  effects R m → total m → (∀ a st', R st st' → Q a st') → wpm m Q E st.
Proof.
  intros Hm Ht HQ. specialize (Hm st). destruct (Ht st) as (a & Ha). unfold wpm. destruct (m st) as [[x|b] st']; [done|auto].
Qed.

Lemma wpm_effects_then {X A} (R : RunState → RunState → Prop) (m : M X A) Q E st :
  effects R m → (∀ a st', R st st' → Q a st') → (∀ x st', R st st' → E x st') → wpm m Q E st.
Proof. intros Hm HQ HE. eapply wpm_mono; [by apply wpm_effects|auto..]. Qed.
End wpm.

(** ** Acts *)

(** Only acts that satisfy [P] are added. *)
Definition emits (P : Act → Prop) (st st' : RunState) : Prop :=
  ∃ acts, rs_trace st' = rs_trace st ++ acts ∧ Forall P acts.

#[export] Instance emits_relation P : RunRelation (emits P).
Proof.
  split.
  - intros st. exists []. by rewrite app_nil_r.
  - intros st1 st2 st3 (a & Ha & Pa) (b & Hb & Pb). exists (a ++ b).
    by rewrite Hb, Ha, (assoc_L (++)), Forall_app.
  - intros st st' (Ht & _). exists []. by rewrite app_nil_r.
Qed.

Lemma emits_mono (P P' : Act → Prop) st st' : (∀ a, P a → P' a) → emits P st st' → emits P' st st'.
Proof. intros HP (acts & Ht & Ha). exists acts. split; [done|]. eapply Forall_impl; eauto. Qed.

Lemma effects_emits_mono {X A} (P P' : Act → Prop) (m : M X A) :
  (∀ a, P a → P' a) → effects (emits P) m → effects (emits P') m.
Proof. intros HP Hm st. by eapply emits_mono. Qed.

Lemma effects_record {X} (P : Act → Prop) a : P a → effects (emits P) (record_act a : M X unit).
Proof. intros Ha st. exists [a]. split; [done|by apply Forall_singleton]. Qed.

Definition is_command (a : Act) : Prop := match a with ActCommand _ _ _ _ => True | _ => False end.

#[export] Instance commands_relation : CommandRelation (emits is_command).
Proof. split; [typeclasses eauto|]. intros. eexists. split; [done|by apply Forall_singleton]. Qed.

(** ** The counter of local work *)

Definition held_work (st : RunState) : Z := rs_localWork st - (if rs_artifactWork st then 1 else 0).

Definition balanced (st st' : RunState) : Prop := held_work st' = held_work st ∧ rs_artifactWork st' = rs_artifactWork st.

#[export] Instance balanced_relation : CommandRelation balanced.
Proof.
  split; [split|].
  - done.
  - intros st1 st2 st3 [] []. split; congruence.
  - intros st st' (_ & Hl & Ha). unfold balanced, held_work. by rewrite Hl, Ha.
  - done.
Qed.

Lemma effects_record_balanced {X} a : effects balanced (record_act a : M X unit).
Proof. done. Qed.
#[export] Hint Resolve effects_record_balanced : effects.

(** * What the functions of the local runner may do

    Whatever is answered, the functions below completion only call the
    container client, and give back the local work that they have begun. The
    server stops when [r.localWork] is zero: [Run] begins local work, hands it
    back while agents execute a step, takes it again for a step of its own, and
    its variable [artifactWork] says whether it holds it; [held] relates states
    whose counters differ by nothing else. *)

(** Relations that also allow local work that is begun and ended. *)
Class WorkRelation (R : RunState → RunState → Prop) := {
  work_relation :: CommandRelation R;
  run_bracket : ∀ st st', R (rs_set_localWork (rs_localWork st + 1) st) st' →
    R st (rs_set_localWork (rs_localWork st' - 1) st') }.

#[export] Instance commands_work : WorkRelation (emits is_command).
Proof. split; [typeclasses eauto|]. intros st st' (acts & Ht & Ha). by exists acts. Qed.

#[export] Instance balanced_work : WorkRelation balanced.
Proof.
  split; [typeclasses eauto|]. intros st st' [Hh Ha]. unfold balanced, held_work in *. cbn in *.
  split; [lia|done].
Qed.

Section effects.
Context (R : RunState → RunState → Prop) `{!WorkRelation R} `{Server} `{Outside} `{RunnerLibraries}.
Context (p : containerEndpoint) (limits : Limits_) (pagesize : Z) (localErr : option failure) (deploymentID : Z).

Lemma effects_bracket {A} (m : M failure A) e :
  effects R m → effects R (began ← beginLocalWork; if negb began then stop e else defer m localWork_Done).
Proof.
  intros Hm st. unfold beginLocalWork, ask, mbind, m_bind. destruct (stopping (rs_clock st)).
  - by apply run_unrelated.
  - cbn [negb]. unfold defer, localWork_Done, modify. cbn.
    specialize (Hm (rs_set_localWork (rs_localWork (rs_set_clock (S (rs_clock st)) st) + 1)
                      (rs_set_clock (S (rs_clock st)) st))).
    etrans; [by apply (run_unrelated st (rs_set_clock (S (rs_clock st)) st))|].
    destruct (m _) as [r st']. cbn in *. by apply run_bracket.
Qed.

Lemma effects_write_output {X} log chunks : effects R (write_output limits deploymentID log chunks : M X unit).
Proof. induction chunks; cbn [write_output]; effects. Qed.

Lemma effects_cleanup_stages {X} stages e : effects R (cleanup_stages p deploymentID stages e : M X _).
Proof. revert e. induction stages; intros e; cbn [cleanup_stages]; effects. Qed.

Lemma effects_copy_output {X} log chunks : effects R (copy_output limits deploymentID log chunks : M X _).
Proof. induction chunks; cbn [copy_output]; effects. Qed.

Hint Resolve effects_write_output effects_cleanup_stages effects_copy_output : effects.

Lemma effects_with_spool {A} (m : M failure A) : effects R m → effects R (with_spool m).
Proof. intros Hm. unfold with_spool. effects. Qed.

Lemma effects_cleanup {X} : effects R (cleanupArtifact p deploymentID : M X _).
Proof. effects. Qed.
Hint Resolve effects_cleanup : effects.

Lemma effects_volume {X} c mount : effects R (createStagingVolume p limits pagesize deploymentID c mount : M X _).
Proof. effects. Qed.
Hint Resolve effects_volume : effects.

Lemma effects_stage_deployment {X} environment :
  effects R (stageDeployment p limits pagesize localErr deploymentID environment : M X _).
Proof. effects. Qed.
Hint Resolve effects_stage_deployment : effects.

Lemma effects_stage_artifact {X} : effects R (stageArtifact p limits pagesize localErr deploymentID : M X _).
Proof. effects. Qed.

Lemma effects_check_sizes index producers total : effects R (check_sizes limits deploymentID index producers total).
Proof. revert total. induction producers; intros total; cbn [check_sizes]; effects. Qed.
Hint Resolve effects_check_sizes : effects.

Lemma effects_prepare_remote index volume current : effects R (prepareRemoteStaging deploymentID index volume current).
Proof. unfold prepareRemoteStaging. destruct current; [effects|]. apply effects_with_spool. effects. Qed.

Lemma effects_merge_remote index : effects R (mergeRemoteStaging limits deploymentID index).
Proof. effects. Qed.

Lemma effects_import volume file : effects R (importRemoteStaging volume file).
Proof. effects. Qed.

Lemma effects_pin steps : effects R (pinArtifactGateImages p deploymentID steps).
Proof. effects. Qed.

Lemma effects_capture index step stage : effects R (captureArtifactGate deploymentID index step stage).
Proof.
  unfold captureArtifactGate. apply effects_bind; [typeclasses eauto|effects|]. intros _. apply effects_with_spool. effects.
Qed.

Lemma effects_restore index : effects R (restoreArtifactGate p limits pagesize localErr deploymentID index).
Proof.
  unfold restoreArtifactGate. do 4 (apply effects_bind; [typeclasses eauto|effects|intros ?]).
  apply effects_with_spool. effects.
Qed.

Lemma effects_attempt log request :
  effects R (runStepAttempt p limits pagesize localErr deploymentID log request).
Proof.
  unfold runStepAttempt. apply effects_bind; [typeclasses eauto|effects|]. intros _. apply effects_bracket. effects.
Qed.
Hint Resolve effects_attempt : effects.

Lemma effects_run_verification verification environment secrets stage :
  effects R (run_verification p limits pagesize localErr deploymentID verification environment secrets stage).
Proof. effects. Qed.
Hint Resolve effects_run_verification : effects.

Lemma effects_verify environment secrets stage :
  effects R (verifyDeployment p limits pagesize localErr deploymentID environment secrets stage).
Proof.
  unfold verifyDeployment. apply effects_bind; [typeclasses eauto|effects|]. intros [e|v]; [effects|].
  destruct (String.eqb (v_Type v) "http"); [apply effects_bracket|]; effects.
Qed.
End effects.

#[export] Hint Extern 1 (effects _ (write_output _ _ _ _)) => apply effects_write_output; typeclasses eauto : effects.
#[export] Hint Extern 1 (effects _ (cleanupArtifact _ _)) => apply effects_cleanup; typeclasses eauto : effects.
#[export] Hint Extern 1 (effects _ (stageDeployment _ _ _ _ _ _)) =>
  apply effects_stage_deployment; typeclasses eauto : effects.
#[export] Hint Extern 1 (effects _ (stageArtifact _ _ _ _ _)) => apply effects_stage_artifact; typeclasses eauto : effects.
#[export] Hint Extern 1 (effects _ (prepareRemoteStaging _ _ _ _)) => apply effects_prepare_remote; typeclasses eauto : effects.
#[export] Hint Extern 1 (effects _ (mergeRemoteStaging _ _ _)) => apply effects_merge_remote; typeclasses eauto : effects.
#[export] Hint Extern 1 (effects _ (importRemoteStaging _ _)) => apply effects_import; typeclasses eauto : effects.
#[export] Hint Extern 1 (effects _ (pinArtifactGateImages _ _ _)) => apply effects_pin; typeclasses eauto : effects.
#[export] Hint Extern 1 (effects _ (captureArtifactGate _ _ _ _)) => apply effects_capture; typeclasses eauto : effects.
#[export] Hint Extern 1 (effects _ (restoreArtifactGate _ _ _ _ _ _)) => apply effects_restore; typeclasses eauto : effects.
#[export] Hint Extern 1 (effects _ (runStepAttempt _ _ _ _ _ _ _)) => apply effects_attempt; typeclasses eauto : effects.
#[export] Hint Extern 1 (effects _ (verifyDeployment _ _ _ _ _ _ _ _)) => apply effects_verify; typeclasses eauto : effects.

(** Functions of every result type are never left early. *)
Section total.
Context `{Server} `{Outside} `{RunnerLibraries} {X : Type}.
Context (p : containerEndpoint) (limits : Limits_) (pagesize : Z) (localErr : option failure) (deploymentID : Z).

Lemma total_write_output log chunks : total (write_output limits deploymentID log chunks : M X unit).
Proof. induction chunks; cbn [write_output]; total. Qed.

Lemma total_cleanup_stages stages e : total (cleanup_stages p deploymentID stages e : M X _).
Proof. revert e. induction stages; intros e; cbn [cleanup_stages]; total. Qed.
Hint Resolve total_cleanup_stages : total.

Lemma total_cleanup : total (cleanupArtifact p deploymentID : M X _).
Proof. total. Qed.
Lemma total_stage_deployment environment :
  total (stageDeployment p limits pagesize localErr deploymentID environment : M X _).
Proof. total. Qed.
Lemma total_stage_artifact : total (stageArtifact p limits pagesize localErr deploymentID : M X _).
Proof. total. Qed.
End total.
#[export] Hint Resolve total_write_output total_cleanup total_stage_deployment total_stage_artifact : total.

(** ** The work that a run holds *)

(** Relations that allow every act. *)
Class RecordRelation (R : RunState → RunState → Prop) := {
  record_relation :: WorkRelation R;
  run_record : ∀ st a, R st (rs_set_trace (rs_trace st ++ [a]) st) }.

#[export] Instance balanced_record : RecordRelation balanced.
Proof. by split; [typeclasses eauto|]. Qed.

Definition held (st st' : RunState) : Prop := held_work st' = held_work st.

#[export] Instance held_record : RecordRelation held.
Proof.
  split; [split; [split; [split|]|]|]; unfold held.
  - done.
  - intros st1 st2 st3. congruence.
  - intros st st' (_ & Hl & Ha). unfold held_work. by rewrite Hl, Ha.
  - done.
  - intros st st' Hh. unfold held_work in *. cbn in *. lia.
  - done.
Qed.

Lemma effects_act R `{!RecordRelation R} {X} a : effects R (record_act a : M X unit).
Proof. intros st. apply run_record. Qed.

Section work.
Context (R : RunState → RunState → Prop) `{!RecordRelation R} `{Server} `{Outside} `{RunnerLibraries}.
Context (p : containerEndpoint) (limits : Limits_) (pagesize : Z) (localErr : option failure) (deploymentID : Z).

#[local] Hint Extern 1 (effects R (record_act _)) => apply effects_act; typeclasses eauto : effects.
#[local] Hint Extern 1 (effects R (publish _ _)) => apply effects_act; typeclasses eauto : effects.

(** ** The ways to end *)

Lemma effects_persist {X} c status wins : effects R (persistCompletion p deploymentID c status wins : M X _).
Proof. effects. Qed.
#[local] Hint Resolve effects_persist : effects.

Lemma effects_fail_unless {X} c : effects R (failUnlessCancelled p deploymentID c : M X _).
Proof. effects. Qed.
#[local] Hint Resolve effects_fail_unless : effects.

Lemma effects_fail_run {A} : effects R (fail_run p deploymentID : M unit A).
Proof. effects. Qed.
Lemma effects_cancel_run {A} : effects R (cancel_run p deploymentID : M unit A).
Proof. effects. Qed.
Lemma effects_unconfirmed_run {A} : effects R (unconfirmed_run p deploymentID : M unit A).
Proof. effects. Qed.
Lemma effects_fail_step {A} message wins : effects R (fail_step p deploymentID message wins : M unit A).
Proof. effects. Qed.
Lemma effects_or_fail {A} (m : M failure A) : effects R m → effects R (or_fail p deploymentID m).
Proof. intros Hm. unfold or_fail. effects. Qed.
#[local] Hint Resolve effects_fail_run effects_cancel_run effects_unconfirmed_run effects_fail_step : effects.

(** ** Before the steps *)

Lemma effects_begin_run : effects R (begin_run p deploymentID).
Proof. unfold begin_run. effects. Qed.

Lemma effects_load_input gateRun releaseID environmentID :
  effects R (load_input p limits deploymentID gateRun releaseID environmentID).
Proof. unfold load_input, or_fail. effects. Qed.

Lemma effects_remote_failed {A} input log step e staging :
  effects R (remote_failed p limits deploymentID input log step e staging : M unit A).
Proof. effects. Qed.
#[local] Hint Resolve effects_remote_failed : effects.

Lemma effects_attempts log request index maxAttempts n attempt last :
  effects R (attempts p limits pagesize localErr deploymentID log request index maxAttempts n attempt last).
Proof. revert attempt last. induction n; intros attempt last; cbn [attempts]; effects. Qed.

Lemma effects_gate_step {A} log index step handoff :
  effects R (gate_step p limits deploymentID log index step handoff : M unit A).
Proof. unfold gate_step, pause. effects. Qed.

Lemma effects_finish_run input environment stage :
  effects R (finish_run p limits pagesize localErr deploymentID input environment stage).
Proof. unfold finish_run. effects. Qed.

Lemma effects_deferred_cleanup : effects R (deferred_cleanup p deploymentID).
Proof. unfold deferred_cleanup. effects. Qed.

Lemma effects_claim_namespace : effects R (claim_namespace p deploymentID).
Proof. unfold claim_namespace. effects. Qed.

Lemma effects_ensure_handoff input log environment handoff :
  effects R (ensure_handoff p limits pagesize localErr deploymentID input log environment handoff).
Proof. unfold ensure_handoff, failStaging. effects. Qed.

Lemma effects_import_transfer log handoff transferred :
  effects R (import_transfer p limits deploymentID log handoff transferred).
Proof. unfold import_transfer, failStaging. effects. Qed.
End work.

#[export] Hint Extern 1 (effects _ (record_act _)) => apply effects_act; typeclasses eauto : effects.
#[export] Hint Extern 1 (effects _ (publish _ _)) => apply effects_act; typeclasses eauto : effects.
#[export] Hint Extern 1 (effects _ (fail_run _ _)) => apply effects_fail_run; typeclasses eauto : effects.
#[export] Hint Extern 1 (effects _ (cancel_run _ _)) => apply effects_cancel_run; typeclasses eauto : effects.
#[export] Hint Extern 1 (effects _ (unconfirmed_run _ _)) => apply effects_unconfirmed_run; typeclasses eauto : effects.
#[export] Hint Extern 1 (effects _ (fail_step _ _ _ _)) => apply effects_fail_step; typeclasses eauto : effects.
#[export] Hint Extern 2 (effects _ (or_fail _ _ _)) => (apply effects_or_fail; [typeclasses eauto|solve [effects]]) : effects.
#[export] Hint Extern 1 (effects _ (remote_failed _ _ _ _ _ _ _ _)) => apply effects_remote_failed; typeclasses eauto : effects.
#[export] Hint Extern 1 (effects _ (attempts _ _ _ _ _ _ _ _ _ _ _ _)) => apply effects_attempts; typeclasses eauto : effects.
#[export] Hint Extern 1 (effects _ (gate_step _ _ _ _ _ _ _)) => apply effects_gate_step; typeclasses eauto : effects.
#[export] Hint Extern 1 (effects _ (finish_run _ _ _ _ _ _ _ _)) => apply effects_finish_run; typeclasses eauto : effects.
#[export] Hint Extern 1 (effects _ (deferred_cleanup _ _)) => apply effects_deferred_cleanup; typeclasses eauto : effects.
#[export] Hint Extern 1 (effects _ (claim_namespace _ _)) => apply effects_claim_namespace; typeclasses eauto : effects.
#[export] Hint Extern 1 (effects _ (ensure_handoff _ _ _ _ _ _ _ _ _)) => apply effects_ensure_handoff; typeclasses eauto : effects.
#[export] Hint Extern 1 (effects _ (import_transfer _ _ _ _ _ _)) => apply effects_import_transfer; typeclasses eauto : effects.

(** ** The steps hold what they say they hold *)
Section held.
Context `{Server} `{Outside} `{RunnerLibraries}.
Context (p : containerEndpoint) (limits : Limits_) (pagesize : Z) (localErr : option failure) (deploymentID : Z).
Context (input : RunInput).

Lemma held_refl st : held st st.
Proof. done. Qed.

(** Taking the work up sets the variable with the counter. *)
Lemma held_ensure_work : effects held (ensure_work p deploymentID).
Proof.
  intros st. unfold ensure_work, mbind, m_bind, look_at. destruct (rs_artifactWork st) eqn:Ha; [by apply held_refl|].
  unfold beginLocalWork, mbind, m_bind, ask. destruct (stopping (rs_clock st)).
  - cbn. pose proof (effects_cancel_run held p deploymentID (A := unit) (rs_set_clock (S (rs_clock st)) st)) as Hc.
    unfold held, held_work in *. cbn in Hc. exact Hc.
  - unfold held, held_work. cbn. rewrite Ha. lia.
Qed.

(** Handing it back is only done while it is held. *)
Lemma held_drop_work {X} : effects held (work ← look_at rs_artifactWork; when work drop_work : M X unit).
Proof.
  intros st. unfold mbind, m_bind, look_at. destruct (rs_artifactWork st) eqn:Ha; [|done].
  unfold when, drop_work, localWork_Done, modify, mbind, m_bind, held, held_work. cbn. rewrite Ha. lia.
Qed.

Lemma held_agent_step index step carried :
  effects held (agent_step p limits deploymentID input index step carried).
Proof.
  unfold agent_step. apply effects_bind; [typeclasses eauto|effects|]. intros stageErr.
  assert (Hb : ∀ k, effects held k → effects held (work ← look_at rs_artifactWork; when work drop_work;; k : M unit Carried)).
  { intros k Hk st. pose proof (held_drop_work (X := unit) st) as Hd. unfold mbind, m_bind, look_at in *.
    destruct (when _ _ st) as [[x|u] st1]; [done|]. cbn in *. etrans; [exact Hd|apply Hk]. }
  apply Hb. unfold wait_for_agents. effects.
Qed.

Lemma held_local_step index step environment stage approved carried :
  effects held (local_step p limits pagesize localErr deploymentID input index step environment stage approved carried).
Proof. unfold local_step. apply effects_bind; [typeclasses eauto|apply held_ensure_work|]. intros _. effects. Qed.

#[local] Hint Resolve held_agent_step held_local_step : effects.

Lemma held_run_steps index steps environment stage approved carried :
  effects held (run_steps_from p limits pagesize localErr deploymentID input index steps environment stage approved carried).
Proof.
  revert index carried. induction steps as [|step steps IH]; intros index carried; cbn [run_steps_from]; [effects|].
  apply effects_bind; [typeclasses eauto| |intros; apply IH]. unfold run_step. effects.
Qed.

Lemma held_restore_approved : effects held (restore_approved p limits pagesize localErr deploymentID input).
Proof.
  unfold restore_approved. destruct (_ && _); [|effects].
  apply effects_bind; [typeclasses eauto|apply held_ensure_work|]. intros _. effects.
Qed.

#[local] Hint Resolve held_run_steps held_restore_approved : effects.

Lemma held_run_staged environment stage :
  effects held (run_staged p limits pagesize localErr deploymentID input environment stage).
Proof. unfold run_staged. effects. Qed.
#[local] Hint Resolve held_run_staged : effects.

(** Whatever comes after a computation that leaves the work alone. *)
Lemma held_after {A B} (m : M unit A) (k : A → M unit B) :
  effects balanced m → (∀ a st, rs_artifactWork st = true → held st (k a st).2) →
  ∀ st, rs_artifactWork st = true → held st ((m ≫= k) st).2.
Proof.
  intros Hm Hk st Ha. specialize (Hm st). unfold mbind, m_bind.
  destruct (m st) as [[x|r] st1]; destruct Hm as [Hh Haw]; [done|]. etrans; [exact Hh|]. apply Hk. cbn in Haw. congruence.
Qed.

(** The work that [Run] has begun is held until there is known to be no package. *)
Lemma held_run_work st :
  rs_artifactWork st = true → held st (run_work p limits pagesize localErr deploymentID input st).2.
Proof.
  revert st. unfold run_work. apply held_after; [destruct (gated input); effects|]. intros _.
  apply held_after; [effects|]. intros [stage e]. apply held_after; [destruct e; effects|]. intros _ st Ha.
  assert (Hrest : ∀ environment, effects held
    (modify (rs_set_cleanupDone false);;
     defer (run_staged p limits pagesize localErr deploymentID input environment stage) (deferred_cleanup p deploymentID)))
    by (intros; effects).
  destruct (present stage).
  - revert st Ha. apply held_after; [effects|]. intros environment st _. apply Hrest.
  - unfold mbind at 1, m_bind at 1. cbn. etrans; [|apply Hrest]. unfold held, held_work. cbn. rewrite Ha. lia.
Qed.
End held.
