(* ===== verification/RunPlan.v ===== *)
(** * RunPlan: the abstract specification of a local run

    A run as a state machine over what it does ([Runtime.Act]): it starts, reads
    its steps, executes them in order with bounded attempts, pauses at a gate or
    verifies the deployment, and stores how it ended. [next_phase] refuses every
    act that is out of order, so a trace that [follow] accepts has the properties
    proved at the end of the file; [LocalRunTheorems] shows that it accepts
    every trace of the runner. *)
From S2P Require Import Prelude Text Db Tx QueueQueries Ansible DeploymentCreation LogScrub LogWriter Container StepRunner Runs Runtime.

(** How a run ends: with a status stored after the verification, or before it;
    with none (it is stored later by a
    goroutine, or by the recovery at the next start); the deployment was found
    cancelled, or could not be read; it waits for an approval, or for agents. *)
Inductive ending :=
  | Completed (status : string)
  | Stored (status : string)
  | Unstored
  | FoundCancelled
  | GivenUp
  | Paused
  | Waiting.

(** [Executing plan i k ready]: attempt [k] of step [i] is next; [ready]: what was
    approved has been restored, or nothing had to be. *)
Inductive run_phase :=
  | NotStarted
  | Started (next : Z)
  | Executing (plan : list Definition_) (index attempt : Z) (ready : bool)
  | AtGate (plan : list Definition_) (index : Z)
  | Halted
  | Verified
  | Ended (e : ending).

Definition end_with (e : ending) (ph : run_phase) : run_phase :=
  match ph with NotStarted => NotStarted | _ => Ended e end.

Definition ending_of (ph : run_phase) (outcome : failure + string) : ending :=
  match outcome, ph with
  | inl _, _ => Unstored
  | inr final, Verified => Completed final
  | inr final, _ => Stored final
  end.

Definition at_index (plan : list Definition_) (i : Z) : option Definition_ :=
  if i <? 0 then None else plan !! Z.to_nat i.

Definition on_server (step : Definition_) : bool := sd_ExecutionTarget step ∈? [""; "local"].
Definition on_agents (step : Definition_) : bool := String.eqb (sd_ExecutionTarget step) "agent".
Definition has_gate (step : Definition_) : bool := negb (String.eqb (sd_ApprovalArtifactPath step) "").

Section plan.
Context `{CreationLibraries}.

Definition advance_attempt (plan : list Definition_) (i k : Z) (result : option failure) : option run_phase :=
  match at_index plan i with
  | None => None
  | Some step =>
      if on_server step && (k <=? sd_MaxRetries step + 1) then
        Some match result with
             | None => if has_gate step then AtGate plan i else Executing plan (i + 1) 1 true
             | Some e =>
                 if errors_Is e IsContainerCleanup || (sd_MaxRetries step + 1 <=? k) then Halted
                 else Executing plan i (k + 1) true
             end
      else None
  end.

Definition next_phase (ph : run_phase) (a : Act) : option run_phase :=
  match a with
  | ActCommand _ _ _ _ => match ph with NotStarted => None | _ => Some ph end
  | ActStart next => match ph with NotStarted => Some (Started next) | _ => None end
  | ActSource source =>
      match ph with
      | Started next =>
          Some match steps_unmarshal source with
               | Some plan => Executing plan (Z.max 0 next) 1 (next <=? 0)
               | None => Halted
               end
      | _ => None
      end
  | ActRestore i result =>
      match ph with
      | Executing plan index 1 false =>
          if Z.eqb index (i + 1)
          then Some match result with None => Executing plan index 1 true | Some _ => Halted end
          else None
      | _ => None
      end
  | ActAttempt i k result =>
      match ph with
      | Executing plan index attempt true =>
          if Z.eqb index i && Z.eqb attempt k then advance_attempt plan i k result else None
      | _ => None
      end
  | ActRemote i result =>
      match ph with
      | Executing plan index 1 true =>
          match at_index plan i with
          | Some step =>
              if Z.eqb index i && on_agents step
              then Some match result with None => Executing plan (i + 1) 1 true | Some _ => Halted end
              else None
          | None => None
          end
      | _ => None
      end
  | ActWaiting i =>
      match ph with
      | Executing plan index 1 true => if Z.eqb index i then Some (Ended Waiting) else None
      | _ => None
      end
  | ActVerify result =>
      match ph with
      | Executing plan index 1 true =>
          if Z.of_nat (length plan) <=? index
          then Some match result with None => Verified | Some _ => Halted end
          else None
      | _ => None
      end
  | ActPause next result =>
      match ph with
      | AtGate plan index =>
          if Z.eqb next (index + 1)
          then Some match result with None => Ended Paused | Some _ => Halted end
          else None
      | _ => None
      end
  | ActComplete status outcome =>
      match ph with
      | Verified => Some (Ended (ending_of ph outcome))
      | _ => if String.eqb status "succeeded" then None else Some (end_with (ending_of ph outcome) ph)
      end
  | ActRetry _ => Some ph
  | ActLoad (inr d) => Some (if String.eqb (d_Status d) "cancelled" then end_with FoundCancelled ph else ph)
  | ActLoad (inl _) => Some ph
  | ActGiveUp => Some (end_with GivenUp ph)
  | ActPublish DeploymentStarted _ => match ph with Started 0 => Some ph | _ => None end
  | ActPublish DeploymentSucceeded _ =>
      match ph with Ended (Completed "succeeded") => Some ph | _ => None end
  | ActPublish DeploymentFailed _ =>
      match ph with Ended (Stored "failed") | NotStarted => Some ph | _ => None end
  | ActPublish ArtifactAwaitingApproval _ => match ph with Ended Paused => Some ph | _ => None end
  end.

Fixpoint follow (ph : run_phase) (acts : list Act) : option run_phase :=
  match acts with
  | [] => Some ph
  | a :: acts => match next_phase ph a with Some ph => follow ph acts | None => None end
  end.

Lemma follow_app ph a b : follow ph (a ++ b) = follow ph a ≫= λ ph, follow ph b.
Proof. revert ph. induction a as [|x a IH]; intros ph; [done|]. cbn. by destruct (next_phase ph x). Qed.

(** ** What an accepted trace has *)

(** The first phase that is reached from [ph] along [acts] with [a] next. *)
Lemma follow_elem ph acts a ph' :
  follow ph acts = Some ph' → a ∈ acts →
  ∃ before after mid next, acts = before ++ a :: after ∧ follow ph before = Some mid ∧
    next_phase mid a = Some next ∧ follow next after = Some ph'.
Proof.
  intros Hf (before & after & ->)%list_elem_of_split. rewrite follow_app in Hf.
  destruct (follow ph before) as [mid|] eqn:Hm; [|done]. cbn in Hf.
  destruct (next_phase mid a) as [next|] eqn:Ha; [|done]. eauto 10.
Qed.

(** Step [i] has been executed successfully. *)
Definition executed (plan : list Definition_) (acts : list Act) (i : Z) : Prop :=
  ∃ step, at_index plan i = Some step ∧
    (on_server step = true ∧ has_gate step = false ∧ (∃ k, 1 <= k <= sd_MaxRetries step + 1 ∧ ActAttempt i k None ∈ acts) ∨
     on_agents step = true ∧ ActRemote i None ∈ acts).

(** The attempts of a step. *)
Definition is_attempt (i : Z) (a : Act) : bool := match a with ActAttempt j _ _ => Z.eqb j i | _ => false end.
Definition tries (i : Z) (acts : list Act) : Z := Z.of_nat (length (filter (λ a, is_attempt i a = true) acts)).

Definition allowed_tries (plan : list Definition_) (i : Z) : Z :=
  Z.max 0 (from_option (λ step, sd_MaxRetries step + 1) 0 (at_index plan i)).

Definition begun (acts : list Act) (next : Z) (plan : list Definition_) : Prop :=
  (ActStart next ∈ acts ∧ ∃ source, ActSource source ∈ acts) ∧
  (∀ n, ActStart n ∈ acts → n = next) ∧ ∀ source, ActSource source ∈ acts → steps_unmarshal source = Some plan.

Definition done_until (acts : list Act) (next : Z) (plan : list Definition_) (i : Z) : Prop :=
  ∀ j, Z.max 0 next <= j < i → executed plan acts j.

Definition within (acts : list Act) (plan : list Definition_) : Prop := ∀ j, tries j acts <= allowed_tries plan j.

Definition counted (acts : list Act) (plan : list Definition_) (i k : Z) : Prop :=
  (∀ j, j < i → tries j acts <= allowed_tries plan j) ∧ tries i acts <= k ∧ ∀ j, i < j → tries j acts = 0.

Definition restored (acts : list Act) (next : Z) : Prop := next <= 0 ∨ ActRestore (next - 1) None ∈ acts.

Definition complete_run (acts : list Act) (next : Z) (plan : list Definition_) : Prop :=
  begun acts next plan ∧ done_until acts next plan (Z.of_nat (length plan)) ∧ restored acts next ∧
  ActVerify None ∈ acts.

(** What is known of the past in every phase. *)
Definition past (acts : list Act) (ph : run_phase) : Prop :=
  match ph with
  | NotStarted => (∀ n, ActStart n ∉ acts) ∧ (∀ source, ActSource source ∉ acts) ∧ ∀ j, tries j acts = 0
  | Started next => ActStart next ∈ acts ∧ (∀ n, ActStart n ∈ acts → n = next) ∧ (∀ source, ActSource source ∉ acts) ∧ ∀ j, tries j acts = 0
  | Executing plan i k ready => ∃ next, begun acts next plan ∧ Z.max 0 next <= i ∧ 1 <= k ∧ k - 1 <= allowed_tries plan i ∧
      done_until acts next plan i ∧ counted acts plan i (k - 1) ∧ (ready = true → restored acts next) ∧
      (ready = false → i = Z.max 0 next ∧ 0 < next) ∧
      (1 < k → ∃ e, ActAttempt i (k - 1) (Some e) ∈ acts ∧ errors_Is e IsContainerCleanup = false)
  | AtGate _ _ | Halted => ∀ source plan, ActSource source ∈ acts → steps_unmarshal source = Some plan → within acts plan
  | Verified => ∃ next plan, complete_run acts next plan ∧ within acts plan
  | Ended e =>
      (∀ source plan, ActSource source ∈ acts → steps_unmarshal source = Some plan → within acts plan) ∧
      (∀ final, e = Completed final → ∃ next plan status, complete_run acts next plan ∧
         ActComplete status (inr final) ∈ acts)
  end.

(** *** The past grows *)

Lemma tries_app j a b : tries j (a ++ b) = tries j a + tries j b.
Proof. unfold tries. rewrite filter_app, length_app. lia. Qed.

Lemma tries_other j a : is_attempt j a = false → tries j [a] = 0.
Proof. intros Ha. unfold tries. rewrite filter_cons_False by by rewrite Ha. done. Qed.

Lemma tries_attempt j i k r : tries j [ActAttempt i k r] = if Z.eqb i j then 1 else 0.
Proof.
  unfold tries. destruct (Z.eqb i j) eqn:E.
  - by rewrite filter_cons_True by (cbn; by rewrite E).
  - by rewrite filter_cons_False by (cbn; by rewrite E).
Qed.

Lemma executed_app plan a b j : executed plan a j → executed plan (a ++ b) j.
Proof.
  intros (step & Hs & Hx). exists step. split; [done|].
  destruct Hx as [(? & ? & k & ? & ?)|[? ?]]; [left|right; split; [done|]];
    [do 2 (split; [done|]); exists k; split; [done|]|]; apply elem_of_app; by left.
Qed.

Lemma elem_of_snoc {A} (x a : A) l : x ∈ l ++ [a] ↔ x ∈ l ∨ x = a.
Proof. by rewrite elem_of_app, list_elem_of_singleton. Qed.

(** Acts that do not start, plan or attempt. *)
Definition passive (a : Act) : bool :=
  match a with ActStart _ | ActSource _ | ActAttempt _ _ _ => false | _ => true end.

Lemma passive_tries a j : passive a = true → tries j [a] = 0.
Proof. intros Ha. apply tries_other. by destruct a. Qed.

Lemma begun_snoc acts next plan a : passive a = true → begun acts next plan → begun (acts ++ [a]) next plan.
Proof.
  intros Ha ((? & source0 & ?) & Hs & Hp). split; [|split].
  - split; [|exists source0]; apply elem_of_app; by left.
  - intros n [?| <-]%elem_of_snoc; [eauto|done].
  - intros source [?| <-]%elem_of_snoc; [eauto|done].
Qed.

Lemma begun_attempt acts next plan i k r : begun acts next plan → begun (acts ++ [ActAttempt i k r]) next plan.
Proof.
  intros ((? & source & ?) & Hs & Hp). split; [|by split; intros ? [?|?]%elem_of_snoc; eauto].
  split; [|exists source]; apply elem_of_app; by left.
Qed.

Lemma within_snoc acts plan a : passive a = true → within acts plan → within (acts ++ [a]) plan.
Proof. intros Ha Hw j. rewrite tries_app, (passive_tries a j Ha). specialize (Hw j). lia. Qed.

Lemma counted_snoc acts plan i k a : passive a = true → counted acts plan i k → counted (acts ++ [a]) plan i k.
Proof.
  intros Ha (H1 & H2 & H3). split; [|split]; [intros j Hj|..|intros j Hj];
    rewrite tries_app, (passive_tries a _ Ha), Z.add_0_r; auto.
Qed.

Lemma counted_within acts plan i k : counted acts plan i k → k <= allowed_tries plan i → within acts plan.
Proof.
  intros (H1 & H2 & H3) Hk j. destruct (Z.lt_trichotomy j i) as [?|[->|?]]; [auto|lia|].
  rewrite H3 by done. unfold allowed_tries. lia.
Qed.

Lemma done_snoc acts next plan i a : done_until acts next plan i → done_until (acts ++ [a]) next plan i.
Proof. intros Hd j Hj. by apply executed_app, Hd. Qed.

Lemma restored_snoc acts next a : restored acts next → restored (acts ++ [a]) next.
Proof. intros [?|?]; [by left|right]. apply elem_of_app. by left. Qed.

Lemma complete_snoc acts next plan a : passive a = true → complete_run acts next plan → complete_run (acts ++ [a]) next plan.
Proof.
  intros Ha (Hb & Hd & Hr & Hv). split; [by apply begun_snoc|]. split; [by apply done_snoc|].
  split; [by apply restored_snoc|]. apply elem_of_app. by left.
Qed.

Lemma sources_snoc acts a :
  passive a = true →
  (∀ source plan, ActSource source ∈ acts → steps_unmarshal source = Some plan → within acts plan) →
  ∀ source plan, ActSource source ∈ acts ++ [a] → steps_unmarshal source = Some plan → within (acts ++ [a]) plan.
Proof.
  intros Ha Hw source plan [Hs| <-]%elem_of_snoc Hp; [|done]. by apply within_snoc, (Hw source).
Qed.

(** An act that does not change the phase. *)
Lemma past_snoc acts ph a : passive a = true → past acts ph → past (acts ++ [a]) ph.
Proof.
  intros Ha. destruct ph as [|next|plan i k ready|plan i| | |e]; cbn [past].
  - intros (Hs & Hp & Ht). split; [|split]; [intros n [?| <-]%elem_of_snoc; [by eapply Hs|done]
      |intros n [?| <-]%elem_of_snoc; [by eapply Hp|done]|intros j; by rewrite tries_app, (passive_tries a j Ha), Ht].
  - intros (Hx & Hs & Hp & Ht). split; [apply elem_of_app; by left|].
    split; [|split]; [intros n [?| <-]%elem_of_snoc; [by eapply Hs|done]
      |intros n [?| <-]%elem_of_snoc; [by eapply Hp|done]|intros j; by rewrite tries_app, (passive_tries a j Ha), Ht].
  - intros (next & Hb & Hi & Hk & Hka & Hd & Hc & Hr & Hn & Ht). exists next.
    split; [by apply begun_snoc|]. do 3 (split; [done|]). split; [by apply done_snoc|].
    split; [by apply counted_snoc|]. split; [intros; by apply restored_snoc, Hr|]. split; [done|].
    intros Hk1. destruct (Ht Hk1) as (e & He & ?). exists e. split; [|done]. apply elem_of_app. by left.
  - by apply sources_snoc.
  - by apply sources_snoc.
  - intros (next & plan & Hc & Hw). exists next, plan. split; [by apply complete_snoc|by apply within_snoc].
  - intros [Hw He]. split; [by apply sources_snoc|]. intros final ->. destruct (He _ eq_refl) as (next & plan & st & Hc & Hin).
    exists next, plan, st. split; [by apply complete_snoc|]. apply elem_of_app. by left.
Qed.

(** Whatever the phase, the attempts are within the bounds. *)
Lemma past_within acts ph source plan :
  past acts ph → ActSource source ∈ acts → steps_unmarshal source = Some plan → within acts plan.
Proof.
  intros Hp Hs Hu. destruct ph as [|next|plan' i k ready|plan' i| | |e]; cbn [past] in Hp.
  - destruct Hp as (_ & Hn & _). by destruct (Hn source).
  - destruct Hp as (_ & _ & Hn & _). by destruct (Hn source).
  - destruct Hp as (next & (_ & _ & Hb) & _ & _ & Hk & _ & Hc & _). specialize (Hb _ Hs). rewrite Hu in Hb. injection Hb as <-.
    by eapply counted_within.
  - eauto.
  - eauto.
  - destruct Hp as (next & plan' & ((_ & _ & Hb) & _) & Hw). specialize (Hb _ Hs). rewrite Hu in Hb. by injection Hb as <-.
  - destruct Hp as [Hw _]. eauto.
Qed.

Lemma past_ended acts ph a e :
  passive a = true → past acts ph → (∀ final, e ≠ Completed final) → past (acts ++ [a]) (end_with e ph).
Proof.
  intros Ha Hp He. apply (past_snoc _ _ a Ha) in Hp. destruct ph; cbn [end_with]; [done|..]; cbn [past];
    (split; [intros source plan' Hs Hu; by eapply past_within|by intros final ?%He]).
Qed.

Lemma past_halted acts ph a : passive a = true → past acts ph → past (acts ++ [a]) Halted.
Proof. intros Ha Hp. apply (past_snoc _ _ a Ha) in Hp. intros source plan Hs Hu. by eapply past_within. Qed.

Lemma past_start acts next : past acts NotStarted → past (acts ++ [ActStart next]) (Started next).
Proof.
  intros (Hs & Hp & Ht). split; [apply elem_of_snoc; by right|split; [|split]].
  - intros n [Hn|[= <-]]%elem_of_snoc; [by apply Hs in Hn|done].
  - intros n [Hn|?]%elem_of_snoc; [by apply Hp in Hn|done].
  - intros j. by rewrite tries_app, Ht.
Qed.

Lemma past_source acts next source :
  past acts (Started next) →
  past (acts ++ [ActSource source]) match steps_unmarshal source with
                                    | Some plan => Executing plan (Z.max 0 next) 1 (next <=? 0)
                                    | None => Halted
                                    end.
Proof.
  intros (Hx & Hs & Hp & Ht).
  assert (Hsrc : ∀ s, ActSource s ∈ acts ++ [ActSource source] → s = source).
  { intros s [?|[= <-]]%elem_of_snoc; [by destruct (Hp s)|done]. }
  assert (Hz : ∀ j, tries j (acts ++ [ActSource source]) = 0) by (intros j; by rewrite tries_app, Ht).
  destruct (steps_unmarshal source) as [plan|] eqn:Eu.
  - exists next. split; [|split; [lia|split; [lia|split; [unfold allowed_tries; lia|split; [|split; [|split; [|split]]]]]]].
    + split; [|split; [intros n [?|?]%elem_of_snoc; [by apply Hs|done]|by intros s ->%Hsrc]].
      split; [|exists source]; apply elem_of_snoc; [by left|by right].
    + intros j Hj. lia.
    + split; [|split]; intros; rewrite ?Hz; unfold allowed_tries; lia.
    + intros Hn%Z.leb_le. by left.
    + intros Hn%Z.leb_gt. split; [done|lia].
    + lia.
  - intros s plan ->%Hsrc. by rewrite Eu.
Qed.

Lemma past_restore acts plan index result :
  past acts (Executing plan index 1 false) →
  past (acts ++ [ActRestore (index - 1) result])
    match result with None => Executing plan index 1 true | Some _ => Halted end.
Proof.
  intros Hp. destruct result as [e|]; [by eapply past_halted|].
  apply (past_snoc _ _ (ActRestore (index - 1) None) eq_refl) in Hp.
  destruct Hp as (next & Hb & Hi & Hk & Hka & Hd & Hc & Hr & Hn & Ht). destruct (Hn eq_refl) as [-> Hpos].
  exists next. do 6 (split; [done|]). split; [|split; [done|done]]. intros _. right. apply elem_of_snoc. right.
  f_equal. lia.
Qed.

(** The step is done: the next one is to be executed. *)
Lemma past_next acts plan i k a step :
  past acts (Executing plan i k true) → at_index plan i = Some step →
  (∀ next, begun acts next plan → begun (acts ++ [a]) next plan) →
  counted (acts ++ [a]) plan i (allowed_tries plan i) → executed plan (acts ++ [a]) i →
  past (acts ++ [a]) (Executing plan (i + 1) 1 true).
Proof.
  intros (next & Hb & Hi & Hk & Hka & Hd & Hc & Hr & Hn & Ht) Hs Hb' (H1 & H2 & H3) Hx. exists next.
  split; [auto|]. split; [lia|]. split; [lia|]. split; [unfold allowed_tries; lia|]. split; [|split; [|split; [|split]]].
  - intros j Hj. destruct (Z.eq_dec j i) as [->|]; [done|]. apply executed_app, Hd. lia.
  - split; [|split]; intros.
    + destruct (Z.eq_dec j i) as [->|]; [done|]. apply H1. lia.
    + rewrite H3 by lia. lia.
    + apply H3. lia.
  - intros _. by apply restored_snoc, Hr.
  - done.
  - lia.
Qed.

Lemma past_remote acts plan i step :
  past acts (Executing plan i 1 true) → at_index plan i = Some step → on_agents step = true →
  past (acts ++ [ActRemote i None]) (Executing plan (i + 1) 1 true).
Proof.
  intros Hp Hs Ha. eapply past_next; [exact Hp|exact Hs|..].
  - intros next. by apply begun_snoc.
  - destruct Hp as (next & _ & _ & _ & _ & _ & (H1 & H2 & H3) & _). apply counted_snoc; [done|].
    split; [done|]. split; [unfold allowed_tries; lia|done].
  - exists step. split; [done|]. right. split; [done|]. apply elem_of_snoc. by right.
Qed.

Lemma counted_attempt acts plan i k r :
  counted acts plan i (k - 1) → counted (acts ++ [ActAttempt i k r]) plan i k.
Proof.
  intros (H1 & H2 & H3).
  split; [|split]; [intros j Hj|..|intros j Hj]; rewrite tries_app, tries_attempt.
  - rewrite (proj2 (Z.eqb_neq i j)) by lia. specialize (H1 j Hj). lia.
  - rewrite Z.eqb_refl. lia.
  - rewrite (proj2 (Z.eqb_neq i j)) by lia. by rewrite H3.
Qed.

Lemma past_attempt acts plan i k r step :
  past acts (Executing plan i k true) → at_index plan i = Some step → on_server step = true →
  k <= sd_MaxRetries step + 1 →
  past (acts ++ [ActAttempt i k r])
    match r with
    | None => if has_gate step then AtGate plan i else Executing plan (i + 1) 1 true
    | Some e =>
        if errors_Is e IsContainerCleanup || (sd_MaxRetries step + 1 <=? k) then Halted
        else Executing plan i (k + 1) true
    end.
Proof.
  intros Hp Hs Hsrv Hmax.
  assert (Hk : k <= allowed_tries plan i) by (unfold allowed_tries; rewrite Hs; cbn; lia).
  pose proof Hp as (next & Hb & Hi & Hk1 & Hka & Hd & Hc & Hr & Hn & Ht).
  pose proof (counted_attempt _ _ _ _ r Hc) as Hc'. pose proof (begun_attempt _ _ _ i k r Hb) as Hb'.
  assert (Hw : ∀ source plan', ActSource source ∈ acts ++ [ActAttempt i k r] → steps_unmarshal source = Some plan' →
            within (acts ++ [ActAttempt i k r]) plan').
  { intros source plan' Hsrc Hu. destruct Hb' as (_ & _ & Hb''). rewrite (Hb'' _ Hsrc) in Hu. injection Hu as <-.
    by eapply counted_within. }
  destruct r as [e|]; [case_match eqn:E|destruct (has_gate step) eqn:Hg]; [exact Hw| |exact Hw|].
  - apply orb_false_iff in E as [He%negb_true_iff Hlt%Z.leb_gt]. apply negb_true_iff in He.
    exists next. split; [done|]. do 2 (split; [lia|]).
    split; [unfold allowed_tries; rewrite Hs; cbn; lia|]. split; [by apply done_snoc|].
    split; [by replace (k + 1 - 1) with k by lia|]. split; [intros _; by apply restored_snoc, Hr|]. split; [done|].
    intros _. exists e. split; [|done]. apply elem_of_snoc. right. f_equal. lia.
  - eapply past_next; [exact Hp|exact Hs|..].
    + intros n. apply begun_attempt.
    + destruct Hc' as (H1 & H2 & H3). split; [done|]. split; [lia|done].
    + exists step. split; [done|]. left. do 2 (split; [done|]). exists k. split; [lia|]. apply elem_of_snoc. by right.
Qed.

Lemma past_verify acts plan index result :
  past acts (Executing plan index 1 true) → Z.of_nat (length plan) <= index →
  past (acts ++ [ActVerify result]) match result with None => Verified | Some _ => Halted end.
Proof.
  intros Hp Hlen. destruct result as [e|]; [by eapply past_halted|].
  assert (Hw : ∀ plan', (∃ source, ActSource source ∈ acts ∧ steps_unmarshal source = Some plan') → within acts plan')
    by (intros plan' (source & ? & ?); by eapply past_within).
  destruct Hp as (next & Hb & Hi & Hk & Hka & Hd & Hc & Hr & _).
  exists next, plan. split.
  - split; [by apply begun_snoc|]. split; [intros j Hj; apply executed_app, Hd; lia|].
    split; [by apply restored_snoc, Hr|]. apply elem_of_snoc. by right.
  - apply within_snoc; [done|]. by eapply counted_within.
Qed.

Lemma past_complete acts ph status outcome next :
  past acts ph → next_phase ph (ActComplete status outcome) = Some next →
  past (acts ++ [ActComplete status outcome]) next.
Proof.
  intros Hp. assert (Hv : ph = Verified ∨ ph ≠ Verified) by (destruct ph; auto; by right).
  destruct Hv as [->|Hv].
  - intros [= <-]. apply (past_snoc _ _ (ActComplete status outcome) eq_refl) in Hp.
    split; [intros source plan Hsrc Hu; by eapply past_within|].
    intros final He. destruct Hp as (n & plan & Hc & _). exists n, plan, status. split; [done|].
    destruct outcome as [e|f]; [done|]. injection He as ->. apply elem_of_snoc. by right.
  - intros E. assert (next = end_with (ending_of ph outcome) ph) as ->.
    { cbn [next_phase] in E. destruct ph; try done; by case_match; simplify_eq. }
    apply past_ended; [done|done|]. intros final. by destruct outcome, ph.
Qed.

(** Every accepted act keeps what is known of the past. *)
Lemma past_advance acts ph a next :
  past acts ph → next_phase ph a = Some next → past (acts ++ [a]) next.
Proof.
  intros Hp Ha.
  destruct a as [args entries stdin answer|n|source|i| |i result|i k result|i result|result|status outcome|
    status|n outcome|[e|d]|[] message]; cbn [next_phase] in Ha;
    try (by eapply past_complete);
    repeat case_match; simplify_eq; try (by apply past_snoc); try (by apply past_ended); try (by eapply past_halted).
  - by apply past_start.
  - pose proof (past_source _ _ source Hp) as Hs. by case_match; simplify_eq.
  - pose proof (past_source _ _ source Hp) as Hs. by case_match; simplify_eq.
  - by apply (past_ended acts (Executing plan index 1 true)).
  - match goal with E : Z.eqb _ _ = true |- _ => apply Z.eqb_eq in E end.
    replace i with (index - 1) by lia. by apply (past_restore _ _ _ None) in Hp.
  - match goal with E : _ && _ = true |- _ => apply andb_true_iff in E as [->%Z.eqb_eq ->%Z.eqb_eq] end.
    unfold advance_attempt in Ha. destruct (at_index plan i) as [step|] eqn:Es; [|done].
    destruct (on_server step && _) eqn:E; [|done]. apply andb_true_iff in E as [Hsrv Hmax%Z.leb_le].
    injection Ha as <-. by eapply past_attempt.
  - match goal with E : _ && _ = true |- _ => apply andb_true_iff in E as [->%Z.eqb_eq ?] end. by eapply past_remote.
  - apply (past_verify _ _ _ None) in Hp; [done|]. by apply Z.leb_le.
Qed.

Theorem follow_past acts ph : follow NotStarted acts = Some ph → past acts ph.
Proof.
  revert ph. induction acts as [|a acts IH] using rev_ind; intros ph.
  - intros [= <-]. split; [|split]; [intros n Hn; by apply elem_of_nil in Hn..|done].
  - rewrite follow_app. destruct (follow NotStarted acts) as [mid|]; [|done]. cbn.
    destruct (next_phase mid a) as [next|] eqn:Ha; [|done]. intros [= <-]. eapply past_advance; [by apply IH|done].
Qed.
End plan.
