(* ===== verification/LocalRunTheorems.v ===== *)
(** * LocalRunTheorems: every run of the server follows the plan

    The runner refines the state machine of [RunPlan], whatever the outside
    answers. *)
From S2P Require Import Prelude Text Db Tx QueueQueries DeploymentQueue DispatchQueries CreationQueries GateQueries ArtifactGate Secret Variables Resolution Ansible DeploymentCreation RemotePayload LogScrub LogWriter Container StepRunner Runs Runtime LocalStaging LocalStep LocalRun LocalRunner RunCalculus RunPlan.

Section phases.
Context `{Server} `{Outside} `{RunnerLibraries}.
Implicit Types (st : RunState) (ph : run_phase).

Definition at_phase ph st : Prop := follow NotStarted (rs_trace st) = Some ph.

(** The run has ended. *)
Definition over st : Prop := ∃ e, at_phase (Ended e) st.

(** Started, and not yet verified. *)
Definition live ph : Prop := ph ≠ NotStarted ∧ ph ≠ Verified.

Lemma at_record ph a ph' st :
  at_phase ph st → next_phase ph a = Some ph' → at_phase ph' (rs_set_trace (rs_trace st ++ [a]) st).
Proof. intros Hp Ha. unfold at_phase in *. cbn. rewrite follow_app, Hp. cbn. by rewrite Ha. Qed.

Lemma at_quiet ph st st' : emits is_command st st' → at_phase ph st → ph ≠ NotStarted → at_phase ph st'.
Proof.
  intros (acts & Ht & Hc) Hp Hn. unfold at_phase in *. rewrite Ht, follow_app, Hp. cbn. clear Ht Hp.
  induction Hc as [|a acts Ha _ IH]; [done|]. destruct a; try done. cbn. by destruct ph.
Qed.

Lemma at_same ph st st' : rs_trace st' = rs_trace st → at_phase ph st → at_phase ph st'.
Proof. unfold at_phase. by intros ->. Qed.

Lemma over_at ph st : at_phase ph st → (∃ e, ph = Ended e) → over st.
Proof. intros Hp (e & ->). by exists e. Qed.

(** ** Rules *)

Lemma wpm_record {X} a Q (E : X → _) ph ph' st :
  at_phase ph st → next_phase ph a = Some ph' → (∀ st', at_phase ph' st' → rs_staging st' = rs_staging st → Q tt st') →
  wpm (record_act a) Q E st.
Proof. intros Hp Ha HQ. apply HQ; [by eapply at_record|done]. Qed.

Lemma wpm_quiet {X A} (m : M X A) Q (E : X → _) ph st :
  effects (emits is_command) m → at_phase ph st → ph ≠ NotStarted →
  (∀ a st', at_phase ph st' → Q a st') → (∀ x st', at_phase ph st' → E x st') → wpm m Q E st.
Proof.
  intros Hm Hp Hn HQ HE. eapply wpm_effects_then; [exact Hm|..]; intros; [apply HQ|apply HE]; by eapply at_quiet.
Qed.

Lemma wpm_calm {X A} (m : M X A) Q (E : X → _) ph st :
  effects (emits is_command) m → total m → at_phase ph st → ph ≠ NotStarted →
  (∀ a st', at_phase ph st' → Q a st') → wpm m Q E st.
Proof. intros Hm Ht Hp Hn HQ. eapply wpm_total; [exact Hm|done|]. intros. apply HQ. by eapply at_quiet. Qed.

(** Functions that leave the trace as it is. *)
Definition silent st st' : Prop := rs_trace st' = rs_trace st ∧ rs_staging st' = rs_staging st.

Lemma wpm_ask {X A} (f : nat → A) Q (E : X → _) st :
  (∀ st', silent st st' → Q (f (rs_clock st)) st') → wpm (ask f) Q E st.
Proof. intros HQ. by apply HQ. Qed.

Lemma wpm_store {A} (f : DB → result A * DB) Q E st :
  (∀ a st', silent st st' → Q a st') → (∀ e st', silent st st' → E e st') → wpm (store f) Q E st.
Proof.
  intros HQ HE. unfold wpm, store. destruct (match store_fault _ with Some _ => _ | None => _ end) as [[a|e] s];
    [by apply HQ|by apply HE].
Qed.

Lemma at_silent ph st st' : silent st st' → at_phase ph st → at_phase ph st'.
Proof. intros [? _]. by apply at_same. Qed.

Lemma wpm_cancelled_in {X} c Q (E : X → _) st :
  (∀ b st', silent st st' → Q b st') → wpm (cancelled_in c : M X bool) Q E st.
Proof. intros HQ. unfold cancelled_in, ctx_Err, wpm, mbind, m_bind, ask. destruct c; cbn; by apply HQ. Qed.
End phases.

#[export] Hint Extern 1 (effects _ (cancelled_in _)) => (unfold cancelled_in, ctx_Err; effects) : effects.

(** ** Ending a run *)
Section endings.
Context `{Server} `{Outside} `{RunnerLibraries}.
Context (p : containerEndpoint) (limits : Limits_) (pagesize : Z) (localErr : option failure) (deploymentID : Z).
Implicit Types (st : RunState) (ph : run_phase).

Lemma complete_spec {X} c status wins confirmed Q (E : X → _) ph st :
  at_phase ph st → (ph = Verified ∨ status ≠ "succeeded") →
  (∀ r st', at_phase (end_with (ending_of ph r) ph) st' →
     rs_staging st' = rs_staging st → Q r st') →
  wpm (completeDeployment_ deploymentID c status wins confirmed) Q E st.
Proof.
  intros Hp Hs HQ. unfold completeDeployment_. apply wpm_bind.
  assert (Hc : wpm (if wins then cancelled_in c else mret false : M X bool) (λ _ st', silent st st') (λ _ _, False) st)
    by (destruct wins; [by apply wpm_cancelled_in|done]).
  eapply wpm_mono; [exact Hc| |done]. cbn. intros cancelled st1 [Ht1 Hg1].
  apply wpm_bind, wpm_ask. intros st2 [Ht2 Hg2]. apply wpm_bind, wpm_call.
  assert (Hr : ∀ r st3, silent st2 st3 →
    wpm (record_act (ActComplete (if cancelled then "cancelled" else status) r);;
         match r with inr _ => modify (rs_set_cancels false) | inl _ => mret tt end;; mret r) Q E st3).
  { intros r st3 [Ht3 Hg3]. apply wpm_bind.
    eapply (wpm_record _ _ _ ph (end_with (ending_of ph r) ph)).
    - eapply at_same; [|exact Hp]. congruence.
    - destruct cancelled; cbn [next_phase]; destruct ph; cbn; try done; (destruct Hs as [?|Hs]; [done|]);
        by rewrite (proj2 (String.eqb_neq _ _) Hs).
    - intros st4 Hp4 Hg4. destruct r; (apply HQ; [done|cbn; congruence]). }
  apply wpm_store; intros; by apply Hr.
Qed.

Lemma persist_spec {X} c status wins Q (E : X → _) ph st :
  at_phase ph st → ph ≠ NotStarted → (ph = Verified ∨ status ≠ "succeeded") →
  (∀ final st' e, at_phase (Ended e) st' → (∀ s, final = Some s → e = ending_of ph (inr s)) → Q final st') →
  wpm (persistCompletion p deploymentID c status wins) Q E st.
Proof.
  intros Hp Hn Hs HQ. unfold persistCompletion. apply wpm_bind. apply (wpm_calm _ _ _ ph); [effects|total|done|done|].
  intros e st1 Hp1. apply wpm_bind. apply (complete_spec _ _ _ _ _ _ ph); [done|..].
  { destruct Hs as [?|Hs]; [by left|right]. by destruct (is_null e). }
  intros r st2 Hp2 _. assert (Hp2' : at_phase (Ended (ending_of ph r)) st2) by by destruct ph.
  destruct r as [e2|final].
  - apply wpm_bind, wpm_modify, wpm_bind, wpm_ask. intros st3 Hq3. apply wpm_bind, wpm_look.
    assert (Hp3 : at_phase (Ended Unstored) st3) by (eapply at_silent; [exact Hq3|]; by destruct ph).
    apply wpm_bind, wpm_when; intros _.
    + apply wpm_bind, wpm_modify. eapply (wpm_record _ _ _ (Ended Unstored)); [exact Hp3|done|]. intros st4 Hp4 _.
      by eapply HQ.
    + by eapply HQ.
  - eapply HQ; [exact Hp2'|]. by intros s [= ->].
Qed.

(** Ended, with [failed] stored where a failure is published. *)
Lemma fail_step_spec {X} c message wins Q (E : X → _) ph st :
  at_phase ph st → live ph → (∀ st', over st' → Q tt st') → wpm (failStep p deploymentID c message wins) Q E st.
Proof.
  intros Hp [Hn Hv] HQ. unfold failStep. apply wpm_bind. apply (persist_spec _ _ _ _ _ ph); [done|done|by right|].
  intros final st1 e Hp1 He. apply wpm_when.
  - intros Hf%bool_decide_eq_true. assert (e = Stored "failed") as -> by (rewrite (He _ Hf); by destruct ph).
    eapply wpm_record; [exact Hp1|done|]. intros st2 Hp2 _. apply HQ. by eexists.
  - intros _. apply HQ. by exists e.
Qed.

Lemma finalize_spec {X} Q (E : X → _) ph st :
  at_phase ph st → live ph → (∀ st', over st' → Q tt st') → wpm (finalizeCancellation p deploymentID) Q E st.
Proof.
  intros Hp [Hn Hv] HQ. unfold finalizeCancellation. apply wpm_bind.
  apply (persist_spec _ _ _ _ _ ph); [done|done|by right|]. intros final st1 e Hp1 _. apply HQ. by exists e.
Qed.

(** A deployment that is found cancelled ends the run. *)
Lemma load_spec {X} Q (E : X → _) ph st :
  at_phase ph st → ph ≠ NotStarted →
  (∀ r st', at_phase (match r with
                      | inr d => if String.eqb (d_Status d) "cancelled" then Ended FoundCancelled else ph
                      | inl _ => ph end) st' → Q r st') →
  wpm (load_deployment deploymentID) Q E st.
Proof.
  intros Hp Hn HQ. unfold load_deployment. apply wpm_bind, wpm_call.
  assert (Hr : ∀ r st1, silent st st1 → wpm (record_act (ActLoad r);; mret r) Q E st1).
  { intros [e|d] st1 Hq1; apply wpm_bind; (eapply (wpm_record _ _ _ ph); [by eapply at_silent|done|]);
      intros st2 Hp2 _; apply HQ; [done|]. destruct (String.eqb _ _); [|done]. by destruct ph. }
  apply wpm_store; intros; by apply Hr.
Qed.

Lemma fail_unless_spec {X} c Q (E : X → _) ph st :
  at_phase ph st → live ph → (∀ st', over st' → Q tt st') → wpm (failUnlessCancelled p deploymentID c) Q E st.
Proof.
  intros Hp Hl HQ. unfold failUnlessCancelled. apply wpm_bind, wpm_cancelled_in. intros b st1 Hq1.
  apply (at_silent ph) in Hq1; [|done]. destruct b; [by eapply finalize_spec|].
  apply wpm_bind. eapply load_spec; [exact Hq1|apply Hl|]. intros [e|d] st2 Hp2.
  - eapply (wpm_record _ _ _ ph (Ended GivenUp)); [exact Hp2|by destruct ph, Hl|]. intros st3 Hp3 _. apply HQ. by exists GivenUp.
  - destruct (String.eqb _ _); [apply wpm_ret, HQ; by exists FoundCancelled|].
    apply wpm_bind, wpm_call. apply wpm_store; intros a st3 Hq3; apply (at_silent ph) in Hq3; [|done| |done].
    + by eapply fail_step_spec.
    + apply wpm_bind. apply (persist_spec _ _ _ _ _ ph); [done|apply Hl|by right|]. intros final st4 e Hp4 _.
      apply HQ. by exists e.
Qed.

(** ** The four ways to return *)

Lemma fail_run_spec {A} (Q : A → _) ph st :
  at_phase ph st → live ph → wpm (fail_run p deploymentID) Q (λ _, over) st.
Proof. intros Hp Hl. apply wpm_bind. by eapply fail_unless_spec. Qed.

Lemma cancel_run_spec {A} (Q : A → _) ph st :
  at_phase ph st → live ph → wpm (cancel_run p deploymentID) Q (λ _, over) st.
Proof. intros Hp Hl. apply wpm_bind. by eapply finalize_spec. Qed.

Lemma unconfirmed_run_spec {A} (Q : A → _) ph st :
  at_phase ph st → live ph → wpm (unconfirmed_run p deploymentID) Q (λ _, over) st.
Proof.
  intros Hp Hl. apply wpm_bind. apply (persist_spec _ _ _ _ _ ph); [done|apply Hl|by right|].
  intros final st1 e Hp1 _. by exists e.
Qed.

Lemma fail_with_spec {A} message wins (Q : A → _) ph st :
  at_phase ph st → live ph → wpm (fail_step p deploymentID message wins) Q (λ _, over) st.
Proof. intros Hp Hl. apply wpm_bind. by eapply fail_step_spec. Qed.

Lemma or_fail_spec {A} (m : M failure A) (Q : A → _) ph st :
  effects (emits is_command) m → at_phase ph st → live ph → (∀ a st', at_phase ph st' → Q a st') →
  wpm (or_fail p deploymentID m) Q (λ _, over) st.
Proof.
  intros Hm Hp Hl HQ. unfold or_fail. apply wpm_bind, wpm_call. apply (wpm_quiet _ _ _ ph); [done|done|apply Hl| |].
  - intros a st1 Hp1. by apply wpm_ret, HQ.
  - intros e st1 Hp1. by eapply fail_run_spec.
Qed.
End endings.

(** ** The steps *)

(** What the plan knows of a step. *)
Definition similar (a b : Definition_) : Prop :=
  sd_ExecutionTarget a = sd_ExecutionTarget b ∧ sd_MaxRetries a = sd_MaxRetries b ∧
  sd_ApprovalArtifactPath a = sd_ApprovalArtifactPath b.

Lemma similar_refl a : similar a a.
Proof. done. Qed.

Lemma similar_check_mode mode a : similar a (with_check_mode mode a).
Proof. unfold with_check_mode. by destruct mode, (sd_Ansible a). Qed.

Section steps.
Context `{Server} `{Outside} `{RunnerLibraries}.
Context (p : containerEndpoint) (limits : Limits_) (pagesize : Z) (localErr : option failure) (deploymentID : Z).
Context (input : RunInput) (plan : list Definition_).
Implicit Types (st : RunState) (ph : run_phase).

Notation first := (first_step input).

Lemma live_executing i k ready : live (Executing plan i k ready).
Proof. done. Qed.
Lemma live_halted : live Halted.
Proof. done. Qed.
Lemma live_gate i : live (AtGate plan i).
Proof. done. Qed.
Hint Resolve live_executing live_halted live_gate : core.

Lemma ensure_work_spec Q ph st :
  at_phase ph st → live ph → (∀ st', at_phase ph st' → Q tt st') →
  wpm (ensure_work p deploymentID) Q (λ _, over) st.
Proof.
  intros Hp Hl HQ. unfold ensure_work. apply wpm_bind, wpm_look. destruct (rs_artifactWork st); [by apply wpm_ret, HQ|].
  apply wpm_bind. apply (wpm_calm _ _ _ ph); [|total|done|apply Hl|].
  { unfold beginLocalWork. apply effects_bind; [typeclasses eauto|effects|]. intros []; [effects|].
    apply effects_bind; [typeclasses eauto| |effects]. intros st'. exists []. by rewrite app_nil_r. }
  intros began st1 Hp1. destruct began; [by apply wpm_modify, HQ|]. by eapply cancel_run_spec.
Qed.

(** A failed step of agents ends the run. *)
Lemma remote_failed_spec {A} log step e staging (Q : A → _) ph st :
  at_phase ph st → live ph → wpm (remote_failed p limits deploymentID input log step e staging) Q (λ _, over) st.
Proof.
  intros Hp Hl. unfold remote_failed. apply wpm_bind.
  apply (wpm_calm _ _ _ ph); [unfold log_staging_failure; effects|unfold log_staging_failure; total|done|apply Hl|].
  intros _ st1 Hp1. destruct (errors_Is e IsContainerCleanup); [by eapply unconfirmed_run_spec|].
  apply wpm_bind. apply (wpm_calm _ _ _ ph); [destruct staging; effects|destruct staging; total|done|apply Hl|].
  intros c st2 Hp2. destruct (_ || c); [by eapply cancel_run_spec|by eapply fail_with_spec].
Qed.

Definition planned_step (i : Z) (step : Definition_) : Prop :=
  ∃ s0, at_index plan i = Some s0 ∧ similar s0 step.

Lemma agent_step_spec i step carried st :
  at_phase (Executing plan i 1 true) st → planned_step i step → on_agents step = true →
  wpm (agent_step p limits deploymentID input i step carried)
    (λ _, at_phase (Executing plan (i + 1) 1 true)) (λ _, over) st.
Proof.
  intros Hp (s0 & Hs & Hsim) Ha. assert (Ha0 : on_agents s0 = true) by (unfold on_agents in *; by rewrite (proj1 Hsim)).
  unfold agent_step. apply wpm_bind. apply (wpm_calm _ _ _ (Executing plan i 1 true)); [effects|total|done..|].
  intros stageErr st1 Hp1. apply wpm_bind, wpm_look, wpm_bind. apply (wpm_calm _ _ _ (Executing plan i 1 true));
    [|unfold drop_work, localWork_Done; total|done..|].
  { destruct (rs_artifactWork st1); [|cbn; effects]. cbn. intros st2. exists []. by rewrite app_nil_r. }
  intros _ st2 Hp2. destruct stageErr as [e|]; [by eapply remote_failed_spec|].
  apply wpm_bind. apply (wpm_calm _ _ _ (Executing plan i 1 true)); [unfold wait_for_agents; effects|unfold wait_for_agents; total|done..|].
  intros [result|] st3 Hp3.
  2: { apply wpm_bind. eapply (wpm_record _ _ _ _ (Ended Waiting)); [exact Hp3|cbn; by rewrite Z.eqb_refl|].
       intros st4 Hp4 _. by exists Waiting. }
  apply wpm_bind. eapply wpm_record; [exact Hp3|cbn; by rewrite Hs, Z.eqb_refl, Ha0|]. intros st4 Hp4 _.
  destruct result as [e|]; [by eapply remote_failed_spec|].
  apply wpm_bind. apply (wpm_calm _ _ _ (Executing plan (i + 1) 1 true)); [effects|total|done..|]. intros r st5 Hp5.
  apply wpm_bind. apply (wpm_calm _ _ _ (Executing plan (i + 1) 1 true)); [effects|total|done..|]. intros closeErr st6 Hp6.
  destruct (Join _ closeErr); [by eapply remote_failed_spec|].
  apply wpm_bind. apply (wpm_calm _ _ _ (Executing plan (i + 1) 1 true)); [effects|total|done..|]. intros _ st7 Hp7. done.
Qed.

(** The phase after the last attempt. *)
Definition after_attempts (i : Z) (step : Definition_) (last : option failure) : run_phase :=
  match last with
  | None => if has_gate step then AtGate plan i else Executing plan (i + 1) 1 true
  | Some _ => Halted
  end.

Lemma attempts_spec log request i step n k last st :
  at_phase (Executing plan i k true) st → planned_step i step → on_server step = true →
  (0 < n)%nat → Z.of_nat n = sd_MaxRetries step + 1 - k + 1 →
  wpm (attempts p limits pagesize localErr deploymentID log request i (sd_MaxRetries step + 1) n k last)
    (λ last, at_phase (after_attempts i step last)) (λ _, over) st.
Proof.
  intros Hp (s0 & Hs & Ht & Hr & Hg) Hsrv. revert k last st Hp.
  assert (Hsrv0 : on_server s0 = true) by (unfold on_server in *; by rewrite Ht).
  assert (Hg0 : has_gate s0 = has_gate step) by (unfold has_gate; by rewrite Hg).
  induction n as [|n IH]; intros k last st Hp Hn Hk; [lia|]. cbn [attempts].
  apply wpm_bind. apply (wpm_calm _ _ _ (Executing plan i k true)); [effects|total|done..|]. intros e st1 Hp1.
  assert (Hadv : next_phase (Executing plan i k true) (ActAttempt i k e) = Some
    match e with
    | None => if has_gate step then AtGate plan i else Executing plan (i + 1) 1 true
    | Some e => if errors_Is e IsContainerCleanup || (sd_MaxRetries step + 1 <=? k) then Halted
                else Executing plan i (k + 1) true
    end).
  { cbn. rewrite !Z.eqb_refl. cbn. unfold advance_attempt. rewrite Hs, Hsrv0, Hr, Hg0.
    by rewrite (proj2 (Z.leb_le _ _)) by lia. }
  apply wpm_bind. eapply wpm_record; [exact Hp1|exact Hadv|]. intros st2 Hp2 _.
  destruct e as [e|]; [|exact Hp2]. destruct (errors_Is e IsContainerCleanup); [exact Hp2|]. cbn [orb] in Hp2.
  set (ph := if sd_MaxRetries step + 1 <=? k then Halted else Executing plan i (k + 1) true) in *.
  assert (Hl : live ph) by (unfold ph; by destruct (sd_MaxRetries step + 1 <=? k)).
  apply wpm_bind, wpm_cancelled_in. intros c st3 Hq3. apply (at_silent ph) in Hq3; [|done].
  destruct c; [by eapply cancel_run_spec|]. apply wpm_bind. eapply load_spec; [exact Hq3|apply Hl|]. intros r st4 Hp4.
  apply wpm_bind, wpm_when; [intros Hc|intros Hc].
  { destruct r as [?|d]; [done|]. rewrite Hc in Hp4. by exists FoundCancelled. }
  assert (Hp5 : at_phase ph st4) by (destruct r as [?|d]; [done|by rewrite Hc in Hp4]).
  apply wpm_bind. apply (wpm_calm _ _ _ ph); [effects|total|done|apply Hl|]. intros _ st6 Hp6.
  unfold ph in Hp6. destruct (Z.leb_spec (sd_MaxRetries step + 1) k).
  - assert (n = 0%nat) as -> by lia. exact Hp6.
  - apply IH; [exact Hp6|lia|lia].
Qed.

(** ** The body of the loop *)

Lemma claim_namespace_spec Q ph st :
  at_phase ph st → live ph → (∀ st', at_phase ph st' → Q tt st') →
  wpm (claim_namespace p deploymentID) Q (λ _, over) st.
Proof.
  intros Hp Hl HQ. unfold claim_namespace. apply wpm_bind. apply (wpm_calm _ _ _ ph); [effects|total|done|apply Hl|].
  intros [e|recorded] st1 Hp1; [by eapply fail_with_spec|].
  destruct (Z.eqb recorded 1); [by apply wpm_ret, HQ|]. apply wpm_bind. eapply load_spec; [exact Hp1|apply Hl|].
  intros [e|d] st2 Hp2; [by eapply fail_with_spec|].
  assert (Hl2 : live (if String.eqb (d_Status d) "cancelled" then Ended FoundCancelled else ph)) by by destruct (String.eqb _ _).
  destruct (not_null _); [by eapply unconfirmed_run_spec|].
  destruct (String.eqb _ _); [by exists FoundCancelled|by eapply fail_with_spec].
Qed.

Lemma failStaging_spec {X} log e Q (E : X → _) ph st :
  at_phase ph st → live ph → (∀ r st', at_phase ph st' → Q r st') →
  wpm (failStaging limits deploymentID log e) Q E st.
Proof. intros Hp Hl HQ. apply (wpm_calm _ _ _ ph); [unfold failStaging; effects|unfold failStaging; total|done|apply Hl|done]. Qed.

Lemma ensure_handoff_spec log environment handoff Q ph st :
  at_phase ph st → live ph → (∀ g st', at_phase ph st' → Q g st') →
  wpm (ensure_handoff p limits pagesize localErr deploymentID input log environment handoff) Q (λ _, over) st.
Proof.
  intros Hp Hl HQ. unfold ensure_handoff. destruct (present handoff); [by apply HQ|].
  apply wpm_bind. apply (wpm_calm _ _ _ ph); [effects|total|done|apply Hl|].
  intros [stage [e|]] st1 Hp1; [|by apply HQ]. apply wpm_bind. eapply failStaging_spec; [done|done|].
  intros r st2 Hp2. by eapply fail_with_spec.
Qed.

Lemma import_transfer_spec log handoff transferred Q ph st :
  at_phase ph st → live ph → (∀ st', at_phase ph st' → Q tt st') →
  wpm (import_transfer p limits deploymentID log handoff transferred) Q (λ _, over) st.
Proof.
  intros Hp Hl HQ. unfold import_transfer. destruct transferred as [file|]; [|by apply HQ].
  apply wpm_bind. apply (wpm_calm _ _ _ ph); [effects|total|done|apply Hl|]. intros [e|u] st1 Hp1.
  - apply wpm_bind. eapply failStaging_spec; [done|done|]. intros r st2 Hp2. by eapply fail_run_spec.
  - apply wpm_bind. apply (wpm_calm _ _ _ ph); [effects|total|done|apply Hl|]. intros [e|] st2 Hp2.
    + by eapply fail_run_spec.
    + by apply HQ.
Qed.

(** The pause is the only way past a gate. *)
Lemma pause_spec i Q (E : failure → _) st :
  at_phase (AtGate plan i) st → (∀ st', at_phase (Ended Paused) st' → Q tt st') →
  (∀ e st' ph, at_phase ph st' → live ph → E e st') → wpm (pause deploymentID i) Q E st.
Proof.
  intros Hp HQ HE. unfold pause. apply wpm_bind, wpm_cancelled_in. intros c st1 Hq1.
  apply (at_silent (AtGate plan i)) in Hq1; [|done]. destruct c; [by eapply HE|].
  apply wpm_bind. apply (wpm_calm _ _ _ (AtGate plan i)); [effects|total|done..|]. intros e st2 Hp2.
  apply wpm_bind. eapply wpm_record; [exact Hp2|cbn; by rewrite Z.eqb_refl|]. intros st3 Hp3 _.
  apply wpm_bind. destruct e as [e|]; [by eapply HE|by apply HQ].
Qed.

(** The run ends at a gate, paused or not. *)
Lemma gate_step_spec {A} log i step handoff (Q : A → _) st :
  at_phase (AtGate plan i) st → wpm (gate_step p limits deploymentID log i step handoff) Q (λ _, over) st.
Proof.
  intros Hp. unfold gate_step. apply wpm_bind, wpm_error_of, wpm_bind.
  assert (Hend : ∀ e st' ph, at_phase ph st' → live ph →
    wpm (write_log limits deploymentID log ("Artifact approval failed: " +:+ f_text e +:+ newline_text);;
         flush_log deploymentID log;;
         cancelled ← cancelled_in RunContext;
         finish_log deploymentID log (Some e) cancelled;;
         fail_run p deploymentID) Q (λ _, over) st').
  { intros e st' ph Hp' Hl. apply wpm_bind. apply (wpm_calm _ _ _ ph); [effects|total|done|apply Hl|]. intros _ st2 Hp2.
    apply wpm_bind. apply (wpm_calm _ _ _ ph); [effects|total|done|apply Hl|]. intros _ st3 Hp3.
    apply wpm_bind, wpm_cancelled_in. intros c st4 Hq4. apply (at_silent ph) in Hq4; [|done].
    apply wpm_bind. apply (wpm_calm _ _ _ ph); [effects|total|done|apply Hl|]. intros _ st5 Hp5. by eapply fail_run_spec. }
  apply (wpm_quiet _ _ _ (AtGate plan i)); [effects|done|done| |by intros; eapply Hend].
  intros _ st1 Hp1. apply wpm_bind. apply (wpm_calm _ _ _ (AtGate plan i)); [effects|total|done..|]. intros e st2 Hp2.
  apply wpm_bind. destruct e as [e|]; [by eapply Hend|]. apply wpm_ret, wpm_bind, wpm_modify.
  apply (pause_spec i); [done| |by intros; eapply Hend]. intros st3 Hp3.
  apply wpm_bind. eapply wpm_record; [exact Hp3|done|]. intros st4 Hp4 _. by exists Paused.
Qed.

Lemma local_step_spec i step environment stage approved carried st :
  at_phase (Executing plan i 1 true) st → planned_step i step → on_server step = true → 0 <= sd_MaxRetries step →
  wpm (local_step p limits pagesize localErr deploymentID input i step environment stage approved carried)
    (λ _, at_phase (Executing plan (i + 1) 1 true)) (λ _, over) st.
Proof.
  intros Hp Hs Hsrv Hr. unfold local_step. apply wpm_bind. eapply ensure_work_spec; [exact Hp|done|]. intros st1 Hp1.
  apply wpm_bind. eapply claim_namespace_spec; [exact Hp1|done|]. intros st2 Hp2.
  apply wpm_bind. eapply ensure_handoff_spec; [exact Hp2|done|]. intros handoff st3 Hp3.
  apply wpm_bind. eapply import_transfer_spec; [exact Hp3|done|]. intros st4 Hp4.
  apply wpm_bind. eapply wpm_mono; [apply attempts_spec; [exact Hp4|exact Hs|done|lia|lia]| |done].
  cbn. intros last st5 Hp5. destruct last as [e|]; cbn [after_attempts] in Hp5.
  - destruct (errors_Is e IsContainerCleanup); [by eapply unconfirmed_run_spec|by eapply fail_with_spec].
  - unfold has_gate in Hp5. apply wpm_bind, wpm_when; intros Hg; rewrite Hg in Hp5; [|done].
    by apply gate_step_spec.
Qed.

(** The step that is executed: with a gate, in the image that was pinned. *)
Lemma pinned_image_spec i step Q st :
  at_phase (Executing plan i 1 true) st → planned_step i step →
  (∀ step' st', at_phase (Executing plan i 1 true) st' → planned_step i step' → sd_MaxRetries step' = sd_MaxRetries step →
     Q step' st') →
  wpm (if gated input && negb (String.eqb (sd_ExecutionTarget step) "agent")
       then image ← or_fail p deploymentID (query (GetArtifactGateImage deploymentID i)); mret (with_image image step)
       else mret step) Q (λ _, over) st.
Proof.
  intros Hp Hs HQ. destruct (_ && _); [|by apply HQ]. apply wpm_bind.
  eapply or_fail_spec; [effects|exact Hp|done|]. intros image st1 Hp1. by apply HQ.
Qed.

(** The body of the loop executes its step, or ends the run. *)
Lemma run_step_spec i step environment stage approved carried st :
  at_phase (Executing plan i 1 true) st → planned_step i step → 0 <= sd_MaxRetries step →
  gated input && (i <? first) = false →
  wpm (run_step p limits pagesize localErr deploymentID input i step environment stage approved carried)
    (λ _, at_phase (Executing plan (i + 1) 1 true)) (λ _, over) st.
Proof.
  intros Hp Hs Hr Hskip. unfold run_step. rewrite Hskip. apply wpm_bind. apply (pinned_image_spec i); [done..|].
  intros step' st1 Hp1 Hs1 Hr1. apply wpm_bind, wpm_cancelled_in. intros c st2 Hq2.
  apply (at_silent (Executing plan i 1 true)) in Hq2; [|done].
  apply wpm_bind, wpm_when; [intros _; by eapply cancel_run_spec|intros _].
  apply wpm_bind, wpm_modify. destruct (String.eqb (sd_ExecutionTarget step') "agent") eqn:Ha.
  { by apply agent_step_spec. }
  destruct (sd_ExecutionTarget step' ∈? [""; "local"]) eqn:Hl; [apply local_step_spec; [done..|lia]|].
  by eapply fail_with_spec.
Qed.

(** The steps before the first one have been executed in earlier runs. *)
Lemma run_steps_from_spec i steps environment stage approved carried st :
  at_phase (Executing plan (Z.max i (Z.max 0 first)) 1 true) st → (gated input = false → first = 0) → 0 <= i →
  (∀ k step, steps !! k = Some step → planned_step (i + Z.of_nat k) step ∧ 0 <= sd_MaxRetries step) →
  wpm (run_steps_from p limits pagesize localErr deploymentID input i steps environment stage approved carried)
    (λ _, at_phase (Executing plan (Z.max (i + Z.of_nat (length steps)) (Z.max 0 first)) 1 true)) (λ _, over) st.
Proof.
  intros Hp Hg. revert i carried st Hp. induction steps as [|step steps IH]; intros i carried st Hp Hi Hsteps; cbn [run_steps_from].
  - apply wpm_ret. by rewrite Z.add_0_r.
  - apply wpm_bind. destruct (Hsteps 0%nat step eq_refl) as [Hs Hr]. rewrite Z.add_0_r in Hs.
    assert (Hlen : i + Z.of_nat (length (step :: steps)) = i + 1 + Z.of_nat (length steps)) by (cbn [length]; lia).
    rewrite Hlen.
    assert (Htail : ∀ k step', steps !! k = Some step' → planned_step (i + 1 + Z.of_nat k) step' ∧ 0 <= sd_MaxRetries step').
    { intros k step' Hk. destruct (Hsteps (S k) step' Hk) as [Hs' ?]. split; [|done].
      by replace (i + 1 + Z.of_nat k) with (i + Z.of_nat (S k)) by lia. }
    destruct (gated input && (i <? first)) eqn:Hskip.
    + unfold run_step. rewrite Hskip. apply wpm_ret, IH; [|lia|done].
      apply andb_true_iff in Hskip as [_ ?%Z.ltb_lt]. by replace (Z.max (i + 1) _) with (Z.max i (Z.max 0 first)) by lia.
    + assert (first <= i) by (destruct (gated input); [by apply Z.ltb_ge in Hskip|rewrite Hg by done; lia]).
      rewrite Z.max_l in Hp by lia. eapply wpm_mono; [by apply run_step_spec| |done].
      cbn. intros carried' st1 Hp1. apply IH; [by rewrite Z.max_l by lia|lia|done].
Qed.

(** ** Around the steps *)

Lemma restore_approved_spec Q st :
  at_phase (Executing plan (Z.max 0 first) 1 (first <=? 0)) st → (gated input = false → first = 0) →
  (∀ stage st', at_phase (Executing plan (Z.max 0 first) 1 true) st' → Q stage st') →
  wpm (restore_approved p limits pagesize localErr deploymentID input) Q (λ _, over) st.
Proof.
  intros Hp Hg HQ. unfold restore_approved. destruct (gated input && (0 <? first)) eqn:Hb.
  - apply andb_true_iff in Hb as [_ Hpos%Z.ltb_lt]. rewrite (proj2 (Z.leb_gt _ _) Hpos) in Hp.
    apply wpm_bind. eapply ensure_work_spec; [exact Hp|done|]. intros st1 Hp1.
    apply wpm_bind. apply (wpm_calm _ _ _ (Executing plan (Z.max 0 first) 1 false)); [effects|total|done..|].
    intros r st2 Hp2. apply wpm_bind. eapply wpm_record; [exact Hp2| |].
    { cbn. by rewrite (proj2 (Z.eqb_eq (Z.max 0 first) (first - 1 + 1))) by lia. }
    intros st3 Hp3 _. destruct r as [e|stage]; [by eapply fail_run_spec|by apply HQ].
  - apply wpm_ret, HQ. apply andb_false_iff in Hb as [Hb|Hb%Z.ltb_ge]; [rewrite Hg in Hp |- * by done; done|].
    by rewrite (proj2 (Z.leb_le _ _) Hb) in Hp.
Qed.

Lemma finish_run_spec environment stage index st :
  at_phase (Executing plan index 1 true) st → Z.of_nat (length plan) <= index →
  wpm (finish_run p limits pagesize localErr deploymentID input environment stage) (λ _, over) (λ _, over) st.
Proof.
  intros Hp Hlen. unfold finish_run. apply wpm_bind, wpm_cancelled_in. intros c st1 Hq1.
  apply (at_silent (Executing plan index 1 true)) in Hq1; [|done].
  apply wpm_bind, wpm_when; [intros _; by eapply cancel_run_spec|intros _].
  apply wpm_bind. apply (wpm_calm _ _ _ (Executing plan index 1 true)); [effects|total|done..|]. intros e st2 Hp2.
  apply wpm_bind. eapply wpm_record; [exact Hp2|cbn; by rewrite (proj2 (Z.leb_le _ _) Hlen)|]. intros st3 Hp3 _.
  apply wpm_bind. destruct e as [e|].
  - apply wpm_bind, wpm_when; [intros _; by eapply unconfirmed_run_spec|intros _].
    apply wpm_bind, wpm_cancelled_in. intros c1 st4 Hq4. apply (at_silent Halted) in Hq4; [|done].
    apply wpm_bind, wpm_when; [intros _; by eapply cancel_run_spec|intros _].
    apply wpm_bind, wpm_cancelled_in. intros c2 st5 Hq5. apply (at_silent Halted) in Hq5; [|done].
    by eapply fail_with_spec.
  - apply wpm_ret, wpm_bind. apply (persist_spec _ _ _ _ _ _ _ Verified); [done|done|by left|].
    intros final st4 e Hp4 He. apply wpm_when; [|intros _; by exists e].
    intros Hf%bool_decide_eq_true. rewrite (He _ Hf) in Hp4. cbn in Hp4.
    eapply wpm_record; [exact Hp4|done|]. intros st5 Hp5 _. by eexists.
Qed.

(** What is deferred does not change how the run has ended. *)
Lemma deferred_cleanup_spec Q st :
  over st → (∀ st', over st' → Q tt st') →
  wpm (deferred_cleanup p deploymentID) Q (λ _ _, True) st.
Proof.
  intros [e Hp] HQ. unfold deferred_cleanup. apply wpm_bind, wpm_look. destruct (rs_cleanupDone st); [apply HQ; by exists e|].
  apply wpm_bind. apply (wpm_calm _ _ _ (Ended e)); [effects|total|done..|]. intros err st1 Hp1.
  apply wpm_when; intros _; [|apply HQ; by exists e].
  apply wpm_bind. apply (persist_spec _ _ _ _ _ _ _ (Ended e)); [done|done|by right|].
  intros final st2 e2 Hp2 _. apply HQ. by exists e2.
Qed.

Lemma run_staged_spec environment stage st :
  at_phase (Executing plan (Z.max 0 first) 1 (first <=? 0)) st → (gated input = false → first = 0) →
  (∀ k step, ri_steps input !! k = Some step → planned_step (Z.of_nat k) step ∧ 0 <= sd_MaxRetries step) →
  length (ri_steps input) = length plan →
  wpm (run_staged p limits pagesize localErr deploymentID input environment stage) (λ _, over) (λ _, over) st.
Proof.
  intros Hp Hg Hsteps Hlen. unfold run_staged. apply wpm_bind. apply restore_approved_spec; [done..|].
  intros approved st1 Hp1. apply wpm_bind. eapply wpm_mono; [apply run_steps_from_spec| |done].
  - rewrite Z.max_r by lia. exact Hp1.
  - exact Hg.
  - done.
  - exact Hsteps.
  - cbn. intros carried st2 Hp2. eapply finish_run_spec; [exact Hp2|lia].
Qed.

(** The staging of the package, and where its files are. *)
Lemma staged_spec (Q : gmap string string → artifactStage → M unit unit) st :
  let ph := Executing plan (Z.max 0 first) 1 (first <=? 0) in
  at_phase ph st → (∀ environment stage st', at_phase ph st' → wpm (Q environment stage) (λ _, over) (λ _, over) st') →
  wpm (r ← stageArtifact p limits pagesize localErr deploymentID;
       let '(stage, e) := r in
       match e with
       | Some e =>
           let message := "Artifact staging failed: " +:+ f_text e in
           print_log limits deploymentID (mkTarget "" None (scrubber_of_run input)) (message +:+ newline_text);;
           fail_step p deploymentID (Scrubber_Scrub (scrubber_of_run input) message) true
       | None => mret tt
       end;;
       environment ←
         (if present stage then
            if not_null (ri_environment input !! "ARTIFACT_PATH")
            then fail_step p deploymentID "ARTIFACT_PATH conflicts with a snapshotted variable" true
            else mret (<["ARTIFACT_PATH" := artifactMount]> (ri_environment input))
          else drop_work;; mret (ri_environment input));
       Q environment stage) (λ _, over) (λ _, over) st.
Proof.
  intros ph Hp HQ. assert (Hl : live ph) by done.
  apply wpm_bind. apply (wpm_calm _ _ _ ph); [effects|total|done..|]. intros [stage [e|]] st1 Hp1; apply wpm_bind.
  { apply wpm_bind. apply (wpm_calm _ _ _ ph); [effects|total|done..|]. intros _ st2 Hp2. by eapply fail_with_spec. }
  apply wpm_ret, wpm_bind. destruct (present stage).
  - destruct (not_null _); [by eapply fail_with_spec|]. by apply wpm_ret, HQ.
  - apply wpm_bind. apply (wpm_calm _ _ _ ph); [|unfold drop_work, localWork_Done; total|done..|].
    + intros st'. exists []. by rewrite app_nil_r.
    + intros _ st2 Hp2. by apply wpm_ret, HQ.
Qed.

Lemma run_work_spec st :
  at_phase (Executing plan (Z.max 0 first) 1 (first <=? 0)) st → (gated input = false → first = 0) →
  (∀ k step, ri_steps input !! k = Some step → planned_step (Z.of_nat k) step ∧ 0 <= sd_MaxRetries step) →
  length (ri_steps input) = length plan →
  wpm (run_work p limits pagesize localErr deploymentID input) (λ _, over) (λ _, over) st.
Proof.
  intros Hp Hg Hsteps Hlen. unfold run_work.
  assert (Hrest : ∀ environment stage st', at_phase (Executing plan (Z.max 0 first) 1 (first <=? 0)) st' →
    wpm (modify (rs_set_cleanupDone false);;
         defer (run_staged p limits pagesize localErr deploymentID input environment stage) (deferred_cleanup p deploymentID))
      (λ _, over) (λ _, over) st').
  { intros environment stage st' Hp'. apply wpm_bind, wpm_modify, wpm_defer.
    eapply wpm_mono; [by apply run_staged_spec|cbn; intros; by apply deferred_cleanup_spec..]. }
  apply wpm_bind, wpm_when; intros _; [|by apply staged_spec].
  eapply or_fail_spec; [effects|exact Hp|done|]. intros _ st1 Hp1. by apply staged_spec.
Qed.
End steps.

(** ** The whole run *)
Section run.
Context `{Server} `{Outside} `{RunnerLibraries}.
Context (p : containerEndpoint) (limits : Limits_) (pagesize : Z) (localErr : option failure) (deploymentID : Z).
Implicit Types (st : RunState) (ph : run_phase).

(** A loop that returns has checked every element. *)
Lemma each_check_spec {A} (f : A → result unit) l st :
  wpm (each_m l (λ x, check_result (f x))) (λ _ st', st' = st ∧ Forall (λ x, f x = Ok tt) l) (λ _ st', st' = st) st.
Proof.
  induction l as [|x l IH]; [by split|]. cbn. apply wpm_bind. destruct (f x) as [[]|e] eqn:Hx; [|done].
  cbn. eapply wpm_mono; [exact IH| |done]. cbn. intros _ st' [-> Hl]. auto.
Qed.

Lemma limits_retries step : limits_ok step = Ok tt → 0 <= sd_MaxRetries step.
Proof.
  unfold limits_ok, ValidateLimitsWithPolicy. generalize Limits as policy. intros policy.
  destruct (_ <? 0); [discriminate|]. destruct (_ <? sd_TimeoutSeconds step); [discriminate|].
  destruct (Z.ltb_spec (sd_MaxRetries step) 0); [discriminate|done].
Qed.

(** What [load_input] has read, when it returns. *)
Definition loaded (gateRun : option ArtifactGateRun) (input : RunInput) (plan : list Definition_) : Prop :=
  ri_gateRun input = gateRun ∧ (∃ mode, ri_steps input = with_check_mode mode <$> plan) ∧
  Forall (λ step, 0 <= sd_MaxRetries step) (ri_steps input).

(** The limits are checked before anything is executed. *)
Lemma checked_spec ph steps Q st :
  at_phase ph st → live ph →
  (∀ st', at_phase ph st' → Forall (λ step, 0 <= sd_MaxRetries step) steps → Q tt st') →
  wpm (or_fail p deploymentID (each_m steps (λ step, check_result (limits_ok step)))) Q (λ _, over) st.
Proof.
  intros Hp Hl HQ. unfold or_fail. apply wpm_bind, wpm_call. eapply wpm_mono; [apply each_check_spec|..]; cbn.
  - intros [] st' [-> Hall]. apply HQ; [done|]. eapply Forall_impl; [exact Hall|apply limits_retries].
  - intros e st' ->. by eapply fail_run_spec.
Qed.

Lemma load_input_spec gateRun releaseID environmentID Q st :
  let next := next_step gateRun in
  at_phase (Started next) st →
  (∀ input plan st', at_phase (Executing plan (Z.max 0 next) 1 (next <=? 0)) st' → loaded gateRun input plan → Q input st') →
  wpm (load_input p limits deploymentID gateRun releaseID environmentID) Q (λ _, over) st.
Proof.
  intros next Hp HQ. unfold load_input. fold next. assert (Hl : live (Started next)) by done.
  apply wpm_bind. eapply or_fail_spec; [effects|exact Hp|done|]. intros deployment st1 Hp1.
  apply wpm_bind, wpm_when; intros _; [by eapply fail_run_spec|].
  apply wpm_bind. eapply or_fail_spec; [effects|exact Hp1|done|]. intros release st2 Hp2.
  assert (Hpub : ∀ text, wpm (when (Z.eqb next 0) (publish DeploymentStarted text) : M unit unit)
                           (λ _, at_phase (Started next)) (λ _, over) st2).
  { intros text. apply wpm_when; intros Hz; [|done]. apply Z.eqb_eq in Hz.
    eapply wpm_record; [exact Hp2|cbn; by rewrite Hz|]. intros st' Hp' _. by rewrite Hz. }
  apply wpm_bind. eapply wpm_mono; [apply Hpub| |done]. cbn beta. intros _ st3 Hp3.
  apply wpm_bind. eapply or_fail_spec; [effects|exact Hp3|done|]. intros source st4 Hp4.
  apply wpm_bind. eapply wpm_record; [exact Hp4|reflexivity|]. intros st5 Hp5 _.
  apply wpm_bind. destruct (steps_unmarshal source) as [plan|]; [apply wpm_ret|by eapply fail_run_spec].
  set (ph := Executing plan (Z.max 0 next) 1 (next <=? 0)) in *. assert (Hlx : live ph) by done.
  apply wpm_bind. eapply checked_spec; [exact Hp5|done|]. intros st6 Hp6 Hsteps.
  apply wpm_bind. eapply or_fail_spec; [unfold list_variables; effects|exact Hp6|done|]. intros variables st7 Hp7.
  destruct (ResolveDeploymentVariables variables deployment) as [resolved|e].
  - apply wpm_ret, (HQ _ plan); [done|]. split; [done|]. split; [by eexists|done].
  - apply wpm_bind. apply (wpm_calm _ _ _ ph); [effects|total|done|apply Hlx|]. intros _ st8 Hp8. by eapply fail_run_spec.
Qed.

(** *** A run that has not started

    Nothing is staged under the deployment, so that nothing is cleaned up. *)
Definition idle st : Prop := at_phase NotStarted st ∧ rs_staging st = None.

Lemma idle_silent st st' : silent st st' → idle st → idle st'.
Proof. intros [Ht Hs] [Hp Hg]. split; [by eapply at_same|congruence]. Qed.

Lemma idle_record {X} a Q (E : X → _) st :
  idle st → next_phase NotStarted a = Some NotStarted → (∀ st', idle st' → Q tt st') → wpm (record_act a) Q E st.
Proof.
  intros [Hp Hg] Ha HQ. eapply wpm_record; [exact Hp|exact Ha|]. intros st' Hp' Hg'. apply HQ. split; [done|congruence].
Qed.

Lemma idle_cleanup {X} Q (E : X → _) st :
  idle st → (∀ e st', idle st' → Q e st') → wpm (cleanupArtifact p deploymentID) Q E st.
Proof.
  intros [Hp Hg] HQ. unfold cleanupArtifact, replaceTransfer. apply wpm_bind, wpm_bind, wpm_look, wpm_bind, wpm_modify.
  assert (Hi : idle (rs_set_transfer None st)) by done.
  destruct (rs_transfer st); [apply wpm_ask; intros st1 Hq1; apply (idle_silent _ _ Hq1) in Hi|apply wpm_ret];
    (apply wpm_bind, wpm_look; rewrite (proj2 Hi); by apply wpm_ret, HQ).
Qed.

Lemma idle_persist {X} c status wins Q (E : X → _) st :
  idle st → status ≠ "succeeded" → (∀ final st', idle st' → Q final st') →
  wpm (persistCompletion p deploymentID c status wins) Q E st.
Proof.
  intros Hi Hs HQ. unfold persistCompletion. apply wpm_bind, idle_cleanup; [done|]. intros e st1 Hi1.
  apply wpm_bind. eapply complete_spec; [apply Hi1|right; by destruct (is_null e)|]. intros r st2 Hp2 Hg2.
  assert (Hi2 : idle st2) by (split; [done|by rewrite Hg2, (proj2 Hi1)]).
  destruct r as [err|final]; [|by apply wpm_ret, HQ]. apply wpm_bind, wpm_modify, wpm_bind, wpm_ask. intros st3 Hq3.
  assert (Hi3 : idle st3) by (by apply (idle_silent (rs_set_cancels false st2))).
  apply wpm_bind, wpm_look, wpm_bind, wpm_when; intros _; [|by apply HQ].
  apply wpm_bind, wpm_modify, idle_record; [done|done|]. intros st4 Hi4. by apply HQ.
Qed.

Lemma idle_load {X} Q (E : X → _) st :
  idle st → (∀ r st', idle st' → Q r st') → wpm (load_deployment deploymentID) Q E st.
Proof.
  intros Hi HQ. unfold load_deployment. apply wpm_bind, wpm_call.
  assert (Hr : ∀ r st1, silent st st1 → wpm (record_act (ActLoad r);; mret r) Q E st1).
  { intros r st1 Hq1. apply (idle_silent _ _ Hq1) in Hi. apply wpm_bind, idle_record; [done| |].
    - destruct r as [|d]; [done|]. cbn. by destruct (String.eqb _ _).
    - intros st2 Hi2. by apply HQ. }
  apply wpm_store; intros; by apply Hr.
Qed.

Lemma idle_fail {X} Q (E : X → _) st :
  idle st → (∀ st', idle st' → Q tt st') → wpm (failUnlessCancelled p deploymentID RootContext) Q E st.
Proof.
  intros Hi HQ. unfold failUnlessCancelled. apply wpm_bind, wpm_cancelled_in. intros c st1 Hq1.
  apply (idle_silent _ _ Hq1) in Hi. destruct c.
  { apply wpm_bind, idle_persist; [done|done|]. intros final st2 Hi2. by apply HQ. }
  apply wpm_bind, idle_load; [done|]. intros [e|d] st2 Hi2; [by apply idle_record|].
  destruct (String.eqb _ _); [by apply HQ|].
  apply wpm_bind, wpm_call, wpm_store; intros a st3 Hq3; apply (idle_silent _ _ Hq3) in Hi2; apply wpm_bind.
  - apply idle_persist; [done|done|]. intros final st4 Hi4. apply wpm_when; intros _; [by apply idle_record|by apply HQ].
  - apply idle_persist; [done|done|]. intros final st4 Hi4. by apply HQ.
Qed.

Lemma begin_run_spec Q st :
  idle st → (∀ gateRun st', at_phase (Started (next_step gateRun)) st' → Q gateRun st') →
  wpm (begin_run p deploymentID) Q (λ _, idle) st.
Proof.
  intros Hi HQ. unfold begin_run.
  apply wpm_bind, wpm_ask; intros st1 Hq1; apply (idle_silent _ _ Hq1) in Hi. apply wpm_bind, wpm_when; [done|intros _].
  apply wpm_bind, wpm_ask; intros st2 Hq2; apply (idle_silent _ _ Hq2) in Hi. apply wpm_bind, wpm_when; [done|intros _].
  apply wpm_bind, wpm_look, wpm_bind, wpm_when; [done|intros _].
  assert (Hstart : ∀ gateRun st', idle st' →
    wpm (record_act (ActStart (next_step gateRun));; modify (rs_set_cancels true);; mret gateRun : M unit _) Q (λ _, idle) st').
  { intros gateRun st' [Hp' _]. apply wpm_bind. eapply wpm_record; [exact Hp'|done|]. intros st4 Hp4 _. by apply HQ. }
  apply wpm_bind, wpm_call, wpm_store; intros a st3 Hq3; apply (idle_silent _ _ Hq3) in Hi.
  - apply wpm_bind, wpm_ret, wpm_bind. destruct a as [gateRun|]; [by apply wpm_ret, Hstart|].
    apply wpm_bind, wpm_call, wpm_store; intros b st4 Hq4; apply (idle_silent _ _ Hq4) in Hi; [|done].
    destruct b; [by apply Hstart|done].
  - apply wpm_bind, wpm_bind, wpm_when; intros _; [|done]. by apply idle_fail.
Qed.

(** *** The run *)

Lemma loaded_step gateRun input plan k step :
  loaded gateRun input plan → ri_steps input !! k = Some step → planned_step plan (Z.of_nat k) step ∧ 0 <= sd_MaxRetries step.
Proof.
  intros (_ & [mode Hm] & Hr) Hk. split; [|by eapply Forall_lookup in Hr].
  rewrite Hm, list_lookup_fmap in Hk. apply fmap_Some in Hk as (s0 & Hk & ->). exists s0.
  split; [|apply similar_check_mode]. unfold at_index. rewrite (proj2 (Z.ltb_ge _ _)) by lia. by rewrite Nat2Z.id.
Qed.

Lemma run_work_loaded gateRun input plan st :
  let next := next_step gateRun in
  at_phase (Executing plan (Z.max 0 next) 1 (next <=? 0)) st → loaded gateRun input plan →
  wpm (run_work p limits pagesize localErr deploymentID input) (λ _, over) (λ _, over) st.
Proof.
  intros next Hp Hld. pose proof Hld as (Hg & [mode Hm] & _). apply (run_work_spec _ _ _ _ _ _ plan).
  - by unfold first_step; rewrite Hg.
  - unfold gated, first_step. rewrite Hg. by destruct gateRun.
  - intros k step. by apply (loaded_step gateRun).
  - by rewrite Hm, length_fmap.
Qed.

(** Where a run may have come to when it returns. *)
Definition concluded st : Prop := idle st ∨ over st.

Lemma Run_spec releaseID environmentID st :
  idle st →
  wpm (Run p limits pagesize localErr deploymentID releaseID environmentID)
    (λ _, concluded) (λ _, concluded) st.
Proof.
  intros Hi. unfold Run. apply wpm_bind. apply (wpm_mono _ (λ gateRun, at_phase (Started (next_step gateRun))) _ (λ _, idle) _).
  { by apply begin_run_spec. } 2: by left.
  intros gateRun st1 Hp1. apply wpm_bind.
  apply (wpm_mono _ (λ input st', ∃ plan, at_phase (Executing plan (Z.max 0 (next_step gateRun)) 1 (next_step gateRun <=? 0)) st' ∧
    loaded gateRun input plan) _ (λ _, over) _); [eapply load_input_spec; by eauto| |by right].
  intros input st2 (plan & Hp2 & Hld). set (ph := Executing plan _ 1 _) in Hp2. assert (Hl : live ph) by done.
  apply wpm_bind. apply (wpm_calm _ _ _ ph); [|unfold beginLocalWork; total|done..|].
  { unfold beginLocalWork. apply effects_bind; [typeclasses eauto|effects|]. intros []; [effects|].
    apply effects_bind; [typeclasses eauto| |effects]. intros st'. exists []. by rewrite app_nil_r. }
  intros began st3 Hp3. apply wpm_bind, wpm_when; intros _.
  { apply (wpm_mono _ (λ _ _, False) _ (λ _, over) _); [by eapply cancel_run_spec|done|by right]. }
  apply wpm_bind, wpm_modify, wpm_defer. eapply wpm_mono; [by eapply run_work_loaded|..].
  all: intros ? st4 [e Hp4]; unfold release_work; apply wpm_bind, wpm_look, wpm_when; intros _;
    [apply wpm_modify|]; right; by exists e.
Qed.
End run.
