(* ===== verification/LocalSafety.v ===== *)
(** * LocalSafety: what a run of the server guarantees

    The properties of [LocalRunner.Run] that follow from the plan it refines
    ([LocalRunTheorems], [RunPlan]) and from the calculus of local work
    ([RunCalculus]); and the container of an attempt, by the traces of
    [LocalStep.run_container]: the client is asked to run it once and then to
    remove it, and an attempt whose container may still exist says so. *)
From S2P Require Import Prelude Text Db Tx QueueQueries DeploymentQueue DispatchQueries CreationQueries GateQueries ArtifactGate Secret Variables Resolution Ansible DeploymentCreation RemotePayload LogScrub LogWriter Container ContainerTheorems StepRunner Runs Runtime LocalStaging LocalStep LocalRun LocalRunner RunCalculus RunPlan LocalRunTheorems QueueTheorems System SampleServer.

(** ** Acts that end the execution *)

Definition executes (a : Act) : bool :=
  match a with ActRestore _ _ | ActAttempt _ _ _ | ActRemote _ _ | ActVerify _ => true | _ => false end.

(** Nothing is executed after these. *)
Definition conclusive (a : Act) : bool :=
  match a with
  | ActAttempt _ _ (Some e) => errors_Is e IsContainerCleanup
  | ActRestore _ (Some _) | ActRemote _ (Some _) | ActVerify _ | ActPause _ _ | ActComplete _ _ | ActGiveUp | ActWaiting _ => true
  | ActLoad (inr d) => String.eqb (d_Status d) "cancelled"
  | _ => false
  end.

Definition at_rest (ph : run_phase) : bool := match ph with Halted | Verified | Ended _ => true | _ => false end.

Section rest.
Context `{CreationLibraries}.

Lemma rest_advance ph a ph' :
  at_rest ph = true → next_phase ph a = Some ph' → at_rest ph' = true ∧ executes a = false.
Proof.
  intros Hr Ha. destruct ph; try done; destruct a as [| | | | | | | | |status []| | |[|d]|[]]; cbn in Ha;
    repeat case_match; by simplify_eq.
Qed.

Lemma rest_follow ph acts ph' :
  at_rest ph = true → follow ph acts = Some ph' → Forall (λ a, executes a = false) acts.
Proof.
  revert ph. induction acts as [|a acts IH]; intros ph Hr Hf; [constructor|]. cbn in Hf.
  destruct (next_phase ph a) as [next|] eqn:Ha; [|done]. destruct (rest_advance _ _ _ Hr Ha). constructor; eauto.
Qed.

Lemma conclusive_rest ph a ph' :
  conclusive a = true → ph ≠ NotStarted → next_phase ph a = Some ph' → at_rest ph' = true.
Proof.
  intros Hc Hn Ha. destruct a as [| | | | |i [e|]|i k [e|]|i [e|]|e|status r| |next [e|]|[|d]|]; try done; cbn in Hc, Ha.
  all: try (destruct ph; repeat case_match; by simplify_eq).
  unfold advance_attempt in Ha. rewrite Hc in Ha. destruct ph; repeat case_match; by simplify_eq.
Qed.

Lemma started_phase acts n ph : follow NotStarted acts = Some ph → ActStart n ∈ acts → ph ≠ NotStarted.
Proof. intros Hf%follow_past Hs ->. by destruct Hf as [Hn _]; eapply Hn. Qed.
End rest.

(** ** The run *)
Section run.
Context `{Server} `{Outside} `{RunnerLibraries}.
Context (p : containerEndpoint) (limits : Limits_) (pagesize : Z) (localErr : option failure) (deploymentID : Z).
Context (releaseID environmentID : Z).

Definition after_run (st : RunState) : RunState :=
  (Run p limits pagesize localErr deploymentID releaseID environmentID st).2.

(** A run that begins: it has done nothing, and nothing is staged for the
    deployment. *)
Definition fresh (st : RunState) : Prop := rs_trace st = [] ∧ rs_staging st = None.

Lemma after_run_follows st :
  fresh st → ∃ ph, follow NotStarted (rs_trace (after_run st)) = Some ph ∧ (ph = NotStarted ∨ ∃ e, ph = Ended e).
Proof.
  intros [Ht Hg]. assert (Hi : idle st) by (split; [unfold at_phase; by rewrite Ht|done]).
  pose proof (Run_spec p limits pagesize localErr deploymentID releaseID environmentID st Hi) as Hr.
  unfold wpm in Hr. unfold after_run. destruct (Run _ _ _ _ _ _ _ st) as [[x|u] st'];
    destruct Hr as [[Hp _]|[e Hp]]; eauto.
Qed.

(** C2: whatever the store, the container client, the agents and the clock
    answer, a run returns, and what it has done is a path of the abstract plan
    from its start to an end: the deployment is claimed first, its steps are read
    once and executed one after the other from the first one that is due, what
    was approved is restored before, each attempt has the next number, a step
    with a gate ends in a pause, the verification follows the last step, and one
    of the ways to end is recorded; or the run has not started, and has not
    called the container client at all. *)
Theorem run_refines_plan st :
  fresh st →
  ∃ ph, follow NotStarted (rs_trace (after_run st)) = Some ph ∧ (ph = NotStarted ∨ ∃ e, ph = Ended e).
Proof. apply after_run_follows. Qed.

(** C3: a success is only published for a deployment that has been executed
    completely: when the event is handed to the bus, every step from the first
    one due to the last one has succeeded, on the server within its attempts or
    on its agents; a run that resumed after a gate had restored what was
    approved; the verification had passed; and the status that the store
    returned is [succeeded]. *)
Theorem success_only_when_executed st text :
  fresh st → ActPublish DeploymentSucceeded text ∈ rs_trace (after_run st) →
  ∃ before after next plan status,
    rs_trace (after_run st) = before ++ ActPublish DeploymentSucceeded text :: after ∧
    complete_run before next plan ∧ ActComplete status (inr "succeeded") ∈ before.
Proof.
  intros (ph & Hf & _)%after_run_follows Hin.
  destruct (follow_elem _ _ _ _ Hf Hin) as (before & after & mid & next & Ht & Hb%follow_past & Ha & _).
  assert (mid = Ended (Completed "succeeded")) as -> by (cbn in Ha; repeat case_match; by simplify_eq).
  destruct Hb as [_ Hb]. destruct (Hb _ eq_refl) as (n & plan & status & Hc & Hs). eauto 10.
Qed.

(** No step is attempted more often than it may be: the attempts of a step
    in the trace of a run are at most one more than its retries, for the steps
    as the run has read them. *)
Theorem attempts_bounded st source plan i step :
  fresh st → ActSource source ∈ rs_trace (after_run st) → steps_unmarshal source = Some plan →
  at_index plan i = Some step → tries i (rs_trace (after_run st)) <= Z.max 0 (sd_MaxRetries step + 1).
Proof.
  intros (ph & Hf & _)%after_run_follows Hs Hu Hi. apply follow_past in Hf.
  pose proof (past_within _ _ _ _ Hf Hs Hu i) as Hw. unfold allowed_tries in Hw. by rewrite Hi in Hw.
Qed.

(** C5: once a container may still be running, a step of agents or the
    verification has failed, what was approved cannot be restored, the run
    pauses, the deployment is found cancelled or its end is recorded, nothing
    else is executed by that run: no further attempt, no further step and no
    verification. *)
Theorem nothing_after_the_end st n before a after :
  fresh st → rs_trace (after_run st) = before ++ a :: after → ActStart n ∈ before → conclusive a = true →
  Forall (λ b, executes b = false) after.
Proof.
  intros (ph & Hf & _)%after_run_follows Ht Hs Hc. rewrite Ht, follow_app in Hf.
  destruct (follow NotStarted before) as [mid|] eqn:Hb; [|done]. cbn in Hf.
  destruct (next_phase mid a) as [next|] eqn:Ha; [|done]. eapply rest_follow; [|exact Hf].
  eapply conclusive_rest; [exact Hc| |exact Ha]. by eapply started_phase.
Qed.

(** While [Run] holds no work, a computation that leaves it alone changes nothing. *)
Lemma work_after {A B} (m : M unit A) (k : A → M unit B) :
  effects balanced m →
  (∀ a st, rs_artifactWork st = false → rs_localWork (k a st).2 = rs_localWork st) →
  ∀ st, rs_artifactWork st = false → rs_localWork ((m ≫= k) st).2 = rs_localWork st.
Proof.
  intros Hm Hk st Ha. specialize (Hm st). unfold mbind, m_bind.
  destruct (m st) as [[x|a] st1]; destruct Hm as [Hh Haw]; unfold held_work in Hh; cbn in *; rewrite Haw, Ha in Hh; [lia|].
  rewrite Hk by congruence. lia.
Qed.

(** From the point where [Run] begins its work, to the deferred end of it. *)
Lemma work_released (m : M unit unit) st :
  (∀ st', rs_artifactWork st' = true → held st' (m st').2) → rs_artifactWork st = false →
  rs_localWork (defer m release_work (rs_set_artifactWork true (rs_set_localWork (rs_localWork st + 1) st))).2 = rs_localWork st.
Proof.
  intros Hm Ha. unfold defer. set (st1 := rs_set_artifactWork true _). specialize (Hm st1 eq_refl).
  destruct (m st1) as [r st2]. unfold held, held_work in Hm. cbn in *.
  unfold release_work, mbind, m_bind, look_at. destruct (rs_artifactWork st2); cbn; lia.
Qed.

Lemma cancelled_work {A B} (k : A → M unit B) st :
  rs_artifactWork st = false → rs_localWork ((cancel_run p deploymentID ≫= k) st).2 = rs_localWork st.
Proof.
  intros Ha. assert (Hc : effects balanced (finalizeCancellation p deploymentID : M unit unit)) by effects.
  specialize (Hc st). unfold cancel_run, mbind, m_bind.
  destruct (finalizeCancellation p deploymentID st) as [[x|u] st1]; destruct Hc as [Hh Haw];
    unfold held_work in Hh; cbn in *; rewrite Haw, Ha in Hh; lia.
Qed.

(** C17: a run gives back exactly the local work that it has begun, however it
    ends, so that the server, which stops when the counter is zero, neither
    waits for a run that has returned nor stops under one that goes on. *)
Theorem local_work_balanced st :
  rs_artifactWork st = false → rs_localWork (after_run st) = rs_localWork st.
Proof.
  revert st. unfold after_run, Run. apply work_after; [apply effects_begin_run; typeclasses eauto|]. intros gateRun.
  apply work_after; [apply effects_load_input; typeclasses eauto|]. intros input st Ha.
  unfold beginLocalWork, ask, mbind, m_bind. destruct (stopping (rs_clock st)); cbn [negb when].
  - exact (cancelled_work (λ _, modify (rs_set_artifactWork true);;
      defer (run_work p limits pagesize localErr deploymentID input) release_work) (rs_set_clock (S (rs_clock st)) st) Ha).
  - exact (work_released _ (rs_set_clock (S (rs_clock st)) st) (held_run_work p limits pagesize localErr deploymentID input) Ha).
Qed.
End run.

(** ** The container of an attempt *)

(** *** Computations that leave the trace as it is *)

Definition traceless (st st' : RunState) : Prop := rs_trace st' = rs_trace st.

#[export] Instance traceless_relation : RunRelation traceless.
Proof.
  split; unfold traceless.
  - done.
  - intros st1 st2 st3 H1 H2. congruence.
  - by intros st st' (Ht & _).
Qed.

Section container.
Context `{Server} `{Outside} `{RunnerLibraries}.
Context (p : containerEndpoint) (limits : Limits_) (deploymentID : Z) (log : LogTarget).

Lemma traceless_copy {X} chunks : effects traceless (copy_output limits deploymentID log chunks : M X _).
Proof. induction chunks; cbn [copy_output]; effects. Qed.
#[local] Hint Resolve traceless_copy : effects.

Lemma total_copy {X} chunks : total (copy_output limits deploymentID log chunks : M X _).
Proof. induction chunks; cbn [copy_output]; total. Qed.
#[local] Hint Resolve total_copy : total.

Lemma wpm_traceless {X A} (m : M X A) Q (E : X → _) st :
  effects traceless m → total m → (∀ a st', rs_trace st' = rs_trace st → Q a st') → wpm m Q E st.
Proof. intros Hm Ht HQ. eapply wpm_total; [exact Hm|done|exact HQ]. Qed.

(** The trace after one more command. *)
Definition commanded (st st' : RunState) (args entries : list string) (stdin : option string) (answer : ClientResult) : Prop :=
  rs_trace st' = rs_trace st ++ [ActCommand args entries stdin answer].

Lemma wpm_command {X} args entries stdin Q (E : X → _) st :
  (∀ answer st', commanded st st' args entries stdin answer → Q answer st') → wpm (command args entries stdin) Q E st.
Proof. intros HQ. by apply HQ. Qed.

(** The client is asked once. *)
Lemma run_process_trace request args entries timeout st :
  wpm (run_process limits deploymentID log request args entries timeout)
    (λ _ st', ∃ stdin answer, commanded st st' args entries stdin answer ∧ cl_error answer = None)
    (λ _ st', ∃ stdin answer, commanded st st' args entries stdin answer) st.
Proof.
  unfold run_process. apply wpm_bind, wpm_command. intros answer st1 Hc.
  set (stdin := if String.eqb _ _ then _ else _) in Hc.
  assert (Hend : ∀ st', rs_trace st' = rs_trace st1 → commanded st st' args entries stdin answer)
    by (unfold commanded; intros; congruence).
  apply wpm_bind. apply wpm_traceless; [effects|total|]. intros copyErr st2 Ht2.
  apply wpm_bind, wpm_look. destruct (w_outputFailed (rs_writer st2)).
  { destruct (Join _ _); apply wpm_stop; eauto. }
  destruct (cl_error answer) as [e|] eqn:He; [|destruct copyErr as [e|]; [|apply wpm_ret; eauto]].
  all: apply wpm_bind, wpm_traceless; [effects|total|]; intros _ st3 Ht3; apply wpm_stop;
    exists stdin, answer; apply Hend; congruence.
Qed.

(** The container may still exist. *)
Definition unremoved (removal : ClientResult) : bool :=
  removalError p (output_of removal) (not_null (cl_error removal)).

Lemma remove_container_trace {X} request name Q (E : X → _) st :
  (∀ removal e st', commanded st st' (removeArgs p name) [] None removal →
     (if unremoved removal then ∃ f, e = Some f ∧ errors_Is f IsContainerCleanup = true else e = None) → Q e st') →
  wpm (remove_container p deploymentID log request name) Q E st.
Proof.
  intros HQ. unfold remove_container. apply wpm_bind, wpm_command. intros removal st1 Hc.
  apply wpm_bind, wpm_traceless; [effects|total|]. intros _ st2 Ht2. specialize (HQ removal).
  assert (Hend : ∀ st', rs_trace st' = rs_trace st1 → commanded st st' (removeArgs p name) [] None removal)
    by (unfold commanded; intros; congruence).
  fold (unremoved removal). destruct (unremoved removal); [|by apply wpm_ret, HQ; [apply Hend|]].
  apply wpm_bind, wpm_traceless; [effects|total|]. intros persistErr st3 Ht3. apply wpm_ret, HQ; [apply Hend; congruence|].
  destruct persistErr as [e|]; eexists; (split; [reflexivity|]); reflexivity.
Qed.

(** How [run_container] ends: before the client is asked, with an error; or
    after the container has been run and its removal asked for. *)
Definition contained (request : localStepAttempt) (selected : string) (timeout : Z) (st st' : RunState) (e : option failure) : Prop :=
  (rs_trace st' = rs_trace st ∧ e ≠ None) ∨
  ∃ nonce selectedEnv envArgs stdin answer removal,
    let name := container_name deploymentID request nonce in
    containerEnvironment request = Ok (selectedEnv, envArgs) ∧
    rs_trace st' = rs_trace st ++
      [ActCommand (localContainerArgs p limits request name selected timeout envArgs) selectedEnv stdin answer;
       ActCommand (removeArgs p name) [] None removal] ∧
    rs_attempt st' = None ∧
    (unremoved removal = true → ∃ f, e = Some f ∧ errors_Is f IsContainerCleanup = true) ∧
    (e = None → cl_error answer = None ∧ unremoved removal = false).

Lemma Join_some_r a f : errors_Is f IsContainerCleanup = true →
  ∃ g, Join a (Some f) = Some g ∧ errors_Is g IsContainerCleanup = true.
Proof.
  intros Hf. destruct a as [e|]; [|by exists f]. eexists. split; [done|]. unfold errors_Is in *. cbn.
  apply bool_decide_eq_true in Hf. apply bool_decide_eq_true, elem_of_app. by right.
Qed.

(** The two commands, and the error of both. *)
Lemma defer_removal_trace request args entries timeout name st :
  let post := λ (e : option failure) st', ∃ stdin answer removal,
    rs_trace st' = rs_trace st ++ [ActCommand args entries stdin answer; ActCommand (removeArgs p name) [] None removal] ∧
    (unremoved removal = true → ∃ f, e = Some f ∧ errors_Is f IsContainerCleanup = true) ∧
    (e = None → cl_error answer = None ∧ unremoved removal = false) in
  wpm (defer_join (run_process limits deploymentID log request args entries timeout)
         (remove_container p deploymentID log request name)) (λ _, post None) (λ e, post (Some e)) st.
Proof.
  intros post. unfold defer_join. apply wpm_bind, wpm_error_of.
  assert (Hrest : ∀ e st1 stdin answer, commanded st st1 args entries stdin answer → (e = None → cl_error answer = None) →
    wpm (e' ← plain (remove_container p deploymentID log request name);
         match Join e e' with Some e => stop e | None => mret tt end) (λ _, post None) (λ e, post (Some e)) st1).
  { intros e st1 stdin answer Hc He. apply wpm_bind, wpm_plain, remove_container_trace. intros removal e' st2 Hc2 He'.
    assert (Ht : rs_trace st2 = rs_trace st ++
        [ActCommand args entries stdin answer; ActCommand (removeArgs p name) [] None removal])
      by (unfold commanded in *; by rewrite Hc2, Hc, <-(assoc_L (++))).
    destruct (unremoved removal) eqn:Hu.
    - destruct He' as (f & -> & Hf). destruct (Join_some_r e f Hf) as (g & -> & Hg). apply wpm_stop.
      exists stdin, answer, removal. split; [done|]. split; [by exists g|done].
    - subst e'. destruct e as [e|]; cbn [Join]; [apply wpm_stop|apply wpm_ret];
        (exists stdin, answer, removal; split; [done|]; split; [by rewrite Hu|]); [done|by auto]. }
  eapply wpm_mono; [apply run_process_trace|cbn..].
  - intros _ st1 (stdin & answer & Hc & Ha). by apply (Hrest None st1 stdin answer).
  - intros e st1 (stdin & answer & Hc). by apply (Hrest (Some e) st1 stdin answer).
Qed.

Lemma run_container_trace request host selected timeout st :
  wpm (run_container p limits deploymentID log request host selected timeout)
    (λ _ st', contained request selected timeout st st' None) (λ e st', contained request selected timeout st st' (Some e)) st.
Proof.
  unfold run_container. destruct (containerEnvironment request) as [[selectedEnv envArgs]|e] eqn:Henv.
  2: { unfold failed_before. apply wpm_bind, wpm_traceless; [effects|total|]. intros r st1 Ht1.
       apply wpm_bind, wpm_traceless; [effects|total|]. intros _ st2 Ht2.
       destruct (Join _ _); apply wpm_stop; left; (split; [congruence|done]). }
  apply wpm_bind, wpm_traceless; [effects|total|]. intros [nonce|] st1 Ht1; [|by apply wpm_stop; left].
  apply wpm_bind, wpm_traceless; [effects|total|]. intros r st2 Ht2.
  apply wpm_bind. destruct r as [e|]; [apply wpm_stop; left; split; [congruence|done]|apply wpm_ret].
  apply wpm_bind, wpm_modify, wpm_defer. eapply wpm_mono; [apply defer_removal_trace|cbn..].
  all: intros e st3 (stdin & answer & removal & Ht & Hu & He); right;
    exists nonce, selectedEnv, envArgs, stdin, answer, removal; (split; [done|]); (split; [cbn; rewrite Ht; congruence|]); (split; [done|]); split; [exact Hu|exact He].
Qed.

(** C12: the container of an attempt never outlives it unnoticed. Either the
    client has not been asked to run it, and the attempt has failed; or it has
    been asked once, with the arguments of the step and a name that carries the
    deployment and the attempt, and then to remove the container of that very
    name. If that removal may have failed, the error of the attempt is the one
    that stops the run and marks the deployment; without an error, the process
    has ended well and the container is gone. *)
Theorem container_removed request host selected timeout st :
  let '(r, st') := run_container p limits deploymentID log request host selected timeout st in
  contained request selected timeout st st' (match r with inl e => Some e | inr _ => None end).
Proof.
  pose proof (run_container_trace request host selected timeout st) as Ht.
  unfold wpm in Ht. by destruct (run_container _ _ _ _ _ _ _ _ st) as [[e|[]] st'].
Qed.
End container.

(** ** Witnesses

    An outside on which the server runs a deployment: nothing fails unless the
    client does, nobody else writes to the store, and a keeper that is inspected
    is running. *)

#[local] Existing Instance sample_environment.
#[local] Existing Instance sample_server.

Definition sample_outside (run : list string → ClientResult) : Outside := {|
  world := λ _ s, s;
  store_fault := λ _, None;
  run_cancelled := λ _, false;
  root_cancelled := λ _, false;
  step_expired := λ _, None;
  setup_expired := λ _, false;
  stopping := λ _, false;
  unix_time := λ _, 100;
  random := λ _, Some "00";
  client := λ _ args _ _, run args;
  close_file := λ _, None;
  open_file := λ _, None;
  remove_file := λ _, None;
  download_artifact := λ _, None;
  package_archive := λ _, inr "";
  save_staging := λ _ _, None;
  same_snapshot := λ _ _, false;
  snapshot_size := λ _ _, 1024;
  merge_snapshots := λ _, inr "";
  chunk_nonces := λ _ _, None;
  check_http := λ _ _, mkClientResult [] None;
  check_expired := λ _, None;
  agent_rounds := λ _, [];
  map_order := map_to_list;
  NewScrubber := λ _, None;
  http_scrubber := λ _ _, None |}.

#[local] Instance sample_runner : RunnerLibraries := {
  volumes_unmarshal := λ _, inr false;
  info_unmarshal := λ _, Some ("host", "host");
  copy_bundle := λ _ _ _ _, inr ("", "", "");
  validate_nodes := λ _, None;
  read_archive := λ _, None;
  empty_archive := "";
  write_archive := λ _, inr "";
  archive_length := λ _, 0;
  strings_marshal := λ _, "{}";
  private_key := λ _, true;
  duration_string := λ _, "1m0s" }.

Definition sample_podman : containerEndpoint := mkEndpoint "podman" "podman" "" "default".

Definition sample_all_limits : Limits_ := mkAllLimits 60 1000 1000 10 1000 10 10 10000 64 1000 16 "1" 1000 4096.

(** Deployment 5 of a release with the two steps of [sample_codecs]. *)
Definition sample_run_store : DB :=
  set_step_sources {[5 := "two"]}
    (sample_store [mkDeployment 5 1 7 "pending" None None 10 0 None None "deployment" None None (Some "prod") None]
       {[(1, 7) := 5]}).

Definition sample_state (s : DB) : RunState :=
  mkRunState 0 s [] (mkWriter "" false) None None false None false 0 false false.

Definition client_ok (args : list string) : ClientResult :=
  mkClientResult (if bool_decide (head args = Some "inspect") then ["true"] else []) None.

(** The client cannot remove a container. *)
Definition client_stuck (args : list string) : ClientResult :=
  if bool_decide (head args = Some "rm") then mkClientResult [] (Some (errors_New "busy")) else client_ok args.

Definition run_with (run : list string → ClientResult) : RunState :=
  (let outside := sample_outside run in Run sample_podman sample_all_limits 4096 None 5 1 7 (sample_state sample_run_store)).2.



#[local] Notation sample_after run :=
  (@after_run _ (sample_outside run) _ sample_podman sample_all_limits 4096 None 5 1 7 (sample_state sample_run_store)).

Lemma run_refines_plan_witness :
  follow NotStarted (rs_trace (sample_after client_ok)) = Some (Ended (Completed "succeeded")) ∧
  ∃ ph, follow NotStarted (rs_trace (sample_after client_stuck)) = Some ph ∧ (ph = NotStarted ∨ ∃ e, ph = Ended e).
Proof.
  split; [by vm_compute|].
  by apply (@run_refines_plan _ (sample_outside client_stuck) _ sample_podman sample_all_limits 4096 None 5 1 7).
Defined.

Lemma success_only_when_executed_witness :
  ∃ before after next plan status,
    rs_trace (sample_after client_ok) =
      before ++ ActPublish DeploymentSucceeded "Deployment #5 succeeded on prod" :: after ∧
    complete_run before next plan ∧ ActComplete status (inr "succeeded") ∈ before.
Proof.
  apply (@success_only_when_executed _ (sample_outside client_ok) _ sample_podman sample_all_limits 4096 None 5 1 7);
    [done|].
  by apply (list_elem_of_lookup_2 _ 19); vm_compute.
Defined.

Lemma attempts_bounded_witness :
  tries 0 (rs_trace (sample_after client_ok)) = 1 ∧ tries 0 (rs_trace (sample_after client_stuck)) <= 1.
Proof.
  split; [by vm_compute|].
  apply (@attempts_bounded _ (sample_outside client_stuck) _ sample_podman sample_all_limits 4096 None 5 1 7
    (sample_state sample_run_store) "two" [sample_definition "build" ""; sample_definition "deploy" ""] 0
    (sample_definition "build" "")); [done| |by vm_compute..].
  by apply (list_elem_of_lookup_2 _ 2); vm_compute.
Defined.

(** The first attempt cannot be cleaned up: the second step is never executed. *)
Lemma nothing_after_the_end_witness :
  Forall (λ b, executes b = false) (drop 10 (rs_trace (sample_after client_stuck))) ∧
  length (drop 10 (rs_trace (sample_after client_stuck))) = 5%nat.
Proof.
  split; [|by vm_compute].
  assert (Ht : ∃ a, rs_trace (sample_after client_stuck) !! 9%nat = Some a ∧ conclusive a = true)
    by (eexists; split; [vm_compute; reflexivity|reflexivity]).
  destruct Ht as (a & Ha & Hc).
  apply (@nothing_after_the_end _ (sample_outside client_stuck) _ sample_podman sample_all_limits 4096 None 5 1 7
    (sample_state sample_run_store) 0 (take 9 (rs_trace (sample_after client_stuck))) a
    (drop 10 (rs_trace (sample_after client_stuck)))); [by split| | |exact Hc].
  - exact (eq_sym (take_drop_middle (rs_trace (sample_after client_stuck)) 9 a Ha)).
  - by apply (list_elem_of_lookup_2 _ 0); vm_compute.
Defined.

Lemma local_work_balanced_witness : rs_localWork (sample_after client_stuck) = 0.
Proof.
  by apply (@local_work_balanced _ (sample_outside client_stuck) _ sample_podman sample_all_limits 4096 None 5 1 7
    (sample_state sample_run_store)).
Defined.
